(* ===== verification/_CoqProject ===== *)
-Q . S2P
Prelude.v
Streams.v
InputBufferWrapper.v
OutputBufferWrapper.v
FixedBuffer.v
ByteBuffer.v
Buffered.v
IOBuf.v
Text.v
Version.v
Cells.v
StringBuffer.v
OrdMap.v
TimeWheel.v
Double.v
Value.v
DateTime.v
DateParse.v
Header.v
Huffman.v
DynamicTable.v
Words.v
Endian.v
Dns.v
DnsNames.v
DnsRoundtrip.v
DnsService.v
Http2Frame.v
HPack.v
HPackSafety.v
Base64.v
Percent.v
Request.v
HttpUtil.v
HttpMessages.v
HttpClient.v
HttpClientProof.v
HttpUrl.v
ContentTypeMap.v
HttpService.v
HttpConnection.v
Http1Delivery.v
Http1Exchange.v
Http2Connection.v
Http2Delivery.v
Http2Behaviour.v
Http2Invariant.v
Json.v
JsonPointer.v
JsonTotal.v
JsonWrite.v
JsonRoundtrip.v
Csv.v
Xml.v
XmlRoundtrip.v
Ini.v
Yaml.v
YamlRoundtrip.v
Algorithm.v
Utf8.v
SString.v
SStringChars.v
SStringBuilder.v
Threads.v
LinkedStack.v
LinkedStackProof.v
LinkedQueue.v
LinkedQueueProof.v
SHA1.v
Websocket.v
MD5.v
SHA256.v
