(* ===== verification/Prelude.v ===== *)
(** * Verification of the Sese framework

    Sese is a C++ framework of streams, text, encodings, digests and network
    services. This development models the parts of [src/sese] that carry its own
    logic and proves what they promise to each other.

    ** How the parts depend on each other

    Everything that moves bytes does it through the abstract streams of
    [sese/io]: the digests and the encodings read from an [InputStream] and write
    to an [OutputStream]; HPACK reads a header block from one, writes one to the
    other, codes strings with the Huffman coder and keeps an HTTP header and a
    dynamic table up to date; the header keeps fields and cookies in maps whose
    keys ignore letter case, and cookies carry dates. The HTTP/2 connection reads
    frames from a socket, decodes their header blocks with HPACK, gives each request to
    the service (filters, mount points, servlets) and sends the response as frames. The
    HTTP/1 connection collects a request from packets in a chain of blocks, reads it as
    lines of text, gives it to the same service and writes the response in blocks. The HTTP client
    takes a URL apart, finds an address, sends such a request over a socket and reads the response,
    which are the messages that the service reads and writes. JSON, YAML,
    XML, INI files and CSV are read from and written to streams; JSON and YAML build the same values, which
    keep dictionaries in ordered maps. The DNS resolver and the DNS service exchange packages of
    names in compressed form; the WebSocket handshake puts a digest and an encoding together.
    Strings, their builders, versions, the time wheel, the lock-free stack and the
    lock-free queue stand for themselves.
    The development has the same shape: the streams are type classes with laws
    ([Streams.v]), the clients are proved against the laws, and the buffers of [sese/io]
    are the instances; the file system is a class of its own ([FileSystem]), and the
    socket is an environment that delivers events.

    ** The files

    - [Prelude.v] (this file): machine words, bytes, undefined behaviour, memory
      blocks, decimal numerals, tactics and hint databases.
    - [Streams.v]: [InputStream], [OutputStream], [PeekableStream], their laws
      ([MemInput], [MemOutput], [MemSource] for a source that may only be read as far
      as it goes, and [ByteSource] for one that gives a byte whenever there is one) and what
      follows from them.
    - [InputBufferWrapper.v], [OutputBufferWrapper.v], [FixedBuffer.v]: the streams
      over one block of memory ([io/InputBufferWrapper.cpp],
      [io/OutputBufferWrapper.cpp], [io/AbstractFixedBuffer.cpp]); records of
      positions and capacity over a byte list, with their validity invariant.
    - [ByteBuffer.v]: the growing buffer ([io/AbstractByteBuffer.cpp]): a list of
      nodes, the indices of the read and the write node and the positions in them.
    - [Buffered.v]: buffered input and output over any stream ([io/BufferedInputStream.cpp],
      [BufferedOutputStream.cpp], [BufferedStream.cpp]).
    - [IOBuf.v]: the receive buffer ([util/IOBuf.cpp]): a list of blocks and an iterator.
    - [Text.v]: comparison without case, numbers as text, [split], [join], prefixes
      ([util/Util.cpp], [text/AbstractStringBuffer.cpp]).
    - [Cells.v], [StringBuffer.v]: blocks of cells that are shifted in place, and the string
      buffer over one ([text/AbstractStringBuffer.cpp]).
    - [Version.v]: [util/Version.cpp].
    - [OrdMap.v]: [std::map] with a comparator, as a sorted association list.
    - [TimeWheel.v]: [util/TimeWheel.cpp]: sixty lists of events, which are entries of a heap.
    - [DateTime.v], [DateParse.v]: dates ([util/DateTime.cpp],
      [text/DateTimeFormatter.cpp], [text/DateTimeParser.cpp]).
    - [Header.v]: [net/http/Header.cpp], [Cookie.cpp], [CookieMap.cpp].
    - [Huffman.v]: [net/http/Huffman.cpp] and the code table of [HPACK.h].
    - [DynamicTable.v]: [net/http/DynamicTable.cpp].
    - [HPack.v], [HPackSafety.v]: [net/http/HPackUtil.cpp], decoder and encoder,
      and the decoder on arbitrary input.
    - [Base64.v], [Percent.v]: [util/Base64Converter.cpp],
      [util/PercentConverter.cpp].
    - [Request.v]: requests and responses, URLs, ranges, the conversion of headers
      between HTTP/1 and HTTP/2 ([net/http/RequestHeader.cpp], [Range.cpp],
      [HttpConverter.cpp]).
    - [HttpUtil.v], [HttpMessages.v]: [net/http/HttpUtil.cpp], and the round trips of its
      messages.
    - [HttpClient.v], [HttpClientProof.v]: [internal/net/http/HttpClientImpl.cpp] over a class of
      sockets ([Socket]), and a whole request; [HttpUrl.v]: [net/http/UrlHelper.cpp],
      [RequestParser.cpp], [net/AddressPool.h] and the creation of a client.
    - [HttpConnection.v]: [internal/service/http/HttpConnection.cpp] and
      [HttpConnectionImpl.cpp], one definition per handler; [Http1Delivery.v],
      [Http1Exchange.v]: how a response is sent, and a whole exchange.
    - [ContentTypeMap.v], [HttpService.v]: [net/http/ContentTypeMap.cpp],
      [Controller.cpp] and the dispatch of [internal/service/http/HttpServiceImpl.cpp].
    - [Endian.v], [Dns.v], [DnsNames.v], [DnsRoundtrip.v]: byte order ([util/Endian.h]), DNS
      packages ([net/dns/DnsPackage.cpp] and its index), names on the wire, and packages read
      back; [DnsService.v]: [net/dns/Resolver.cpp] and [internal/service/dns/DnsService.cpp].
    - [Http2Frame.v]: [net/http/Http2Frame.cpp] and the reading of a frame header.
    - [Http2Connection.v]: [internal/service/http/HttpConnectionEx.cpp] and
      [HttpConnectionExImpl.cpp], one definition per handler; the state of a connection
      is the record [Conn], and [step] is what a completion of the socket does to it.
    - [Http2Delivery.v], [Http2Behaviour.v], [Http2Invariant.v]: what the connection
      guarantees: responses are delivered, the answer to each kind of frame, the
      invariant of every reachable state.
    - [Words.v], [SHA1.v], [MD5.v], [SHA256.v]: the digests ([util/SHA1Util.cpp],
      [util/MD5Util.cpp], [util/SHA256Util.cpp]) and the construction they share.
    - [Websocket.v]: [net/ws/WebSocketAuthenticator.cpp].
    - [Double.v], [Value.v]: numbers of type [double], and [util/Value.cpp].
    - [Json.v]: [config/Json.cpp]; [JsonPointer.v], [JsonTotal.v], [JsonWrite.v],
      [JsonRoundtrip.v]: pointers into a value, the parser on any input, the writer, and the
      round trip.
    - [Csv.v]: [config/CSVReader.cpp] and [CSVWriter.cpp], with their round trip.
    - [Xml.v], [XmlRoundtrip.v]: [config/xml/XmlUtil.cpp], and the round trip.
    - [Ini.v]: [io/InputStreamReader.cpp] and [config/ini/IniUtil.cpp], with the round trip.
    - [Yaml.v], [YamlRoundtrip.v]: [config/Yaml.cpp], and the round trip.
    - [Algorithm.v], [Utf8.v], [SString.v]: [text/Algorithm.cpp] and [text/SString.cpp];
      [SStringChars.v]: strings as sequences of characters; [SStringBuilder.v]:
      [text/SStringBuilder.cpp].
    - [Threads.v]: threads over a shared memory, their schedules, and objects whose operations are
      atomic; [LinkedStack.v], [LinkedStackProof.v], [LinkedQueue.v], [LinkedQueueProof.v]:
      [concurrent/LinkedStack.h] and [LinkedQueue.h] under every interleaving of their threads.

    A comment that starts with [@] before a definition names the file, the lines
    and the symbol that the definition translates.

    ** Conventions

    A word of [w] bits is a [Z] with its wrap-around written out ([wrap w],
    [swrap w]); a [std::string] and a block of memory are lists of bytes. An
    operation that can meet undefined behaviour (an access outside a block, an
    oversized shift, [back()] of an empty container) returns an [outcome], and
    [Undef] absorbs what follows it. Bytes that were never written are [poison],
    which is no byte, so a result made of bytes shows that nothing uninitialised
    was read. Mutable objects are passed as records and returned; objects that are
    shared (the streams of a connection, held by a map and by handlers) live in a heap
    and are named by their position in it. Asynchronous operations are recorded in the
    state when they are started, and an event completes one of them: a part of a read, a
    write, an expired timer, an error. Whatever the application's callbacks compute is a
    parameter. Functions that let exceptions out have them as results ([attempt]); an
    exception that would leave a [noexcept] function ends the program and is [Undef]. A
    pointer into a value that is being built is the path to it from the root. A [double] is
    a [spec_float] of the Standard Library. A shared structure without locks is a state
    with the program counters of its threads, and a schedule says which thread takes the
    next step. The host is
    little-endian with 64-bit [size_t] and 32-bit [int]; [malloc] succeeds.

    ** Fuel

    Loops of the code are [Fixpoint]s on fuel; running out is [Undef], so a theorem
    that gives a value is also a theorem that the loop ends. The fuel of an
    internal loop is set in the caller and shown to be enough: the number of nodes
    for a byte buffer, the block's length for HPACK decoding (every round consumes
    a byte, [hpack_decode_terminates]), six rounds for the continuation of an
    integer (a seventh would shift a 32-bit word out of its width), the pattern's
    length for dates; the loops of a connection are structural; the JSON parser takes a
    token or leaves a container in every round, and the writer knows the number of its rounds
    ([rounds]). A loop that the code may never leave takes its fuel as an argument, and the
    result is [Undef] for every fuel where it does not end (the search [BM], [toString] of a
    value, a DNS name that points to itself, an object of YAML with a line it cannot use). Loops that read a stream until it ends take the fuel as an
    argument, and their theorems hold for every fuel above the stream's length.

    ** What is proved

    - Refinement: a byte buffer under any sequence of operations is a queue of bytes
      ([bytebuffer_refines_queue]); a Unicode string is the sequence of its characters
      ([sstring_refines_chars]); a string buffer and a builder are lists under any sequence of
      operations, trimming and arguments from C strings included, with the exact conditions under which they leave
      their blocks ([string_buffer_refines], [sstring_builder_refines]); with one consumer the lock-free stack is an atomic one
      ([linked_stack_linearizable]), and so is the queue with one producer as well
      ([linked_queue_linearizable]); the time wheel is a set of timed events
      ([time_wheel_refines]).
    - Equivalence with a published standard: Base64, SHA-1, MD5, and SHA-256 on
      the lengths for which it holds; the references are written from the standards and use no table of the code: the constants of
      the digests are computed from their definitions (sines, square and cube roots), the
      alphabet of Base64 from its ranges.
    - Round trips: HPACK blocks, integers and strings, Huffman, Base64, Base62
      integers, percent coding, split and join, URLs, ranges, frames, settings,
      HTTP/1 requests and responses, dates, JSON, YAML, XML, INI files, rows of CSV, DNS responses.
    - DNS: what the resolver gets from the service is what the service has
      ([dns_resolve_served]).
    - WebSocket: the answer to a key is the one of RFC 6455 ([websocket_handshake]), and no
      byte outside the blocks is written: the output interface's laws are used on an instance
      that keeps what lies behind.
    - Buffered streams deliver what was written and read, in order ([buffered_transfer]).
    - The HTTP client: from a URL to an address and a request ([http_client_create]), and from a
      request and its body to the response, its body and its cookies ([http_client_request]).
    - HTTP/1: an exchange from the packets of a request to the bytes of the response
      ([http_exchange]).
    - HTTP/2: the invariant of reachable states ([http2_reachable_invariant]), the
      delivery of a response ([http2_response_delivery]), independence of how the
      socket cuts its input ([http2_read_pieces]), the answers to single frames.
    - The service: the length announced for a multipart body, servlet dispatch, ranges.
    - Termination: HPACK decoding, Huffman decoding and JSON parsing of any
      input; formatting of any date. The results of HPACK decoding where it meets no undefined
      behaviour ([hpack_decode_safe]).
    - Maps: headers and the dynamic table.
    - Where the code does something else than it means to, the theorem states what
      it does: the shadowed Huffman codes, the table's eviction of unequal
      entries, truncated HPACK indices, mirrored indices of single-use fields,
      Base64 groups of foreign characters, Base62 groups, [freeCapacity] and
      [swap] of a byte buffer, the padding of SHA-256, the first DATA frame of a
      stream, frames longer than the buffer, dropped errors of SETTINGS, double reads,
      mount points that can be left, ranges of an empty file, lines that end a request
      early, dates with a zone, the search for longer patterns, splitting without a
      separator, a stack with two consumers (from any of its states), a queue with two producers, truncated XML and comments, negative numbers in
      YAML, two-pass encoding of DNS packages, long and short reads of a buffered stream,
      bodies that a client receives by a callback, ports of shared addresses, repeated events without
      delay, versions that are not ordered, trimming that keeps the size.

    ** What is not modelled

    Operating-system calls and third-party libraries (sockets, files, OpenSSL,
    zlib, databases, Asio), and the start of threads. The accept loop and the TLS variants
    of the service, whose connections run the same handlers over another socket. Memory
    orders weaker than sequential consistency, which the code does not ask for. The formatting library is templates instantiated at every
    use. A second reader of INI files ([config/ConfigUtil.cpp]) uses regular expressions of the C++ library. The
    class templates of [sese/container] are not used by the parts above. *)

From Stdlib Require Export ZArith Lia Bool.
From stdpp Require Export base list strings.

(** ** Scopes and machine words

    A machine word of width [w] is a [Z]; [wrap w] is the conversion to the
    unsigned type of that width and [swrap w] the conversion to the signed one
    (two's complement, as C++20 prescribes). *)

Declare Scope sese_scope.
Delimit Scope sese_scope with sese.
Global Open Scope Z_scope.

Definition wrap (w z : Z) : Z := z mod 2 ^ w.
Definition swrap (w z : Z) : Z := (z + 2 ^ (w - 1)) mod 2 ^ w - 2 ^ (w - 1).

Abbreviation u8 := (wrap 8).
Abbreviation u16 := (wrap 16).
Abbreviation u32 := (wrap 32).
Abbreviation u64 := (wrap 64).

(** A byte sequence ([std::string], [char *] with a length, the content of a
    buffer) is a list of integers in [0, 256). *)

Abbreviation byte := Z (only parsing).
Abbreviation bytes := (list Z) (only parsing).

Definition is_u (w z : Z) : Prop := 0 <= z < 2 ^ w.
Abbreviation is_byte := (is_u 8).
Definition bytes_ok (l : bytes) : Prop := Forall is_byte l.

(** The length of a list as an integer, [size()] in the code. *)
Definition zlen {A} (l : list A) : Z := Z.of_nat (length l).

(** The bytes of a string literal. *)
Definition ascii_Z (c : Ascii.ascii) : Z := Z.of_N (Ascii.N_of_ascii c).
Fixpoint str (s : String.string) : bytes :=
  match s with
  | String.EmptyString => []
  | String.String c s => ascii_Z c :: str s
  end.

(** ** Record update

    [r <| p := v |>] is the record [r] with the field [p] replaced. A record states
    how it is rebuilt from its fields once, as its [Eta] instance; the update of a
    field is the same expression with that field changed. *)

Class Eta (R : Type) := eta : R -> R.
Class Update {R T : Type} (p : R -> T) := update : (T -> T) -> R -> R.
Arguments update {R T} p {_} f r.

Ltac solve_update :=
  lazymatch goal with
  | |- @Update ?R ?T ?p =>
      let i := constr:(_ : Eta R) in
      let e := eval hnf in i in
      exact (fun (f : T -> T) (r : R) => ltac:(
        let b := eval cbv beta in (e r) in
        lazymatch b with context C [p r] => let b' := context C [f (p r)] in exact b' end))
  end.
#[export] Hint Extern 1 (Update _) => solve_update : typeclass_instances.

(** [fields]: a field of an updated record is the field, or its new value. The equation is
    checked on a variable in place of the record, one layer at a time. *)
Ltac field_equation R T p q U f c k :=
  let _ := constr:(_ : Update p) in
  let F := constr:(fun (f' : T -> T) (c' : R) => p (@update R T q U f' c')) in
  let G := eval unfold update in F in
  let G := eval cbn beta iota delta [p] in G in
  let E := constr:(fun (f' : T -> T) (c' : R) => @eq_refl _ (F f' c') : F f' c' = G f' c') in
  let t := eval cbv beta in (G f c) in
  k (E f c : p (@update R T q U f c) = t).
Ltac fields_step :=
  match goal with
  | |- context [?p (@update ?R ?T ?q ?U ?f ?c)] =>
      is_const p; field_equation R T p q U f c ltac:(fun e => rewrite e)
  end.
Ltac fields := repeat fields_step.
Ltac fields_step_in H :=
  match type of H with
  | context [?p (@update ?R ?T ?q ?U ?f ?c)] =>
      is_const p; field_equation R T p q U f c ltac:(fun e => rewrite e in H)
  end.
Ltac fields_in H := repeat fields_step_in H.

(** [upd]: the updates of a goal are unfolded. *)
Ltac upd := unfold update in *; cbn beta iota in *.

Notation "r <| p := v |>" := (update p (fun _ => v) r) (at level 1, left associativity).
Notation "r <| p ::= f |>" := (update p f r) (at level 1, left associativity).

(** ** Undefined behaviour

    [outcome A] is the result of a C++ expression: a value, or undefined
    behaviour (an out-of-range access, [back()] of an empty container, an
    oversized shift, a read of an uninitialised variable). *)

Inductive outcome (A : Type) : Type :=
| Val (a : A)
| Undef.
Arguments Val {A} a.
Arguments Undef {A}.

#[export] Instance outcome_eq_dec {A} `{EqDecision A} : EqDecision (outcome A).
Proof. solve_decision. Defined.

#[export] Instance outcome_ret : MRet outcome := fun A a => Val a.
#[export] Instance outcome_bind : MBind outcome :=
  fun A B f m => match m with Val a => f a | Undef => Undef end.
#[export] Instance outcome_fmap : FMap outcome :=
  fun A B f m => match m with Val a => Val (f a) | Undef => Undef end.

Definition of_option {A} (o : option A) : outcome A :=
  match o with Some a => Val a | None => Undef end.

Lemma bind_Val {A B} (f : A -> outcome B) a : (Val a ≫= f) = f a.
Proof. reflexivity. Qed.

Lemma bind_Val_inv {A B} (m : outcome A) (f : A -> outcome B) b :
  (m ≫= f) = Val b -> exists a, m = Val a /\ f a = Val b.
Proof. destruct m; cbn; eauto; discriminate. Qed.

(** Every result of a computation satisfies [P]. *)
Definition results {A} (P : A -> Prop) (m : outcome A) : Prop :=
  match m with Val a => P a | Undef => True end.

Lemma results_bind {A B} (P : A -> Prop) (Q : B -> Prop) (m : outcome A) (f : A -> outcome B) :
  results P m -> (forall a, P a -> results Q (f a)) -> results Q (m ≫= f).
Proof. destruct m; cbn; auto. Qed.

Lemma results_any {A} (m : outcome A) : results (fun _ => True) m.
Proof. by destruct m. Qed.

(** The first step of a computation can give anything. *)
Ltac any_first := eapply results_bind; [apply results_any|intros ? _].

(** ** Automation *)

Create HintDb sese discriminated.

(** Splits every conjunction and boolean test in the context. *)
Ltac zbool :=
  repeat match goal with
  | H : (_ <? _) = true |- _ => apply Z.ltb_lt in H
  | H : (_ <? _) = false |- _ => apply Z.ltb_ge in H
  | H : (_ <=? _) = true |- _ => apply Z.leb_le in H
  | H : (_ <=? _) = false |- _ => apply Z.leb_gt in H
  | H : (_ =? _) = true |- _ => apply Z.eqb_eq in H
  | H : (_ =? _) = false |- _ => apply Z.eqb_neq in H
  | H : andb _ _ = true |- _ => apply andb_true_iff in H; destruct H
  | H : orb _ _ = false |- _ => apply orb_false_iff in H; destruct H
  | H : negb _ = true |- _ => apply negb_true_iff in H
  | H : negb _ = false |- _ => apply negb_false_iff in H
  end.

(** Case analysis on the test of the first [if] of the goal. *)
Ltac ifcase :=
  match goal with
  | |- context [if ?b then _ else _] => destruct b eqn:?; zbool
  end.

(** The same in a hypothesis. *)
Ltac ifcase_in H :=
  match type of H with
  | context [if ?b then _ else _] => destruct b eqn:?; zbool
  end.

(** Linear arithmetic with divisions by constants. *)
Ltac dlia := Z.to_euclidean_division_equations; lia.

(** Closed inequalities, by evaluation. *)
Ltac zeval := vm_compute; repeat split; (reflexivity || discriminate).

(** ** Words *)

Lemma wrap_range w z : 0 <= w -> is_u w (wrap w z).
Proof. intros. unfold is_u, wrap. apply Z.mod_pos_bound. lia. Qed.

Lemma wrap_small w z : is_u w z -> wrap w z = z.
Proof. intros. unfold wrap. apply Z.mod_small. auto. Qed.

Lemma wrap_wrap w z : 0 <= w -> wrap w (wrap w z) = wrap w z.
Proof. intros. apply wrap_small, wrap_range. auto. Qed.

Lemma is_u_bool w z : is_u w z <-> ((0 <=? z) && (z <? 2 ^ w)) = true.
Proof. unfold is_u. rewrite andb_true_iff, Z.leb_le, Z.ltb_lt. tauto. Qed.

(** [bytes_ok] as a test, for concrete sequences. *)
Lemma bytes_ok_bool l :
  forallb (fun b => (0 <=? b) && (b <? 2 ^ 8)) l = true -> bytes_ok l.
Proof.
  rewrite forallb_forall. intros H. apply List.Forall_forall.
  intros b Hb. apply is_u_bool. auto.
Qed.

#[export] Instance is_u_dec w z : Decision (is_u w z).
Proof. unfold is_u. apply _. Defined.

#[export] Hint Resolve wrap_range : sese.

(** ** Lists *)

Lemma zlen_nonneg {A} (l : list A) : 0 <= zlen l.
Proof. unfold zlen. lia. Qed.

Lemma zlen_nil {A} : zlen (@nil A) = 0.
Proof. reflexivity. Qed.

Lemma zlen_cons {A} (x : A) l : zlen (x :: l) = 1 + zlen l.
Proof. unfold zlen. cbn [length]. lia. Qed.

Lemma zlen_app {A} (l k : list A) : zlen (l ++ k) = zlen l + zlen k.
Proof. unfold zlen. rewrite length_app. lia. Qed.

Create Rewrite HintDb zlen.
#[export] Hint Rewrite @zlen_nil @zlen_cons @zlen_app : zlen.

(** [zlen] goals: rewrite the lengths, then linear arithmetic. *)
Ltac zlen := autorewrite with zlen in *; unfold zlen in *; lia.

(** A left fold of a step that may fail. *)
Fixpoint foldlM {A B} (f : A -> B -> option A) (a : A) (l : list B) : option A :=
  match l with
  | [] => Some a
  | b :: l => match f a b with Some a' => foldlM f a' l | None => None end
  end.

Lemma foldlM_app {A B} (f : A -> B -> option A) l k a :
  foldlM f a (l ++ k) =
  match foldlM f a l with Some a' => foldlM f a' k | None => None end.
Proof.
  revert a. induction l as [|b l IH]; intros a; cbn; [done|].
  destruct (f a b); auto.
Qed.

(** A property checked on the first [n] integers. *)
Lemma forallb_seqZ (f : Z -> bool) n :
  forallb f (seqZ 0 n) = true -> forall i, 0 <= i < n -> f i = true.
Proof.
  intros H i Hi. rewrite forallb_forall in H. apply H.
  apply list_elem_of_In, elem_of_seqZ. lia.
Qed.

(** The elements before the first one that satisfies [f], and the rest. *)
Fixpoint break {A} (f : A -> bool) (l : list A) : list A * list A :=
  match l with
  | [] => ([], [])
  | x :: r => if f x then ([], l) else let '(a, b) := break f r in (x :: a, b)
  end.

(** A C string in a longer buffer: the bytes before the first NUL. *)
Definition cstr (l : bytes) : bytes := fst (break (fun c => c =? 0) l).

Lemma cstr_no_nul l : ~ In 0 l -> cstr l = l.
Proof.
  unfold cstr. induction l as [|c l IH]; [done|]. cbn. intros H.
  destruct (c =? 0) eqn:E; zbool; [subst; tauto|]. destruct (break _ l). cbn in *.
  f_equal. apply IH. tauto.
Qed.


Lemma cstr_zlen l : zlen (cstr l) <= zlen l.
Proof.
  unfold cstr. induction l as [|c l IH]; cbn; [done|]. destruct (c =? 0); cbn.
  - unfold zlen. cbn. lia.
  - destruct (break _ l). cbn in *. rewrite !zlen_cons. lia.
Qed.

(** ** Memory

    A heap block is the list of its bytes. Bytes that were never written hold
    [poison], which is not a byte, so a result made of bytes proves that no
    uninitialised memory was read. *)

Definition poison : byte := -1.
Definition malloc (n : Z) : bytes := repeat poison (Z.to_nat n).

(** Slices with integer bounds. *)
Definition ztake {A} (n : Z) (l : list A) : list A := take (Z.to_nat n) l.
Definition zdrop {A} (n : Z) (l : list A) : list A := drop (Z.to_nat n) l.
Definition slice {A} (off len : Z) (l : list A) : list A := ztake len (zdrop off l).

(** [memcpy(mem + off, src, len)], writing outside the block is undefined. *)
Definition memcpy (mem : bytes) (off : Z) (src : bytes) : outcome bytes :=
  if (0 <=? off) && (off + zlen src <=? zlen mem)
  then Val (ztake off mem ++ src ++ zdrop (off + zlen src) mem)
  else Undef.

(** [memcpy(dst, mem + off, len)]: the bytes read, undefined outside the block. *)
Definition memread (mem : bytes) (off len : Z) : outcome bytes :=
  if (0 <=? off) && (0 <=? len) && (off + len <=? zlen mem)
  then Val (slice off len mem)
  else Undef.

Lemma zlen_repeat {A} (x : A) n : zlen (repeat x n) = Z.of_nat n.
Proof. unfold zlen. now rewrite repeat_length. Qed.

Lemma zlen_rev {A} (l : list A) : zlen (rev l) = zlen l.
Proof. unfold zlen. now rewrite length_rev. Qed.

Lemma zlen_malloc n : 0 <= n -> zlen (malloc n) = n.
Proof. intros. unfold malloc. rewrite zlen_repeat. lia. Qed.

Lemma zlen_ztake {A} n (l : list A) : 0 <= n <= zlen l -> zlen (ztake n l) = n.
Proof. unfold zlen, ztake. intros. rewrite length_take. lia. Qed.

Lemma zlen_ztake_min {A} n (l : list A) : 0 <= n -> zlen (ztake n l) = Z.min n (zlen l).
Proof. unfold zlen, ztake. intros. rewrite length_take. lia. Qed.

Lemma zlen_zdrop {A} n (l : list A) : 0 <= n <= zlen l -> zlen (zdrop n l) = zlen l - n.
Proof. unfold zlen, zdrop. intros. rewrite length_drop. lia. Qed.

Lemma zlen_slice {A} off n (l : list A) :
  0 <= off -> 0 <= n -> off + n <= zlen l -> zlen (slice off n l) = n.
Proof. intros. unfold slice. apply zlen_ztake. rewrite zlen_zdrop; lia. Qed.

Lemma ztake_ge {A} n (l : list A) : zlen l <= n -> ztake n l = l.
Proof. unfold zlen, ztake. intros. apply take_ge. lia. Qed.

Lemma zdrop_ge {A} n (l : list A) : zlen l <= n -> zdrop n l = [].
Proof. unfold zlen, zdrop. intros. apply drop_ge. lia. Qed.

Lemma ztake_0 {A} n (l : list A) : n <= 0 -> ztake n l = [].
Proof. unfold ztake. intros. replace (Z.to_nat n) with 0%nat by lia. apply take_0. Qed.

Lemma zdrop_0 {A} n (l : list A) : n <= 0 -> zdrop n l = l.
Proof. unfold zdrop. intros. replace (Z.to_nat n) with 0%nat by lia. apply drop_0. Qed.

Lemma ztake_zdrop {A} n (l : list A) : ztake n l ++ zdrop n l = l.
Proof. apply take_drop. Qed.

Lemma zdrop_zdrop {A} n m (l : list A) :
  0 <= n -> 0 <= m -> zdrop n (zdrop m l) = zdrop (m + n) l.
Proof. unfold zdrop. intros. rewrite drop_drop. f_equal. lia. Qed.

Lemma ztake_app_le {A} n (l k : list A) : n <= zlen l -> ztake n (l ++ k) = ztake n l.
Proof. unfold ztake, zlen. intros. rewrite take_app_le; [done|lia]. Qed.

Lemma ztake_app_ge {A} n (l k : list A) :
  zlen l <= n -> ztake n (l ++ k) = l ++ ztake (n - zlen l) k.
Proof. unfold ztake, zlen. intros. rewrite take_app_ge by lia. do 2 f_equal. lia. Qed.

Lemma zdrop_app_le {A} n (l k : list A) : n <= zlen l -> zdrop n (l ++ k) = zdrop n l ++ k.
Proof. unfold zdrop, zlen. intros. rewrite drop_app_le; [done|lia]. Qed.

Lemma zdrop_app_ge {A} n (l k : list A) :
  zlen l <= n -> zdrop n (l ++ k) = zdrop (n - zlen l) k.
Proof. unfold zdrop, zlen. intros. rewrite drop_app_ge by lia. f_equal. lia. Qed.

Lemma slice_prefix {A} off n w (l : list A) :
  0 <= off -> 0 <= n -> off + n <= w -> slice off n (ztake w l) = slice off n l.
Proof.
  unfold slice, ztake, zdrop. intros. rewrite skipn_firstn_comm, take_take. f_equal. lia.
Qed.

Lemma memcpy_Val mem off src : 0 <= off -> off + zlen src <= zlen mem ->
  memcpy mem off src = Val (ztake off mem ++ src ++ zdrop (off + zlen src) mem).
Proof.
  intros. unfold memcpy. rewrite (proj2 (Z.leb_le 0 off)), (proj2 (Z.leb_le _ (zlen mem))) by lia.
  done.
Qed.

Lemma memread_Val mem off n : 0 <= off -> 0 <= n -> off + n <= zlen mem ->
  memread mem off n = Val (slice off n mem).
Proof.
  intros. unfold memread.
  rewrite (proj2 (Z.leb_le 0 off)), (proj2 (Z.leb_le 0 n)), (proj2 (Z.leb_le _ (zlen mem))) by lia.
  done.
Qed.

Lemma memcpy_zlen mem off src mem' : memcpy mem off src = Val mem' -> zlen mem' = zlen mem.
Proof.
  unfold memcpy. intros H. ifcase_in H; [|done]. injection H as <-.
  pose proof (zlen_nonneg src).
  rewrite !zlen_app, zlen_ztake, zlen_zdrop by lia. lia.
Qed.

(** The block up to the end of what was copied. *)
Lemma memcpy_content mem off data mem' : 0 <= off ->
  memcpy mem off data = Val mem' ->
  ztake (off + zlen data) mem' = ztake off mem ++ data.
Proof.
  unfold memcpy. intros Hoff H. ifcase_in H; [|done]. injection H as <-.
  pose proof (zlen_nonneg data).
  rewrite ztake_app_ge; rewrite zlen_ztake by lia; [|lia].
  rewrite ztake_app_ge by lia. rewrite (ztake_0 _ (zdrop _ _)) by lia. now rewrite app_nil_r.
Qed.

(** A copy right after a known prefix of the block. *)
Lemma memcpy_at p r src off : off = zlen p -> zlen src <= zlen r ->
  memcpy (p ++ r) off src = Val ((p ++ src) ++ zdrop (zlen src) r).
Proof.
  intros -> Hs. pose proof (zlen_nonneg p). pose proof (zlen_nonneg src).
  rewrite memcpy_Val by (rewrite ?zlen_app; lia).
  rewrite ztake_app_le, ztake_ge, zdrop_app_ge by lia. rewrite <- app_assoc. do 3 f_equal. f_equal. lia.
Qed.

(** A copy over the middle of a block. *)
Lemma memcpy_over p b r src off : off = zlen p -> zlen src = zlen b ->
  memcpy (p ++ b ++ r) off src = Val (p ++ src ++ r).
Proof.
  intros -> Hs. pose proof (zlen_nonneg r).
  rewrite memcpy_at, <- app_assoc by (rewrite ?zlen_app; lia). do 3 f_equal.
  rewrite zdrop_app_ge, zdrop_0 by lia. done.
Qed.

Lemma bytes_ok_app l k : bytes_ok l -> bytes_ok k -> bytes_ok (l ++ k).
Proof. intros. by apply Forall_app. Qed.

Lemma take_repeat {A} (x : A) n : forall m, take n (repeat x m) = repeat x (Nat.min n m).
Proof. induction n as [|n IH]; intros [|m]; cbn; [done..|]. by rewrite IH. Qed.

Lemma repeat_Forall {A} (P : A -> Prop) x n : P x -> Forall P (repeat x n).
Proof. intros. induction n; by constructor. Qed.

(** ** Decimal numerals *)

(** [std::to_string] of a non-negative integer below [10 ^ fuel]. *)
Fixpoint digits (fuel : nat) (n : Z) (acc : bytes) : bytes :=
  match fuel with
  | O => acc
  | S fuel =>
      let acc := (48 + n mod 10) :: acc in
      if n / 10 =? 0 then acc else digits fuel (n / 10) acc
  end.

(** [std::to_string]. Twenty digits hold every 64-bit integer. *)
Definition to_string (n : Z) : bytes :=
  if n <? 0 then 45 :: digits 20 (- n) [] else digits 20 n [].

(** The value of a sequence of decimal digits. *)
Definition digits_val (l : bytes) : Z := fold_left (fun a c => 10 * a + (c - 48)) l 0.

Lemma fold_digits l : forall a, fold_left (fun a c => 10 * a + (c - 48)) l a =
  a * 10 ^ zlen l + digits_val l.
Proof.
  unfold digits_val. induction l as [|c l IH]; intros a; [rewrite zlen_nil; cbn; lia|].
  cbn [fold_left]. rewrite IH, (IH (10 * 0 + _)), zlen_cons, Z.pow_add_r by (pose proof (zlen_nonneg l); lia).
  lia.
Qed.

Lemma digits_spec fuel : forall n acc, 0 <= n < 10 ^ Z.of_nat fuel -> (0 < fuel)%nat ->
  exists ds, digits fuel n acc = ds ++ acc /\ digits_val ds = n /\ ds <> [] /\
    Forall (fun c => 48 <= c <= 57) ds.
Proof.
  induction fuel as [|fuel IH]; intros n acc Hn Hf; [lia|]. cbn [digits].
  assert (0 <= n mod 10 < 10) by (apply Z.mod_pos_bound; lia).
  pose proof (Z.div_mod n 10 ltac:(lia)).
  destruct (n / 10 =? 0) eqn:E; zbool.
  - exists [48 + n mod 10]. split; [done|]. split; [unfold digits_val; cbn; lia|].
    split; [done|]. constructor; [lia|constructor].
  - rewrite Nat2Z.inj_succ, Z.pow_succ_r in Hn by lia.
    destruct (IH (n / 10) ((48 + n mod 10) :: acc)) as (ds & -> & Hv & Hne & Hd).
    + split; [apply Z.div_pos; lia|]. apply Z.div_lt_upper_bound; lia.
    + destruct fuel; [|lia]. cbn in Hn. assert (n / 10 = 0) by (apply Z.div_small; lia). lia.
    + exists (ds ++ [48 + n mod 10]). rewrite <- app_assoc. split; [done|].
      split; [|split; [by destruct ds|]].
      * unfold digits_val. rewrite fold_left_app. fold (digits_val ds). cbn. lia.
      * apply Forall_app. split; [done|]. constructor; [lia|constructor].
Qed.

Lemma digits_zlen fuel : forall n acc, zlen (digits fuel n acc) <= Z.of_nat fuel + zlen acc.
Proof.
  induction fuel as [|fuel IH]; intros n acc; cbn [digits]; [lia|]. cbv zeta.
  specialize (IH (n / 10) (48 + n mod 10 :: acc)). rewrite zlen_cons in IH. ifcase; rewrite ?zlen_cons; lia.
Qed.

Lemma to_string_zlen n : 0 <= n -> zlen (to_string n) <= 20.
Proof.
  intros Hn. unfold to_string. rewrite (proj2 (Z.ltb_ge n 0)) by lia. pose proof (digits_zlen 20 n []) as H.
  rewrite zlen_nil in H. lia.
Qed.

Lemma to_string_spec n : 0 <= n < 10 ^ 20 -> digits_val (to_string n) = n /\
  to_string n <> [] /\ Forall (fun c => 48 <= c <= 57) (to_string n).
Proof.
  intros H. unfold to_string. rewrite (proj2 (Z.ltb_ge _ _)) by lia.
  destruct (digits_spec 20 n []) as (ds & -> & Hv & Hne & Hd); [done|lia|].
  by rewrite app_nil_r.
Qed.
