(* ===== verification/Streams.v ===== *)
(** * Streams

    The stream interfaces of [sese/io] ([InputStream.h], [OutputStream.h],
    [PeekableStream.h]) as classes, and the laws that the in-memory streams promise
    to their clients. *)

From S2P Require Import Prelude.

(** ** Interfaces *)

(*@ sese/io/InputStream.h 32-39 InputStream *)
(** [read(buffer, length)]: the count returned, the bytes stored in the
    buffer and the stream afterwards. *)
Class InputStream (S : Type) :=
  stream_read : S -> Z -> outcome (Z * bytes * S).

(*@ sese/io/OutputStream.h 38-44 OutputStream *)
(** [write(buffer, length)]: the count returned and the stream afterwards. *)
Class OutputStream (S : Type) :=
  stream_write : S -> bytes -> outcome (Z * S).

(*@ sese/io/PeekableStream.h 30-45 PeekableStream *)
Class PeekableStream (S : Type) := {
  stream_peek : S -> Z -> outcome (Z * bytes);
  stream_trunc : S -> Z -> outcome (Z * S) }.

(** What an in-memory input stream promises: it holds a sequence of unread
    bytes, and a read delivers as much of it as was asked for. *)
Class MemInput (S : Type) `{InputStream S} := {
  in_valid : S -> Prop;
  in_content : S -> bytes;
  read_law s n : in_valid s -> 0 <= n ->
    exists s', stream_read s n = Val (Z.min n (zlen (in_content s)), ztake n (in_content s), s') /\
      in_valid s' /\ in_content s' = zdrop n (in_content s) }.

(** Peeking sees what a read would deliver; truncating consumes it. *)
Class MemPeek (S : Type) `{MemInput S} `{PeekableStream S} := {
  peek_law s n : in_valid s -> 0 <= n ->
    stream_peek s n = Val (Z.min n (zlen (in_content s)), ztake n (in_content s));
  trunc_law s n : in_valid s -> 0 <= n ->
    exists s', stream_trunc s n = Val (Z.min n (zlen (in_content s)), s') /\
      in_valid s' /\ in_content s' = zdrop n (in_content s) }.

(** What an in-memory output stream of bounded room promises: it appends as
    much of the data as it has room for. *)
Class MemOutput (S : Type) `{OutputStream S} := {
  out_valid : S -> Prop;
  out_content : S -> bytes;
  out_room : S -> Z -> Prop;
  write_law s data : out_valid s -> out_room s (zlen data) ->
    exists s', stream_write s data = Val (zlen data, s') /\
      out_valid s' /\ out_content s' = out_content s ++ data /\
      (forall n, 0 <= n -> out_room s (zlen data + n) -> out_room s' n);
  room_law s n m : out_room s n -> m <= n -> out_room s m }.

(** A weaker promise, that every source keeps: a read of no more than what is there
    delivers it. Clients that know the length of their input need no more. *)
Class MemSource (S : Type) `{InputStream S} := {
  src_valid : S -> Prop;
  src_content : S -> bytes;
  src_law s n : src_valid s -> 0 <= n <= zlen (src_content s) ->
    exists s', stream_read s n = Val (n, ztake n (src_content s), s') /\
      src_valid s' /\ src_content s' = zdrop n (src_content s) }.

#[export] Program Instance mem_source {S} `{MemInput S} : MemSource S :=
  {| src_valid := in_valid; src_content := in_content |}.
Next Obligation.
  intros S HS HM s n Hv [Hn Hz]. destruct (read_law s n Hv Hn) as (s' & E & Hs'). exists s'.
  by rewrite Z.min_l in E by done.
Qed.

(** ** Clients of the interface *)

Lemma source_byte {S} `{MemSource S} s b rest : src_valid s -> src_content s = b :: rest ->
  exists s', stream_read s 1 = Val (1, [b], s') /\ src_valid s' /\ src_content s' = rest.
Proof.
  intros Hv Hc. destruct (src_law s 1 Hv) as (s' & E & Hv' & Hc').
  { rewrite Hc, zlen_cons. pose proof (zlen_nonneg rest). lia. }
  exists s'. rewrite Hc in E, Hc'. auto.
Qed.

(** What a reader of lines relies on: a read of one byte delivers the next one. Sockets, which may
    deliver less than a longer read asks for, keep it too. *)
Class ByteSource (S : Type) `{InputStream S} := {
  byte_valid : S -> Prop;
  byte_content : S -> bytes;
  byte_law s b rest : byte_valid s -> byte_content s = b :: rest ->
    exists s', stream_read s 1 = Val (1, [b], s') /\ byte_valid s' /\ byte_content s' = rest }.

#[export] Instance source_bytes {S} `{MemSource S} : ByteSource S :=
  {| byte_valid := src_valid; byte_content := src_content; byte_law := source_byte |}.

(** A byte, [None] at the end of the stream. *)
Definition next_char {I} `{InputStream I} (source : I) : outcome (option byte * I) :=
  '(len, data, source) ← stream_read source 1;
  if len =? 0 then Val (None, source) else ch ← of_option (data !! 0%nat); Val (Some ch, source).

Section Clients.
Context {S : Type} `{MemInput S}.

(** Reading one byte from a non-empty stream. *)
Lemma read_byte s b rest : in_valid s -> in_content s = b :: rest ->
  exists s', stream_read s 1 = Val (1, [b], s') /\ in_valid s' /\ in_content s' = rest.
Proof.
  intros Hv Hc. destruct (read_law s 1 Hv) as (s' & E & Hv' & Hc'); [lia|].
  exists s'. rewrite Hc in E, Hc'. rewrite zlen_cons in E.
  replace (Z.min 1 (1 + zlen rest)) with 1 in E by (pose proof (zlen_nonneg rest); lia).
  auto.
Qed.

(** Reading from an exhausted stream. *)
Lemma read_eof s n : in_valid s -> 0 <= n -> in_content s = [] ->
  exists s', stream_read s n = Val (0, [], s') /\ in_valid s' /\ in_content s' = [].
Proof.
  intros Hv Hn Hc. destruct (read_law s n Hv Hn) as (s' & E & Hv' & Hc').
  exists s'. rewrite Hc in E, Hc'. rewrite zlen_nil in E.
  replace (Z.min n 0) with 0 in E by lia.
  unfold ztake, zdrop in *. rewrite take_nil in E. rewrite drop_nil in Hc'. auto.
Qed.

(** Reading a known prefix. *)
Lemma read_prefix s data rest : in_valid s -> in_content s = data ++ rest ->
  exists s', stream_read s (zlen data) = Val (zlen data, data, s') /\
    in_valid s' /\ in_content s' = rest.
Proof.
  intros Hv Hc. destruct (read_law s (zlen data) Hv) as (s' & E & Hv' & Hc');
    [apply zlen_nonneg|].
  exists s'. rewrite Hc in E, Hc'. rewrite zlen_app in E. pose proof (zlen_nonneg rest).
  rewrite Z.min_l in E by lia.
  rewrite ztake_app_ge, Z.sub_diag, ztake_0, app_nil_r in E by lia.
  rewrite zdrop_app_ge, Z.sub_diag, zdrop_0 in Hc' by lia. auto.
Qed.
(** A character at a time. *)
Lemma next_char_spec source c rest : in_valid source -> in_content source = c :: rest ->
  exists source', next_char source = Val (Some c, source') /\ in_valid source' /\ in_content source' = rest.
Proof.
  intros Hv Hc. destruct (read_byte source c rest Hv Hc) as (s & E & Hs). exists s. split; [|done]. unfold next_char. by rewrite E.
Qed.

Lemma next_char_end source : in_valid source -> in_content source = [] ->
  exists source', next_char source = Val (None, source').
Proof.
  intros Hv Hc. destruct (read_eof source 1 Hv ltac:(lia) Hc) as (s & E & _). exists s. unfold next_char. by rewrite E.
Qed.

Lemma next_char_any source : in_valid source ->
  exists ch source', next_char source = Val (ch, source') /\ in_valid source' /\
    match ch with None => in_content source' = [] | Some c => in_content source = c :: in_content source' end.
Proof.
  intros Hv. destruct (in_content source) as [|c rest] eqn:Hc.
  - destruct (read_eof source 1 Hv ltac:(lia) Hc) as (s & E & V & C). exists None, s. unfold next_char. by rewrite E.
  - destruct (read_byte source c rest Hv Hc) as (s & E & V & C). exists (Some c), s. unfold next_char. rewrite E. by rewrite C.
Qed.

End Clients.

Section Writers.
Context {S : Type} `{MemOutput S}.

(** One write of several, when there is room for all of them. *)
Lemma write_step s data n : out_valid s -> 0 <= n -> out_room s (zlen data + n) ->
  exists s', stream_write s data = Val (zlen data, s') /\
    out_valid s' /\ out_content s' = out_content s ++ data /\ out_room s' n.
Proof.
  intros Hv Hn Hr. destruct (write_law s data Hv) as (s' & E & Hv' & Hc & Hr').
  - apply room_law with (zlen data + n); [done|lia].
  - exists s'. auto.
Qed.
End Writers.

(** ** Writing in pieces *)

(*@ sese/net/http/HttpUtil.cpp 241-242 WRITE *)
(** A sequence of writes that stops at the first one that is not complete. *)
Fixpoint write_all {Dst} `{OutputStream Dst} (dest : Dst) (pieces : list bytes) : outcome (bool * Dst) :=
  match pieces with
  | [] => Val (true, dest)
  | p :: pieces =>
      '(n, dest) ← stream_write dest p;
      if negb (zlen p =? n) then Val (false, dest) else write_all dest pieces
  end.

Lemma write_all_spec {Dst} `{MemOutput Dst} pieces : forall dest n, out_valid dest ->
  out_room dest (zlen (concat pieces) + n) -> 0 <= n ->
  exists dest', write_all dest pieces = Val (true, dest') /\ out_valid dest' /\
    out_content dest' = out_content dest ++ concat pieces /\ out_room dest' n.
Proof.
  induction pieces as [|p pieces IH]; intros dest n Hv Hr Hn.
  - exists dest. cbn [concat] in *. rewrite app_nil_r. done.
  - cbn [concat] in Hr. rewrite zlen_app, <- Z.add_assoc in Hr. pose proof (zlen_nonneg (concat pieces)).
    destruct (write_step dest p (zlen (concat pieces) + n) Hv ltac:(lia) Hr) as (d1 & E1 & Hv1 & Hc1 & Hr1).
    destruct (IH d1 n Hv1 Hr1 Hn) as (d2 & E2 & Hv2 & Hc2 & Hr2).
    exists d2. cbn [write_all concat]. rewrite E1, bind_Val, Z.eqb_refl. cbn [negb]. rewrite E2, Hc2, Hc1, <- app_assoc. done.
Qed.

(** A sequence of writes whose results are not tested. *)
Fixpoint write_each {Dst} `{OutputStream Dst} (dest : Dst) (pieces : list bytes) : outcome Dst :=
  match pieces with
  | [] => Val dest
  | p :: pieces => '(_, dest) ← stream_write dest p; write_each dest pieces
  end.

Lemma write_each_app {Dst} `{OutputStream Dst} p : forall (dest : Dst) q,
  write_each dest (p ++ q) = dest ← write_each dest p; write_each dest q.
Proof.
  induction p as [|x p IH]; intros dest q; [done|]. cbn [app write_each]. destruct (stream_write dest x) as [[n d]|]; [|done].
  rewrite !bind_Val. apply IH.
Qed.

Lemma write_each_spec {Dst} `{MemOutput Dst} pieces : forall (dest : Dst) n, out_valid dest ->
  out_room dest (zlen (concat pieces) + n) -> 0 <= n ->
  exists dest', write_each dest pieces = Val dest' /\ out_valid dest' /\ out_content dest' = out_content dest ++ concat pieces /\ out_room dest' n.
Proof.
  induction pieces as [|p pieces IH]; intros dest n Hv Hr Hn; cbn [write_each concat] in *.
  - exists dest. by rewrite app_nil_r.
  - rewrite zlen_app, <- Z.add_assoc in Hr. pose proof (zlen_nonneg (concat pieces)).
    destruct (write_step dest p (zlen (concat pieces) + n) Hv ltac:(lia) Hr) as (d1 & E & V & C & R). rewrite E, bind_Val.
    destruct (IH d1 n V R Hn) as (d2 & E2 & V2 & C2 & R2). exists d2. rewrite E2, C2, C, <- app_assoc. done.
Qed.

(** ** Moving bytes from a stream to another *)

Section Move.
Context {Src Dst : Type} `{InputStream Src} `{OutputStream Dst}.

(*@ sese/util/Util.cpp 115-124 streamMove *)
(** What is left of [size], and the streams. *)
Fixpoint streamMove_loop (fuel : nat) (out : Dst) (source : Src) (size : Z) : outcome (Z * Dst * Src) :=
  match fuel with
  | O => Undef
  | S fuel =>
      if size =? 0 then Val (0, out, source)
      else
        let need := if size >=? 4096 then 4096 else size in
        '(len, data, source) ← stream_read source need;
        '(_, out) ← stream_write out data;
        let size := u64 (size - len) in
        if negb (len =? need) then Val (size, out, source) else streamMove_loop fuel out source size
  end.

(*@ sese/util/Util.cpp 112-125 streamMove *)
(** A full round takes 4096 bytes, the last one what remains. *)
Definition streamMove (out : Dst) (source : Src) (size : Z) : outcome (Z * Dst * Src) :=
  '(missing, out, source) ← streamMove_loop (2 + Z.to_nat (size / 4096)) out source size;
  Val (u64 (size - missing), out, source).
End Move.

Section MoveSpec.
Context {Src Dst : Type} `{MemSource Src} `{MemOutput Dst}.

Lemma streamMove_loop_spec fuel : forall (out : Dst) (source : Src) size, src_valid source -> out_valid out ->
  0 <= size <= zlen (src_content source) -> size < 2 ^ 64 -> out_room out size -> size <= 4096 * (Z.of_nat fuel - 1) -> (0 < fuel)%nat ->
  exists out' source', streamMove_loop fuel out source size = Val (0, out', source') /\
    out_valid out' /\ out_content out' = out_content out ++ ztake size (src_content source) /\
    src_valid source' /\ src_content source' = zdrop size (src_content source).
Proof.
  induction fuel as [|fuel IH]; intros out source size Hs Ho Hz Hw Hr Hf Hpos; [lia|]. cbn [streamMove_loop].
  destruct (size =? 0) eqn:E; zbool.
  - subst. exists out, source. rewrite ztake_0, app_nil_r, zdrop_0 by lia. done.
  - set (need := if size >=? 4096 then 4096 else size).
    assert (0 < need <= size /\ (size - need = 0 \/ need = 4096)) as [Hn Hn'] by (subst need; destruct (size >=? 4096) eqn:E'; zbool; lia).
    destruct (src_law source need Hs ltac:(lia)) as (s1 & -> & V1 & C1). rewrite bind_Val.
    assert (zlen (ztake need (src_content source)) = need) as Hl by (apply zlen_ztake; lia).
    destruct (write_step out (ztake need (src_content source)) (size - need) Ho ltac:(lia)) as (o1 & -> & W1 & D1 & R1).
    { rewrite Hl. by replace (need + (size - need)) with size by lia. }
    rewrite bind_Val, Z.eqb_refl. cbn [negb]. rewrite wrap_small by (unfold is_u; lia).
    destruct (IH o1 s1 (size - need) V1 W1) as (o2 & s2 & -> & W2 & D2 & V2 & C2); [|lia|done|lia|lia|].
    { rewrite C1, zlen_zdrop by lia. lia. }
    exists o2, s2. split; [done|]. split; [done|]. split; [|split; [done|]].
    + rewrite D2, D1, C1, <- app_assoc. f_equal. unfold ztake, zdrop.
      rewrite <- (take_drop (Z.to_nat need) (take (Z.to_nat size) (src_content source))), take_take, skipn_firstn_comm.
      rewrite Nat.min_l by lia. by replace (Z.to_nat size - Z.to_nat need)%nat with (Z.to_nat (size - need)) by lia.
    + rewrite C2, C1. unfold zdrop. rewrite drop_drop. f_equal. lia.
Qed.

(** Exactly [size] bytes are moved. *)
Lemma streamMove_spec (out : Dst) (source : Src) size : src_valid source -> out_valid out ->
  0 <= size <= zlen (src_content source) -> size < 2 ^ 64 -> out_room out size ->
  exists out' source', streamMove out source size = Val (size, out', source') /\
    out_valid out' /\ out_content out' = out_content out ++ ztake size (src_content source) /\
    src_valid source' /\ src_content source' = zdrop size (src_content source).
Proof.
  intros Hs Ho Hz Hw Hr. unfold streamMove.
  destruct (streamMove_loop_spec (2 + Z.to_nat (size / 4096)) out source size Hs Ho Hz Hw Hr) as (o & s & -> & Hrest).
  { pose proof (Z.div_pos size 4096 ltac:(lia) ltac:(lia)). pose proof (Z.mod_pos_bound size 4096 ltac:(lia)). pose proof (Z_div_mod_eq_full size 4096). lia. }
  { lia. }
  exists o, s. rewrite bind_Val, Z.sub_0_r, wrap_small by (unfold is_u; lia). done.
Qed.

(** A property of the source that its reads keep is kept. *)
Lemma streamMove_keeps (P : Src -> Prop) (out : Dst) (source : Src) size r :
  (forall s n x, P s -> stream_read s n = Val x -> P (snd x)) ->
  P source -> streamMove out source size = Val r -> P (snd r).
Proof.
  intros HP Hs. unfold streamMove. intros ([[k o] s] & E & [= <-])%bind_Val_inv. cbn [snd].
  revert E. generalize (2 + Z.to_nat (size / 4096))%nat as fuel. intros fuel. revert out source size k o s Hs.
  induction fuel as [|fuel IH]; intros out source size k o s Hs; [done|].
  cbn [streamMove_loop]. destruct (size =? 0); [by intros [= _ _ <-]|].
  intros ([[len data] s1] & E1 & E)%bind_Val_inv. apply bind_Val_inv in E as ([n o1] & _ & E).
  pose proof (HP _ _ _ Hs E1) as Hs1. cbn [snd] in Hs1. destruct (negb _); [by injection E as _ _ <-|]. by eapply IH.
Qed.
End MoveSpec.
