(* ===== verification/InputBufferWrapper.v ===== *)
(** * [InputBufferWrapper]

    Models [sese/io/InputBufferWrapper.cpp]: a readable view of a block of memory,
    the simplest implementation of the input-stream laws of [Streams.v]. *)

From S2P Require Import Prelude Streams.

Module InputBufferWrapper.

(*@ sese/io/InputBufferWrapper.h 34-54 InputBufferWrapper *)
Record t := Make { buffer : bytes; pos : Z; cap : Z }.

(*@ sese/io/InputBufferWrapper.cpp 18-21 InputBufferWrapper::InputBufferWrapper *)
Definition create (buffer : bytes) (cap : Z) : t := Make buffer 0 cap.

(*@ sese/io/InputBufferWrapper.cpp 23-34 InputBufferWrapper::read *)
Definition read (s : t) (length : Z) : outcome (Z * bytes * t) :=
  if u64 (cap s - pos s) >=? length then
    data ← memread (buffer s) (pos s) length;
    Val (length, data, Make (buffer s) (pos s + length) (cap s))
  else
    let remain := u64 (cap s - pos s) in
    data ← memread (buffer s) (pos s) remain;
    Val (remain, data, Make (buffer s) (cap s) (cap s)).

(*@ sese/io/InputBufferWrapper.cpp 36-45 InputBufferWrapper::peek *)
Definition peek (s : t) (length : Z) : outcome (Z * bytes) :=
  if u64 (cap s - pos s) >=? length then
    data ← memread (buffer s) (pos s) length; Val (length, data)
  else
    let remain := u64 (cap s - pos s) in
    data ← memread (buffer s) (pos s) remain; Val (remain, data).

(*@ sese/io/InputBufferWrapper.cpp 63-74 InputBufferWrapper::trunc *)
Definition trunc (s : t) (length : Z) : outcome (Z * t) :=
  if u64 (cap s - pos s) >=? length then
    Val (length, Make (buffer s) (pos s + length) (cap s))
  else Val (u64 (cap s - pos s), Make (buffer s) (cap s) (cap s)).

(*@ sese/io/InputBufferWrapper.cpp 59-61 InputBufferWrapper::reset *)
Definition reset (s : t) : t := Make (buffer s) 0 (cap s).

#[global] Instance input : InputStream t := read.
#[global] Instance peekable : PeekableStream t :=
  { stream_peek := peek; stream_trunc := trunc }.

(** The wrapper is over a block of at least [cap] bytes. *)
Definition valid (s : t) : Prop := 0 <= pos s <= cap s /\ cap s <= zlen (buffer s) /\ cap s < 2 ^ 64.
Definition content (s : t) : bytes := slice (pos s) (cap s - pos s) (buffer s).

Lemma input_content_zlen s : valid s -> zlen (content s) = cap s - pos s.
Proof. intros (H1 & H2 & H3). unfold content. apply zlen_slice; lia. Qed.

Lemma content_take s n : valid s -> 0 <= n <= cap s - pos s ->
  slice (pos s) n (buffer s) = ztake n (content s).
Proof.
  intros (H1 & H2 & H3) Hn. unfold content, slice, ztake. rewrite take_take. f_equal. lia.
Qed.

Lemma content_drop s n : valid s -> 0 <= n <= cap s - pos s ->
  content (Make (buffer s) (pos s + n) (cap s)) = zdrop n (content s).
Proof.
  intros (H1 & H2 & H3) Hn. unfold content, slice, ztake, zdrop. cbn.
  rewrite skipn_firstn_comm, drop_drop. f_equal; [lia|]. f_equal; lia.
Qed.

(** The three operations on a valid wrapper, in one case analysis. *)
Lemma remain_cases s n : valid s -> 0 <= n ->
  u64 (cap s - pos s) = cap s - pos s /\ zlen (content s) = cap s - pos s /\
  ((cap s - pos s >=? n) = true /\ n <= cap s - pos s \/
   (cap s - pos s >=? n) = false /\ cap s - pos s < n).
Proof.
  intros Hv Hn. pose proof Hv as (H1 & H2 & H3). split; [apply wrap_small; unfold is_u; lia|].
  split; [now apply input_content_zlen|]. destruct (cap s - pos s >=? n) eqn:E; [left|right]; lia.
Qed.

#[global] Program Instance meminput : MemInput t :=
  {| in_valid := valid; in_content := content |}.
Next Obligation.
  intros s n Hv Hn. unfold stream_read, input, read.
  destruct (remain_cases s n Hv Hn) as (-> & Hl & [[-> Hc]|[-> Hc]]);
    pose proof Hv as (H1 & H2 & H3); rewrite memread_Val, bind_Val by lia.
  - rewrite content_take, Hl, Z.min_l by (done || lia).
    eexists. split; [reflexivity|]. split; [repeat split; cbn; lia|].
    now apply content_drop.
  - rewrite content_take, Hl, Z.min_r by (done || lia).
    rewrite !(ztake_ge _ (content s)), (zdrop_ge n) by lia.
    eexists. split; [reflexivity|]. split; [repeat split; cbn; lia|].
    unfold content, slice. cbn. apply ztake_0. lia.
Qed.

#[global] Program Instance mempeek : MemPeek t.
Next Obligation.
  intros s n Hv Hn. unfold stream_peek, in_content; cbn. unfold peek.
  destruct (remain_cases s n Hv Hn) as (-> & Hl & [[-> Hc]|[-> Hc]]);
    pose proof Hv as (H1 & H2 & H3); rewrite memread_Val, bind_Val by lia;
    rewrite content_take, Hl by (done || lia).
  - now rewrite Z.min_l by lia.
  - now rewrite Z.min_r, !(ztake_ge _ (content s)) by lia.
Qed.
Next Obligation.
  intros s n Hv Hn. unfold stream_trunc, in_content; cbn. unfold trunc.
  destruct (remain_cases s n Hv Hn) as (-> & -> & [[-> Hc]|[-> Hc]]);
    pose proof Hv as (H1 & H2 & H3); (eexists; split; [f_equal; f_equal; lia|]).
  - split; [repeat split; cbn; lia|]. now apply content_drop.
  - split; [repeat split; cbn; lia|]. rewrite zdrop_ge by (rewrite input_content_zlen; auto; lia).
    unfold content, slice. cbn. apply ztake_0. lia.
Qed.

(** A wrapper over a whole byte string. *)
Definition of_bytes (l : bytes) : t := create l (zlen l).

Lemma of_bytes_valid l : zlen l < 2 ^ 64 -> valid (of_bytes l) /\ content (of_bytes l) = l.
Proof.
  intros H. pose proof (zlen_nonneg l). split; [repeat split; cbn; lia|].
  unfold content, slice. cbn. rewrite zdrop_0 by lia. apply ztake_ge. lia.
Qed.

End InputBufferWrapper.
