(* ===== verification/OutputBufferWrapper.v ===== *)
(** * [OutputBufferWrapper]

    Models [sese/io/OutputBufferWrapper.cpp]: a bounded writer into a block of memory. *)

From S2P Require Import Prelude Streams.

Module OutputBufferWrapper.

(*@ sese/io/OutputBufferWrapper.h 32-47 OutputBufferWrapper *)
Record t := Make { buffer : bytes; len : Z; cap : Z }.

(*@ sese/io/OutputBufferWrapper.cpp 29-32 OutputBufferWrapper::OutputBufferWrapper *)
Definition create (buffer : bytes) (cap : Z) : t := Make buffer 0 cap.

(*@ sese/io/OutputBufferWrapper.cpp 34-47 OutputBufferWrapper::write *)
Definition write (s : t) (buf : bytes) : outcome (Z * t) :=
  let length := zlen buf in
  let remain := u64 (cap s - len s) in
  if remain =? 0 then Val (0, s)
  else if remain >=? length then
    mem ← memcpy (buffer s) (len s) buf;
    Val (length, Make mem (len s + length) (cap s))
  else
    mem ← memcpy (buffer s) (len s) (ztake remain buf);
    Val (remain, Make mem (cap s) (cap s)).

(*@ sese/io/OutputBufferWrapper.cpp 49-51 OutputBufferWrapper::reset *)
Definition reset (s : t) : t := Make (buffer s) 0 (cap s).

#[global] Instance output : OutputStream t := write.

Definition valid (s : t) : Prop := 0 <= len s <= cap s /\ cap s <= zlen (buffer s) /\ cap s < 2 ^ 64.
Definition content (s : t) : bytes := ztake (len s) (buffer s).

(** A write stores the longest prefix of the data that fits, and returns its
    length. *)
Lemma output_write_spec s data : valid s ->
  exists s', write s data = Val (Z.min (zlen data) (cap s - len s), s') /\ valid s' /\
    content s' = content s ++ ztake (cap s - len s) data /\
    cap s' = cap s /\ len s' = len s + Z.min (zlen data) (cap s - len s).
Proof.
  intros Hv. pose proof Hv as (H1 & H2 & H3). unfold write.
  rewrite wrap_small by (unfold is_u; lia). pose proof (zlen_nonneg data).
  destruct (_ =? 0) eqn:E0; zbool; [|destruct (_ >=? _) eqn:E1].
  - exists s. rewrite Z.min_r, E0, ztake_0, app_nil_r by lia. repeat split; try done; lia.
  - assert (zlen data <= cap s - len s) by lia. rewrite Z.min_l, (ztake_ge _ data) by lia.
    rewrite (memcpy_Val (buffer s)) by lia. rewrite bind_Val.
    eexists. split; [reflexivity|]. cbn [cap len].
    assert (E := memcpy_Val (buffer s) (len s) data). specialize (E ltac:(lia) ltac:(lia)).
    split; [|split; [|done]].
    + repeat split; cbn; try lia. pose proof (memcpy_zlen _ _ _ _ E). lia.
    + exact (memcpy_content _ _ _ _ (proj1 H1) E).
  - assert (cap s - len s < zlen data) by lia. rewrite Z.min_r by lia.
    assert (zlen (ztake (cap s - len s) data) = cap s - len s) as Ht by (apply zlen_ztake; lia).
    assert (E := memcpy_Val (buffer s) (len s) (ztake (cap s - len s) data)).
    specialize (E ltac:(lia) ltac:(lia)). rewrite E, bind_Val.
    eexists. split; [reflexivity|]. cbn [cap len]. split; [|split; [|split; [done|lia]]].
    + repeat split; cbn; try lia. pose proof (memcpy_zlen _ _ _ _ E). lia.
    + unfold content. cbn. rewrite <- (memcpy_content _ _ _ _ (proj1 H1) E), Ht. f_equal. lia.
Qed.

#[global] Program Instance memoutput : MemOutput t :=
  {| out_valid := valid; out_content := content;
     out_room s n := len s + n <= cap s |}.
Next Obligation.
  intros s data Hv Hr. cbn in Hr. destruct (output_write_spec s data Hv) as (s' & E & Hv' & Hc & Hcap & Hlen).
  exists s'. rewrite Z.min_l in E, Hlen by lia. rewrite ztake_ge in Hc by lia.
  split; [done|]. split; [done|]. split; [done|]. cbn. intros n Hn. lia.
Qed.
Next Obligation. cbn. intros. lia. Qed.

(** A fresh wrapper over a block of [n] bytes. *)
Definition fresh (n : Z) : t := create (malloc n) n.

Lemma fresh_valid n : 0 <= n < 2 ^ 64 -> valid (fresh n) /\ content (fresh n) = [].
Proof.
  intros H. split; [repeat split; cbn; try lia; rewrite zlen_malloc; lia|].
  unfold content, fresh, create. cbn. apply ztake_0. lia.
Qed.

End OutputBufferWrapper.
