(* ===== verification/FixedBuffer.v ===== *)
(** * [AbstractFixedBuffer]

    Models [sese/io/AbstractFixedBuffer.cpp]: one block of memory with a read and
    a write position. *)

From S2P Require Import Prelude Streams.

Module FixedBuffer.

(*@ sese/io/AbstractFixedBuffer.h 27-54 AbstractFixedBuffer *)
Record t := Make { size : Z; readSize : Z; writeSize : Z; buffer : bytes }.

(*@ sese/io/AbstractFixedBuffer.cpp 17-20 AbstractFixedBuffer::AbstractFixedBuffer *)
Definition create (size : Z) : t := Make size 0 0 (malloc size).

(*@ sese/io/AbstractFixedBuffer.cpp 28-34 AbstractFixedBuffer::AbstractFixedBuffer *)
(** The copy copies the whole block, unwritten bytes included. *)
Definition copy (s : t) : outcome t :=
  mem ← memread (buffer s) 0 (size s);
  mem ← memcpy (malloc (size s)) 0 mem;
  Val (Make (size s) (readSize s) (writeSize s) mem).

(*@ sese/io/AbstractFixedBuffer.cpp 36-46 AbstractFixedBuffer::AbstractFixedBuffer *)
(** The move: the new buffer, and the source left empty. *)
Definition move (s : t) : t * t := (s, Make 0 0 0 []).

(*@ sese/io/AbstractFixedBuffer.cpp 48-59 AbstractFixedBuffer::read *)
Definition read (s : t) (length : Z) : outcome (Z * bytes * t) :=
  if u64 (writeSize s - readSize s) >=? length then
    data ← memread (buffer s) (readSize s) length;
    Val (length, data, Make (size s) (readSize s + length) (writeSize s) (buffer s))
  else
    let read := u64 (writeSize s - readSize s) in
    data ← memread (buffer s) (readSize s) read;
    Val (read, data, Make (size s) (readSize s + read) (writeSize s) (buffer s)).

(*@ sese/io/AbstractFixedBuffer.cpp 61-72 AbstractFixedBuffer::write *)
Definition write (s : t) (buf : bytes) : outcome (Z * t) :=
  let length := zlen buf in
  if u64 (size s - writeSize s) >=? length then
    mem ← memcpy (buffer s) (writeSize s) buf;
    Val (length, Make (size s) (readSize s) (writeSize s + length) mem)
  else
    let write := u64 (size s - writeSize s) in
    mem ← memcpy (buffer s) (writeSize s) (ztake write buf);
    Val (write, Make (size s) (readSize s) (writeSize s + write) mem).

(*@ sese/io/AbstractFixedBuffer.cpp 74-85 AbstractFixedBuffer::peek *)
Definition peek (s : t) (length : Z) : outcome (Z * bytes) :=
  if u64 (writeSize s - readSize s) >=? length then
    data ← memread (buffer s) (readSize s) length; Val (length, data)
  else
    let read := u64 (writeSize s - readSize s) in
    data ← memread (buffer s) (readSize s) read; Val (read, data).

(*@ sese/io/AbstractFixedBuffer.cpp 91-102 AbstractFixedBuffer::trunc *)
Definition trunc (s : t) (length : Z) : outcome (Z * t) :=
  if u64 (writeSize s - readSize s) >=? length then
    Val (length, Make (size s) (readSize s + length) (writeSize s) (buffer s))
  else
    let read := u64 (writeSize s - readSize s) in
    Val (read, Make (size s) (readSize s + read) (writeSize s) (buffer s)).

(*@ sese/io/AbstractFixedBuffer.cpp 87-89 AbstractFixedBuffer::reset *)
Definition reset (s : t) : t := Make (size s) 0 0 (buffer s).

#[global] Instance input : InputStream t := read.
#[global] Instance output : OutputStream t := write.
#[global] Instance peekable : PeekableStream t := { stream_peek := peek; stream_trunc := trunc }.

Definition valid (s : t) : Prop :=
  0 <= readSize s <= writeSize s /\ writeSize s <= size s /\ zlen (buffer s) = size s /\ size s < 2 ^ 64.
(** The unread bytes. *)
Definition content (s : t) : bytes := slice (readSize s) (writeSize s - readSize s) (buffer s).

Lemma fixed_content_zlen s : valid s -> zlen (content s) = writeSize s - readSize s.
Proof. intros (? & ? & ? & ?). unfold content. apply zlen_slice; lia. Qed.

(** A read of any length is a read of at most what is left. *)
Lemma read_cases s n : valid s -> 0 <= n ->
  let m := Z.min n (zlen (content s)) in
  read s n = Val (m, ztake n (content s), Make (size s) (readSize s + m) (writeSize s) (buffer s)) /\
  peek s n = Val (m, ztake n (content s)) /\
  trunc s n = Val (m, Make (size s) (readSize s + m) (writeSize s) (buffer s)) /\
  0 <= m <= writeSize s - readSize s /\
  content (Make (size s) (readSize s + m) (writeSize s) (buffer s)) = zdrop n (content s).
Proof.
  intros Hv Hn m. pose proof Hv as (H1 & H2 & H3 & H4). subst m.
  rewrite fixed_content_zlen by done. unfold read, peek, trunc.
  rewrite wrap_small by (unfold is_u; lia).
  assert (ztake n (content s) = slice (readSize s) (Z.min n (writeSize s - readSize s)) (buffer s)) as ->.
  { unfold content, slice, ztake. rewrite take_take. f_equal. lia. }
  assert (content (Make (size s) (readSize s + Z.min n (writeSize s - readSize s)) (writeSize s) (buffer s))
          = zdrop n (content s)) as ->.
  { unfold content, slice, ztake, zdrop. cbn. rewrite skipn_firstn_comm, drop_drop.
    destruct (Z.min_spec n (writeSize s - readSize s)) as [[? ->]|[? ->]];
      [f_equal; [lia|f_equal; lia]|].
    replace (Z.to_nat (writeSize s - readSize s) - Z.to_nat n)%nat with 0%nat by lia.
    replace (Z.to_nat (writeSize s - (readSize s + (writeSize s - readSize s)))) with 0%nat by lia.
    now rewrite !take_0. }
  destruct (_ >=? n) eqn:E.
  - rewrite Z.min_l, memread_Val by lia. repeat split; lia.
  - rewrite Z.min_r, memread_Val by lia. repeat split; lia.
Qed.

#[global] Program Instance meminput : MemInput t :=
  {| in_valid := valid; in_content := content |}.
Next Obligation.
  intros s n Hv Hn. destruct (read_cases s n Hv Hn) as (E & _ & _ & Hm & Hc).
  unfold stream_read, input. rewrite E. eexists. split; [reflexivity|]. split; [|done].
  destruct Hv as (? & ? & ? & ?). repeat split; cbn; lia.
Qed.

#[global] Program Instance mempeek : MemPeek t.
Next Obligation. intros s n Hv Hn. apply (read_cases s n Hv Hn). Qed.
Next Obligation.
  intros s n Hv Hn. destruct (read_cases s n Hv Hn) as (_ & _ & E & Hm & Hc).
  unfold stream_trunc; cbn. rewrite E. eexists. split; [reflexivity|]. split; [|done].
  destruct Hv as (? & ? & ? & ?). repeat split; cbn; lia.
Qed.

(** A write appends the longest prefix of the data that fits behind the write
    position; space freed by reading is not reused. *)
Lemma fixed_write_spec s data : valid s ->
  exists s', write s data = Val (Z.min (zlen data) (size s - writeSize s), s') /\ valid s' /\
    content s' = content s ++ ztake (size s - writeSize s) data /\
    size s' = size s /\ readSize s' = readSize s /\
    writeSize s' = writeSize s + Z.min (zlen data) (size s - writeSize s).
Proof.
  intros Hv. pose proof Hv as (H1 & H2 & H3 & H4). unfold write.
  rewrite wrap_small by (unfold is_u; lia). pose proof (zlen_nonneg data).
  set (d := ztake (size s - writeSize s) data).
  assert (zlen d = Z.min (zlen data) (size s - writeSize s)) as Hd.
  { destruct (Z_le_gt_dec (zlen data) (size s - writeSize s)).
    - unfold d. rewrite ztake_ge by lia. lia.
    - unfold d. rewrite zlen_ztake by lia. lia. }
  assert (E := memcpy_Val (buffer s) (writeSize s) d ltac:(lia) ltac:(lia)).
  set (mem := _ ++ _) in E.
  exists (Make (size s) (readSize s) (writeSize s + zlen d) mem).
  assert (ztake (writeSize s + zlen d) mem = ztake (writeSize s) (buffer s) ++ d) as Hmem
    by (apply (memcpy_content (buffer s)); [lia|done]).
  split; [|split; [|split; [|cbn; auto with lia]]].
  - destruct (_ >=? _) eqn:Ec.
    + assert (d = data) as Hdd by (apply ztake_ge; lia). rewrite <- Hdd, E, bind_Val, Hd.
      do 2 f_equal; lia.
    + fold d. rewrite E, bind_Val. do 2 f_equal; [lia|]. f_equal. lia.
  - pose proof (memcpy_zlen _ _ _ _ E). repeat split; cbn; lia.
  - transitivity (zdrop (readSize s) (ztake (writeSize s + zlen d) mem)).
    + unfold content, slice, ztake, zdrop. cbn. rewrite skipn_firstn_comm. f_equal. lia.
    + rewrite Hmem, zdrop_app_le by (rewrite zlen_ztake; lia). f_equal.
      unfold content, slice, ztake, zdrop. rewrite skipn_firstn_comm. f_equal. lia.
Qed.

(** The copy of a buffer holds the same unread bytes, positions and size. *)
Lemma fixed_copy_spec s : valid s -> copy s = Val s.
Proof.
  intros (H1 & H2 & H3 & H4). unfold copy.
  rewrite memread_Val, bind_Val by lia.
  assert (slice 0 (size s) (buffer s) = buffer s) as ->.
  { unfold slice. rewrite zdrop_0 by lia. apply ztake_ge. lia. }
  rewrite memcpy_Val, bind_Val by (rewrite ?zlen_malloc; lia).
  rewrite ztake_0, zdrop_ge, app_nil_r by (rewrite ?zlen_malloc; lia). now destruct s.
Qed.

End FixedBuffer.
