(* ===== verification/ByteBuffer.v ===== *)
(** * The growing byte buffer

    Models [sese/io/AbstractByteBuffer.h] and [.cpp]: a chain of memory nodes with
    a read cursor and a write cursor. [ByteBuffer] adds a lock around each
    operation. The chain is the list of its nodes from the root, a pointer to a
    node is its index in that list, and a null pointer is an index past its end. *)

From S2P Require Import Prelude Streams.

Module ByteBuffer.

(** ** State *)

(*@ sese/io/AbstractByteBuffer.h 37-53 AbstractByteBuffer::Node *)
Record node := MkNode { nbuf : bytes; nlen : Z; ncap : Z }.

(*@ sese/io/AbstractByteBuffer.cpp 21-24 AbstractByteBuffer::Node::Node *)
Definition new_node (buffer_size : Z) : node := MkNode (malloc buffer_size) 0 buffer_size.

(*@ sese/io/AbstractByteBuffer.h 104-117 AbstractByteBuffer *)
Record t := Make {
  factor : Z;
  nodes : list node;
  wnode : nat;   (** [currentWriteNode] *)
  wpos : Z;      (** [currentWritePos] *)
  rnode : nat;   (** [currentReadNode] *)
  rpos : Z;      (** [currentReadPos] *)
  length : Z;
  cap : Z }.

(*@ sese/io/AbstractByteBuffer.cpp 30-36 AbstractByteBuffer::AbstractByteBuffer *)
Definition create (base_size factor : Z) : t :=
  Make factor [new_node base_size] 0 0 0 0 0 base_size.

(** ** Copy, move, swap *)

(*@ sese/io/AbstractByteBuffer.cpp 71-73 AbstractByteBuffer::AbstractByteBuffer *)
(** A node of the copy: its own block, the used part copied. *)
Definition copy_node (n : node) : outcome node :=
  data ← memread (nbuf n) 0 (nlen n);
  mem ← memcpy (malloc (ncap n)) 0 data;
  Val (MkNode mem (nlen n) (ncap n)).

(*@ sese/io/AbstractByteBuffer.cpp 68-86 AbstractByteBuffer::AbstractByteBuffer *)
Fixpoint copy_nodes (l : list node) : outcome (list node) :=
  match l with
  | [] => Val []
  | n :: l => n' ← copy_node n; l' ← copy_nodes l; Val (n' :: l')
  end.

(*@ sese/io/AbstractByteBuffer.cpp 38-93 AbstractByteBuffer::AbstractByteBuffer *)
(** The cursors start at the root and move to the copy of the node the
    source's cursor is at, when that node is met. *)
Definition copy (src : t) : outcome t :=
  match nodes src with
  | [] => Undef
  | _ :: _ =>
      l' ← copy_nodes (nodes src);
      let follow i := if (i <? List.length (nodes src))%nat then i else 0%nat in
      Val (Make (factor src) l' (follow (wnode src)) (wpos src)
                (follow (rnode src)) (rpos src) (length src) (cap src))
  end.

(*@ sese/io/AbstractByteBuffer.cpp 95-113 AbstractByteBuffer::AbstractByteBuffer *)
(** The new buffer, and the source left without nodes. *)
Definition move (src : t) : t * t := (src, Make 0 [] 0 0 0 0 0 0).

(*@ sese/io/AbstractByteBuffer.cpp 182-190 AbstractByteBuffer::swap *)
(** Every field but [factor] changes hands. *)
Definition swap (a b : t) : t * t :=
  (Make (factor a) (nodes b) (wnode b) (wpos b) (rnode b) (rpos b) (length b) (cap b),
   Make (factor b) (nodes a) (wnode a) (wpos a) (rnode a) (rpos a) (length a) (cap a)).

(** ** Observers *)

(*@ sese/io/AbstractByteBuffer.cpp 123-126 AbstractByteBuffer::resetPos *)
Definition resetPos (s : t) : t :=
  Make (factor s) (nodes s) (wnode s) (wpos s) 0 0 (length s) (cap s).

(*@ sese/io/AbstractByteBuffer.cpp 128-137 AbstractByteBuffer::eof *)
Definition eof (s : t) : outcome bool :=
  n ← of_option (nodes s !! rnode s);
  if negb (u64 (nlen n - rpos s) =? 0) then Val false
  else match nodes s !! S (rnode s) with
       | Some next => Val (nlen next =? 0)
       | None => Val true
       end.

(*@ sese/io/AbstractByteBuffer.cpp 139-141 AbstractByteBuffer::getLength *)
Definition getLength (s : t) : outcome Z :=
  n ← of_option (nodes s !! wnode s); Val (u64 (length s + nlen n)).

(*@ sese/io/AbstractByteBuffer.cpp 143-145 AbstractByteBuffer::getCapacity *)
Definition getCapacity (s : t) : Z := cap s.

(*@ sese/io/AbstractByteBuffer.cpp 150-157 AbstractByteBuffer::getReadableSize *)
(** The loop over the nodes after the read node, [i] being the index of the first. *)
Fixpoint readable_loop (s : t) (i : nat) (l : list node) (size : Z) : Z :=
  match l with
  | [] => size
  | n :: l => readable_loop s (S i) l
                (u64 (size + if (i =? wnode s)%nat then wpos s else ncap n))
  end.

(*@ sese/io/AbstractByteBuffer.cpp 147-159 AbstractByteBuffer::getReadableSize *)
Definition getReadableSize (s : t) : outcome Z :=
  n ← of_option (nodes s !! rnode s);
  Val (readable_loop s (S (rnode s)) (drop (S (rnode s)) (nodes s)) (u64 (nlen n - rpos s))).

(*@ sese/io/AbstractByteBuffer.cpp 161-180 AbstractByteBuffer::freeCapacity *)
(** Returns the freed capacity. [length] and [cap] keep their values. *)
Definition freeCapacity (s : t) : outcome (Z * t) :=
  match nodes s with
  | [] => Undef
  | root :: rest =>
      Val (fold_left (fun a n => u64 (a + ncap n)) rest 0,
           Make (factor s) [MkNode (nbuf root) 0 (ncap root)] 0 0 0 0 (length s) (cap s))
  end.

(** ** Reading *)

(*@ sese/io/AbstractByteBuffer.cpp 194-218 AbstractByteBuffer::read *)
(** The loop of [read] (and of [peek], on local cursors): from cursor
    [(rn, rp)], the bytes collected so far in [acc]. *)
Fixpoint read_loop (fuel : nat) (l : list node) (wn rn : nat) (rp need : Z) (acc : bytes) :
    outcome (bytes * nat * Z) :=
  match fuel with
  | O => Undef
  | S fuel =>
      n ← of_option (l !! rn);
      let remaining := u64 (nlen n - rp) in
      if need <=? remaining then
        data ← memread (nbuf n) rp need;
        Val (acc ++ data, rn, rp + need)
      else
        data ← memread (nbuf n) rp remaining;
        if (rn =? wn)%nat then Val (acc ++ data, rn, rp + remaining)
        else read_loop fuel l wn (S rn) 0 (need - remaining) (acc ++ data)
  end.

(*@ sese/io/AbstractByteBuffer.cpp 192-220 AbstractByteBuffer::read *)
Definition read (s : t) (need_read : Z) : outcome (Z * bytes * t) :=
  '(data, rn, rp) ← read_loop (S (List.length (nodes s))) (nodes s) (wnode s)
                              (rnode s) (rpos s) need_read [];
  Val (zlen data, data,
       Make (factor s) (nodes s) (wnode s) (wpos s) rn rp (length s) (cap s)).

(*@ sese/io/AbstractByteBuffer.cpp 253-285 AbstractByteBuffer::peek *)
Definition peek (s : t) (need_read : Z) : outcome (Z * bytes) :=
  '(data, rn, rp) ← read_loop (S (List.length (nodes s))) (nodes s) (wnode s)
                              (rnode s) (rpos s) need_read [];
  Val (zlen data, data).

(*@ sese/io/AbstractByteBuffer.cpp 289-313 AbstractByteBuffer::trunc *)
Fixpoint trunc_loop (fuel : nat) (l : list node) (wn rn : nat) (rp need acc : Z) :
    outcome (Z * nat * Z) :=
  match fuel with
  | O => Undef
  | S fuel =>
      n ← of_option (l !! rn);
      let remaining := u64 (nlen n - rp) in
      if need <=? remaining then Val (acc + need, rn, rp + need)
      else if (rn =? wn)%nat then Val (acc + remaining, rn, rp + remaining)
      else trunc_loop fuel l wn (S rn) 0 (need - remaining) (acc + remaining)
  end.

(*@ sese/io/AbstractByteBuffer.cpp 287-315 AbstractByteBuffer::trunc *)
Definition trunc (s : t) (need_read : Z) : outcome (Z * t) :=
  '(k, rn, rp) ← trunc_loop (S (List.length (nodes s))) (nodes s) (wnode s)
                            (rnode s) (rpos s) need_read 0;
  Val (k, Make (factor s) (nodes s) (wnode s) (wpos s) rn rp (length s) (cap s)).

(** ** Writing *)

(*@ sese/io/AbstractByteBuffer.cpp 224-249 AbstractByteBuffer::write *)
(** [acc] is [actual_write]. Replacing [next] of the write node drops what
    followed it. *)
Fixpoint write_loop (fuel : nat) (s : t) (data : bytes) (acc : Z) : outcome (Z * t) :=
  match fuel with
  | O => Undef
  | S fuel =>
      n ← of_option (nodes s !! wnode s);
      let remaining := u64 (ncap n - nlen n) in
      if zlen data <=? remaining then
        mem ← memcpy (nbuf n) (wpos s) data;
        Val (acc + zlen data,
             Make (factor s) (<[wnode s := MkNode mem (nlen n + zlen data) (ncap n)]> (nodes s))
                  (wnode s) (wpos s + zlen data) (rnode s) (rpos s) (length s) (cap s))
      else
        mem ← memcpy (nbuf n) (wpos s) (ztake remaining data);
        write_loop fuel
          (Make (factor s)
                (take (wnode s) (nodes s) ++ [MkNode mem (ncap n) (ncap n); new_node (factor s)])
                (S (wnode s)) 0 (rnode s) (rpos s)
                (u64 (length s + ncap n)) (u64 (cap s + factor s)))
          (zdrop remaining data) (acc + remaining)
  end.

(*@ sese/io/AbstractByteBuffer.cpp 222-251 AbstractByteBuffer::write *)
(** Every node but the first is filled with at least one byte when [factor] is
    positive, so [length data + 2] iterations are enough. *)
Definition write (s : t) (data : bytes) : outcome (Z * t) :=
  write_loop (S (S (List.length data))) s data 0.

#[global] Instance input : InputStream t := read.
#[global] Instance output : OutputStream t := write.
#[global] Instance peekable : PeekableStream t := { stream_peek := peek; stream_trunc := trunc }.

(** ** Invariant and content *)

(** The bytes a node holds, and those of a chain. *)
Definition node_data (n : node) : bytes := ztake (nlen n) (nbuf n).
Definition chain_data (l : list node) : bytes := l ≫= node_data.

Definition node_ok (n : node) : Prop :=
  0 <= nlen n <= ncap n /\ zlen (nbuf n) = ncap n /\ ncap n < 2 ^ 64.
Definition full (n : node) : Prop := nlen n = ncap n.

(** The write cursor is at the end of the last node, every other node is
    full, and the read cursor is not ahead of it. *)
Record valid (s : t) : Prop := {
  v_factor : 0 < factor s < 2 ^ 64;
  v_nodes : Forall node_ok (nodes s);
  v_caps : Forall (fun n => 0 < ncap n) (tail (nodes s));
  v_last : exists pre n, nodes s = pre ++ [n] /\ List.length pre = wnode s /\
             Forall full pre /\ wpos s = nlen n /\ (pre <> [] -> 0 < nlen n);
  v_read : exists pre n post, nodes s = pre ++ n :: post /\ List.length pre = rnode s /\
             0 <= rpos s <= nlen n }.

(** The unread bytes: what the chain holds after the read cursor. *)
Definition content (s : t) : bytes :=
  match drop (rnode s) (nodes s) with
  | [] => []
  | n :: post => zdrop (rpos s) (node_data n) ++ chain_data post
  end.

Lemma node_data_zlen n : node_ok n -> zlen (node_data n) = nlen n.
Proof. intros (? & ? & ?). apply zlen_ztake. lia. Qed.

Lemma chain_data_app l k : chain_data (l ++ k) = chain_data l ++ chain_data k.
Proof. unfold chain_data. apply bind_app. Qed.

Lemma chain_data_one n : chain_data [n] = node_data n.
Proof. unfold chain_data. cbn. apply app_nil_r. Qed.

Lemma content_split s pre n post : nodes s = pre ++ n :: post -> List.length pre = rnode s ->
  content s = zdrop (rpos s) (node_data n) ++ chain_data post.
Proof.
  intros Hn Hl. unfold content. rewrite Hn, <- Hl, drop_app_length. done.
Qed.

(** ** Reading delivers a prefix of the content *)

Lemma zlen_node_rest n rp : node_ok n -> 0 <= rp <= nlen n ->
  zlen (zdrop rp (node_data n)) = nlen n - rp.
Proof. intros Hn Hrp. rewrite zlen_zdrop; rewrite node_data_zlen; done || lia. Qed.

Lemma memread_node n rp m : node_ok n -> 0 <= rp -> 0 <= m -> rp + m <= nlen n ->
  memread (nbuf n) rp m = Val (ztake m (zdrop rp (node_data n))).
Proof.
  intros (? & ? & ?) Hrp Hm Hle. rewrite memread_Val by lia. f_equal.
  symmetry. apply slice_prefix; lia.
Qed.

Lemma read_loop_spec post : forall pre n fuel rp need acc,
  Forall node_ok (n :: post) -> 0 <= rp <= nlen n -> 0 <= need ->
  (List.length post < fuel)%nat ->
  let C := zdrop rp (node_data n) ++ chain_data post in
  exists rn' rp',
    read_loop fuel (pre ++ n :: post) (List.length pre + List.length post)
              (List.length pre) rp need acc = Val (acc ++ ztake need C, rn', rp') /\
    exists pre' n' post', pre ++ n :: post = pre' ++ n' :: post' /\
      List.length pre' = rn' /\ 0 <= rp' <= nlen n' /\
      zdrop rp' (node_data n') ++ chain_data post' = zdrop need C.
Proof.
  induction post as [|n2 post IH]; intros pre n fuel rp need acc Hok Hrp Hneed Hfuel C;
    (destruct fuel as [|fuel]; [cbn in Hfuel; lia|]); cbn [read_loop];
    inversion Hok as [|? ? Hn Hpost]; subst;
    rewrite list_lookup_middle by done; cbn [of_option]; rewrite bind_Val;
    pose proof Hn as (Hn1 & Hn2 & Hn3);
    rewrite wrap_small by (unfold is_u; lia);
    destruct (need <=? nlen n - rp) eqn:E; zbool;
    rewrite memread_node, bind_Val by (done || lia).
  1, 3: exists (List.length pre), (rp + need); split;
    [ subst C; rewrite ztake_app_le; [done|rewrite zlen_node_rest by done; lia]
    | exists pre, n; eexists; split; [done|]; split; [done|]; split; [lia|];
      subst C; rewrite zdrop_app_le by (rewrite zlen_node_rest by done; lia);
      now rewrite zdrop_zdrop by lia ].
  - rewrite (ztake_ge (nlen n - rp)) by (rewrite zlen_node_rest by done; lia).
    cbn [List.length] in *. rewrite Nat.add_0_r, Nat.eqb_refl.
    exists (List.length pre), (rp + (nlen n - rp)). split.
    + subst C. cbn. rewrite app_nil_r. rewrite (ztake_ge need); [done|].
      rewrite zlen_node_rest by done; lia.
    + exists pre, n, []. split; [done|]. split; [done|]. split; [lia|].
      subst C. cbn. rewrite !app_nil_r, !zdrop_ge;
        [done|rewrite zlen_node_rest by done; lia|rewrite node_data_zlen by done; lia].
  - rewrite (ztake_ge (nlen n - rp)) by (rewrite zlen_node_rest by done; lia).
    rewrite (proj2 (Nat.eqb_neq _ _)) by (cbn; lia).
    pose proof Hpost as Hpost'. inversion Hpost as [|? ? Hn2' _]; subst.
    destruct Hn2' as (? & ? & ?).
    destruct (IH (pre ++ [n]) n2 fuel 0 (need - (nlen n - rp)) (acc ++ zdrop rp (node_data n)) Hpost')
      as (rn' & rp' & Hr & pre' & n' & post' & Hs & Hl & Hrp' & Hd); [lia|lia|cbn in Hfuel; lia|].
    rewrite length_app, Nat.add_1_r, <- app_assoc in Hr. cbn [app] in Hr.
    replace (List.length pre + List.length (n2 :: post))%nat
      with (S (List.length pre) + List.length post)%nat by (cbn; lia).
    rewrite Hr. clear Hr IH. exists rn', rp'. rewrite (zdrop_0 0) in Hd by lia. rewrite (zdrop_0 0) by lia.
    assert (zlen (zdrop rp (node_data n)) = nlen n - rp) as Hz
      by (rewrite zlen_node_rest by done; lia).
    assert (C = zdrop rp (node_data n) ++ node_data n2 ++ chain_data post) as -> by done.
    rewrite (ztake_app_ge need), (zdrop_app_ge need), Hz by (rewrite Hz; lia).
    rewrite (app_assoc acc). split; [done|].
    exists pre', n', post'. rewrite <- app_assoc in Hs. done.
Qed.

(** The read cursor's decomposition of a valid buffer, with the index of the
    last node. *)
Lemma read_split s : valid s -> exists pre n post,
  nodes s = pre ++ n :: post /\ List.length pre = rnode s /\ 0 <= rpos s <= nlen n /\
  Forall node_ok (n :: post) /\ wnode s = (List.length pre + List.length post)%nat /\
  content s = zdrop (rpos s) (node_data n) ++ chain_data post.
Proof.
  intros [_ Hok _ (wp & wn & Hw & Hwl & _) (pre & n & post & Hn & Hl & Hrp)].
  exists pre, n, post. split; [done|]. split; [done|]. split; [done|].
  split; [rewrite Hn in Hok; now apply Forall_app in Hok|]. split.
  - apply (f_equal List.length) in Hw, Hn. rewrite length_app in Hw, Hn. cbn in Hw, Hn. lia.
  - now apply content_split with pre.
Qed.

(** Moving the read cursor keeps the buffer valid. *)
Lemma valid_cursor s pre n post rp : valid s -> nodes s = pre ++ n :: post ->
  0 <= rp <= nlen n ->
  valid (Make (factor s) (nodes s) (wnode s) (wpos s) (List.length pre) rp (length s) (cap s)).
Proof.
  intros [Hf Hok Hcaps Hw _] Hn Hrp. split; cbn; try done. exists pre, n, post. done.
Qed.

Lemma read_spec s need : valid s -> 0 <= need ->
  exists s', read s need = Val (Z.min need (zlen (content s)), ztake need (content s), s') /\
    peek s need = Val (Z.min need (zlen (content s)), ztake need (content s)) /\
    valid s' /\ content s' = zdrop need (content s) /\ nodes s' = nodes s /\ wnode s' = wnode s.
Proof.
  intros Hv Hneed. destruct (read_split s Hv) as (pre & n & post & Hn & Hl & Hrp & Hok & Hw & Hc).
  destruct (read_loop_spec post pre n (S (List.length (nodes s))) (rpos s) need [] Hok Hrp Hneed)
    as (rn' & rp' & Hr & pre' & n' & post' & Hs & Hl' & Hrp' & Hd).
  { rewrite Hn, length_app. cbn. lia. }
  assert (zlen (ztake need (content s)) = Z.min need (zlen (content s))) as Hz.
  { destruct (Z.min_spec need (zlen (content s))) as [[? ->]|[? ->]];
      [apply zlen_ztake; lia | now rewrite ztake_ge]. }
  rewrite <- Hn, <- Hw, Hl in Hr. unfold read, peek. rewrite Hr, !bind_Val. cbn [app].
  rewrite <- Hc, Hz. eexists. split; [reflexivity|]. split; [done|].
  rewrite <- Hn in Hs. subst rn'. split; [|split; [|done]].
  - now apply valid_cursor with n' post'.
  - rewrite Hc, <- Hd. now apply content_split with pre'.
Qed.

(** [trunc] is [read] without the bytes. *)
Lemma trunc_loop_read fuel l wn : forall rn rp need acc,
  Forall node_ok l -> (forall n, l !! rn = Some n -> 0 <= rp <= nlen n) -> 0 <= need ->
  trunc_loop fuel l wn rn rp need (zlen acc) =
  '(data, rn, rp) ← read_loop fuel l wn rn rp need acc; Val (zlen data, rn, rp).
Proof.
  induction fuel as [|fuel IH]; intros rn rp need acc Hok Hrp Hneed; [done|]. cbn.
  destruct (l !! rn) as [n|] eqn:El; cbn [of_option mbind outcome_bind]; [|done].
  specialize (Hrp _ eq_refl).
  pose proof (proj1 (Forall_lookup _ _) Hok _ _ El) as Hn. pose proof Hn as (H1 & H2 & H3).
  rewrite wrap_small by (unfold is_u; lia).
  assert (forall m, 0 <= m -> rp + m <= nlen n -> zlen (ztake m (zdrop rp (node_data n))) = m) as Hz.
  { intros m Hm Hle. apply zlen_ztake. rewrite zlen_node_rest by done; lia. }
  destruct (_ <=? _) eqn:E; zbool.
  - rewrite (memread_node n) by (done || lia). cbn. rewrite zlen_app, Hz by lia. done.
  - rewrite (memread_node n) by (done || lia). cbn [mbind outcome_bind].
    destruct (_ =? _)%nat; [cbn; now rewrite zlen_app, Hz by lia|].
    rewrite <- (Hz (nlen n - rp)) at 2 by lia. rewrite <- zlen_app. apply IH; [done| |lia].
    intros n2 El2. apply (proj1 (Forall_lookup _ _) Hok) in El2 as (? & _). lia.
Qed.

Lemma trunc_spec s need : valid s -> 0 <= need ->
  exists s', trunc s need = Val (Z.min need (zlen (content s)), s') /\
    valid s' /\ content s' = zdrop need (content s).
Proof.
  intros Hv Hneed. destruct (read_spec s need Hv Hneed) as (s' & Hr & _ & Hv' & Hc' & _).
  unfold trunc. change 0 with (zlen (@nil Z)). rewrite trunc_loop_read; [|apply Hv| |done].
  - unfold read in Hr. destruct (read_loop _ _ _ _ _ _ _) as [[[data rn] rp]|]; [|done].
    cbn in Hr |- *. injection Hr as Hz Hd Hs. exists s'. now rewrite Hz, Hs.
  - intros n El. destruct (v_read s Hv) as (pre & n' & post & Hn & Hl & Hrp).
    rewrite Hn, <- Hl, list_lookup_middle in El by done. now injection El as <-.
Qed.

#[global] Program Instance meminput : MemInput t :=
  {| in_valid := valid; in_content := content |}.
Next Obligation.
  intros s n Hv Hn. destruct (read_spec s n Hv Hn) as (s' & ? & _ & ? & ? & _). eauto.
Qed.

#[global] Program Instance mempeek : MemPeek t.
Next Obligation.
  intros s n Hv Hn. destruct (read_spec s n Hv Hn) as (s' & _ & ? & _). done.
Qed.
Next Obligation. intros s n Hv Hn. now apply trunc_spec. Qed.

(** ** Writing appends to the content *)

(** The last node and the write cursor at its end. *)
Definition at_end (s : t) (pre : list node) (n : node) : Prop :=
  nodes s = pre ++ [n] /\ List.length pre = wnode s /\ wpos s = nlen n /\
  Forall full pre /\ node_ok n.

(** Writing [data] at the end of the used part of a node. *)
Lemma fill_node n data : node_ok n -> nlen n + zlen data <= ncap n ->
  exists mem, memcpy (nbuf n) (nlen n) data = Val mem /\
    node_ok (MkNode mem (nlen n + zlen data) (ncap n)) /\
    node_data (MkNode mem (nlen n + zlen data) (ncap n)) = node_data n ++ data.
Proof.
  intros (H1 & H2 & H3) Hle. pose proof (zlen_nonneg data).
  assert (E := memcpy_Val (nbuf n) (nlen n) data ltac:(lia) ltac:(lia)).
  eexists. split; [exact E|]. split.
  - pose proof (memcpy_zlen _ _ _ _ E). repeat split; cbn; lia.
  - unfold node_data. cbn [nlen nbuf].
    apply (memcpy_content (nbuf n) (nlen n) data); [lia|exact E].
Qed.

Lemma new_node_ok f : 0 < f < 2 ^ 64 -> node_ok (new_node f) /\ node_data (new_node f) = [].
Proof.
  intros H. split; [repeat split; cbn; try lia; now rewrite zlen_malloc by lia|].
  apply ztake_0. cbn. lia.
Qed.

(** One call of [write]: the last node is extended, full nodes follow it, and
    the last of them holds the end of the data. *)
Lemma write_loop_spec fuel : forall s pre n data acc,
  0 < factor s < 2 ^ 64 -> at_end s pre n ->
  (List.length data + Nat.b2n (ncap n =? nlen n)%Z < fuel)%nat ->
  exists s' n1 post q m d1,
    write_loop fuel s data acc = Val (acc + zlen data, s') /\
    nodes s' = pre ++ n1 :: post /\ Forall node_ok (n1 :: post) /\
    ncap n1 = ncap n /\ Forall (fun n => 0 < ncap n) post /\
    nlen n <= nlen n1 /\ node_data n1 = node_data n ++ d1 /\ d1 ++ chain_data post = data /\
    at_end s' q m /\ (data <> [] -> 0 < nlen m) /\ (data = [] -> q = pre /\ nlen m = nlen n) /\
    factor s' = factor s /\ rnode s' = rnode s /\ rpos s' = rpos s /\
    u64 (length s' + nlen m) = u64 (length s + nlen n + zlen data).
Proof.
  induction fuel as [|fuel IH]; intros s pre n data acc Hf (Hn & Hw & Hp & Hfull & Hok) Hfuel; [lia|].
  cbn [write_loop]. rewrite Hn, <- Hw, list_lookup_middle by done. cbn [of_option].
  rewrite bind_Val. pose proof Hok as (H1 & H2 & H3). pose proof (zlen_nonneg data).
  rewrite wrap_small by (unfold is_u; lia). rewrite Hp.
  destruct (zlen data <=? ncap n - nlen n) eqn:E; zbool.
  - destruct (fill_node n data Hok) as (mem & -> & Hok1 & Hd1); [lia|]. rewrite bind_Val.
    set (n1 := MkNode _ _ _) in *. eexists _, n1, [], pre, n1, data. split; [reflexivity|].
    cbn [nodes factor rnode rpos length wnode wpos].
    assert (<[List.length pre := n1]> (pre ++ [n]) = pre ++ [n1]) as Hi
      by now rewrite insert_app_r_alt, Nat.sub_diag by lia.
    split; [exact Hi|]. split; [repeat constructor; apply Hok1|].
    split; [done|]. split; [done|]. split; [cbn; lia|].
    split; [done|]. split; [apply app_nil_r|]. split; [repeat split; done || apply Hok1|].
    split; [intros Hne; cbn; destruct data; [done|]; rewrite zlen_cons in *; pose proof (zlen_nonneg data); lia|].
    split; [intros ->; cbn; split; [done|rewrite zlen_nil; lia]|].
    repeat split; try done. cbn. f_equal. lia.
  - assert (zlen (ztake (ncap n - nlen n) data) = ncap n - nlen n) as Hz by (apply zlen_ztake; lia).
    destruct (fill_node n (ztake (ncap n - nlen n) data) Hok) as (mem & -> & Hok1 & Hd1); [lia|].
    rewrite bind_Val. rewrite Hz in Hok1, Hd1.
    replace (nlen n + (ncap n - nlen n)) with (ncap n) in Hok1, Hd1 by lia.
    set (n1 := MkNode _ _ _) in *.
    destruct (new_node_ok (factor s) Hf) as [Hokn Hdn].
    rewrite take_app_length.
    set (s1 := Make _ _ _ _ _ _ _ _).
    assert (zlen (zdrop (ncap n - nlen n) data) = zlen data - (ncap n - nlen n)) as Hzd
      by (apply zlen_zdrop; lia).
    destruct (IH s1 (pre ++ [n1]) (new_node (factor s)) (zdrop (ncap n - nlen n) data)
                (acc + (ncap n - nlen n)))
      as (s' & n2 & post & q & m & d2 & Hr & Hn' & Hok2 & Hcap2 & Hcaps & Hl2 & Hd2 & Hpost & He & Hpos & _ & Hf' & Hrn & Hrp & Hlen).
    { done. }
    { unfold at_end. cbn. rewrite <- app_assoc. repeat split; try apply Hokn.
      - rewrite length_app. cbn. lia.
      - apply Forall_app. split; [done|]. constructor; [|done]. done. }
    { cbn [ncap nlen new_node]. rewrite (proj2 (Z.eqb_neq (factor s) 0)) by lia.
      unfold zlen in *. destruct (ncap n =? nlen n) eqn:E0; zbool; cbn [Nat.b2n] in *; lia. }
    rewrite Hr. exists s', n1, (n2 :: post), q, m, (ztake (ncap n - nlen n) data).
    split; [do 2 f_equal; lia|].
    split; [rewrite Hn', <- app_assoc; done|].
    split; [now constructor|]. split; [done|].
    split; [constructor; [rewrite Hcap2; cbn; lia|done]|]. split; [cbn; lia|]. split; [done|].
    split. { change (chain_data (n2 :: post)) with (node_data n2 ++ chain_data post).
             rewrite Hd2, Hdn. cbn [app]. rewrite Hpost. apply ztake_zdrop. }
    split; [done|]. split; [intros _; apply Hpos; intros E0; rewrite E0, zlen_nil in Hzd; lia|].
    split; [intros ->; rewrite zlen_nil in *; lia|].
    repeat split; try done. rewrite Hlen. cbn.
    unfold wrap. rewrite Zplus_mod_idemp_l || idtac.
    replace (_ + 0 + zlen (zdrop (ncap n - nlen n) data))
      with ((length s + ncap n) mod 2 ^ 64 + (zlen data - (ncap n - nlen n))) by lia.
    rewrite Zplus_mod_idemp_l. f_equal. lia.
Qed.

(** [write] on a valid buffer stores all the data. *)
Lemma chain_write_spec s data : valid s ->
  exists s', write s data = Val (zlen data, s') /\ valid s' /\
    content s' = content s ++ data /\
    (exists l l', getLength s = Val l /\ getLength s' = Val l' /\ l' = u64 (l + zlen data)).
Proof.
  intros Hv. destruct Hv as [Hf Hok Hcaps (pre & n & Hn & Hw & Hfull & Hp & Hpos) (rp & rn & rpost & Hrn & Hrl & Hrp)].
  assert (node_ok n) as Hokn by (rewrite Hn in Hok; apply Forall_app in Hok as [_ Hok]; now inversion Hok).
  destruct (write_loop_spec (S (S (List.length data))) s pre n data 0 Hf)
    as (s' & n1 & post & q & m & d1 & Hr & Hn' & Hok' & Hcap1 & Hcaps1 & Hl & Hd & Hdata & (Hq & Hqw & Hqp & Hqf & Hqok) & Hm & Hnil & Hf' & Hrn' & Hrp' & Hlen).
  { done. } { destruct (_ =? _); cbn; lia. }
  exists s'. unfold write. split; [exact Hr|].
  assert (Forall node_ok (nodes s')) as Hall.
  { rewrite Hn'. apply Forall_app. split; [|done]. rewrite Hn in Hok. now apply Forall_app in Hok. }
  (* the read cursor is in the untouched prefix or in the extended node *)
  assert (exists n' post', nodes s' = rp ++ n' :: post' /\ 0 <= rpos s <= nlen n' /\
            zdrop (rpos s) (node_data n') ++ chain_data post' = content s ++ data)
    as (n' & post' & Hs' & Hrps & Hcont).
  { rewrite (content_split s rp rn rpost Hrn Hrl).
    destruct (decide (rpost = [])) as [->|Hne].
    - rewrite Hrn in Hn. apply app_inj_tail in Hn as [-> ->]. exists n1, post.
      split; [done|]. split; [lia|].
      rewrite Hd, zdrop_app_le by (rewrite node_data_zlen; done || lia).
      unfold chain_data at 2. cbn. rewrite app_nil_r, <- app_assoc. now rewrite Hdata.
    - destruct (exists_last Hne) as (mid & z & ->).
      rewrite Hrn in Hn. rewrite app_comm_cons, app_assoc in Hn.
      apply app_inj_tail in Hn as [<- ->]. exists rn, (mid ++ n1 :: post).
      split; [now rewrite Hn', <- app_assoc|]. split; [done|].
      rewrite !chain_data_app, chain_data_one.
      change (chain_data (n1 :: post)) with (node_data n1 ++ chain_data post).
      rewrite Hd, <- !app_assoc. now rewrite Hdata. }
  split; [constructor|split].
  - now rewrite Hf'.
  - done.
  - rewrite Hn in Hcaps. rewrite Hn'. destruct pre as [|p pre]; cbn in Hcaps |- *; [done|].
    apply Forall_app in Hcaps as [Hc1 Hc2]. apply Forall_app. split; [done|].
    constructor; [|done]. inversion Hc2; subst. lia.
  - exists q, m. split; [done|]. split; [done|]. split; [done|]. split; [done|].
    intros Hqne. destruct (decide (data = [])) as [->|]; [|auto].
    destruct (Hnil eq_refl) as [-> ->]. auto.
  - exists rp, n', post'. rewrite Hrn', Hrp'. done.
  - rewrite <- Hcont. rewrite <- Hrp'. apply content_split with rp; [done|congruence].
  - unfold getLength. rewrite Hn, <- Hw, list_lookup_middle by done.
    rewrite Hq, <- Hqw, list_lookup_middle by done. cbn. eexists _, _. split; [done|]. split; [done|].
    rewrite Hlen. unfold wrap. now rewrite Zplus_mod_idemp_l.
Qed.

#[global] Program Instance memoutput : MemOutput t :=
  {| out_valid := valid; out_content := content; out_room _ _ := True |}.
Next Obligation.
  intros s data Hv _. destruct (chain_write_spec s data Hv) as (s' & ? & ? & ? & _). eauto 6.
Qed.
Next Obligation. done. Qed.

(** ** Construction, copy and observers *)

Lemma create_valid base f : 0 <= base < 2 ^ 64 -> 0 < f < 2 ^ 64 ->
  valid (create base f) /\ content (create base f) = [].
Proof.
  intros Hb Hf. assert (node_ok (new_node base)) as Hok.
  { repeat split; cbn; try lia. now rewrite zlen_malloc by lia. }
  split.
  - split; cbn; [done|by apply Forall_singleton|constructor| |].
    + exists [], (new_node base). done.
    + exists [], (new_node base), []. split; [done|]. split; [done|]. cbn. lia.
  - unfold content. cbn. unfold node_data. cbn. rewrite ztake_0 by lia. now rewrite zdrop_0.
Qed.

(** The nodes after the read node: they hold data, and their capacity is their
    length except for the write node. *)
Lemma post_nonempty s pre n post : valid s -> nodes s = pre ++ n :: post ->
  Forall (fun n => 0 < nlen n) post.
Proof.
  intros [_ _ Hcaps (q & m & Hq & _ & Hfull & _ & Hpos) _] Hn.
  assert (Forall (fun n => 0 < ncap n) post) as Hc.
  { rewrite Hn in Hcaps. destruct pre; cbn in Hcaps; [done|].
    apply Forall_app in Hcaps as [_ Hcaps]. now inversion Hcaps. }
  destruct (decide (post = [])) as [->|Hne]; [constructor|].
  destruct (exists_last Hne) as (mid & z & ->).
  rewrite Hn, app_comm_cons, app_assoc in Hq. apply app_inj_tail in Hq as [<- ->].
  apply Forall_app in Hfull as [_ Hfull]. inversion Hfull as [|? ? _ Hfm]; subst.
  apply Forall_app in Hc as [Hc _]. apply Forall_app. split.
  - apply Forall_forall. intros x Hx. rewrite Forall_forall in Hfm, Hc.
    unfold full in Hfm. rewrite Hfm by done. auto.
  - constructor; [|done]. apply Hpos. now destruct pre.
Qed.

Lemma eof_spec s : valid s -> eof s = Val (bool_decide (content s = [])).
Proof.
  intros Hv. destruct (read_split s Hv) as (pre & n & post & Hn & Hl & Hrp & Hok & _ & Hc).
  pose proof (post_nonempty s pre n post Hv Hn) as Hpost.
  inversion Hok as [|? ? Hokn Hokp]; subst. pose proof Hokn as (? & ? & ?).
  unfold eof. rewrite Hn, <- Hl, (list_lookup_middle pre post n (List.length pre)) by done. cbn [of_option]. rewrite bind_Val.
  rewrite wrap_small by (unfold is_u; lia).
  replace (S (List.length pre)) with (List.length (pre ++ [n])) by (rewrite length_app; cbn; lia).
  change (n :: post) with ([n] ++ post). rewrite (app_assoc pre [n] post), lookup_app_r, Nat.sub_diag by lia.
  rewrite Hc. destruct (_ =? 0) eqn:E; zbool; cbn [negb].
  - rewrite zdrop_ge by (rewrite node_data_zlen by done; lia). cbn [app].
    destruct post as [|n2 post]; cbn [lookup list_lookup].
    + now rewrite bool_decide_true.
    + inversion Hpost; subst. rewrite (proj2 (Z.eqb_neq _ _)) by lia.
      rewrite bool_decide_false; [done|]. intros E2. apply (f_equal zlen) in E2.
      change (chain_data (n2 :: post)) with (node_data n2 ++ chain_data post) in E2.
      rewrite zlen_app, zlen_nil, node_data_zlen in E2 by (now inversion Hokp).
      pose proof (zlen_nonneg (chain_data post)). lia.
  - rewrite bool_decide_false; [done|]. intros E2. apply (f_equal zlen) in E2.
    rewrite zlen_app, zlen_node_rest, zlen_nil in E2 by done.
    pose proof (zlen_nonneg (chain_data post)). lia.
Qed.

Lemma readable_loop_spec s q m : nodes s = q ++ [m] -> List.length q = wnode s ->
  Forall full q -> wpos s = nlen m ->
  forall l i size, drop i (nodes s) = l -> Forall node_ok l ->
  readable_loop s i l (u64 size) = u64 (size + zlen (chain_data l)).
Proof.
  intros Hq Hw Hfull Hwp. induction l as [|n l IH]; intros i size Hd Hok; cbn [readable_loop].
  - change (zlen (chain_data [])) with 0. now rewrite Z.add_0_r.
  - inversion Hok as [|? ? Hokn Hokl]; subst.
    assert (drop (S i) (nodes s) = l) as Hd' by (rewrite <- Nat.add_1_r, <- drop_drop, Hd; done).
    assert (nodes s !! i = Some n) as Hi by (rewrite <- (Nat.add_0_r i), <- lookup_drop, Hd; done).
    assert ((if (i =? wnode s)%nat then wpos s else ncap n) = nlen n) as ->.
    { rewrite Hq in Hi. destruct (Nat.eqb_spec i (wnode s)) as [->|Hne].
      - rewrite <- Hw, list_lookup_middle in Hi by done. now injection Hi as <-.
      - apply lookup_app_Some in Hi as [Hi|[Hge Hi]].
        + symmetry. exact (proj1 (Forall_lookup _ _) Hfull _ _ Hi).
        + apply lookup_lt_Some in Hi. cbn in Hi. lia. }
    replace (u64 (u64 size + nlen n)) with (u64 (size + nlen n))
      by (unfold wrap; now rewrite Zplus_mod_idemp_l).
    rewrite (IH (S i) (size + nlen n) Hd' Hokl). f_equal.
    change (chain_data (n :: l)) with (node_data n ++ chain_data l).
    rewrite zlen_app, node_data_zlen by done. lia.
Qed.

Lemma getReadableSize_spec s : valid s -> getReadableSize s = Val (u64 (zlen (content s))).
Proof.
  intros Hv. destruct (read_split s Hv) as (pre & n & post & Hn & Hl & Hrp & Hok & _ & Hc).
  destruct (v_last s Hv) as (q & m & Hq & Hw & Hfull & Hp & _).
  inversion Hok as [|? ? Hokn Hokp]; subst.
  unfold getReadableSize. rewrite Hn at 1. rewrite <- Hl, list_lookup_middle by done.
  cbn [of_option]. rewrite bind_Val, Hl. f_equal.
  assert (drop (S (rnode s)) (nodes s) = post) as Hd.
  { rewrite Hn, <- Hl, <- Nat.add_1_r, <- drop_drop, drop_app_length. done. }
  rewrite Hd, (readable_loop_spec s q m Hq Hw Hfull Hp post) by done.
  now rewrite Hc, zlen_app, zlen_node_rest by done.
Qed.

Lemma copy_nodes_spec l : Forall node_ok l -> exists l', copy_nodes l = Val l' /\
  Forall2 (fun n n' => nlen n' = nlen n /\ ncap n' = ncap n /\ node_ok n' /\
                       node_data n' = node_data n) l l'.
Proof.
  induction 1 as [|n l Hok _ (l' & E & Hl)]; [now eexists|].
  pose proof Hok as (H1 & H2 & H3). cbn. unfold copy_node.
  rewrite memread_Val, bind_Val by lia.
  assert (slice 0 (nlen n) (nbuf n) = node_data n) as -> by (unfold slice; now rewrite zdrop_0).
  pose proof (node_data_zlen n Hok) as Hz.
  assert (M := memcpy_Val (malloc (ncap n)) 0 (node_data n) ltac:(lia)
                 ltac:(rewrite zlen_malloc; lia)).
  set (mem := _ ++ _) in M. rewrite M, !bind_Val, E, bind_Val. eexists. split; [done|].
  constructor; [|done]. split; [done|]. split; [done|]. split.
  - pose proof (memcpy_zlen _ _ _ _ M) as Hm. rewrite zlen_malloc in Hm by lia. repeat split; cbn; lia.
  - assert (E1 := memcpy_content _ _ _ _ (Z.le_refl 0) M).
    rewrite Hz, (ztake_0 0 (malloc _)) in E1 by lia. exact E1.
Qed.

Lemma Forall2_split {A B} (P : A -> B -> Prop) l1 a l2 k :
  Forall2 P (l1 ++ a :: l2) k -> exists k1 b k2, k = k1 ++ b :: k2 /\
    Forall2 P l1 k1 /\ P a b /\ Forall2 P l2 k2.
Proof.
  intros H. apply Forall2_app_inv_l in H as (k1 & k' & H1 & H2 & ->).
  inversion H2; subst. eauto 8.
Qed.

Lemma chain_data_copy l l' :
  Forall2 (fun n n' => nlen n' = nlen n /\ ncap n' = ncap n /\ node_ok n' /\
                       node_data n' = node_data n) l l' ->
  chain_data l' = chain_data l /\ Forall node_ok l' /\
  (Forall full l -> Forall full l') /\ (Forall (fun n => 0 < ncap n) l -> Forall (fun n => 0 < ncap n) l').
Proof.
  induction 1 as [|n n' l l' (H1 & H2 & H3 & H4) _ (IH1 & IH2 & IH3 & IH4)]; [done|].
  change (chain_data (n' :: l')) with (node_data n' ++ chain_data l').
  change (chain_data (n :: l)) with (node_data n ++ chain_data l).
  split; [congruence|]. split; [by constructor|].
  split; intros HF; inversion HF; subst; constructor; auto.
  - unfold full in *. lia.
  - lia.
Qed.

(** The copy constructor gives a valid buffer with the same unread bytes. *)
Lemma chain_copy_spec s : valid s ->
  exists s', copy s = Val s' /\ valid s' /\ content s' = content s.
Proof.
  intros Hv. destruct (read_split s Hv) as (pre & n & post & Hn & Hl & Hrp & Hok & _ & Hc).
  pose proof Hv as [Hf Hall Hcaps (q & m & Hq & Hw & Hfull & Hwp & Hpos) _].
  destruct (copy_nodes_spec (nodes s) Hall) as (l' & E & HF).
  assert ((wnode s <? List.length (nodes s))%nat = true) as Ew
    by (apply Nat.ltb_lt; rewrite Hq, length_app, <- Hw; cbn; lia).
  assert ((rnode s <? List.length (nodes s))%nat = true) as Er
    by (apply Nat.ltb_lt; rewrite Hn, length_app, <- Hl; cbn; lia).
  set (s' := Make (factor s) l' (wnode s) (wpos s) (rnode s) (rpos s) (length s) (cap s)).
  exists s'.
  split; [unfold copy; rewrite E, Ew, Er; destruct (nodes s); [by destruct pre|done]|].
  pose proof HF as HF1. rewrite Hn in HF1.
  apply Forall2_split in HF1 as (pre' & n' & post' & Hn' & HFpre & (Hnl & Hnc & Hnok & Hnd) & HFpost).
  pose proof HF as HF2. rewrite Hq in HF2.
  apply Forall2_split in HF2 as (q' & m' & z & Hq' & HFq & (Hml & Hmc & Hmok & Hmd) & HFz).
  inversion HFz; subst z.
  split; [constructor; cbn [factor nodes wnode wpos rnode rpos]|].
  - done.
  - apply chain_data_copy in HF. tauto.
  - destruct HF as [|a b la lb _ HF]; [done|]. cbn in Hcaps |- *. apply chain_data_copy in HF. tauto.
  - exists q', m'. split; [done|]. split; [now rewrite <- (Forall2_length _ _ _ HFq)|].
    split; [apply chain_data_copy in HFq; tauto|]. split; [cbn; lia|].
    intros Hne. rewrite Hml. apply Hpos. intros ->. now inversion HFq; subst.
  - exists pre', n', post'. split; [done|]. split; [now rewrite <- (Forall2_length _ _ _ HFpre)|].
    cbn [s' rpos]. rewrite Hnl. exact Hrp.
  - rewrite Hc. rewrite (content_split s' pre' n' post') by (done || (cbn; now rewrite <- (Forall2_length _ _ _ HFpre))).
    cbn. rewrite Hnd. f_equal. now apply chain_data_copy in HFpost as [-> _].
Qed.

Lemma freeCapacity_spec s : valid s -> exists k s', freeCapacity s = Val (k, s') /\
  valid s' /\ content s' = [] /\ length s' = length s /\ cap s' = cap s.
Proof.
  intros [Hf Hok Hcaps _ (pre & n & post & Hn & _)]. unfold freeCapacity.
  destruct (nodes s) as [|root rest]; [now destruct pre|].
  inversion Hok as [|? ? (H1 & H2 & H3) _]; subst.
  eexists _, _. split; [reflexivity|]. cbn.
  assert (node_ok (MkNode (nbuf root) 0 (ncap root))) as Hr by (repeat split; cbn; lia).
  split; [|split; [|done]].
  - constructor; cbn; [done|by apply Forall_singleton|constructor| |].
    + by exists [], (MkNode (nbuf root) 0 (ncap root)).
    + exists [], (MkNode (nbuf root) 0 (ncap root)), []. split; [done|]. split; [done|]. cbn. lia.
  - unfold content, node_data. cbn. now rewrite ztake_0, zdrop_0.
Qed.

(** ** A byte buffer is a queue of bytes *)

(** Calls of the buffer, and what they return. *)
Inductive op :=
| Write (data : bytes) | Read (n : Z) | Peek (n : Z) | Trunc (n : Z)
| Eof | ReadableSize | Copy.

Inductive result := Count (k : Z) | Data (k : Z) (d : bytes) | Flag (b : bool) | Unit.

(** The arguments are [size_t] values. *)
Definition op_ok (o : op) : Prop :=
  match o with
  | Read n | Peek n | Trunc n => 0 <= n
  | _ => True
  end.

(** One call on the buffer; [Copy] continues with the copy. *)
Definition step (s : t) (o : op) : outcome (result * t) :=
  match o with
  | Write d => '(k, s) ← write s d; Val (Count k, s)
  | Read n => '(k, d, s) ← read s n; Val (Data k d, s)
  | Peek n => '(k, d) ← peek s n; Val (Data k d, s)
  | Trunc n => '(k, s) ← trunc s n; Val (Count k, s)
  | Eof => b ← eof s; Val (Flag b, s)
  | ReadableSize => k ← getReadableSize s; Val (Count k, s)
  | Copy => s ← copy s; Val (Unit, s)
  end.

(** The specification: the unread bytes, first in first out. *)
Definition spec_step (q : bytes) (o : op) : result * bytes :=
  match o with
  | Write d => (Count (zlen d), q ++ d)
  | Read n => (Data (Z.min n (zlen q)) (ztake n q), zdrop n q)
  | Peek n => (Data (Z.min n (zlen q)) (ztake n q), q)
  | Trunc n => (Count (Z.min n (zlen q)), zdrop n q)
  | Eof => (Flag (bool_decide (q = [])), q)
  | ReadableSize => (Count (u64 (zlen q)), q)
  | Copy => (Unit, q)
  end.

Fixpoint run (s : t) (ops : list op) : outcome (list result) :=
  match ops with
  | [] => Val []
  | o :: ops => '(r, s) ← step s o; rs ← run s ops; Val (r :: rs)
  end.

Fixpoint spec_run (q : bytes) (ops : list op) : list result :=
  match ops with
  | [] => []
  | o :: ops => let '(r, q) := spec_step q o in r :: spec_run q ops
  end.

Lemma step_refines s o : valid s -> op_ok o ->
  exists s', step s o = Val (fst (spec_step (content s) o), s') /\
    valid s' /\ content s' = snd (spec_step (content s) o).
Proof.
  intros Hv Ho. destruct o; cbn [step spec_step fst snd op_ok] in *.
  - destruct (chain_write_spec s data Hv) as (s' & -> & ? & ? & _). eauto.
  - destruct (read_spec s n Hv Ho) as (s' & -> & _ & ? & ? & _). eauto.
  - destruct (read_spec s n Hv Ho) as (s' & _ & -> & _). eauto.
  - destruct (trunc_spec s n Hv Ho) as (s' & -> & ? & ?). eauto.
  - rewrite eof_spec by done. eauto.
  - rewrite getReadableSize_spec by done. eauto.
  - destruct (chain_copy_spec s Hv) as (s' & -> & ? & ?). eauto.
Qed.

Lemma run_refines ops : forall s, valid s -> Forall op_ok ops ->
  run s ops = Val (spec_run (content s) ops).
Proof.
  induction ops as [|o ops IH]; intros s Hv Hok; [done|].
  inversion Hok; subst. destruct (step_refines s o Hv) as (s' & E & Hv' & Hc); [done|].
  cbn [run spec_run]. rewrite E. destruct (spec_step (content s) o) as [r q]. cbn in *.
  rewrite IH, Hc by done. done.
Qed.

(** C6: a byte buffer built with any initial node size and a positive growth
    step behaves, over any sequence of writes, reads, peeks, truncations, tests and
    copies, exactly as a queue of bytes: every call terminates without undefined
    behaviour, writes accept all their data, reads deliver it once and in order. *)
Theorem bytebuffer_refines_queue (base f : Z) (ops : list op) :
  0 <= base < 2 ^ 64 -> 0 < f < 2 ^ 64 -> Forall op_ok ops ->
  run (create base f) ops = Val (spec_run [] ops).
Proof.
  intros Hb Hf Hok. destruct (create_valid base f Hb Hf) as [Hv Hc].
  rewrite <- Hc. now apply run_refines.
Qed.

Lemma bytebuffer_refines_queue_witness :
  run (create 2 3) [Write (str "hello, world"); Read 4; Peek 20; Copy; Trunc 3; ReadableSize; Eof] =
  Val [Count 12; Data 4 (str "hell"); Data 8 (str "o, world"); Unit; Count 3; Count 5; Flag false].
Proof.
  apply (bytebuffer_refines_queue 2 3
    [Write (str "hello, world"); Read 4; Peek 20; Copy; Trunc 3; ReadableSize; Eof]);
    [lia|lia|repeat constructor; cbn; lia].
Defined.

(** [freeCapacity] does not only release the nodes before the read node,
    as its documentation says: it discards every unread byte, and it leaves
    [getCapacity] and the counted length as they were. *)
Theorem freeCapacity_discards (s : t) :
  valid s ->
  exists k s', freeCapacity s = Val (k, s') /\ valid s' /\
    eof s' = Val true /\ getReadableSize s' = Val 0 /\
    getCapacity s' = getCapacity s /\ getLength s' = Val (u64 (length s)).
Proof.
  intros Hv. destruct (freeCapacity_spec s Hv) as (k & s' & E & Hv' & Hc & Hl & Hcap).
  exists k, s'. split; [done|]. split; [done|].
  rewrite eof_spec, getReadableSize_spec, Hc by done.
  split; [done|]. split; [done|]. split; [done|].
  unfold freeCapacity in E. destruct (nodes s) as [|root rest]; [done|]. injection E as _ <-.
  unfold getLength. cbn. f_equal. f_equal. lia.
Qed.

Lemma freeCapacity_discards_witness :
  exists k s', freeCapacity (create 2 3) = Val (k, s') /\ valid s' /\
    eof s' = Val true /\ getReadableSize s' = Val 0 /\
    getCapacity s' = getCapacity (create 2 3) /\ getLength s' = Val (u64 (length (create 2 3))).
Proof. apply (freeCapacity_discards (create 2 3)). apply create_valid; lia. Defined.

(** Without a growth step the write loop adds empty nodes for ever. *)
Lemma write_loop_no_factor fuel : forall s pre n data acc,
  factor s = 0 -> at_end s pre n -> ncap n - nlen n < zlen data ->
  write_loop fuel s data acc = Undef.
Proof.
  induction fuel as [|fuel IH]; intros s pre n data acc Hf (Hn & Hw & Hp & Hfull & Hok) Hd; [done|].
  cbn [write_loop]. rewrite Hn, <- Hw, list_lookup_middle by done. cbn [of_option].
  rewrite bind_Val. pose proof Hok as (H1 & H2 & H3).
  rewrite wrap_small by (unfold is_u; lia). rewrite Hp.
  rewrite (proj2 (Z.leb_gt _ _)) by lia.
  assert (zlen (ztake (ncap n - nlen n) data) = ncap n - nlen n) as Hz by (apply zlen_ztake; lia).
  destruct (fill_node n (ztake (ncap n - nlen n) data) Hok) as (mem & -> & Hok1 & _); [lia|].
  rewrite bind_Val, take_app_length, Hf.
  rewrite Hz in Hok1. replace (nlen n + (ncap n - nlen n)) with (ncap n) in Hok1 by lia.
  apply IH with (pre ++ [MkNode mem (ncap n) (ncap n)]) (new_node 0); cbn.
  - done.
  - unfold at_end. cbn. rewrite <- app_assoc. repeat split; try (cbn; lia).
    + rewrite length_app. cbn. lia.
    + apply Forall_app. split; [done|]. by constructor.
  - rewrite zlen_zdrop by lia. lia.
Qed.

(** [swap] leaves the growth step behind: after swapping with a moved-from
    buffer, a write larger than the free space never completes, whatever the
    number of iterations of its loop. *)
Theorem swap_loses_factor (s : t) (data : bytes) (fuel : nat) :
  valid s ->
  (forall n, nodes s !! wnode s = Some n -> ncap n - nlen n < zlen data) ->
  write_loop fuel (fst (swap (snd (move s)) s)) data 0 = Undef.
Proof.
  intros [_ Hok _ (pre & n & Hn & Hw & Hfull & Hp & _) _] Hd.
  assert (node_ok n) as Hokn by (rewrite Hn in Hok; apply Forall_app in Hok as [_ Hok]; by inversion Hok).
  apply write_loop_no_factor with pre n; [done|by unfold at_end|].
  apply Hd. rewrite Hn, <- Hw. by apply list_lookup_middle.
Qed.

Lemma swap_loses_factor_witness :
  write_loop 100 (fst (swap (snd (move (create 4 4))) (create 4 4))) (str "hello") 0 = Undef.
Proof.
  apply (swap_loses_factor (create 4 4) (str "hello") 100).
  - apply create_valid; lia.
  - intros n H. injection H as <-. vm_compute. reflexivity.
Defined.

End ByteBuffer.
