(* ===== verification/Buffered.v ===== *)
(** * Buffered streams

    Models [sese/io/BufferedInputStream.cpp], [BufferedOutputStream.cpp] and [BufferedStream.cpp],
    over any stream below. The caller's block of [length] bytes is part of what a read returns. *)

From S2P Require Import Prelude Streams InputBufferWrapper OutputBufferWrapper.

(*@ sese/io/BufferedStream.h 90-99 BufferedStream *)
(** The state that the three classes share. *)
Record t (S : Type) := MkBuffered { source : S; buffer : bytes; pos : Z; len : Z; cap : Z }.
Arguments MkBuffered {S} source buffer pos len cap.
Arguments source {S} t.
Arguments buffer {S} t.
Arguments pos {S} t.
Arguments len {S} t.
Arguments cap {S} t.

(*@ sese/io/BufferedStream.cpp 20-26 BufferedStream::BufferedStream *)
Definition create {S} (source : S) (buffer_size : Z) : t S := MkBuffered source (malloc buffer_size) 0 0 buffer_size.

Section Input.
Context {S : Type} `{InputStream S}.

(*@ sese/io/BufferedInputStream.cpp 31-39 BufferedInputStream::preRead *)
Definition preRead (b : t S) : outcome (Z * t S) :=
  '(read, data, source) ← stream_read (source b) (cap b);
  let read := if read <? 0 then 0 else read in
  buffer ← memcpy (buffer b) 0 data;
  Val (read, MkBuffered source buffer 0 read (cap b)).

(*@ sese/io/BufferedInputStream.cpp 80-85 BufferedInputStream::read *)
(** Blocks of 1024 bytes from the source; the count is unsigned. *)
Fixpoint read_loop (fuel : nat) (source : S) (buf : bytes) (length total : Z) : outcome (Z * bytes * S) :=
  match fuel with
  | O => Undef
  | Datatypes.S fuel =>
      '(read, data, source) ← stream_read source (if u64 (length - total) >=? 1024 then 1024 else u64 (length - total));
      buf ← memcpy buf total data;
      let read := u64 read in
      let total := u64 (total + read) in
      if read <=? 0 then Val (total, buf, source) else if total =? length then Val (total, buf, source) else read_loop fuel source buf length total
  end.

(*@ sese/io/BufferedInputStream.cpp 41-88 BufferedInputStream::read *)
Definition read (fuel : nat) (length : Z) (b : t S) : outcome (Z * bytes * t S) :=
  let buf := malloc length in
  if length <=? cap b then
    if u64 (len b - pos b) >=? length then
      data ← memread (buffer b) (pos b) length;
      Val (length, data, MkBuffered (source b) (buffer b) (pos b + length) (len b) (cap b))
    else
      let total := u64 (len b - pos b) in
      data ← memread (buffer b) (pos b) total;
      buf ← memcpy buf 0 data;
      let b := MkBuffered (source b) (buffer b) (pos b + total) (len b) (cap b) in
      '(read, b) ← preRead b;
      if negb (0 =? read) then
        if u64 (len b - pos b) >=? length - total then
          data ← memread (buffer b) 0 (length - total);
          buf ← memcpy buf total data;
          Val (length, buf, MkBuffered (source b) (buffer b) (length - total) (len b) (cap b))
        else
          data ← memread (buffer b) 0 (u64 (len b - pos b));
          buf ← memcpy buf total data;
          (* the position is moved before what is left is counted *)
          let pos := u64 (len b - pos b) in
          let total := u64 (total + (len b - pos)) in
          Val (total, buf, MkBuffered (source b) (buffer b) pos (len b) (cap b))
      else Val (total, buf, b)
  else
    let total := u64 (len b - pos b) in
    (* from the start of the buffer, not from the position *)
    data ← memread (buffer b) 0 total;
    buf ← memcpy buf 0 data;
    '(total, buf, source) ← read_loop fuel (source b) buf length total;
    Val (total, buf, MkBuffered source (buffer b) 0 0 (cap b)).
End Input.

Section Output.
Context {S : Type} `{OutputStream S}.

(*@ sese/io/BufferedOutputStream.cpp 79-85 BufferedOutputStream::flush *)
Definition flush (b : t S) : outcome (Z * t S) :=
  data ← memread (buffer b) (pos b) (u64 (len b - pos b));
  '(wrote, source) ← stream_write (source b) data;
  Val (wrote, MkBuffered source (buffer b) 0 0 (cap b)).

(*@ sese/io/BufferedOutputStream.cpp 66-71 BufferedOutputStream::write *)
Fixpoint write_loop (fuel : nat) (source : S) (buf : bytes) (cap wrote : Z) : outcome (Z * S) :=
  match fuel with
  | O => Undef
  | Datatypes.S fuel =>
      data ← memread buf wrote (if u64 (zlen buf - wrote) >=? cap then cap else u64 (zlen buf - wrote));
      '(rt, source) ← stream_write source data;
      if rt <=? 0 then Val (-1, source)
      else
        let wrote := wrote + rt in
        if wrote =? zlen buf then Val (wrote, source) else write_loop fuel source buf cap wrote
  end.

(*@ sese/io/BufferedOutputStream.cpp 57-63 BufferedOutputStream::write *)
(** What is in the buffer is sent first. *)
Definition flush_rest (b : t S) : outcome (bool * t S) :=
  if negb (len b =? pos b) then
    let expect := u64 (len b - pos b) in
    '(wrote, b) ← flush b; Val (expect =? wrote, b)
  else Val (true, b).

(*@ sese/io/BufferedOutputStream.cpp 31-77 BufferedOutputStream::write *)
Definition write (fuel : nat) (buf : bytes) (b : t S) : outcome (Z * t S) :=
  let length := zlen buf in
  if length <=? cap b then
    if u64 (cap b - len b) >=? length then
      buffer ← memcpy (buffer b) (len b) buf;
      Val (length, MkBuffered (source b) buffer (pos b) (len b + length) (cap b))
    else
      let expect := u64 (len b - pos b) in
      '(wrote, b) ← flush b;
      if expect =? wrote then
        buffer ← memcpy (buffer b) 0 buf;
        Val (length, MkBuffered (source b) buffer (pos b) length (cap b))
      else Val (-1, b)
  else
    '(ok, b) ← flush_rest b;
    if negb ok then Val (-1, b)
    else '(wrote, source) ← write_loop fuel (source b) buf (cap b) 0; Val (wrote, MkBuffered source (buffer b) (pos b) (len b) (cap b)).
End Output.

(** [BufferedStream] has both over one buffer; the bodies are the same. *)
Module BufferedStream.
Section BufferedStream.
Context {S : Type} `{InputStream S} `{OutputStream S}.
(*@ sese/io/BufferedStream.cpp 42-46 BufferedStream::clear *)
Definition clear (b : t S) : t S := MkBuffered (source b) (buffer b) 0 0 (cap b).
(*@ sese/io/BufferedStream.cpp 48-97 BufferedStream::read *)
Definition stream_read := @read S _.
(*@ sese/io/BufferedStream.cpp 99-146 BufferedStream::write *)
Definition stream_write := @write S _.
(*@ sese/io/BufferedStream.cpp 148-154 BufferedStream::flush *)
Definition stream_flush := @flush S _.
(*@ sese/io/BufferedStream.cpp 156-160 BufferedStream::reset *)
Definition reset (new_source : S) (b : t S) : t S := MkBuffered new_source (buffer b) 0 0 (cap b).
End BufferedStream.
End BufferedStream.

(** ** Reading *)

Lemma malloc_split n k : 0 <= k <= n -> malloc n = malloc k ++ malloc (n - k).
Proof. intros H. unfold malloc. rewrite <- repeat_app. f_equal. lia. Qed.

(** Filling the caller's block after what is there. *)
Lemma fill_block p data n : zlen p + zlen data <= n -> memcpy (p ++ malloc (n - zlen p)) (zlen p) data = Val ((p ++ data) ++ malloc (n - zlen (p ++ data))).
Proof.
  intros H. pose proof (zlen_nonneg p). pose proof (zlen_nonneg data). rewrite memcpy_at by (rewrite ?zlen_malloc; lia). rewrite (malloc_split (n - zlen p) (zlen data)) by lia.
  rewrite zdrop_app_ge, zlen_malloc, Z.sub_diag, zdrop_0 by (rewrite ?zlen_malloc; lia). rewrite zlen_app. do 3 f_equal. lia.
Qed.

Section Reading.
Context {S : Type} `{MemInput S}.

Definition window (b : t S) : bytes := slice (pos b) (len b - pos b) (buffer b).
Definition content (b : t S) : bytes := window b ++ in_content (source b).
Definition valid (b : t S) : Prop :=
  in_valid (source b) /\ 0 <= pos b <= len b /\ len b <= cap b /\ zlen (buffer b) = cap b /\ cap b < 2 ^ 62.

Lemma buffered_create_valid s n : in_valid s -> 0 <= n < 2 ^ 62 -> valid (create s n) /\ content (create s n) = in_content s.
Proof. intros Hv Hn. split; [|done]. unfold valid, create. cbn. rewrite zlen_malloc by lia. repeat split; try lia. done. Qed.

Lemma window_zlen b : valid b -> zlen (window b) = len b - pos b.
Proof. intros (_ & H1 & H2 & H3 & _). apply zlen_slice; lia. Qed.

Lemma preRead_spec b : valid b -> exists s buf', preRead b = Val (Z.min (cap b) (zlen (in_content (source b))), MkBuffered s buf' 0 (Z.min (cap b) (zlen (in_content (source b)))) (cap b)) /\
  valid (MkBuffered s buf' 0 (Z.min (cap b) (zlen (in_content (source b)))) (cap b)) /\ content (MkBuffered s buf' 0 (Z.min (cap b) (zlen (in_content (source b)))) (cap b)) = in_content (source b) /\
  in_content s = zdrop (cap b) (in_content (source b)).
Proof.
  intros (Hv & Hp & Hl & Hb & Hc). set (c := in_content (source b)) in *. pose proof (zlen_nonneg c). destruct (read_law (source b) (cap b) Hv ltac:(lia)) as (s & E & Hv' & Hc').
  fold c in E, Hc'. set (r := Z.min (cap b) (zlen c)) in *. assert (zlen (ztake (cap b) c) = r) as Hr by (apply zlen_ztake_min; lia).
  unfold preRead. rewrite E, bind_Val. rewrite (proj2 (Z.ltb_ge r 0)) by lia. rewrite memcpy_Val, ztake_0 by lia. rewrite bind_Val. cbn [app].
  eexists s, _. split; [done|]. set (buf' := ztake (cap b) c ++ _). assert (zlen buf' = cap b) as Hb' by (subst buf'; rewrite zlen_app, zlen_zdrop; lia).
  split; [|split; [|done]].
  - split; [done|]. cbn. lia.
  - unfold content, window. cbn. rewrite Hc', Z.sub_0_r. unfold slice. rewrite zdrop_0 by lia. subst buf'. rewrite ztake_app_le, ztake_ge by lia. apply ztake_zdrop.
Qed.

(** Advancing in the buffer. *)
Lemma window_advance s buf p l c n : 0 <= p -> 0 <= n -> p + n <= l -> l <= zlen buf ->
  slice p n buf = ztake n (slice p (l - p) buf) /\ content (MkBuffered s buf (p + n) l c) = zdrop n (content (MkBuffered s buf p l c)).
Proof.
  intros Hp Hn Hl Hb. split.
  - unfold slice, ztake. rewrite take_take. f_equal. lia.
  - unfold content, window. cbn [source buffer pos len cap]. rewrite zdrop_app_le by (rewrite zlen_slice; lia). f_equal. unfold slice, ztake, zdrop.
    rewrite skipn_firstn_comm, drop_drop. f_equal; [lia|]. f_equal. lia.
Qed.

Lemma buffered_read_loop_spec fuel : forall s p n, in_valid s -> zlen p < n -> n < 2 ^ 62 -> (Z.to_nat (n - zlen p) < fuel)%nat ->
  exists s', read_loop fuel s (p ++ malloc (n - zlen p)) n (zlen p) =
      Val (Z.min n (zlen (p ++ in_content s)), ztake n (p ++ in_content s) ++ malloc (n - zlen (ztake n (p ++ in_content s))), s') /\
    in_valid s' /\ in_content s' = zdrop n (p ++ in_content s).
Proof.
  induction fuel as [|fuel IH]; intros s p n Hv Hp Hn Hf; [lia|]. cbn [read_loop]. pose proof (zlen_nonneg p). rewrite wrap_small by (unfold is_u; lia).
  set (k := if n - zlen p >=? 1024 then 1024 else n - zlen p). assert (0 < k <= n - zlen p) as Hk by (subst k; destruct (_ >=? _) eqn:E; lia).
  destruct (read_law s k Hv ltac:(lia)) as (s' & E & Hv' & Hc'). rewrite E, bind_Val. clear E. set (c := in_content s) in *. pose proof (zlen_nonneg c).
  assert (zlen (ztake k c) = Z.min k (zlen c)) as Hz by (apply zlen_ztake_min; lia). rewrite fill_block by lia. rewrite bind_Val. rewrite !wrap_small by (unfold is_u; rewrite ?wrap_small by (unfold is_u; lia); lia).
  destruct (Z.min k (zlen c) <=? 0) eqn:E0; zbool.
  - assert (zlen c = 0) as Hc0 by lia. assert (c = []) as Ec by (destruct c; [done|rewrite zlen_cons in Hc0; pose proof (zlen_nonneg c); lia]).
    rewrite Ec in *. rewrite (ztake_ge k []), !app_nil_r by (rewrite zlen_nil; lia). rewrite zlen_nil, ztake_ge by lia. exists s'. split; [|split; [done|]].
    + do 3 f_equal. lia.
    + by rewrite Hc', !zdrop_ge by (rewrite ?zlen_nil; lia).
  - destruct (zlen p + Z.min k (zlen c) =? n) eqn:E1; zbool.
    + assert (k = n - zlen p) as Ek by lia. assert (ztake n (p ++ c) = p ++ ztake k c) as Et by (rewrite ztake_app_ge by lia; by rewrite Ek). exists s'. rewrite Et. split; [|split; [done|]].
      * do 3 f_equal. rewrite zlen_app. lia.
      * rewrite Hc', zdrop_app_ge by lia. by rewrite Ek.
    + destruct (IH s' (p ++ ztake k c) n Hv') as (s2 & E2 & Hv2 & Hc2); [rewrite zlen_app; lia|done|rewrite zlen_app; lia|].
      assert (zlen (p ++ ztake k c) = zlen p + Z.min k (zlen c)) as Hz' by (rewrite zlen_app; lia). rewrite Hz' in *.
      assert ((p ++ ztake k c) ++ in_content s' = p ++ c) as Ep by (rewrite Hc', <- app_assoc; by rewrite ztake_zdrop). rewrite Ep in E2, Hc2.
      exists s2. split; [|done]. exact E2.
Qed.

Lemma window_size b : valid b -> u64 (len b - pos b) = len b - pos b.
Proof. intros (_ & Hp & Hl & Hb & Hc). apply wrap_small. unfold is_u. lia. Qed.

Lemma buffered_zlen b : valid b -> zlen (content b) = len b - pos b + zlen (in_content (source b)).
Proof. intros Hv. unfold content. by rewrite zlen_app, window_zlen. Qed.

(** What is asked for is in the buffer. *)
Lemma read_short fuel n b : valid b -> 0 <= n <= cap b -> n <= len b - pos b ->
  exists b', read fuel n b = Val (n, ztake n (content b), b') /\ valid b' /\ cap b' = cap b /\ content b' = zdrop n (content b).
Proof.
  intros Hv Hn Hw. pose proof (window_size b Hv) as Hu. pose proof (window_zlen b Hv) as Hz. pose proof Hv as (Hs & Hp & Hl & Hb & Hc). unfold read.
  rewrite Hu, (proj2 (Z.leb_le n (cap b))), (proj2 (Z.geb_le _ n)) by lia. destruct b as [s buf p l c]. cbn [source buffer pos len cap] in *.
  destruct (window_advance s buf p l c n) as [E1 E2]; [lia..|]. rewrite memread_Val, bind_Val by lia. exists (MkBuffered s buf (p + n) l c).
  split; [|split; [repeat split; cbn; done || lia|split; [done|exact E2]]]. rewrite E1. unfold content, window in *. cbn [source buffer pos len] in *. by rewrite ztake_app_le by lia.
Qed.

(** The buffer after a refill: what it holds is the start of what the source held. *)
Lemma refilled s buf r c k (b := MkBuffered s buf 0 r c) (x : bytes) : valid b -> content b = x -> 0 <= k <= r ->
  slice 0 k buf = ztake k x /\ content (MkBuffered s buf k r c) = zdrop k x.
Proof.
  intros Hv <- Hk. pose proof (window_zlen b Hv) as Hz. destruct Hv as (Hs & Hp & Hl & Hb & Hc). subst b. cbn [source buffer pos len cap] in *.
  destruct (window_advance s buf 0 r c k) as [E1 E2]; [lia..|]. split; [|exact E2]. unfold content, window in *. cbn [source buffer pos len] in *. by rewrite E1, ztake_app_le by lia.
Qed.

(** The buffer is filled again: if source and buffer have less than is asked for, all that was left of the source is consumed without being counted. *)
Lemma read_refill fuel n b : valid b -> len b - pos b < n <= cap b ->
  exists data b', valid b' /\ cap b' = cap b /\
    if bool_decide (n <= zlen (content b)) then read fuel n b = Val (n, ztake n (content b), b') /\ content b' = zdrop n (content b)
    else read fuel n b = Val (zlen (window b), data, b') /\ ztake (zlen (window b)) data = window b /\ content b' = [].
Proof.
  intros Hv Hn. pose proof (buffered_zlen b Hv) as Hcz. pose proof (window_zlen b Hv) as Hw. pose proof (window_size b Hv) as Hu. pose proof Hv as (Hs & Hp & Hl & Hb & Hc).
  unfold read. set (c := in_content (source b)) in *. pose proof (zlen_nonneg c). rewrite Hu, (proj2 (Z.leb_le n (cap b))) by lia.
  destruct (len b - pos b >=? n) eqn:E; [apply Z.geb_le in E; lia|clear E]. rewrite memread_Val by lia. rewrite bind_Val. fold (window b).
  pose proof (fill_block [] (window b) n ltac:(rewrite zlen_nil; lia)) as E. cbn [app] in E. rewrite zlen_nil, Z.sub_0_r in E. rewrite E, bind_Val. clear E.
  set (b1 := MkBuffered (source b) (buffer b) (pos b + (len b - pos b)) (len b) (cap b)). assert (valid b1) as Hv1 by (repeat split; cbn; done || lia).
  destruct (preRead_spec b1 Hv1) as (s & buf' & E & Hv2 & Hc2 & Hs2). change (source b1) with (source b) in *. change (cap b1) with (cap b) in *. fold c in E, Hv2, Hc2, Hs2.
  set (r := Z.min (cap b) (zlen c)) in *. rewrite E, bind_Val. clear E. cbn [source buffer pos len cap]. rewrite Z.sub_0_r. pose proof Hv2 as (Hv2s & Hp2 & Hl2 & Hb2 & _). cbn [source buffer pos len cap] in *.
  rewrite (wrap_small 64 r) by (unfold is_u; lia). rewrite <- Hw.
  destruct (0 =? r) eqn:E0; zbool; cbn [negb].
  { assert (c = []) as Ec by (assert (zlen c = 0) as Hz by lia; destruct c; [done|rewrite zlen_cons in Hz; pose proof (zlen_nonneg c); lia]).
    rewrite bool_decide_eq_false_2 by (rewrite Hcz, Ec, zlen_nil; lia). eexists _, (MkBuffered s buf' 0 r (cap b)). split; [done|]. split; [done|]. split; [done|].
    split; [rewrite ztake_app_le, ztake_ge by lia; done|]. by rewrite Hc2. }
  destruct (r >=? n - zlen (window b)) eqn:E1; [apply Z.geb_le in E1|assert (r < n - zlen (window b)) by (rewrite Z.geb_leb in E1; zbool; lia); clear E1].
  - destruct (refilled s buf' r (cap b) (n - zlen (window b)) c Hv2 Hc2 ltac:(lia)) as [Ep Ec']. rewrite bool_decide_eq_true_2 by lia. rewrite memread_Val, bind_Val, Ep by lia.
    rewrite fill_block by (rewrite zlen_ztake; lia). rewrite bind_Val. exists [], (MkBuffered s buf' (n - zlen (window b)) r (cap b)).
    split; [repeat split; cbn; done || lia|]. split; [done|]. unfold content at 1 3. fold c. rewrite ztake_app_ge, zdrop_app_ge by lia. split; [|done].
    rewrite zlen_app, zlen_ztake by lia. replace (n - (zlen (window b) + (n - zlen (window b)))) with 0 by lia. change (malloc 0) with (@nil Z). by rewrite app_nil_r.
  - assert (r = zlen c) as Er by lia. rewrite bool_decide_eq_false_2 by lia. rewrite memread_Val, bind_Val by lia. rewrite fill_block by (rewrite zlen_slice; lia). rewrite bind_Val.
    rewrite Z.sub_diag, Z.add_0_r, wrap_small by (unfold is_u; lia). eexists _, (MkBuffered s buf' r r (cap b)). split; [repeat split; cbn; done || lia|]. split; [done|]. split; [done|]. split.
    + rewrite <- app_assoc, ztake_app_le, ztake_ge by lia. done.
    + destruct (refilled s buf' r (cap b) r c Hv2 Hc2 ltac:(lia)) as [_ ->]. apply zdrop_ge. lia.
Qed.

(** Beyond the capacity: the front of the buffer, as long as the window, and then the source. *)
Lemma read_long fuel n b : valid b -> cap b < n < 2 ^ 62 -> (Z.to_nat n < fuel)%nat -> let all := slice 0 (len b - pos b) (buffer b) ++ in_content (source b) in
  exists data b', read fuel n b = Val (Z.min n (zlen all), ztake n all ++ data, b') /\ valid b' /\ content b' = zdrop n all.
Proof.
  intros Hv Hn Hf all. pose proof (window_size b Hv) as Hu. pose proof Hv as (Hs & Hp & Hl & Hb & Hc). unfold read. rewrite Hu, (proj2 (Z.leb_gt n (cap b))) by lia.
  set (front := slice 0 (len b - pos b) (buffer b)) in *. assert (zlen front = len b - pos b) as Hfr by (apply zlen_slice; lia). rewrite memread_Val, bind_Val by lia. fold front.
  pose proof (fill_block [] front n ltac:(rewrite zlen_nil; lia)) as E. cbn [app] in E. rewrite zlen_nil, Z.sub_0_r in E. rewrite E, bind_Val. clear E.
  destruct (buffered_read_loop_spec fuel (source b) front n Hs) as (s' & E & Hv' & Hc'); [lia|lia|lia|]. rewrite <- Hfr. fold all in E, Hc'. rewrite E, bind_Val.
  eexists _, (MkBuffered s' (buffer b) 0 0 (cap b)). split; [done|]. split; [repeat split; cbn; done || lia|]. unfold content, window. cbn [source buffer pos len]. unfold slice. by rewrite ztake_0, Hc' by lia.
Qed.
End Reading.

(** ** Writing *)

Section Writing.
Context {S : Type} `{MemOutput S}.

Definition pending (b : t S) : bytes := ztake (len b) (buffer b).
Definition valid_out (b : t S) : Prop := out_valid (source b) /\ pos b = 0 /\ 0 <= len b <= cap b /\ zlen (buffer b) = cap b /\ 0 < cap b < 2 ^ 62.
(** Everything that was written, sent or not. *)
Definition written (b : t S) : bytes := out_content (source b) ++ pending b.

Lemma pending_zlen b : valid_out b -> zlen (pending b) = len b.
Proof. intros (_ & _ & Hl & Hb & _). apply zlen_ztake. lia. Qed.

Lemma flush_spec b n : valid_out b -> 0 <= n -> out_room (source b) (len b + n) ->
  exists s, flush b = Val (len b, MkBuffered s (buffer b) 0 0 (cap b)) /\ out_valid s /\ out_content s = written b /\ out_room s n.
Proof.
  intros Hv Hn Hr. pose proof (pending_zlen b Hv) as Hz. pose proof Hv as (Hs & Hp & Hl & Hb & Hc). unfold flush. rewrite Hp, Z.sub_0_r, wrap_small by (unfold is_u; lia).
  rewrite memread_Val, bind_Val by lia. unfold slice. rewrite (zdrop_0 0) by lia. fold (pending b).
  destruct (write_step (source b) (pending b) n Hs Hn ltac:(by rewrite Hz)) as (s & E & Hv' & Hc' & Hr'). rewrite E, bind_Val, Hz. by exists s.
Qed.

Lemma flush_rest_spec b n : valid_out b -> 0 <= n -> out_room (source b) (len b + n) ->
  exists b1, flush_rest b = Val (true, b1) /\ valid_out b1 /\ len b1 = 0 /\ cap b1 = cap b /\ out_content (source b1) = written b /\ out_room (source b1) n.
Proof.
  intros Hv Hn Hr. pose proof Hv as (Hs & Hp & Hl & Hb & Hc). unfold flush_rest. rewrite Hp. destruct (len b =? 0) eqn:E0; zbool; cbn [negb].
  - exists b. split; [done|]. split; [done|]. split; [done|]. split; [done|]. split; [unfold written, pending; by rewrite E0, ztake_0, app_nil_r by lia|]. by rewrite E0 in Hr.
  - cbv zeta. rewrite Z.sub_0_r, wrap_small by (unfold is_u; lia). destruct (flush_spec b n Hv Hn Hr) as (s & -> & Hvs & Hcs & Hrs).
    rewrite bind_Val, Z.eqb_refl. eexists. split; [done|]. split; [split; [done|]; split; [done|]; cbn; lia|]. done.
Qed.

Lemma buffered_write_loop_spec fuel : forall s p q c n, out_valid s -> q <> [] -> 0 < c < 2 ^ 62 -> zlen (p ++ q) < 2 ^ 62 -> 0 <= n -> out_room s (zlen q + n) -> (length q < fuel)%nat ->
  exists s', write_loop fuel s (p ++ q) c (zlen p) = Val (zlen (p ++ q), s') /\ out_valid s' /\ out_content s' = out_content s ++ q /\ out_room s' n.
Proof.
  induction fuel as [|fuel IH]; intros s p q c n Hv Hq Hc Hz Hn Hr Hf; [lia|]. cbn [write_loop]. rewrite zlen_app in *. pose proof (zlen_nonneg p).
  assert (0 < zlen q) as Hq0 by (destruct q; [done|]; rewrite zlen_cons; pose proof (zlen_nonneg q); lia). rewrite !wrap_small by (unfold is_u; lia).
  replace (zlen p + zlen q - zlen p) with (zlen q) by lia. set (k := if zlen q >=? c then c else zlen q). assert (0 < k <= zlen q) as Hk by (subst k; destruct (_ >=? _) eqn:E; lia).
  assert (memread (p ++ q) (zlen p) k = Val (ztake k q)) as ->.
  { rewrite memread_Val by (rewrite ?zlen_app; lia). unfold slice. by rewrite zdrop_app_ge, Z.sub_diag, zdrop_0 by lia. }
  rewrite bind_Val. assert (zlen (ztake k q) = k) as Hzk by (apply zlen_ztake; lia). assert (zlen (zdrop k q) = zlen q - k) as Hzd by (apply zlen_zdrop; lia).
  destruct (write_step s (ztake k q) (zlen (zdrop k q) + n) Hv) as (s1 & E & Hv1 & Hc1 & Hr1); [lia|by replace (zlen (ztake k q) + (zlen (zdrop k q) + n)) with (zlen q + n) by lia|].
  rewrite E, bind_Val, Hzk, (proj2 (Z.leb_gt k 0)) by lia. destruct (zlen p + k =? zlen p + zlen q) eqn:E1; zbool.
  - exists s1. assert (ztake k q = q) as Eq by (apply ztake_ge; lia). rewrite Eq in *. split; [by rewrite E1|]. split; [done|]. split; [done|].
    replace (zlen (zdrop k q) + n) with n in Hr1 by lia. done.
  - destruct (IH s1 (p ++ ztake k q) (zdrop k q) c n Hv1) as (s2 & E2 & Hv2 & Hc2 & Hr2); try done.
    + intros En. rewrite En, zlen_nil in Hzd. lia.
    + rewrite !zlen_app. lia.
    + unfold zlen in *. lia.
    + rewrite zlen_app, Hzk, <- app_assoc, ztake_zdrop, zlen_app in E2. exists s2. split; [done|]. split; [done|]. split; [|done]. rewrite Hc2, Hc1, <- app_assoc. by rewrite ztake_zdrop.
Qed.

Lemma buffered_write_spec fuel data b n : valid_out b -> 0 <= n -> out_room (source b) (len b + zlen data + n) -> zlen data < 2 ^ 62 -> (length data < fuel)%nat ->
  exists b', write fuel data b = Val (zlen data, b') /\ valid_out b' /\ written b' = written b ++ data /\ out_room (source b') (len b' + n).
Proof.
  intros Hv Hn Hr Hd Hf. pose proof (zlen_nonneg data). pose proof (pending_zlen b Hv) as Hz. pose proof Hv as (Hs & Hp & Hl & Hb & Hc). unfold write.
  destruct (zlen data <=? cap b) eqn:E1; zbool.
  - rewrite wrap_small by (unfold is_u; lia). destruct (cap b - len b >=? zlen data) eqn:E2; [apply Z.geb_le in E2|rewrite Z.geb_leb in E2; zbool].
    + rewrite memcpy_Val, bind_Val by lia. fold (pending b). unfold pending in Hz. eexists. split; [done|]. unfold valid_out, written, pending. cbn [source buffer pos len cap].
      split; [|split].
      * split; [done|]. split; [done|]. split; [lia|]. split; [|done]. rewrite !zlen_app, Hz, zlen_zdrop by lia. lia.
      * rewrite ztake_app_ge by lia. rewrite Hz, ztake_app_le, (ztake_ge _ data) by lia. by rewrite <- app_assoc.
      * done.
    + rewrite Hp, Z.sub_0_r, wrap_small by (unfold is_u; lia). destruct (flush_spec b (zlen data + n) Hv ltac:(lia)) as (s & -> & Hvs & Hcs & Hrs); [by rewrite Z.add_assoc|].
      rewrite bind_Val, Z.eqb_refl. cbn [buffer pos len cap source]. rewrite memcpy_Val, bind_Val, ztake_0 by lia. eexists. split; [done|]. unfold valid_out, written at 1, pending at 1. cbn [source buffer pos len cap app].
      split; [|split].
      * split; [done|]. split; [done|]. split; [lia|]. split; [|done]. rewrite zlen_app, zlen_zdrop by lia. lia.
      * rewrite ztake_app_le, ztake_ge, Hcs by lia. done.
      * done.
  - destruct (flush_rest_spec b (zlen data + n) Hv ltac:(lia)) as (b1 & -> & Hv1 & Hl1 & Hcap & Hc1 & Hr1); [by rewrite Z.add_assoc|].
    rewrite bind_Val. cbn [negb]. destruct (buffered_write_loop_spec fuel (source b1) [] data (cap b1) n) as (s & E & Hvs & Hcs & Hrs); cbn [app]; try done; try lia.
    + apply Hv1.
    + intros ->. rewrite zlen_nil in *. lia.
    + cbn [app] in E. change (zlen (@nil Z)) with 0 in E. rewrite E, bind_Val. destruct Hv1 as (Hs1 & Hp1 & Hl1' & Hb1 & Hcb1).
      eexists. split; [done|]. unfold valid_out, written at 1, pending at 1. cbn [source buffer pos len cap]. rewrite Hl1, ztake_0, app_nil_r, Hcs, Hc1 by lia.
      split; [repeat split; done || lia|]. split; done.
Qed.
End Writing.

(** ** Sequences of operations *)

Fixpoint reads {S} `{InputStream S} (fuel : nat) (ns : list Z) (b : t S) : outcome (list bytes * t S) :=
  match ns with [] => Val ([], b) | n :: ns => '(k, data, b) ← read fuel n b; '(rest, b) ← reads fuel ns b; Val (ztake k data :: rest, b) end.
(** The counts that are returned. *)
Fixpoint writes {S} `{OutputStream S} (fuel : nat) (pieces : list bytes) (b : t S) : outcome (list Z * t S) :=
  match pieces with [] => Val ([], b) | p :: pieces => '(k, b) ← write fuel p b; '(rest, b) ← writes fuel pieces b; Val (k :: rest, b) end.

(** A sequence cut into pieces of given lengths. *)
Fixpoint cut (ns : list Z) (l : bytes) : list bytes := match ns with [] => [] | n :: ns => ztake n l :: cut ns (zdrop n l) end.
Definition total (ns : list Z) : Z := foldr Z.add 0 ns.

Lemma read_within {S} `{MemInput S} fuel n (b : t S) : valid b -> 0 <= n <= cap b -> n <= zlen (content b) ->
  exists b', read fuel n b = Val (n, ztake n (content b), b') /\ valid b' /\ cap b' = cap b /\ content b' = zdrop n (content b).
Proof.
  intros Hv Hn Hz. destruct (decide (n <= len b - pos b)); [by apply read_short|].
  destruct (read_refill fuel n b Hv ltac:(lia)) as (data & b' & Hv' & Hc & Hr). rewrite bool_decide_eq_true_2 in Hr by done. exists b'. tauto.
Qed.

Lemma reads_within {S} `{MemInput S} fuel ns : forall (b : t S), valid b -> Forall (fun n => 0 <= n <= cap b) ns -> total ns <= zlen (content b) ->
  exists b', reads fuel ns b = Val (cut ns (content b), b') /\ valid b' /\ cap b' = cap b /\ content b' = zdrop (total ns) (content b).
Proof.
  induction ns as [|n ns IH]; intros b Hv Hns Ht; cbn [reads cut total foldr] in *; [exists b; by rewrite zdrop_0|]. fold (total ns) in *.
  apply Forall_cons in Hns as [Hn Hns]. assert (0 <= total ns) as Hpos.
  { clear -Hns. induction Hns as [|m ns Hm _ IH]; cbn; [done|]. fold (total ns). lia. }
  destruct (read_within fuel n b Hv Hn ltac:(lia)) as (b1 & -> & Hv1 & Hcap & Hc1). rewrite bind_Val.
  destruct (IH b1 Hv1) as (b2 & -> & Hv2 & Hcap2 & Hc2); [by rewrite Hcap|rewrite Hc1, zlen_zdrop by lia; lia|]. rewrite bind_Val. exists b2. split; [|split; [done|]].
  - rewrite ztake_ge by (rewrite zlen_ztake; lia). by rewrite Hc1.
  - split; [congruence|]. rewrite Hc2, Hc1. apply zdrop_zdrop; lia.
Qed.

Lemma writes_spec {S} `{MemOutput S} fuel pieces : forall (b : t S) n, valid_out b -> 0 <= n -> out_room (source b) (len b + zlen (concat pieces) + n) ->
  zlen (concat pieces) < 2 ^ 62 -> (length (concat pieces) < fuel)%nat ->
  exists b', writes fuel pieces b = Val (map zlen pieces, b') /\ valid_out b' /\ written b' = written b ++ concat pieces /\ out_room (source b') (len b' + n).
Proof.
  induction pieces as [|p pieces IH]; intros b n Hv Hn Hr Hz Hf; cbn [writes concat map] in *; [exists b; rewrite app_nil_r, zlen_nil, Z.add_0_r in *; done|].
  rewrite zlen_app, length_app in *. pose proof (zlen_nonneg (concat pieces)). pose proof (zlen_nonneg p).
  destruct (buffered_write_spec fuel p b (zlen (concat pieces) + n) Hv) as (b1 & -> & Hv1 & Hw1 & Hr1); [lia|by rewrite !Z.add_assoc in *|lia|lia|]. rewrite bind_Val.
  destruct (IH b1 n Hv1 Hn) as (b2 & -> & Hv2 & Hw2 & Hr2); [by rewrite Z.add_assoc in Hr1|lia|lia|]. rewrite bind_Val. exists b2. split; [done|]. split; [done|].
  split; [|done]. by rewrite Hw2, Hw1, <- app_assoc.
Qed.

(** C7: Buffering does not change what goes through a stream. Bytes written in pieces of any lengths, shorter or longer than
    the buffer, arrive below in order once the stream is flushed, each call returning the length of its piece; and reads of at most
    the buffer's size deliver the bytes of the stream below in order, as long as there are as many as are asked for. *)
Theorem buffered_transfer {Dst Src} `{MemOutput Dst} `{MemInput Src} fuel (sink : Dst) (pieces : list bytes) cap_out (src : Src) ns cap_in :
  out_valid sink -> out_room sink (zlen (concat pieces)) -> zlen (concat pieces) < 2 ^ 62 -> 0 < cap_out < 2 ^ 62 -> (length (concat pieces) < fuel)%nat ->
  in_valid src -> 0 <= cap_in < 2 ^ 62 -> Forall (fun n => 0 <= n <= cap_in) ns -> total ns <= zlen (in_content src) ->
  (exists b b', writes fuel pieces (create sink cap_out) = Val (map zlen pieces, b) /\ flush b = Val (len b, b') /\ out_content (source b') = out_content sink ++ concat pieces) /\
  (exists b, reads fuel ns (create src cap_in) = Val (cut ns (in_content src), b)).
Proof.
  intros Hv Hr Hz Hc Hf Hvi Hci Hns Ht. split.
  - assert (valid_out (create sink cap_out)) as Hv0 by (split; [done|]; split; [done|]; cbn; rewrite zlen_malloc by lia; lia).
    destruct (writes_spec fuel pieces (create sink cap_out) 0 Hv0) as (b & E & Hvb & Hw & Hrb); [done|cbn [len create source]; by rewrite Z.add_0_l, Z.add_0_r|done|done|].
    destruct (flush_spec b 0 Hvb ltac:(done) Hrb) as (s & E2 & _ & Hs & _). eexists b, _. split; [exact E|]. split; [exact E2|]. cbn [source]. rewrite Hs, Hw.
    unfold written at 1, pending. cbn [create source len buffer]. by rewrite ztake_0, app_nil_r.
  - destruct (buffered_create_valid src cap_in Hvi Hci) as [Hvc Hcc]. destruct (reads_within fuel ns (create src cap_in) Hvc) as (b & E & _); [done|by rewrite Hcc|]. rewrite Hcc in E. by exists b.
Qed.
Lemma buffered_transfer_witness :
  (exists b b', writes 100 [str "ab"; str "cdefghij"; str "k"] (create (OutputBufferWrapper.fresh 16) 4) = Val ([2; 8; 1], b) /\ flush b = Val (len b, b') /\
    out_content (source b') = str "abcdefghijk") /\
  (exists b, reads 100 [3; 4; 0; 2] (create (InputBufferWrapper.of_bytes (str "0123456789")) 4) = Val ([str "012"; str "3456"; []; str "78"], b)).
Proof.
  destruct (buffered_transfer 100 (OutputBufferWrapper.fresh 16) [str "ab"; str "cdefghij"; str "k"] 4 (InputBufferWrapper.of_bytes (str "0123456789")) [3; 4; 0; 2] 4) as [H1 H2].
  - apply OutputBufferWrapper.fresh_valid. lia.
  - vm_compute. discriminate.
  - vm_compute. reflexivity.
  - lia.
  - apply Nat.ltb_lt. vm_compute. reflexivity.
  - apply InputBufferWrapper.of_bytes_valid. vm_compute. reflexivity.
  - lia.
  - repeat constructor; lia.
  - vm_compute. discriminate.
  - split; [exact H1|exact H2].
Defined.

(** ** Edges *)

(** A read of more than there is, after a refill, loses what the refill brought: it is in the caller's block and not in the count. *)
Lemma short_read_lost {S} `{MemInput S} fuel n (b : t S) : valid b -> len b - pos b < n <= cap b -> zlen (content b) < n ->
  exists data b', read fuel n b = Val (zlen (window b), data, b') /\ content b' = [].
Proof.
  intros Hv Hn Hz. destruct (read_refill fuel n b Hv Hn) as (data & b' & _ & _ & Hr). rewrite bool_decide_eq_false_2 in Hr by lia. exists data, b'. tauto.
Qed.

Example short_read_lost_example : reads 100 [8; 8] (create (InputBufferWrapper.of_bytes (str "0123456789")) 8) ≫= (fun r => Val (fst r)) = Val [str "01234567"; []].
Proof. vm_compute. reflexivity. Qed.

(** A read beyond the capacity starts at the front of the buffer, so it repeats what was read. *)
Example long_read_repeats : reads 100 [2; 8] (create (InputBufferWrapper.of_bytes (str "0123456789")) 4) ≫= (fun r => Val (fst r)) = Val [str "01"; str "01456789"].
Proof. vm_compute. reflexivity. Qed.
