(* ===== verification/IOBuf.v ===== *)
(** * The receive buffer of a connection

    Models [sese/util/IOBuf.h] and [IOBuf.cpp]: a chain of blocks that are filled by the
    socket and then read like a stream. It keeps the promise of a [MemSource]; a read
    beyond the end leaves the iterator at [list.end()], and the next one uses it. *)

From S2P Require Import Prelude Streams.

Module IOBuf.

(*@ sese/util/IOBuf.h 33-62 IOBufNode *)
(** The block is its first [size] bytes, which the socket wrote. *)
Record Node := MkNode { buffer : bytes; nread : Z; size : Z; CAPACITY : Z }.

(*@ sese/util/IOBuf.cpp 17-19 IOBufNode::IOBufNode *)
Definition new_node (capacity : Z) : Node := MkNode (malloc capacity) 0 0 capacity.

(*@ sese/util/IOBuf.cpp 27-29 IOBufNode::getReadableSize *)
Definition node_readable (n : Node) : Z := u64 (size n - nread n).

(*@ sese/util/IOBuf.cpp 31-33 IOBufNode::getWriteableSize *)
Definition node_writeable (n : Node) : Z := u64 (CAPACITY n - size n).

(** What the socket does with a block of [capacity] bytes: it stores the data at its
    start, and its size is set. *)
Definition filled (capacity : Z) (data : bytes) : outcome Node :=
  mem ← memcpy (malloc capacity) 0 data; Val (MkNode mem 0 (zlen data) capacity).

(*@ sese/util/IOBuf.h 65-107 IOBuf *)
(** The iterator is an index, at most the number of nodes; it is singular ([None]) before
    the first [push] and after [clear]. *)
Record t := Make { nodes : list Node; cur : option nat; total : Z; readed : Z }.

Definition empty : t := Make [] None 0 0.

(*@ sese/util/IOBuf.cpp 35-50 IOBuf::push *)
Definition push (s : t) (node : Node) : t :=
  Make (nodes s ++ [node]) (match nodes s with [] => Some 0%nat | _ => cur s end) (u64 (total s + size node)) (readed s).

(*@ sese/util/IOBuf.cpp 52-65 IOBuf::clear *)
Definition clear (s : t) : t := Make [] None 0 0.

(*@ sese/util/IOBuf.cpp 67-69 IOBuf::getReadableSize *)
Definition getReadableSize (s : t) : Z := u64 (total s - readed s).

(*@ sese/util/IOBuf.cpp 71-73 IOBuf::getTotalSize *)
Definition getTotalSize (s : t) : Z := total s.

(** [cur->get()]: the node at the iterator. *)
Definition deref (l : list Node) (i : nat) : outcome Node := of_option (l !! i).

Definition advance (k : Z) (n : Node) : Node := MkNode (buffer n) (u64 (nread n + k)) (size n) (CAPACITY n).

(*@ sese/util/IOBuf.cpp 77-103 IOBuf::read *)
(** One round per node. *)
Fixpoint read_loop (fuel : nat) (s : t) (i : nat) (length : Z) (out : bytes) : outcome (bytes * t) :=
  match fuel with
  | O => Undef
  | S fuel =>
      node ← deref (nodes s) i;
      let node_remaining := node_readable node in
      if length <=? node_remaining then
        data ← memread (buffer node) (nread node) length;
        Val (out ++ data, Make (alter (advance length) i (nodes s)) (Some i) (total s) (u64 (readed s + length)))
      else
        data ← memread (buffer node) (nread node) node_remaining;
        let s := Make (alter (advance node_remaining) i (nodes s)) (Some (S i)) (total s) (u64 (readed s + node_remaining)) in
        if (S i =? List.length (nodes s))%nat then Val (out ++ data, s)
        else read_loop fuel s (S i) (length - node_remaining) (out ++ data)
  end.

(*@ sese/util/IOBuf.cpp 75-105 IOBuf::read *)
Definition read (s : t) (length : Z) : outcome (Z * bytes * t) :=
  i ← of_option (cur s);
  '(data, s) ← read_loop (S (List.length (nodes s))) s i length [];
  Val (zlen data, data, s).

(*@ sese/util/IOBuf.cpp 111-139 IOBuf::peek *)
(** The copy of the node is walked along the chain. *)
Fixpoint peek_loop (fuel : nat) (l : list Node) (i : nat) (node : Node) (length : Z) (out : bytes) : outcome bytes :=
  match fuel with
  | O => Undef
  | S fuel =>
      let node_remaining := node_readable node in
      if length <=? node_remaining then
        data ← memread (buffer node) (nread node) length; Val (out ++ data)
      else
        data ← memread (buffer node) (nread node) node_remaining;
        if (S i =? List.length l)%nat then Val (out ++ data)
        else
          next ← deref l (S i);
          peek_loop fuel l (S i) (MkNode (buffer next) 0 (size next) (CAPACITY node)) (length - node_remaining) (out ++ data)
  end.

(*@ sese/util/IOBuf.cpp 107-142 IOBuf::peek *)
Definition peek (s : t) (length : Z) : outcome (Z * bytes) :=
  i ← of_option (cur s);
  node ← deref (nodes s) i;
  data ← peek_loop (S (List.length (nodes s))) (nodes s) i node length [];
  Val (zlen data, data).

(*@ sese/util/IOBuf.cpp 146-162 IOBuf::trunc *)
(** The test for the end comes before the increment. *)
Fixpoint trunc_loop (fuel : nat) (s : t) (i : nat) (length real : Z) : outcome (Z * t) :=
  match fuel with
  | O => Undef
  | S fuel =>
      node ← deref (nodes s) i;
      let node_remaining := node_readable node in
      if length <=? node_remaining then
        Val (real + length, Make (alter (advance length) i (nodes s)) (Some i) (total s) (u64 (readed s + length)))
      else
        let s := Make (alter (advance node_remaining) i (nodes s)) (Some (S i)) (total s) (u64 (readed s + node_remaining)) in
        trunc_loop fuel s (S i) (length - node_remaining) (real + node_remaining)
  end.

(*@ sese/util/IOBuf.cpp 144-164 IOBuf::trunc *)
(** The iterator is dereferenced before it is compared with [end()], so the comparison
    never holds. *)
Definition trunc (s : t) (length : Z) : outcome (Z * t) :=
  i ← of_option (cur s); trunc_loop (S (List.length (nodes s))) s i length 0.

#[global] Instance input : InputStream t := read.
#[global] Instance peekable : PeekableStream t := { stream_peek := peek; stream_trunc := trunc }.

(** ** The bytes in the chain *)

(** The part of a node that is still to be read. *)
Definition rest (n : Node) : bytes := slice (nread n) (size n - nread n) (buffer n).
Definition node_ok (n : Node) : Prop := 0 <= nread n <= size n /\ size n <= zlen (buffer n) /\ size n < 2 ^ 64.

Definition sizes (l : list Node) : Z := foldr (fun n acc => size n + acc) 0 l.
Definition reads (l : list Node) : Z := foldr (fun n acc => nread n + acc) 0 l.

(** Nodes before the iterator are spent, nodes after it are untouched, and the counters
    are the sums over the nodes. *)
Record at_node (s : t) (pre : list Node) (n : Node) (post : list Node) : Prop := {
  an_nodes : nodes s = pre ++ n :: post;
  an_cur : cur s = Some (List.length pre);
  an_ok : Forall node_ok (pre ++ n :: post);
  an_spent : Forall (fun n => nread n = size n) pre;
  an_fresh : Forall (fun n => nread n = 0) post;
  an_total : total s = sizes (nodes s) /\ total s < 2 ^ 64;
  an_readed : readed s = reads (nodes s) }.

Definition valid (s : t) : Prop := exists pre n post, at_node s pre n post.
Definition content (s : t) : bytes := concat (map rest (nodes s)).

Lemma rest_zlen n : node_ok n -> zlen (rest n) = size n - nread n.
Proof. intros (H1 & H2 & _). apply zlen_slice; lia. Qed.

Lemma node_readable_zlen n : node_ok n -> node_readable n = zlen (rest n).
Proof. intros H. rewrite rest_zlen by done. destruct H as (H1 & H2 & H3). apply wrap_small. unfold is_u. lia. Qed.

Lemma sums_app f (l k : list Node) : foldr (fun n acc => f n + acc) 0 (l ++ k) =
  foldr (fun n acc => f n + acc) 0 l + foldr (fun n acc => f n + acc) 0 k.
Proof. induction l as [|n l IH]; cbn [foldr app]; lia. Qed.

Lemma content_zlen l : Forall node_ok l -> zlen (concat (map rest l)) = sizes l - reads l.
Proof.
  induction 1 as [|n l Hn _ IH]; [done|]. cbn [map concat sizes reads foldr]. rewrite zlen_app, IH, rest_zlen by done.
  unfold sizes, reads. lia.
Qed.

Lemma spent_content l : Forall node_ok l -> Forall (fun n => nread n = size n) l -> concat (map rest l) = [].
Proof.
  induction 1 as [|n l Hn _ IH]; [done|]. intros Hs. inversion Hs as [|? ? Hr Hs']; subst. cbn [map concat].
  rewrite IH by done. unfold rest. rewrite Hr, Z.sub_diag. unfold slice. by rewrite ztake_0 by lia.
Qed.

Lemma at_content s pre n post : at_node s pre n post -> content s = rest n ++ concat (map rest post).
Proof.
  intros H. unfold content. rewrite (an_nodes _ _ _ _ H), map_app, concat_app.
  rewrite spent_content; [done| |apply H]. pose proof (an_ok _ _ _ _ H) as Ho. by apply Forall_app in Ho as [Ho _].
Qed.

(** [getReadableSize] is what is there. *)
Lemma readable_spec s : valid s -> getReadableSize s = zlen (content s).
Proof.
  intros (pre & n & post & H). unfold getReadableSize, content. pose proof (an_ok _ _ _ _ H) as Ho.
  rewrite <- (an_nodes _ _ _ _ H) in Ho. rewrite content_zlen by done.
  destruct (an_total _ _ _ _ H) as [Ht Hb]. rewrite (an_readed _ _ _ _ H), Ht.
  assert (0 <= reads (nodes s) <= sizes (nodes s)).
  { clear -Ho. induction Ho as [|x l (? & _) _ IH]; [done|]. cbn [sizes reads foldr]. unfold sizes, reads in *. lia. }
  apply wrap_small. unfold is_u. lia.
Qed.

Lemma alter_mid f pre (n : Node) post : alter f (List.length pre) (pre ++ n :: post) = pre ++ f n :: post.
Proof. induction pre as [|x pre IH]; [done|]. cbn [List.length app]. change (x :: alter f (List.length pre) (pre ++ n :: post) = x :: pre ++ f n :: post). by rewrite IH. Qed.

Lemma lookup_mid pre (n : Node) post : (pre ++ n :: post) !! List.length pre = Some n.
Proof. by rewrite list_lookup_middle. Qed.

(** What reading [k] bytes of the current node leaves. *)
Lemma advance_spec s pre n post k : at_node s pre n post -> 0 <= k <= zlen (rest n) ->
  at_node (Make (pre ++ advance k n :: post) (Some (List.length pre)) (total s) (u64 (readed s + k))) pre (advance k n) post /\
  rest (advance k n) = zdrop k (rest n) /\ memread (buffer n) (nread n) k = Val (ztake k (rest n)).
Proof.
  intros H Hk. pose proof (an_ok _ _ _ _ H) as Ho. apply Forall_app in Ho as [Ho1 Ho2].
  inversion Ho2 as [|? ? Hn Ho3]; subst. rewrite rest_zlen in Hk by done. pose proof Hn as (H1 & H2 & H3).
  assert (u64 (nread n + k) = nread n + k) as Hu by (apply wrap_small; unfold is_u; lia).
  assert (node_ok (advance k n)) as Hn' by (split_and!; cbn [advance nread size buffer]; rewrite ?Hu; lia).
  split; [|split].
  - destruct (an_total _ _ _ _ H) as [Ht Hb]. pose proof (an_readed _ _ _ _ H) as Hr.
    rewrite (an_nodes _ _ _ _ H) in Ht, Hr. unfold sizes, reads in *. rewrite sums_app in Ht, Hr. cbn [foldr] in Ht, Hr.
    assert (forall l, Forall node_ok l -> 0 <= reads l <= sizes l) as Hb'.
    { clear. intros l Hl. induction Hl as [|x l (? & _) _ IH]; [done|]. cbn [sizes reads foldr]. unfold sizes, reads in *. lia. }
    pose proof (Hb' _ Ho1). pose proof (Hb' _ Ho3). unfold sizes, reads in *.
    split; cbn [nodes cur total readed]; try done; try apply H.
    + apply Forall_app. split; [done|]. by constructor.
    + unfold sizes. rewrite sums_app. cbn [foldr advance size]. done.
    + unfold reads. rewrite sums_app. cbn [foldr advance nread]. rewrite Hu, wrap_small; [lia|]. unfold is_u. lia.
  - unfold rest. cbn [advance nread size buffer]. rewrite Hu. unfold slice, ztake, zdrop.
    rewrite skipn_firstn_comm, drop_drop. f_equal; [lia|]. f_equal. lia.
  - rewrite memread_Val by lia. unfold rest, slice, ztake. rewrite take_take. do 2 f_equal. lia.
Qed.

(** A node is spent, and the iterator goes on to the next one. *)
Lemma next_node s pre n n' post : at_node s pre n (n' :: post) ->
  let s1 := Make (pre ++ advance (zlen (rest n)) n :: n' :: post) (Some (S (List.length pre))) (total s)
              (u64 (readed s + zlen (rest n))) in
  at_node s1 (pre ++ [advance (zlen (rest n)) n]) n' post /\ content s1 = concat (map rest (n' :: post)).
Proof.
  intros H s1. pose proof (an_ok _ _ _ _ H) as Ho. apply Forall_app in Ho as [_ Ho]. inversion Ho as [|? ? Hn Ho']; subst.
  destruct (advance_spec s pre n (n' :: post) (zlen (rest n)) H) as (Ha & _).
  { pose proof (zlen_nonneg (rest n)). lia. }
  assert (at_node s1 (pre ++ [advance (zlen (rest n)) n]) n' post) as H1.
  { destruct Ha as [A1 A2 A3 A4 A5 A6 A7]. subst s1. cbn [nodes cur total readed] in *. inversion A5 as [|? ? F1 F2]; subst.
    split; cbn [nodes cur total readed]; rewrite <- ?app_assoc; cbn [app]; try done.
    - rewrite length_app, Nat.add_1_r. done.
    - apply Forall_app. split; [done|]. constructor; [|done]. cbn [advance nread size].
      destruct Hn as (? & ? & ?). rewrite rest_zlen by done. rewrite wrap_small; [lia|]. unfold is_u. lia. }
  split; [exact H1|]. by rewrite (at_content _ _ _ _ H1).
Qed.

(** ** The promise *)

Lemma iobuf_read_loop_spec post : forall fuel s pre n k out, at_node s pre n post -> (List.length post < fuel)%nat ->
  0 <= k <= zlen (content s) ->
  exists s', read_loop fuel s (List.length pre) k out = Val (out ++ ztake k (content s), s') /\ valid s' /\ content s' = zdrop k (content s).
Proof.
  induction post as [|n' post IH]; intros [|fuel] s pre n k out H Hf Hk; cbn [List.length] in Hf; try lia;
    pose proof (at_content _ _ _ _ H) as Hc; pose proof (an_ok _ _ _ _ H) as Ho;
    apply Forall_app in Ho as [_ Ho]; inversion Ho as [|? ? Hn Ho']; subst; rewrite Hc in Hk |- *;
    cbn [read_loop]; unfold deref; rewrite (an_nodes _ _ _ _ H), lookup_mid; cbn [of_option]; rewrite bind_Val, node_readable_zlen by done;
    rewrite zlen_app in Hk; pose proof (zlen_nonneg (rest n)).
  - change (concat (map rest [])) with (@nil Z) in *. rewrite app_nil_r. change (zlen (@nil Z)) with 0 in Hk.
    rewrite (proj2 (Z.leb_le _ _)) by lia. destruct (advance_spec s pre n [] k H ltac:(lia)) as (Ha & Hr & ->).
    rewrite bind_Val, alter_mid. eexists. split; [reflexivity|]. split; [by eexists _, _, _|].
    rewrite (at_content _ _ _ _ Ha), Hr. by rewrite app_nil_r.
  - destruct (k <=? zlen (rest n)) eqn:E; zbool.
    + destruct (advance_spec s pre n (n' :: post) k H ltac:(lia)) as (Ha & Hr & ->).
      rewrite bind_Val, alter_mid. eexists. split; [rewrite ztake_app_le by done; reflexivity|]. split; [by eexists _, _, _|].
      rewrite (at_content _ _ _ _ Ha), Hr. by rewrite zdrop_app_le by done.
    + destruct (advance_spec s pre n (n' :: post) (zlen (rest n)) H ltac:(lia)) as (Ha & Hr & ->).
      rewrite bind_Val, alter_mid, ztake_ge by lia. cbv zeta. cbn [nodes]. rewrite length_app. cbn [List.length].
      rewrite (proj2 (Nat.eqb_neq _ _)) by lia. rewrite zdrop_ge in Hr by lia.
      clear Ha. destruct (next_node s pre n n' post H) as (H1 & Hc1).
      destruct (IH fuel _ _ _ (k - zlen (rest n)) (out ++ rest n) H1) as (s' & E' & V' & C').
      { lia. }
      { rewrite Hc1. lia. }
      rewrite length_app, Nat.add_1_r in E'. rewrite E'. exists s'. rewrite Hc1 in *. cbn [map concat].
      rewrite (ztake_app_ge k (rest n)), (zdrop_app_ge k (rest n)), <- app_assoc by lia. done.
Qed.

Lemma iobuf_read s k : valid s -> 0 <= k <= zlen (content s) ->
  exists s', read s k = Val (k, ztake k (content s), s') /\ valid s' /\ content s' = zdrop k (content s).
Proof.
  intros (pre & n & post & H) Hk. unfold read. rewrite (an_cur _ _ _ _ H). cbn [of_option]. rewrite bind_Val.
  destruct (iobuf_read_loop_spec post (S (List.length (nodes s))) s pre n k [] H) as (s' & -> & V & C); [|done|].
  { rewrite (an_nodes _ _ _ _ H), length_app. cbn. lia. }
  rewrite bind_Val. exists s'. rewrite app_nil_l, zlen_ztake by done. done.
Qed.

#[global] Program Instance source : MemSource t := {| src_valid := valid; src_content := content |}.
Next Obligation. intros s k Hv Hk. by apply iobuf_read. Qed.

(** ** Filling *)

Lemma filled_spec cap data : zlen data <= cap -> cap < 2 ^ 64 ->
  exists n, filled cap data = Val n /\ node_ok n /\ nread n = 0 /\ size n = zlen data /\ rest n = data.
Proof.
  intros Hd Hc. pose proof (zlen_nonneg data). unfold filled. rewrite memcpy_Val by (rewrite ?zlen_malloc; lia).
  rewrite bind_Val. eexists. split; [reflexivity|]. split; [|split; [done|split; [done|]]].
  - split_and!; cbn [nread size buffer]; try lia. rewrite !zlen_app.
    pose proof (zlen_nonneg (zdrop (0 + zlen data) (malloc cap))). pose proof (zlen_nonneg (ztake 0 (malloc cap))). lia.
  - unfold rest. cbn [nread size buffer]. unfold slice. rewrite zdrop_0, (ztake_0 0 (malloc cap)) by lia. cbn [app].
    rewrite ztake_app_le, ztake_ge by lia. done.
Qed.

Lemma push_empty n : node_ok n -> nread n = 0 -> valid (push empty n) /\ content (push empty n) = rest n.
Proof.
  intros Hn Hr. assert (at_node (push empty n) [] n []) as H.
  { pose proof Hn as (? & ? & ?). split; cbn [push empty nodes cur total readed app List.length]; try done.
    - constructor; [done|constructor].
    - unfold sizes. cbn. rewrite wrap_small by (unfold is_u; lia). lia.
    - unfold reads. cbn. lia. }
  split; [by eexists _, _, _|]. rewrite (at_content _ _ _ _ H). by rewrite app_nil_r.
Qed.

Lemma push_valid s n : valid s -> node_ok n -> nread n = 0 -> total s + size n < 2 ^ 64 ->
  valid (push s n) /\ content (push s n) = content s ++ rest n /\ total (push s n) = total s + size n.
Proof.
  intros (pre & m & post & H) Hn Hr Ht. pose proof Hn as (? & ? & ?).
  assert (0 <= total s) as Htot.
  { destruct (an_total _ _ _ _ H) as [-> _]. pose proof (an_ok _ _ _ _ H) as Ho. rewrite <- (an_nodes _ _ _ _ H) in Ho.
    clear -Ho. induction Ho as [|x l (? & _) _ IH]; [done|]. unfold sizes in *. cbn [foldr]. lia. }
  assert (u64 (total s + size n) = total s + size n) as Hu by (apply wrap_small; unfold is_u; lia).
  split; [|split; [|exact Hu]].
  - exists pre, m, (post ++ [n]). destruct H as [A1 A2 A3 A4 A5 A6 A7].
    assert (pre ++ m :: post ++ [n] = (pre ++ m :: post) ++ [n]) as E by (by rewrite <- app_assoc).
    split; cbn [push nodes cur total readed]; rewrite ?E, ?A1; try done.
    + by destruct pre.
    + apply Forall_app. split; [done|]. by constructor.
    + apply Forall_app. split; [done|]. by constructor.
    + rewrite Hu. destruct A6 as [A6 _]. rewrite A1 in A6. unfold sizes in *. rewrite sums_app. cbn [foldr]. lia.
    + rewrite A1 in A7. unfold reads in *. rewrite sums_app. cbn [foldr]. lia.
  - unfold content. cbn [push nodes]. rewrite map_app, concat_app. cbn [map concat]. by rewrite app_nil_r.
Qed.

(** Reading does not change the total. *)
Lemma read_total s k x : read s k = Val x -> total (snd x) = total s.
Proof.
  unfold read. intros (i & _ & E)%bind_Val_inv. apply bind_Val_inv in E as ([data s'] & E & [= <-]). cbn [snd].
  revert E. generalize (S (List.length (nodes s))) as fuel. generalize (@nil Z) as out. intros out fuel. revert s i k out.
  induction fuel as [|fuel IH]; intros s i k out; [done|]. cbn [read_loop]. intros (node & _ & E)%bind_Val_inv. cbv zeta in E.
  destruct (k <=? _); apply bind_Val_inv in E as (d & _ & E); [by injection E as _ <-|].
  destruct (_ =? _)%nat; [by injection E as _ <-|]. by apply IH in E.
Qed.

(** ** Truncation *)

(** The rounds of [trunc] are those of [read], up to the end. *)
Lemma trunc_loop_spec post : forall fuel s pre n k real, at_node s pre n post -> 0 <= k ->
  match trunc_loop fuel s (List.length pre) k real with
  | Val (r, s') => k <= zlen (content s) /\ r = real + k /\ valid s' /\ content s' = zdrop k (content s)
  | Undef => True
  end.
Proof.
  induction post as [|n' post IH]; intros [|fuel] s pre n k real H Hk; try done;
    pose proof (at_content _ _ _ _ H) as Hc; pose proof (an_ok _ _ _ _ H) as Ho;
    apply Forall_app in Ho as [_ Ho]; inversion Ho as [|? ? Hn Ho']; subst;
    cbn [trunc_loop]; unfold deref; rewrite (an_nodes _ _ _ _ H), lookup_mid; cbn [of_option]; rewrite bind_Val, node_readable_zlen by done;
    pose proof (zlen_nonneg (rest n)); rewrite Hc, zlen_app.
  - destruct (k <=? zlen (rest n)) eqn:E; zbool.
    + destruct (advance_spec s pre n [] k H ltac:(lia)) as (Ha & Hr & _). rewrite alter_mid. change (zlen (concat (map rest []))) with 0. split; [lia|]. split; [done|].
      split; [by eexists _, _, _|]. by rewrite (at_content _ _ _ _ Ha), Hr, zdrop_app_le by done.
    + destruct fuel; [done|]. cbn [trunc_loop nodes]. unfold deref.
      rewrite lookup_ge_None_2; [done|]. rewrite length_alter, length_app. cbn. lia.
  - destruct (k <=? zlen (rest n)) eqn:E; zbool.
    + destruct (advance_spec s pre n (n' :: post) k H ltac:(lia)) as (Ha & Hr & _). rewrite alter_mid.
      pose proof (zlen_nonneg (concat (map rest (n' :: post)))). split; [lia|]. split; [done|].
      split; [by eexists _, _, _|]. by rewrite (at_content _ _ _ _ Ha), Hr, zdrop_app_le by done.
    + destruct (next_node s pre n n' post H) as (H1 & Hc1). rewrite alter_mid.
      specialize (IH fuel _ _ _ (k - zlen (rest n)) (real + zlen (rest n)) H1 ltac:(lia)). rewrite length_app, Nat.add_1_r in IH.
      destruct (trunc_loop _ _ _ _ _) as [[r s']|]; [|done]. destruct IH as (I1 & I2 & I3 & I4). rewrite Hc1 in I1, I4. cbn [map concat].
      split; [cbn [map concat] in I1; lia|]. split; [lia|]. split; [done|]. rewrite I4, (zdrop_app_ge k (rest n)) by lia. done.
Qed.

(** More than there is cannot be dropped: the iterator passes the end of the list. *)
Lemma trunc_past_end s k : valid s -> zlen (content s) < k -> trunc s k = Undef.
Proof.
  intros (pre & n & post & H) Hk. unfold trunc. rewrite (an_cur _ _ _ _ H). cbn [of_option]. rewrite bind_Val.
  pose proof (trunc_loop_spec post (S (List.length (nodes s))) s pre n k 0 H) as G. pose proof (zlen_nonneg (content s)).
  destruct (trunc_loop _ _ _ _ _) as [[r s']|]; [|done]. lia.
Qed.

End IOBuf.
