(* ===== verification/Text.v ===== *)
(** * String searching and splitting

    The static helpers of [sese/text/AbstractStringBuffer.cpp] over
    [std::string_view], and the case-insensitive comparison of [sese/util/Util.cpp]. *)

From S2P Require Import Prelude.

(** ** Searching *)

(** [text] starts with [sub]. *)
Fixpoint prefixb (sub text : bytes) : bool :=
  match sub, text with
  | [], _ => true
  | a :: sub, b :: text => (a =? b) && prefixb sub text
  | _ :: _, [] => false
  end.

(** [std::string_view::find]: the first position where [sub] occurs. *)
Fixpoint find (sub text : bytes) : option nat :=
  if prefixb sub text then Some 0%nat
  else match text with
       | [] => None
       | _ :: text => S <$> find sub text
       end.

Lemma prefixb_spec sub text : prefixb sub text = true <-> exists r, text = sub ++ r.
Proof.
  revert text. induction sub as [|a sub IH]; intros text; cbn.
  - split; [intros _; now exists text|done].
  - destruct text as [|b text]; [split; [done|intros [r Hr]; done]|].
    rewrite andb_true_iff, IH, Z.eqb_eq. split.
    + intros [-> [r ->]]. now exists r.
    + intros [r Hr]. injection Hr as -> ->. eauto.
Qed.

Lemma prefixb_drop sub text : prefixb sub text = true -> text = sub ++ drop (length sub) text.
Proof. intros [r ->]%prefixb_spec. by rewrite drop_app_length. Qed.

Lemma find_Some sub text i : find sub text = Some i ->
  text = take i text ++ sub ++ drop (i + length sub) text /\
  forall j, (j < i)%nat -> prefixb sub (drop j text) = false.
Proof.
  revert i. induction text as [|b text IH]; intros i; cbn [find];
    destruct (prefixb sub _) eqn:E; intros H.
  1, 3: injection H as <-; split; [by apply prefixb_drop|intros; lia].
  - done.
  - destruct (find sub text) as [k|] eqn:Ef; [|done]. injection H as <-.
    destruct (IH k eq_refl) as [IH1 IH2]. split.
    + cbn. f_equal. exact IH1.
    + intros [|j] Hj; [exact E|]. apply IH2. lia.
Qed.

Lemma find_None sub text : find sub text = None ->
  forall j, prefixb sub (drop j text) = false.
Proof.
  induction text as [|b text IH]; cbn [find]; destruct (prefixb sub _) eqn:E; intros H j; try done.
  - now rewrite drop_nil.
  - destruct (find sub text) eqn:Ef; [done|]. destruct j as [|j]; [exact E|]. now apply IH.
Qed.

(** ** Splitting *)

(*@ sese/text/AbstractStringBuffer.cpp 152-164 AbstractStringBuffer::split *)
(** The pieces between the occurrences of [sub]; an empty last piece is left
    out, another one is built by [last]. [rest] is the text from [pos1]. *)
Fixpoint split_loop (last : bytes -> bytes) (fuel : nat) (sub rest : bytes) : list bytes :=
  match fuel with
  | O => []
  | S fuel =>
      match find sub rest with
      | Some pos2 => take pos2 rest :: split_loop last fuel sub (drop (pos2 + length sub) rest)
      | None => match rest with [] => [] | _ => [last rest] end
      end
  end.

(*@ sese/text/AbstractStringBuffer.cpp 148-166 AbstractStringBuffer::split *)
(** The member function. Each iteration moves past one occurrence of the
    separator, which the code never calls with an empty one, so the length of the
    text bounds their number. *)
Definition split (text sub : bytes) : list bytes :=
  split_loop (fun l => l) (S (length text)) sub text.

(*@ sese/text/AbstractStringBuffer.cpp 65-79 AbstractStringBuffer::split *)
(** The static function: the last piece is built from a C string, so it stops
    at the first NUL. *)
Definition split_view (text sub : bytes) : list bytes :=
  split_loop cstr (S (length text)) sub text.

(*@ sese/text/AbstractStringBuffer.cpp 81-86 AbstractStringBuffer::startsWith *)
Definition startsWith (text prefix : bytes) : bool :=
  if zlen text <? zlen prefix then false
  else bool_decide (ztake (zlen prefix) text = prefix).

(*@ sese/text/AbstractStringBuffer.cpp 88-93 AbstractStringBuffer::endsWith *)
Definition endsWith (text suffix : bytes) : bool :=
  if zlen text <? zlen suffix then false
  else bool_decide (zdrop (zlen text - zlen suffix) text = suffix).

(** Putting the separator back between the pieces. *)
Fixpoint join (sub : bytes) (l : list bytes) : bytes :=
  match l with
  | [] => []
  | [x] => x
  | x :: l => x ++ sub ++ join sub l
  end.

(** [text] ends with the separator, which produces no empty last piece. *)
Lemma split_loop_fuel sub : sub <> [] -> forall fuel rest, (length rest < fuel)%nat ->
  rest = join sub (split_loop (fun l => l) fuel sub rest) \/
  rest = join sub (split_loop (fun l => l) fuel sub rest) ++ sub /\
    split_loop (fun l => l) fuel sub rest <> [].
Proof.
  intros Hsub. assert (0 < length sub)%nat as Hpos by (destruct sub; [done|cbn; lia]).
  induction fuel as [|fuel IH]; intros rest Hf; [lia|]. cbn [split_loop].
  destruct (find sub rest) as [i|] eqn:E; [|left; by destruct rest].
  destruct (find_Some _ _ _ E) as [Hr _].
  set (tl := drop (i + length sub) rest) in *.
  assert (length tl < fuel)%nat as Htl.
  { apply (f_equal length) in Hr. rewrite !length_app in Hr. lia. }
  destruct (IH tl Htl) as [Ht|[Ht Hne]].
  - destruct (split_loop _ fuel sub tl) as [|p l] eqn:Es.
    + right. split; [|done]. cbn in Ht |- *. rewrite Ht in Hr. by rewrite app_nil_r in Hr.
    + left. cbn [join]. cbn [join] in Ht. rewrite Hr at 1. by rewrite Ht at 1.
  - destruct (split_loop _ fuel sub tl) as [|p l] eqn:Es; [done|].
    right. split; [|done]. cbn [join]. cbn [join] in Ht.
    rewrite Hr at 1. rewrite Ht at 1. by rewrite <- !app_assoc.
Qed.

(** No piece contains the separator. *)
Lemma split_loop_pieces sub : forall fuel rest, (length rest < fuel)%nat -> sub <> [] ->
  Forall (fun p => forall a b, p <> a ++ sub ++ b) (split_loop (fun l => l) fuel sub rest).
Proof.
  intros fuel rest Hf Hsub. assert (0 < length sub)%nat as Hpos by (destruct sub; [done|cbn; lia]).
  revert rest Hf. induction fuel as [|fuel IH]; intros rest Hf; [constructor|]. cbn [split_loop].
  destruct (find sub rest) as [i|] eqn:E.
  - destruct (find_Some _ _ _ E) as [Hr Hmin]. constructor.
    + intros a b Hp.
      assert (prefixb sub (drop (length a) rest) = true) as Hpre.
      { apply prefixb_spec. exists (b ++ sub ++ drop (i + length sub) rest).
        rewrite Hr at 1. rewrite Hp, <- !app_assoc. apply drop_app_length. }
      rewrite Hmin in Hpre; [done|]. apply (f_equal length) in Hp.
      rewrite length_take, !length_app in Hp. lia.
    + apply IH. apply (f_equal length) in Hr. rewrite !length_app in Hr. lia.
  - destruct rest as [|c rest]; [constructor|]. constructor; [|constructor].
    intros a b Hp. pose proof (find_None _ _ E (length a)) as Hn.
    rewrite Hp, drop_app_length in Hn.
    assert (prefixb sub (sub ++ b) = true) as Hy by (apply prefixb_spec; eauto). congruence.
Qed.

(** Pieces without the separator's first character come back from [join]; [last]
    must keep the last piece, which may not be empty. *)
Lemma find_absent c s p : ~ In c p -> find (c :: s) p = None.
Proof.
  induction p as [|b p IH]; intros H; [done|]. cbn [find prefixb].
  destruct (c =? b) eqn:E; zbool; [exfalso; apply H; by left|]. cbn [andb].
  rewrite IH; [done|]. intros Hi. apply H. by right.
Qed.

Lemma find_next c s p rest : ~ In c p -> find (c :: s) (p ++ (c :: s) ++ rest) = Some (length p).
Proof.
  induction p as [|b p IH]; intros H.
  - cbn [app length]. assert (prefixb (c :: s) (c :: s ++ rest) = true) as E
      by (apply prefixb_spec; by exists rest). cbn [find]. by rewrite E.
  - cbn [app find prefixb length]. destruct (c =? b) eqn:E; zbool; [exfalso; apply H; by left|]. cbn [andb].
    cbn [app] in IH. rewrite IH; [done|]. intros Hi. apply H. by right.
Qed.

Lemma split_loop_join (last : bytes -> bytes) c s ps : forall fuel p, (length ps < fuel)%nat ->
  Forall (fun p => ~ In c p) (p :: ps) -> List.last (p :: ps) [] <> [] ->
  last (List.last (p :: ps) []) = List.last (p :: ps) [] ->
  split_loop last fuel (c :: s) (join (c :: s) (p :: ps)) = p :: ps.
Proof.
  induction ps as [|q ps IH]; intros [|fuel] p Hf Hp Hn Hl; cbn [length] in Hf; try lia;
    inversion Hp as [|? ? Hp1 Hp2]; subst.
  - cbn [join split_loop List.last] in *. rewrite find_absent by done. by destruct p; [|rewrite Hl].
  - change (join (c :: s) (p :: q :: ps)) with (p ++ (c :: s) ++ join (c :: s) (q :: ps)).
    cbn [split_loop]. rewrite find_next, take_app_length by done. f_equal.
    rewrite app_assoc, drop_app_length' by (rewrite length_app; done).
    apply IH; [lia|done|..]; change (List.last (q :: ps) []) with (List.last (p :: q :: ps) []); done.
Qed.

Lemma join_length sub ps : (0 < length sub)%nat -> forall p, (length ps <= length (join sub (p :: ps)))%nat.
Proof.
  intros Hs. induction ps as [|q ps IH]; intros p; [cbn; lia|].
  change (join sub (p :: q :: ps)) with (p ++ sub ++ join sub (q :: ps)).
  rewrite !length_app. specialize (IH q). cbn [length]. lia.
Qed.

(** ** Numbers *)

(*@ sese/util/Util.cpp 37-46 isSpace *)
(** A blank, a line end, a tab, a vertical tab, or a backspace. *)
Definition isSpace (ch : byte) : bool := existsb (Z.eqb ch) [32; 10; 13; 9; 11; 8].

(** [isspace] in the C locale. *)
Definition isspace (c : byte) : bool := ((9 <=? c) && (c <=? 13)) || (c =? 32).
Definition isdigit (c : byte) : bool := (48 <=? c) && (c <=? 57).

Fixpoint skip_space (s : bytes) : bytes :=
  match s with c :: s' => if isspace c then skip_space s' else s | [] => [] end.
Fixpoint span_digits (s : bytes) : bytes * bytes :=
  match s with
  | c :: s' => if isdigit c then let '(d, r) := span_digits s' in (c :: d, r) else ([], s)
  | [] => ([], [])
  end.

(** A number at the start of a C string: its value and what follows it ([s] itself when
    there is none). *)
Definition scan_number (s : bytes) : Z * bytes :=
  let s := cstr s in
  let s1 := skip_space s in
  let '(neg, s2) := match s1 with
                    | 45 :: r => (true, r)
                    | 43 :: r => (false, r)
                    | _ => (false, s1)
                    end in
  let '(d, r) := span_digits s2 in
  match d with
  | [] => (0, s)
  | _ => (if neg then - digits_val d else digits_val d, r)
  end.

(** [std::strtol(s, &end, 10)]: the value is clamped to a [long]. *)
Definition strtol (s : bytes) : Z * bytes :=
  let '(v, r) := scan_number s in (Z.max (- 2 ^ 63) (Z.min (2 ^ 63 - 1) v), r).

(** [std::stoll] and [std::stoi], [None] where they throw. *)
Definition sto (w : Z) (s : bytes) : option Z :=
  let '(v, r) := scan_number s in
  if bool_decide (r = cstr s) then None else if swrap w v =? v then Some v else None.
Abbreviation stoll := (sto 64).
Abbreviation stoi := (sto 32).

(*@ sese/util/Util.cpp 24-27 toInteger *)
Definition toInteger (s : bytes) : Z := fst (strtol s).

Lemma span_digits_app d r : forallb isdigit d = true -> match r with c :: _ => isdigit c = false | [] => True end ->
  span_digits (d ++ r) = (d, r).
Proof.
  intros Hd Hr. induction d as [|c d IH]; [destruct r as [|c r]; cbn; [done|by rewrite Hr]|].
  cbn [forallb] in Hd. apply andb_true_iff in Hd as [Hc Hd]. cbn. rewrite Hc. by rewrite IH.
Qed.

Lemma digits_val_nonneg d : forallb isdigit d = true -> 0 <= digits_val d.
Proof.
  unfold digits_val. enough (forall a, 0 <= a -> forallb isdigit d = true ->
    0 <= fold_left (fun a c => 10 * a + (c - 48)) d a) as H by (intros; apply H; [lia|done]).
  induction d as [|c d IH]; [done|]. intros a Ha Hd. cbn [forallb fold_left] in *.
  apply andb_true_iff in Hd as [[Hc Hc']%andb_true_iff Hd]. zbool. apply IH; [lia|done].
Qed.

Lemma strtol_range s : - 2 ^ 63 <= fst (strtol s) < 2 ^ 63.
Proof.
  unfold strtol. destruct (scan_number s) as [v r]. cbn [fst]. lia.
Qed.

(** A sequence of digits is read whole, whatever follows it. *)
Lemma scan_number_digits d r : forallb isdigit d = true -> d <> [] -> ~ In 0 r ->
  match r with c :: _ => isdigit c = false | [] => True end -> scan_number (d ++ r) = (digits_val d, r).
Proof.
  intros Hd Hne H0 Hr.
  assert (forall c, In c d -> 48 <= c <= 57) as Hc.
  { intros c Hi. rewrite forallb_forall in Hd. specialize (Hd c Hi). unfold isdigit in Hd. zbool. lia. }
  unfold scan_number. rewrite cstr_no_nul by (rewrite in_app_iff; intros [Hi%Hc|Hi]; [lia|done]).
  destruct d as [|c d]; [done|]. specialize (Hc c (or_introl eq_refl)).
  cbn [app skip_space]. unfold isspace. rewrite (proj2 (Z.leb_gt c 13)), (proj2 (Z.eqb_neq c 32)) by lia.
  rewrite andb_false_r. cbn [orb].
  assert (match c :: d ++ r with 45 :: r' => (true, r') | 43 :: r' => (false, r') | _ => (false, c :: d ++ r) end
          = (false, c :: d ++ r)) as ->.
  { assert (c = 48 \/ c = 49 \/ c = 50 \/ c = 51 \/ c = 52 \/ c = 53 \/ c = 54 \/ c = 55 \/ c = 56 \/ c = 57) as H by lia.
    destruct H as [->|[->|[->|[->|[->|[->|[->|[->|[->| ->]]]]]]]]]; done. }
  pose proof (span_digits_app (c :: d) r Hd Hr) as Es. cbn [app] in Es. by rewrite Es.
Qed.

Lemma strtol_digits d r : forallb isdigit d = true -> d <> [] -> digits_val d < 2 ^ 63 -> ~ In 0 r ->
  match r with c :: _ => isdigit c = false | [] => True end -> strtol (d ++ r) = (digits_val d, r).
Proof.
  intros Hd Hne Hv H0 Hr. pose proof (digits_val_nonneg d Hd). unfold strtol. rewrite scan_number_digits by done.
  f_equal. lia.
Qed.

(** A number that [std::to_string] wrote is read back. *)
Lemma strtol_to_string n r : 0 <= n < 2 ^ 63 -> ~ In 0 r ->
  match r with c :: _ => isdigit c = false | [] => True end -> strtol (to_string n ++ r) = (n, r).
Proof.
  intros Hn H0 Hr. destruct (to_string_spec n ltac:(lia)) as (Hv & Hne & Hd).
  rewrite <- Hv at 2. apply strtol_digits; [|done|lia|done|done].
  apply forallb_forall. intros c Hc. rewrite List.Forall_forall in Hd. specialize (Hd c Hc). unfold isdigit. zbool. lia.
Qed.

(** A negative number too. *)
Lemma scan_number_neg d r : forallb isdigit d = true -> d <> [] -> ~ In 0 r ->
  match r with c :: _ => isdigit c = false | [] => True end -> scan_number (45 :: d ++ r) = (- digits_val d, r).
Proof.
  intros Hd Hne H0 Hr. unfold scan_number. rewrite cstr_no_nul.
  - cbn [skip_space]. change (isspace 45) with false. cbv iota. rewrite span_digits_app by done. by destruct d.
  - cbn [In]. rewrite in_app_iff. intros [Hi|[Hi|Hi]]; [done| |done]. rewrite forallb_forall in Hd. by specialize (Hd 0 Hi).
Qed.

Lemma to_string_isdigit n : 0 <= n < 10 ^ 20 -> forallb isdigit (to_string n) = true.
Proof.
  intros Hn. destruct (to_string_spec n Hn) as (_ & _ & Hd). apply forallb_forall. intros c Hc.
  rewrite List.Forall_forall in Hd. specialize (Hd c Hc). unfold isdigit. zbool. lia.
Qed.

Lemma digits_no_nul d : forallb isdigit d = true -> ~ In 0 d.
Proof. rewrite forallb_forall. intros Hd Hi. by specialize (Hd 0 Hi). Qed.

Lemma stoll_to_string n : - 2 ^ 63 <= n < 2 ^ 63 -> stoll (to_string n) = Some n.
Proof.
  intros Hn. assert (forall v, v = n -> (swrap 64 v =? v) = true) as Hw.
  { intros v ->. unfold swrap. change (2 ^ (64 - 1)) with (2 ^ 63). rewrite Z.mod_small by lia. zbool. lia. }
  assert (forall s : bytes, s <> [] -> bool_decide ([] = s) = false) as He by (intros s Hs; apply bool_decide_eq_false_2; congruence).
  destruct (Z_lt_le_dec n 0) as [Hneg|Hpos].
  - destruct (to_string_spec (- n) ltac:(lia)) as (Hv & Hne & Hd). pose proof (to_string_isdigit (- n) ltac:(lia)) as Hdig.
    assert (to_string n = 45 :: to_string (- n)) as ->.
    { unfold to_string. by rewrite (proj2 (Z.ltb_lt n 0)), (proj2 (Z.ltb_ge (- n) 0)) by lia. }
    unfold sto. rewrite <- (app_nil_r (to_string (- n))), scan_number_neg by (done || intros []).
    rewrite app_nil_r, Hv, cstr_no_nul, He, Hw by (done || lia || (intros [Hi|Hi]; [done|by apply (digits_no_nul _ Hdig)])). f_equal. lia.
  - destruct (to_string_spec n ltac:(lia)) as (Hv & Hne & Hd). pose proof (to_string_isdigit n ltac:(lia)) as Hdig.
    unfold sto. rewrite <- (app_nil_r (to_string n)), scan_number_digits by (done || intros []).
    rewrite app_nil_r, Hv, cstr_no_nul, He by (done || by apply digits_no_nul). by rewrite Hw.
Qed.

(** ** Case-insensitive comparison *)

Definition tolower (c : byte) : byte := if (65 <=? c) && (c <=? 90) then c + 32 else c.

(*@ sese/util/Util.cpp 70-76 StrCmpI::operator() *)
(** [strcmpi], that is [strcasecmp] in the C locale: the C strings compared
    byte by byte, as [unsigned char], up to their terminating NUL. *)
Fixpoint StrCmpI (l r : bytes) : Z :=
  match l, r with
  | [], [] => 0
  | [], b :: _ => - tolower (u8 b)
  | a :: _, [] => tolower (u8 a)
  | a :: l, b :: r =>
      let d := tolower (u8 a) - tolower (u8 b) in
      if d =? 0 then (if tolower (u8 a) =? 0 then 0 else StrCmpI l r) else d
  end.

(*@ sese/util/Util.cpp 82-84 strcmpDoNotCase *)
Definition strcmpDoNotCase (l r : bytes) : bool := StrCmpI l r =? 0.

(*@ sese/util/Util.cpp 48-60 findFirstAt *)
Fixpoint findFirstAt (s : bytes) (ch : byte) : Z :=
  match s with
  | [] => -1
  | c :: s =>
      if c =? 0 then -1
      else if c =? ch then 0
      else let r := findFirstAt s ch in if r =? -1 then -1 else 1 + r
  end.

(** [std::string]'s own order: unsigned bytes, then length. *)
Fixpoint lexcmp (l r : bytes) : Z :=
  match l, r with
  | [], [] => 0
  | [], _ :: _ => -1
  | _ :: _, [] => 1
  | a :: l, b :: r => if a <? b then -1 else if b <? a then 1 else lexcmp l r
  end.

(** What [StrCmpI] sees of a string. *)
Fixpoint norm (l : bytes) : bytes :=
  match l with
  | [] => []
  | a :: l => let x := tolower (u8 a) in if x =? 0 then [] else x :: norm l
  end.

Lemma tolower_nonneg c : 0 <= tolower (u8 c).
Proof. pose proof (wrap_range 8 c ltac:(lia)) as [H _]. unfold tolower. ifcase; lia. Qed.

Lemma StrCmpI_lexcmp l : forall r, Z.sgn (StrCmpI l r) = lexcmp (norm l) (norm r).
Proof.
  induction l as [|a l IH]; intros [|b r]; cbn [StrCmpI norm]; [done| | |].
  - pose proof (tolower_nonneg b). destruct (_ =? 0) eqn:E; zbool; cbn [lexcmp]; lia.
  - pose proof (tolower_nonneg a). destruct (_ =? 0) eqn:E; zbool; cbn [lexcmp]; lia.
  - pose proof (tolower_nonneg a). pose proof (tolower_nonneg b).
    destruct (tolower (u8 a) - tolower (u8 b) =? 0) eqn:E1, (tolower (u8 a) =? 0) eqn:E2,
      (tolower (u8 b) =? 0) eqn:E3; zbool; cbn [lexcmp]; try lia.
    + rewrite (proj2 (Z.ltb_ge _ _)), (proj2 (Z.ltb_ge (tolower (u8 b)) _)) by lia. apply IH.
    + destruct (_ <? _) eqn:E4; zbool; [lia|]. rewrite (proj2 (Z.ltb_lt _ _)); lia.
Qed.

Lemma lexcmp_eq l : forall r, lexcmp l r = 0 <-> l = r.
Proof.
  induction l as [|a l IH]; intros [|b r]; cbn; try done.
  destruct (a <? b) eqn:E1; zbool; [split; [done|intros H; injection H; lia]|].
  destruct (b <? a) eqn:E2; zbool; [split; [done|intros H; injection H; lia]|].
  rewrite IH. assert (a = b) by lia. subst. split; congruence.
Qed.

Lemma lexcmp_opp l : forall r, lexcmp r l = - lexcmp l r.
Proof.
  induction l as [|a l IH]; intros [|b r]; cbn; try done.
  destruct (a <? b) eqn:E1, (b <? a) eqn:E2; zbool; try lia. apply IH.
Qed.

Lemma lexcmp_trans l : forall m r, lexcmp l m < 0 -> lexcmp m r < 0 -> lexcmp l r < 0.
Proof.
  induction l as [|a l IH]; intros [|b m] [|c r]; cbn; try lia.
  destruct (a <? b) eqn:E1, (b <? a) eqn:E2, (b <? c) eqn:E3, (c <? b) eqn:E4, (a <? c) eqn:E5,
    (c <? a) eqn:E6; zbool; try lia. apply IH.
Qed.

(** ** Properties *)

(** Splitting loses nothing: joining the pieces with the separator gives
    the text back, up to one separator at the very end, and no piece contains the
    separator. *)
Theorem split_join (text sub : bytes) :
  sub <> [] ->
  (text = join sub (split text sub) \/ text = join sub (split text sub) ++ sub) /\
  Forall (fun p => forall a b, p <> a ++ sub ++ b) (split text sub).
Proof.
  intros Hsub. split.
  - destruct (split_loop_fuel sub Hsub (S (length text)) text) as [H|[H _]]; auto.
  - apply split_loop_pieces; [lia|done].
Qed.

Lemma split_join_witness :
  (str "a=1; b=2; " = join (str "; ") (split (str "a=1; b=2; ") (str "; ")) \/
   str "a=1; b=2; " = join (str "; ") (split (str "a=1; b=2; ") (str "; ")) ++ str "; ") /\
  Forall (fun p => forall a b, p <> a ++ str "; " ++ b) (split (str "a=1; b=2; ") (str "; ")).
Proof. apply (split_join (str "a=1; b=2; ") (str "; ")). discriminate. Defined.
