(* ===== verification/Version.v ===== *)
(** * Versions

    Models [sese/util/Version.cpp]: versions of four numbers, their texts and their comparison. *)

From S2P Require Import Prelude Text.

(*@ sese/util/Version.h 29-33 Version *)
Record Version := MkVersion { major_ : Z; minor_ : Z; patch_ : Z; revision_ : Z }.
#[export] Instance Version_eq_dec : EqDecision Version.
Proof. solve_decision. Defined.

(** [std::strtoul(s, &end, 10)]: a sign is applied modulo the width, what is too large is clamped. *)
Definition strtoul (s : bytes) : Z * bytes :=
  let '(v, r) := scan_number s in (if 2 ^ 64 <=? Z.abs v then 2 ^ 64 - 1 else u64 v, r).

(** What [*end_ptr] is compared with: the terminator, or a character. *)
Definition at_end (r : bytes) : bool := match r with [] => true | c :: _ => c =? 0 end.

(*@ sese/util/Version.cpp 24-61 Version::parse *)
Definition parse (version : bytes) : option Version :=
  let '(MAJOR, end_) := strtoul version in
  if at_end end_ then Some (MkVersion (u16 MAJOR) 0 0 0)
  else if negb (nth 0 end_ 0 =? 46) then None
  else
    let '(MINOR, end_) := strtoul (drop 1 end_) in
    if at_end end_ then Some (MkVersion (u16 MAJOR) (u16 MINOR) 0 0)
    else if negb (nth 0 end_ 0 =? 46) then None
    else
      let '(PATCH, end_) := strtoul (drop 1 end_) in
      if at_end end_ then Some (MkVersion (u16 MAJOR) (u16 MINOR) (u16 PATCH) 0)
      else if negb (nth 0 end_ 0 =? 46) then None
      else
        let '(REVISION, end_) := strtoul (drop 1 end_) in
        if at_end end_ then Some (MkVersion (u16 MAJOR) (u16 MINOR) (u16 PATCH) (u16 REVISION)) else None.

(*@ sese/util/Version.cpp 63-65 Version::toString *)
Definition toString (v : Version) : bytes :=
  to_string (major_ v) ++ str "." ++ to_string (minor_ v) ++ str "." ++ to_string (patch_ v) ++ str "." ++ to_string (revision_ v).

(** A number is kept when it is not zero or when a later one has been kept. *)
Definition keep (n : Z) (vector : list Z) : list Z :=
  if negb (n =? 0) || negb (zlen vector =? 0) then vector ++ [n] else vector.

(*@ sese/util/Version.cpp 99-106 Version::toShortString *)
Fixpoint version_text (vector : list Z) (version : bytes) : bytes :=
  match vector with
  | [] => version
  | n :: vector =>
      let version := version ++ to_string n in
      version_text vector (match vector with [] => version | _ => version ++ str "." end)
  end.

(*@ sese/util/Version.cpp 67-109 Version::toShortString *)
Definition toShortString (v : Version) : bytes :=
  let vector := keep (major_ v) (keep (minor_ v) (keep (patch_ v) (keep (revision_ v) []))) in
  let vector := if zlen vector =? 0 then [0] else reverse vector in
  version_text vector [].

(*@ sese/util/Version.cpp 113-115 Version::operator== *)
Definition eq_ (a b : Version) : bool :=
  (major_ a =? major_ b) && (minor_ a =? minor_ b) && (patch_ a =? patch_ b) && (revision_ a =? revision_ b).
(*@ sese/util/Version.cpp 117-119 Version::operator!= *)
Definition ne_ (a b : Version) : bool :=
  negb (major_ a =? major_ b) || negb (minor_ a =? minor_ b) || negb (patch_ a =? patch_ b) || negb (revision_ a =? revision_ b).
(*@ sese/util/Version.cpp 121-123 Version::operator< *)
Definition lt_ (a b : Version) : bool :=
  (major_ a <? major_ b) || (minor_ a <? minor_ b) || (patch_ a <? patch_ b) || (revision_ a <? revision_ b).
(*@ sese/util/Version.cpp 125-127 Version::operator> *)
Definition gt_ (a b : Version) : bool :=
  (major_ a >? major_ b) || (minor_ a >? minor_ b) || (patch_ a >? patch_ b) || (revision_ a >? revision_ b).
(*@ sese/util/Version.cpp 129-131 Version::operator<= *)
Definition le_ (a b : Version) : bool :=
  (major_ a <=? major_ b) && (minor_ a <=? minor_ b) && (patch_ a <=? patch_ b) && (revision_ a <=? revision_ b).
(*@ sese/util/Version.cpp 133-135 Version::operator>= *)
Definition ge_ (a b : Version) : bool :=
  (major_ a >=? major_ b) && (minor_ a >=? minor_ b) && (patch_ a >=? patch_ b) && (revision_ a >=? revision_ b).

(** ** Texts *)

Definition version_ok (v : Version) : Prop :=
  is_u 16 (major_ v) /\ is_u 16 (minor_ v) /\ is_u 16 (patch_ v) /\ is_u 16 (revision_ v).

(** A number is read back up to the dot or the end. *)
Lemma strtoul_number n r : is_u 16 n -> ~ In 0 r -> match r with c :: _ => isdigit c = false | [] => True end ->
  strtoul (to_string n ++ r) = (n, r).
Proof.
  unfold is_u. intros Hn H0 Hr. destruct (to_string_spec n ltac:(lia)) as (Hv & Hne & _). unfold strtoul.
  pose proof (strtol_to_string n r ltac:(lia) H0 Hr) as E. unfold strtol in E.
  destruct (scan_number (to_string n ++ r)) as [v r'] eqn:Es. injection E as E1 ->.
  assert (v = n) as -> by lia. rewrite (proj2 (Z.leb_gt _ _)) by lia. rewrite wrap_small by (unfold is_u; lia). done.
Qed.

(** The numbers of a version, joined by dots, in at most four places. *)
Definition dotted (l : list Z) : bytes := join (str ".") (map to_string l).

Lemma dotted_cons n m l : dotted (n :: m :: l) = to_string n ++ 46 :: dotted (m :: l).
Proof. reflexivity. Qed.

Lemma dotted_no_nul l : Forall (is_u 16) l -> ~ In 0 (dotted l).
Proof.
  induction 1 as [|n l Hn Hl IH]; [intros []|]. unfold is_u in Hn.
  assert (~ In 0 (to_string n)) as H0.
  { destruct (to_string_spec n ltac:(lia)) as (_ & _ & Hd). rewrite List.Forall_forall in Hd. intros Hi. apply Hd in Hi. lia. }
  destruct l as [|m l]; [exact H0|]. rewrite dotted_cons, in_app_iff. intros [Hi|[Hi|Hi]]; [done|done|done].
Qed.

Lemma read_dotted n l : is_u 16 n -> Forall (is_u 16) l ->
  strtoul (dotted (n :: l)) = (n, match l with [] => [] | _ => 46 :: dotted l end).
Proof.
  intros Hn Hl. destruct l as [|m l].
  - unfold dotted. cbn [map join]. rewrite <- (app_nil_r (to_string n)) at 1. apply strtoul_number; [done|intros []|done].
  - rewrite dotted_cons. apply strtoul_number; [done| |done]. intros [Hi|Hi]; [done|]. exact (dotted_no_nul (m :: l) Hl Hi).
Qed.

(** Missing numbers are zero. *)
Definition version_of (l : list Z) : Version := MkVersion (nth 0 l 0) (nth 1 l 0) (nth 2 l 0) (nth 3 l 0).

Lemma parse_dotted l : l <> [] -> (length l <= 4)%nat -> Forall (is_u 16) l -> parse (dotted l) = Some (version_of l).
Proof.
  intros Hne Hlen Hl. unfold parse, version_of.
  destruct Hl as [|a l Ha Hl]; [done|]. rewrite read_dotted by done. rewrite (wrap_small 16 a) by done.
  destruct Hl as [|b l Hb Hl]; [done|]. cbn [at_end nth]. change (46 =? 0) with false. change (46 =? 46) with true. cbn [negb]. cbv iota.
  rewrite skipn_cons, drop_0, read_dotted by done. rewrite (wrap_small 16 b) by done.
  destruct Hl as [|c l Hc Hl]; [done|]. cbn [at_end nth]. change (46 =? 0) with false. change (46 =? 46) with true. cbn [negb]. cbv iota.
  rewrite skipn_cons, drop_0, read_dotted by done. rewrite (wrap_small 16 c) by done.
  destruct Hl as [|d l Hd Hl]; [done|]. cbn [at_end nth]. change (46 =? 0) with false. change (46 =? 46) with true. cbn [negb]. cbv iota.
  rewrite skipn_cons, drop_0, read_dotted by done. rewrite (wrap_small 16 d) by done.
  destruct l; [done|]. cbn [length] in Hlen. lia.
Qed.

Lemma version_text_dotted l : forall acc, version_text l acc = acc ++ dotted l.
Proof.
  induction l as [|n l IH]; intros acc; cbn [version_text]; [by rewrite app_nil_r|].
  rewrite IH. destruct l as [|m l]; [by rewrite app_nil_r|]. by rewrite dotted_cons, <- !app_assoc.
Qed.

Lemma keep_more n x vector : keep n (x :: vector) = (x :: vector) ++ [n].
Proof. unfold keep. rewrite zlen_cons. pose proof (zlen_nonneg vector). rewrite (proj2 (Z.eqb_neq (1 + _) 0)) by lia. by rewrite orb_true_r. Qed.

Lemma keep_first n : keep n [] = if n =? 0 then [] else [n].
Proof. unfold keep. by destruct (n =? 0). Qed.

(** The zeros at the end are left out. *)
Lemma short_text a b c d : is_u 16 a -> is_u 16 b -> is_u 16 c -> is_u 16 d ->
  parse (toShortString (MkVersion a b c d)) = Some (MkVersion a b c d).
Proof.
  intros H1 H2 H3 H4. unfold toShortString. cbn [major_ minor_ patch_ revision_]. rewrite version_text_dotted, keep_first. cbn [app].
  destruct (Z.eqb_spec d 0) as [->|]; [rewrite keep_first; destruct (Z.eqb_spec c 0) as [->|];
    [rewrite keep_first; destruct (Z.eqb_spec b 0) as [->|]; [rewrite keep_first; destruct (Z.eqb_spec a 0) as [->|]|]|]|];
    rewrite ?keep_more; cbn [app]; rewrite ?keep_more; cbn [app]; rewrite ?keep_more; cbv -[parse dotted is_u];
    (rewrite parse_dotted; [done|done|cbn; lia|]); repeat (apply List.Forall_cons; [assumption|]); apply List.Forall_nil.
Qed.

(** ** Properties *)

(** Both texts of a version are read back, the short one although it leaves out the zeros at its end; [==] is equality, and
    [!=], [<] and [>] are the negations of [==], [>=] and [<=]. *)
Theorem version_roundtrip (v w : Version) :
  version_ok v ->
  parse (toString v) = Some v /\ parse (toShortString v) = Some v /\
  (eq_ v w = true <-> v = w) /\ ne_ v w = negb (eq_ v w) /\
  (lt_ v w = negb (ge_ v w)) /\ (gt_ v w = negb (le_ v w)).
Proof.
  intros (H1 & H2 & H3 & H4). destruct v as [a b c d]. cbn [major_ minor_ patch_ revision_] in *. split; [|split; [|split; [|split; [|split]]]].
  - change (toString (MkVersion a b c d)) with (dotted [a; b; c; d]). apply parse_dotted; [done|cbn; lia|repeat (apply List.Forall_cons; [first [assumption|by split]|]); apply List.Forall_nil].
  - by apply short_text.
  - unfold eq_. destruct w. cbn. rewrite !andb_true_iff, !Z.eqb_eq. split; [intros [[[-> ->] ->] ->]; done|by intros [= -> -> -> ->]].
  - unfold ne_, eq_. by rewrite !negb_andb.
  - unfold lt_, ge_. rewrite !negb_andb, !Z.geb_leb, <- !Z.ltb_antisym. done.
  - unfold gt_, le_. rewrite !negb_andb, !Z.gtb_ltb, <- !Z.ltb_antisym. done.
Qed.

Lemma version_roundtrip_witness :
  toShortString (MkVersion 1 20 0 0) = str "1.20" /\
  parse (toShortString (MkVersion 1 20 0 0)) = Some (MkVersion 1 20 0 0).
Proof.
  split; [reflexivity|]. apply (version_roundtrip (MkVersion 1 20 0 0) (MkVersion 0 0 0 0)).
  repeat split; discriminate.
Defined.

(** The operators do not order versions: either of two can be smaller than the other. *)
Example versions_unordered :
  lt_ (MkVersion 1 2 0 0) (MkVersion 2 1 0 0) = true /\ lt_ (MkVersion 2 1 0 0) (MkVersion 1 2 0 0) = true /\
  le_ (MkVersion 1 2 0 0) (MkVersion 2 1 0 0) = false.
Proof. repeat split. Qed.
