(* ===== verification/Cells.v ===== *)
(** * Blocks of memory by the cell

    Loads and stores of single cells, block moves, and what the loops made of them do: moves up
    and down one cell at a time ([sese/text/Algorithm.h]), reversal in place, stripping. *)

From S2P Require Import Prelude.

(** ** Cells *)

Definition load (mem : list Z) (i : Z) : outcome Z := if 0 <=? i then of_option (mem !! Z.to_nat i) else Undef.
Definition store (mem : list Z) (i v : Z) : outcome (list Z) :=
  if (0 <=? i) && (i <? zlen mem) then Val (<[Z.to_nat i := v]> mem) else Undef.
(** [memmove(mem + dst, mem + src, n)]. *)
Definition memmove (mem : list Z) (dst src n : Z) : outcome (list Z) := data ← memread mem src n; memcpy mem dst data.

Lemma load_at p x r i : i = zlen p -> load (p ++ x :: r) i = Val x.
Proof.
  intros ->. unfold load. rewrite (proj2 (Z.leb_le 0 _)) by apply zlen_nonneg. unfold zlen. rewrite Nat2Z.id.
  by rewrite list_lookup_middle.
Qed.

Lemma store_at p x y r i : i = zlen p -> store (p ++ x :: r) i y = Val (p ++ y :: r).
Proof.
  intros ->. unfold store. rewrite zlen_app, zlen_cons. pose proof (zlen_nonneg p). pose proof (zlen_nonneg r).
  rewrite (proj2 (Z.leb_le 0 _)), (proj2 (Z.ltb_lt _ _)) by lia. cbn [andb]. f_equal. unfold zlen. rewrite Nat2Z.id.
  by rewrite insert_app_r_alt, Nat.sub_diag by lia.
Qed.

Lemma store_out mem i v : zlen mem <= i -> store mem i v = Undef.
Proof. intros Hi. unfold store. rewrite (proj2 (Z.ltb_ge _ _)) by done. by rewrite andb_false_r. Qed.

Lemma load_out mem i : zlen mem <= i -> load mem i = Undef.
Proof.
  intros Hi. unfold load. destruct (0 <=? i) eqn:E; [|done]. zbool. rewrite lookup_ge_None_2; [done|]. unfold zlen in Hi. lia.
Qed.

(** Part of a block. *)
Lemma memread_at p b r off n : off = zlen p -> n = zlen b -> memread (p ++ b ++ r) off n = Val b.
Proof.
  intros -> ->. pose proof (zlen_nonneg p). pose proof (zlen_nonneg b). pose proof (zlen_nonneg r).
  rewrite memread_Val by (rewrite ?zlen_app; lia). unfold slice. rewrite zdrop_app_ge, Z.sub_diag, zdrop_0 by lia.
  by rewrite ztake_app_le, ztake_ge by lia.
Qed.

(** A block as its first [n] cells and the others. *)
Lemma zsplit {A} n (l : list A) : 0 <= n <= zlen l -> exists p q, l = p ++ q /\ zlen p = n.
Proof. intros Hn. exists (ztake n l), (zdrop n l). split; [by rewrite ztake_zdrop|by apply zlen_ztake]. Qed.

Lemma ztake_app_exact {A} (p q : list A) n : n = zlen p -> ztake n (p ++ q) = p.
Proof. intros ->. rewrite ztake_app_le by lia. by apply ztake_ge. Qed.
Lemma zdrop_app_exact {A} (p q : list A) n : n = zlen p -> zdrop n (p ++ q) = q.
Proof. intros ->. rewrite zdrop_app_ge by lia. by rewrite Z.sub_diag, zdrop_0. Qed.

(** ** Moves *)

(** Towards the start, in ascending order: [mem[dst + i] = mem[src + i]] for [i] below [n]. *)
Fixpoint copy_down (n : nat) (mem : list Z) (dst src : Z) : outcome (list Z) :=
  match n with
  | O => Val mem
  | S n => v ← load mem src; mem ← store mem dst v; copy_down n mem (dst + 1) (src + 1)
  end.

(** Towards the end, in descending order: [mem[dst - i] = mem[src - i]]. *)
Fixpoint copy_up (n : nat) (mem : list Z) (dst src : Z) : outcome (list Z) :=
  match n with
  | O => Val mem
  | S n => v ← load mem src; mem ← store mem dst v; copy_up n mem (dst - 1) (src - 1)
  end.

(** The gap of cells [g] is overwritten by [d]; what is left behind depends on the lengths only. *)
Lemma copy_down_spec d : forall p g r dst src, dst = zlen p -> src = zlen p + zlen g ->
  exists rest, copy_down (length d) (p ++ g ++ d ++ r) dst src = Val (p ++ d ++ rest ++ r) /\ length rest = length g.
Proof.
  induction d as [|x d IH]; intros p g r dst src -> ->; cbn [length copy_down].
  - exists g. done.
  - rewrite app_assoc. cbn [app]. rewrite load_at by (by rewrite zlen_app). rewrite bind_Val, <- app_assoc.
    destruct g as [|y g].
    + cbn [app]. rewrite store_at by done. rewrite bind_Val. rewrite (cons_middle x p (d ++ r)), app_assoc.
      destruct (IH (p ++ [x]) [] r (zlen p + 1) (zlen p + zlen (@nil Z) + 1)) as (rest & E & Hl); [by rewrite zlen_app| |].
      { rewrite zlen_app, !zlen_nil. change (zlen [x]) with 1. lia. }
      cbn [app] in E. rewrite E. exists rest. by rewrite <- app_assoc.
    + cbn [app]. rewrite store_at by done. rewrite bind_Val.
      replace (p ++ x :: g ++ x :: d ++ r) with ((p ++ [x]) ++ (g ++ [x]) ++ d ++ r) by (rewrite <- ?app_assoc; cbn [app]; rewrite <- ?app_assoc; reflexivity).
      destruct (IH (p ++ [x]) (g ++ [x]) r (zlen p + 1) (zlen p + zlen (y :: g) + 1)) as (rest & E & Hl).
      { by rewrite zlen_app. }
      { rewrite !zlen_app, zlen_cons. change (zlen [x]) with 1. lia. }
      rewrite E. exists rest. rewrite <- app_assoc. split; [done|]. rewrite Hl, length_app. cbn. lia.
Qed.

Lemma zdrop_after {A} (p : list A) x r n : zlen p < n -> zdrop n (p ++ x :: r) = zdrop (n - zlen p - 1) r.
Proof.
  intros Hn. rewrite (cons_middle x p r), app_assoc, zdrop_app_ge by (rewrite zlen_app; change (zlen [x]) with 1; lia).
  rewrite zlen_app. change (zlen [x]) with 1. f_equal. lia.
Qed.

(** Every cell, when the source is there. *)
Lemma copy_down_exact n : forall mem dst src, 0 <= dst <= src -> src + Z.of_nat n <= zlen mem ->
  copy_down n mem dst src = Val (ztake dst mem ++ ztake (Z.of_nat n) (zdrop src mem) ++ zdrop (dst + Z.of_nat n) mem).
Proof.
  induction n as [|n IH]; intros mem dst src Hd Hs.
  - cbn [copy_down Z.of_nat]. rewrite Z.add_0_r, (ztake_0 0) by done. cbn [app]. by rewrite ztake_zdrop.
  - cbn [copy_down]. destruct (zsplit src mem) as (p & [|x r] & E1 & Hp); [lia|rewrite E1, app_nil_r in Hs; lia|].
    destruct (zsplit dst mem) as (q & [|y t] & E2 & Hq); [lia|rewrite E2, app_nil_r in Hs; lia|].
    assert (zlen mem = zlen q + (1 + zlen t)) as Hl by (by rewrite E2, zlen_app, zlen_cons).
    assert (zdrop src mem = x :: r) as Hx by (rewrite E1; by apply zdrop_app_exact).
    assert (zdrop (src + 1) mem = r) as Hr by (rewrite E1, zdrop_after by lia; apply zdrop_0; lia).
    assert (ztake dst mem = q) as Hq' by (rewrite E2; by apply ztake_app_exact).
    rewrite E1 at 1. rewrite load_at, bind_Val, E2, store_at, bind_Val by done.
    rewrite IH, <- E2, Hq', Hx by (rewrite ?zlen_app, ?zlen_cons; lia). f_equal.
    assert (ztake (dst + 1) (q ++ x :: t) = q ++ [x]) as -> by (rewrite (cons_middle x q t), app_assoc; apply ztake_app_exact; rewrite zlen_app; change (zlen [x]) with 1; lia).
    rewrite <- app_assoc, (zdrop_after q x t (src + 1)), (zdrop_after q x t (dst + 1 + Z.of_nat n)) by lia.
    rewrite <- (zdrop_after q y t (src + 1)), <- (zdrop_after q y t (dst + 1 + Z.of_nat n)), <- E2, Hr by lia.
    unfold ztake. rewrite !Nat2Z.id. cbn [take app]. do 3 f_equal. apply (f_equal (fun k => zdrop k mem)). lia.
Qed.

(** A move that reads past the block. *)
Lemma copy_down_out n : forall mem dst src, 0 <= dst <= src -> src <= zlen mem -> zlen mem < src + Z.of_nat n -> copy_down n mem dst src = Undef.
Proof.
  induction n as [|n IH]; intros mem dst src Hd Hs Hn; [lia|]. cbn [copy_down].
  destruct (decide (src = zlen mem)) as [->|Hne]; [by rewrite load_out|].
  destruct (zsplit src mem) as (p & [|x q] & -> & Hp); [lia|rewrite app_nil_r in *; lia|]. rewrite load_at by done. rewrite bind_Val.
  unfold store. rewrite (proj2 (Z.leb_le 0 dst)), (proj2 (Z.ltb_lt dst _)) by lia. cbn [andb]. rewrite bind_Val. 
  apply IH; unfold zlen in *; rewrite ?length_insert; lia.
Qed.

Lemma copy_up_spec d : forall p g r dst src, src = zlen p + zlen d - 1 -> dst = src + zlen g ->
  exists rest, copy_up (length d) (p ++ d ++ g ++ r) dst src = Val (p ++ rest ++ d ++ r) /\ length rest = length g.
Proof.
  induction d as [|x d IH] using rev_ind; intros p g r dst src -> ->.
  - exists g. done.
  - rewrite length_app. cbn [length]. rewrite Nat.add_1_r. cbn [copy_up]. rewrite <- app_assoc. cbn [app].
    rewrite zlen_app. change (zlen [x]) with 1.
    rewrite (app_assoc p), load_at by (rewrite zlen_app; lia). rewrite bind_Val.
    destruct g as [|y g _] using rev_ind.
    + rewrite zlen_nil. cbn [app]. rewrite store_at by (rewrite zlen_app; lia). rewrite bind_Val, <- app_assoc.
      destruct (IH p [] (x :: r) (zlen p + (zlen d + 1) - 1 + 0 - 1) (zlen p + (zlen d + 1) - 1 - 1)) as (rest & E & Hl); [lia|change (zlen (@nil Z)) with 0; lia|].
      cbn [app] in E. rewrite E. exists rest. by rewrite <- app_assoc.
    + replace ((p ++ d) ++ x :: (g ++ [y]) ++ r) with ((p ++ d ++ x :: g) ++ y :: r) by (rewrite <- ?app_assoc; cbn [app]; rewrite <- ?app_assoc; reflexivity).
      rewrite store_at by (rewrite !zlen_app, !zlen_cons; change (zlen (@nil Z)) with 0; lia). rewrite bind_Val.
      replace ((p ++ d ++ x :: g) ++ x :: r) with (p ++ d ++ (x :: g) ++ x :: r) by (rewrite <- ?app_assoc; cbn [app]; rewrite <- ?app_assoc; reflexivity).
      destruct (IH p (x :: g) (x :: r) (zlen p + (zlen d + 1) - 1 + zlen (g ++ [y]) - 1) (zlen p + (zlen d + 1) - 1 - 1)) as (rest & E & Hl); [lia| |].
      { rewrite zlen_app, !zlen_cons. change (zlen (@nil Z)) with 0. lia. }
      rewrite E. exists rest. rewrite <- app_assoc. split; [done|]. rewrite Hl, length_app. cbn. lia.
Qed.

(** A move whose first store is past the block. *)
Lemma copy_up_out n mem dst src : (0 < n)%nat -> 0 <= src -> zlen mem <= dst -> copy_up n mem dst src = Undef.
Proof.
  intros Hn Hs Hd. destruct n as [|n]; [lia|]. cbn [copy_up]. destruct (load mem src) as [v|]; [|done]. rewrite bind_Val. by rewrite store_out.
Qed.

(*@ sese/text/Algorithm.h 49-54 LeftShiftElement *)
Definition LeftShiftElement (header : list Z) (len begin count : Z) : outcome (list Z) :=
  copy_down (Z.to_nat (len - begin)) header begin (begin + count).

(*@ sese/text/Algorithm.h 63-68 RightShiftElement *)
Definition RightShiftElement (header : list Z) (len begin count : Z) : outcome (list Z) :=
  copy_up (Z.to_nat (len - begin)) header (len - 1 + count) (len - 1).

(** ** Reversal in place *)

(** [n] swaps of the cells at [i] and [j], [i + 1] and [j - 1], and so on. *)
Fixpoint swap_loop (n : nat) (mem : list Z) (i j : Z) : outcome (list Z) :=
  match n with
  | O => Val mem
  | S n => x ← load mem i; y ← load mem j; mem ← store mem i y; mem ← store mem j x; swap_loop n mem (i + 1) (j - 1)
  end.

Lemma swap_loop_spec k : forall m p q, (length m <= k)%nat ->
  swap_loop (length m / 2) (p ++ m ++ q) (zlen p) (zlen p + zlen m - 1) = Val (p ++ rev m ++ q).
Proof.
  induction k as [|k IH]; intros m p q Hk; [by destruct m; [|cbn in Hk; lia]|].
  destruct m as [|x m]; [done|]. destruct m as [|y m _] using rev_ind; [done|].
  assert (length (x :: m ++ [y]) / 2 = S (length m / 2))%nat as ->.
  { cbn [length]. rewrite length_app. cbn [length]. replace (S (length m + 1))%nat with (1 * 2 + length m)%nat by lia. by rewrite Nat.div_add_l. }
  cbn [swap_loop app]. rewrite (load_at p x ((m ++ [y]) ++ q) (zlen p) eq_refl), bind_Val.
  replace (p ++ x :: (m ++ [y]) ++ q) with ((p ++ x :: m) ++ y :: q) by (rewrite <- ?app_assoc; cbn [app]; rewrite <- ?app_assoc; reflexivity).
  assert (zlen p + zlen (x :: m ++ [y]) - 1 = zlen (p ++ x :: m)) as ->.
  { rewrite !zlen_cons, !zlen_app, !zlen_cons. change (zlen (@nil Z)) with 0. lia. }
  rewrite load_at by done. rewrite bind_Val, <- app_assoc. cbn [app]. rewrite store_at by done. rewrite bind_Val.
  replace (p ++ y :: m ++ y :: q) with ((p ++ y :: m) ++ y :: q) by (rewrite <- ?app_assoc; cbn [app]; rewrite <- ?app_assoc; reflexivity).
  rewrite store_at by (by rewrite !zlen_app, !zlen_cons). rewrite bind_Val.
  replace ((p ++ y :: m) ++ x :: q) with ((p ++ [y]) ++ m ++ x :: q) by (rewrite <- ?app_assoc; cbn [app]; rewrite <- ?app_assoc; reflexivity).
  replace (zlen p + 1) with (zlen (p ++ [y])) by (by rewrite zlen_app).
  replace (zlen (p ++ x :: m) - 1) with (zlen (p ++ [y]) + zlen m - 1) by (rewrite !zlen_app, !zlen_cons; change (zlen (@nil Z)) with 0; lia).
  rewrite IH by (cbn [length] in Hk; rewrite length_app in Hk; cbn in Hk; lia). cbn [rev app]. rewrite rev_app_distr. cbn [rev app].
  by rewrite <- !app_assoc.
Qed.

(** ** Stripping *)

Section Strip.
Context (f : Z -> bool).

Fixpoint lstrip (l : list Z) : list Z := match l with x :: r => if f x then lstrip r else l | [] => [] end.
Definition rstrip (l : list Z) : list Z := rev (lstrip (rev l)).

Lemma lstrip_spec l : exists w, l = w ++ lstrip l /\ Forall (fun x => f x = true) w /\ match lstrip l with x :: _ => f x = false | [] => True end.
Proof.
  induction l as [|x l (w & E & Hw & Hh)]; [by exists []|]. cbn [lstrip]. destruct (f x) eqn:Ex.
  - exists (x :: w). cbn [app]. rewrite <- E. split; [done|]. split; [by constructor|done].
  - by exists [].
Qed.

Lemma rstrip_spec l : exists w, l = rstrip l ++ w /\ Forall (fun x => f x = true) w /\ match rev (rstrip l) with x :: _ => f x = false | [] => True end.
Proof.
  destruct (lstrip_spec (rev l)) as (w & E & Hw & Hh). exists (rev w). unfold rstrip. rewrite rev_involutive.
  split; [|split; [|done]].
  - rewrite <- rev_app_distr, <- E. by rewrite rev_involutive.
  - apply List.Forall_forall. intros x Hx. apply List.in_rev in Hx. rewrite List.Forall_forall in Hw. by apply Hw.
Qed.
End Strip.
