(* ===== verification/StringBuffer.v ===== *)
(** * The string buffer

    Models [sese/text/AbstractStringBuffer.cpp], whose operations [StringBuilder] inherits and
    [StringBuffer] calls under a mutex: a block of characters with its capacity and length. An
    index is an [int] and is compared as an unsigned number; the capacity is below [2 ^ 31]. *)

From S2P Require Import Prelude Text Cells.

(*@ sese/text/AbstractStringBuffer.h 58-60 AbstractStringBuffer *)
Record t := MkBuffer { cap : Z; len : Z; buffer : bytes }.

Definition FACTOR : Z := 1024.
(** The capacity for [n] characters and more. *)
Definition room_for (n : Z) : Z := (n / FACTOR + 1) * FACTOR.

(*@ sese/text/AbstractStringBuffer.cpp 27-31 AbstractStringBuffer::AbstractStringBuffer *)
Definition create (cap : Z) : t := MkBuffer cap 0 (repeat 0 (Z.to_nat cap)).
(*@ sese/text/AbstractStringBuffer.cpp 33-39 AbstractStringBuffer::AbstractStringBuffer *)
Definition of_cstr (s : bytes) : t :=
  let len := zlen (cstr s) in
  let cap := room_for len in
  MkBuffer cap len (cstr s ++ repeat 0 (Z.to_nat (cap - len))).
(*@ sese/text/AbstractStringBuffer.cpp 47-53 AbstractStringBuffer::AbstractStringBuffer *)
Definition copy (b : t) : outcome t :=
  data ← memread (buffer b) 0 (len b);
  Val (MkBuffer (cap b) (len b) (data ++ repeat 0 (Z.to_nat (cap b - len b)))).
(*@ sese/text/AbstractStringBuffer.cpp 55-63 AbstractStringBuffer::AbstractStringBuffer *)
(** The new object and the one it was moved from, whose block is the null pointer. *)
Definition move (b : t) : t * t := (b, MkBuffer 0 0 []).

(*@ sese/text/AbstractStringBuffer.cpp 126-132 AbstractStringBuffer::expansion *)
Definition expansion (new_size : Z) (b : t) : outcome t :=
  data ← memread (buffer b) 0 (len b);
  mem ← memcpy (malloc new_size) 0 data;
  Val (MkBuffer new_size (len b) mem).

(*@ sese/text/AbstractStringBuffer.cpp 96-100 AbstractStringBuffer::append *)
Definition ensure (l : Z) (b : t) : outcome t :=
  if u64 (cap b - len b) <? l then expansion (room_for (l + len b)) b else Val b.

(*@ sese/text/AbstractStringBuffer.cpp 95-103 AbstractStringBuffer::append *)
(** The overloads for strings and views pass their data and length. *)
Definition append (data : bytes) (b : t) : outcome t :=
  b ← ensure (zlen data) b;
  mem ← memcpy (buffer b) (len b) data;
  Val (MkBuffer (cap b) (len b + zlen data) mem).
(*@ sese/text/AbstractStringBuffer.cpp 105-108 AbstractStringBuffer::append *)
Definition append_cstr (str : bytes) (b : t) : outcome t := append (cstr str) b.
(*@ sese/text/AbstractStringBuffer.cpp 285-287 AbstractStringBuffer::append *)
Definition append_char (ch : byte) (b : t) : outcome t := append [ch] b.

(*@ sese/text/AbstractStringBuffer.cpp 134-137 AbstractStringBuffer::toString *)
Definition toString (b : t) : outcome bytes := memread (buffer b) 0 (len b).
(*@ sese/text/AbstractStringBuffer.cpp 143-146 AbstractStringBuffer::clear *)
Definition clear (b : t) : t := MkBuffer (cap b) 0 (buffer b).

(*@ sese/text/AbstractStringBuffer.cpp 168-170 AbstractStringBuffer::endsWith *)
Definition ends_with (suffix : bytes) (b : t) : outcome bool := s ← toString b; Val (Text.endsWith s suffix).
(*@ sese/text/AbstractStringBuffer.cpp 172-174 AbstractStringBuffer::startsWith *)
Definition starts_with (prefix : bytes) (b : t) : outcome bool := s ← toString b; Val (Text.startsWith s prefix).

(*@ sese/text/AbstractStringBuffer.cpp 177-181 AbstractStringBuffer::getCharAt *)
(** The test is against the capacity. *)
Definition getCharAt (index : Z) (b : t) : outcome byte := if u32 index <? cap b then load (buffer b) index else Val 0.
(*@ sese/text/AbstractStringBuffer.cpp 183-188 AbstractStringBuffer::setChatAt *)
Definition setChatAt (index : Z) (ch : byte) (b : t) : outcome (bool * t) :=
  if u32 index <? cap b then mem ← store (buffer b) index ch; Val (true, MkBuffer (cap b) (len b) mem) else Val (false, b).

(*@ sese/text/AbstractStringBuffer.cpp 190-196 AbstractStringBuffer::reverse *)
Definition reverse (b : t) : outcome t :=
  mem ← swap_loop (Z.to_nat (len b) / 2) (buffer b) 0 (len b - 1);
  Val (MkBuffer (cap b) (len b) mem).

(*@ sese/text/AbstractStringBuffer.cpp 198-207 AbstractStringBuffer::delCharAt *)
Definition delCharAt (index : Z) (b : t) : outcome (bool * t) :=
  if u32 index <? len b then
    mem ← copy_down (Z.to_nat (len b - 1 - index)) (buffer b) index (index + 1);
    mem ← store mem (len b - 1) 0;
    Val (true, MkBuffer (cap b) (len b - 1) mem)
  else Val (false, b).

(*@ sese/text/AbstractStringBuffer.cpp 209-220 AbstractStringBuffer::del *)
(** [start + l] is a sum of two [int]s. *)
Definition del (start l : Z) (b : t) : outcome (bool * t) :=
  if start <? 0 then Val (false, b)
  else if 2 ^ 31 <=? start + l then Undef
  else if len b <? u64 (start + l) then Val (false, b)
  else
    mem ← memmove (buffer b) start (start + l) (len b - start - l);
    mem ← store mem (len b - l) 0;
    Val (true, MkBuffer (cap b) (len b - l) mem).

(*@ sese/text/AbstractStringBuffer.cpp 222-235 AbstractStringBuffer::insertAt *)
(** All the [len] characters are moved from [index], not only those after it. *)
Definition insertAt (index : Z) (data : bytes) (b : t) : outcome (bool * t) :=
  if cap b <=? u64 index then Val (false, b)
  else
    b ← ensure (zlen data) b;
    mem ← memmove (buffer b) (index + zlen data) index (len b);
    mem ← memcpy mem index data;
    Val (true, MkBuffer (cap b) (len b + zlen data) mem).
(*@ sese/text/AbstractStringBuffer.cpp 237-240 AbstractStringBuffer::insertAt *)
Definition insertAt_cstr (index : Z) (str : bytes) (b : t) : outcome (bool * t) := insertAt index (cstr str) b.

(*@ sese/text/AbstractStringBuffer.cpp 261-268 AbstractStringBuffer::trim *)
(** The blanks at the end are overwritten by zeros and counted. *)
Fixpoint tail_loop (n : nat) (mem : bytes) (last w : Z) : outcome (bytes * Z) :=
  match n with
  | O => Val (mem, w)
  | S n =>
      ch ← load mem last;
      if isSpace ch then mem ← store mem last 0; tail_loop n mem (last - 1) (w + 1) else Val (mem, w)
  end.

(*@ sese/text/AbstractStringBuffer.cpp 271-277 AbstractStringBuffer::trim *)
(** The index of the first other character, zero if there is none. *)
Fixpoint head_loop (n : nat) (mem : bytes) (i : Z) : outcome Z :=
  match n with
  | O => Val 0
  | S n => ch ← load mem i; if isSpace ch then head_loop n mem (i + 1) else Val i
  end.

(*@ sese/text/AbstractStringBuffer.cpp 259-283 AbstractStringBuffer::trim *)
Definition trim (b : t) : outcome t :=
  '(mem, w) ← tail_loop (Z.to_nat (len b)) (buffer b) (len b - 1) 0;
  let len := len b - w in
  w ← head_loop (Z.to_nat len) mem 0;
  mem ← copy_down (Z.to_nat (len - w)) mem 0 w;
  mem ← memcpy mem (len - w) (repeat 0 (Z.to_nat (w + 1)));
  Val (MkBuffer (cap b) (len - w) mem).

(** ** What the operations mean *)

(** A buffer of [c] characters that holds [s], with [g] behind it. *)
Definition holds (b : t) (s : bytes) (c : Z) : Prop :=
  cap b = c /\ c < 2 ^ 31 /\ len b = zlen s /\ exists g, buffer b = s ++ g /\ zlen s + zlen g = c.

Inductive Op :=
| Append (data : bytes) | Clear | Reverse | SetAt (index : Z) (ch : byte) | DelCharAt (index : Z) | Del (start l : Z)
| InsertAt (index : Z) (data : bytes) | Trim.

Definition exec (op : Op) (b : t) : outcome (bool * t) :=
  let always m := b ← m; Val (true, b) in
  match op with
  | Append data => always (append data b)
  | Clear => Val (true, clear b)
  | Reverse => always (reverse b)
  | SetAt index ch => setChatAt index ch b
  | DelCharAt index => delCharAt index b
  | Del start l => del start l b
  | InsertAt index data => insertAt index data b
  | Trim => always (trim b)
  end.

(** The operations on a string in a block of [c] characters; [None] when the code accesses
    a character outside the block, or overflows an [int]. *)
Definition grown (l n c : Z) : Z := if c - n <? l then room_for (l + n) else c.
Definition spec (op : Op) (s : bytes) (c : Z) : option (bool * bytes * Z) :=
  let n := zlen s in
  match op with
  | Append data => Some (true, s ++ data, grown (zlen data) n c)
  | Clear => Some (true, [], c)
  | Reverse => Some (true, rev s, c)
  | SetAt index ch => Some (bool_decide (0 <= index < c), if bool_decide (0 <= index < n) then ztake index s ++ ch :: zdrop (index + 1) s else s, c)
  | DelCharAt index => if bool_decide (0 <= index < n) then Some (true, ztake index s ++ zdrop (index + 1) s, c) else Some (false, s, c)
  | Del start l =>
      (* the end of the range is not an int *)
      if bool_decide (0 <= start /\ 2 ^ 31 <= start + l) then None
      else if bool_decide (0 <= start /\ start + l <= n) then
        (* the character after the end is set to zero *)
        if bool_decide (n - l < c) then Some (true, ztake start s ++ zdrop (start + l) s, c) else None
      else Some (false, s, c)
  | InsertAt index data =>
      if bool_decide (c <= index) then Some (false, s, c)
      else
        let c := grown (zlen data) n c in
        if bool_decide (index + zlen data + n <= c) then Some (true, ztake index s ++ data ++ zdrop index s, c) else None
  | Trim =>
      let r := rstrip isSpace s in
      if bool_decide (zlen r < c) then Some (true, lstrip isSpace r, c) else None
  end.

(** Arguments for which the code does what its name says: lengths that fit an [int], an index within the
    string, and no negative length to delete. *)
Definition op_ok (op : Op) (s : bytes) (c : Z) : Prop :=
  match op with
  | Append data => zlen s + zlen data < 2 ^ 30
  | SetAt index _ | DelCharAt index => - 2 ^ 31 <= index < 2 ^ 31
  | Del start l => - 2 ^ 31 <= start < 2 ^ 31 /\ 0 <= l < 2 ^ 31
  | InsertAt index data => 0 <= index <= zlen s /\ zlen s + zlen data < 2 ^ 30
  | Clear | Reverse | Trim => True
  end.

Lemma room_for_bound n : 0 <= n -> n < room_for n <= n + 1024.
Proof. unfold room_for, FACTOR. intros Hn. dlia. Qed.

Lemma buffer_ensure_spec b s c l : holds b s c -> 0 <= l -> zlen s + l < 2 ^ 30 ->
  exists b', ensure l b = Val b' /\ holds b' s (grown l (zlen s) c) /\ zlen s + l <= grown l (zlen s) c.
Proof.
  intros (Hcap & Hmax & Hlen & g & Hb & Hg) Hl Hsl. pose proof (zlen_nonneg s). pose proof (zlen_nonneg g). unfold ensure, grown.
  rewrite Hcap, Hlen, wrap_small by (unfold is_u; lia). destruct (c - zlen s <? l) eqn:E; zbool.
  - pose proof (room_for_bound (l + zlen s) ltac:(lia)). unfold expansion. rewrite Hb, Hlen, (memread_at [] s g) by done. rewrite bind_Val.
    assert (zlen (malloc (room_for (l + zlen s))) = room_for (l + zlen s)) as Hm by (apply zlen_malloc; lia).
    pose proof (memcpy_at [] (malloc (room_for (l + zlen s))) s 0 eq_refl ltac:(lia)) as Ec. cbn [app] in Ec. rewrite Ec, bind_Val.
    eexists. split; [done|]. split; [|lia]. split; [done|]. split; [lia|]. split; [done|]. eexists. split; [done|]. rewrite zlen_zdrop by lia. lia.
  - exists b. split; [done|]. split; [|lia]. split; [done|]. split; [done|]. split; [done|]. by exists g.
Qed.

Lemma buffer_append_spec b s c data : holds b s c -> zlen s + zlen data < 2 ^ 30 ->
  exists b', append data b = Val b' /\ holds b' (s ++ data) (grown (zlen data) (zlen s) c).
Proof.
  intros Hh Hd. pose proof (zlen_nonneg data). destruct (buffer_ensure_spec b s c (zlen data) Hh) as (b1 & E & (Hcap & Hmax & Hlen & g & Hb & Hg) & Hc); [lia|done|].
  unfold append. rewrite E, bind_Val, Hb, memcpy_at by lia. rewrite bind_Val. eexists. split; [done|].
  split; [done|]. split; [done|]. split; [cbn; rewrite zlen_app; lia|]. eexists. split; [done|]. rewrite zlen_app, zlen_zdrop by lia. lia.
Qed.

Lemma buffer_reverse_spec b s c : holds b s c -> exists b', reverse b = Val b' /\ holds b' (rev s) c.
Proof.
  intros (Hcap & Hmax & Hlen & g & Hb & Hg). unfold reverse. rewrite Hb, Hlen. replace (Z.to_nat (zlen s)) with (length s) by (unfold zlen; lia).
  pose proof (swap_loop_spec (length s) s [] g (le_n _)) as E. cbn [app] in E. change (zlen (@nil Z)) with 0 in E. rewrite Z.add_0_l in E. rewrite E, bind_Val.
  eexists. split; [done|]. split; [done|]. split; [done|]. split; [by rewrite zlen_rev|]. exists g. by rewrite zlen_rev.
Qed.

Lemma u32_index i c : - 2 ^ 31 <= i < 2 ^ 31 -> 0 <= c < 2 ^ 31 -> (u32 i <? c) = bool_decide (0 <= i < c).
Proof.
  intros Hi Hc. destruct (decide (0 <= i)).
  - rewrite wrap_small by (unfold is_u; lia). case_bool_decide; [apply Z.ltb_lt|apply Z.ltb_ge]; lia.
  - rewrite bool_decide_eq_false_2 by lia. apply Z.ltb_ge. unfold wrap. 
    assert (i mod 2 ^ 32 = i + 2 ^ 32) as ->; [|lia]. rewrite <- (Z.mod_small (i + 2 ^ 32) (2 ^ 32)) by lia. rewrite <- (Z.mod_add i 1) by lia. f_equal; lia.
Qed.

Lemma holds_intro c k mem s g : k = zlen s -> mem = s ++ g -> c < 2 ^ 31 -> zlen s + zlen g = c -> holds (MkBuffer c k mem) s c.
Proof. intros -> -> Hc Hg. split; [done|]. split; [done|]. split; [done|]. by exists g. Qed.

(** A string around the character at an index. *)
Lemma buffer_split_at (s : bytes) i : 0 <= i < zlen s -> exists p x r, s = p ++ x :: r /\ zlen p = i.
Proof.
  intros Hi. destruct (zsplit i s) as (p & [|x r] & -> & Hp); [lia|rewrite app_nil_r in Hi; lia|]. by exists p, x, r.
Qed.

Lemma buffer_zdrop_after (p : bytes) x r i : zlen p = i -> zdrop (i + 1) (p ++ x :: r) = r.
Proof. intros <-. rewrite cons_middle, app_assoc. apply zdrop_app_exact. by rewrite zlen_app. Qed.

Lemma setChatAt_spec b s c index ch : holds b s c -> - 2 ^ 31 <= index < 2 ^ 31 ->
  exists b', setChatAt index ch b = Val (bool_decide (0 <= index < c), b') /\
    holds b' (if bool_decide (0 <= index < zlen s) then ztake index s ++ ch :: zdrop (index + 1) s else s) c.
Proof.
  intros (Hcap & Hmax & Hlen & g & Hb & Hg) Hi. pose proof (zlen_nonneg s). pose proof (zlen_nonneg g). destruct b as [cap_ len_ mem]. cbn [cap len buffer] in *. subst.
  unfold setChatAt. cbn [cap len buffer]. rewrite u32_index by lia. case_bool_decide as Hc; cycle 1.
  { eexists. split; [done|]. rewrite bool_decide_eq_false_2 by lia. by eapply holds_intro. }
  case_bool_decide as Hs.
  - destruct (buffer_split_at s index Hs) as (p & x & r & -> & Hp). rewrite <- app_assoc. cbn [app]. rewrite store_at by done. rewrite bind_Val.
    eexists. split; [done|]. rewrite ztake_app_exact, buffer_zdrop_after by done. rewrite !zlen_app, !zlen_cons in *. apply (holds_intro _ _ _ _ g); rewrite ?zlen_app, ?zlen_cons, <- ?app_assoc; done || lia.
  - destruct (buffer_split_at (s ++ g) index) as (p & x & r & E & Hp); [rewrite zlen_app; lia|].
    assert (exists q, p = s ++ q /\ g = q ++ x :: r) as (q & -> & ->).
    { apply app_eq_inv in E as [(k & Ek & Ep)|(k & Ek & Ep)]; [|exists k; done].
      assert (zlen s = zlen p + zlen k) by (rewrite Ek; apply zlen_app). pose proof (zlen_nonneg k). destruct k; [|rewrite zlen_cons in *; pose proof (zlen_nonneg k); lia].
      rewrite app_nil_r in Ek. subst. exists []. by rewrite app_nil_r. }
    rewrite app_assoc, store_at by done. rewrite bind_Val. eexists. split; [done|]. rewrite <- app_assoc.
    apply (holds_intro _ _ _ _ (q ++ ch :: r)); try done. rewrite !zlen_app, !zlen_cons in *. lia.
Qed.

Lemma delCharAt_spec b s c index : holds b s c -> - 2 ^ 31 <= index < 2 ^ 31 ->
  exists b', delCharAt index b = Val (bool_decide (0 <= index < zlen s), b') /\
    holds b' (if bool_decide (0 <= index < zlen s) then ztake index s ++ zdrop (index + 1) s else s) c.
Proof.
  intros (Hcap & Hmax & Hlen & g & Hb & Hg) Hi. pose proof (zlen_nonneg s). pose proof (zlen_nonneg g). destruct b as [cap_ len_ mem]. cbn [cap len buffer] in *. subst.
  unfold delCharAt. cbn [cap len buffer]. rewrite u32_index by lia. case_bool_decide as Hs; cycle 1.
  { eexists. split; [done|]. by eapply holds_intro. }
  destruct (buffer_split_at s index Hs) as (p & x & r & -> & Hp). rewrite ztake_app_exact, buffer_zdrop_after by done. rewrite zlen_app, zlen_cons in *.
  replace (Z.to_nat (zlen p + (1 + zlen r) - 1 - index)) with (length r) by (unfold zlen in *; lia).
  replace ((p ++ x :: r) ++ g) with (p ++ [x] ++ r ++ g) by (by rewrite <- app_assoc).
  destruct (copy_down_spec r p [x] g index (index + 1)) as (rest & E & Hl); [done|change (zlen [x]) with 1; lia|].
  rewrite E, bind_Val. destruct rest as [|y [|]]; try done. rewrite app_assoc. cbn [app].
  rewrite store_at by (rewrite zlen_app; lia). rewrite bind_Val. eexists. split; [done|].
  apply (holds_intro _ _ _ _ (0 :: g)); rewrite ?zlen_app, ?zlen_cons; done || lia.
Qed.

Lemma del_spec b s c start l : holds b s c -> - 2 ^ 31 <= start < 2 ^ 31 -> 0 <= l < 2 ^ 31 ->
  match spec (Del start l) s c with
  | Some (ok, s', c') => exists b', del start l b = Val (ok, b') /\ holds b' s' c'
  | None => del start l b = Undef
  end.
Proof.
  intros (Hcap & Hmax & Hlen & g & Hb & Hg) Hs Hl. pose proof (zlen_nonneg s). pose proof (zlen_nonneg g). destruct b as [cap_ len_ mem]. cbn [cap len buffer] in *. subst.
  unfold del. cbn [spec cap len buffer]. destruct (start <? 0) eqn:E0; zbool.
  { rewrite !bool_decide_eq_false_2 by lia. eexists. split; [done|]. by eapply holds_intro. }
  destruct (2 ^ 31 <=? start + l) eqn:Eo; zbool; [by rewrite bool_decide_eq_true_2 by lia|]. rewrite (bool_decide_eq_false_2 (_ /\ 2 ^ 31 <= _)) by lia.
  rewrite wrap_small by (unfold is_u; lia). destruct (zlen s <? start + l) eqn:E1; zbool.
  { rewrite bool_decide_eq_false_2 by lia. eexists. split; [done|]. by eapply holds_intro. }
  rewrite bool_decide_eq_true_2 by lia.
  destruct (zsplit start s) as (p & q & -> & Hp); [lia|]. rewrite zlen_app in *. destruct (zsplit l q) as (m & r & -> & Hm); [lia|]. rewrite zlen_app in *.
  rewrite ztake_app_exact, app_assoc, zdrop_app_exact by (rewrite ?zlen_app; lia). unfold memmove.
  replace (((p ++ m) ++ r) ++ g) with ((p ++ m) ++ r ++ g) by (by rewrite <- !app_assoc).
  rewrite (memread_at (p ++ m) r g) by (rewrite ?zlen_app; lia). rewrite bind_Val, <- app_assoc, memcpy_at by (rewrite ?zlen_app; pose proof (zlen_nonneg g); lia).
  rewrite bind_Val.
  assert (exists h, zdrop (zlen r) (m ++ r ++ g) = h /\ zlen h = zlen m + zlen g) as (h & -> & Hh).
  { eexists. split; [done|]. rewrite zlen_zdrop; rewrite !zlen_app; pose proof (zlen_nonneg m); pose proof (zlen_nonneg r); lia. }
  case_bool_decide as Hc.
  - destruct h as [|y h]; [rewrite zlen_nil in Hh; lia|]. rewrite store_at by (rewrite zlen_app; lia). rewrite bind_Val. eexists. split; [done|].
    apply (holds_intro _ _ _ _ (0 :: h)); rewrite ?zlen_app, ?zlen_cons in *; done || lia.
  - by rewrite store_out by (rewrite !zlen_app, Hh; lia).
Qed.

Lemma insertAt_spec b s c index data : holds b s c -> 0 <= index <= zlen s -> zlen s + zlen data < 2 ^ 30 ->
  match spec (InsertAt index data) s c with
  | Some (ok, s', c') => exists b', insertAt index data b = Val (ok, b') /\ holds b' s' c'
  | None => insertAt index data b = Undef
  end.
Proof.
  intros Hh Hi Hd. pose proof (proj1 Hh) as Hcap. pose proof (zlen_nonneg data). unfold insertAt. cbn [spec]. rewrite Hcap, wrap_small by (unfold is_u; lia).
  case_bool_decide as Hc. { rewrite (proj2 (Z.leb_le _ _)) by done. by exists b. }
  rewrite (proj2 (Z.leb_gt _ _)) by lia. cbv zeta.
  destruct (buffer_ensure_spec b s c (zlen data) Hh) as (b1 & E & (Hcap1 & Hmax & Hlen & g & Hb & Hg) & Hgr); [lia|done|]. rewrite E, bind_Val.
  set (c' := grown (zlen data) (zlen s) c) in *. destruct (zsplit index s) as (p & q & -> & Hp); [lia|]. rewrite zlen_app in *. rewrite Hb, Hlen, Hcap1, <- app_assoc.
  case_bool_decide as Hfit.
  - destruct (zsplit (zlen p) g) as (g1 & g2 & -> & Hg1); [pose proof (zlen_nonneg p); lia|]. rewrite zlen_app in Hg.
    unfold memmove. replace (p ++ q ++ g1 ++ g2) with (p ++ (q ++ g1) ++ g2) by (by rewrite <- !app_assoc).
    rewrite (memread_at p (q ++ g1) g2) by (rewrite ?zlen_app; lia). rewrite bind_Val.
    destruct (zsplit (zlen data) ((q ++ g1) ++ g2)) as (a & rest & Ea & Ha); [rewrite !zlen_app; pose proof (zlen_nonneg q); lia|].
    assert (zlen rest = zlen (q ++ g1) + zlen g2 - zlen data) as Hrest.
    { pose proof (f_equal zlen Ea) as El. rewrite zlen_app in El. rewrite (zlen_app a) in El. lia. }
    rewrite Ea, app_assoc, memcpy_at by (rewrite ?zlen_app in *; lia). rewrite bind_Val.
    replace (((p ++ a) ++ q ++ g1) ++ zdrop (zlen (q ++ g1)) rest) with (p ++ a ++ ((q ++ g1) ++ zdrop (zlen (q ++ g1)) rest)) by (by rewrite <- !app_assoc).
    rewrite memcpy_over by lia. rewrite bind_Val. eexists. split; [done|]. rewrite ztake_app_exact, zdrop_app_exact by done.
    apply (holds_intro _ _ _ _ (g1 ++ zdrop (zlen (q ++ g1)) rest)); [rewrite !zlen_app; lia|by rewrite <- !app_assoc|done|].
    rewrite !zlen_app, zlen_zdrop; rewrite ?zlen_app in *; pose proof (zlen_nonneg q); pose proof (zlen_nonneg g1); lia.
  - unfold memmove. destruct (memread (p ++ q ++ g) index (zlen p + zlen q)) as [d|] eqn:Er; [|done]. rewrite bind_Val.
    assert (zlen d = zlen p + zlen q) as Hd'.
    { unfold memread in Er. ifcase_in Er; [|done]. injection Er as <-. apply zlen_slice; rewrite ?zlen_app in *; pose proof (zlen_nonneg q); lia. }
    assert (memcpy (p ++ q ++ g) (index + zlen data) d = Undef) as ->; [|done].
    unfold memcpy. rewrite (proj2 (Z.leb_gt (index + zlen data + zlen d) _)); [by rewrite andb_false_r|].
    rewrite !zlen_app. lia.
Qed.

Lemma tail_loop_spec ws : Forall (fun x => isSpace x = true) ws -> forall t g w,
  match rev t with x :: _ => isSpace x = false | [] => True end ->
  tail_loop (length (t ++ ws)) (t ++ ws ++ g) (zlen (t ++ ws) - 1) w = Val (t ++ repeat 0 (length ws) ++ g, w + zlen ws).
Proof.
  induction ws as [|x ws IH] using rev_ind; intros Hws t g w Ht.
  - rewrite app_nil_r. cbn [app length repeat]. change (zlen (@nil Z)) with 0. rewrite Z.add_0_r. destruct t as [|y t _] using rev_ind; [done|].
    rewrite rev_app_distr in Ht. cbn [rev app] in Ht. rewrite length_app, Nat.add_1_r. cbn [tail_loop]. rewrite <- app_assoc. cbn [app].
    rewrite load_at by (rewrite zlen_app; change (zlen [y]) with 1; lia). rewrite bind_Val. by rewrite Ht.
  - apply Forall_app in Hws as [Hws Hx]. apply Forall_cons_1 in Hx as [Hx _].
    rewrite !length_app. cbn [length]. rewrite Nat.add_assoc, Nat.add_1_r. cbn [tail_loop].
    replace (t ++ (ws ++ [x]) ++ g) with ((t ++ ws) ++ x :: g) by (by rewrite <- !app_assoc).
    assert (zlen (t ++ ws ++ [x]) - 1 = zlen (t ++ ws)) as -> by (rewrite !zlen_app; change (zlen [x]) with 1; lia).
    rewrite load_at by done. rewrite bind_Val, Hx, store_at by done. rewrite bind_Val, <- app_assoc, <- length_app.
    rewrite (IH Hws t (0 :: g) (w + 1) Ht), zlen_app. change (zlen [x]) with 1.
    assert (repeat 0 (S (length ws)) ++ g = repeat 0 (length ws) ++ 0 :: g) as Hr.
    { change (repeat 0 (S (length ws))) with (0 :: repeat 0 (length ws)). rewrite repeat_cons, <- app_assoc. done. }
    rewrite Nat.add_1_r, Hr. do 2 f_equal. lia.
Qed.

Lemma head_loop_spec lead x r g : Forall (fun x => isSpace x = true) lead -> isSpace x = false -> forall p,
  head_loop (length (lead ++ x :: r)) (p ++ lead ++ x :: r ++ g) (zlen p) = Val (zlen p + zlen lead).
Proof.
  intros Hl Hx. induction Hl as [|y lead Hy _ IH]; intros p; cbn [app length head_loop].
  - rewrite load_at by done. rewrite bind_Val, Hx. change (zlen (@nil Z)) with 0. by rewrite Z.add_0_r.
  - rewrite load_at by done. rewrite bind_Val, Hy. specialize (IH (p ++ [y])). rewrite <- app_assoc, zlen_app in IH. cbn [app] in IH.
    change (zlen [y]) with 1 in IH. rewrite IH, zlen_cons. f_equal. lia.
Qed.

Lemma trim_spec b s c : holds b s c ->
  match spec Trim s c with
  | Some (ok, s', c') => exists b', trim b = Val b' /\ holds b' s' c'
  | None => trim b = Undef
  end.
Proof.
  intros (Hcap & Hmax & Hlen & g & Hb & Hg). destruct b as [cap_ len_ mem]. cbn [cap len buffer spec] in *. subst.
  destruct (rstrip_spec isSpace s) as (ws & E & Hws & Hh). remember (rstrip isSpace s) as t eqn:Et. rewrite E in *. clear E Et.
  unfold trim. cbn [cap len buffer]. replace (Z.to_nat (zlen (t ++ ws))) with (length (t ++ ws)) by (unfold zlen; lia).
  rewrite <- app_assoc, (tail_loop_spec ws Hws t g 0 Hh), bind_Val. rewrite zlen_app in *.
  replace (zlen t + zlen ws - (0 + zlen ws)) with (zlen t) by lia. replace (Z.to_nat (zlen t)) with (length t) by (unfold zlen; lia).
  set (h := repeat 0 (length ws) ++ g). assert (zlen h = zlen ws + zlen g) as Hz by (subst h; rewrite zlen_app, zlen_repeat; done).
  destruct (lstrip_spec isSpace t) as (lead & E & Hlead & Hx). remember (lstrip isSpace t) as u eqn:Eu. clear Eu.
  assert (head_loop (length t) (t ++ h) 0 = Val (zlen lead)) as ->.
  { destruct u as [|x u].
    - rewrite app_nil_r in E. subst lead. destruct t as [|y t _] using rev_ind; [done|]. exfalso. rewrite rev_app_distr in Hh. cbn [rev app] in Hh.
      apply Forall_app in Hlead as [_ Hy]. apply Forall_cons_1 in Hy as [Hy _]. congruence.
    - rewrite E at 1 2. rewrite <- app_assoc. exact (head_loop_spec lead x u h Hlead Hx []). }
  rewrite bind_Val. assert (zlen t = zlen lead + zlen u) as Ht by (rewrite E at 1; apply zlen_app).
  replace (Z.to_nat (zlen t - zlen lead)) with (length u) by (unfold zlen in *; lia).
  destruct (copy_down_spec u [] lead h 0 (zlen lead)) as (rest & Ec & Hl); [done|done|]. cbn [app] in Ec.
  replace (t ++ h) with (lead ++ u ++ h) by (rewrite E; by rewrite <- app_assoc). rewrite Ec, bind_Val. clear Ec.
  assert (zlen rest = zlen lead) as Hr by (unfold zlen; by rewrite Hl).
  replace (zlen t - zlen lead) with (zlen u) by lia.
  assert (zlen (repeat 0 (Z.to_nat (zlen lead + 1))) = zlen lead + 1) as Hrep by (rewrite zlen_repeat; pose proof (zlen_nonneg lead); lia).
  case_bool_decide as Hc.
  - rewrite memcpy_at by (rewrite ?zlen_app; lia). rewrite bind_Val. eexists. split; [done|].
    eapply holds_intro; [done|by rewrite <- app_assoc|done|]. pose proof (zlen_nonneg lead). rewrite zlen_app, zlen_zdrop by (rewrite zlen_app; lia). rewrite zlen_app. lia.
  - unfold memcpy. rewrite !zlen_app, (proj2 (Z.leb_gt (zlen u + _) _)); [by rewrite andb_false_r|]. lia.
Qed.

(** ** Any sequence of operations *)

Fixpoint run (ops : list Op) (b : t) : outcome (list bool * t) :=
  match ops with
  | [] => Val ([], b)
  | op :: ops => '(ok, b) ← exec op b; '(oks, b) ← run ops b; Val (ok :: oks, b)
  end.

Fixpoint run_spec (ops : list Op) (s : bytes) (c : Z) : option (list bool * bytes * Z) :=
  match ops with
  | [] => Some ([], s, c)
  | op :: ops => '(ok, s, c) ← spec op s c; '(oks, s, c) ← run_spec ops s c; Some (ok :: oks, s, c)
  end.

(** The arguments of every operation are sensible where it is called. *)
Fixpoint ops_ok (ops : list Op) (s : bytes) (c : Z) : Prop :=
  match ops with
  | [] => True
  | op :: ops => op_ok op s c /\ match spec op s c with Some (_, s, c) => ops_ok ops s c | None => True end
  end.

Lemma buffer_exec_spec op b s c : holds b s c -> op_ok op s c ->
  match spec op s c with
  | Some (ok, s', c') => exists b', exec op b = Val (ok, b') /\ holds b' s' c'
  | None => exec op b = Undef
  end.
Proof.
  intros Hh Ho. destruct op as [data| | |index ch|index|start l|index data|]; cbn [op_ok] in Ho.
  - destruct (buffer_append_spec b s c data Hh Ho) as (b' & E & Hh'). exists b'. cbn [exec]. by rewrite E.
  - exists (clear b). split; [done|]. destruct Hh as (Hcap & Hmax & Hlen & g & Hb & Hg). destruct b as [cap_ len_ mem]. cbn [cap len buffer] in *. subst.
    apply (holds_intro _ _ _ [] (s ++ g)); [done|done|done|]. rewrite zlen_app. change (zlen (@nil Z)) with 0. cbn [cap]. lia.
  - destruct (buffer_reverse_spec b s c Hh) as (b' & E & Hh'). exists b'. cbn [exec]. by rewrite E.
  - destruct (setChatAt_spec b s c index ch Hh Ho) as (b' & E & Hh'). by exists b'.
  - destruct (delCharAt_spec b s c index Hh Ho) as (b' & E & Hh'). cbn [spec exec]. case_bool_decide; by exists b'.
  - destruct Ho as [Ho1 Ho2]. exact (del_spec b s c start l Hh Ho1 Ho2).
  - destruct Ho as [Ho1 Ho2]. exact (insertAt_spec b s c index data Hh Ho1 Ho2).
  - pose proof (trim_spec b s c Hh) as Ht. cbn [exec]. destruct (spec Trim s c) as [[[ok s'] c']|] eqn:E; [|by rewrite Ht].
    destruct Ht as (b' & -> & Hh'). exists b'. split; [|done]. cbn [spec] in E. case_bool_decide; [|done]. by injection E as <- _ _.
Qed.

Lemma buffer_run_refines ops : forall b s c, holds b s c -> ops_ok ops s c ->
  match run_spec ops s c with
  | Some (oks, s', c') => exists b', run ops b = Val (oks, b') /\ holds b' s' c'
  | None => run ops b = Undef
  end.
Proof.
  induction ops as [|op ops IH]; intros b s c Hh Ho; cbn [run run_spec ops_ok] in *; [by exists b|]. destruct Ho as [Ho Hops].
  pose proof (buffer_exec_spec op b s c Hh Ho) as He. destruct (spec op s c) as [[[ok s1] c1]|]; [|by rewrite He].
  destruct He as (b1 & -> & Hh1). rewrite bind_Val. cbn [mbind option_bind]. pose proof (IH b1 s1 c1 Hh1 Hops) as Hr.
  destruct (run_spec ops s1 c1) as [[[oks s2] c2]|]; [|by rewrite Hr]. destruct Hr as (b2 & -> & Hh2). by exists b2.
Qed.

(** C22: A string buffer under any sequence of appends, insertions, deletions, replacements of a
    character, reversals, clearings and trimmings is a string: every operation returns what the
    operation on the string does, the capacity grows by whole blocks, and the text read at the end is
    the string. The code is undefined exactly where the specification of the operation has no result: an
    insertion that moves its [len] characters past the end of the block, a deletion of nothing or a trimming in a full block, and
    a deletion whose end overflows an [int]. *)
Theorem string_buffer_refines ops c : 0 <= c < 2 ^ 31 -> ops_ok ops [] c ->
  match run_spec ops [] c with
  | Some (oks, s, c') => exists b, run ops (create c) = Val (oks, b) /\ toString b = Val s /\ len b = zlen s /\ cap b = c'
  | None => run ops (create c) = Undef
  end.
Proof.
  intros Hc Ho. assert (holds (create c) [] c) as Hh.
  { apply (holds_intro _ _ _ _ (repeat 0 (Z.to_nat c))); [done|done|lia|]. rewrite zlen_repeat. change (zlen (@nil Z)) with 0. lia. }
  pose proof (buffer_run_refines ops (create c) [] c Hh Ho) as Hr. destruct (run_spec ops [] c) as [[[oks s] c']|]; [|done].
  destruct Hr as (b & E & Hcap & _ & Hlen & g & Hb & _). exists b. split; [done|]. split; [|done]. unfold toString. rewrite Hb, Hlen. by apply (memread_at [] s g).
Qed.

(** Blanks and words, and an insertion that is out of the block. *)
Lemma string_buffer_refines_witness :
  run_spec [Append (str " ab  "); Trim; InsertAt 1 (str "xyz"); Reverse; DelCharAt 0; Del 1 2; SetAt 0 65] [] 16 =
    Some ([true; true; true; true; true; true; true], str "Aa", 16) /\
  (exists b, run [Append (str " ab  "); Trim; InsertAt 1 (str "xyz"); Reverse; DelCharAt 0; Del 1 2; SetAt 0 65] (create 16) =
    Val ([true; true; true; true; true; true; true], b) /\ toString b = Val (str "Aa")) /\
  run [Append (str "0123456789"); InsertAt 5 (str "ab")] (create 16) = Undef.
Proof.
  split; [vm_compute; reflexivity|]. split.
  - destruct (string_buffer_refines [Append (str " ab  "); Trim; InsertAt 1 (str "xyz"); Reverse; DelCharAt 0; Del 1 2; SetAt 0 65] 16) as (b & E & S & _);
      [lia|vm_compute; repeat split; discriminate|]. exists b. split; [exact E|exact S].
  - apply (string_buffer_refines [Append (str "0123456789"); InsertAt 5 (str "ab")] 16); [lia|vm_compute; repeat split; discriminate].
Defined.
