(* ===== verification/OrdMap.v ===== *)
(** * Ordered maps

    [std::map<std::string, V, Compare>] as the list of its entries in the order
    of its comparator, for the comparators the code uses: [std::less] (cookies) and
    [StrCaseMapComparer] of [sese/container/StrCaseMap.cpp] (headers). *)

From S2P Require Import Prelude Text.

(** What a comparator must be for the container to work: two keys are
    compared through normal forms ordered as byte strings. *)
Class KeyOrder (cmp : bytes -> bytes -> Z) := {
  key_norm : bytes -> bytes;
  key_sgn k l : Z.sgn (cmp k l) = lexcmp (key_norm k) (key_norm l) }.

(*@ sese/container/StrCaseMap.cpp 22-24 StrCaseMapComparer::operator() *)
Definition StrCaseMapComparer (l r : bytes) : bool := StrCmpI l r <? 0.

#[export] Program Instance strcase_order : KeyOrder StrCmpI := { key_norm := norm }.
Next Obligation. apply StrCmpI_lexcmp. Qed.

#[export] Program Instance string_order : KeyOrder lexcmp := { key_norm := fun k => k }.
Next Obligation.
  induction k as [|a k IH]; intros [|b l]; cbn; try done.
  destruct (a <? b); [done|]. destruct (b <? a); [done|]. apply IH.
Qed.

Section OrdMap.
Context {V : Type} (cmp : bytes -> bytes -> Z).

(** [map.find(k)]: the value of the entry whose key is equivalent to [k]. *)
Fixpoint mfind (k : bytes) (m : list (bytes * V)) : option V :=
  match m with
  | [] => None
  | (k', v) :: m => if cmp k k' =? 0 then Some v else mfind k m
  end.

(** [map[k] = v]: an existing entry keeps its key, a new one is inserted in
    order. *)
Fixpoint mset (k : bytes) (v : V) (m : list (bytes * V)) : list (bytes * V) :=
  match m with
  | [] => [(k, v)]
  | (k', v') :: m' =>
      if cmp k k' <? 0 then (k, v) :: m
      else if cmp k k' =? 0 then (k', v) :: m'
      else (k', v') :: mset k v m'
  end.

(** [map.erase(k)]. *)
Fixpoint merase (k : bytes) (m : list (bytes * V)) : list (bytes * V) :=
  match m with
  | [] => []
  | (k', v) :: m => if cmp k k' =? 0 then m else (k', v) :: merase k m
  end.

(** The keys are strictly increasing. *)
Fixpoint msorted (m : list (bytes * V)) : Prop :=
  match m with
  | [] => True
  | (k, _) :: m => Forall (fun e => cmp k (fst e) < 0) m /\ msorted m
  end.

Context `{KO : !KeyOrder cmp}.

Lemma cmp_lt k l : cmp k l < 0 <-> lexcmp (key_norm k) (key_norm l) < 0.
Proof. rewrite <- key_sgn. lia. Qed.

Lemma cmp_eq k l : cmp k l = 0 <-> key_norm k = key_norm l.
Proof. rewrite <- lexcmp_eq, <- key_sgn. lia. Qed.

Lemma cmp_gt k l : 0 < cmp k l <-> cmp l k < 0.
Proof. rewrite cmp_lt, lexcmp_opp, <- key_sgn. lia. Qed.

Lemma cmp_trans k l m : cmp k l < 0 -> cmp l m < 0 -> cmp k m < 0.
Proof. rewrite !cmp_lt. apply lexcmp_trans. Qed.

Lemma cmp_eq_lt k l m : cmp k l = 0 -> (cmp k m < 0 <-> cmp l m < 0).
Proof. rewrite cmp_eq, !cmp_lt. by intros ->. Qed.

Lemma mset_Forall (P : bytes * V -> Prop) k v m :
  P (k, v) -> Forall P m -> (forall k' v', cmp k k' = 0 -> P (k', v') -> P (k', v)) ->
  Forall P (mset k v m).
Proof.
  intros Hk Hm He. induction Hm as [|[k' v'] m Hx Hm IH]; cbn; [by constructor|].
  destruct (_ <? _); [by repeat constructor|]. destruct (_ =? _) eqn:E; zbool; constructor; eauto.
Qed.

Lemma mset_sorted k v m : msorted m -> msorted (mset k v m).
Proof.
  induction m as [|[k' v'] m IH]; cbn; [done|]. intros [Hf Hs].
  destruct (_ <? _) eqn:E1; zbool; [|destruct (_ =? _) eqn:E2; zbool].
  - cbn. split; [|done]. constructor; [done|].
    eapply Forall_impl; [exact Hf|]. cbn. intros e He. by apply cmp_trans with k'.
  - done.
  - cbn. split; [|auto]. apply mset_Forall; [|done|done]. cbn. apply cmp_gt. lia.
Qed.

Lemma mfind_lt k m : Forall (fun e => cmp k (fst e) < 0) m -> mfind k m = None.
Proof.
  induction 1 as [|[k' v'] m H _ IH]; [done|]. cbn in *. by rewrite (proj2 (Z.eqb_neq _ _)) by lia.
Qed.

Lemma mfind_mset k k' v m : msorted m ->
  mfind k' (mset k v m) = if cmp k' k =? 0 then Some v else mfind k' m.
Proof.
  induction m as [|[l w] m IH]; cbn; [done|]. intros [Hf Hs].
  destruct (cmp k l <? 0) eqn:E1; zbool; [done|].
  destruct (cmp k l =? 0) eqn:E2; zbool; cbn.
  - destruct (cmp k' k =? 0) eqn:E3, (cmp k' l =? 0) eqn:E4; zbool; try done.
    + rewrite cmp_eq in *. congruence.
    + rewrite cmp_eq in *. congruence.
  - rewrite IH by done. destruct (cmp k' l =? 0) eqn:E4, (cmp k' k =? 0) eqn:E3; zbool; try done.
    rewrite cmp_eq in *. congruence.
Qed.

Lemma mfind_equiv k l m : cmp k l = 0 -> mfind k m = mfind l m.
Proof.
  intros H. induction m as [|[k' v'] m IH]; [done|]. cbn. rewrite IH.
  destruct (cmp k k' =? 0) eqn:E1, (cmp l k' =? 0) eqn:E2; zbool; rewrite ?cmp_eq in *; congruence.
Qed.

(** A key above all others goes to the end, so a sorted list is rebuilt entry by
    entry. *)
Lemma mset_last k v m : Forall (fun e => cmp (fst e) k < 0) m -> mset k v m = m ++ [(k, v)].
Proof.
  induction 1 as [|[k' v'] m Hk _ IH]; [done|]. cbn in *. apply cmp_gt in Hk.
  rewrite (proj2 (Z.ltb_ge _ 0)), (proj2 (Z.eqb_neq _ 0)), IH by lia. done.
Qed.

Lemma msorted_before k v l : forall m, msorted (m ++ (k, v) :: l) -> Forall (fun e => cmp (fst e) k < 0) m.
Proof.
  induction m as [|[k' v'] m IH]; [done|]. cbn. intros [Hf Hs]. constructor; [|by apply IH].
  apply Forall_app in Hf as [_ Hf]. by inversion Hf.
Qed.

Lemma mset_rebuild l : forall m, msorted (m ++ l) -> fold_left (fun m e => mset (fst e) (snd e) m) l m = m ++ l.
Proof.
  induction l as [|[k v] l IH]; intros m Hs; cbn [fold_left]; [by rewrite app_nil_r|].
  rewrite mset_last by (by eapply msorted_before). rewrite IH; by rewrite <- app_assoc.
Qed.

End OrdMap.

#[export] Hint Resolve mset_sorted : sese.

(** What was set is found, in any list. *)
Lemma mfind_mset_self {V} k (v : V) m : mfind lexcmp k (mset lexcmp k v m) = Some v.
Proof.
  assert (lexcmp k k = 0) as Hk by (by apply lexcmp_eq).
  induction m as [|[k' x] m IH]; cbn [mset]; [|destruct (lexcmp k k' <? 0); [|destruct (lexcmp k k' =? 0) eqn:E]]; cbn [mfind];
    rewrite ?Hk, ?E; done.
Qed.
