(* ===== verification/TimeWheel.v ===== *)
(** * Time wheel

    Models [sese/util/TimeWheel.cpp]: sixty slots of events, a ring, and the check that visits the
    slots of the seconds since the last one. Events are objects that slots and callers point to, so they live in a
    heap; a callback is recorded and does not use the wheel. Readings of the clock are arguments. *)

From S2P Require Import Prelude.

(*@ sese/util/TimeWheel.h 35-47 TimeoutEvent *)
Record TimeoutEvent := MkEvent { range : Z; target : Z; repeat : bool; callback : nat }.
#[export] Instance TimeoutEvent_eta : Eta TimeoutEvent := fun e => MkEvent (range e) (target e) (repeat e) (callback e).

(*@ sese/util/TimeWheel.h 86-92 TimeWheel *)
(** [events] is the heap, with [None] for what has been deleted; a slot is the list of its events, and
    [next] the pointers from slot to slot. *)
Record TimeWheel := MkWheel {
  startTime : Z; lastCheckTime : Z; slots : list (list nat); next : list nat; events : list (option TimeoutEvent) }.
#[export] Instance TimeWheel_eta : Eta TimeWheel :=
  fun w => MkWheel (startTime w) (lastCheckTime w) (slots w) (next w) (events w).

(** The loop of the constructor, from the last slot to the first. *)
Fixpoint link_slots (numbers : list nat) (pre_address : option nat) (next : list (option nat)) : list (option nat) :=
  match numbers with
  | [] => next
  | number :: numbers => link_slots numbers (Some number) (<[number := pre_address]> next)
  end.

(*@ sese/util/TimeWheel.cpp 23-32 TimeWheel::TimeWheel *)
Definition new_wheel (now : Z) : TimeWheel :=
  let next := link_slots (reverse (seq 0 60)) None (replicate 60 None) in
  let next := <[59%nat := Some 0%nat]> next in
  MkWheel now now (replicate 60 []) (omap id next) [].

(** A sum of two [int64_t]. *)
Definition add64 (a b : Z) : outcome Z := if (- 2 ^ 63 <=? a + b) && (a + b <? 2 ^ 63) then Val (a + b) else Undef.

(** [slots[(target - startTime) % 60]]: the index is negative before the start. *)
Definition slot_index (w : TimeWheel) (target : Z) : outcome nat :=
  let index := Z.rem (target - startTime w) 60 in
  if index <? 0 then Undef else Val (Z.to_nat index).
Definition slot_of (w : TimeWheel) (j : nat) : outcome (list nat) := of_option (slots w !! j).
Definition event_of (w : TimeWheel) (event : nat) : outcome TimeoutEvent := of_option (mjoin (events w !! event)).
Definition emplace_back (j : nat) (event : nat) (w : TimeWheel) : TimeWheel := w <| slots ::= alter (fun l => l ++ [event]) j |>.

(*@ sese/util/TimeWheel.cpp 49-61 TimeWheel::delay *)
Definition delay (current : Z) (cb : nat) (seconds : Z) (rep : bool) (w : TimeWheel) : outcome (nat * TimeWheel) :=
  new_target ← add64 current seconds;
  let event := length (events w) in
  let w := w <| events ::= fun h => h ++ [Some (MkEvent seconds new_target rep cb)] |> in
  index ← slot_index w new_target;
  Val (event, emplace_back index event w).

(*@ sese/util/TimeWheel.cpp 63-67 TimeWheel::cancel *)
Definition cancel (event : nat) (w : TimeWheel) : outcome TimeWheel :=
  e ← event_of w event;
  index ← slot_index w (target e);
  Val (w <| slots ::= alter (List.filter (fun i => negb (i =? event)%nat)) index |> <| events ::= <[event := None]> |>).

(*@ sese/util/TimeWheel.cpp 82-89 TimeWheel::check *)
(** An event that is due: its callback runs, and it is put into another slot or deleted. [clock] is the time
    that is read after its callback. *)
Definition fire (clock : nat -> Z) (event : nat) (e : TimeoutEvent) (w : TimeWheel) : outcome TimeWheel :=
  if repeat e then
    new_target ← add64 (clock event) (range e);
    let w := w <| events ::= <[event := Some (e <| target := new_target |>)]> |> in
    new_index ← slot_index w new_target;
    Val (emplace_back new_index event w)
  else Val (w <| events ::= <[event := None]> |>).

(*@ sese/util/TimeWheel.cpp 77-93 TimeWheel::check *)
(** The iterator stands at the position [i] of the slot [j]; the slot grows while it is visited when an event comes
    back to it. *)
Fixpoint slot_loop (fuel : nat) (current : Z) (clock : nat -> Z) (j i : nat) (fired : list nat) (w : TimeWheel) :
    outcome (list nat * TimeWheel) :=
  match fuel with
  | O => Undef
  | S fuel =>
      l ← slot_of w j;
      match l !! i with
      | None => Val (fired, w)
      | Some event =>
          e ← event_of w event;
          if target e >? current then slot_loop fuel current clock j (S i) fired w
          else
            w ← fire clock event e w;
            slot_loop fuel current clock j i (fired ++ [event]) (w <| slots ::= alter (delete i) j |>)
      end
  end.

(*@ sese/util/TimeWheel.cpp 76-95 TimeWheel::check *)
(** An event that is due takes one round and is not due any more, so the rounds of a slot are at most twice its length. *)
Fixpoint check_loop (number_of_slots : nat) (current : Z) (clock : nat -> Z) (p_slot : nat) (fired : list nat) (w : TimeWheel) :
    outcome (list nat * TimeWheel) :=
  match number_of_slots with
  | O => Val (fired, w)
  | S n =>
      l ← slot_of w p_slot;
      '(fired, w) ← slot_loop (S (2 * length l)) current clock p_slot 0 fired w;
      p_slot ← of_option (next w !! p_slot);
      check_loop n current clock p_slot fired w
  end.

(*@ sese/util/TimeWheel.cpp 69-97 TimeWheel::check *)
Definition check (current : Z) (clock : nat -> Z) (w : TimeWheel) : outcome (list nat * TimeWheel) :=
  let number_of_slots := Z.min (current - lastCheckTime w) 60 in
  index ← slot_index w (lastCheckTime w);
  '(fired, w) ← check_loop (Z.to_nat number_of_slots) current clock index [] w;
  Val (fired, w <| lastCheckTime := current |>).

(** ** The specification: a list of events *)

(** An event is due at a check when its time is past, or is now and the last check was a minute ago. *)
Definition due (last now : Z) (e : TimeoutEvent) : bool :=
  (target e <? now) || ((target e =? now) && (60 <=? now - last)).

Definition after_check (last now : Z) (clock : nat -> Z) (event : nat) (o : option TimeoutEvent) : option TimeoutEvent :=
  match o with
  | Some e => if due last now e then if repeat e then Some (e <| target := clock event + range e |>) else None else Some e
  | None => None
  end.

Definition is_due (last now : Z) (h : list (option TimeoutEvent)) (event : nat) : Prop :=
  exists e, h !! event = Some (Some e) /\ due last now e = true.

(** ** Invariant *)

(** The slot of a time. *)
Definition place (w : TimeWheel) (t : Z) : nat := Z.to_nat ((t - startTime w) mod 60).

(** Every slot holds, once, the events that are alive and whose time falls into it. *)
Record structured (w : TimeWheel) : Prop := {
  st_slots : length (slots w) = 60%nat;
  st_next : forall j, (j < 60)%nat -> next w !! j = Some (if decide (j = 59%nat) then 0%nat else S j);
  st_entry : forall j l id, slots w !! j = Some l -> id ∈ l ->
    exists e, events w !! id = Some (Some e) /\ place w (target e) = j;
  st_nodup : forall j l, slots w !! j = Some l -> NoDup l;
  st_alive : forall id e, events w !! id = Some (Some e) -> startTime w <= target e /\
    exists l, slots w !! place w (target e) = Some l /\ id ∈ l }.

(** What stays the same during a check. *)
Definition same_wheel (w w' : TimeWheel) : Prop :=
  startTime w' = startTime w /\ lastCheckTime w' = lastCheckTime w /\ next w' = next w.

(** Repeated events come back later. *)
Definition ranges_ok (h : list (option TimeoutEvent)) : Prop :=
  forall id e, h !! id = Some (Some e) -> 0 <= range e < 2 ^ 61 /\ (repeat e = true -> 1 <= range e).

Lemma place_bound w t : (place w t < 60)%nat.
Proof. unfold place. pose proof (Z.mod_pos_bound (t - startTime w) 60 ltac:(lia)). lia. Qed.

Lemma slot_index_place w t : startTime w <= t -> slot_index w t = Val (place w t).
Proof.
  intros Ht. unfold slot_index, place. rewrite Z.rem_mod_nonneg by lia.
  pose proof (Z.mod_pos_bound (t - startTime w) 60 ltac:(lia)). rewrite (proj2 (Z.ltb_ge _ 0)) by lia. done.
Qed.

Lemma new_structured now : structured (new_wheel now).
Proof.
  split.
  - reflexivity.
  - intros j Hj. do 60 (destruct j as [|j]; [reflexivity|]). lia.
  - intros j l id Hl Hi. cbn [slots new_wheel] in Hl. apply lookup_replicate in Hl as [-> _]. by apply elem_of_nil in Hi.
  - intros j l Hl. cbn [slots new_wheel] in Hl. apply lookup_replicate in Hl as [-> _]. constructor.
  - intros id e He. cbn [events new_wheel] in He. done.
Qed.

(** ** Firing *)

(** The event after its callback. *)
Definition rescheduled (clock : nat -> Z) (id : nat) (o : option TimeoutEvent) : option TimeoutEvent :=
  match o with
  | Some e => if repeat e then Some (e <| target := clock id + range e |>) else None
  | None => None
  end.

(** The heap after the events of [fired] have been fired. *)
Definition fired_from (clock : nat -> Z) (fired : list nat) (h h' : list (option TimeoutEvent)) : Prop :=
  forall id, h' !! id = if decide (id ∈ fired) then rescheduled clock id <$> (h !! id) else h !! id.

Section Check.
Context (now : Z) (clock : nat -> Z).
Hypothesis (Hpos : 0 <= now) (Hclock : forall id, now <= clock id < 2 ^ 61).

(** The slots when an event is taken out of one and, perhaps, put at the end of another. *)
Lemma move_slots (sl : list (list nat)) j l1 l2 event (back : bool) k :
  sl !! j = Some (l1 ++ event :: l2) -> (forall m l, sl !! m = Some l -> NoDup l) ->
  (forall m l, sl !! m = Some l -> event ∈ l -> m = j) ->
  let sl' := alter (delete (length l1)) j (if back then alter (fun l => l ++ [event]) k sl else sl) in
  length sl' = length sl /\
  sl' !! j = Some (l1 ++ l2 ++ (if back && (k =? j)%nat then [event] else [])) /\
  forall m l', sl' !! m = Some l' -> NoDup l' /\
    exists l, sl !! m = Some l /\ forall id, id ∈ l' <-> (id ∈ l /\ id <> event) \/ (id = event /\ back = true /\ m = k).
Proof.
  intros Hj Hnd Hev sl'. pose proof (Hnd _ _ Hj) as Hn. 
  assert ((event ∉ l1) /\ (event ∉ l2) /\ NoDup (l1 ++ l2)) as (H1 & H2 & H3).
  { apply NoDup_app in Hn as (N1 & N2 & N3). apply NoDup_cons in N3 as [N3 N4].
    split; [intros Hi; apply (N2 event Hi); left|split; [done|]].
    apply NoDup_app. split; [done|]. split; [|done]. intros x Hx Hx2. apply (N2 x Hx). by right. }
  set (sl0 := if back then alter (fun l => l ++ [event]) k sl else sl) in sl'.
  assert (forall m, sl0 !! m = (fun l => if back && (k =? m)%nat then l ++ [event] else l) <$> sl !! m) as H0.
  { intros m. unfold sl0. destruct back; cbn [andb]; [|by destruct (sl !! m)].
    destruct (Nat.eqb_spec k m) as [->|Hne]; [by rewrite list_lookup_alter, decide_True|]. rewrite list_lookup_alter_ne by done. by destruct (sl !! m). }
  assert (sl' !! j = Some (l1 ++ l2 ++ (if back && (k =? j)%nat then [event] else []))) as Hj'.
  { unfold sl'. rewrite list_lookup_alter, decide_True, H0, Hj by done. cbn [fmap option_fmap option_map]. f_equal.
    destruct (back && _); [rewrite <- app_assoc; cbn [app]|]; rewrite delete_middle, ?app_nil_r; done. }
  split; [|split; [done|]].
  { unfold sl', sl0. rewrite length_alter. destruct back; [apply length_alter|done]. }
  intros m l' Hm. destruct (decide (m = j)) as [->|Hne].
  - rewrite Hj' in Hm. injection Hm as <-. rewrite app_assoc. split.
    + destruct (back && _); [|by rewrite app_nil_r]. apply NoDup_app. split; [done|]. split; [|apply NoDup_singleton].
      intros x Hx ->%list_elem_of_singleton. apply elem_of_app in Hx. tauto.
    + exists (l1 ++ event :: l2). split; [done|]. intros id. rewrite !elem_of_app, elem_of_cons.
      destruct (back && (k =? j)%nat) eqn:E.
      * apply andb_true_iff in E as [-> E%Nat.eqb_eq]. subst k. rewrite list_elem_of_singleton. split.
        -- intros [[Hi|Hi]|Hi]; [left|left|by right]; (split; [tauto|]); intros ->; tauto.
        -- intros [[Hi Hx]|(-> & _)]; [|by right]. left. tauto.
      * split.
        -- intros [Hi|Hi]; [left|by apply elem_of_nil in Hi]. split; [tauto|]. intros ->. tauto.
        -- intros [[Hi Hx]|(-> & -> & <-)]; [left; tauto|]. rewrite Nat.eqb_refl in E. done.
  - unfold sl' in Hm. rewrite list_lookup_alter_ne, H0 in Hm by done. destruct (sl !! m) as [l|] eqn:El; [|done].
    cbn [fmap option_fmap option_map] in Hm. injection Hm as <-.
    assert (event ∉ l) as Hnl by (intros Hi; exact (Hne (Hev m l El Hi))). split.
    + destruct (back && (k =? m)%nat); [|exact (Hnd m l El)]. apply NoDup_app. split; [exact (Hnd m l El)|]. split; [|apply NoDup_singleton].
      by intros x Hx ->%list_elem_of_singleton.
    + exists l. split; [done|]. intros id. destruct (back && (k =? m)%nat) eqn:E.
      * apply andb_true_iff in E as [-> E%Nat.eqb_eq]. rewrite elem_of_app, list_elem_of_singleton. split.
        -- intros [Hi|Hi]; [left|by right]. split; [done|]. by intros ->.
        -- intros [[Hi _]|(-> & _)]; [by left|by right].
      * split; [intros Hi; left; split; [done|by intros ->]|]. intros [[Hi _]|(-> & -> & <-)]; [done|].
        rewrite Nat.eqb_refl in E. done.
Qed.

(** One round for an event that is due: it is fired and taken out of its place. *)
Lemma fire_step w j l1 l2 event e : structured w -> ranges_ok (events w) -> startTime w <= now ->
  slots w !! j = Some (l1 ++ event :: l2) -> events w !! event = Some (Some e) ->
  exists w1, fire clock event e w = Val w1 /\
    let w' := w1 <| slots ::= alter (delete (length l1)) j |> in
    structured w' /\ same_wheel w w' /\ fired_from clock [event] (events w) (events w') /\
    exists back, slots w' !! j = Some (l1 ++ l2 ++ back) /\ (back = [] \/ back = [event]).
Proof.
  intros Hst Hrg Hnow Hj He.
  assert (forall m l, slots w !! m = Some l -> event ∈ l -> m = j) as Hev.
  { intros m l Hm Hi. destruct (st_entry w Hst m l event Hm Hi) as (e1 & E1 & <-).
    destruct (st_entry w Hst j _ event Hj) as (e2 & E2 & <-); [apply elem_of_app; right; left|].
    rewrite E1 in E2. by injection E2 as ->. }
  set (nt := clock event + range e). set (k := place w nt).
  destruct (move_slots (slots w) j l1 l2 event (repeat e) k Hj (st_nodup w Hst) Hev) as (Hlen & Hj' & Hall).
  destruct (Hrg event e He) as [Hr1 Hr2]. pose proof (Hclock event) as Hck.
  set (h' := <[event := rescheduled clock event (Some e)]> (events w)).
  set (sl' := alter (delete (length l1)) j (if repeat e then alter (fun l => l ++ [event]) k (slots w) else slots w)) in *.
  assert (event < length (events w))%nat as Hlt by (by apply lookup_lt_Some in He).
  assert (Hh : forall id, h' !! id = if decide (id = event) then Some (rescheduled clock event (Some e)) else events w !! id).
  { intros id. unfold h'. destruct (decide (id = event)) as [->|Hne]; [by apply list_lookup_insert_eq|by apply list_lookup_insert_ne]. }
  assert (structured (MkWheel (startTime w) (lastCheckTime w) sl' (next w) h')) as Hst'.
  { split.
    - cbn. rewrite Hlen. apply Hst.
    - apply Hst.
    - intros m l' id Hm Hi. cbn [slots] in Hm. cbn [events]. destruct (Hall m l' Hm) as (_ & l & Hl & Hiff). rewrite Hh.
      destruct (proj1 (Hiff id) Hi) as [[Hi' Hne]|(-> & Hb & Hmk)].
      + rewrite decide_False by done. by apply (st_entry w Hst m l).
      + rewrite decide_True by done. cbn [rescheduled]. rewrite Hb. eexists. split; [done|]. by rewrite Hmk.
    - intros m l' Hm. by apply (Hall m l' Hm).
    - intros id e' Hid. cbn [events] in Hid. cbn [slots startTime]. rewrite Hh in Hid.
      destruct (decide (id = event)) as [->|Hne].
      + cbn [rescheduled] in Hid. destruct (repeat e) eqn:Hb; [|done]. injection Hid as <-.
        change (place (MkWheel (startTime w) (lastCheckTime w) sl' (next w) h') (target (e <| target := nt |>))) with k.
        split; [cbn; unfold nt; lia|]. pose proof (place_bound w nt) as Hk.
        destruct (lookup_lt_is_Some_2 sl' k) as [l' Hl']; [rewrite Hlen, (st_slots w Hst); done|].
        exists l'. split; [done|]. destruct (Hall k l' Hl') as (_ & l & Hl & Hiff). apply Hiff. by right.
      + destruct (st_alive w Hst id e' Hid) as [Ht (l & Hl & Hi)]. split; [done|].
        change (place (MkWheel (startTime w) (lastCheckTime w) sl' (next w) h') (target e')) with (place w (target e')).
        destruct (lookup_lt_is_Some_2 sl' (place w (target e'))) as [l' Hl']; [rewrite Hlen, (st_slots w Hst); apply place_bound|].
        exists l'. split; [done|]. destruct (Hall _ l' Hl') as (_ & l0 & Hl0 & Hiff). rewrite Hl in Hl0. injection Hl0 as <-.
        apply Hiff. by left. }
  assert (fired_from clock [event] (events w) h') as Hf.
  { intros id. rewrite Hh. destruct (decide (id = event)) as [->|Hne].
    - rewrite decide_True by (by left). by rewrite He.
    - rewrite decide_False; [done|]. by intros ->%list_elem_of_singleton. }
  assert (exists back, sl' !! j = Some (l1 ++ l2 ++ back) /\ (back = [] \/ back = [event])) as Hback.
  { eexists. split; [exact Hj'|]. destruct (_ && _); auto. }
  revert Hst' Hf Hback. unfold h', sl', rescheduled, fire. destruct (repeat e) eqn:Hb; intros Hst' Hf Hback.
  - unfold add64. fold nt. rewrite (proj2 (Z.leb_le _ nt)), (proj2 (Z.ltb_lt nt _)) by (unfold nt; lia). cbn [andb]. rewrite bind_Val.
    rewrite slot_index_place by (cbn; unfold nt; lia). rewrite bind_Val. eexists. split; [done|].
    split; [exact Hst'|]. split; [done|]. split; [exact Hf|exact Hback].
  - eexists. split; [done|]. split; [exact Hst'|]. split; [done|]. split; [exact Hf|exact Hback].
Qed.
Lemma fired_from_app F1 F2 h h1 h2 : fired_from clock F1 h h1 -> fired_from clock F2 h1 h2 -> (forall id, id ∈ F1 -> id ∈ F2 -> False) ->
  fired_from clock (F1 ++ F2) h h2.
Proof.
  intros H1 H2 Hd id. rewrite (H2 id), (H1 id).
  destruct (decide (id ∈ F2)) as [Hi2|Hn2]; destruct (decide (id ∈ F1)) as [Hi1|Hn1].
  - by destruct (Hd id).
  - rewrite decide_True; [done|]. apply elem_of_app. by right.
  - rewrite decide_True; [done|]. apply elem_of_app. by left.
  - rewrite decide_False; [done|]. rewrite elem_of_app. tauto.
Qed.

Lemma fired_ranges F h h' : fired_from clock F h h' -> ranges_ok h -> ranges_ok h'.
Proof.
  intros Hf Hr id e He. rewrite (Hf id) in He. destruct (decide _); [|by apply (Hr id)].
  destruct (h !! id) as [[e2|]|] eqn:E; try done. cbn in He. destruct (repeat e2) eqn:Hb; [|done].
  injection He as <-. cbn. apply (Hr id e2 E).
Qed.

(** A fired event is not due any more. *)
Lemma fired_later F h h' id e : fired_from clock F h h' -> ranges_ok h -> id ∈ F -> h' !! id = Some (Some e) -> now < target e.
Proof.
  intros Hf Hr Hi He. rewrite (Hf id), decide_True in He by done. destruct (h !! id) as [[e0|]|] eqn:E; try done.
  cbn in He. destruct (repeat e0) eqn:Hb; [|done]. injection He as <-. cbn.
  destruct (Hr id e0 E) as [_ Hr1]. specialize (Hr1 Hb). pose proof (Hclock id). lia.
Qed.

(** The events of a slot that are due. *)
Definition waiting (h : list (option TimeoutEvent)) (l : list nat) : list nat :=
  List.filter (fun id => match mjoin (h !! id) with Some e => target e <=? now | None => false end) l.

Definition quiet_at (w : TimeWheel) (j : nat) : Prop :=
  forall id e, events w !! id = Some (Some e) -> place w (target e) = j -> now < target e.

Lemma place_same w w' t : same_wheel w w' -> place w' t = place w t.
Proof. intros (Hs & _ & _). unfold place. by rewrite Hs. Qed.

(** What a visit of the slots in [P] does. *)
Record visited (P : nat -> Prop) (w : TimeWheel) (F : list nat) (w' : TimeWheel) : Prop := {
  vs_structured : structured w';
  vs_same : same_wheel w w';
  vs_nodup : NoDup F;
  vs_fired : fired_from clock F (events w) (events w');
  vs_due : forall id, id ∈ F -> exists e, events w !! id = Some (Some e) /\ target e <= now /\ P (place w (target e));
  vs_quiet : forall j, P j -> quiet_at w' j }.

Lemma waiting_le h l : (length (waiting h l) <= length l)%nat.
Proof. apply List.filter_length_le. Qed.

Lemma slot_loop_spec j fuel : forall w l1 l2 fired, structured w -> ranges_ok (events w) -> startTime w <= now ->
  slots w !! j = Some (l1 ++ l2) -> (forall id e, id ∈ l1 -> events w !! id = Some (Some e) -> now < target e) ->
  (length l2 + length (waiting (events w) l2) < fuel)%nat ->
  exists F w', slot_loop fuel now clock j (length l1) fired w = Val (fired ++ F, w') /\ visited (fun k => k = j) w F w'.
Proof.
  induction fuel as [|fuel IH]; intros w l1 l2 fired Hst Hrg Hnow Hj Hl1 Hf; [lia|]. cbn [slot_loop].
  unfold slot_of. rewrite Hj. cbn [of_option]. rewrite bind_Val. destruct l2 as [|event l2].
  - rewrite app_nil_r, lookup_ge_None_2 by done. exists [], w. rewrite app_nil_r. split; [done|]. split; [done|done|constructor| | |].
    { intros id. rewrite decide_False; [done|apply not_elem_of_nil]. } { intros id Hi. by apply not_elem_of_nil in Hi. }
    intros k -> id e He Hp. destruct (st_alive w Hst id e He) as [_ (l & Hl & Hi)]. rewrite Hp, Hj, app_nil_r in Hl. injection Hl as <-. by apply (Hl1 id).
  - rewrite list_lookup_middle by done. destruct (st_entry w Hst j _ event Hj) as (e & He & Hp); [apply elem_of_app; right; left|].
    unfold event_of. rewrite He. cbn [mjoin option_join of_option]. rewrite bind_Val.
    assert (waiting (events w) (event :: l2) = (if target e <=? now then [event] else []) ++ waiting (events w) l2) as Hw.
    { unfold waiting. cbn [List.filter]. rewrite He. cbn [mjoin option_join]. by destruct (_ <=? _). }
    rewrite Hw, length_app in Hf. cbn [length] in Hf. destruct (target e >? now) eqn:Et; zbool.
    + rewrite (proj2 (Z.leb_gt _ _)) in Hf by lia. cbv iota in Hf. cbn [length] in Hf.
      destruct (IH w (l1 ++ [event]) l2 fired Hst Hrg Hnow) as (F & w' & E & Hv); [by rewrite <- app_assoc| |lia|].
      { intros id e' [Hi| ->%list_elem_of_singleton]%elem_of_app He'; [by apply (Hl1 id)|]. rewrite He in He'. injection He' as <-. lia. }
      rewrite length_app, Nat.add_1_r in E. by exists F, w'.
    + rewrite (proj2 (Z.leb_le _ _)) in Hf by lia. cbv iota in Hf. cbn [length] in Hf.
      destruct (fire_step w j l1 l2 event e Hst Hrg Hnow Hj He) as (w1 & E1 & Hst1 & Hsame & Hf1 & back & Hj1 & Hback). cbv zeta in *.
      rewrite E1, bind_Val. set (w2 := w1 <| slots ::= alter (delete (length l1)) j |>) in *.
      assert (event ∉ l1 ++ l2) as Hnin.
      { pose proof (st_nodup w Hst j _ Hj) as Hn. apply NoDup_app in Hn as (N1 & N2 & N3). apply NoDup_cons in N3 as [N3 N4].
        rewrite elem_of_app. intros [Hi|Hi]; [apply (N2 event Hi); left|done]. }
      assert (forall id, id <> event -> events w2 !! id = events w !! id) as Hother.
      { intros id Hne. rewrite (Hf1 id), decide_False; [done|]. by intros ->%list_elem_of_singleton. }
      assert (Hlater : forall e', events w2 !! event = Some (Some e') -> now < target e').
      { intros e' He'. apply (fired_later [event] (events w) (events w2) event e' Hf1 Hrg); [left|done]. }
      destruct (IH w2 l1 (l2 ++ back) (fired ++ [event]) Hst1 (fired_ranges _ _ _ Hf1 Hrg)) as (F & w' & E & Hv).
      { by rewrite (proj1 Hsame). } { done. }
      { intros id e' Hi He'. rewrite Hother in He'; [by apply (Hl1 id)|]. intros ->. apply Hnin, elem_of_app. by left. }
      { assert (waiting (events w2) (l2 ++ back) = waiting (events w) l2) as ->.
        { unfold waiting. rewrite List.filter_app.
          assert (List.filter (fun id => match mjoin (events w2 !! id) with Some e => target e <=? now | None => false end) back = []) as ->.
          { destruct Hback as [->| ->]; [done|]. cbn [List.filter]. destruct (events w2 !! event) as [[e'|]|] eqn:E'; cbn [mjoin option_join]; try done.
            specialize (Hlater e' eq_refl). by rewrite (proj2 (Z.leb_gt _ _)) by lia. }
          rewrite app_nil_r. apply List.filter_ext_in. intros id Hi. rewrite Hother; [done|]. intros ->. apply Hnin, elem_of_app. right. by apply list_elem_of_In. }
        rewrite length_app. destruct Hback as [->| ->]; cbn [length]; lia. }
      exists (event :: F), w'. rewrite E, <- app_assoc. split; [done|]. destruct Hv as [V1 V2 V3 V4 V5 V6].
      assert (event ∉ F) as HnF.
      { intros Hi. destruct (V5 event Hi) as (e' & He' & Hle & _). specialize (Hlater e' He'). lia. }
      split; try done.
      * destruct Hsame as (A1 & A2 & A3), V2 as (B1 & B2 & B3). split; [congruence|split; congruence].
      * by apply NoDup_cons.
      * apply (fired_from_app [event] F) with (events w2); [done|done|]. by intros id ->%list_elem_of_singleton.
      * intros id [->|Hi]%elem_of_cons; [exists e; split; [done|split; [lia|done]]|].
        destruct (V5 id Hi) as (e' & He' & Hle & Hpl). exists e'. rewrite <- (Hother id) by (by intros ->). 
        rewrite (place_same _ _ _ Hsame) in Hpl. done.
Qed.
Lemma check_loop_spec n : forall w p fired, structured w -> ranges_ok (events w) -> startTime w <= now -> (p < 60)%nat ->
  exists F w', check_loop n now clock p fired w = Val (fired ++ F, w') /\ visited (fun j => exists k, (k < n)%nat /\ j = (p + k) mod 60)%nat w F w'.
Proof.
  induction n as [|n IH]; intros w p fired Hst Hrg Hnow Hp; cbn [check_loop].
  - exists [], w. rewrite app_nil_r. split; [done|]. split; [done|done|constructor| | |].
    { intros id. rewrite decide_False; [done|apply not_elem_of_nil]. } { intros id Hi. by apply not_elem_of_nil in Hi. }
    intros j (k & Hk & _). lia.
  - destruct (lookup_lt_is_Some_2 (slots w) p) as [l Hl]; [by rewrite (st_slots w Hst)|].
    unfold slot_of. rewrite Hl. cbn [of_option]. rewrite bind_Val.
    destruct (slot_loop_spec p (S (2 * length l)) w [] l fired Hst Hrg Hnow Hl) as (F1 & w1 & E1 & [U1 U2 U3 U4 U5 U6]).
    { intros id e Hi. by apply not_elem_of_nil in Hi. } { pose proof (waiting_le (events w) l). lia. }
    cbn [length] in E1. rewrite E1, bind_Val. rewrite (st_next w1 U1) by done. cbn [of_option]. rewrite bind_Val.
    set (p1 := if decide (p = 59%nat) then 0%nat else S p).
    assert (p1 = (p + 1) mod 60)%nat as Hp1.
    { unfold p1. destruct (decide _) as [->|]; [done|]. rewrite Nat.mod_small by lia. lia. }
    destruct (IH w1 p1 (fired ++ F1) U1 (fired_ranges _ _ _ U4 Hrg)) as (F2 & w2 & E2 & [V1 V2 V3 V4 V5 V6]).
    { by rewrite (proj1 U2). } { rewrite Hp1. apply Nat.mod_upper_bound. lia. }
    exists (F1 ++ F2), w2. rewrite E2, <- app_assoc. split; [done|].
    assert (forall id, id ∈ F1 -> id ∈ F2 -> False) as Hd.
    { intros id H1 H2. destruct (V5 id H2) as (e & He & Hle & _). pose proof (fired_later _ _ _ id e U4 Hrg H1 He). lia. }
    split.
    + done.
    + destruct U2 as (A1 & A2 & A3), V2 as (B1 & B2 & B3). split; [congruence|split; congruence].
    + apply NoDup_app. split; [done|]. split; [|done]. intros id H1 H2. by apply (Hd id).
    + by apply (fired_from_app F1 F2) with (events w1).
    + intros id [Hi|Hi]%elem_of_app.
      * destruct (U5 id Hi) as (e & He & Hle & Hpl). exists e. split; [done|]. split; [done|]. exists 0%nat. split; [lia|].
        rewrite Nat.add_0_r, Nat.mod_small; done.
      * destruct (V5 id Hi) as (e & He & Hle & k & Hk & Hpl). rewrite (U4 id), decide_False in He by (intros H1; by apply (Hd id)).
        exists e. split; [done|]. split; [done|]. exists (S k). split; [lia|]. rewrite <- (place_same _ _ _ U2), Hpl, Hp1.
        rewrite Nat.Div0.add_mod_idemp_l. f_equal. lia.
    + intros j (k & Hk & ->) id e He Hpl. destruct (decide (id ∈ F2)) as [Hi|Hi].
      { apply (fired_later F2 (events w1) (events w2) id e V4); [by apply (fired_ranges F1 (events w))|done|done]. }
      destruct k as [|k].
      * rewrite (V4 id), decide_False in He by done. rewrite (place_same _ _ _ V2) in Hpl. apply (U6 p eq_refl id e He).
        rewrite Hpl, Nat.add_0_r, Nat.mod_small; done.
      * apply (V6 ((p1 + k) mod 60)%nat) with id; [exists k; split; [lia|done]|done|]. rewrite Hpl, Hp1, Nat.Div0.add_mod_idemp_l. f_equal. lia.
Qed.
End Check.

(** ** A check *)

(** The slots that are visited are those of the events that are due. *)
Lemma visited_slots w now t : startTime w <= lastCheckTime w <= t -> lastCheckTime w <= now -> t <= now ->
  (exists k, (k < Z.to_nat (Z.min (now - lastCheckTime w) 60))%nat /\ place w t = ((place w (lastCheckTime w) + k) mod 60)%nat) <->
  t < now \/ (t = now /\ 60 <= now - lastCheckTime w).
Proof.
  intros Ht Hn Htn. set (s := startTime w) in *. set (last := lastCheckTime w) in *. unfold place. fold s.
  pose proof (Z.mod_pos_bound (t - s) 60 ltac:(lia)). pose proof (Z.mod_pos_bound (last - s) 60 ltac:(lia)). split.
  - intros (k & Hk & E). assert (Z.of_nat k < Z.min (now - last) 60) as Hk' by lia.
    assert ((t - s) mod 60 = ((last - s) mod 60 + Z.of_nat k) mod 60) as E'.
    { apply (f_equal Z.of_nat) in E. rewrite Nat2Z.inj_mod, Nat2Z.inj_add, !Z2Nat.id in E by lia. exact E. }
    destruct (Z.eq_dec t now) as [->|]; [right|left; lia]. split; [done|]. destruct (Z_lt_dec (now - last) 60); [|lia]. exfalso. dlia.
  - intros Hd. exists (Z.to_nat ((t - last) mod 60)). pose proof (Z.mod_pos_bound (t - last) 60 ltac:(lia)). split.
    + destruct (Z_lt_dec (now - last) 60) as [Hlt|Hge]; [|lia]. rewrite (Z.mod_small (t - last)) by lia. lia.
    + apply Nat2Z.inj. rewrite Nat2Z.inj_mod, Nat2Z.inj_add, !Z2Nat.id by lia. change (Z.of_nat 60) with 60. dlia.
Qed.

(** The events that are due at a check, in the order of their creation. *)
Definition due_list (last now : Z) (h : list (option TimeoutEvent)) : list nat :=
  List.filter (fun id => match mjoin (h !! id) with Some e => due last now e | None => false end) (seq 0 (length h)).

(** Between two calls: no event is older than the last check. *)
Record good (w : TimeWheel) : Prop := {
  gd_structured : structured w;
  gd_ranges : ranges_ok (events w);
  gd_start : 0 <= startTime w <= lastCheckTime w;
  gd_targets : forall id e, events w !! id = Some (Some e) -> lastCheckTime w <= target e }.

Lemma due_spec last now e : due last now e = true <-> target e < now \/ (target e = now /\ 60 <= now - last).
Proof. unfold due. rewrite orb_true_iff, andb_true_iff, Z.ltb_lt, Z.eqb_eq, Z.leb_le. done. Qed.

Lemma due_list_in last now h id : id ∈ due_list last now h <-> exists e, h !! id = Some (Some e) /\ due last now e = true.
Proof.
  unfold due_list. rewrite list_elem_of_In, filter_In, in_seq. split.
  - intros [_ Hm]. destruct (h !! id) as [[e|]|]; cbn in Hm; try done. by exists e.
  - intros (e & He & Hd). split; [|by rewrite He]. apply lookup_lt_Some in He. lia.
Qed.

Lemma check_spec now clock w : good w -> lastCheckTime w <= now -> (forall id, now <= clock id < 2 ^ 61) ->
  exists F w', check now clock w = Val (F, w') /\ Permutation F (due_list (lastCheckTime w) now (events w)) /\
    events w' = imap (after_check (lastCheckTime w) now clock) (events w) /\ lastCheckTime w' = now /\ good w'.
Proof.
  intros [Hst Hrg Hs Htg] Hnow Hclock. unfold check. rewrite slot_index_place, bind_Val by lia.
  destruct (check_loop_spec now clock ltac:(lia) Hclock (Z.to_nat (Z.min (now - lastCheckTime w) 60)) w (place w (lastCheckTime w)) [] Hst Hrg)
    as (F & w' & E & [V1 V2 V3 V4 V5 V6]); [lia|apply place_bound|].
  rewrite E, bind_Val. cbn [app]. exists F, (w' <| lastCheckTime := now |>). split; [done|].
  assert (forall id, id ∈ F <-> exists e, events w !! id = Some (Some e) /\ due (lastCheckTime w) now e = true) as HF.
  { intros id. split.
    - intros Hi. destruct (V5 id Hi) as (e & He & Hle & k & Hk & Hpl). exists e. split; [done|]. apply due_spec.
      apply visited_slots; [split; [lia|by apply (Htg id)]|lia|lia|]. by exists k.
    - intros (e & He & Hd). destruct (decide (id ∈ F)) as [|Hn]; [done|]. exfalso. apply due_spec in Hd.
      assert (now < target e); [|lia]. apply (V6 (place w (target e))) with id; [|by rewrite (V4 id), decide_False|].
      + apply visited_slots; [split; [lia|by apply (Htg id)]|lia|lia|done].
      + by rewrite (place_same _ _ _ V2). }
  assert (events w' = imap (after_check (lastCheckTime w) now clock) (events w)) as Hev.
  { apply list_eq. intros id. rewrite list_lookup_imap, (V4 id). destruct (decide (id ∈ F)) as [Hi|Hn].
    - destruct (proj1 (HF id) Hi) as (e & He & Hd). rewrite He. cbn. by rewrite Hd.
    - destruct (events w !! id) as [[e|]|] eqn:He; cbn; try done. destruct (due _ _ e) eqn:Hd; [|done].
      exfalso. apply Hn, HF. by exists e. }
  split; [|split; [exact Hev|split; [done|]]].
  - apply NoDup_Permutation; [done|apply NoDup_ListNoDup, List.NoDup_filter, seq_NoDup|]. intros id. by rewrite HF, due_list_in.
  - destruct V2 as (A1 & A2 & A3). split.
    + destruct V1 as [S1 S2 S3 S4 S5]. by split.
    + by apply (fired_ranges clock F (events w)).
    + cbn. rewrite A1. lia.
    + intros id e He. change (events w' !! id = Some (Some e)) in He. cbn. rewrite Hev, list_lookup_imap in He.
      destruct (events w !! id) as [[e0|]|] eqn:He0; cbn in He; try done. destruct (due _ _ e0) eqn:Hd.
      * destruct (repeat e0) eqn:Hb; [|done]. injection He as <-. cbn. pose proof (Hclock id). destruct (Hrg id e0 He0). lia.
      * injection He as <-. pose proof (Htg id e0 He0) as Hge. destruct (Z_lt_dec (target e0) now) as [Hlt|]; [|lia].
        exfalso. rewrite (proj2 (due_spec _ _ _)) in Hd by (by left). done.
Qed.

(** ** Sequences of calls *)

Inductive op :=
| Delay (now : Z) (cb : nat) (seconds : Z) (rep : bool)
| Cancel (event : nat)
| Elapse (now : Z) (clock : nat -> Z).
Inductive answer := Added (event : nat) | Cancelled | Fired (events : list nat).

Definition run_op (o : op) (w : TimeWheel) : outcome (answer * TimeWheel) :=
  match o with
  | Delay now cb seconds rep => '(event, w) ← delay now cb seconds rep w; Val (Added event, w)
  | Cancel event => w ← cancel event w; Val (Cancelled, w)
  | Elapse now clock => '(fired, w) ← check now clock w; Val (Fired fired, w)
  end.
Fixpoint run (ops : list op) (w : TimeWheel) : outcome (list answer * TimeWheel) :=
  match ops with
  | [] => Val ([], w)
  | o :: ops => '(a, w) ← run_op o w; '(l, w) ← run ops w; Val (a :: l, w)
  end.

(** The specification keeps the time of the last check and the events; an event can be cancelled while it is there. *)
Definition spec_op (o : op) (s : Z * list (option TimeoutEvent)) : option (answer * (Z * list (option TimeoutEvent))) :=
  let '(last, h) := s in
  match o with
  | Delay now cb seconds rep => Some (Added (length h), (last, h ++ [Some (MkEvent seconds (now + seconds) rep cb)]))
  | Cancel event => match h !! event with Some (Some _) => Some (Cancelled, (last, <[event := None]> h)) | _ => None end
  | Elapse now clock => Some (Fired (due_list last now h), (now, imap (after_check last now clock) h))
  end.
Fixpoint run_spec (ops : list op) (s : Z * list (option TimeoutEvent)) : option (list answer * (Z * list (option TimeoutEvent))) :=
  match ops with
  | [] => Some ([], s)
  | o :: ops => '(a, s) ← spec_op o s; '(l, s) ← run_spec ops s; Some (a :: l, s)
  end.

(** The clock does not go back behind the last check; delays are not negative, and those of repeated events not zero. *)
Definition op_ok (o : op) (last : Z) : Prop :=
  match o with
  | Delay now _ seconds rep => last <= now < 2 ^ 61 /\ 0 <= seconds < 2 ^ 61 /\ (rep = true -> 1 <= seconds)
  | Cancel _ => True
  | Elapse now clock => last <= now /\ forall id, now <= clock id < 2 ^ 61
  end.
Fixpoint ops_ok (ops : list op) (last : Z) : Prop :=
  match ops with
  | [] => True
  | o :: ops => op_ok o last /\ ops_ok ops (match o with Elapse now _ => now | _ => last end)
  end.

(** The same answers, events that fire at the same check in any order. *)
Inductive same_answer : answer -> answer -> Prop :=
| same_refl a : same_answer a a
| same_fired l k : Permutation l k -> same_answer (Fired l) (Fired k).

Lemma delay_spec now cb seconds rep w : good w -> op_ok (Delay now cb seconds rep) (lastCheckTime w) ->
  exists w', delay now cb seconds rep w = Val (length (events w), w') /\ good w' /\ lastCheckTime w' = lastCheckTime w /\
    events w' = events w ++ [Some (MkEvent seconds (now + seconds) rep cb)].
Proof.
  intros [Hst Hrg Hs Htg] (H1 & H2 & H3). unfold delay, add64.
  rewrite (proj2 (Z.leb_le _ _)), (proj2 (Z.ltb_lt _ _)) by lia. cbn [andb]. rewrite bind_Val.
  set (e := MkEvent seconds (now + seconds) rep cb). set (id := length (events w)). set (h' := events w ++ [Some e]).
  rewrite slot_index_place by (cbn; lia). rewrite bind_Val. set (w1 := update events _ w). change (place w1 (now + seconds)) with (place w (now + seconds)).
  set (k := place w (now + seconds)). set (w' := emplace_back k id w1). exists w'. split; [done|].
  assert (Hh : forall i e', h' !! i = Some (Some e') <-> events w !! i = Some (Some e') \/ (i = id /\ e' = e)).
  { intros i e'. unfold h'. rewrite lookup_app_Some. fold id. split.
    - intros [Hi|[Hi Hx]]; [by left|right]. apply list_lookup_singleton_Some in Hx as [Hx Hy]. split; [unfold id in *; lia|by injection Hy].
    - intros [Hi|[-> ->]]; [by left|right]. split; [done|]. by rewrite Nat.sub_diag. }
  assert (Hk : (k < length (slots w))%nat) by (rewrite (st_slots w Hst); apply place_bound).
  assert (Hsl : forall m l', slots w' !! m = Some l' -> exists l, slots w !! m = Some l /\ l' = l ++ (if decide (m = k) then [id] else [])).
  { intros m l' Hm. change (slots w') with (alter (fun l => l ++ [id]) k (slots w)) in Hm. rewrite list_lookup_alter in Hm. destruct (decide (m = k)) as [->|Hne].
    - rewrite decide_True in Hm by done. destruct (slots w !! k) as [l|]; [|done]. injection Hm as <-. by exists l.
    - rewrite decide_False in Hm by done. exists l'. by rewrite app_nil_r. }
  assert (Hnew : forall m l, slots w !! m = Some l -> id ∉ l).
  { intros m l Hm Hi. destruct (st_entry w Hst m l id Hm Hi) as (e' & He' & _). apply lookup_lt_Some in He'. unfold id in He'. lia. }
  split; [|split; [done|done]]. split.
  - split.
    + change (slots w') with (alter (fun l => l ++ [id]) k (slots w)). rewrite length_alter. apply Hst.
    + apply Hst.
    + intros m l' i Hm Hi. change (events w') with h'. destruct (Hsl m l' Hm) as (l & Hl & ->). apply elem_of_app in Hi as [Hi|Hi].
      * destruct (st_entry w Hst m l i Hl Hi) as (e' & He' & Hp). exists e'. split; [apply Hh; by left|done].
      * destruct (decide (m = k)) as [->|]; [|by apply not_elem_of_nil in Hi]. apply list_elem_of_singleton in Hi as ->. exists e. split; [apply Hh; by right|done].
    + intros m l' Hm. destruct (Hsl m l' Hm) as (l & Hl & ->). apply NoDup_app. split; [by apply (st_nodup w Hst m)|].
      destruct (decide _); [|split; [intros x _; apply not_elem_of_nil|constructor]]. split; [|apply NoDup_singleton].
      intros x Hx ->%list_elem_of_singleton. by apply (Hnew m l).
    + intros i e' He'. change (events w' !! i) with (h' !! i) in He'. change (place w' (target e')) with (place w (target e')). change (startTime w') with (startTime w).
      assert (Hex : forall m, (m < length (slots w))%nat -> exists l l', slots w !! m = Some l /\ slots w' !! m = Some l' /\ l' = l ++ (if decide (m = k) then [id] else [])).
      { intros m Hm. destruct (lookup_lt_is_Some_2 (slots w') m) as [l' Hl'].
        { change (slots w') with (alter (fun l => l ++ [id]) k (slots w)). by rewrite length_alter. }
        destruct (Hsl m l' Hl') as (l & Hl & Hx). by exists l, l'. }
      apply Hh in He' as [He'|[-> ->]].
      * destruct (st_alive w Hst i e' He') as [Hle (l & Hl & Hi)]. split; [done|].
        destruct (Hex (place w (target e'))) as (l0 & l' & H0 & Hl' & ->); [rewrite (st_slots w Hst); apply place_bound|].
        rewrite Hl in H0. injection H0 as <-. exists (l ++ (if decide (place w (target e') = k) then [id] else [])). split; [done|]. apply elem_of_app. by left.
      * split; [cbn; lia|]. destruct (Hex k Hk) as (l0 & l' & _ & Hl' & ->). change (place w (target e)) with k. eexists. split; [exact Hl'|].
        rewrite decide_True by done. apply elem_of_app. right. by left.
  - intros i e' He'. apply Hh in He' as [He'|[-> ->]]; [by apply (Hrg i)|]. cbn. split; [lia|done].
  - done.
  - intros i e' He'. change (lastCheckTime w') with (lastCheckTime w). apply Hh in He' as [He'|[-> ->]]; [by apply (Htg i)|]. cbn. lia.
Qed.

Lemma cancel_spec id e w : good w -> events w !! id = Some (Some e) ->
  exists w', cancel id w = Val w' /\ good w' /\ lastCheckTime w' = lastCheckTime w /\ events w' = <[id := None]> (events w).
Proof.
  intros [Hst Hrg Hs Htg] He. unfold cancel, event_of. rewrite He. cbn [mjoin option_join of_option]. rewrite bind_Val.
  pose proof (Htg id e He) as Hle. rewrite slot_index_place, bind_Val by lia. set (k := place w (target e)). eexists. split; [done|].
  set (f := List.filter (fun i => negb (i =? id)%nat)).
  assert (Hf : forall l i, i ∈ f l <-> i ∈ l /\ i <> id).
  { intros l i. unfold f. rewrite !list_elem_of_In, filter_In, negb_true_iff, Nat.eqb_neq. done. }
  assert (Hh : forall i e', <[id := None]> (events w) !! i = Some (Some e') <-> events w !! i = Some (Some e') /\ i <> id).
  { intros i e'. destruct (decide (i = id)) as [->|Hne].
    - rewrite list_lookup_insert_eq by (by apply lookup_lt_Some in He). split; [done|]. by intros [_ ?].
    - rewrite list_lookup_insert_ne by done. tauto. }
  assert (Hsl : forall m, alter f k (slots w) !! m = (fun l => if decide (m = k) then f l else l) <$> (slots w !! m)).
  { intros m. rewrite list_lookup_alter. destruct (decide (m = k)) as [->|Hne]; [by rewrite decide_True|rewrite decide_False by done]. by destruct (slots w !! m). }
  split; [|split; [done|done]]. split.
  - split.
    + cbn. rewrite length_alter. apply Hst.
    + apply Hst.
    + intros m l' i Hm Hi. cbn in Hm |- *. rewrite Hsl in Hm. destruct (slots w !! m) as [l|] eqn:Hl; [|done]. cbn in Hm. injection Hm as <-.
      assert (i ∈ l /\ i <> id) as [Hi' Hne].
      { destruct (decide (m = k)) as [->|Hmk]; [by apply Hf|]. split; [done|]. intros ->.
        destruct (st_entry w Hst m l id Hl Hi) as (e' & He' & Hp). rewrite He in He'. injection He' as <-. by apply Hmk. }
      destruct (st_entry w Hst m l i Hl Hi') as (e' & He' & Hp). exists e'. split; [by apply Hh|done].
    + intros m l' Hm. cbn in Hm. rewrite Hsl in Hm. destruct (slots w !! m) as [l|] eqn:Hl; [|done]. cbn in Hm. injection Hm as <-.
      pose proof (st_nodup w Hst m l Hl). destruct (decide _); [|done]. apply NoDup_ListNoDup, List.NoDup_filter. by apply NoDup_ListNoDup.
    + intros i e' He'. cbn in He' |- *. apply Hh in He' as [He' Hne]. destruct (st_alive w Hst i e' He') as [Hge (l & Hl & Hi)]. split; [done|].
      change (place _ (target e')) with (place w (target e')).
      exists (if decide (place w (target e') = k) then f l else l). split; [by rewrite Hsl, Hl|]. destruct (decide _); [by apply Hf|done].
  - intros i e' He'. cbn in He'. apply Hh in He' as [He' _]. by apply (Hrg i).
  - done.
  - intros i e' He'. cbn in He' |- *. apply Hh in He' as [He' _]. by apply (Htg i).
Qed.

Lemma cancel_gone id w : (forall e, events w !! id <> Some (Some e)) -> cancel id w = Undef.
Proof.
  intros He. unfold cancel, event_of. destruct (events w !! id) as [[e|]|]; [|done|done]. by destruct (He e).
Qed.

Lemma wheel_run_refines ops : forall w, good w -> ops_ok ops (lastCheckTime w) ->
  match run_spec ops (lastCheckTime w, events w) with
  | Some (l, (last, h)) => exists l' w', run ops w = Val (l', w') /\ Forall2 same_answer l' l /\ events w' = h /\ lastCheckTime w' = last
  | None => run ops w = Undef
  end.
Proof.
  induction ops as [|o ops IH]; intros w Hg Ho.
  - exists [], w. split; [done|]. split; [constructor|done].
  - destruct Ho as [Ho Hos]. cbn [run run_spec].
    enough (match spec_op o (lastCheckTime w, events w) with
            | Some (a, (last, h)) => exists a' w1, run_op o w = Val (a', w1) /\ same_answer a' a /\ good w1 /\ events w1 = h /\ lastCheckTime w1 = last /\
                last = match o with Elapse now _ => now | _ => lastCheckTime w end
            | None => run_op o w = Undef
            end) as Hstep.
    { destruct (spec_op o (lastCheckTime w, events w)) as [[a [last h]]|]; [|by rewrite Hstep].
      destruct Hstep as (a' & w1 & E1 & Ha & Hg1 & Hh & Hlast & Hl). rewrite E1, bind_Val. cbn [mbind option_bind].
      specialize (IH w1 Hg1). rewrite Hlast, Hh in IH. rewrite <- Hl in Hos. specialize (IH Hos).
      destruct (run_spec ops (last, h)) as [[l [last2 h2]]|]; [|by rewrite IH].
      destruct IH as (l' & w2 & E2 & Hl2 & Hh2 & Hlast2). rewrite E2. exists (a' :: l'), w2. split; [done|]. split; [by constructor|done]. }
    destruct o as [now cb seconds rep|id|now clock]; cbn [spec_op run_op].
    + destruct (delay_spec now cb seconds rep w Hg Ho) as (w1 & E & Hg1 & Hlast & Hh). rewrite E, bind_Val.
      eexists _, w1. split; [done|]. split; [constructor|done].
    + destruct (events w !! id) as [[e|]|] eqn:He.
      * destruct (cancel_spec id e w Hg He) as (w1 & E & Hg1 & Hlast & Hh). rewrite E, bind_Val. eexists _, w1. split; [done|]. split; [constructor|done].
      * rewrite cancel_gone; [done|]. intros e. by rewrite He.
      * rewrite cancel_gone; [done|]. intros e. by rewrite He.
    + destruct Ho as [Hnow Hclock]. destruct (check_spec now clock w Hg Hnow Hclock) as (F & w1 & E & HF & Hh & Hlast & Hg1). rewrite E, bind_Val.
      eexists _, w1. split; [done|]. split; [by constructor|done].
Qed.

Lemma new_good now : 0 <= now -> good (new_wheel now).
Proof. intros Hn. split; [apply new_structured|intros id e He; done|cbn; lia|intros id e He; done]. Qed.

(** ** Properties *)

(** C20: the wheel of sixty slots keeps time for any sequence of delays, cancellations and checks: a check fires exactly the
    events whose time is past, each once, and those whose time is now when a minute has gone by since the last check; an event that is not repeated is
    then gone, a repeated one comes back after its delay; no event is lost, fires early or fires after it has been cancelled. Cancelling an event that is
    not there is the only undefined step. *)
Theorem time_wheel_refines (start : Z) (ops : list op) :
  0 <= start -> ops_ok ops start ->
  match run_spec ops (start, []) with
  | Some (l, (last, h)) => exists l' w, run ops (new_wheel start) = Val (l', w) /\ Forall2 same_answer l' l /\ events w = h /\ lastCheckTime w = last
  | None => run ops (new_wheel start) = Undef
  end.
Proof. intros Hs Ho. exact (wheel_run_refines ops (new_wheel start) (new_good start Hs) Ho). Qed.

Definition sample_ops : list op :=
  [Delay 100 7 5 false; Delay 101 8 61 true; Delay 102 9 200 false; Elapse 105 (fun _ => 105); Elapse 106 (fun _ => 106);
   Cancel 2; Elapse 300 (fun _ => 301); Elapse 363 (fun _ => 363)].

Lemma time_wheel_refines_witness :
  run_spec sample_ops (100, []) =
    Some ([Added 0; Added 1; Added 2; Fired []; Fired [0%nat]; Cancelled; Fired [1%nat]; Fired [1%nat]],
          (363, [None; Some (MkEvent 61 424 true 8); None])) /\
  exists l w, run sample_ops (new_wheel 100) = Val (l, w) /\
    Forall2 same_answer l [Added 0; Added 1; Added 2; Fired []; Fired [0%nat]; Cancelled; Fired [1%nat]; Fired [1%nat]] /\
    events w = [None; Some (MkEvent 61 424 true 8); None] /\ lastCheckTime w = 363.
Proof.
  split; [vm_compute; reflexivity|].
  apply (time_wheel_refines 100 sample_ops).
  - lia.
  - cbn. repeat split; (lia || discriminate).
Defined.

(** An event that repeats without a delay can come back to the slot that is being visited, for ever. *)
Example repeat_without_delay :
  ('(_, w) ← delay 100 7 0 true (new_wheel 100); check 160 (fun _ => 160) w) = Undef.
Proof. vm_compute. reflexivity. Qed.

(** A time before the wheel's start has no slot. *)
Example delay_before_start : delay 100 7 (-10) false (new_wheel 100) = Undef.
Proof. vm_compute. reflexivity. Qed.
