(* ===== verification/Double.v ===== *)
(** * Numbers of type [double]

    What the code uses of the standard library for [double]: [std::to_string] and
    [std::stod], with a binary64 number as the [spec_float] of the Standard Library. *)

From Stdlib Require Import SpecFloat.
From S2P Require Import Prelude Text.

Abbreviation double := spec_float.
Abbreviation prec := 53%Z.
Abbreviation emax := 1024%Z.

(** [n / d], rounded to nearest. *)
Definition ratio (neg : bool) (n d : Z) : double :=
  match n, d with
  | Zpos _, Zpos _ => let '(m, e, l) := SFdiv_core_binary prec emax n 0 d 0 in binary_round_aux prec emax neg m e l
  | _, _ => S754_zero neg
  end.

(** [static_cast<double>(n)]. *)
Definition of_integer (n : Z) : double := binary_normalize prec emax n 0 false.

(** [static_cast<int64_t>(d)]; a value out of range is undefined. *)
Definition truncate (d : double) : outcome Z :=
  match d with
  | S754_zero _ => Val 0
  | S754_finite s m e =>
      let n := Z.shiftl (Zpos m) e in
      let n := if s then - n else n in
      if swrap 64 n =? n then Val n else Undef
  | _ => Undef
  end.

(** ** Printing *)

(** The digits of a number of any size. *)
Definition big_digits (n : Z) : bytes := digits (S (Z.to_nat (Z.log2 n))) n [].

(** [n / 2 ^ k] to nearest, ties to even. *)
Definition round_half_even (n k : Z) : Z :=
  let q := Z.shiftr n k in
  let r := n - Z.shiftl q k in
  let half := Z.shiftl 1 (k - 1) in
  if (half <? r) || ((half =? r) && Z.odd q) then q + 1 else q.

(** [std::to_string(double)], that is [%f]: six digits after the point. *)
Definition to_string_f (d : double) : bytes :=
  match d with
  | S754_zero s => (if s then str "-" else []) ++ str "0.000000"
  | S754_infinity s => (if s then str "-" else []) ++ str "inf"
  | S754_nan => str "nan"
  | S754_finite s m e =>
      let n := Zpos m * 1000000 in
      let n := if 0 <=? e then Z.shiftl n e else round_half_even n (- e) in
      let f := big_digits (n mod 1000000) in
      (if s then str "-" else []) ++ big_digits (n / 1000000) ++ str "." ++ repeat 48 (6 - length f) ++ f
  end.

(** ** Reading *)

Definition hex_digit (c : byte) : option Z :=
  if isdigit c then Some (c - 48)
  else if (97 <=? tolower c) && (tolower c <=? 102) then Some (tolower c - 87) else None.

(** Digits of a base, with at most one point among them: how many there are, how many come
    after the point, and their value. *)
Fixpoint mantissa (base : Z) (digit : byte -> option Z) (point : bool) (count after acc : Z) (s : bytes) : Z * Z * Z * bytes :=
  match s with
  | [] => (count, after, acc, [])
  | c :: s' =>
      if (c =? 46) && negb point then mantissa base digit true count after acc s'
      else match digit c with
           | Some v => mantissa base digit point (count + 1) (if point then after + 1 else after) (base * acc + v) s'
           | None => (count, after, acc, s)
           end
  end.

(** An exponent after its letter, zero when there is none. *)
Definition exponent (letter : byte) (s : bytes) : Z :=
  match s with
  | c :: s =>
      if tolower c =? letter then
        let '(neg, s) := match s with 45 :: r => (true, r) | 43 :: r => (false, r) | _ => (false, s) end in
        let n := digits_val (fst (span_digits s)) in if neg then - n else n
      else 0
  | [] => 0
  end.

(** [std::stod]: [None] when it throws, because there is no number, or because it is too
    large, or so small that it cannot be held exactly. *)
Definition checked (neg : bool) (n d : Z) : option double :=
  let x := ratio neg n d in
  match x with
  | S754_infinity _ => None
  | S754_zero _ => if n =? 0 then Some x else None
  | S754_finite _ m e =>
      if (Zpos m <? 2 ^ 52) && negb (Z.shiftl n (Z.max 0 (- e)) =? Zpos m * d * 2 ^ Z.max 0 e) then None else Some x
  | S754_nan => Some x
  end.

Definition decimal_digit (c : byte) : option Z := if isdigit c then Some (c - 48) else None.

Definition stod (s : bytes) : option double :=
  let s := skip_space (cstr s) in
  let '(neg, s) := match s with 45 :: r => (true, r) | 43 :: r => (false, r) | _ => (false, s) end in
  let lower := map tolower s in
  if bool_decide (take 3 lower = str "inf") then Some (S754_infinity neg)
  else if bool_decide (take 3 lower = str "nan") then Some S754_nan
  else
    let '(hcount, hafter, h, hrest) :=
      if bool_decide (take 2 lower = str "0x") then mantissa 16 hex_digit false 0 0 0 (drop 2 s) else (0, 0, 0, []) in
    if 0 <? hcount then
      let e := exponent 112 hrest - 4 * hafter in
      if h =? 0 then Some (S754_zero neg) else checked neg (Z.shiftl h (Z.max 0 e)) (Z.shiftl 1 (Z.max 0 (- e)))
    else
      let '(count, after, n, rest) := mantissa 10 decimal_digit false 0 0 0 s in
      if count =? 0 then None
      else
        let e := exponent 101 rest - after in
        if n =? 0 then Some (S754_zero neg) else checked neg (n * 10 ^ Z.max 0 e) (10 ^ Z.max 0 (- e)).

Example stod_tenth : stod (str " -0.1e0,") = Some (S754_finite true 7205759403792794 (-56)).
Proof. vm_compute. reflexivity. Qed.
Example stod_hex : stod (str "0x1.8p1") = Some (of_integer 3).
Proof. vm_compute. reflexivity. Qed.
Example stod_half : stod (str "2.5") = Some (S754_finite false 5629499534213120 (-51)).
Proof. vm_compute. reflexivity. Qed.

(** What follows a valid exponent. *)
Definition exponent_rest (letter : byte) (s : bytes) : bytes :=
  match s with
  | c :: t =>
      if tolower c =? letter then
        let '(d, r) := span_digits (match t with 45 :: r => r | 43 :: r => r | _ => t end) in
        match d with [] => s | _ => r end
      else s
  | [] => []
  end.

(** The sequence in parentheses after [nan]. *)
Fixpoint nan_chars (s : bytes) : option bytes :=
  match s with
  | [] => None
  | c :: s =>
      if c =? 41 then Some s
      else if isdigit c || ((97 <=? tolower c) && (tolower c <=? 122)) || (c =? 95) then nan_chars s else None
  end.
Definition nan_rest (s : bytes) : bytes := match s with 40 :: r => default s (nan_chars r) | _ => s end.

(** [std::strtod]: the value, clamped and rounded, and the rest of the C string; the whole string is
    left when there is no number. *)
Definition strtod (s : bytes) : double * bytes :=
  let t := skip_space (cstr s) in
  let '(neg, t) := match t with 45 :: r => (true, r) | 43 :: r => (false, r) | _ => (false, t) end in
  let lower := map tolower t in
  if bool_decide (take 8 lower = str "infinity") then (S754_infinity neg, drop 8 t)
  else if bool_decide (take 3 lower = str "inf") then (S754_infinity neg, drop 3 t)
  else if bool_decide (take 3 lower = str "nan") then (S754_nan, nan_rest (drop 3 t))
  else
    let '(hcount, hafter, h, hrest) :=
      if bool_decide (take 2 lower = str "0x") then mantissa 16 hex_digit false 0 0 0 (drop 2 t) else (0, 0, 0, []) in
    if 0 <? hcount then
      let e := exponent 112 hrest - 4 * hafter in
      (if h =? 0 then S754_zero neg else ratio neg (Z.shiftl h (Z.max 0 e)) (Z.shiftl 1 (Z.max 0 (- e))), exponent_rest 112 hrest)
    else
      let '(count, after, n, rest) := mantissa 10 decimal_digit false 0 0 0 t in
      if count =? 0 then (S754_zero false, cstr s)
      else
        let e := exponent 101 rest - after in
        (if n =? 0 then S754_zero neg else ratio neg (n * 10 ^ Z.max 0 e) (10 ^ Z.max 0 (- e)), exponent_rest 101 rest).

Example strtod_rest : strtod (str "2.5e+x") = (S754_finite false 5629499534213120 (-51), str "e+x").
Proof. vm_compute. reflexivity. Qed.
Example strtod_none : strtod (str " .e1") = (S754_zero false, str " .e1").
Proof. vm_compute. reflexivity. Qed.
Example print_half : to_string_f (S754_finite true 5629499534213120 (-51)) = str "-2.500000".
Proof. vm_compute. reflexivity. Qed.
Example print_tenth : to_string_f (S754_finite false 7205759403792794 (-56)) = str "0.100000".
Proof. vm_compute. reflexivity. Qed.
Example print_large : to_string_f (of_integer (2 ^ 70)) = str "1180591620717411303424.000000".
Proof. vm_compute. reflexivity. Qed.
