(* ===== verification/Value.v ===== *)
(** * Values

    Models [sese/util/Value.h] and [Value.cpp]: dynamically typed values with lists and
    dictionaries, their conversions and the text of [toString]. The elements are owned by
    their container and never null; whether two values are the same object, which
    [operator==] asks for some types, is an argument. *)

From Stdlib Require Import SpecFloat.
From S2P Require Import Prelude Text OrdMap Double.

Module Value.

(*@ sese/util/Value.h 38-47 Value::Type *)
Inductive Type_ := NONE | BOOL | INT | DOUBLE | STRING | BLOB | LIST | DICT.
#[export] Instance Type_eq_dec : EqDecision Type_.
Proof. solve_decision. Defined.

(*@ sese/util/Value.h 293-293 Value *)
(** [std::variant] of the types; a dictionary is a sorted list of entries. *)
Inductive t :=
| Null | Bool (b : bool) | Int (n : Z) | Double (d : double) | String (s : bytes) | Blob (b : bytes)
| List (l : list t) | Dict (m : list (bytes * t)).

(** Induction through the containers. *)
Lemma value_ind (P : t -> Prop) :
  P Null -> (forall b, P (Bool b)) -> (forall n, P (Int n)) -> (forall d, P (Double d)) -> (forall s, P (String s)) ->
  (forall b, P (Blob b)) -> (forall l, Forall P l -> P (List l)) -> (forall m, Forall (fun e => P (snd e)) m -> P (Dict m)) ->
  forall v, P v.
Proof.
  intros H1 H2 H3 H4 H5 H6 H7 H8. fix self 1. intros [|b|n|d|s|b|l|m].
  - exact H1.
  - apply H2.
  - apply H3.
  - apply H4.
  - apply H5.
  - apply H6.
  - apply H7. induction l as [|v l IH]; constructor; [apply self|exact IH].
  - apply H8. induction m as [|[k v] m IH]; constructor; [apply self|exact IH].
Qed.

(*@ sese/util/Value.cpp 29-56 Value::Value *)
Definition of_type (type : Type_) : t :=
  match type with
  | NONE => Null | BOOL => Bool false | INT => Int 0 | DOUBLE => Double (S754_zero false) | STRING => String []
  | BLOB => Blob [] | LIST => List [] | DICT => Dict []
  end.

(*@ sese/util/Value.cpp 81-83 Value::list *)
Definition list_ : t := of_type LIST.
(*@ sese/util/Value.cpp 85-87 Value::dict *)
Definition dict : t := of_type DICT.

(*@ sese/util/Value.cpp 89-91 Value::getType *)
Definition getType (v : t) : Type_ :=
  match v with
  | Null => NONE | Bool _ => BOOL | Int _ => INT | Double _ => DOUBLE | String _ => STRING | Blob _ => BLOB
  | List _ => LIST | Dict _ => DICT
  end.

(*@ sese/util/Value.cpp 93-123 Value::isDict *)
(** And the tests of the other types. *)
Definition is_type (type : Type_) (v : t) : bool := bool_decide (getType v = type).

(*@ sese/util/Value.cpp 125-134 Value::getIfBool *)
Definition getIfBool (v : t) : option bool :=
  match v with
  | Bool b => Some b
  | Int n => Some (negb (n =? 0))
  | Double d => Some (negb (SFeqb d (S754_zero false)))
  | _ => None
  end.

(*@ sese/util/Value.cpp 136-143 Value::getIfInt *)
Definition getIfInt (v : t) : outcome (option Z) :=
  match v with
  | Int n => Val (Some n)
  | Double d => n ← truncate d; Val (Some n)
  | _ => Val None
  end.

(*@ sese/util/Value.cpp 145-152 Value::getIfDouble *)
Definition getIfDouble (v : t) : option double :=
  match v with Int n => Some (of_integer n) | Double d => Some d | _ => None end.

(*@ sese/util/Value.cpp 154-156 Value::getIfString *)
Definition getIfString (v : t) : option bytes := match v with String s => Some s | _ => None end.
(*@ sese/util/Value.cpp 158-160 Value::getIfBlob *)
Definition getIfBlob (v : t) : option bytes := match v with Blob b => Some b | _ => None end.
(*@ sese/util/Value.cpp 162-164 Value::getIfList *)
Definition getIfList (v : t) : option (list t) := match v with List l => Some l | _ => None end.
(*@ sese/util/Value.cpp 166-168 Value::getIfDict *)
Definition getIfDict (v : t) : option (list (bytes * t)) := match v with Dict m => Some m | _ => None end.

(*@ sese/util/Value.cpp 170-173 Value::getBool *)
Definition getBool (v : t) : outcome bool := match v with Bool b => Val b | _ => Undef end.
(*@ sese/util/Value.cpp 175-178 Value::getInt *)
Definition getInt (v : t) : outcome Z := match v with Int n => Val n | _ => Undef end.
(*@ sese/util/Value.cpp 180-183 Value::getDouble *)
Definition getDouble (v : t) : outcome double := match v with Double d => Val d | _ => Undef end.
(*@ sese/util/Value.cpp 185-193 Value::getString *)
Definition getString (v : t) : outcome bytes := of_option (getIfString v).
(*@ sese/util/Value.cpp 195-203 Value::getBlob *)
Definition getBlob (v : t) : outcome bytes := of_option (getIfBlob v).
(*@ sese/util/Value.cpp 205-213 Value::getList *)
Definition getList (v : t) : outcome (list t) := of_option (getIfList v).
(*@ sese/util/Value.cpp 216-224 Value::getDict *)
Definition getDict (v : t) : outcome (list (bytes * t)) := of_option (getIfDict v).

(*@ sese/util/Value.cpp 228-252 Value::operator== *)
(** [same] says that both are one object: blobs, lists and dictionaries are compared by
    their addresses. *)
Definition equal (same : bool) (v w : t) : bool :=
  match v, w with
  | Null, Null => true
  | Bool a, Bool b => eqb a b
  | Int a, Int b => a =? b
  | Double a, Double b => SFeqb a b
  | String a, String b => bool_decide (a = b)
  | Blob _, Blob _ | List _, List _ | Dict _, Dict _ => same
  | _, _ => false
  end.

(** ** Lists *)

(*@ sese/util/Value.cpp 512-516 List::appendRef *)
(** The reference is to the last element. *)
Definition appendRef (l : list t) (v : t) : nat * list t := (length l, l ++ [v]).
(*@ sese/util/Value.cpp 518-536 List::append *)
(** The overloads build the element from their arguments. *)
Definition append (l : list t) (v : t) : list t := l ++ [v].
(*@ sese/util/Value.cpp 432-434 List::operator[] *)
Definition index (l : list t) (i : Z) : outcome t := if 0 <=? i then of_option (l !! Z.to_nat i) else Undef.
(*@ sese/util/Value.cpp 492-500 List::front *)
Definition front (l : list t) : outcome t := of_option (head l).
(*@ sese/util/Value.cpp 502-510 List::back *)
Definition back (l : list t) : outcome t := of_option (last l).
(*@ sese/util/Value.cpp 588-590 List::insert *)
(** Before the element at the iterator. *)
Definition insert_at (l : list t) (it : nat) (v : t) : outcome (list t) :=
  if (it <=? length l)%nat then Val (take it l ++ v :: drop it l) else Undef.
(*@ sese/util/Value.cpp 456-462 List::erase *)
Definition erase_at (l : list t) (it : nat) : outcome (list t) :=
  if (it <? length l)%nat then Val (take it l ++ drop (S it) l) else Undef.
(*@ sese/util/Value.cpp 464-470 List::erase *)
Definition erase_range (l : list t) (first last : nat) : outcome (list t) :=
  if (first <=? last)%nat && (last <=? length l)%nat then Val (take first l ++ drop last l) else Undef.
(*@ sese/util/Value.cpp 436-454 List::erase *)
(** Of a value that is the element [self], if it is one; the number of elements erased. *)
Definition erase_value (l : list t) (v : t) (self : option nat) : Z * list t :=
  let hit e := equal (bool_decide (self = Some (fst e))) v (snd e) in
  let rest := List.filter (fun e => negb (hit e)) (imap pair l) in
  (zlen l - zlen rest, map snd rest).

(** ** Dictionaries *)

(*@ sese/util/Value.cpp 649-663 Dict::find *)
Definition find (key : bytes) (m : list (bytes * t)) : option t := mfind lexcmp key m.
(*@ sese/util/Value.cpp 617-619 Dict::contains *)
Definition contains (key : bytes) (m : list (bytes * t)) : bool := match find key m with Some _ => true | None => false end.
(*@ sese/util/Value.cpp 665-668 Dict::setRef *)
(** [emplace] leaves an entry that is there as it is. *)
Definition setRef (key : bytes) (v : t) (m : list (bytes * t)) : list (bytes * t) :=
  if contains key m then m else mset lexcmp key v m.
(*@ sese/util/Value.cpp 670-708 Dict::set *)
(** The overloads build the value from their arguments. *)
Definition set (key : bytes) (v : t) (m : list (bytes * t)) : list (bytes * t) := mset lexcmp key v m.
(*@ sese/util/Value.cpp 760-762 Dict::remove *)
Definition remove (key : bytes) (m : list (bytes * t)) : bool * list (bytes * t) :=
  (contains key m, List.filter (fun e => negb (bool_decide (fst e = key))) m).

(** ** Text *)

(*@ sese/util/Value.cpp 260-278 Value::toStringBasic *)
Definition toStringBasic (v : t) : bytes :=
  match v with
  | Null => str "null"
  | Bool b => if b then str "true" else str "false"
  | Int n => to_string n
  | Double d => to_string_f d
  | String s => [34] ++ s ++ [34]
  | Blob _ => [34] ++ str "<BLOB>" ++ [34]
  | _ => []
  end.

(*@ sese/util/Value.cpp 309-318 Value::writeSpace *)
(** The count is reduced before it is divided, so there are no full blocks. *)
Definition writeSpace (builder : bytes) (count : Z) : bytes :=
  let count := count mod 1024 in
  let times := count / 1024 in
  builder ++ repeat 32 (Z.to_nat (times * 1024)) ++ repeat 32 (Z.to_nat count).

(** A container being written, the number of its elements that are done, and its level. *)
Definition Frame : Type := t * Z * Z.
Definition Iter : Type := list (bytes * t).

(*@ sese/util/Value.cpp 339-371 Value::toStringDict *)
(** [iter]: the entries from the iterator on. *)
Fixpoint toStringDict_loop (m : list (bytes * t)) (builder : bytes) (stack : list Frame) (iters : list Iter)
    (count level : Z) (iter : Iter) : bytes * list Frame * list Iter :=
  match iter with
  | [] => (builder, stack, iters)
  | (name, value) :: iter =>
      let builder := builder ++ (if count =? 0 then [123; 10] else []) in
      let builder := builder ++ (if (0 <? count) && (count <? zlen m) then [44; 10] else []) in
      let builder := writeSpace builder (u32 (level * 2)) ++ [34] ++ name ++ [34] ++ str ": " in
      let count := u32 (count + 1) in
      match value with
      | Dict m' => (builder, (value, 0, u32 (level + 1)) :: (Dict m, count, level) :: stack, m' :: iter :: iters)
      | List _ => (builder, (value, 0, u32 (level + 1)) :: (Dict m, count, level) :: stack, iter :: iters)
      | _ =>
          let builder := builder ++ toStringBasic value in
          let builder := if count =? zlen m then writeSpace (builder ++ [10]) (u32 (u32 (level - 1) * 2)) ++ [125] else builder in
          toStringDict_loop m builder stack iters count level iter
      end
  end.

(*@ sese/util/Value.cpp 320-372 Value::toStringDict *)
Definition toStringDict (builder : bytes) (m : list (bytes * t)) (count level : Z) (stack : list Frame)
    (iters : list Iter) : outcome (bytes * list Frame * list Iter) :=
  match iters with
  | [] => Undef
  | iter :: iters =>
      match m with
      | [] => Val (builder ++ str "{}", stack, iters)
      | _ =>
          let builder := if count =? zlen m then writeSpace (builder ++ [10]) (u32 (u32 (level - 1) * 2)) ++ [125] else builder in
          Val (toStringDict_loop m builder stack iters count level iter)
      end
  end.

(*@ sese/util/Value.cpp 391-418 Value::toStringList *)
(** [rest]: the elements from [count] on. *)
Fixpoint toStringList_loop (l : list t) (builder : bytes) (stack : list Frame) (iters : list Iter)
    (count level : Z) (rest : list t) : bytes * list Frame * list Iter :=
  match rest with
  | [] => (builder, stack, iters)
  | value :: rest =>
      let builder := builder ++ (if count =? 0 then [91; 10] else []) in
      let builder := builder ++ (if (0 <? count) && (count <? zlen l) then [44; 10] else []) in
      let builder := writeSpace builder (u32 (level * 2)) in
      let count := u32 (count + 1) in
      match value with
      | Dict m => (builder, (value, 0, u32 (level + 1)) :: (List l, count, level) :: stack, m :: iters)
      | List _ => (builder, (value, 0, u32 (level + 1)) :: (List l, count, level) :: stack, iters)
      | _ =>
          let builder := builder ++ toStringBasic value in
          let builder := if count =? zlen l then writeSpace (builder ++ [10]) (u32 (u32 (level - 1) * 2)) ++ [93] else builder in
          toStringList_loop l builder stack iters count level rest
      end
  end.

(*@ sese/util/Value.cpp 374-419 Value::toStringList *)
Definition toStringList (builder : bytes) (l : list t) (count level : Z) (stack : list Frame) (iters : list Iter) :
    bytes * list Frame * list Iter :=
  match l with
  | [] => (builder ++ str "[]", stack, iters)
  | _ =>
      let builder := if count =? zlen l then writeSpace (builder ++ [10]) (u32 (u32 (level - 1) * 2)) ++ [93] else builder in
      toStringList_loop l builder stack iters count level (zdrop count l)
  end.

(*@ sese/util/Value.cpp 295-306 Value::toString *)
(** A value that is no container stays on the stack. *)
Fixpoint toString_loop (fuel : nat) (builder : bytes) (stack : list Frame) (iters : list Iter) : outcome bytes :=
  match fuel, stack with
  | _, [] => Val builder
  | O, _ => Undef
  | S fuel, (v, count, level) :: stack' =>
      match v with
      | Dict m => '(builder, stack, iters) ← toStringDict builder m count level stack' iters; toString_loop fuel builder stack iters
      | List l => let '(builder, stack, iters) := toStringList builder l count level stack' iters in toString_loop fuel builder stack iters
      | _ => toString_loop fuel (writeSpace builder (u32 (level * 2)) ++ toStringBasic v ++ [10]) stack iters
      end
  end.

(*@ sese/util/Value.cpp 286-307 Value::toString *)
Definition toString (fuel : nat) (v : t) : outcome bytes :=
  toString_loop fuel [] [(v, 0, 1)] (match v with Dict m => [m] | _ => [] end).

(** The text of a value that is no container never ends: the loop does not take it off the
    stack. *)
Lemma toString_never_ends v fuel : getIfList v = None -> getIfDict v = None -> toString fuel v = Undef.
Proof.
  intros Hl Hd. unfold toString. generalize (match v with Dict m => [m] | _ => [] end) as iters. intros iters.
  generalize (@nil Z) as builder. induction fuel as [|fuel IH]; intros builder; [done|]. destruct v; try done; apply IH.
Qed.

Example toString_nested :
  toString 20 (Dict [(str "a", List [Int 1; Null]); (str "b", Dict [])]) =
  Val (str "{" ++ [10] ++ str "  " ++ [34] ++ str "a" ++ [34] ++ str ": [" ++ [10] ++ str "    1," ++ [10] ++ str "    null" ++ [10] ++ str "  ]," ++ [10] ++
    str "  " ++ [34] ++ str "b" ++ [34] ++ str ": {}" ++ [10] ++ str "}").
Proof. vm_compute. reflexivity. Qed.

End Value.
