(* ===== verification/DateTime.v ===== *)
(** * Dates

    Models [sese/util/DateTime.cpp] (a timestamp in microseconds broken down into a
    calendar date) and [DateTimeFormatter::format] of
    [sese/text/DateTimeFormatter.cpp]. *)

From S2P Require Import Prelude.

(** ** The C library's calendar *)

(** [struct tm], with the year in full and months from 1. *)
Record tm := Tm { tm_year : Z; tm_mon : Z; tm_mday : Z; tm_hour : Z; tm_min : Z; tm_sec : Z;
                  tm_wday : Z; tm_yday : Z }.

(** Days since 1970-01-01 of a date of the Gregorian calendar; years are
    counted from March, so the leap day is the last day of its year. *)
Definition days_of_civil (y m d : Z) : Z :=
  let y := if m <=? 2 then y - 1 else y in
  let mp := if m <=? 2 then m + 9 else m - 3 in
  365 * y + y / 4 - y / 100 + y / 400 + (153 * mp + 2) / 5 + d - 1 - 719468.

Definition civil_of_days (days : Z) : Z * Z * Z :=
  let z := days + 719468 in
  let era := z / 146097 in
  let doe := z mod 146097 in
  let c := Z.min (doe / 36524) 3 in
  let q := (doe - c * 36524) / 1461 in
  let doq := doe - c * 36524 - q * 1461 in
  let y := Z.min (doq / 365) 3 in
  let doy := doq - 365 * y in
  let mp := (5 * doy + 2) / 153 in
  let d := doy - (153 * mp + 2) / 5 + 1 in
  let m := if mp <? 10 then mp + 3 else mp - 9 in
  (400 * era + 100 * c + 4 * q + y + (if m <=? 2 then 1 else 0), m, d).

(** [gmtime]. *)
Definition gmtime (t : Z) : tm :=
  let days := t / 86400 in
  let s := t mod 86400 in
  let '(y, m, d) := civil_of_days days in
  Tm y m d (s / 3600) (s / 60 mod 60) (s mod 60) ((days + 4) mod 7) (days - days_of_civil y 1 1).

(** [timegm] of the fields of a date within their ranges. *)
Definition timegm (t : tm) : Z :=
  days_of_civil (tm_year t) (tm_mon t) (tm_mday t) * 86400 +
  tm_hour t * 3600 + tm_min t * 60 + tm_sec t.

Lemma civil_of_days_spec days y m d : civil_of_days days = (y, m, d) ->
  days_of_civil y m d = days /\ 1 <= m <= 12 /\ 1 <= d <= 31.
Proof.
  unfold civil_of_days, days_of_civil.
  set (z := days + 719468). set (era := z / 146097). set (doe := z mod 146097).
  set (c := Z.min (doe / 36524) 3). set (q := (doe - c * 36524) / 1461).
  set (doq := doe - c * 36524 - q * 1461). set (yy := Z.min (doq / 365) 3).
  set (doy := doq - 365 * yy). set (mp := (5 * doy + 2) / 153). intros H.
  assert (z = 146097 * era + doe /\ 0 <= doe < 146097) as [Hz Hdoe]
    by (subst era doe; split; [apply Z.div_mod; lia|apply Z.mod_pos_bound; lia]).
  assert (0 <= c <= 3 /\ 0 <= doe - c * 36524 <= 36524) as [Hc Hdoc]
    by (subst c; dlia).
  assert (0 <= q <= 24 /\ 0 <= doq <= 1460) as [Hq Hdoq]
    by (subst doq q; dlia).
  assert (0 <= yy <= 3 /\ 0 <= doy <= 365) as [Hy Hdoy]
    by (subst doy yy; dlia).
  assert (0 <= mp <= 11 /\ 1 <= doy - (153 * mp + 2) / 5 + 1 <= 31) as [Hmp Hd]
    by (subst mp; dlia).
  set (Y := 400 * era + 100 * c + 4 * q + yy) in *.
  assert (Y / 4 = 100 * era + 25 * c + q) as HY4
    by (subst Y; dlia).
  assert (Y / 100 = 4 * era + c) as HY100
    by (subst Y; dlia).
  assert (Y / 400 = era) as HY400
    by (subst Y; dlia).
  destruct (mp <? 10) eqn:E; zbool; injection H as <- <- <-.
  - rewrite (proj2 (Z.leb_gt (mp + 3) 2)) by lia.
    rewrite Z.add_0_r, HY4, HY100, HY400. replace (mp + 3 - 3) with mp by lia.
    subst Y z doy doq. split; lia.
  - rewrite (proj2 (Z.leb_le (mp - 9) 2)) by lia.
    replace (Y + 1 - 1) with Y by lia. rewrite HY4, HY100, HY400.
    replace (mp - 9 + 9) with mp by lia. subst Y z doy doq. split; lia.
Qed.

Lemma gmtime_timegm t : timegm (gmtime t) = t.
Proof.
  unfold gmtime, timegm. destruct (civil_of_days (t / 86400)) as [[y m] d] eqn:E.
  apply civil_of_days_spec in E as [E _]. cbn. rewrite E.
  Z.to_euclidean_division_equations. lia.
Qed.

Lemma gmtime_ranges t :
  1 <= tm_mon (gmtime t) <= 12 /\ 1 <= tm_mday (gmtime t) <= 31 /\
  0 <= tm_hour (gmtime t) <= 23 /\ 0 <= tm_min (gmtime t) <= 59 /\
  0 <= tm_sec (gmtime t) <= 59 /\ 0 <= tm_wday (gmtime t) <= 6.
Proof.
  unfold gmtime. destruct (civil_of_days (t / 86400)) as [[y m] d] eqn:E.
  apply civil_of_days_spec in E as (_ & Hm & Hd). cbn.
  repeat split; try lia; Z.to_euclidean_division_equations; lia.
Qed.

(** ** [DateTime] *)

(*@ sese/util/DateTime.h 44-49 DateTime::Policy *)
Inductive Policy := ONLY_CREATE | FORMAT.

(*@ sese/util/DateTime.h 83-99 DateTime *)
Record DateTime := MkDateTime {
  years : Z; months : Z; days : Z; hours : Z; minutes : Z; seconds : Z;
  dayofweek : Z; dayofyear : Z; isLeap : bool; milliseconds : Z; microseconds : Z;
  utc : Z; timestamp : Z }.

(*@ sese/util/DateTime.cpp 79-79 DateTime::DateTime *)
Definition leap_year (y : Z) : bool :=
  ((Z.rem y 4 =? 0) && negb (Z.rem y 100 =? 0)) || (Z.rem y 400 =? 0).

(*@ sese/util/DateTime.cpp 43-43 DateTime::DateTime *)
(** The time handed to [gmtime], an [int64_t] cast of the unsigned sum. *)
Definition local_seconds (timestamp utc : Z) : Z :=
  swrap 64 (u64 (timestamp / 1000 / 1000 + utc * 3600)).

(*@ sese/util/DateTime.cpp 64-81 DateTime::DateTime *)
Definition breakdown (tm : tm) (timestamp utc : Z) : DateTime :=
  let u := timestamp mod (1000 * 1000) in
  MkDateTime (tm_year tm) (tm_mon tm) (tm_mday tm) (tm_hour tm) (tm_min tm) (tm_sec tm)
    (tm_wday tm) (tm_yday tm) (leap_year (tm_year tm)) (u / 1000) (u mod 1000) utc timestamp.

(*@ sese/util/DateTime.cpp 38-84 DateTime::DateTime *)
(** From a timestamp in microseconds; [utc * 60 * 60] is computed in
    [int32_t]. *)
Definition create (timestamp utc : Z) (policy : Policy) : outcome DateTime :=
  match policy with
  | ONLY_CREATE => Val (MkDateTime 1970 1 1 0 0 0 0 0 false 0 0 utc timestamp)
  | FORMAT =>
      if swrap 32 (utc * 3600) =? utc * 3600
      then Val (breakdown (gmtime (local_seconds timestamp utc)) timestamp utc)
      else Undef
  end.

Lemma create_inv ts u dt : create ts u FORMAT = Val dt ->
  dt = breakdown (gmtime (local_seconds ts u)) ts u.
Proof. unfold create. destruct (_ =? _); congruence. Qed.

(*@ sese/util/DateTime.cpp 86-95 DateTime::compareTo *)
Definition compareTo (a b : DateTime) : Z :=
  let rt := swrap 64 (swrap 64 (timestamp a) - swrap 64 (timestamp b)) in
  if rt <? 0 then -1 else if 0 <? rt then 1 else 0.

(*@ sese/util/DateTime.cpp 97-107 DateTime::unclearCompareTo *)
Definition unclearCompareTo (a b : DateTime) : Z :=
  let rt := swrap 64 (swrap 64 (timestamp a) - swrap 64 (timestamp b)) in
  let rt := Z.quot rt (1000 * 1000) in
  if rt <? 0 then -1 else if 0 <? rt then 1 else 0.

(** ** [DateTimeFormatter::format] *)

(*@ sese/text/DateTimeFormatter.cpp 55-68 DateTimeFormatter::MONTH_ARRAY *)
Definition MONTH_ARRAY : list bytes := map str
  ["January"; "February"; "March"; "April"; "May"; "June"; "July"; "August";
   "September"; "October"; "November"; "December"]%string.

(*@ sese/text/DateTimeFormatter.cpp 85-98 DateTimeFormatter::MON_ARRAY *)
Definition MON_ARRAY : list bytes := map str
  ["Jan"; "Feb"; "Mar"; "Apr"; "May"; "Jun"; "Jul"; "Aug"; "Sep"; "Oct"; "Nov"; "Dec"]%string.

(*@ sese/text/DateTimeFormatter.cpp 100-113 DateTimeFormatter::MON_MAP *)
Definition MON_MAP : list (bytes * Z) := zip MON_ARRAY (seqZ 1 12).

(*@ sese/text/DateTimeFormatter.cpp 70-83 DateTimeFormatter::MONTH_MAP *)
Definition MONTH_MAP : list (bytes * Z) := zip MONTH_ARRAY (seqZ 1 12).

(*@ sese/text/DateTimeFormatter.cpp 115-123 DateTimeFormatter::WEEK_DAY *)
Definition WEEK_DAY : list bytes := map str
  ["Sunday"; "Monday"; "Tuesday"; "Wednesday"; "Thursday"; "Friday"; "Saturday"]%string.

(*@ sese/text/DateTimeFormatter.cpp 125-133 DateTimeFormatter::WK_DAY *)
Definition WK_DAY : list bytes := map str
  ["Sun"; "Mon"; "Tue"; "Wed"; "Thu"; "Fri"; "Sat"]%string.

(*@ sese/text/DateTimeFormatter.cpp 329-336 DateTimeFormatter::mon2number *)
Definition mon2number (s : bytes) : Z :=
  match list_find (fun e => fst e = s) MON_MAP with
  | Some (_, (_, n)) => n - 1
  | None => -1
  end.

(*@ sese/text/DateTimeFormatter.cpp 136-143 count *)
(** The length, up to four, of the run of [ch] at the start of the buffer. *)
Fixpoint count_run (i : nat) (ch : byte) (s : bytes) : Z :=
  match i, s with
  | S i, c :: s => if c =? ch then 1 + count_run i ch s else 0
  | _, _ => 0
  end.
Definition count (ch : byte) (s : bytes) : Z := count_run 4 ch s.

(** [array[i]], undefined out of range. *)
Definition index {A} (l : list A) (i : Z) : outcome A :=
  if i <? 0 then Undef else of_option (l !! Z.to_nat i).

(** A zero when the number is below [bound]. *)
Definition zero_below (bound n : Z) : bytes := if n <? bound then [48] else [].

(*@ sese/text/DateTimeFormatter.cpp 154-315 DateTimeFormatter::format *)
(** One round of the loop on a non-empty rest of the pattern: the text to
    append and the number of pattern characters consumed. *)
Definition format_one (dt : DateTime) (pattern : bytes) : outcome (bytes * Z) :=
  let c := hd 0 pattern in
  let n := count c pattern in
  if c =? 100 (* d *) then
    txt ← (if n =? 1 then Val (to_string (days dt))
           else if n =? 2 then Val (zero_below 10 (days dt) ++ to_string (days dt))
           else if n =? 3 then index WK_DAY (dayofweek dt)
           else index WEEK_DAY (dayofweek dt));
    Val (txt, n)
  else if c =? 109 (* m *) then
    if n =? 1 then Val (to_string (minutes dt), 1)
    else Val (zero_below 10 (minutes dt) ++ to_string (minutes dt), 2)
  else if c =? 77 (* M *) then
    txt ← (if n =? 1 then Val (to_string (months dt))
           else if n =? 2 then Val (zero_below 10 (months dt) ++ to_string (months dt))
           else if n =? 3 then index MON_ARRAY (months dt - 1)
           else index MONTH_ARRAY (months dt - 1));
    Val (txt, n)
  else if c =? 121 (* y *) then
    if n =? 1 then Val (to_string (Z.rem (years dt) 100), n)
    else if n =? 2 then
      let year := Z.rem (years dt) 100 in
      Val (zero_below 10 year ++ to_string year, n)
    else if n =? 3 then
      let year := Z.rem (years dt) 1000 in
      Val (zero_below 100 year ++ zero_below 10 year ++ to_string year, n)
    else
      let year := Z.rem (years dt) 10000 in
      Val (zero_below 1000 year ++ zero_below 100 year ++ zero_below 10 year ++ to_string year, n)
  else if c =? 122 (* z *) then
    Val ((if utc dt >=? 0 then [43] else []) ++ to_string (utc dt), 1)
  else if c =? 104 (* h *) then
    let hour := if Z.rem (hours dt) 12 =? 0 then 12 else Z.rem (hours dt) 12 in
    if n =? 1 then Val (to_string hour, 1)
    else Val (zero_below 10 hour ++ to_string hour, 2)
  else if c =? 72 (* H *) then
    if n =? 1 then Val (to_string (hours dt), 1)
    else Val (zero_below 10 (hours dt) ++ to_string (hours dt), 2)
  else if c =? 116 (* t *) then
    Val (if hours dt <? 12 then str "AM" else str "PM", 1)
  else if c =? 115 (* s *) then
    if n =? 1 then Val (to_string (seconds dt), 1)
    else Val (zero_below 10 (seconds dt) ++ to_string (seconds dt), 2)
  else if c =? 102 (* f *) then
    if n =? 1 then Val (to_string (milliseconds dt), n)
    else if n =? 2 then
      let num := milliseconds dt in
      Val (zero_below 100 num ++ zero_below 10 num ++ to_string num, n)
    else if n =? 3 then Val (to_string (microseconds dt), n)
    else
      let num := microseconds dt in
      Val (zero_below 100 num ++ zero_below 10 num ++ to_string num, n)
  else if c =? 37 (* % *) then
    match pattern with
    | _ :: c1 :: _ => Val ([c1], 2)
    | _ => Val ([], 1)
    end
  else Val ([c], 1).

(*@ sese/text/DateTimeFormatter.cpp 149-316 DateTimeFormatter::format *)
Fixpoint format_loop (fuel : nat) (dt : DateTime) (pattern builder : bytes) : outcome bytes :=
  match fuel, pattern with
  | _, [] => Val builder
  | O, _ => Undef
  | S fuel, _ =>
      '(txt, n) ← format_one dt pattern;
      format_loop fuel dt (zdrop n pattern) (builder ++ txt)
  end.

(*@ sese/text/DateTimeFormatter.cpp 145-319 DateTimeFormatter::format *)
(** Every round consumes at least one character of the pattern. *)
Definition format (dt : DateTime) (pattern : bytes) : outcome bytes :=
  format_loop (length pattern) dt pattern [].

(*@ sese/Config.h 79-79 TIME_GREENWICH_MEAN_PATTERN *)
Definition TIME_GREENWICH_MEAN_PATTERN : bytes := str "ddd, dd MMM yyyy HH:mm:ss %G%M%T".

(** ** Properties *)

(** The fields of a date are within the ranges of the name tables. *)
Definition date_ok (dt : DateTime) : Prop := 1 <= months dt <= 12 /\ 0 <= dayofweek dt <= 6.

Lemma create_date_ok ts u dt : create ts u FORMAT = Val dt -> date_ok dt.
Proof.
  intros ->%create_inv. pose proof (gmtime_ranges (local_seconds ts u)) as (? & _ & _ & _ & _ & ?).
  by split.
Qed.

Lemma count_run_nonneg i c s : 0 <= count_run i c s.
Proof.
  revert s. induction i as [|i IH]; intros [|x s]; try done.
  change (0 <= if x =? c then 1 + count_run i c s else 0). specialize (IH s). ifcase; lia.
Qed.

Lemma count_run_pos i c s : 1 <= count_run (S i) c (c :: s).
Proof.
  change (1 <= if c =? c then 1 + count_run i c s else 0). rewrite Z.eqb_refl.
  pose proof (count_run_nonneg i c s). lia.
Qed.

Lemma index_Val {A} (l : list A) i : 0 <= i < zlen l -> exists x, index l i = Val x.
Proof.
  intros H. unfold index. rewrite (proj2 (Z.ltb_ge _ _)) by lia.
  destruct (l !! Z.to_nat i) eqn:E; cbn; [eauto|].
  apply lookup_ge_None in E. unfold zlen in H. lia.
Qed.

Lemma format_one_ok dt c p : date_ok dt ->
  exists txt n, format_one dt (c :: p) = Val (txt, n) /\ 1 <= n.
Proof.
  intros [Hm Hd]. unfold format_one. cbn [hd].
  pose proof (count_run_pos 3 c p) as Hn. fold (count c (c :: p)) in Hn.
  destruct (index_Val WK_DAY (dayofweek dt)) as [x1 E1]; [change (zlen WK_DAY) with 7; lia|].
  destruct (index_Val WEEK_DAY (dayofweek dt)) as [x2 E2]; [change (zlen WEEK_DAY) with 7; lia|].
  destruct (index_Val MON_ARRAY (months dt - 1)) as [x3 E3]; [change (zlen MON_ARRAY) with 12; lia|].
  destruct (index_Val MONTH_ARRAY (months dt - 1)) as [x4 E4]; [change (zlen MONTH_ARRAY) with 12; lia|].
  rewrite E1, E2, E3, E4. set (n := count c (c :: p)) in *. clearbody n.
  repeat match goal with
  | |- exists _ _, ((if ?b then _ else _) ≫= _) = _ /\ _ => destruct b
  | |- exists _ _, (if ?b then _ else _) = _ /\ _ => destruct b
  end; try (eexists _, _; split; [reflexivity|lia]).
  destruct p; (eexists _, _; split; [reflexivity|lia]).
Qed.

Lemma format_loop_ok fuel : forall dt p b, date_ok dt -> (length p <= fuel)%nat ->
  exists s, format_loop fuel dt p b = Val s.
Proof.
  induction fuel as [|fuel IH]; intros dt [|c p] b Hdt Hf; cbn [format_loop]; try (eexists; reflexivity);
    [cbn in Hf; lia|].
  destruct (format_one_ok dt c p Hdt) as (txt & n & -> & Hn). rewrite bind_Val.
  apply IH; [done|]. unfold zdrop. rewrite length_drop. cbn in *. lia.
Qed.

(** Every date built from a timestamp can be formatted with every pattern:
    the loop terminates and no name table is read out of range; and the fields
    are those of the instant shifted by the zone, so that [timegm] gives it back. *)
Theorem datetime_format_total (ts u : Z) (dt : DateTime) (pattern : bytes) :
  create ts u FORMAT = Val dt ->
  (exists s, format dt pattern = Val s) /\
  timegm (Tm (years dt) (months dt) (days dt) (hours dt) (minutes dt) (seconds dt)
             (dayofweek dt) (dayofyear dt)) = local_seconds ts u /\
  ts mod 1000000 = milliseconds dt * 1000 + microseconds dt.
Proof.
  intros H. split; [eapply format_loop_ok; [exact (create_date_ok _ _ _ H)|lia]|].
  apply create_inv in H as ->. split.
  - exact (gmtime_timegm (local_seconds ts u)).
  - unfold breakdown. cbn [milliseconds microseconds]. change (1000 * 1000) with 1000000.
    pose proof (Z.div_mod (ts mod 1000000) 1000 ltac:(lia)). lia.
Qed.

Lemma datetime_format_total_witness : exists dt,
  create 1719452585071000 8 FORMAT = Val dt /\
  format dt (str "yyyy-MM-dd HH:mm:ss z") = Val (str "2024-06-27 09:43:05 +8") /\
  (exists s, format dt TIME_GREENWICH_MEAN_PATTERN = Val s) /\
  timegm (Tm (years dt) (months dt) (days dt) (hours dt) (minutes dt) (seconds dt)
             (dayofweek dt) (dayofyear dt)) = local_seconds 1719452585071000 8 /\
  1719452585071000 mod 1000000 = milliseconds dt * 1000 + microseconds dt.
Proof.
  eexists. split; [reflexivity|]. split; [vm_compute; reflexivity|].
  apply (datetime_format_total 1719452585071000 8). reflexivity.
Defined.
