(* ===== verification/DateParse.v ===== *)
(** * Reading dates

    Models [DateTimeFormatter::parseFromGreenwich] and [parseFromISO8601] of
    [sese/text/DateTimeFormatter.cpp], with what they use of [sscanf], [stoi] and
    [timegm]. The dates that [format] writes with the Greenwich pattern are read back. *)

From S2P Require Import Prelude Text DateTime.

(** ** [sscanf] *)

(** The directives that the formats use: white space, a skipped word of at most [w]
    bytes, an integer of at most [w] bytes, a literal byte. *)
Inductive directive := Blank | Skip (w : nat) | Int (w : nat) | Lit (c : byte).

Fixpoint word (w : nat) (s : bytes) : bytes * bytes :=
  match w, s with
  | S w, c :: s' => if isspace c then ([], s) else let '(d, r) := word w s' in (c :: d, r)
  | _, _ => ([], s)
  end.

Fixpoint digits_upto (w : nat) (s : bytes) : bytes * bytes :=
  match w, s with
  | S w, c :: s' => if isdigit c then let '(d, r) := digits_upto w s' in (c :: d, r) else ([], s)
  | _, _ => ([], s)
  end.

Definition scan_int (w : nat) (s : bytes) : option (Z * bytes) :=
  let '(neg, w, s) := match s with
                      | 45 :: r => (true, Nat.pred w, r)
                      | 43 :: r => (false, Nat.pred w, r)
                      | _ => (false, w, s)
                      end in
  match digits_upto w s with
  | ([], _) => None
  | (d, r) => Some (if neg then - digits_val d else digits_val d, r)
  end.

(** The integers that are assigned, up to the first directive that fails. *)
Fixpoint sscanf (s : bytes) (fmt : list directive) : list Z :=
  match fmt with
  | [] => []
  | Blank :: fmt => sscanf (skip_space s) fmt
  | Skip w :: fmt => match word w (skip_space s) with ([], _) => [] | (_, r) => sscanf r fmt end
  | Int w :: fmt => match scan_int w (skip_space s) with None => [] | Some (v, r) => v :: sscanf r fmt end
  | Lit c :: fmt => match s with c' :: r => if c =? c' then sscanf r fmt else [] | [] => [] end
  end.

(** [timegm] of fields that may be out of their ranges: the months carry into the year,
    everything else is linear. Months count from 1, years are in full. *)
Definition timegm_any (t : tm) : Z :=
  timegm (Tm (tm_year t + (tm_mon t - 1) / 12) ((tm_mon t - 1) mod 12 + 1) (tm_mday t) (tm_hour t) (tm_min t)
             (tm_sec t) 0 0).

(** [struct tm tm {}] with fields assigned from a list of values. *)
Definition tm_of (year mon mday : Z) (l : list Z) : tm := Tm year mon mday (nth 0 l 0) (nth 1 l 0) (nth 2 l 0) 0 0.

(** ** Greenwich mean time *)

(*@ sese/text/DateTimeFormatter.cpp 363-363 DateTimeFormatter::parseFromGreenwich *)
Definition GREENWICH_SHORT : list directive :=
  [Skip 4; Blank; Int 2; Lit 45; Skip 3; Lit 45; Int 2; Blank; Int 2; Lit 58; Int 2; Lit 58; Int 2; Blank; Skip 3].

(*@ sese/text/DateTimeFormatter.cpp 381-381 DateTimeFormatter::parseFromGreenwich *)
Definition GREENWICH_LONG : list directive :=
  [Skip 4; Blank; Int 2; Blank; Skip 3; Blank; Int 4; Blank; Int 2; Lit 58; Int 2; Lit 58; Int 2; Blank; Skip 3].

(*@ sese/text/DateTimeFormatter.cpp 341-385 DateTimeFormatter::parseFromGreenwich *)
(** [None] where [substr] throws. Fields that [sscanf] does not assign stay zero. *)
Definition parseFromGreenwich (text : bytes) : option Z :=
  if zlen text <? 8 then None
  else
    let mon := mon2number (slice 8 3 text) in
    let short := nth 7 text 0 =? 45 in
    let l := sscanf (cstr text) (if short then GREENWICH_SHORT else GREENWICH_LONG) in
    let year := if short then nth 1 l 0 + 100 + 1900 else nth 1 l 0 in
    Some (u64 (timegm_any (tm_of year (mon + 1) (nth 0 l 0) (drop 2 l)))).

(** ** ISO 8601 *)

(** The result of a function that may throw: [None]. *)
Definition thrown {A} : outcome (option A) := Val None.
Definition INVALID : Z := 2 ^ 64 - 1.

(** A product or a sum of [int]s, undefined when it overflows. *)
Definition int_Val (z : Z) : outcome Z := if swrap 32 z =? z then Val z else Undef.

(*@ sese/text/DateTimeFormatter.cpp 403-410 DateTimeFormatter::parseFromISO8601 *)
Definition with_date (date : list bytes) (k : Z -> Z -> Z -> outcome (option Z)) : outcome (option Z) :=
  match date with
  | [y; m; d] =>
      match stoi y, stoi m, stoi d with
      | Some y, Some m, Some d => k y m d
      | _, _, _ => thrown
      end
  | _ => Val (Some INVALID)
  end.

(*@ sese/text/DateTimeFormatter.cpp 412-420 DateTimeFormatter::parseFromISO8601 *)
Definition with_time (size : Z) (time : list bytes) (k : list Z -> outcome (option Z)) : outcome (option Z) :=
  if negb (zlen time =? size) then Val (Some INVALID)
  else
    match time with
    | h :: m :: s :: _ =>
        match stoi h, stoi m, stoi s with
        | Some h, Some m, Some s => k [h; m; s]
        | _, _, _ => thrown
        end
    | _ => Val (Some INVALID)
    end.

(*@ sese/text/DateTimeFormatter.cpp 465-493 DateTimeFormatter::parseFromISO8601 *)
(** The time goes on with the zone, whose digits end the number of the seconds. *)
Definition iso_zoned (text : bytes) : outcome (option Z) :=
  match split_view text (str "T") with
  | [date; time] =>
      with_date (split_view date (str "-")) (fun y m d =>
      with_time 4 (split_view time (str ":")) (fun l =>
      match split_view text (str "+") with
      | [_; zone] =>
          match split_view zone (str ":") with
          | [h; mi] =>
              match stoi h, stoi mi with
              | Some h, Some mi =>
                  a ← int_Val (h * 60); b ← int_Val (a + mi); off ← int_Val (b * 60);
                  Val (Some (u64 (timegm_any (tm_of y m d l) - off)))
              | _, _ => thrown
              end
          | _ => Val (Some INVALID)
          end
      | _ => Val (Some INVALID)
      end))
  | _ => Val (Some INVALID)
  end.

(*@ sese/text/DateTimeFormatter.cpp 387-497 DateTimeFormatter::parseFromISO8601 *)
Definition parseFromISO8601 (text : bytes) : outcome (option Z) :=
  let joined sep :=
    match split_view text sep with
    | [date; time] =>
        with_date (split_view date (str "-")) (fun y m d =>
        with_time 3 (split_view time (str ":")) (fun l => Val (Some (u64 (timegm_any (tm_of y m d l))))))
    | _ => Val (Some INVALID)
    end in
  if zlen text =? 10 then
    with_date (split_view text (str "-")) (fun y m d => Val (Some (u64 (timegm_any (tm_of y m d [])))))
  else if zlen text =? 19 then joined (str " ")
  else if zlen text =? 20 then joined (str "T")
  else if zlen text =? 22 then
    match split_view text (str " ") with
    | [date; time; zone] =>
        with_date (split_view date (str "-")) (fun y m d =>
        with_time 3 (split_view time (str ":")) (fun l =>
        match stoi zone with
        | Some z => a ← int_Val (z * 60); off ← int_Val (a * 60); Val (Some (u64 (timegm_any (tm_of y m d l) - off)))
        | None => thrown
        end))
    | _ => Val (Some INVALID)
    end
  else if zlen text =? 25 then iso_zoned text
  else Val (Some INVALID).

(** ** [DateTimeParser] *)

(*@ sese/text/DateTimeParser.cpp 24-38 DateTimeParser::count *)
(** The run of the first character, at most [max + 1] long. *)
Definition parser_count (s : bytes) (max : nat) : Z := count_run (S max) (hd 0 s) s.

(** The fields that [parse] collects. *)
Record Parts := MkParts { p_year : Z; p_mon : Z; p_day : Z; p_hour : Z; p_min : Z; p_sec : Z;
                          p_mill : Z; p_micro : Z; p_utc : Z }.
#[export] Instance Parts_eta : Eta Parts := fun p =>
  MkParts (p_year p) (p_mon p) (p_day p) (p_hour p) (p_min p) (p_sec p) (p_mill p) (p_micro p) (p_utc p).

(** [strtol] of a buffer that must hold nothing else. *)
Definition whole_number (buffer : bytes) : option Z :=
  match strtol buffer with (v, []) => Some v | _ => None end.

(*@ sese/text/DateTimeParser.cpp 58-75 DateTimeParser::parse *)
(** A numeric field of [size] characters: the rest of the format, the value that is
    stored, if any, and the rest of the input; [None] where the code gives up. *)
Definition field (size : nat) (fmt input : bytes) : option (bytes * option Z * bytes) :=
  let c := parser_count fmt size in
  if Z.of_nat size <=? c then
    if zlen input <? Z.of_nat size then None
    else
      v ← whole_number (take size input);
      Some (drop size fmt, Some (swrap 32 v), drop size input)
  else Some (zdrop c fmt, None, input).

(*@ sese/text/DateTimeParser.cpp 105-119 DateTimeParser::parse *)
(** The input from the next blank on, which is peeked at; [false] at its end, where the
    format does not move. *)
Fixpoint skip_to_blank (input : bytes) : bool * bytes :=
  match input with
  | [] => (false, [])
  | c :: r => if c =? 32 then (true, input) else skip_to_blank r
  end.

(*@ sese/text/DateTimeParser.cpp 77-132 DateTimeParser::parse *)
(** One round of the loop: the rest of the format and of the input and the fields, or
    [None] where the code gives up. A last per cent sign moves past the terminating
    NUL. *)
Definition parse_one (fmt input : bytes) (p : Parts) : outcome (option (bytes * bytes * Parts)) :=
  let numeric size (save : Z -> Parts) :=
    Val ('(fmt, v, input) ← field size fmt input;
         Some (fmt, input, match v with Some v => save v | None => p end)) in
  let c := hd 0 fmt in
  if c =? 121 (* y *) then numeric 4%nat (fun v => p <| p_year := v |>)
  else if c =? 77 (* M *) then numeric 2%nat (fun v => p <| p_mon := v |>)
  else if c =? 100 (* d *) then numeric 2%nat (fun v => p <| p_day := v |>)
  else if c =? 72 (* H *) then numeric 2%nat (fun v => p <| p_hour := v |>)
  else if c =? 109 (* m *) then numeric 2%nat (fun v => p <| p_min := v |>)
  else if c =? 115 (* s *) then numeric 2%nat (fun v => p <| p_sec := v |>)
  else if c =? 102 (* f *) then numeric 3%nat (fun v => p <| p_mill := v |>)
  else if c =? 114 (* r *) then numeric 3%nat (fun v => p <| p_micro := v |>)
  else if c =? 122 (* z *) then
    if zlen input <? 2 then Val (Some (fmt, [], p))
    else
      let sign := (hd 0 input =? 43) || (hd 0 input =? 45) in
      if sign && (zlen input <? 3) then Val (Some (fmt, [], p))
      else
        let n := if sign then 3%nat else 2%nat in
        Val (v ← whole_number (take n input); Some (drop 1 fmt, drop n input, p <| p_utc := swrap 32 v |>))
  else if c =? 42 (* * *) then
    let '(found, input) := skip_to_blank input in
    Val (Some (if found : bool then drop 1 fmt else fmt, input, p))
  else if c =? 37 (* % *) then
    match fmt with
    | _ :: _ :: fmt => Val (Some (fmt, input, p))
    | _ => Undef
    end
  else Val (Some (drop 1 fmt, drop 1 input, p)).

(*@ sese/text/DateTimeParser.cpp 77-133 DateTimeParser::parse *)
(** [None] while the loop goes on. *)
Fixpoint parse_loop (fuel : nat) (fmt input : bytes) (p : Parts) : option (outcome (option Parts)) :=
  if hd 0 fmt =? 0 then Some (Val (Some p))
  else
    match fuel with
    | O => None
    | S fuel =>
        match parse_one fmt input p with
        | Undef => Some Undef
        | Val None => Some (Val None)
        | Val (Some (fmt, input, p)) => parse_loop fuel fmt input p
        end
    end.

(*@ sese/text/DateTimeParser.cpp 136-151 DateTimeParser::parse *)
(** The clock counts nanoseconds in 64 bits, as the library of GCC does. *)
Definition of_parts (p : Parts) : outcome DateTime :=
  let t := timegm_any (Tm (p_year p) (p_mon p) (p_day p) (p_hour p) (p_min p) (p_sec p) 0 0) in
  let ns := t * 1000000000 + p_mill p * 1000000 + p_micro p * 1000 in
  let ns' := ns - p_utc p * 3600000000000 in
  if (swrap 64 (t * 1000000000) =? t * 1000000000) && (swrap 64 ns =? ns) && (swrap 64 ns' =? ns')
  then create (u64 (Z.quot ns' 1000)) (p_utc p) FORMAT
  else Undef.

(*@ sese/text/DateTimeParser.cpp 40-152 DateTimeParser::parse *)
(** [None] while the loop goes on, and then [None] for [std::nullopt]. *)
Definition parse (fuel : nat) (fmt datetime : bytes) : option (outcome (option DateTime)) :=
  match fmt, datetime with
  | [], _ | _, [] => Some (Val None)
  | _, _ =>
      r ← parse_loop fuel fmt datetime (MkParts 0 0 0 0 0 0 0 0 0);
      Some (r ← r; match r with None => Val None | Some p => Some <$> of_parts p end)
  end.

(** ** What the formats write *)

Definition two (n : Z) : bytes := [48 + n / 10; 48 + n mod 10].
Definition four (n : Z) : bytes := two (n / 100) ++ two (n mod 100).

Lemma two_spec n : 0 <= n < 100 -> zero_below 10 n ++ to_string n = two n.
Proof.
  intros Hn. pose proof (forallb_seqZ (fun n => bool_decide (zero_below 10 n ++ to_string n = two n)) 100) as F.
  eapply bool_decide_eq_true_1. apply F; [vm_compute; reflexivity|done].
Qed.

Lemma four_spec n : 0 <= n < 10000 -> zero_below 1000 n ++ zero_below 100 n ++ zero_below 10 n ++ to_string n = four n.
Proof.
  intros Hn.
  pose proof (forallb_seqZ (fun n => bool_decide
    (zero_below 1000 n ++ zero_below 100 n ++ zero_below 10 n ++ to_string n = four n)) 10000) as F.
  eapply bool_decide_eq_true_1. apply F; [vm_compute; reflexivity|done].
Qed.

Lemma digit_at n : 0 <= n <= 9 -> isspace (48 + n) = false /\ isdigit (48 + n) = true.
Proof.
  intros Hn. pose proof (forallb_seqZ (fun n => negb (isspace (48 + n)) && isdigit (48 + n)) 10 eq_refl n ltac:(lia)) as F.
  cbv beta in F. zbool. done.
Qed.

(** The digits of [two]. *)
Lemma two_digits n : 0 <= n < 100 -> exists a b, two n = [48 + a; 48 + b] /\ 0 <= a <= 9 /\ 0 <= b <= 9 /\ n = 10 * a + b.
Proof. intros Hn. exists (n / 10), (n mod 10). split; [done|]. dlia. Qed.

(** Dates whose fields have the usual number of digits. *)
Definition plain (dt : DateTime) : Prop :=
  0 <= years dt < 10000 /\ 1 <= months dt <= 12 /\ 0 <= days dt <= 31 /\ 0 <= hours dt <= 23 /\
  0 <= minutes dt <= 59 /\ 0 <= seconds dt <= 59 /\ 0 <= dayofweek dt <= 6.

Lemma civil_years days y m d : 0 <= days <= 2932896 -> civil_of_days days = (y, m, d) -> 1970 <= y <= 9999.
Proof.
  intros Hd (E & Hm & Hd')%civil_of_days_spec. unfold days_of_civil in E.
  destruct (m <=? 2) eqn:Em; zbool; dlia.
Qed.

(** The date of an instant before the year 10000. *)
Lemma plain_date t dt : 0 <= t < 253402300800 -> create (u64 (t * 1000000)) 0 FORMAT = Val dt ->
  plain dt /\ dt = breakdown (gmtime t) (t * 1000000) 0 /\
  timegm_any (Tm (years dt) (months dt) (days dt) (hours dt) (minutes dt) (seconds dt) 0 0) = t.
Proof.
  intros Ht ->%create_inv.
  assert (u64 (t * 1000000) = t * 1000000) as Hu by (apply wrap_small; unfold is_u; lia). rewrite Hu.
  assert (local_seconds (t * 1000000) 0 = t) as ->.
  { unfold local_seconds. replace (t * 1000000 / 1000 / 1000 + 0 * 3600) with t by dlia.
    rewrite wrap_small by (unfold is_u; lia). unfold swrap. rewrite Z.mod_small by lia. lia. }
  pose proof (gmtime_ranges t) as R. pose proof (gmtime_timegm t) as G.
  unfold timegm_any. destruct (gmtime t) as [y m d h mi s wd yd] eqn:E. cbn in R, G |- *.
  assert (1970 <= y <= 9999) as Hy.
  { unfold gmtime in E. destruct (civil_of_days (t / 86400)) as [[y' m'] d'] eqn:Ec.
    injection E as -> -> -> _ _ _ _ _. apply (civil_years (t / 86400) y m d); [dlia|exact Ec]. }
  split; [|split; [done|]].
  - unfold plain. cbn. lia.
  - replace ((m - 1) / 12) with 0 by dlia. replace ((m - 1) mod 12 + 1) with m by dlia. by rewrite Z.add_0_r.
Qed.
(** One round on a format whose run is known; [rw] rewrites what the fields are. *)
Ltac format_round rw :=
  match goal with
  | |- context [format_loop (S ?f) ?dt (?c :: ?p) ?b] =>
      change (format_loop (S f) dt (c :: p) b) with
        ('(txt, n) ← format_one dt (c :: p); format_loop f dt (zdrop n (c :: p)) (b ++ txt));
      let n := eval vm_compute in (count c (c :: p)) in
      unfold format_one at 1; cbv delta [hd] beta iota; change (count c (c :: p)) with n;
      cbv beta zeta iota delta [Z.eqb Pos.eqb]; rw; rewrite ?two_spec, ?four_spec, ?bind_Val by lia; cbv beta iota;
      match goal with
      | |- context [zdrop ?k (c :: p)] =>
          let q := eval vm_compute in (zdrop k (c :: p)) in change (zdrop k (c :: p)) with q
      end
  end.

Lemma format_greenwich dt : plain dt -> exists wk mon,
  index WK_DAY (dayofweek dt) = Val wk /\ index MON_ARRAY (months dt - 1) = Val mon /\
  format dt TIME_GREENWICH_MEAN_PATTERN = Val (wk ++ str ", " ++ two (days dt) ++ str " " ++ mon ++ str " " ++
    four (years dt) ++ str " " ++ two (hours dt) ++ str ":" ++ two (minutes dt) ++ str ":" ++ two (seconds dt) ++ str " GMT").
Proof.
  intros (Hy & Hm & Hd & Hh & Hmi & Hs & Hw).
  destruct (index_Val WK_DAY (dayofweek dt)) as [wk E1]; [change (zlen WK_DAY) with 7; lia|].
  destruct (index_Val MON_ARRAY (months dt - 1)) as [mon E2]; [change (zlen MON_ARRAY) with 12; lia|].
  assert (Z.rem (years dt) 10000 = years dt) as E3 by (apply Z.rem_small; lia).
  exists wk, mon. split; [done|]. split; [done|]. unfold format.
  let p := eval vm_compute in TIME_GREENWICH_MEAN_PATTERN in change TIME_GREENWICH_MEAN_PATTERN with p.
  match goal with |- context [format_loop ?n] => let k := eval vm_compute in n in change n with k end.
  repeat format_round ltac:(rewrite ?E1, ?E2, ?E3).
  match goal with |- format_loop ?f ?dt [] ?b = _ => change (format_loop f dt [] b) with (Val b) end.
  rewrite <- !app_assoc. reflexivity.
Qed.

(** A byte that ends neither a C string nor a line nor an attribute of a cookie. *)
Definition word_byte (c : byte) : bool := negb (c =? 0) && negb (c =? 13) && negb (c =? 59).

(** Names of three letters, and the number of a month. *)
Definition letters3 (m : bytes) : bool :=
  match m with
  | [a; b; c] => forallb (fun c => negb (isspace c)) m && forallb word_byte m
  | _ => false
  end.

Lemma two_word n : 0 <= n < 100 -> forallb word_byte (two n) = true.
Proof.
  intros Hn. destruct (two_digits n Hn) as (a & b & -> & Ha & Hb & _). cbn. unfold word_byte.
  rewrite !(proj2 (Z.eqb_neq _ _)) by lia. done.
Qed.

Lemma letters3_word l : letters3 l = true -> forallb word_byte l = true.
Proof. destruct l as [|? [|? [|? [|]]]]; try done. intros [_ H]%andb_true_iff. exact H. Qed.

Lemma name_at (l : list bytes) (P : Z -> bytes -> bool) n i x :
  forallb (fun i => match index l i with Val x => P i x | Undef => false end) (seqZ 0 n) = true ->
  0 <= i < n -> index l i = Val x -> P i x = true.
Proof. intros H Hi E. pose proof (forallb_seqZ _ _ H i Hi) as F. cbv beta in F. by rewrite E in F. Qed.

Lemma day_name i wk : 0 <= i <= 6 -> index WK_DAY i = Val wk -> letters3 wk = true.
Proof. intros Hi. apply (name_at WK_DAY (fun _ => letters3) 7); [vm_compute; reflexivity|lia]. Qed.

Lemma month_name i mon : 0 <= i <= 11 -> index MON_ARRAY i = Val mon -> letters3 mon = true /\ mon2number mon = i.
Proof.
  intros Hi E. pose proof (name_at MON_ARRAY (fun i m => letters3 m && (mon2number m =? i)) 12 i mon) as F.
  assert (letters3 mon && (mon2number mon =? i) = true) as G by (apply F; [vm_compute; reflexivity|lia|done]).
  zbool. done.
Qed.

(** A number of exactly [w] digits is read whole. *)
Lemma scan_digits ds r : forallb isdigit ds = true -> ds <> [] ->
  skip_space (ds ++ r) = ds ++ r /\ scan_int (length ds) (ds ++ r) = Some (digits_val ds, r).
Proof.
  intros Hd Hn. destruct ds as [|c ds]; [done|]. clear Hn.
  assert (48 <= c <= 57) as Hc by (cbn in Hd; apply andb_true_iff in Hd as [Hc _]; unfold isdigit in Hc; zbool; lia).
  destruct (digit_at (c - 48)) as [Sc _]; [lia|]. replace (48 + (c - 48)) with c in Sc by lia.
  split; [cbn [app skip_space]; by rewrite Sc|]. unfold scan_int.
  assert (match (c :: ds) ++ r with
          | 45 :: s => (true, Nat.pred (length (c :: ds)), s) | 43 :: s => (false, Nat.pred (length (c :: ds)), s)
          | _ => (false, length (c :: ds), (c :: ds) ++ r)
          end = (false, length (c :: ds), (c :: ds) ++ r)) as ->.
  { cbn [app]. assert (c = 48 \/ c = 49 \/ c = 50 \/ c = 51 \/ c = 52 \/ c = 53 \/ c = 54 \/ c = 55 \/ c = 56 \/ c = 57) as H by lia.
    destruct H as [->|[->|[->|[->|[->|[->|[->|[->|[->| ->]]]]]]]]]; done. }
  assert (forall l, forallb isdigit l = true -> digits_upto (length l) (l ++ r) = (l, r)) as E.
  { induction l as [|x l IH]; [by destruct r|]. cbn [forallb length app digits_upto]. intros [Hx Hl]%andb_true_iff.
    by rewrite Hx, IH. }
  by rewrite E.
Qed.

Lemma two_val n : 0 <= n < 100 -> forallb isdigit (two n) = true /\ digits_val (two n) = n.
Proof.
  intros Hn. destruct (two_digits n Hn) as (a & b & -> & Ha & Hb & ->).
  destruct (digit_at a Ha) as [_ Da], (digit_at b Hb) as [_ Db]. cbn [forallb]. rewrite Da, Db.
  split; [done|]. unfold digits_val. cbn [fold_left]. lia.
Qed.

Lemma four_val n : 0 <= n < 10000 -> forallb isdigit (four n) = true /\ digits_val (four n) = n.
Proof.
  intros Hn. destruct (two_val (n / 100)) as [D1 V1]; [dlia|]. destruct (two_val (n mod 100)) as [D2 V2]; [dlia|].
  unfold four. rewrite forallb_app, D1, D2. split; [done|].
  unfold digits_val in *. rewrite fold_left_app, V1.
  pose proof (fold_digits (two (n mod 100)) (n / 100)) as F. unfold digits_val in F. rewrite F, V2.
  change (zlen (two (n mod 100))) with 2. dlia.
Qed.

(** Reading a number and then a separator in a format. *)
Lemma sscanf_two n r fmt : 0 <= n < 100 -> sscanf (two n ++ r) (Int 2 :: fmt) = n :: sscanf r fmt.
Proof.
  intros Hn. destruct (two_val n Hn) as [D V]. destruct (scan_digits (two n) r D) as [E1 E2]; [done|].
  cbn [sscanf]. rewrite E1. change 2%nat with (length (two n)). by rewrite E2, V.
Qed.

Lemma sscanf_four n r fmt : 0 <= n < 10000 -> sscanf (four n ++ r) (Int 4 :: fmt) = n :: sscanf r fmt.
Proof.
  intros Hn. destruct (four_val n Hn) as [D V]. destruct (scan_digits (four n) r D) as [E1 E2]; [done|].
  cbn [sscanf]. rewrite E1. change 4%nat with (length (four n)). by rewrite E2, V.
Qed.

Lemma sscanf_word3 m r fmt : letters3 m = true -> sscanf (m ++ 32 :: r) (Skip 3 :: fmt) = sscanf (32 :: r) fmt.
Proof.
  intros H. destruct m as [|a [|b [|c [|]]]]; try done. cbn in H. zbool.
  cbn [sscanf app skip_space]. destruct (isspace a) eqn:Ea; [done|]. cbn [word]. rewrite Ea.
  destruct (isspace b) eqn:Eb; [done|]. by destruct (isspace c).
Qed.

(** A number does not begin with a blank. *)
Lemma skip_space_two n r : 0 <= n < 100 -> skip_space (32 :: two n ++ r) = two n ++ r.
Proof. intros Hn. destruct (two_val n Hn) as [D V]. cbn [skip_space]. by apply scan_digits. Qed.

Lemma skip_space_four n r : 0 <= n < 10000 -> skip_space (32 :: four n ++ r) = four n ++ r.
Proof. intros Hn. destruct (four_val n Hn) as [D V]. cbn [skip_space]. by apply scan_digits. Qed.

Lemma skip_space_word m r : letters3 m = true -> skip_space (32 :: m ++ r) = m ++ r.
Proof. intros H. destruct m as [|a [|b [|c [|]]]]; try done. cbn in H |- *. zbool. by destruct (isspace a). Qed.

Lemma greenwich_text (t : Z) :
  0 <= t < 253402300800 ->
  exists text, (dt ← create (u64 (t * 1000000)) 0 FORMAT; format dt TIME_GREENWICH_MEAN_PATTERN) = Val text /\
    zlen text = 29 /\ parseFromGreenwich text = Some t /\ forallb word_byte text = true.
Proof.
  intros Ht. destruct (create (u64 (t * 1000000)) 0 FORMAT) as [dt|] eqn:E; [|by unfold create in E].
  destruct (plain_date t dt Ht E) as (Hp & _ & Hback). destruct (format_greenwich dt Hp) as (wk & mon & E1 & E2 & Ef).
  destruct Hp as (Hy & Hm & Hd & Hh & Hmi & Hs & Hw).
  apply day_name in E1; [|lia]. apply month_name in E2 as [E2 E2']; [|lia].
  rewrite bind_Val, Ef. eexists. split; [reflexivity|].
  set (text := wk ++ _).
  assert (zlen text = 29 /\ slice 8 3 text = mon /\ nth 7 text 0 = 32) as (Hz & Hsl & H7).
  { destruct wk as [|? [|? [|? [|]]]], mon as [|? [|? [|? [|]]]]; done. }
  assert (forallb word_byte text = true) as Hw'.
  { unfold text, four. rewrite !forallb_app. rewrite (letters3_word wk), (letters3_word mon), !two_word by (done || dlia). reflexivity. }
  assert (cstr text = text) as Hc.
  { apply cstr_no_nul. intros Hi. rewrite forallb_forall in Hw'. by specialize (Hw' 0 Hi). }
  split; [done|]. split; [|done]. unfold parseFromGreenwich. rewrite Hz, Hsl, H7, Hc, E2'. change (29 <? 8) with false. change (32 =? 45) with false.
  cbv beta zeta iota. f_equal.
  assert (sscanf text GREENWICH_LONG = [days dt; years dt; hours dt; minutes dt; seconds dt]) as ->.
  { assert (forall r, sscanf (wk ++ 44 :: r) (Skip 4 :: drop 1 GREENWICH_LONG) = sscanf r (drop 1 GREENWICH_LONG)) as W.
    { intros r. destruct wk as [|a [|b [|c [|]]]]; try done. cbn in E1. zbool. cbn [sscanf app skip_space].
      destruct (isspace a) eqn:Ea; [done|]. cbn [word]. rewrite Ea.
      destruct (isspace b) eqn:Eb; [done|]. by destruct (isspace c). }
    unfold text. change (str ", " ++ ?r) with (44 :: 32 :: r).
    assert (forall r, str " " ++ r = 32 :: r) as S1 by done. assert (forall r, str ":" ++ r = 58 :: r) as S2 by done.
    rewrite !S1, !S2.
    change GREENWICH_LONG with (Skip 4 :: drop 1 GREENWICH_LONG). rewrite W.
    assert (forall s f, sscanf s (Blank :: f) = sscanf (skip_space s) f) as B by done.
    assert (forall c s f, sscanf (c :: s) (Lit c :: f) = sscanf s f) as L by (intros; cbn [sscanf]; by rewrite Z.eqb_refl).
    cbn [drop GREENWICH_LONG].
    repeat first [rewrite B | rewrite L | rewrite skip_space_two by lia | rewrite sscanf_two by lia
      | rewrite skip_space_four by lia | rewrite sscanf_four by lia | rewrite skip_space_word by done | rewrite sscanf_word3 by done].
    reflexivity. }
  cbn [nth drop]. unfold tm_of. cbn [nth]. replace (months dt - 1 + 1) with (months dt) by lia. rewrite Hback.
  apply wrap_small. unfold is_u. lia.
Qed.

(** ** Properties *)

(** C35: a date of the years 1970 to 9999 that is written for HTTP (Greenwich mean time)
    is read back: [parseFromGreenwich] gives the seconds that it was made from. *)
Theorem greenwich_roundtrip (t : Z) :
  0 <= t < 253402300800 ->
  exists text, (dt ← create (u64 (t * 1000000)) 0 FORMAT; format dt TIME_GREENWICH_MEAN_PATTERN) = Val text /\
    zlen text = 29 /\ parseFromGreenwich text = Some t.
Proof. intros Ht. destruct (greenwich_text t Ht) as (text & ? & ? & ? & _). eauto. Qed.

(** The format of dates in logs, whose numbers have fixed widths. *)
Definition FIXED : bytes := str "yyyy-MM-dd HH:mm:ss".

Lemma format_fixed dt : plain dt ->
  format dt FIXED = Val (four (years dt) ++ str "-" ++ two (months dt) ++ str "-" ++ two (days dt) ++ str " " ++
    two (hours dt) ++ str ":" ++ two (minutes dt) ++ str ":" ++ two (seconds dt)).
Proof.
  intros (Hy & Hm & Hd & Hh & Hmi & Hs & Hw).
  assert (Z.rem (years dt) 10000 = years dt) as E by (apply Z.rem_small; lia). unfold format.
  let p := eval vm_compute in FIXED in change FIXED with p.
  match goal with |- context [format_loop ?n] => let k := eval vm_compute in n in change n with k end.
  repeat format_round ltac:(rewrite ?E).
  match goal with |- format_loop ?f ?dt [] ?b = _ => change (format_loop f dt [] b) with (Val b) end.
  rewrite <- !app_assoc. reflexivity.
Qed.

Lemma field_number size d fmt r : (Z.of_nat size <=? parser_count fmt size) = true -> length d = size -> d <> [] ->
  forallb isdigit d = true -> digits_val d < 2 ^ 31 ->
  field size fmt (d ++ r) = Some (drop size fmt, Some (digits_val d), r).
Proof.
  intros Hc Hs Hne Hd Hv. unfold field. rewrite Hc, zlen_app. pose proof (zlen_nonneg r).
  rewrite (proj2 (Z.ltb_ge _ _)) by (unfold zlen in *; lia). subst size. rewrite take_app_length, drop_app_length.
  unfold whole_number. assert (strtol (d ++ []) = (digits_val d, [])) as E by (apply strtol_digits; [done..|lia|intros []|done]).
  rewrite app_nil_r in E. rewrite E. cbn. do 4 f_equal. pose proof (digits_val_nonneg d Hd).
  unfold swrap. change (2 ^ (32 - 1)) with (2 ^ 31). rewrite Z.mod_small by lia. lia.
Qed.

Lemma field_two n fmt r : 0 <= n < 100 -> (2 <=? parser_count fmt 2) = true ->
  field 2 fmt (two n ++ r) = Some (drop 2 fmt, Some n, r).
Proof. intros Hn Hc. destruct (two_val n Hn) as [D V]. rewrite (field_number 2 (two n)), V by (done || lia). done. Qed.

Lemma field_four n fmt r : 0 <= n < 10000 -> (4 <=? parser_count fmt 4) = true ->
  field 4 fmt (four n ++ r) = Some (drop 4 fmt, Some n, r).
Proof. intros Hn Hc. destruct (four_val n Hn) as [D V]. rewrite (field_number 4 (four n)), V by (done || lia). done. Qed.

(** One round of [parse_loop] on a known format. *)
Ltac parse_round :=
  match goal with
  | |- context [parse_loop (S ?f) (?c :: ?fmt) ?input ?p] =>
      change (parse_loop (S f) (c :: fmt) input p) with
        (match parse_one (c :: fmt) input p with
         | Undef => Some Undef | Val None => Some (Val None)
         | Val (Some (x, y, z)) => parse_loop f x y z
         end);
      unfold parse_one at 1; cbv delta [hd] beta zeta; cbv iota delta [Z.eqb Pos.eqb];
      rewrite ?field_four, ?field_two by (assumption || reflexivity || lia); cbv beta iota delta [mbind option_bind];
      cbn [drop app]; rewrite ?drop_0
  end.

Lemma parse_fixed dt rest fmt : plain dt -> (2 <=? parser_count (115 :: 115 :: fmt) 2) = true -> forall fuel,
  parse_loop (11 + fuel) (FIXED ++ fmt)
    (four (years dt) ++ str "-" ++ two (months dt) ++ str "-" ++ two (days dt) ++ str " " ++
     two (hours dt) ++ str ":" ++ two (minutes dt) ++ str ":" ++ two (seconds dt) ++ rest) (MkParts 0 0 0 0 0 0 0 0 0) =
  parse_loop fuel fmt rest
    (MkParts (years dt) (months dt) (days dt) (hours dt) (minutes dt) (seconds dt) 0 0 0).
Proof.
  intros (Hy & Hm & Hd & Hh & Hmi & Hs & Hw) Hss fuel.
  let p := eval vm_compute in FIXED in change FIXED with p. cbn [app Nat.add].
  change (str "-") with [45]. change (str " ") with [32]. change (str ":") with [58].
  do 11 parse_round. reflexivity.
Qed.

Lemma parse_nonempty fuel fmt text : fmt <> [] -> text <> [] -> parse fuel fmt text =
  (r ← parse_loop fuel fmt text (MkParts 0 0 0 0 0 0 0 0 0);
   Some (r ← r; match r with None => Val None | Some p => Some <$> of_parts p end)).
Proof. by destruct fmt, text. Qed.

(** More rounds do not change a result. *)
Lemma parse_loop_more k n : forall fmt input p r, parse_loop n fmt input p = Some r -> parse_loop (n + k) fmt input p = Some r.
Proof.
  induction n as [|n IH]; intros fmt input p r; cbn [parse_loop Nat.add].
  - destruct (hd 0 fmt =? 0) eqn:E; [|done]. intros <-. destruct k; cbn [parse_loop]; by rewrite E.
  - destruct (hd 0 fmt =? 0); [done|]. destruct (parse_one fmt input p) as [[[[f i] q]|]|]; [apply IH|done..].
Qed.

(** The parts of an instant in the range of the clock. *)
Lemma of_parts_plain t dt : 0 <= t < 9223372036 -> plain dt -> create (t * 1000000) 0 FORMAT = Val dt ->
  timegm_any (Tm (years dt) (months dt) (days dt) (hours dt) (minutes dt) (seconds dt) 0 0) = t ->
  of_parts (MkParts (years dt) (months dt) (days dt) (hours dt) (minutes dt) (seconds dt) 0 0 0) = Val dt.
Proof.
  intros Ht Hp E Hback. unfold of_parts. cbn [p_year p_mon p_day p_hour p_min p_sec p_mill p_micro p_utc]. rewrite Hback.
  replace (t * 1000000000 + 0 * 1000000 + 0 * 1000) with (t * 1000000000) by lia.
  replace (t * 1000000000 - 0 * 3600000000000) with (t * 1000000000) by lia.
  assert (swrap 64 (t * 1000000000) = t * 1000000000) as ->.
  { unfold swrap. change (2 ^ (64 - 1)) with (2 ^ 63). rewrite Z.mod_small by lia. lia. }
  rewrite Z.eqb_refl. cbn [andb]. rewrite Z.quot_div_nonneg by lia. replace (t * 1000000000 / 1000) with (t * 1000000) by dlia.
  rewrite wrap_small by (unfold is_u; lia). done.
Qed.

(** A date that is written with the format of fixed widths is read back by the
    parser with the same format, and the loop ends: any instant from 1970 on whose
    nanoseconds fit the clock. *)
Theorem date_parse_format (t : Z) :
  0 <= t < 9223372036 ->
  exists dt text, create (t * 1000000) 0 FORMAT = Val dt /\ format dt FIXED = Val text /\
  forall fuel, (11 <= fuel)%nat -> parse fuel FIXED text = Some (Val (Some dt)).
Proof.
  intros Ht. assert (u64 (t * 1000000) = t * 1000000) as Hu by (apply wrap_small; unfold is_u; lia).
  destruct (create (u64 (t * 1000000)) 0 FORMAT) as [dt|] eqn:E; [|by unfold create in E].
  destruct (plain_date t dt ltac:(lia) E) as (Hp & _ & Hback). rewrite Hu in E.
  exists dt. eexists. split; [done|]. split; [by apply format_fixed|]. intros fuel Hf.
  rewrite parse_nonempty by done. pose proof (parse_fixed dt [] [] Hp eq_refl (fuel - 11)) as Hl.
  rewrite !app_nil_r in Hl. replace (11 + (fuel - 11))%nat with fuel in Hl by lia. rewrite Hl.
  replace (parse_loop (fuel - 11) [] [] _) with
    (Some (Val (Some (MkParts (years dt) (months dt) (days dt) (hours dt) (minutes dt) (seconds dt) 0 0 0)))) by (by destruct (fuel - 11)%nat).
  cbn [mbind option_bind]. rewrite bind_Val, (of_parts_plain t) by done. done.
Qed.

Lemma date_parse_format_witness : exists dt text,
  create (1719452585 * 1000000) 0 FORMAT = Val dt /\ format dt FIXED = Val text /\
  forall fuel, (11 <= fuel)%nat -> parse fuel FIXED text = Some (Val (Some dt)).
Proof. apply (date_parse_format 1719452585). lia. Defined.

Lemma greenwich_roundtrip_witness : exists text,
  (dt ← create (u64 (784111777 * 1000000)) 0 FORMAT; format dt TIME_GREENWICH_MEAN_PATTERN) = Val text /\
  zlen text = 29 /\ parseFromGreenwich text = Some 784111777.
Proof. apply (greenwich_roundtrip 784111777). lia. Defined.

(** The zone of a date is written with as many digits as it has, and a zone of one digit
    at the end of the text makes the parser loop for ever: the input is consumed and the
    format does not move. *)
Lemma parse_stuck fuel fmt p : parse_loop fuel (122 :: fmt) [] p = None.
Proof. induction fuel as [|fuel IH]; [done|]. exact IH. Qed.

Lemma format_zone dt : plain dt ->
  format dt (FIXED ++ str " z") = Val (four (years dt) ++ str "-" ++ two (months dt) ++ str "-" ++ two (days dt) ++ str " " ++
    two (hours dt) ++ str ":" ++ two (minutes dt) ++ str ":" ++ two (seconds dt) ++ str " " ++
    (if utc dt >=? 0 then [43] else []) ++ to_string (utc dt)).
Proof.
  intros (Hy & Hm & Hd & Hh & Hmi & Hs & Hw).
  assert (Z.rem (years dt) 10000 = years dt) as E by (apply Z.rem_small; lia). unfold format.
  let p := eval vm_compute in (FIXED ++ str " z") in change (FIXED ++ str " z") with p.
  match goal with |- context [format_loop ?n] => let k := eval vm_compute in n in change n with k end.
  repeat format_round ltac:(rewrite ?E).
  match goal with |- format_loop ?f ?dt [] ?b = _ => change (format_loop f dt [] b) with (Val b) end.
  rewrite <- !app_assoc. reflexivity.
Qed.

Lemma zone_text u : -9 <= u <= 9 -> exists s d, (if u >=? 0 then [43] else []) ++ to_string u = [s; d] /\ (s = 43 \/ s = 45).
Proof.
  intros Hu. pose proof (forallb_seqZ (fun n => let u := n - 9 in
    match (if u >=? 0 then [43] else []) ++ to_string u with [s; d] => (s =? 43) || (s =? 45) | _ => false end)
    19 ltac:(vm_compute; reflexivity) (u + 9) ltac:(lia)) as F.
  cbv beta zeta in F. replace (u + 9 - 9) with u in F by lia.
  destruct (_ ++ to_string u) as [|s [|d [|]]]; try done. exists s, d. split; [done|].
  apply orb_true_iff in F as [F|F]; zbool; auto.
Qed.

(** The text that [format] writes for a date with a zone of less than ten hours is
    not a text that the parser reads with the same format: its loop never ends. *)
Theorem date_zone_diverges (dt : DateTime) :
  plain dt -> -9 <= utc dt <= 9 ->
  exists text, format dt (FIXED ++ str " z") = Val text /\
  forall fuel, parse fuel (FIXED ++ str " z") text = None.
Proof.
  intros Hp Hu. eexists. split; [by apply format_zone|]. intros fuel.
  destruct (zone_text (utc dt) Hu) as (s & d & -> & Hs).
  assert (forall fuel, parse_loop (11 + fuel) (FIXED ++ str " z") (four (years dt) ++ str "-" ++ two (months dt) ++ str "-" ++
    two (days dt) ++ str " " ++ two (hours dt) ++ str ":" ++ two (minutes dt) ++ str ":" ++ two (seconds dt) ++ str " " ++ [s; d])
    (MkParts 0 0 0 0 0 0 0 0 0) = None) as H.
  { intros n. rewrite parse_fixed by done. destruct n as [|[|n]]; [done..|].
    destruct Hs as [-> | ->]; exact (parse_stuck n [] _). }
  rewrite parse_nonempty by done. destruct (parse_loop fuel _ _ _) as [r|] eqn:E; [|done].
  apply (parse_loop_more 11) in E. rewrite Nat.add_comm, H in E. done.
Qed.

Lemma date_zone_diverges_witness : exists dt,
  create 1719452585071000 8 FORMAT = Val dt /\
  exists text, format dt (FIXED ++ str " z") = Val text /\ forall fuel, parse fuel (FIXED ++ str " z") text = None.
Proof.
  eexists. split; [reflexivity|]. apply date_zone_diverges; [|vm_compute; split; discriminate].
  vm_compute. repeat split; discriminate.
Defined.
