(* ===== verification/Header.v ===== *)
(** * HTTP headers and cookies

    Models [sese/net/http/Header.h], [Header.cpp], [Cookie.cpp], [CookieMap.cpp] and
    the cookie parsing of [HttpUtil.cpp]. A [CookieMap] and its cookies are owned
    by the header that holds them: the code shares them only to read them. *)

From S2P Require Import Prelude Text OrdMap.

(** ** Cookies *)

(*@ sese/net/http/Cookie.h 63-72 Cookie *)
Record Cookie := MkCookie {
  secure : bool; httpOnly : bool; maxAge : Z; expires : Z;
  name : bytes; value : bytes; domain : bytes; path : bytes }.

(*@ sese/net/http/Cookie.cpp 28-31 Cookie::Cookie *)
Definition new_cookie (name value : bytes) : Cookie :=
  MkCookie false false 0 0 name value [] [].

(*@ sese/net/http/Cookie.cpp 33-35 Cookie::expired *)
Definition cookie_expired (c : Cookie) (now : Z) : bool := expires c <? now.

(*@ sese/net/http/Cookie.cpp 41-43 Cookie::setSecure *)
Definition setSecure (b : bool) (c : Cookie) : Cookie :=
  MkCookie b (httpOnly c) (maxAge c) (expires c) (name c) (value c) (domain c) (path c).

(*@ sese/net/http/Cookie.cpp 49-51 Cookie::setHttpOnly *)
Definition setHttpOnly (b : bool) (c : Cookie) : Cookie :=
  MkCookie (secure c) b (maxAge c) (expires c) (name c) (value c) (domain c) (path c).

(*@ sese/net/http/Cookie.cpp 57-60 Cookie::setMaxAge *)
Definition setMaxAge (a : Z) (c : Cookie) : Cookie :=
  MkCookie (secure c) (httpOnly c) a (expires c) (name c) (value c) (domain c) (path c).

(*@ sese/net/http/Cookie.cpp 66-68 Cookie::setExpires *)
Definition setExpires (e : Z) (c : Cookie) : Cookie :=
  MkCookie (secure c) (httpOnly c) (maxAge c) e (name c) (value c) (domain c) (path c).

(*@ sese/net/http/Cookie.cpp 86-88 Cookie::setDomain *)
Definition setDomain (d : bytes) (c : Cookie) : Cookie :=
  MkCookie (secure c) (httpOnly c) (maxAge c) (expires c) (name c) (value c) d (path c).

(*@ sese/net/http/Cookie.cpp 94-96 Cookie::setPath *)
Definition setPath (p : bytes) (c : Cookie) : Cookie :=
  MkCookie (secure c) (httpOnly c) (maxAge c) (expires c) (name c) (value c) (domain c) p.

(*@ sese/net/http/Cookie.cpp 98-102 Cookie::updateExpiresFrom *)
Definition updateExpiresFrom (now : Z) (c : Cookie) : Cookie :=
  if (expires c =? 0) && negb (maxAge c =? 0) then setExpires (u64 (now + maxAge c)) c else c.

(** ** Cookie maps *)

(*@ sese/net/http/CookieMap.h 33-64 CookieMap *)
(** [std::map<std::string, Cookie::Ptr>]. *)
Definition CookieMap : Type := list (bytes * Cookie).

(*@ sese/net/http/CookieMap.cpp 19-21 CookieMap::add *)
Definition cookies_add (c : Cookie) (m : CookieMap) : CookieMap := mset lexcmp (name c) c m.

(*@ sese/net/http/CookieMap.cpp 23-30 CookieMap::find *)
Definition cookies_find (n : bytes) (m : CookieMap) : option Cookie := mfind lexcmp n m.

(*@ sese/net/http/CookieMap.cpp 34-46 CookieMap::expired *)
(** Cookies with an expiry date in the past are erased. *)
Fixpoint cookies_expired (now : Z) (m : CookieMap) : CookieMap :=
  match m with
  | [] => []
  | (k, c) :: m =>
      if negb (expires c =? 0) then
        if cookie_expired c now then cookies_expired now m
        else (k, c) :: cookies_expired now m
      else (k, c) :: cookies_expired now m
  end.

(*@ sese/net/http/CookieMap.cpp 48-52 CookieMap::updateExpiresFrom *)
Definition cookies_updateExpiresFrom (offset : Z) (m : CookieMap) : CookieMap :=
  map (fun e => (fst e, updateExpiresFrom offset (snd e))) m.

(*@ sese/net/http/HttpUtil.cpp 388-397 HttpUtil::parseFromCookie *)
Definition parseFromCookie (text : bytes) : CookieMap :=
  fold_left (fun cookies one =>
    match split_view one (str "=") with
    | [n; v] => cookies_add (new_cookie n v) cookies
    | _ => cookies
    end) (split_view text (str "; ")) [].

(** ** Headers *)

(*@ sese/net/http/Header.h 44-92 Header *)
Record Header := MkHeader {
  headers : list (bytes * bytes);    (** [StrCaseMap<std::string>] *)
  cookies : option CookieMap }.

Definition empty_header : Header := MkHeader [] None.

(*@ sese/net/http/Header.cpp 34-39 Header::set *)
Definition header_set (h : Header) (key value : bytes) : Header :=
  MkHeader (mset StrCmpI key value (headers h)) (cookies h).

(*@ sese/net/http/Header.h 60-60 Header::find *)
Definition header_find (h : Header) (key : bytes) : option bytes := mfind StrCmpI key (headers h).

(*@ sese/net/http/Header.cpp 41-52 Header::get *)
Definition header_get (h : Header) (key default_value : bytes) : bytes :=
  match header_find h key with Some v => v | None => default_value end.

(*@ sese/net/http/Header.h 69-69 Header::exist *)
Definition header_exist (h : Header) (key : bytes) : bool :=
  match header_find h key with Some _ => true | None => false end.

(*@ sese/net/http/Header.h 62-62 Header::clear *)
(** The cookies stay. *)
Definition header_clear (h : Header) : Header := MkHeader [] (cookies h).

(*@ sese/net/http/Header.cpp 71-73 Header::setCookies *)
Definition header_setCookies (h : Header) (c : option CookieMap) : Header :=
  MkHeader (headers h) c.

(*@ sese/net/http/Header.cpp 77-82 Header::getCookie *)
Definition header_getCookie (h : Header) (n : bytes) : option Cookie :=
  match cookies h with Some m => cookies_find n m | None => None end.

(*@ sese/net/http/Header.cpp 84-89 Header::setCookie *)
Definition header_setCookie (h : Header) (c : Cookie) : Header :=
  let m := match cookies h with Some m => m | None => [] end in
  MkHeader (headers h) (Some (cookies_add c m)).

(** ** Well-formed maps *)

Definition header_ok (h : Header) : Prop :=
  msorted StrCmpI (headers h) /\
  match cookies h with Some m => msorted lexcmp m | None => True end.

Lemma header_set_ok h k v : header_ok h -> header_ok (header_set h k v).
Proof. intros [H1 H2]. split; cbn; [by apply mset_sorted; [apply _|]|done]. Qed.

Lemma header_find_set h k v k' : header_ok h ->
  header_find (header_set h k v) k' = if StrCmpI k' k =? 0 then Some v else header_find h k'.
Proof. intros [H _]. unfold header_find, header_set. cbn. by apply mfind_mset; [apply _|]. Qed.

Lemma cookies_add_ok c m : msorted lexcmp m -> msorted lexcmp (cookies_add c m).
Proof. intros. by apply mset_sorted; [apply _|]. Qed.

Lemma parseFromCookie_ok text : msorted lexcmp (parseFromCookie text).
Proof.
  unfold parseFromCookie. generalize (split_view text (str "; ")).
  assert (forall l m, msorted lexcmp m -> msorted lexcmp (fold_left (fun cookies one =>
    match split_view one (str "=") with
    | [n; v] => cookies_add (new_cookie n v) cookies | _ => cookies end) l m)) as H; [|by intros l; apply H].
  induction l as [|one l IH]; intros m Hm; [done|]. apply IH.
  destruct (split_view one _) as [|n [|v [|]]]; auto using cookies_add_ok.
Qed.

(** Header names that differ only in letter case are the same field. *)
Lemma header_find_equiv h k l : StrCmpI k l = 0 -> header_find h k = header_find h l.
Proof. apply mfind_equiv, _. Qed.

(** ** Properties *)

(** A header is a map from names, taken without regard to letter case, to
    values: setting a field makes every spelling of its name read the new value,
    leaves the other fields alone, keeps the map ordered, and after it the field
    exists. *)
Theorem header_set_get (h : Header) (k v k' d : bytes) :
  header_ok h ->
  header_ok (header_set h k v) /\
  header_get (header_set h k v) k' d = (if strcmpDoNotCase k' k then v else header_get h k' d) /\
  header_exist (header_set h k v) k' = strcmpDoNotCase k' k || header_exist h k'.
Proof.
  intros H. split; [by apply header_set_ok|].
  unfold header_get, header_exist, strcmpDoNotCase. rewrite header_find_set by done.
  by destruct (_ =? 0).
Qed.

Lemma header_set_get_witness :
  let h := header_set empty_header (str "Host") (str "a") in
  header_ok (header_set h (str "hOST") (str "b")) /\
  header_get (header_set h (str "hOST") (str "b")) (str "HOST") [] = str "b" /\
  header_exist (header_set h (str "hOST") (str "b")) (str "HOST") = true.
Proof.
  apply (header_set_get (header_set empty_header (str "Host") (str "a")) (str "hOST") (str "b") (str "HOST") []).
  apply header_set_ok. done.
Defined.
