(* ===== verification/Huffman.v ===== *)
(** * Huffman coding of HPACK strings

    Models [sese/net/http/Huffman.h] and [Huffman.cpp], and the table
    [HUFFMAN_TABLE] of [HPACK.h]: the decoding tree built by
    [huffman_tree_t::huffman_tree_t], the bit-by-bit [decode], and the encoder
    object with its pending byte. *)

From S2P Require Import Prelude.

(** ** The code table *)

Module BitNotations.
  Abbreviation I := true (only parsing).
  Abbreviation O := false (only parsing).
End BitNotations.
Import BitNotations.

(*@ sese/net/http/HPACK.h 60-189 HUFFMAN_TABLE *)
(** Codes of the bytes 0 to 127. *)
Definition HUFFMAN_TABLE_0_127 : list (list bool) :=
  [ [I; I; I; I; I; I; I; I; I; I; O; O; O];
    [I; I; I; I; I; I; I; I; I; I; I; I; I; I; I; I; I; O; I; I; O; O; O];
    [I; I; I; I; I; I; I; I; I; I; I; I; I; I; I; I; I; I; I; I; I; I; I; O; O; O; I; O];
    [I; I; I; I; I; I; I; I; I; I; I; I; I; I; I; I; I; I; I; I; I; I; I; O; O; O; I; I];
    [I; I; I; I; I; I; I; I; I; I; I; I; I; I; I; I; I; I; I; I; I; I; I; O; O; I; O; O];
    [I; I; I; I; I; I; I; I; I; I; I; I; I; I; I; I; I; I; I; I; I; I; I; O; O; I; O; I];
    [I; I; I; I; I; I; I; I; I; I; I; I; I; I; I; I; I; I; I; I; I; I; I; O; O; I; I; O];
    [I; I; I; I; I; I; I; I; I; I; I; I; I; I; I; I; I; I; I; I; I; I; I; O; O; I; I; I];
    [I; I; I; I; I; I; I; I; I; I; I; I; I; I; I; I; I; I; I; I; I; I; I; O; I; O; O; O];
    [I; I; I; I; I; I; I; I; I; I; I; I; I; I; I; I; I; I; I; O; I; O; I; O];
    [I; I; I; I; I; I; I; I; I; I; I; I; I; I; I; I; I; I; I; I; I; I; I; I; I; I; I; I; O; O];
    [I; I; I; I; I; I; I; I; I; I; I; I; I; I; I; I; I; I; I; I; I; I; I; O; I; O; O; I];
    [I; I; I; I; I; I; I; I; I; I; I; I; I; I; I; I; I; I; I; I; I; I; I; O; I; O; I; O];
    [I; I; I; I; I; I; I; I; I; I; I; I; I; I; I; I; I; I; I; I; I; I; I; I; I; I; I; I; O; I];
    [I; I; I; I; I; I; I; I; I; I; I; I; I; I; I; I; I; I; I; I; I; I; I; O; I; O; I; I];
    [I; I; I; I; I; I; I; I; I; I; I; I; I; I; I; I; I; I; I; I; I; I; I; O; I; I; O; O];
    [I; I; I; I; I; I; I; I; I; I; I; I; I; I; I; I; I; I; I; I; I; I; I; O; I; I; O; I];
    [I; I; I; I; I; I; I; I; I; I; I; I; I; I; I; I; I; I; I; I; I; I; I; O; I; I; I; O];
    [I; I; I; I; I; I; I; I; I; I; I; I; I; I; I; I; I; I; I; I; I; I; I; O; I; I; I; I];
    [I; I; I; I; I; I; I; I; I; I; I; I; I; I; I; I; I; I; I; I; I; I; I; I; O; O; O; O];
    [I; I; I; I; I; I; I; I; I; I; I; I; I; I; I; I; I; I; I; I; I; I; I; I; O; O; O; I];
    [I; I; I; I; I; I; I; I; I; I; I; I; I; I; I; I; I; I; I; I; I; I; I; I; O; O; I; O];
    [I; I; I; I; I; I; I; I; I; I; I; I; I; I; I; I; I; I; I; I; I; I; I; I; I; I; I; I; I; O];
    [I; I; I; I; I; I; I; I; I; I; I; I; I; I; I; I; I; I; I; I; I; I; I; I; O; O; I; I];
    [I; I; I; I; I; I; I; I; I; I; I; I; I; I; I; I; I; I; I; I; I; I; I; I; O; I; O; O];
    [I; I; I; I; I; I; I; I; I; I; I; I; I; I; I; I; I; I; I; I; I; I; I; I; O; I; O; I];
    [I; I; I; I; I; I; I; I; I; I; I; I; I; I; I; I; I; I; I; I; I; I; I; I; O; I; I; O];
    [I; I; I; I; I; I; I; I; I; I; I; I; I; I; I; I; I; I; I; I; I; I; I; I; O; I; I; I];
    [I; I; I; I; I; I; I; I; I; I; I; I; I; I; I; I; I; I; I; I; I; I; I; I; I; O; O; O];
    [I; I; I; I; I; I; I; I; I; I; I; I; I; I; I; I; I; I; I; I; I; I; I; I; I; O; O; I];
    [I; I; I; I; I; I; I; I; I; I; I; I; I; I; I; I; I; I; I; I; I; I; I; I; I; O; I; O];
    [I; I; I; I; I; I; I; I; I; I; I; I; I; I; I; I; I; I; I; I; I; I; I; I; I; O; I; I];
    [O; I; O; I; O; O];
    [I; I; I; I; I; I; I; O; O; O];
    [I; I; I; I; I; I; I; O; O; I];
    [I; I; I; I; I; I; I; I; I; O; I; O];
    [I; I; I; I; I; I; I; I; I; I; O; O; I];
    [O; I; O; I; O; I];
    [I; I; I; I; I; O; O; O];
    [I; I; I; I; I; I; I; I; O; I; O];
    [I; I; I; I; I; I; I; O; I; O];
    [I; I; I; I; I; I; I; O; I; I];
    [I; I; I; I; I; O; O; I];
    [I; I; I; I; I; I; I; I; O; I; I];
    [I; I; I; I; I; O; I; O];
    [O; I; O; I; I; O];
    [O; I; O; I; I; I];
    [O; I; I; O; O; O];
    [O; O; O; O; O];
    [O; O; O; O; I];
    [O; O; O; I; O];
    [O; I; I; O; O; I];
    [O; I; I; O; I; O];
    [O; I; I; O; I; I];
    [O; I; I; I; O; O];
    [O; I; I; I; O; I];
    [O; I; I; I; I; O];
    [O; I; I; I; I; I];
    [I; O; I; I; I; O; O];
    [I; I; I; I; I; O; I; I];
    [I; I; I; I; I; I; I; I; I; I; I; I; I; O; O];
    [I; O; O; O; O; O];
    [I; I; I; I; I; I; I; I; I; O; I; I];
    [I; I; I; I; I; I; I; I; O; O];
    [I; I; I; I; I; I; I; I; I; I; O; I; O];
    [I; O; O; O; O; I];
    [I; O; I; I; I; O; I];
    [I; O; I; I; I; I; O];
    [I; O; I; I; I; I; I];
    [I; I; O; O; O; O; O];
    [I; I; O; O; O; O; I];
    [I; I; O; O; O; I; O];
    [I; I; O; O; O; I; I];
    [I; I; O; O; I; O; O];
    [I; I; O; O; I; O; I];
    [I; I; O; O; I; I; O];
    [I; I; O; O; I; I; I];
    [I; I; O; I; O; O; O];
    [I; I; O; I; O; O; I];
    [I; I; O; I; O; I; O];
    [I; I; O; I; O; I; I];
    [I; I; O; I; I; O; O];
    [I; I; O; I; I; O; I];
    [I; I; O; I; I; I; O];
    [I; I; O; I; I; I; I];
    [I; I; I; O; O; O; O];
    [I; I; I; O; O; O; I];
    [I; I; I; O; O; I; O];
    [I; I; I; I; I; I; O; O];
    [I; I; I; O; O; I; I];
    [I; I; I; I; I; I; O; I];
    [I; I; I; I; I; I; I; I; I; I; O; I; I];
    [I; I; I; I; I; I; I; I; I; I; I; I; I; I; I; O; O; O; O];
    [I; I; I; I; I; I; I; I; I; I; I; O; O];
    [I; I; I; I; I; I; I; I; I; I; I; I; O; O];
    [I; O; O; O; I; O];
    [I; I; I; I; I; I; I; I; I; I; I; I; I; O; I];
    [O; O; O; I; I];
    [I; O; O; O; I; I];
    [O; O; I; O; O];
    [I; O; O; I; O; O];
    [O; O; I; O; I];
    [I; O; O; I; O; I];
    [I; O; O; I; I; O];
    [I; O; O; I; I; I];
    [O; O; I; I; O];
    [I; I; I; O; I; O; O];
    [I; I; I; O; I; O; I];
    [I; O; I; O; O; O];
    [I; O; I; O; O; I];
    [I; O; I; O; I; O];
    [O; O; I; I; I];
    [I; O; I; O; I; I];
    [I; I; I; O; I; I; O];
    [I; O; I; I; O; O];
    [O; I; O; O; O];
    [O; I; O; O; I];
    [I; O; I; I; O; I];
    [I; I; I; O; I; I; I];
    [I; I; I; I; O; O; O];
    [I; I; I; I; O; O; I];
    [I; I; I; I; O; I; O];
    [I; I; I; I; O; I; I];
    [I; I; I; I; I; I; I; I; I; I; I; I; I; I; O];
    [I; I; I; I; I; I; I; I; I; O; O];
    [I; I; I; I; I; I; I; I; I; I; I; I; O; I];
    [I; I; I; I; I; I; I; I; I; I; I; O; I];
    [I; I; I; I; I; I; I; I; I; I; I; I; I; I; I; I; I; I; I; I; I; I; I; I; I; I; O; O] ].

(*@ sese/net/http/HPACK.h 190-318 HUFFMAN_TABLE *)
(** Codes of the bytes 128 to 255, then the end-of-string code 256. *)
Definition HUFFMAN_TABLE_128_256 : list (list bool) :=
  [ [I; I; I; I; I; I; I; I; I; I; I; I; I; I; I; O; O; I; I; O];
    [I; I; I; I; I; I; I; I; I; I; I; I; I; I; I; I; O; I; O; O; I; O];
    [I; I; I; I; I; I; I; I; I; I; I; I; I; I; I; O; O; I; I; I];
    [I; I; I; I; I; I; I; I; I; I; I; I; I; I; I; O; I; O; O; O];
    [I; I; I; I; I; I; I; I; I; I; I; I; I; I; I; I; O; I; O; O; I; I];
    [I; I; I; I; I; I; I; I; I; I; I; I; I; I; I; I; O; I; O; I; O; O];
    [I; I; I; I; I; I; I; I; I; I; I; I; I; I; I; I; O; I; O; I; O; I];
    [I; I; I; I; I; I; I; I; I; I; I; I; I; I; I; I; I; O; I; I; O; O; I];
    [I; I; I; I; I; I; I; I; I; I; I; I; I; I; I; I; O; I; O; I; I; O];
    [I; I; I; I; I; I; I; I; I; I; I; I; I; I; I; I; I; O; I; I; O; I; O];
    [I; I; I; I; I; I; I; I; I; I; I; I; I; I; I; I; I; O; I; I; O; I; I];
    [I; I; I; I; I; I; I; I; I; I; I; I; I; I; I; I; I; O; I; I; I; O; O];
    [I; I; I; I; I; I; I; I; I; I; I; I; I; I; I; I; I; O; I; I; I; O; I];
    [I; I; I; I; I; I; I; I; I; I; I; I; I; I; I; I; I; O; I; I; I; I; O];
    [I; I; I; I; I; I; I; I; I; I; I; I; I; I; I; I; I; I; I; O; I; O; I];
    [I; I; I; I; I; I; I; I; I; I; I; I; I; I; I; I; I; O; I; I; I; I; I];
    [I; I; I; I; I; I; I; I; I; I; I; I; I; I; I; I; I; I; I; O; I; I; O; O];
    [I; I; I; I; I; I; I; I; I; I; I; I; I; I; I; I; I; I; I; O; I; I; O; I];
    [I; I; I; I; I; I; I; I; I; I; I; I; I; I; I; I; O; I; O; I; I; I];
    [I; I; I; I; I; I; I; I; I; I; I; I; I; I; I; I; I; I; O; O; O; O; O];
    [I; I; I; I; I; I; I; I; I; I; I; I; I; I; I; I; I; I; I; O; I; I; I; O];
    [I; I; I; I; I; I; I; I; I; I; I; I; I; I; I; I; I; I; O; O; O; O; I];
    [I; I; I; I; I; I; I; I; I; I; I; I; I; I; I; I; I; I; O; O; O; I; O];
    [I; I; I; I; I; I; I; I; I; I; I; I; I; I; I; I; I; I; O; O; O; I; I];
    [I; I; I; I; I; I; I; I; I; I; I; I; I; I; I; I; I; I; O; O; I; O; O];
    [I; I; I; I; I; I; I; I; I; I; I; I; I; I; I; O; I; I; I; O; O];
    [I; I; I; I; I; I; I; I; I; I; I; I; I; I; I; I; O; I; I; O; O; O];
    [I; I; I; I; I; I; I; I; I; I; I; I; I; I; I; I; I; I; O; O; I; O; I];
    [I; I; I; I; I; I; I; I; I; I; I; I; I; I; I; I; O; I; I; O; O; I];
    [I; I; I; I; I; I; I; I; I; I; I; I; I; I; I; I; I; I; O; O; I; I; O];
    [I; I; I; I; I; I; I; I; I; I; I; I; I; I; I; I; I; I; O; O; I; I; I];
    [I; I; I; I; I; I; I; I; I; I; I; I; I; I; I; I; I; I; I; O; I; I; I; I];
    [I; I; I; I; I; I; I; I; I; I; I; I; I; I; I; I; O; I; I; O; I; O];
    [I; I; I; I; I; I; I; I; I; I; I; I; I; I; I; O; I; I; I; O; I];
    [I; I; I; I; I; I; I; I; I; I; I; I; I; I; I; O; I; O; O; I];
    [I; I; I; I; I; I; I; I; I; I; I; I; I; I; I; I; O; I; I; O; I; I];
    [I; I; I; I; I; I; I; I; I; I; I; I; I; I; I; I; O; I; I; I; O; O];
    [I; I; I; I; I; I; I; I; I; I; I; I; I; I; I; I; I; I; O; I; O; O; O];
    [I; I; I; I; I; I; I; I; I; I; I; I; I; I; I; I; I; I; O; I; O; O; I];
    [I; I; I; I; I; I; I; I; I; I; I; I; I; I; I; O; I; I; I; I; O];
    [I; I; I; I; I; I; I; I; I; I; I; I; I; I; I; I; I; I; O; I; O; I];
    [I; I; I; I; I; I; I; I; I; I; I; I; I; I; I; I; O; I; I; I; O; I];
    [I; I; I; I; I; I; I; I; I; I; I; I; I; I; I; I; O; I; I; I; I; O];
    [I; I; I; I; I; I; I; I; I; I; I; I; I; I; I; I; I; I; I; I; O; O; O; O];
    [I; I; I; I; I; I; I; I; I; I; I; I; I; I; I; O; I; I; I; I; I];
    [I; I; I; I; I; I; I; I; I; I; I; I; I; I; I; I; O; I; I; I; I; I];
    [I; I; I; I; I; I; I; I; I; I; I; I; I; I; I; I; I; I; O; I; O; I; I];
    [I; I; I; I; I; I; I; I; I; I; I; I; I; I; I; I; I; I; O; I; I; O; O];
    [I; I; I; I; I; I; I; I; I; I; I; I; I; I; I; I; O; O; O; O; O];
    [I; I; I; I; I; I; I; I; I; I; I; I; I; I; I; I; O; O; O; O; I];
    [I; I; I; I; I; I; I; I; I; I; I; I; I; I; I; I; I; O; O; O; O; O];
    [I; I; I; I; I; I; I; I; I; I; I; I; I; I; I; I; O; O; O; I; O];
    [I; I; I; I; I; I; I; I; I; I; I; I; I; I; I; I; I; I; O; I; I; O; I];
    [I; I; I; I; I; I; I; I; I; I; I; I; I; I; I; I; I; O; O; O; O; I];
    [I; I; I; I; I; I; I; I; I; I; I; I; I; I; I; I; I; I; O; I; I; I; O];
    [I; I; I; I; I; I; I; I; I; I; I; I; I; I; I; I; I; I; O; I; I; I; I];
    [I; I; I; I; I; I; I; I; I; I; I; I; I; I; I; O; I; O; I; O];
    [I; I; I; I; I; I; I; I; I; I; I; I; I; I; I; I; I; O; O; O; I; O];
    [I; I; I; I; I; I; I; I; I; I; I; I; I; I; I; I; I; O; O; O; I; I];
    [I; I; I; I; I; I; I; I; I; I; I; I; I; I; I; I; I; O; O; I; O; O];
    [I; I; I; I; I; I; I; I; I; I; I; I; I; I; I; I; I; I; I; O; O; O; O];
    [I; I; I; I; I; I; I; I; I; I; I; I; I; I; I; I; I; O; O; I; O; I];
    [I; I; I; I; I; I; I; I; I; I; I; I; I; I; I; I; I; O; O; I; I; O];
    [I; I; I; I; I; I; I; I; I; I; I; I; I; I; I; I; I; I; I; O; O; O; I];
    [I; I; I; I; I; I; I; I; I; I; I; I; I; I; I; I; I; I; I; I; I; O; O; O; O; O];
    [I; I; I; I; I; I; I; I; I; I; I; I; I; I; I; I; I; I; I; I; I; O; O; O; O; I];
    [I; I; I; I; I; I; I; I; I; I; I; I; I; I; I; O; I; O; I; I];
    [I; I; I; I; I; I; I; I; I; I; I; I; I; I; I; O; O; O; I];
    [I; I; I; I; I; I; I; I; I; I; I; I; I; I; I; I; I; O; O; I; I; I];
    [I; I; I; I; I; I; I; I; I; I; I; I; I; I; I; I; I; I; I; O; O; I; O];
    [I; I; I; I; I; I; I; I; I; I; I; I; I; I; I; I; I; O; I; O; O; O];
    [I; I; I; I; I; I; I; I; I; I; I; I; I; I; I; I; I; I; I; I; O; I; I; O; O];
    [I; I; I; I; I; I; I; I; I; I; I; I; I; I; I; I; I; I; I; I; I; O; O; O; I; O];
    [I; I; I; I; I; I; I; I; I; I; I; I; I; I; I; I; I; I; I; I; I; O; O; O; I; I];
    [I; I; I; I; I; I; I; I; I; I; I; I; I; I; I; I; I; I; I; I; I; O; O; I; O; O];
    [I; I; I; I; I; I; I; I; I; I; I; I; I; I; I; I; I; I; I; I; I; O; I; I; I; I; O];
    [I; I; I; I; I; I; I; I; I; I; I; I; I; I; I; I; I; I; I; I; I; O; I; I; I; I; I];
    [I; I; I; I; I; I; I; I; I; I; I; I; I; I; I; I; I; I; I; I; I; O; O; I; O; I];
    [I; I; I; I; I; I; I; I; I; I; I; I; I; I; I; I; I; I; I; I; O; O; O; I];
    [I; I; I; I; I; I; I; I; I; I; I; I; I; I; I; I; I; I; I; I; O; I; I; O; I];
    [I; I; I; I; I; I; I; I; I; I; I; I; I; I; I; O; O; I; O];
    [I; I; I; I; I; I; I; I; I; I; I; I; I; I; I; I; O; O; O; I; I];
    [I; I; I; I; I; I; I; I; I; I; I; I; I; I; I; I; I; I; I; I; I; O; O; I; I; O];
    [I; I; I; I; I; I; I; I; I; I; I; I; I; I; I; I; I; I; I; I; I; I; O; O; O; O; O];
    [I; I; I; I; I; I; I; I; I; I; I; I; I; I; I; I; I; I; I; I; I; I; O; O; O; O; I];
    [I; I; I; I; I; I; I; I; I; I; I; I; I; I; I; I; I; I; I; I; I; O; O; I; I; I];
    [I; I; I; I; I; I; I; I; I; I; I; I; I; I; I; I; I; I; I; I; I; I; O; O; O; I; O];
    [I; I; I; I; I; I; I; I; I; I; I; I; I; I; I; I; I; I; I; I; O; O; I; O];
    [I; I; I; I; I; I; I; I; I; I; I; I; I; I; I; I; O; O; I; O; O];
    [I; I; I; I; I; I; I; I; I; I; I; I; I; I; I; I; O; O; I; O; I];
    [I; I; I; I; I; I; I; I; I; I; I; I; I; I; I; I; I; I; I; I; I; O; I; O; O; O];
    [I; I; I; I; I; I; I; I; I; I; I; I; I; I; I; I; I; I; I; I; I; O; I; O; O; I];
    [I; I; I; I; I; I; I; I; I; I; I; I; I; I; I; I; I; I; I; I; I; I; I; I; I; I; O; I];
    [I; I; I; I; I; I; I; I; I; I; I; I; I; I; I; I; I; I; I; I; I; I; O; O; O; I; I];
    [I; I; I; I; I; I; I; I; I; I; I; I; I; I; I; I; I; I; I; I; I; I; O; O; I; O; O];
    [I; I; I; I; I; I; I; I; I; I; I; I; I; I; I; I; I; I; I; I; I; I; O; O; I; O; I];
    [I; I; I; I; I; I; I; I; I; I; I; I; I; I; I; O; I; I; O; O];
    [I; I; I; I; I; I; I; I; I; I; I; I; I; I; I; I; I; I; I; I; O; O; I; I];
    [I; I; I; I; I; I; I; I; I; I; I; I; I; I; I; O; I; I; O; I];
    [I; I; I; I; I; I; I; I; I; I; I; I; I; I; I; I; O; O; I; I; O];
    [I; I; I; I; I; I; I; I; I; I; I; I; I; I; I; I; I; O; I; O; O; I];
    [I; I; I; I; I; I; I; I; I; I; I; I; I; I; I; I; O; O; I; I; I];
    [I; I; I; I; I; I; I; I; I; I; I; I; I; I; I; I; O; I; O; O; O];
    [I; I; I; I; I; I; I; I; I; I; I; I; I; I; I; I; I; I; I; O; O; I; I];
    [I; I; I; I; I; I; I; I; I; I; I; I; I; I; I; I; I; O; I; O; I; O];
    [I; I; I; I; I; I; I; I; I; I; I; I; I; I; I; I; I; O; I; O; I; I];
    [I; I; I; I; I; I; I; I; I; I; I; I; I; I; I; I; I; I; I; I; O; I; I; I; O];
    [I; I; I; I; I; I; I; I; I; I; I; I; I; I; I; I; I; I; I; I; O; I; I; I; I];
    [I; I; I; I; I; I; I; I; I; I; I; I; I; I; I; I; I; I; I; I; O; I; O; O];
    [I; I; I; I; I; I; I; I; I; I; I; I; I; I; I; I; I; I; I; I; O; I; O; I];
    [I; I; I; I; I; I; I; I; I; I; I; I; I; I; I; I; I; I; I; I; I; O; I; O; I; O];
    [I; I; I; I; I; I; I; I; I; I; I; I; I; I; I; I; I; I; I; O; I; O; O];
    [I; I; I; I; I; I; I; I; I; I; I; I; I; I; I; I; I; I; I; I; I; O; I; O; I; I];
    [I; I; I; I; I; I; I; I; I; I; I; I; I; I; I; I; I; I; I; I; I; I; O; O; I; I; O];
    [I; I; I; I; I; I; I; I; I; I; I; I; I; I; I; I; I; I; I; I; I; O; I; I; O; O];
    [I; I; I; I; I; I; I; I; I; I; I; I; I; I; I; I; I; I; I; I; I; O; I; I; O; I];
    [I; I; I; I; I; I; I; I; I; I; I; I; I; I; I; I; I; I; I; I; I; I; O; O; I; I; I];
    [I; I; I; I; I; I; I; I; I; I; I; I; I; I; I; I; I; I; I; I; I; I; O; I; O; O; O];
    [I; I; I; I; I; I; I; I; I; I; I; I; I; I; I; I; I; I; I; I; I; I; O; I; O; O; I];
    [I; I; I; I; I; I; I; I; I; I; I; I; I; I; I; I; I; I; I; I; I; I; O; I; O; I; O];
    [I; I; I; I; I; I; I; I; I; I; I; I; I; I; I; I; I; I; I; I; I; I; O; I; O; I; I];
    [I; I; I; I; I; I; I; I; I; I; I; I; I; I; I; I; I; I; I; I; I; I; I; I; I; I; I];
    [I; I; I; I; I; I; I; I; I; I; I; I; I; I; I; I; I; I; I; I; I; I; O; I; I; O; O];
    [I; I; I; I; I; I; I; I; I; I; I; I; I; I; I; I; I; I; I; I; I; I; O; I; I; O; I];
    [I; I; I; I; I; I; I; I; I; I; I; I; I; I; I; I; I; I; I; I; I; I; O; I; I; I; O];
    [I; I; I; I; I; I; I; I; I; I; I; I; I; I; I; I; I; I; I; I; I; I; O; I; I; I; I];
    [I; I; I; I; I; I; I; I; I; I; I; I; I; I; I; I; I; I; I; I; I; I; I; O; O; O; O];
    [I; I; I; I; I; I; I; I; I; I; I; I; I; I; I; I; I; I; I; I; I; O; I; I; I; O];
    [I; I; I; I; I; I; I; I; I; I; I; I; I; I; I; I; I; I; I; I; I; I; I; I; I; I; I; I; I; I] ].

(*@ sese/net/http/HPACK.h 60-319 HUFFMAN_TABLE *)
(** A [std::array] of 257 bit strings, indexed by byte. *)
Definition HUFFMAN_TABLE : list (list bool) :=
  HUFFMAN_TABLE_0_127 ++ HUFFMAN_TABLE_128_256.

(** [HUFFMAN_TABLE.at(byte)]; every index the code uses is in range. *)
Definition code_of (b : byte) : list bool := nth (Z.to_nat b) HUFFMAN_TABLE [].

(** ** The decoding tree *)

(*@ sese/net/http/Huffman.h 36-62 huffman_node_t *)
(** A pointer to a node: null, or a node with its children and its code
    ([-1] for an inner node). The tree owns its nodes and shares none. *)
Inductive huffman_node_t :=
| Null
| Node (m_left m_right : huffman_node_t) (m_code : Z).

(*@ sese/net/http/Huffman.cpp 22-29 huffman_node_t::huffman_node_t *)
Definition new_node : huffman_node_t := Node Null Null (-1).

(*@ sese/net/http/Huffman.h 51-51 huffman_node_t::code *)
Definition code (n : huffman_node_t) : Z :=
  match n with Null => -1 | Node _ _ c => c end.

(*@ sese/net/http/Huffman.cpp 36-51 huffman_tree_t::huffman_tree_t *)
(** The walk of one code through the tree: missing children are created,
    and the node reached takes the code. *)
Fixpoint add_code (n : huffman_node_t) (bits : list bool) (c : Z) : huffman_node_t :=
  match n with
  | Null => Null
  | Node l r k =>
      match bits with
      | [] => Node l r c
      | bit :: bits =>
          if bit then
            Node l (add_code (match r with Null => new_node | _ => r end) bits c) k
          else
            Node (add_code (match l with Null => new_node | _ => l end) bits c) r k
      end
  end.

(*@ sese/net/http/Huffman.cpp 31-53 huffman_tree_t::huffman_tree_t *)
Definition huffman_tree : huffman_node_t :=
  fst (fold_left (fun '(root, idx) bits => (add_code root bits idx, idx + 1))
                 HUFFMAN_TABLE (new_node, 0)).

(** ** Decoding *)

Section Decode.
(** The root of the tree, [m_root]. *)
Variable m_root : huffman_node_t.

(*@ sese/net/http/Huffman.cpp 83-107 huffman_tree_t::decode *)
(** One bit of the source: move to a child, which must exist; at a node
    with a code, emit it and restart from the root. *)
Definition decode_step (st : huffman_node_t * bytes) (result : bool) :
    option (huffman_node_t * bytes) :=
  let '(current, dst) := st in
  match current with
  | Null => None
  | Node l r _ =>
      let next := if result then r else l in
      match next with
      | Null => None
      | Node _ _ code =>
          if code >=? 0 then
            let dst := if code =? 257
              then dst ++ [u8 (Z.land (Z.shiftr (Z.land code 65280) 8) 255)]
              else dst in
            Some (m_root, dst ++ [u8 (Z.land code 255)])
          else Some (next, dst)
      end
  end.

(*@ sese/net/http/Huffman.cpp 81-82 huffman_tree_t::decode *)
(** [src[idx] & (1 << j)], for [j] from 7 down to 0. *)
Definition bits_of_byte (b : byte) : list bool :=
  map (fun j => Z.land b (Z.shiftl 1 j) >? 0) [7; 6; 5; 4; 3; 2; 1; 0].

(*@ sese/net/http/Huffman.cpp 70-115 huffman_tree_t::decode *)
Definition tree_decode (src : bytes) : option bytes :=
  if zlen src >? 2 ^ 32 - 1 then None
  else
    match foldlM (fun st b => foldlM decode_step st (bits_of_byte b))
                 (m_root, []) src with
    | Some (_, dst) => Some dst
    | None => None
    end.
End Decode.

(*@ sese/net/http/Huffman.cpp 70-115 huffman_tree_t::decode *)
(** [HuffmanDecoder::decode] on the tree its constructor builds. *)
Definition huffman_decode (src : bytes) : option bytes := tree_decode huffman_tree src.

(** ** Encoding *)

(*@ sese/net/http/Huffman.h 80-98 huffman_encoder_t *)
Record huffman_encoder_t := Encoder { m_byte : Z; m_count : Z }.

(*@ sese/net/http/Huffman.cpp 117-118 huffman_encoder_t::huffman_encoder_t *)
Definition new_encoder : huffman_encoder_t := Encoder 0 8.

(*@ sese/net/http/Huffman.cpp 120-131 huffman_encoder_t::write_bit *)
(** Returns whether the byte is complete. *)
Definition write_bit (e : huffman_encoder_t) (bit : bool) : bool * huffman_encoder_t :=
  let byte := Z.lor (m_byte e) (Z.b2z bit) in
  let count := u8 (m_count e - 1) in
  if count =? 0 then (true, Encoder byte 8)
  else (false, Encoder (u8 (Z.shiftl byte 1)) count).

(*@ sese/net/http/Huffman.cpp 139-145 huffman_encoder_t::encode *)
Definition encode_bit (st : huffman_encoder_t * bytes) (bit : bool) :
    huffman_encoder_t * bytes :=
  let '(e, ret) := st in
  let '(full, e) := write_bit e bit in
  if full then (Encoder 0 8, ret ++ [m_byte e]) else (e, ret).

(*@ sese/net/http/Huffman.cpp 133-162 huffman_encoder_t::encode *)
(** The overload taking a byte vector: the bits of every byte, then the
    pending byte padded with ones. *)
Definition huffman_encode (e : huffman_encoder_t) (src : bytes) :
    bytes * huffman_encoder_t :=
  let '(e, ret) :=
    fold_left (fun st b => fold_left encode_bit (code_of b) st) src (e, []) in
  if negb (m_count e =? 8) && negb (m_count e =? 0) then
    let byte := u8 (Z.shiftl (m_byte e) (m_count e - 1)) in
    let byte := Z.lor byte (u8 (Z.shiftr 255 (8 - m_count e))) in
    (ret ++ [byte], Encoder 0 8)
  else (ret, e).

(*@ sese/net/http/Huffman.cpp 169-178 huffman_encoder_t::encode *)
(** The overload taking a [char] pointer: the string up to its first NUL. The null-pointer
    test follows the construction of the string, which needs a valid pointer. *)
Definition huffman_encode_cstr (e : huffman_encoder_t) (s : bytes) :
    bytes * huffman_encoder_t :=
  huffman_encode e (cstr s).

(** ** The encoder writes the bit string of its input *)

(** The integer whose binary digits are [l], most significant first. *)
Definition bits_val (l : list bool) : Z :=
  fold_left (fun a b => 2 * a + Z.b2z b) l 0.

Lemma bits_val_snoc l b : bits_val (l ++ [b]) = 2 * bits_val l + Z.b2z b.
Proof. unfold bits_val. rewrite fold_left_app. reflexivity. Qed.

Lemma bits_val_range l : 0 <= bits_val l < 2 ^ zlen l.
Proof.
  induction l as [|b l IH] using rev_ind; [change (0 <= 0 < 1); lia|].
  rewrite bits_val_snoc, zlen_app, Z.pow_add_r by (unfold zlen; lia).
  change (2 ^ zlen [b]) with 2. destruct b; cbn [Z.b2z]; lia.
Qed.

Lemma lor_bit v b : Z.lor (2 * v) (Z.b2z b) = 2 * v + Z.b2z b.
Proof. destruct b; [destruct v as [|[]|[]]; reflexivity|]. now rewrite Z.lor_0_r, Z.add_0_r. Qed.

Lemma bits_of_bits_val p : length p = 8%nat -> bits_of_byte (bits_val p) = p.
Proof.
  intros H.
  destruct p as [|b0 [|b1 [|b2 [|b3 [|b4 [|b5 [|b6 [|b7 [|]]]]]]]]]; try discriminate.
  destruct b0, b1, b2, b3, b4, b5, b6, b7; reflexivity.
Qed.

(** The bits a byte sequence holds. *)
Definition bits_of (l : bytes) : list bool := l ≫= bits_of_byte.

(** [pending e p]: the encoder [e] holds the bits [p] of an unfinished byte. *)
Definition pending (e : huffman_encoder_t) (p : list bool) : Prop :=
  (length p < 8)%nat /\ m_count e = 8 - zlen p /\ m_byte e = 2 * bits_val p.

Lemma pending_nil : pending new_encoder [].
Proof. repeat split; cbn; lia. Qed.

Lemma encode_bit_spec e p ret b :
  pending e p -> bytes_ok ret ->
  exists e' p' ret', encode_bit (e, ret) b = (e', ret') /\ pending e' p' /\
    bytes_ok ret' /\ bits_of ret' ++ p' = bits_of ret ++ p ++ [b].
Proof.
  intros (Hp & Hc & Hb) Hret. unfold encode_bit, write_bit.
  rewrite Hc, Hb, lor_bit, <- bits_val_snoc.
  pose proof (bits_val_range (p ++ [b])) as Hr. rewrite zlen_app in Hr.
  change (zlen [b]) with 1 in Hr.
  assert (0 <= zlen p <= 7) by (unfold zlen; lia).
  rewrite (wrap_small 8) by (unfold is_u; lia).
  destruct (_ =? 0) eqn:E; zbool.
  - exists (Encoder 0 8), [], (ret ++ [bits_val (p ++ [b])]). split; [done|].
    split; [apply pending_nil|]. split.
    + apply Forall_app; split; [done|]. constructor; [|done].
      replace (zlen p + 1) with 8 in Hr by lia. done.
    + unfold bits_of. rewrite bind_app, bind_singleton, app_nil_r, bits_of_bits_val; [done|].
      rewrite length_app. cbn [length]. unfold zlen in *. lia.
  - exists (Encoder (u8 (Z.shiftl (bits_val (p ++ [b])) 1)) (8 - zlen p - 1)), (p ++ [b]), ret.
    split; [done|]. split; [|split; [done|now rewrite app_assoc]].
    assert (2 ^ (zlen p + 1) <= 2 ^ 7) by (apply Z.pow_le_mono_r; lia).
    split; [rewrite length_app; cbn [length]; unfold zlen in *; lia|].
    cbn [m_count m_byte]. split; [rewrite zlen_app; change (zlen [b]) with 1; lia|].
    rewrite Z.shiftl_mul_pow2, wrap_small by (unfold is_u; lia). lia.
Qed.

Lemma encode_bits_spec bs : forall e p ret,
  pending e p -> bytes_ok ret ->
  exists e' p' ret', fold_left encode_bit bs (e, ret) = (e', ret') /\ pending e' p' /\
    bytes_ok ret' /\ bits_of ret' ++ p' = bits_of ret ++ p ++ bs.
Proof.
  induction bs as [|b bs IH]; intros e p ret Hp Hret; cbn [fold_left].
  - exists e, p, ret. rewrite app_nil_r. auto.
  - destruct (encode_bit_spec e p ret b Hp Hret) as (e1 & p1 & r1 & -> & Hp1 & Hr1 & E1).
    destruct (IH e1 p1 r1 Hp1 Hr1) as (e2 & p2 & r2 & -> & Hp2 & Hr2 & E2).
    exists e2, p2, r2. split; [done|]. split; [done|]. split; [done|].
    rewrite E2, app_assoc, E1, <- !app_assoc. done.
Qed.

Lemma encode_bytes_spec src : forall e p ret,
  pending e p -> bytes_ok ret ->
  exists e' p' ret',
    fold_left (fun st b => fold_left encode_bit (code_of b) st) src (e, ret) = (e', ret') /\
    pending e' p' /\ bytes_ok ret' /\
    bits_of ret' ++ p' = bits_of ret ++ p ++ (src ≫= code_of).
Proof.
  induction src as [|b src IH]; intros e p ret Hp Hret; cbn [fold_left].
  - exists e, p, ret. cbn. rewrite app_nil_r. auto.
  - destruct (encode_bits_spec (code_of b) e p ret Hp Hret)
      as (e1 & p1 & r1 & -> & Hp1 & Hr1 & E1).
    destruct (IH e1 p1 r1 Hp1 Hr1) as (e2 & p2 & r2 & -> & Hp2 & Hr2 & E2).
    exists e2, p2, r2. split; [done|]. split; [done|]. split; [done|].
    rewrite E2, app_assoc, E1, <- !app_assoc. done.
Qed.

(** The padding of the last byte: the pending bits, then ones. *)
Lemma pad_byte p : (0 < length p < 8)%nat ->
  let byte := Z.lor (u8 (Z.shiftl (2 * bits_val p) (8 - zlen p - 1)))
                    (u8 (Z.shiftr 255 (8 - (8 - zlen p)))) in
  bits_of_byte byte = p ++ repeat true (8 - length p) /\ is_byte byte.
Proof.
  intros Hp.
  destruct p as [|b0 [|b1 [|b2 [|b3 [|b4 [|b5 [|b6 [|b7 p]]]]]]]];
    try (cbn [length] in Hp; exfalso; lia);
    destruct b0; try destruct b1; try destruct b2; try destruct b3;
    try destruct b4; try destruct b5; try destruct b6;
    (split; [reflexivity | vm_compute; split; congruence]).
Qed.

(** The output of the encoder, as bits: the codes of the input, padded with
    fewer than eight ones to a byte boundary; the encoder is left fresh. *)
Lemma huffman_encode_bits src :
  exists pad, (pad < 8)%nat /\
    bits_of (fst (huffman_encode new_encoder src)) = (src ≫= code_of) ++ repeat true pad /\
    bytes_ok (fst (huffman_encode new_encoder src)) /\
    snd (huffman_encode new_encoder src) = new_encoder.
Proof.
  unfold huffman_encode.
  destruct (encode_bytes_spec src new_encoder [] [] pending_nil (Forall_nil_2 _))
    as (e & p & ret & -> & (Hp & Hc & Hb) & Hret & E). cbn in E.
  rewrite Hc. destruct (decide (p = [])) as [->|Hne].
  - exists 0%nat. cbn. rewrite app_nil_r in *. split; [lia|]. split; [done|]. split; [done|].
    destruct e; cbn in *; subst. reflexivity.
  - assert (0 < length p)%nat by (destruct p; [done|cbn; lia]).
    rewrite (proj2 (Z.eqb_neq _ 8)), (proj2 (Z.eqb_neq _ 0)) by (unfold zlen; lia).
    cbn [negb andb fst snd]. rewrite Hb.
    destruct (pad_byte p) as [Hbits Hbyte]; [lia|].
    exists (8 - length p)%nat. split; [lia|]. split; [|split; [|done]].
    + unfold bits_of. rewrite bind_app, bind_singleton. rewrite Hbits, app_assoc.
      unfold bits_of in E. now rewrite E.
    + apply Forall_app; split; [done|]. now constructor.
Qed.

(** ** The decoder inverts it *)

Lemma foldlM_bits root l : forall st,
  foldlM (fun st b => foldlM (decode_step root) st (bits_of_byte b)) st l =
  foldlM (decode_step root) st (bits_of l).
Proof.
  induction l as [|b l IH]; intros st; [done|].
  unfold bits_of in *. cbn [foldlM]. rewrite bind_cons, foldlM_app.
  destruct (foldlM _ st (bits_of_byte b)); [apply IH|done].
Qed.

Lemma tree_decode_bits root src : zlen src <= 2 ^ 32 - 1 ->
  tree_decode root src = snd <$> foldlM (decode_step root) (root, []) (bits_of src).
Proof.
  intros H. unfold tree_decode. rewrite foldlM_bits.
  destruct (_ >? _) eqn:E; [apply Z.gtb_lt in E; lia|].
  now destruct (foldlM _ _ _) as [[]|].
Qed.

(** [leads n bits c]: the bits lead from [n] through inner nodes to a node
    whose code is [c]. *)
Fixpoint leads (n : huffman_node_t) (bits : list bool) (c : Z) : bool :=
  match bits, n with
  | b :: bits, Node l r _ =>
      match (if b then r else l) with
      | Null => false
      | Node _ _ k as n' =>
          match bits with [] => k =? c | _ => (k <? 0) && leads n' bits c end
      end
  | _, _ => false
  end.

Lemma leads_decode root bits : forall n dst c, 0 <= c < 256 -> leads n bits c = true ->
  foldlM (decode_step root) (n, dst) bits = Some (root, dst ++ [c]).
Proof.
  induction bits as [|b bits IH]; intros n dst c Hc H; [done|].
  destruct n as [|l r k]; [done|]. cbn [leads] in H. cbn [foldlM decode_step].
  destruct (if b then r else l) as [|l' r' k'] eqn:En; [done|].
  destruct bits as [|b' bits].
  - zbool. subst. assert ((c >=? 0) = true) as -> by lia.
    assert ((c =? 257) = false) as -> by lia. cbn [foldlM].
    change 255 with (Z.ones 8). rewrite Z.land_ones, Z.mod_small by lia.
    rewrite wrap_small by (unfold is_u; lia). done.
  - zbool. assert ((k' >=? 0) = false) as -> by lia. now apply IH.
Qed.

(** The table is not prefix-free: the code of 142 is a prefix of that of 9,
    the code of 168 one of that of 174, and the code of 249 one of those of 10,
    13, 22 and of the end of string. *)
Definition shadowed : bytes := [9; 10; 13; 22; 174].

Definition unshadowed (b : byte) : bool := negb (existsb (Z.eqb b) shadowed).

(** Every other byte's code leads from the root to that byte. *)
Lemma codes_lead b :
  is_byte b -> unshadowed b = true -> leads huffman_tree (code_of b) b = true.
Proof.
  intros H Hu. apply (forallb_seqZ
    (fun b => implb (unshadowed b) (leads huffman_tree (code_of b) b)) 256) in H.
  - rewrite Hu in H. exact H.
  - vm_compute. reflexivity.
Qed.

Lemma decode_codes src : forall dst, bytes_ok src -> forallb unshadowed src = true ->
  foldlM (decode_step huffman_tree) (huffman_tree, dst) (src ≫= code_of) =
  Some (huffman_tree, dst ++ src).
Proof.
  induction src as [|b src IH]; intros dst H Hu.
  - change ([] ≫= code_of) with (@nil bool). cbn [foldlM]. now rewrite app_nil_r.
  - inversion H as [|? ? Hb Hs]; subst. cbn [forallb] in Hu. zbool.
    rewrite bind_cons, foldlM_app.
    rewrite (leads_decode _ _ _ _ b) by (auto using codes_lead).
    rewrite IH, <- app_assoc by done. done.
Qed.

(** Up to seven ones emit nothing: no code is that short and all ones. *)
Lemma decode_padding pad dst : (pad < 8)%nat ->
  exists n, foldlM (decode_step huffman_tree) (huffman_tree, dst) (repeat true pad) =
            Some (n, dst).
Proof.
  intros H. do 8 (destruct pad as [|pad]; [eexists; vm_compute; reflexivity|]). lia.
Qed.

(** ** The tree is complete: no bit sequence is rejected *)

(** A node without a code has both children; one with a code ends the walk. *)
Fixpoint complete (n : huffman_node_t) : bool :=
  match n with
  | Null => false
  | Node l r c => if c <? 0 then complete l && complete r else c <=? 256
  end.

Lemma tree_complete : complete huffman_tree = true.
Proof. vm_compute. reflexivity. Qed.

Definition inner (n : huffman_node_t) : Prop := complete n = true /\ code n < 0.

Lemma decode_step_complete root st b :
  inner root -> inner (fst st) -> exists st', decode_step root st b = Some st' /\ inner (fst st').
Proof.
  intros Hroot [Hc Hneg]. destruct st as [[|l r k] dst]; [done|]. cbn [fst code] in *. cbn.
  assert (complete (if b then r else l) = true) as Hn.
  { cbn in Hc. rewrite (proj2 (Z.ltb_lt _ _) Hneg) in Hc. zbool. now destruct b. }
  destruct (if b then r else l) as [|l' r' k'] eqn:En; [done|].
  destruct (k' >=? 0) eqn:E; [eexists; split; [done|done]|].
  eexists; split; [done|]. split; [done|]. cbn. lia.
Qed.

Lemma decode_complete root bits : inner root -> forall st, inner (fst st) ->
  exists st', foldlM (decode_step root) st bits = Some st'.
Proof.
  intros Hroot. induction bits as [|b bits IH]; intros st Hst; cbn [foldlM]; [eauto|].
  destruct (decode_step_complete root st b Hroot Hst) as (st' & -> & Hst'). auto.
Qed.

(** ** Properties *)

(** C33: a string that goes through the Huffman encoder and then through the
    Huffman decoder comes back unchanged, provided it holds none of the five
    bytes whose code has another code as a prefix; and the encoder object is left
    in its initial state, so the next string is encoded independently. *)
Theorem huffman_roundtrip (src : bytes) :
  bytes_ok src -> forallb unshadowed src = true ->
  zlen (fst (huffman_encode new_encoder src)) <= 2 ^ 32 - 1 ->
  huffman_decode (fst (huffman_encode new_encoder src)) = Some src /\
  snd (huffman_encode new_encoder src) = new_encoder.
Proof.
  intros Hsrc Hu Hlen. destruct (huffman_encode_bits src) as (pad & Hpad & Hbits & _ & ->).
  split; [|done]. unfold huffman_decode. rewrite tree_decode_bits, Hbits by done.
  rewrite foldlM_app, decode_codes by done.
  destruct (decode_padding pad ([] ++ src) Hpad) as [n ->]. done.
Qed.

Lemma huffman_roundtrip_witness :
  huffman_decode (fst (huffman_encode new_encoder (str "www.example.com"))) =
    Some (str "www.example.com") /\
  snd (huffman_encode new_encoder (str "www.example.com")) = new_encoder.
Proof.
  apply (huffman_roundtrip (str "www.example.com")).
  - apply bytes_ok_bool. reflexivity.
  - reflexivity.
  - vm_compute. discriminate.
Defined.

(** The one-byte strings that survive the round trip are exactly those
    outside the five shadowed bytes: tab, line feed, carriage return, 22 and 174
    decode to something else. *)
Theorem huffman_shadowed_exact (b : byte) :
  is_byte b ->
  (huffman_decode (fst (huffman_encode new_encoder [b])) = Some [b] <->
   b <> 9 /\ b <> 10 /\ b <> 13 /\ b <> 22 /\ b <> 174).
Proof.
  intros H. apply (forallb_seqZ (fun b => eqb (bool_decide
    (huffman_decode (fst (huffman_encode new_encoder [b])) = Some [b])) (unshadowed b)) 256) in H.
  - apply eqb_prop in H.
    rewrite <- (bool_decide_eq_true (_ = _)), H. unfold unshadowed, shadowed. cbn [existsb].
    rewrite negb_true_iff, !orb_false_iff, !Z.eqb_neq. tauto.
  - vm_compute. reflexivity.
Qed.

Lemma huffman_shadowed_exact_witness :
  huffman_decode (fst (huffman_encode new_encoder [65])) = Some [65] <->
  65 <> 9 /\ 65 <> 10 /\ 65 <> 13 /\ 65 <> 22 /\ 65 <> 174.
Proof. apply (huffman_shadowed_exact 65). split; reflexivity || discriminate. Defined.

(** The decoder rejects no input of admissible length: its tree is
    complete, so the null-child error branches are unreachable, and the padding
    and the end-of-string code are accepted without a check. *)
Theorem huffman_decode_total (src : bytes) :
  (exists dst, huffman_decode src = Some dst) <-> zlen src <= 2 ^ 32 - 1.
Proof.
  split.
  - intros [dst H]. unfold huffman_decode, tree_decode in H.
    destruct (_ >? _) eqn:E; [done|]. destruct (Z.gtb_spec (zlen src) (2 ^ 32 - 1)); [done|lia].
  - intros H. unfold huffman_decode. rewrite tree_decode_bits by done.
    assert (inner huffman_tree) as Hi by (split; [apply tree_complete|vm_compute; reflexivity]).
    destruct (decode_complete huffman_tree (bits_of src) Hi (huffman_tree, []) Hi) as [st ->].
    eexists. reflexivity.
Qed.
