(* ===== verification/DynamicTable.v ===== *)
(** * The HPACK dynamic table

    Models [sese/net/http/DynamicTable.cpp] and the static table
    [PREDEFINED_HEADERS] of [HPACK.h]. *)

From S2P Require Import Prelude.

Definition entry : Type := bytes * bytes.

(*@ sese/net/http/HPACK.h 35-57 PREDEFINED_HEADERS *)
Definition PREDEFINED_HEADERS : list entry := map (fun e => (str (fst e), str (snd e)))
  [("INVALIDINDEX", "INVALIDINDEX"); (":authority", ""); (":method", "GET");
   (":method", "POST"); (":path", "/"); (":path", "/index.html");
   (":scheme", "http"); (":scheme", "https"); (":status", "200");
   (":status", "204"); (":status", "206"); (":status", "304");
   (":status", "400"); (":status", "404"); (":status", "500");
   ("accept-charset", ""); ("accept-encoding", "gzip, deflate"); ("accept-language", "");
   ("accept-ranges", ""); ("accept", ""); ("access-control-allow-origin", "");
   ("age", ""); ("allow", ""); ("authorization", "");
   ("cache-control", ""); ("content-disposition", ""); ("content-encoding", "");
   ("content-language", ""); ("content-length", ""); ("content-location", "");
   ("content-range", ""); ("content-type", ""); ("cookie", "");
   ("date", ""); ("etag", ""); ("expect", "");
   ("expires", ""); ("from", ""); ("host", "");
   ("if-match", ""); ("if-modified-since", ""); ("if-none-match", "");
   ("if-range", ""); ("if-unmodified-since", ""); ("last-modified", "");
   ("link", ""); ("location", ""); ("max-forwards", "");
   ("proxy-authenticate", ""); ("proxy-authorization", ""); ("range", "");
   ("referer", ""); ("refresh", ""); ("retry-after", "");
   ("server", ""); ("set-cookie", ""); ("strict-transport-security", "");
   ("transfer-encoding", ""); ("user-agent", ""); ("vary", "");
   ("via", ""); ("www-authenticate", "")]%string.

Module DynamicTable.

(*@ sese/net/http/DynamicTable.h 32-60 DynamicTable *)
(** [queue] from its front: the newest entry is at its back. *)
Record t := Make { max : Z; size : Z; queue : list entry }.

(*@ sese/net/http/DynamicTable.cpp 22-24 DynamicTable::DynamicTable *)
Definition create (max : Z) : t := Make max 0 [].

(*@ sese/net/http/DynamicTable.h 44-44 DynamicTable::getCount *)
Definition getCount (s : t) : Z := zlen (queue s).

(*@ sese/net/http/DynamicTable.cpp 41-41 DynamicTable::set *)
Definition entry_size (e : entry) : Z := u64 (zlen (fst e) + zlen (snd e) + 4).

(*@ sese/net/http/DynamicTable.cpp 46-50 DynamicTable::set *)
(** The eviction loop: while the size and the addition exceed the maximum,
    subtract the size of the entry at the back and remove the entry at the front.
    The back of an empty queue does not exist. *)
Fixpoint evict (q : list entry) (size addition max : Z) : outcome (list entry * Z) :=
  if max <? u64 (size + addition) then
    match last q, q with
    | Some header, _ :: q => evict q (u64 (size - entry_size header)) addition max
    | _, _ => Undef
    end
  else Val (q, size).

(*@ sese/net/http/DynamicTable.cpp 26-33 DynamicTable::resize *)
Definition resize (s : t) (max : Z) : outcome t :=
  '(q, size) ← evict (queue s) (size s) 0 max; Val (Make max size q).

(*@ sese/net/http/DynamicTable.cpp 36-55 DynamicTable::set *)
Definition set (s : t) (key value : bytes) : outcome (bool * t) :=
  if 2 ^ 64 - 1 - zlen value <? zlen key then Val (false, s)
  else
    let addition := entry_size (key, value) in
    if max s <? addition then Val (false, s)
    else
      '(q, size) ← evict (queue s) (size s) addition (max s);
      Val (true, Make (max s) (u64 (size + addition)) (q ++ [(key, value)])).

(*@ sese/net/http/DynamicTable.cpp 57-71 DynamicTable::get *)
Definition get (s : t) (index : Z) : option entry :=
  if index =? 0 then None
  else if index <? zlen PREDEFINED_HEADERS then PREDEFINED_HEADERS !! Z.to_nat index
  else if index <? zlen PREDEFINED_HEADERS + zlen (queue s) then
    queue s !! Z.to_nat (zlen (queue s) - 1 - (index - zlen PREDEFINED_HEADERS))
  else None.

(** ** Sizes *)

(** The size the table accounts for, as it should be. *)
Definition total (q : list entry) : Z := foldr (fun e a => entry_size e + a) 0 q.

Lemma entry_size_range e : 0 <= entry_size e < 2 ^ 64.
Proof. apply wrap_range. lia. Qed.

Lemma total_app q r : total (q ++ r) = total q + total r.
Proof. unfold total. induction q as [|e q IH]; cbn in *; lia. Qed.

Lemma total_cons e q : total (e :: q) = entry_size e + total q.
Proof. reflexivity. Qed.

Lemma total_nonneg q : 0 <= total q.
Proof. induction q as [|e q IH]; cbn; [lia|]. pose proof (entry_size_range e). unfold total in IH. lia. Qed.

(** The invariant of a table whose accounting is right. *)
Definition valid (s : t) : Prop :=
  0 <= max s < 2 ^ 63 /\ size s = total (queue s) /\ size s <= max s.

Lemma evict_fits q size addition max : 0 <= max < 2 ^ 63 -> 0 <= size <= max ->
  0 <= addition <= max -> size + addition <= max -> evict q size addition max = Val (q, size).
Proof.
  intros. unfold evict. destruct q; rewrite wrap_small by (unfold is_u; lia);
    by rewrite (proj2 (Z.ltb_ge _ _)) by lia.
Qed.

(** A field that fits is added without eviction. *)
Lemma set_fits s k v : valid s -> size s + entry_size (k, v) <= max s ->
  zlen k + zlen v + 4 < 2 ^ 64 ->
  exists s', set s k v = Val (true, s') /\ queue s' = queue s ++ [(k, v)] /\ max s' = max s /\ valid s'.
Proof.
  intros (Hm & Hs & Hle) Hfit Hkv. unfold set.
  pose proof (zlen_nonneg k). pose proof (zlen_nonneg v). pose proof (total_nonneg (queue s)).
  pose proof (entry_size_range (k, v)).
  rewrite (proj2 (Z.ltb_ge _ (zlen k))) by lia.
  rewrite (proj2 (Z.ltb_ge _ (entry_size (k, v)))) by lia.
  rewrite evict_fits by lia. rewrite bind_Val. eexists. split; [reflexivity|].
  split; [done|]. split; [done|]. rewrite wrap_small by (unfold is_u; lia).
  split; [done|]. cbn. rewrite total_app. cbn. lia.
Qed.

(** Tables whose entries all have one size account for them exactly. *)
Lemma evict_uniform e addition max q : 0 <= max < 2 ^ 63 -> 0 <= addition <= max -> 0 < e ->
  Forall (fun x => entry_size x = e) q -> total q <= max ->
  exists q' r, q = r ++ q' /\ evict q (total q) addition max = Val (q', total q') /\
    total q' + addition <= max.
Proof.
  intros Hm Ha He. induction q as [|x q IH]; intros HF Hle.
  - exists [], []. split; [done|]. split; [|cbn; lia]. apply evict_fits; cbn; lia.
  - pose proof (total_nonneg (x :: q)). cbn [evict]. rewrite wrap_small by (unfold is_u; lia).
    destruct (_ <? _) eqn:E; zbool.
    + destruct (last (x :: q)) as [z|] eqn:El; [|by apply last_None in El].
      assert (entry_size z = e) as Hz.
      { apply last_Some in El as [l' El]. rewrite El in HF. apply Forall_app in HF as [_ HF].
        by inversion HF. }
      inversion HF as [|x' q' Hx HFq]; subst x' q'. rewrite Hz, <- Hx.
      assert (u64 (total (x :: q) - entry_size x) = total q) as ->.
      { rewrite total_cons in *. pose proof (total_nonneg q). pose proof (entry_size_range x).
        rewrite wrap_small by (unfold is_u; lia). lia. }
      rewrite total_cons in Hle. pose proof (entry_size_range x).
      destruct IH as (q' & r & Hq & Hev & Hfit); [done|lia|].
      exists q', (x :: r). rewrite Hq at 1. done.
    + exists (x :: q), []. done.
Qed.

(** ** Properties *)

(** A field that fits into the table is found at index 62, every older
    field moves up by one index, and the static table is untouched. *)
Theorem dynamic_table_set_get (s : t) (k v : bytes) :
  valid s -> size s + entry_size (k, v) <= max s -> zlen k + zlen v + 4 < 2 ^ 64 ->
  exists s', set s k v = Val (true, s') /\ valid s' /\
    get s' 62 = Some (k, v) /\
    (forall i, 62 <= i -> get s' (i + 1) = get s i) /\
    (forall i, i < 62 -> get s' i = get s i).
Proof.
  intros Hv Hfit Hkv. destruct (set_fits s k v Hv Hfit Hkv) as (s' & E & Hq & _ & Hv').
  exists s'. split; [done|]. split; [done|]. unfold get. rewrite Hq, zlen_app.
  change (zlen PREDEFINED_HEADERS) with 62. change (zlen [(k, v)]) with 1.
  pose proof (zlen_nonneg (queue s)). split; [|split].
  - rewrite (proj2 (Z.eqb_neq _ _)), (proj2 (Z.ltb_ge 62 62)), (proj2 (Z.ltb_lt 62 _)) by lia.
    rewrite lookup_app_r by (unfold zlen; lia).
    replace (Z.to_nat _ - length (queue s))%nat with 0%nat by (unfold zlen; lia). done.
  - intros i Hi. rewrite (proj2 (Z.eqb_neq _ _)), (proj2 (Z.eqb_neq i 0)) by lia.
    rewrite (proj2 (Z.ltb_ge (i + 1) 62)), (proj2 (Z.ltb_ge i 62)) by lia.
    destruct (i <? 62 + zlen (queue s)) eqn:E1; zbool.
    + rewrite (proj2 (Z.ltb_lt _ _)) by lia.
      rewrite lookup_app_l by (unfold zlen in *; lia). f_equal. lia.
    + by rewrite (proj2 (Z.ltb_ge _ _)) by lia.
  - intros i Hi. destruct (i =? 0); [done|]. by rewrite (proj2 (Z.ltb_lt _ _)) by lia.
Qed.

Lemma dynamic_table_set_get_witness :
  exists s', set (create 4096) (str "x-token") (str "1") = Val (true, s') /\ valid s' /\
    get s' 62 = Some (str "x-token", str "1") /\
    (forall i, 62 <= i -> get s' (i + 1) = get (create 4096) i) /\
    (forall i, i < 62 -> get s' i = get (create 4096) i).
Proof.
  apply (dynamic_table_set_get (create 4096) (str "x-token") (str "1")).
  - split; [cbn; lia|]. cbn. lia.
  - vm_compute. discriminate.
  - reflexivity.
Defined.

(** With entries of one size the eviction loop is right: it drops the
    oldest entries until the new one fits, never empties the queue by accident, and
    the accounted size stays the sum of the entries and below the maximum. *)
Theorem dynamic_table_uniform (s : t) (k v : bytes) (e : Z) :
  valid s -> Forall (fun x => entry_size x = e) ((k, v) :: queue s) -> 0 < e <= max s ->
  zlen k + zlen v + 4 < 2 ^ 64 ->
  exists s' kept dropped, set s k v = Val (true, s') /\ valid s' /\
    queue s = dropped ++ kept /\ queue s' = kept ++ [(k, v)].
Proof.
  intros (Hm & Hs & Hle) HF He Hkv. inversion HF as [|? ? Hx HFq]; subst x l.
  pose proof (zlen_nonneg k). pose proof (zlen_nonneg v).
  unfold set. rewrite (proj2 (Z.ltb_ge _ (zlen k))) by lia.
  rewrite Hx, (proj2 (Z.ltb_ge _ e)), Hs by lia.
  destruct (evict_uniform e e (max s) (queue s)) as (q' & r & Hq & Hev & Hfit); try lia; [done|].
  rewrite Hev, bind_Val. pose proof (total_nonneg q').
  eexists _, q', r. split; [reflexivity|]. split; [|done].
  rewrite wrap_small by (unfold is_u; lia). split; [done|]. cbn. rewrite total_app. cbn. lia.
Qed.

Lemma dynamic_table_uniform_witness :
  exists s' kept dropped,
    set (Make 12 12 [([1], [2]); ([3], [4])]) [5] [6] = Val (true, s') /\ valid s' /\
    queue (Make 12 12 [([1], [2]); ([3], [4])]) = dropped ++ kept /\ queue s' = kept ++ [([5], [6])].
Proof.
  apply (dynamic_table_uniform (Make 12 12 [([1], [2]); ([3], [4])]) [5] [6] 6).
  - split; [cbn; lia|]. split; [reflexivity|vm_compute; discriminate].
  - repeat constructor.
  - cbn. lia.
  - reflexivity.
Defined.

(** With entries of different sizes it is not: the loop subtracts the
    newest entry's size while removing the oldest one, so four ordinary additions
    to a fresh table of 100 bytes make it ask an empty queue for its last entry. *)
Theorem dynamic_table_underflow :
  exists s1 s2 s3,
    set (create 100) (repeat 97 80) (repeat 98 6) = Val (true, s1) /\
    set s1 (repeat 97 3) (repeat 98 3) = Val (true, s2) /\
    set s2 (repeat 97 8) (repeat 98 8) = Val (true, s3) /\
    size s3 <> total (queue s3) /\
    set s3 (repeat 97 20) (repeat 98 6) = Undef.
Proof.
  do 3 eexists. split; [vm_compute; reflexivity|]. split; [vm_compute; reflexivity|].
  split; [vm_compute; reflexivity|]. split; [vm_compute; discriminate|vm_compute; reflexivity].
Qed.

End DynamicTable.
