(* ===== verification/Words.v ===== *)
(** * Words, blocks and the reference construction of the digests

    What [SHA1.v], [MD5.v] and [SHA256.v] share: rotations of 32-bit words, words
    from bytes in both orders, and the construction all three algorithms promise to
    follow: pad the message to whole blocks of 64 bytes, then compress block after
    block. The host is little-endian, like [SESE_LITTLE_ENDIAN] in [Endian.h]. *)

From S2P Require Import Prelude Streams.

(** ** Words *)

(** Rotation to the left, as the code spells it. *)
Definition rol (value bits : Z) : Z :=
  Z.lor (u32 (Z.shiftl value bits)) (Z.shiftr value (32 - bits)).

(** The complement of a 32-bit word. *)
Definition not32 (x : Z) : Z := Z.lxor x (2 ^ 32 - 1).

(** A word from four bytes, most significant first. *)
Definition be32 (b0 b1 b2 b3 : byte) : Z := b0 * 2 ^ 24 + b1 * 2 ^ 16 + b2 * 2 ^ 8 + b3.
Definition le32 (b0 b1 b2 b3 : byte) : Z := be32 b3 b2 b1 b0.

(** The bytes of a word of [n] bytes, least significant first. *)
Fixpoint le_bytes (n : nat) (x : Z) : bytes :=
  match n with O => [] | S n => x mod 256 :: le_bytes n (x / 256) end.
Definition be_bytes (n : nat) (x : Z) : bytes := rev (le_bytes n x).

Lemma be_bytes_4 x : be_bytes 4 x = [x / 256 / 256 / 256 mod 256; x / 256 / 256 mod 256; x / 256 mod 256; x mod 256].
Proof. reflexivity. Qed.

(** The word made of the bytes of a word. *)
Lemma be32_bytes x : is_u 32 x ->
  be32 (x / 256 / 256 / 256 mod 256) (x / 256 / 256 mod 256) (x / 256 mod 256) (x mod 256) = x.
Proof.
  unfold is_u, be32. intros. rewrite (Z.mod_small (x / 256 / 256 / 256)) by dlia.
  pose proof (Z.div_mod x 256). pose proof (Z.div_mod (x / 256) 256). pose proof (Z.div_mod (x / 256 / 256) 256). lia.
Qed.

Lemma le_bytes_length n : forall x, length (le_bytes n x) = n.
Proof. induction n as [|n IH]; intros x; cbn; [done|by rewrite IH]. Qed.

Lemma le_bytes_ok n : forall x, bytes_ok (le_bytes n x).
Proof.
  induction n as [|n IH]; intros x; constructor; [|apply IH].
  unfold is_u. change (2 ^ 8) with 256. apply Z.mod_pos_bound. lia.
Qed.

Lemma be_bytes_length n x : length (be_bytes n x) = n.
Proof. unfold be_bytes. by rewrite length_rev, le_bytes_length. Qed.

Lemma be_bytes_ok n x : bytes_ok (be_bytes n x).
Proof. apply Forall_rev, le_bytes_ok. Qed.

Lemma be_words_length l : length (l ≫= be_bytes 4) = (4 * length l)%nat.
Proof.
  induction l as [|x l IH]; [done|]. rewrite bind_cons, length_app, be_bytes_length, IH. cbn. lia.
Qed.

Lemma le_words_length l : length (l ≫= le_bytes 4) = (4 * length l)%nat.
Proof.
  induction l as [|x l IH]; [done|]. rewrite bind_cons, length_app, le_bytes_length, IH. cbn. lia.
Qed.

(** The words of a block. *)
Fixpoint words (word : byte -> byte -> byte -> byte -> Z) (l : bytes) : list Z :=
  match l with
  | b0 :: b1 :: b2 :: b3 :: l => word b0 b1 b2 b3 :: words word l
  | _ => []
  end.

Lemma words_length word n : forall l, length l = (4 * n)%nat -> length (words word l) = n.
Proof.
  induction n as [|n IH]; intros l Hl; [by destruct l|].
  do 4 (destruct l as [|? l]; [cbn in Hl; lia|]). cbn in *. rewrite IH; [done|]. lia.
Qed.

Lemma is_u_bits w x : 0 <= w -> is_u w x -> forall i, w <= i -> Z.testbit x i = false.
Proof.
  intros Hw Hx i Hi. rewrite <- (Z.mod_small x (2 ^ w)) by exact Hx. apply Z.mod_pow2_bits_high. lia.
Qed.

(** A number is a word as soon as its high bits are zero. *)
Lemma bits_is_u w x : 0 <= w -> 0 <= x -> (forall i, w <= i -> Z.testbit x i = false) -> is_u w x.
Proof.
  intros Hw Hx Hb. enough (x mod 2 ^ w = x) as <- by (apply Z.mod_pos_bound; lia).
  apply Z.bits_inj'. intros i Hi. destruct (Z.lt_ge_cases i w).
  - by rewrite Z.mod_pow2_bits_low by lia.
  - by rewrite Z.mod_pow2_bits_high, Hb by lia.
Qed.

(** Disjoint bits: [lor] adds. *)
Lemma lor_add x y k : 0 <= k -> 0 <= x < 2 ^ k -> Z.lor x (y * 2 ^ k) = x + y * 2 ^ k.
Proof.
  intros Hk Hx. rewrite <- Z.lxor_lor, Z.add_nocarry_lxor; [done|..];
    apply Z.bits_inj'; intros i Hi; rewrite Z.land_spec, Z.bits_0;
    (destruct (Z.lt_ge_cases i k);
     [rewrite (Z.mul_pow2_bits_low y k i), andb_false_r by lia; done|
      rewrite (is_u_bits k x) by (done || lia); done]).
Qed.

(** The bits of a number put above [k] low bits. *)
Lemma bit_join x y k i : 0 <= k -> 0 <= x < 2 ^ k -> 0 <= i ->
  Z.testbit (x + y * 2 ^ k) i = if i <? k then Z.testbit x i else Z.testbit y (i - k).
Proof.
  intros Hk Hx Hi. rewrite <- lor_add, Z.lor_spec by done. destruct (i <? k) eqn:E; zbool.
  - by rewrite Z.mul_pow2_bits_low, orb_false_r by lia.
  - by rewrite (is_u_bits k x), Z.mul_pow2_bits by (exact Hx || lia).
Qed.

Lemma be32_range b0 b1 b2 b3 : is_byte b0 -> is_byte b1 -> is_byte b2 -> is_byte b3 ->
  is_u 32 (be32 b0 b1 b2 b3).
Proof. unfold is_u, be32. lia. Qed.

Lemma be32_bit b0 b1 b2 b3 i : is_byte b0 -> is_byte b1 -> is_byte b2 -> is_byte b3 -> 0 <= i ->
  Z.testbit (be32 b0 b1 b2 b3) i =
  if i <? 8 then Z.testbit b3 i else if i <? 16 then Z.testbit b2 (i - 8)
  else if i <? 24 then Z.testbit b1 (i - 16) else Z.testbit b0 (i - 24).
Proof.
  unfold is_u. intros H0 H1 H2 H3 Hi.
  replace (be32 b0 b1 b2 b3) with (b3 + (b2 + (b1 + b0 * 2 ^ 8) * 2 ^ 8) * 2 ^ 8) by (unfold be32; lia).
  rewrite bit_join by lia. destruct (i <? 8) eqn:E1; [done|]. zbool. rewrite bit_join by lia.
  destruct (i - 8 <? 8) eqn:E2, (i <? 16) eqn:E3; zbool; try lia; [done|]. rewrite bit_join by lia.
  destruct (i - 8 - 8 <? 8) eqn:E4, (i <? 24) eqn:E5; zbool; try lia; f_equal; lia.
Qed.

(** A bitwise operation on words works byte by byte. *)
Lemma be32_bitwise (f : Z -> Z -> Z) (g : bool -> bool -> bool) :
  (forall x y i, 0 <= i -> Z.testbit (f x y) i = g (Z.testbit x i) (Z.testbit y i)) ->
  (forall x y, is_byte x -> is_byte y -> is_byte (f x y)) ->
  forall b0 b1 b2 b3 c0 c1 c2 c3,
  is_byte b0 -> is_byte b1 -> is_byte b2 -> is_byte b3 ->
  is_byte c0 -> is_byte c1 -> is_byte c2 -> is_byte c3 ->
  be32 (f b0 c0) (f b1 c1) (f b2 c2) (f b3 c3) = f (be32 b0 b1 b2 b3) (be32 c0 c1 c2 c3).
Proof.
  intros Hf Hok b0 b1 b2 b3 c0 c1 c2 c3 H0 H1 H2 H3 G0 G1 G2 G3.
  apply Z.bits_inj'. intros i Hi. rewrite Hf, !be32_bit by auto.
  destruct (i <? 8) eqn:E1, (i <? 16) eqn:E2, (i <? 24) eqn:E3; zbool; rewrite Hf by lia; done.
Qed.

(** Bitwise operations on bytes give bytes. *)
Lemma byte_op (f : Z -> Z -> Z) (g : bool -> bool -> bool) :
  (forall x y i, 0 <= i -> Z.testbit (f x y) i = g (Z.testbit x i) (Z.testbit y i)) ->
  (forall x y, 0 <= x -> 0 <= y -> 0 <= f x y) -> g false false = false ->
  forall x y, is_byte x -> is_byte y -> is_byte (f x y).
Proof.
  intros Hf Hpos Hg x y Hx Hy. apply bits_is_u; [lia|apply Hpos; [apply Hx|apply Hy]|].
  intros i Hi. by rewrite Hf, (is_u_bits 8 x), (is_u_bits 8 y) by (done || lia).
Qed.

Lemma byte_land x y : is_byte x -> is_byte y -> is_byte (Z.land x y).
Proof.
  apply (byte_op Z.land andb); [intros; apply Z.land_spec| |done].
  intros a b Ha Hb. apply Z.land_nonneg. by left.
Qed.

Lemma byte_lxor x y : is_byte x -> is_byte y -> is_byte (Z.lxor x y).
Proof.
  apply (byte_op Z.lxor xorb); [intros; apply Z.lxor_spec| |done].
  intros a b Ha Hb. apply Z.lxor_nonneg. tauto.
Qed.

Lemma lor_be32 b0 b1 b2 b3 : is_byte b0 -> is_byte b1 -> is_byte b2 -> is_byte b3 ->
  Z.lor (Z.lor (Z.lor (Z.land b3 255) (Z.shiftl (Z.land b2 255) 8))
               (Z.shiftl (Z.land b1 255) 16)) (Z.shiftl (Z.land b0 255) 24) = be32 b0 b1 b2 b3.
Proof.
  unfold is_u. intros H0 H1 H2 H3. change 255 with (Z.ones 8). rewrite !Z.land_ones by lia.
  rewrite !Z.mod_small, !Z.shiftl_mul_pow2 by lia.
  rewrite (lor_add b3), (lor_add (b3 + _)), (lor_add (b3 + _ + _)) by lia. unfold be32. lia.
Qed.

Lemma words_ext f g l : (forall b0 b1 b2 b3, is_byte b0 -> is_byte b1 -> is_byte b2 -> is_byte b3 ->
    f b0 b1 b2 b3 = g b0 b1 b2 b3) -> bytes_ok l -> words f l = words g l.
Proof.
  intros Hfg. remember (length l) as n eqn:En. assert (length l <= n)%nat as Hn by lia. clear En.
  revert l Hn. induction n as [|n IH]; intros l Hn Hl; [destruct l; [done|cbn in Hn; lia]|].
  destruct l as [|b0 [|b1 [|b2 [|b3 l]]]]; try done. cbn in *.
  unfold bytes_ok in Hl. rewrite !Forall_cons in Hl. destruct Hl as (? & ? & ? & ? & ?).
  rewrite Hfg, IH by (done || lia). done.
Qed.

(** ** The construction *)

Section Construction.
Context {State : Type} (compress : State -> bytes -> State) (len8 : Z -> bytes).

(** [n] blocks of the input, from its beginning. *)
Fixpoint absorb (n : nat) (h : State) (l : bytes) : State :=
  match n with
  | O => h
  | S n => absorb n (compress h (take 64 l)) (drop 64 l)
  end.

(** A one bit, as few zeros as reach the last eight bytes of a block, and the
    length in bits. *)
Definition padding (n : Z) : bytes :=
  128 :: repeat 0 (Z.to_nat ((55 - n) mod 64)) ++ len8 (8 * n).

(** The state after the whole padded message. *)
Definition digest (iv : State) (msg : bytes) : State :=
  let l := msg ++ padding (zlen msg) in absorb (length l / 64) iv l.

Lemma absorb_block n h b l : length b = 64%nat ->
  absorb (S n) h (b ++ l) = absorb n (compress h b) l.
Proof.
  intros Hb. cbn [absorb]. by rewrite take_app_length', drop_app_length'.
Qed.

(** The state after the whole blocks [bs] of a message. *)
Lemma absorb_blocks bs : forall n h l, Forall (fun b => length b = 64%nat) bs ->
  absorb (length bs + n) h (concat bs ++ l) = absorb n (fold_left compress bs h) l.
Proof.
  induction bs as [|b bs IH]; intros n h l Hb; [done|]. inversion Hb; subst.
  cbn [length concat plus fold_left]. rewrite <- app_assoc, absorb_block by done. auto.
Qed.

Context (len8_length : forall n, length (len8 n) = 8%nat).

(** The last block or blocks, from the tail of the message. *)
Definition last_blocks (n : Z) (tail : bytes) : list bytes :=
  if zlen tail <=? 55 then
    [tail ++ [128] ++ repeat 0 (55 - length tail) ++ len8 (8 * n)]
  else
    [tail ++ [128] ++ repeat 0 (63 - length tail); repeat 0 56 ++ len8 (8 * n)].

Lemma last_blocks_spec bs tail : Forall (fun b => length b = 64%nat) bs -> (length tail < 64)%nat ->
  forall iv, digest iv (concat bs ++ tail) =
  fold_left compress (last_blocks (zlen (concat bs ++ tail)) tail) (fold_left compress bs iv).
Proof.
  intros Hbs Ht iv. set (n := zlen (concat bs ++ tail)).
  assert (Hcat : length (concat bs) = (64 * length bs)%nat).
  { clear - Hbs. induction Hbs as [|b bs Hb _ IH]; [done|]. cbn [concat length]. rewrite length_app. lia. }
  assert (n = 64 * Z.of_nat (length bs) + zlen tail) as Hn
    by (unfold n, zlen; rewrite length_app, Hcat; lia).
  assert (Hpad : tail ++ padding n = concat (last_blocks n tail)).
  { unfold padding, last_blocks. rewrite Hn.
    replace ((55 - (64 * Z.of_nat (length bs) + zlen tail)) mod 64) with ((55 - zlen tail) mod 64)
      by (rewrite <- (Z.mod_add (55 - zlen tail) (- Z.of_nat (length bs)) 64) by lia; f_equal; lia).
    unfold zlen at 1 3. destruct (Z.of_nat (length tail) <=? 55) eqn:E; zbool; cbn [concat].
    - rewrite Z.mod_small, app_nil_r by lia. do 3 f_equal. f_equal. lia.
    - replace ((55 - Z.of_nat (length tail)) mod 64) with (119 - Z.of_nat (length tail))
        by (apply (Z.mod_unique _ _ (-1)); lia).
      replace (Z.to_nat (119 - Z.of_nat (length tail))) with ((63 - length tail) + 56)%nat by lia.
      rewrite repeat_app, app_nil_r, <- !app_assoc. done. }
  assert (Hlast : Forall (fun b => length b = 64%nat) (last_blocks n tail)).
  { unfold last_blocks, zlen. destruct (_ <=? 55) eqn:E; zbool; repeat constructor;
      rewrite !length_app, ?len8_length, !repeat_length; cbn [length]; lia. }
  unfold digest. fold n. rewrite <- app_assoc, Hpad.
  assert (Hall : concat bs ++ concat (last_blocks n tail) = concat (bs ++ last_blocks n tail) ++ [])
    by (by rewrite concat_app, app_nil_r).
  assert (Hlen : (length (concat bs ++ concat (last_blocks n tail)) / 64)%nat =
    (length (bs ++ last_blocks n tail) + 0)%nat).
  { assert (Hc : forall l : list bytes, Forall (fun b => length b = 64%nat) l ->
      length (concat l) = (length l * 64)%nat).
    { induction 1 as [|b l Hb _ IH]; [done|]. cbn [concat length]. rewrite length_app, IH, Hb. lia. }
    rewrite <- concat_app, Hc by (apply Forall_app; done). rewrite Nat.div_mul by lia. lia. }
  rewrite Hlen, Hall, absorb_blocks by (apply Forall_app; done). by rewrite fold_left_app.
Qed.
End Construction.

(** Cutting a message into whole blocks and a tail. *)
Lemma cut_blocks (c : bytes) : exists bs tail, c = concat bs ++ tail /\
  Forall (fun b => length b = 64%nat) bs /\ (length tail < 64)%nat.
Proof.
  remember (length c) as n eqn:En. revert c En.
  induction n as [n IH] using lt_wf_ind. intros c ->.
  destruct (decide (length c < 64)%nat) as [|Hge]; [by exists [], c|].
  destruct (IH (length (drop 64 c))) with (c := drop 64 c) as (bs & tail & E & Hb & Ht); [|done|].
  { rewrite length_drop. lia. }
  exists (take 64 c :: bs), tail. split; [|split; [|done]].
  - cbn [concat]. by rewrite <- app_assoc, <- E, take_drop.
  - constructor; [rewrite length_take; lia|done].
Qed.

(** Whole blocks. *)
Lemma concat_length (bs : list bytes) : Forall (fun b => length b = 64%nat) bs ->
  length (concat bs) = (64 * length bs)%nat.
Proof.
  induction 1 as [|b bs Hb _ IH]; [done|]. cbn [concat length]. rewrite length_app, IH, Hb. lia.
Qed.

(** The count of bytes, block after block. *)
Lemma total_blocks (bs : list bytes) : forall n, u64 n = n ->
  fold_left (fun a b => u64 (a + 64)) bs n = u64 (n + 64 * Z.of_nat (length bs)).
Proof.
  induction bs as [|b bs IH]; intros n Hn; cbn [fold_left length]; [by rewrite Z.add_0_r|].
  rewrite IH by (apply wrap_wrap; lia). unfold wrap. rewrite Zplus_mod_idemp_l. f_equal. lia.
Qed.

(** Reading a block from the stream into the buffer. *)
Lemma read_block {S : Type} `{MemInput S} (s : S) b rest buffer :
  in_valid s -> in_content s = b ++ rest -> length b = 64%nat -> length buffer = 64%nat ->
  exists s', stream_read s 64 = Val (64, b, s') /\ in_valid s' /\ in_content s' = rest /\
    memcpy buffer 0 b = Val b.
Proof.
  intros Hv Hc Hb Hbuf. destruct (read_prefix s b rest Hv Hc) as (s' & E & Hv' & Hc').
  replace (zlen b) with 64 in E by (unfold zlen; lia). exists s'. split; [done|]. split; [done|]. split; [done|].
  rewrite (memcpy_at [] buffer) by (done || unfold zlen; lia).
  rewrite zdrop_ge, app_nil_r by (unfold zlen; lia). done.
Qed.

(** Reading the tail of the stream into the buffer. *)
Lemma read_tail {S : Type} `{MemInput S} (s : S) tail buffer :
  in_valid s -> in_content s = tail -> (length tail < 64)%nat -> length buffer = 64%nat ->
  exists s' r, stream_read s 64 = Val (zlen tail, tail, s') /\ in_content s' = [] /\
    memcpy buffer 0 tail = Val (tail ++ r) /\ length (tail ++ r) = 64%nat.
Proof.
  intros Hv Hc Ht Hbuf. destruct (read_law s 64 Hv ltac:(lia)) as (s' & E & Hv' & Hc').
  rewrite Hc, Z.min_r, ztake_ge in E by (unfold zlen; lia). rewrite Hc, zdrop_ge in Hc' by (unfold zlen; lia).
  exists s', (zdrop (zlen tail) buffer). split; [done|]. split; [done|].
  rewrite (memcpy_at [] buffer) by (done || unfold zlen; lia). split; [done|].
  rewrite length_app. unfold zdrop, zlen. rewrite length_drop. lia.
Qed.

(** ** Hexadecimal output *)

(*@ sese/util/SHA256Util.cpp 217-227 toChar *)
Definition toChar (ch : byte) (is_cap : bool) : byte :=
  if (0 <=? ch) && (ch <=? 9) then ch + 48 else if is_cap then ch + 55 else ch + 87.

(** Two characters for every byte. *)
Definition hex (is_cap : bool) (l : bytes) : bytes :=
  l ≫= (fun b => [toChar (b / 16) is_cap; toChar (b mod 16) is_cap]).
