(* ===== verification/Endian.v ===== *)
(** * Byte order

    Models [sese/util/Endian.h] on a little-endian host: the conversions to and from
    network order swap the bytes of a word, the others do nothing. *)

From S2P Require Import Prelude Words.

(*@ sese/util/Endian.h 31-31 ByteSwap16 *)
Definition ByteSwap16 (i16 : Z) : Z := Z.lor (Z.shiftl (Z.land i16 0x00FF) 8) (Z.shiftr (Z.land i16 0xFF00) 8).
(*@ sese/util/Endian.h 32-32 ByteSwap32 *)
Definition ByteSwap32 (i32 : Z) : Z :=
  Z.lor (Z.lor (Z.lor (Z.shiftl (Z.land i32 0x000000FF) 24) (Z.shiftl (Z.land i32 0x0000FF00) 8)) (Z.shiftr (Z.land i32 0x00FF0000) 8))
    (Z.shiftr (Z.land i32 0xFF000000) 24).
(*@ sese/util/Endian.h 33-41 ByteSwap64 *)
Definition ByteSwap64 (i64 : Z) : Z :=
  Z.lor (Z.lor (Z.lor (Z.lor (Z.lor (Z.lor (Z.lor
    (Z.shiftl (Z.land i64 0x00000000000000FF) 56) (Z.shiftl (Z.land i64 0x000000000000FF00) 40))
    (Z.shiftl (Z.land i64 0x0000000000FF0000) 24)) (Z.shiftl (Z.land i64 0x00000000FF000000) 8))
    (Z.shiftr (Z.land i64 0x000000FF00000000) 8)) (Z.shiftr (Z.land i64 0x0000FF0000000000) 24))
    (Z.shiftr (Z.land i64 0x00FF000000000000) 40)) (Z.shiftr (Z.land i64 0xFF00000000000000) 56).

(** The templates at the unsigned types of the width in their names. *)

(*@ sese/util/Endian.h 48-51 ToBigEndian16 *)
Definition ToBigEndian16 (t : Z) : Z := u16 (ByteSwap16 t).
(*@ sese/util/Endian.h 53-56 ToBigEndian32 *)
Definition ToBigEndian32 (t : Z) : Z := u32 (ByteSwap32 t).
(*@ sese/util/Endian.h 58-61 ToBigEndian64 *)
Definition ToBigEndian64 (t : Z) : Z := u64 (ByteSwap64 t).
(*@ sese/util/Endian.h 78-81 FromBigEndian16 *)
Definition FromBigEndian16 (t : Z) : Z := u16 (ByteSwap16 t).
(*@ sese/util/Endian.h 83-86 FromBigEndian32 *)
Definition FromBigEndian32 (t : Z) : Z := u32 (ByteSwap32 t).
(*@ sese/util/Endian.h 88-91 FromBigEndian64 *)
Definition FromBigEndian64 (t : Z) : Z := u64 (ByteSwap64 t).

(** The word that is stored in some bytes. *)
Fixpoint le_val (l : bytes) : Z := match l with [] => 0 | b :: l => b + 256 * le_val l end.
Definition be_val (l : bytes) : Z := le_val (rev l).

Lemma le_val_bytes n : forall x, 0 <= x < 256 ^ Z.of_nat n -> le_val (le_bytes n x) = x.
Proof.
  induction n as [|n IH]; intros x Hx; [cbn in *; lia|]. rewrite Nat2Z.inj_succ, Z.pow_succ_r in Hx by lia. cbn [le_bytes le_val].
  rewrite IH; [pose proof (Z.div_mod x 256); lia|]. split; [apply Z.div_pos; lia|]. apply Z.div_lt_upper_bound; lia.
Qed.

Lemma le_bytes_val l : bytes_ok l -> le_bytes (length l) (le_val l) = l.
Proof.
  induction 1 as [|b l Hb _ IH]; [done|]. cbn [length le_val le_bytes]. unfold is_u in Hb. change (2 ^ 8) with 256 in Hb.
  rewrite Z.mul_comm, Z.mod_add, Z.div_add, Z.mod_small, Z.div_small, Z.add_0_l by lia. by rewrite IH.
Qed.

Lemma be_val_bytes n x : 0 <= x < 256 ^ Z.of_nat n -> be_val (be_bytes n x) = x.
Proof. intros Hx. unfold be_val, be_bytes. rewrite rev_involutive. by apply le_val_bytes. Qed.

Lemma le_bytes_nth n : forall x k, (k < n)%nat -> nth k (le_bytes n x) 0 = (x / 256 ^ Z.of_nat k) mod 256.
Proof.
  induction n as [|n IH]; intros x [|k] Hk; [lia..| |]; cbn [le_bytes nth]; [by rewrite Z.div_1_r|].
  rewrite IH by lia. rewrite Nat2Z.inj_succ, Z.pow_succ_r, Z.div_div by lia. done.
Qed.

(** Two bytes with the same bits. *)
Lemma byte_from_bits a x j k : 0 <= j -> 0 <= k -> (forall i, 0 <= i < 8 -> Z.testbit a (i + 8 * j) = Z.testbit x (i + 8 * k)) ->
  (a / 256 ^ j) mod 256 = (x / 256 ^ k) mod 256.
Proof.
  intros Hj Hk Hb. change 256 with (2 ^ 8). rewrite <- !Z.pow_mul_r by lia. apply Z.bits_inj'. intros i Hi.
  destruct (decide (i < 8)); [|by rewrite !Z.mod_pow2_bits_high by lia].
  rewrite !Z.mod_pow2_bits_low by lia. rewrite !Z.div_pow2_bits by lia. apply Hb. lia.
Qed.

Ltac bit_cases i :=
  let H := fresh in assert (i = 0 \/ i = 1 \/ i = 2 \/ i = 3 \/ i = 4 \/ i = 5 \/ i = 6 \/ i = 7) as H by lia;
  destruct H as [->|[->|[->|[->|[->|[->|[->| ->]]]]]]].

(** A byte of a swapped word: each of its bits is found in the other half. *)
Ltac swapped_byte :=
  apply byte_from_bits; [lia|lia|]; let i := fresh in let Hi := fresh in intros i Hi; bit_cases i;
  unfold ByteSwap16, ByteSwap32, ByteSwap64; rewrite ?Z.lor_spec, ?Z.shiftl_spec, ?Z.shiftr_spec, ?Z.land_spec by lia;
  cbn -[Z.testbit]; repeat match goal with |- context [Z.testbit ?c ?i] => lazymatch c with Zpos _ => let v := eval compute in (Z.testbit c i) in change (Z.testbit c i) with v end end;
  rewrite ?Z.testbit_neg_r by lia; rewrite ?andb_true_r, ?andb_false_r, ?orb_false_r, ?orb_false_l; reflexivity.

Lemma swap_bytes n (a x : Z) : (forall k, (k < n)%nat -> (a / 256 ^ Z.of_nat k) mod 256 = (x / 256 ^ Z.of_nat (n - 1 - k)) mod 256) ->
  le_bytes n a = be_bytes n x.
Proof.
  intros H. apply (nth_ext _ _ 0 0); [by rewrite be_bytes_length, le_bytes_length|]. intros k Hk. rewrite le_bytes_length in Hk.
  unfold be_bytes. rewrite rev_nth, le_bytes_length by (by rewrite le_bytes_length). rewrite !le_bytes_nth by lia. rewrite H by done. do 4 f_equal. lia.
Qed.

(** What is stored at the address of a swapped word. *)
Lemma ByteSwap16_bytes x : le_bytes 2 (ByteSwap16 x) = be_bytes 2 x.
Proof. apply swap_bytes. intros [|[|k]] Hk; [..|lia]; cbn [Nat.sub Z.of_nat]; swapped_byte. Qed.
Lemma ByteSwap32_bytes x : le_bytes 4 (ByteSwap32 x) = be_bytes 4 x.
Proof. apply swap_bytes. intros [|[|[|[|k]]]] Hk; [..|lia]; cbn [Nat.sub Z.of_nat]; swapped_byte. Qed.
Lemma ByteSwap64_bytes x : le_bytes 8 (ByteSwap64 x) = be_bytes 8 x.
Proof. apply swap_bytes. intros [|[|[|[|[|[|[|[|k]]]]]]]] Hk; [..|lia]; cbn [Nat.sub Z.of_nat]; swapped_byte. Qed.

Lemma le_bytes_wrap n : forall a, le_bytes n (a mod 256 ^ Z.of_nat n) = le_bytes n a.
Proof.
  induction n as [|n IH]; intros a; [done|]. rewrite Nat2Z.inj_succ, Z.pow_succ_r by lia. cbn [le_bytes].
  rewrite Z.rem_mul_r by lia. pose proof (Z.mod_pos_bound a 256 ltac:(lia)). f_equal.
  - rewrite (Z.mul_comm 256), Z.mod_add by lia. apply Z.mod_small. lia.
  - rewrite (Z.mul_comm 256), Z.div_add, (Z.div_small (a mod 256)), Z.add_0_l by lia. apply IH.
Qed.

Lemma le_val_bytes_mod n a : le_val (le_bytes n a) = a mod 256 ^ Z.of_nat n.
Proof. rewrite <- le_bytes_wrap. apply le_val_bytes, Z.mod_pos_bound. lia. Qed.

(** A word in network order: what is written, and what is read. *)
Lemma ToBigEndian16_bytes x : le_bytes 2 (ToBigEndian16 x) = be_bytes 2 x.
Proof. rewrite <- ByteSwap16_bytes. apply (le_bytes_wrap 2). Qed.
Lemma ToBigEndian32_bytes x : le_bytes 4 (ToBigEndian32 x) = be_bytes 4 x.
Proof. rewrite <- ByteSwap32_bytes. apply (le_bytes_wrap 4). Qed.
Lemma ToBigEndian64_bytes x : le_bytes 8 (ToBigEndian64 x) = be_bytes 8 x.
Proof. rewrite <- ByteSwap64_bytes. apply (le_bytes_wrap 8). Qed.

Lemma from_bytes n (swap : Z -> Z) l : bytes_ok l -> length l = n -> (forall x, le_bytes n (swap x) = be_bytes n x) -> swap (le_val l) mod 256 ^ Z.of_nat n = be_val l.
Proof. intros Hl <- Hs. rewrite <- le_val_bytes_mod, Hs. unfold be_bytes. by rewrite le_bytes_val. Qed.

Lemma FromBigEndian16_val l : bytes_ok l -> length l = 2%nat -> FromBigEndian16 (le_val l) = be_val l.
Proof. intros Hl Hn. exact (from_bytes 2 ByteSwap16 l Hl Hn ByteSwap16_bytes). Qed.
Lemma FromBigEndian32_val l : bytes_ok l -> length l = 4%nat -> FromBigEndian32 (le_val l) = be_val l.
Proof. intros Hl Hn. exact (from_bytes 4 ByteSwap32 l Hl Hn ByteSwap32_bytes). Qed.
Lemma FromBigEndian64_val l : bytes_ok l -> length l = 8%nat -> FromBigEndian64 (le_val l) = be_val l.
Proof. intros Hl Hn. exact (from_bytes 8 ByteSwap64 l Hl Hn ByteSwap64_bytes). Qed.

(** There and back. *)
Lemma FromBigEndian16_To x : is_u 16 x -> FromBigEndian16 (ToBigEndian16 x) = x.
Proof.
  intros Hx. rewrite <- (le_val_bytes 2 (ToBigEndian16 x)) by (apply wrap_range; lia).
  rewrite ToBigEndian16_bytes, FromBigEndian16_val by (apply be_bytes_ok || apply be_bytes_length). by apply (be_val_bytes 2).
Qed.
Lemma FromBigEndian32_To x : is_u 32 x -> FromBigEndian32 (ToBigEndian32 x) = x.
Proof.
  intros Hx. rewrite <- (le_val_bytes 4 (ToBigEndian32 x)) by (apply wrap_range; lia).
  rewrite ToBigEndian32_bytes, FromBigEndian32_val by (apply be_bytes_ok || apply be_bytes_length). by apply (be_val_bytes 4).
Qed.
Lemma FromBigEndian64_To x : is_u 64 x -> FromBigEndian64 (ToBigEndian64 x) = x.
Proof.
  intros Hx. rewrite <- (le_val_bytes 8 (ToBigEndian64 x)) by (apply wrap_range; lia).
  rewrite ToBigEndian64_bytes, FromBigEndian64_val by (apply be_bytes_ok || apply be_bytes_length). by apply (be_val_bytes 8).
Qed.
