(* ===== verification/Dns.v ===== *)
(** * DNS packages

    Models [sese/net/dns/DnsPackage.{h,cpp}], [DnsPackage_Flags.cpp] and [DnsPackage_Index.cpp]:
    decoding a package with compressed names, the index of names, and encoding into a buffer. Names
    are built in a [StringBuilder], which is the string it holds ([StringBuffer.v]). *)

From S2P Require Import Prelude Text Cells OrdMap Words Endian.
From stdpp Require Import gmap.
Local Open Scope Z_scope.

(** ** Flags *)

(*@ sese/net/dns/DnsPackage.h 35-43 DnsPackage::Flags *)
Record Flags := MkFlags { qr : bool; opcode : Z; aa : bool; tc : bool; rd : bool; ra : bool; z : Z; rcode : Z }.

(*@ sese/net/dns/DnsPackage_Flags.cpp 17-26 DnsPackage::Flags::decode *)
Definition Flags_decode (flags : Z) : Flags :=
  let bit k := negb (Z.land (Z.shiftr flags k) 1 =? 0) in
  MkFlags (bit 15) (Z.land (Z.shiftr flags 11) 15) (bit 10) (bit 9) (bit 8) (bit 7) (Z.land (Z.shiftr flags 4) 7) (Z.land flags 15).

(*@ sese/net/dns/DnsPackage_Flags.cpp 28-41 DnsPackage::Flags::encode *)
Definition Flags_encode (f : Flags) : Z :=
  let bit (b : bool) k := Z.shiftl (Z.b2z b) k in
  fold_left Z.lor [bit (qr f) 15; Z.shiftl (Z.land (opcode f) 15) 11; bit (aa f) 10; bit (tc f) 9; bit (rd f) 8; bit (ra f) 7;
                   Z.shiftl (Z.land (z f) 7) 4; Z.land (rcode f) 15] 0.

(** ** Packages *)

(*@ sese/net/dns/DnsPackage.h 53-57 DnsPackage::Question *)
Record Question := MkQuestion { q_name : bytes; q_type : Z; q_class : Z }.
(*@ sese/net/dns/DnsPackage.h 60-67 DnsPackage::Answer *)
Record Answer := MkAnswer { a_name : bytes; a_type : Z; a_class : Z; a_ttl : Z; a_data_length : Z; a_data : bytes }.
(*@ sese/net/dns/DnsPackage.h 75-83 DnsPackage *)
Record DnsPackage := MkPackage { id : Z; flags : Z; questions : list Question; answers : list Answer; authorities : list Answer; additionals : list Answer }.

(*@ sese/net/dns/DnsPackage.cpp 22-24 DnsPackage::new_ *)
Definition new_ : DnsPackage := MkPackage 0 0 [] [] [] [].

(** ** Decoding *)

(** [memcpy] of an integer in network order. *)
Definition read16 (buffer : bytes) (pos : Z) : outcome Z := w ← memread buffer pos 2; Val (FromBigEndian16 (le_val w)).
Definition read32 (buffer : bytes) (pos : Z) : outcome Z := w ← memread buffer pos 4; Val (FromBigEndian32 (le_val w)).

(** The dot before every label but the first. *)
Definition dot (first : bool) : bytes := if first then [] else [46].

(*@ sese/net/dns/DnsPackage.cpp 26-69 DnsPackage::decodeWords *)
(** The name from [offset] on, of which [current_pos] bytes are read, and the offset after
    it; the empty name and the old offset stand for a failure. The byte at the end of a name is not passed,
    and neither a byte nor a label is compared with the size of the buffer by its own position. *)
Fixpoint decodeWords (fuel : nat) (buffer : bytes) (length offset current_pos : Z) (first : bool) (builder : bytes) : outcome (bytes * Z) :=
  match fuel with
  | O => Undef
  | S fuel =>
      ch ← load buffer (offset + current_pos);
      if ch =? 0 then Val (builder, offset + current_pos)
      else if Z.land ch 0xC0 =? 0xC0 then
        new_offset ← read16 buffer (offset + current_pos);
        let new_offset := Z.land new_offset 0x3FFF in
        if length <? new_offset then Val ([], offset)
        else
          '(sub, _) ← decodeWords fuel buffer length new_offset 0 true [];
          if bool_decide (sub = []) then Val ([], offset)
          else Val (builder ++ dot first ++ sub, offset + u16 (current_pos + 2))
      else
        if length <? offset + ch + 1 then Val ([], offset)
        else
          label ← memread buffer (offset + current_pos + 1) ch;
          decodeWords fuel buffer length offset (u16 (current_pos + (ch + 1))) false (builder ++ dot first ++ label)
  end.

(*@ sese/net/dns/DnsPackage.cpp 70-105 DnsPackage::decodeAnswers *)
(** [None]: the package is refused. *)
Fixpoint decodeAnswers (fuel : nat) (expect_size : nat) (buffer : bytes) (length pos : Z) : outcome (option (list Answer * Z)) :=
  match expect_size with
  | O => Val (Some ([], pos))
  | S expect_size =>
      '(name, pos) ← decodeWords fuel buffer length pos 0 true [];
      if bool_decide (name = []) then Val None
      else if length <? pos + 10 then Val None
      else
        type ← read16 buffer pos;
        class_ ← read16 buffer (pos + 2);
        ttl ← read32 buffer (pos + 4);
        data_length ← read16 buffer (pos + 8);
        let pos := pos + 10 in
        if length <? pos + data_length then Val None
        else
          data ← memread buffer pos data_length;
          rest ← decodeAnswers fuel expect_size buffer length (pos + data_length);
          Val (match rest with Some (l, pos) => Some (MkAnswer name type class_ ttl data_length data :: l, pos) | None => None end)
  end.

(*@ sese/net/dns/DnsPackage.cpp 133-146 DnsPackage::decode *)
(** The byte at the end of the name is passed here. *)
Fixpoint decodeQuestions (fuel : nat) (qdcount : nat) (buffer : bytes) (length pos : Z) : outcome (option (list Question * Z)) :=
  match qdcount with
  | O => Val (Some ([], pos))
  | S qdcount =>
      '(name, pos) ← decodeWords fuel buffer length pos 0 true [];
      if bool_decide (name = []) then Val None
      else
        type ← read16 buffer (pos + 1);
        class_ ← read16 buffer (pos + 3);
        rest ← decodeQuestions fuel qdcount buffer length (pos + 5);
        Val (match rest with Some (l, pos) => Some (MkQuestion name type class_ :: l, pos) | None => None end)
  end.

(*@ sese/net/dns/DnsPackage.cpp 108-159 DnsPackage::decode *)
Definition decode (fuel : nat) (buffer : bytes) (length : Z) : outcome (option DnsPackage) :=
  if length <? 12 then Val None
  else
    id ← read16 buffer 0; flags ← read16 buffer 2;
    qdcount ← read16 buffer 4; ancount ← read16 buffer 6; nscount ← read16 buffer 8; arcount ← read16 buffer 10;
    q ← decodeQuestions fuel (Z.to_nat qdcount) buffer length 12;
    match q with None => Val None | Some (questions, pos) =>
    an ← decodeAnswers fuel (Z.to_nat ancount) buffer length pos;
    match an with None => Val None | Some (answers, pos) =>
    ns ← decodeAnswers fuel (Z.to_nat nscount) buffer length pos;
    match ns with None => Val None | Some (authorities, pos) =>
    ar ← decodeAnswers fuel (Z.to_nat arcount) buffer length pos;
    match ar with None => Val None | Some (additionals, pos) =>
    Val (Some (MkPackage id flags questions answers authorities additionals)) end end end end.

(** ** The index of names *)

(*@ sese/net/dns/DnsPackage.h 108-112 DnsPackage::Index::CompressIndex *)
Record CompressIndex := MkCompressIndex { index : Z; name : bytes; pos : Z }.
(*@ sese/net/dns/DnsPackage.h 114-115 DnsPackage::Index *)
Record Index := MkIndex { compress_index : list CompressIndex; compress_mapping : list (bytes * gset Z) }.
Definition no_index : Index := MkIndex [] [].

(** The words of a name. *)
Definition words (fullname : bytes) : list bytes := split_view fullname [46].

(** The two maps while the index is built, and the number of words so far. *)
Abbreviation building := (Z * list (bytes * CompressIndex) * list (bytes * gset Z))%type (only parsing).

(*@ sese/net/dns/DnsPackage_Index.cpp 41-54 DnsPackage::Index::Index *)
(** Over the words of a name from the last one; [nm] is the suffix so far, [pos] the number of new suffixes. *)
Fixpoint index_loop (rev_names : list bytes) (index pos : Z) (first : bool) (nm : bytes)
    (strings : list (bytes * CompressIndex)) (set : gset Z) : list (bytes * CompressIndex) * gset Z :=
  match rev_names with
  | [] => (strings, set)
  | word :: rev_names =>
      let nm := word ++ dot first ++ nm in
      match mfind lexcmp nm strings with
      | None =>
          let tmp := u16 (index - pos) in
          index_loop rev_names index (pos + 1) false nm (mset lexcmp nm (MkCompressIndex tmp nm 0) strings) ({[tmp]} ∪ set)
      | Some found => index_loop rev_names index pos false nm strings ({[Dns.index found]} ∪ set)
      end
  end.

(*@ sese/net/dns/DnsPackage_Index.cpp 30-55 DnsPackage::Index::Index *)
Definition index_name (b : building) (item : bytes) : building :=
  let '(index, strings, mapping) := b in
  let names := words item in
  let index := u16 (index + u16 (zlen names)) in
  let '(strings, set) := index_loop (rev names) index 0 true [] strings (default ∅ (mfind lexcmp item mapping)) in
  (index, strings, mset lexcmp item set mapping).

(*@ sese/net/dns/DnsPackage_Index.cpp 25-73 DnsPackage::Index::Index *)
Definition buildIndex (p : DnsPackage) : Index :=
  let '(_, strings, mapping) :=
    fold_left index_name (map q_name (questions p) ++ map a_name (answers p) ++ map a_name (authorities p) ++ map a_name (additionals p)) (0, [], []) in
  MkIndex (map snd strings) mapping.

(** The elements with their positions. *)
Definition indexed {A} (l : list A) : list (nat * A) := zip (seq 0 (length l)) l.

(** Insertion in the order of [std::sort] with the comparison of lengths. *)
Fixpoint insert_longest (x : nat * CompressIndex) (l : list (nat * CompressIndex)) : list (nat * CompressIndex) :=
  match l with
  | [] => [x]
  | y :: l' => if zlen (name (snd x)) >? zlen (name (snd y)) then x :: l else y :: insert_longest x l'
  end.

(*@ sese/net/dns/DnsPackage_Index.cpp 75-87 DnsPackage::Index::getSortedIndexes *)
(** The positions in [compress_index] stand for the pointers. *)
Definition getSortedIndexes (indexes : gset Z) (idx : Index) : list nat :=
  let cached_items := filter (fun e => index (snd e) ∈ indexes) (indexed (compress_index idx)) in
  map fst (foldr insert_longest [] cached_items).

(*@ sese/net/dns/DnsPackage_Index.cpp 89-105 DnsPackage::Index::updatePos *)
Fixpoint updatePos (indexes : list nat) (offset : Z) (first : bool) (fullname : bytes) (items : list CompressIndex) : list CompressIndex :=
  match indexes with
  | [] => items
  | i :: indexes =>
      match items !! i with
      | None => items
      | Some item =>
          if negb (pos item =? 0) then items
          else
            let fullname := if first then name item else fullname in
            let offset1 := if first then 0 else u16 (zlen fullname - zlen (name item)) in
            updatePos indexes offset false fullname (<[i := MkCompressIndex (index item) (name item) (u16 (offset + offset1))]> items)
      end
  end.

(*@ sese/net/dns/DnsPackage_Index.cpp 107-111 DnsPackage::Index::clearPos *)
(** The loop clears copies. *)
Definition clearPos (idx : Index) : Index := idx.

(*@ sese/net/dns/DnsPackage_Index.cpp 113-115 createPointer *)
Definition createPointer (pos : Z) : Z := Z.lor 0xC000 (Z.land pos 0x3FFF).

(*@ sese/net/dns/DnsPackage_Index.cpp 121-138 DnsPackage::Index::encodeWords *)
(** The word of a cached suffix until one has a position. *)
Fixpoint cached_words (cached_items : list nat) (words : list bytes) (i : nat) (items : list CompressIndex) : outcome bytes :=
  match cached_items with
  | [] => Val [0]
  | k :: cached_items =>
      item ← of_option (items !! k);
      word ← of_option (words !! i);
      if pos item =? 0 then rest ← cached_words cached_items words (S i) items; Val (u8 (zlen word) :: word ++ rest)
      else Val (le_bytes 2 (ToBigEndian16 (createPointer (pos item))))
  end.

(*@ sese/net/dns/DnsPackage_Index.cpp 117-141 DnsPackage::Index::encodeWords *)
Definition Index_encodeWords (fullname : bytes) (indexes : gset Z) (base_offset : Z) (idx : Index) : outcome (bytes * Index) :=
  let cached_items := getSortedIndexes indexes idx in
  b ← cached_words cached_items (words fullname) 0 (compress_index idx);
  Val (b, MkIndex (updatePos cached_items base_offset true [] (compress_index idx)) (compress_mapping idx)).

(** ** Encoding *)

(*@ sese/net/dns/DnsPackage.cpp 213-222 DnsPackage::encodeWords *)
Definition encodeWords (fullname : bytes) : bytes := (words fullname ≫= (fun word => u8 (zlen word) :: word)) ++ [0].

(*@ sese/net/dns/DnsPackage.cpp 229-237 DnsPackage::encodeQuestions *)
Definition encode_name (nm : bytes) (offset : Z) (idx : Index) : outcome (bytes * Index) :=
  match mfind lexcmp nm (compress_mapping idx) with
  | Some indexes => Index_encodeWords nm indexes (u16 offset) idx
  | None => Val (encodeWords nm, idx)
  end.

(*@ sese/net/dns/DnsPackage.cpp 238-246 DnsPackage::encodeQuestions *)
(** Bytes after the [length] ones that are written from [base] on; with [max] zero they are counted only. *)
Definition put (max base length : Z) (mem data : bytes) : outcome (option (bytes * Z)) :=
  if max =? 0 then Val (Some (mem, length + zlen data))
  else if u64 (max - length) <? zlen data then Val None
  else mem ← memcpy mem (base + length) data; Val (Some (mem, length + zlen data)).

Definition be16 (x : Z) : bytes := le_bytes 2 (ToBigEndian16 x).
Definition be32_ (x : Z) : bytes := le_bytes 4 (ToBigEndian32 x).

(*@ sese/net/dns/DnsPackage.cpp 224-262 DnsPackage::encodeQuestions *)
(** The memory, the length and the index; the first component is the result of the function. *)
Fixpoint encodeQuestions (questions : list Question) (max base length : Z) (mem : bytes) (idx : Index) : outcome (bool * bytes * Z * Index) :=
  match questions with
  | [] => Val (true, mem, length, idx)
  | item :: questions =>
      '(nm, idx) ← encode_name (q_name item) (length + base) idx;
      r ← put max base length mem nm;
      match r with None => Val (false, mem, length, idx) | Some (mem, length) =>
      r ← put max base length mem (be16 (q_type item) ++ be16 (q_class item));
      match r with None => Val (false, mem, length, idx) | Some (mem, length) =>
      encodeQuestions questions max base length mem idx end end
  end.

(*@ sese/net/dns/DnsPackage.cpp 264-306 DnsPackage::encodeAnswers *)
Fixpoint encodeAnswers (answers : list Answer) (max base length : Z) (mem : bytes) (idx : Index) : outcome (bool * bytes * Z * Index) :=
  match answers with
  | [] => Val (true, mem, length, idx)
  | item :: answers =>
      '(nm, idx) ← encode_name (a_name item) (length + base) idx;
      r ← put max base length mem nm;
      match r with None => Val (false, mem, length, idx) | Some (mem, length) =>
      if max =? 0 then encodeAnswers answers max base (length + (10 + a_data_length item)) mem idx
      else
        r ← (if u64 (max - length) <? 10 + a_data_length item then Val None
             else data ← memread (a_data item) 0 (a_data_length item);
                  put max base length mem (be16 (a_type item) ++ be16 (a_class item) ++ be32_ (a_ttl item) ++ be16 (a_data_length item) ++ data));
        match r with None => Val (false, mem, length, idx) | Some (mem, length) =>
        encodeAnswers answers max base length mem idx end
      end
  end.

(*@ sese/net/dns/DnsPackage.cpp 190-190 DnsPackage::encode *)
(** What is left of the buffer; zero also stands for no buffer at all. *)
Definition room (max length : Z) : Z := if max =? 0 then max else u64 (max - length).

(*@ sese/net/dns/DnsPackage.cpp 165-211 DnsPackage::encode *)
(** The length of the last section is not added. *)
Definition encode (p : DnsPackage) (buffer : bytes) (length : Z) (idx : Index) : outcome (bool * bytes * Z * Index) :=
  let idx := clearPos idx in
  let max := length in
  if negb (max =? 0) && (max <? 12) then Val (false, buffer, 0, idx)
  else
    buffer ← (if max =? 0 then Val buffer
              else memcpy buffer 0 (be16 (id p) ++ be16 (flags p) ++ be16 (u16 (zlen (questions p))) ++ be16 (u16 (zlen (answers p)))
                                    ++ be16 (u16 (zlen (authorities p))) ++ be16 (u16 (zlen (additionals p)))));
    let length := 12 in
    '(ok, buffer, sublength, idx) ← encodeQuestions (questions p) (room max length) length 0 buffer idx;
    if negb ok then Val (false, buffer, length, idx) else
    let length := length + sublength in
    '(ok, buffer, sublength, idx) ← encodeAnswers (answers p) (room max length) length 0 buffer idx;
    if negb ok then Val (false, buffer, length, idx) else
    let length := length + sublength in
    '(ok, buffer, sublength, idx) ← encodeAnswers (authorities p) (room max length) length 0 buffer idx;
    if negb ok then Val (false, buffer, length, idx) else
    let length := length + sublength in
    '(ok, buffer, sublength, idx) ← encodeAnswers (additionals p) (room max length) length 0 buffer idx;
    Val (ok, buffer, length, idx).
