(* ===== verification/DnsNames.v ===== *)
(** * Names in DNS packages

    What decoding makes of the names that encoding writes: names in full, names that
    are pointers, and the index of a package whose names are all the same. *)

From S2P Require Import Prelude Text Cells OrdMap Words Endian Dns.
From stdpp Require Import gmap.
Local Open Scope Z_scope.

(** ** Bytes at a position of a buffer *)

Definition has (mem : bytes) (pos : Z) (data : bytes) : Prop := exists p r, mem = p ++ data ++ r /\ pos = zlen p.

Lemma has_app mem pos a b : has mem pos (a ++ b) -> has mem pos a /\ has mem (pos + zlen a) b.
Proof.
  intros (p & r & -> & ->). split.
  - exists p, (b ++ r). by rewrite <- !app_assoc.
  - exists (p ++ a), r. rewrite <- !app_assoc. split; [done|]. by rewrite zlen_app.
Qed.

Lemma has_read mem pos data : has mem pos data -> memread mem pos (zlen data) = Val data.
Proof. intros (p & r & -> & ->). by apply memread_at. Qed.

Lemma has_load mem pos b data : has mem pos (b :: data) -> load mem pos = Val b.
Proof. intros (p & r & -> & ->). by apply load_at. Qed.

Lemma be_bytes_zlen n x : zlen (be_bytes n x) = Z.of_nat n.
Proof. unfold zlen. by rewrite be_bytes_length. Qed.

Lemma be16_bytes x : be16 x = be_bytes 2 x.
Proof. apply ToBigEndian16_bytes. Qed.
Lemma be32_bytes_ x : be32_ x = be_bytes 4 x.
Proof. apply ToBigEndian32_bytes. Qed.

Lemma has_read16 mem pos x : is_u 16 x -> has mem pos (be16 x) -> read16 mem pos = Val x.
Proof.
  rewrite be16_bytes. intros Hx Hm. apply has_read in Hm. rewrite be_bytes_zlen in Hm. unfold read16. change 2 with (Z.of_nat 2). rewrite Hm, bind_Val.
  rewrite FromBigEndian16_val by (apply be_bytes_ok || apply be_bytes_length). f_equal. by apply be_val_bytes.
Qed.
Lemma has_read32 mem pos x : is_u 32 x -> has mem pos (be32_ x) -> read32 mem pos = Val x.
Proof.
  rewrite be32_bytes_. intros Hx Hm. apply has_read in Hm. rewrite be_bytes_zlen in Hm. unfold read32. change 4 with (Z.of_nat 4) at 1. rewrite Hm, bind_Val.
  rewrite FromBigEndian32_val by (apply be_bytes_ok || apply be_bytes_length). f_equal. by apply be_val_bytes.
Qed.

Lemma be16_zlen x : zlen (be16 x) = 2.
Proof. rewrite be16_bytes. apply be_bytes_zlen. Qed.
Lemma be32_zlen x : zlen (be32_ x) = 4.
Proof. rewrite be32_bytes_. apply be_bytes_zlen. Qed.
#[export] Hint Rewrite be16_zlen be32_zlen : zlen.

(** ** Names in full *)

(** A label of a host name. *)
Definition label_ok (l : bytes) : Prop := l <> [] /\ zlen l < 64 /\ ~ In 0 l /\ ~ In 46 l.
Definition labels_ok (ls : list bytes) : Prop := ls <> [] /\ Forall label_ok ls.

Definition hostname (ls : list bytes) : bytes := Text.join [46] ls.
Definition wire_labels (ls : list bytes) : bytes := ls ≫= (fun l => zlen l :: l).
(** A name as it is sent. *)
Definition wire (ls : list bytes) : bytes := wire_labels ls ++ [0].

Lemma wire_labels_cons l ls : wire_labels (l :: ls) = zlen l :: l ++ wire_labels ls.
Proof. reflexivity. Qed.

Lemma label_length l : label_ok l -> 0 < zlen l < 64.
Proof. intros (Hn & Hl & _). split; [|done]. destruct l; [done|]. rewrite zlen_cons. pose proof (zlen_nonneg l). lia. Qed.

Lemma words_hostname ls : labels_ok ls -> words (hostname ls) = ls.
Proof.
  intros [Hne Hls]. destruct ls as [|l ls]; [done|]. unfold words, split_view, hostname.
  assert (label_ok (List.last (l :: ls) [])) as (Hn & _ & H0 & _).
  { rewrite Forall_forall in Hls. apply Hls. rewrite (app_removelast_last [] (l := l :: ls)) at 2 by done. apply elem_of_app. right. by left. }
  apply split_loop_join.
  - pose proof (Text.join_length [46] ls ltac:(cbn; lia) l). lia.
  - eapply Forall_impl; [exact Hls|]. intros x (_ & _ & _ & H). exact H.
  - done.
  - by apply cstr_no_nul.
Qed.

Lemma encodeWords_hostname ls : labels_ok ls -> encodeWords (hostname ls) = wire ls.
Proof.
  intros Hls. unfold encodeWords. rewrite words_hostname by done. unfold wire, wire_labels. f_equal. destruct Hls as [_ Hls].
  induction Hls as [|l ls Hl _ IH]; [done|]. cbn [mbind list_bind]. rewrite IH. pose proof (label_length l Hl). by rewrite wrap_small by (unfold is_u; lia).
Qed.

(** The labels with dots before them. *)
Fixpoint dotted (first : bool) (ls : list bytes) : bytes := match ls with [] => [] | l :: ls => dot first ++ l ++ dotted false ls end.

Lemma dotted_join ls : dotted true ls = Text.join [46] ls.
Proof.
  destruct ls as [|l ls]; [done|]. cbn [dotted dot app]. revert l. induction ls as [|m ls IH]; intros l; [by rewrite app_nil_r|].
  cbn [dotted dot]. change (Text.join [46] (l :: m :: ls)) with (l ++ [46] ++ Text.join [46] (m :: ls)). by rewrite <- IH.
Qed.

Lemma land_label n : 0 <= n < 64 -> Z.land n 0xC0 = 0.
Proof.
  intros Hn. apply Z.bits_inj'. intros i Hi. rewrite Z.land_spec, Z.bits_0. destruct (decide (i < 6)).
  - assert (i = 0 \/ i = 1 \/ i = 2 \/ i = 3 \/ i = 4 \/ i = 5) as H by lia. destruct H as [->|[->|[->|[->|[->| ->]]]]]; apply andb_false_r.
  - assert (Z.testbit n i = false) as ->; [|done]. destruct (decide (n = 0)) as [->|]; [apply Z.bits_0|].
    apply Z.bits_above_log2; [lia|]. apply Z.lt_le_trans with 6; [|lia]. apply Z.log2_lt_pow2; lia.
Qed.

Lemma decode_labels ls : Forall label_ok ls -> forall mem L offset cur first b fuel,
  has mem (offset + cur) (wire ls) -> 0 <= offset -> 0 <= cur -> cur + zlen (wire ls) < 2 ^ 16 -> offset + cur + zlen (wire ls) <= L -> (length ls < fuel)%nat ->
  decodeWords fuel mem L offset cur first b = Val (b ++ dotted first ls, offset + cur + zlen (wire_labels ls)).
Proof.
  unfold wire. induction 1 as [|l ls Hl _ IH]; intros mem L offset cur first b [|fuel] Hm Ho Hc Hmax HL Hf; cbn [length] in Hf; try lia; cbn [decodeWords].
  - rewrite (has_load _ _ _ _ Hm), bind_Val. cbn [Z.eqb dotted]. rewrite app_nil_r. by rewrite Z.add_0_r.
  - rewrite wire_labels_cons in *. pose proof (label_length l Hl). cbn [app] in Hm. rewrite (has_load _ _ _ _ Hm), bind_Val.
    rewrite (proj2 (Z.eqb_neq _ 0)) by lia. rewrite land_label by lia. cbn [Z.eqb].
    change (zlen l :: (l ++ wire_labels ls) ++ [0]) with ([zlen l] ++ (l ++ wire_labels ls) ++ [0]) in Hm. rewrite <- app_assoc in Hm.
    apply has_app in Hm as [_ Hm]. change (zlen [zlen l]) with 1 in Hm. apply has_app in Hm as [Hm1 Hm2].
    rewrite !zlen_app, zlen_cons, zlen_app in *. change (zlen [0]) with 1 in *. pose proof (zlen_nonneg (wire_labels ls)).
    rewrite (proj2 (Z.ltb_ge L _)) by lia. rewrite (has_read _ _ _ Hm1), bind_Val. rewrite wrap_small by (unfold is_u; lia).
    rewrite IH; [|replace (offset + (cur + (zlen l + 1))) with (offset + cur + 1 + zlen l) by lia; done|rewrite ?zlen_nil in *; lia..].
    cbn [dotted]. f_equal. f_equal; [by rewrite <- !app_assoc|]. lia.
Qed.

Lemma decode_name ls mem L offset fuel : labels_ok ls -> has mem offset (wire ls) -> 0 <= offset -> zlen (wire ls) < 2 ^ 16 -> offset + zlen (wire ls) <= L -> (length ls < fuel)%nat ->
  decodeWords fuel mem L offset 0 true [] = Val (hostname ls, offset + zlen (wire_labels ls)).
Proof.
  intros [_ Hls] Hm Ho Hmax HL Hf. rewrite (decode_labels ls Hls); rewrite ?Z.add_0_r; try done; try lia. by rewrite dotted_join.
Qed.

(** A pointer to a name. *)
Lemma decode_pointer ls mem L offset fuel : labels_ok ls -> has mem 12 (wire ls) -> has mem offset [192; 12] -> zlen (wire ls) < 2 ^ 16 -> 12 + zlen (wire ls) <= L ->
  (S (length ls) < fuel)%nat -> decodeWords fuel mem L offset 0 true [] = Val (hostname ls, offset + 2).
Proof.
  intros Hls Hm Hp Hmax HL Hf. destruct fuel as [|fuel]; [lia|]. cbn [decodeWords]. rewrite Z.add_0_r, (has_load _ _ _ _ Hp), bind_Val. cbn [Z.eqb].
  change (Z.land 192 192 =? 192) with true. cbn match. rewrite (has_read16 _ _ 0xC00C) by (done || (split; lia)). rewrite bind_Val.
  change (Z.land 0xC00C 0x3FFF) with 12. pose proof (zlen_nonneg (wire ls)). rewrite (proj2 (Z.ltb_ge L 12)) by lia. rewrite (decode_name ls) by (done || lia). rewrite bind_Val.
  assert (hostname ls <> []) as Hne.
  { destruct Hls as [Hne Hls]. unfold hostname. rewrite <- dotted_join. destruct Hls as [|l ls (Hl & _) _]; [done|]. by destruct l. }
  by rewrite bool_decide_eq_false_2.
Qed.

(** A pointer to itself. *)
Lemma decode_self mem L : has mem 12 [192; 12] -> 12 <= L -> forall fuel, decodeWords fuel mem L 12 0 true [] = Undef.
Proof.
  intros Hp HL. induction fuel as [|fuel IH]; [done|]. cbn [decodeWords]. change (12 + 0) with 12. rewrite (has_load _ _ _ _ Hp), bind_Val. cbn [Z.eqb].
  change (Z.land 192 192 =? 192) with true. cbn match. rewrite (has_read16 _ _ 0xC00C) by (done || (split; lia)). rewrite bind_Val.
  change (Z.land 0xC00C 0x3FFF) with 12. rewrite (proj2 (Z.ltb_ge L 12)) by lia. by rewrite IH.
Qed.

(** ** The index of one name *)

Lemma mfind_In {V} k (m : list (bytes * V)) v : mfind lexcmp k m = Some v -> exists k', In (k', v) m.
Proof.
  induction m as [|[k' v'] m IH]; cbn [mfind]; [done|]. destruct (_ =? _); intros E; [injection E as ->; exists k'; by left|].
  destruct (IH E) as (k2 & Hk). exists k2. by right.
Qed.

Lemma mfind_absent {V} k (m : list (bytes * V)) : Forall (fun e => fst e <> k) m -> mfind lexcmp k m = None.
Proof.
  induction 1 as [|[k' v'] m Hk _ IH]; [done|]. cbn [mfind fst] in *. rewrite (proj2 (Z.eqb_neq _ 0)); [done|]. intros E. apply lexcmp_eq in E. by subst.
Qed.

Lemma mset_fresh {V} k v (m : list (bytes * V)) : mfind lexcmp k m = None -> mset lexcmp k v m ≡ₚ (k, v) :: m.
Proof.
  induction m as [|[k' v'] m IH]; cbn [mfind mset]; [done|]. destruct (lexcmp k k' =? 0) eqn:E; [done|]. intros Hm.
  destruct (_ <? 0); [done|]. rewrite IH by done. apply perm_swap.
Qed.

(** The suffixes of a name, the shortest first. *)
Fixpoint suffixes (first : bool) (nm : bytes) (rev_names : list bytes) : list bytes :=
  match rev_names with [] => [] | w :: rev_names => let nm := w ++ dot first ++ nm in nm :: suffixes false nm rev_names end.

(** Every entry is cached under the set and has no position. *)
Definition cached (set : gset Z) (strings : list (bytes * CompressIndex)) : Prop :=
  Forall (fun e => Dns.index (snd e) ∈ set /\ Dns.pos (snd e) = 0) strings.

Lemma cached_more set set' strings : set ⊆ set' -> cached set strings -> cached set' strings.
Proof. intros Hs Hc. eapply Forall_impl; [exact Hc|]. intros e [H1 H2]. split; [by apply Hs|done]. Qed.

Lemma index_loop_fresh rs : Forall (fun w => w <> []) rs -> forall idx pos first nm strings set strings' set',
  index_loop rs idx pos first nm strings set = (strings', set') ->
  msorted lexcmp strings -> Forall (fun e => zlen (fst e) <= zlen nm) strings -> cached set strings ->
  msorted lexcmp strings' /\ length strings' = (length strings + length rs)%nat /\ cached set' strings' /\
  (forall k, is_Some (mfind lexcmp k strings) -> is_Some (mfind lexcmp k strings')) /\ Forall (fun k => is_Some (mfind lexcmp k strings')) (suffixes first nm rs).
Proof.
  induction 1 as [|w rs Hw _ IH]; intros idx pos first nm strings set strings' set' E Hs Hl Hc; cbn [index_loop suffixes] in *.
  - injection E as <- <-. split; [done|]. split; [cbn; lia|]. done.
  - set (nm' := w ++ dot first ++ nm) in *. assert (zlen nm < zlen nm') as Hlt.
    { subst nm'. rewrite !zlen_app. pose proof (zlen_nonneg (dot first)). destruct w as [|c w]; [done|]. rewrite zlen_cons. pose proof (zlen_nonneg w). lia. }
    assert (mfind lexcmp nm' strings = None) as Hn.
    { apply mfind_absent. eapply Forall_impl; [exact Hl|]. intros e He Heq. cbn beta in He. rewrite Heq in He. lia. }
    rewrite Hn in E. set (item := MkCompressIndex (u16 (idx - pos)) nm' 0) in *. pose proof (mset_fresh nm' item strings Hn) as Hp.
    destruct (IH _ _ _ _ _ _ _ _ E) as (H1 & H2 & H3 & H4 & H5).
    + apply mset_sorted; [exact string_order|done].
    + rewrite Hp. constructor; [cbn; lia|]. eapply Forall_impl; [exact Hl|]. cbn. intros; lia.
    + unfold cached. rewrite Hp. constructor; [split; [apply elem_of_union; left; by apply elem_of_singleton|done]|]. eapply cached_more, Hc. apply union_subseteq_r.
    + split; [done|]. split; [rewrite H2, (Permutation_length Hp); cbn [length]; lia|]. split; [done|].
      assert (forall k, mfind lexcmp k (mset lexcmp nm' item strings) = if lexcmp k nm' =? 0 then Some item else mfind lexcmp k strings) as Hf.
      { intros k. apply mfind_mset; [exact string_order|done]. }
      split.
      * intros k Hk. apply H4. rewrite Hf. by destruct (_ =? 0).
      * constructor; [|done]. apply H4. rewrite Hf. by rewrite (proj2 (Z.eqb_eq _ 0)) by (by apply lexcmp_eq).
Qed.

Lemma index_loop_found rs : forall idx pos first nm strings set, Forall (fun k => is_Some (mfind lexcmp k strings)) (suffixes first nm rs) -> cached set strings ->
  index_loop rs idx pos first nm strings set = (strings, set).
Proof.
  induction rs as [|w rs IH]; intros idx pos first nm strings set Hf Hc; [done|]. cbn [index_loop suffixes] in *. apply Forall_cons in Hf as [[v Hv] Hf].
  rewrite Hv. destruct (mfind_In _ _ _ Hv) as (k & Hk). assert (Dns.index v ∈ set) as Hin.
  { unfold cached in Hc. rewrite List.Forall_forall in Hc. by apply (Hc _ Hk). }
  replace ({[Dns.index v]} ∪ set) with set by (symmetry; by apply subseteq_union_1_L, singleton_subseteq_l). by apply IH.
Qed.

(** The index that holds a name of some words, each suffix without a position. *)
Definition fresh_index (nm : bytes) (n : nat) (idx : Index) : Prop :=
  exists set, compress_mapping idx = [(nm, set)] /\ length (compress_index idx) = n /\
    Forall (fun e => Dns.index e ∈ set /\ Dns.pos e = 0) (compress_index idx).

Lemma index_same nm n strings set : Forall (fun k => is_Some (mfind lexcmp k strings)) (suffixes true [] (rev (words nm))) -> cached set strings ->
  forall i, exists i', fold_left index_name (repeat nm n) (i, strings, [(nm, set)]) = (i', strings, [(nm, set)]).
Proof.
  intros Hf Hc. induction n as [|n IH]; intros i; cbn [repeat fold_left]; [by exists i|]. unfold index_name at 2.
  assert (lexcmp nm nm = 0) as E by (by apply lexcmp_eq). cbn [mfind mset]. rewrite E. cbn [Z.eqb Z.ltb Z.compare default].
  rewrite index_loop_found by done. apply IH.
Qed.

Lemma buildIndex_same ls p n : labels_ok ls ->
  map q_name (questions p) ++ map a_name (answers p) ++ map a_name (authorities p) ++ map a_name (additionals p) = repeat (hostname ls) (S n) ->
  fresh_index (hostname ls) (length ls) (buildIndex p).
Proof.
  intros Hls Hp. unfold buildIndex. rewrite Hp. cbn [repeat fold_left]. unfold index_name at 2. cbn [mfind default]. rewrite words_hostname by done.
  destruct (index_loop _ _ 0 true [] [] ∅) as [strings set] eqn:E. apply index_loop_fresh in E as (H1 & H2 & H3 & H4 & H5); [|..|done|constructor|constructor].
  - destruct (index_same (hostname ls) n strings set) with (i := u16 (0 + u16 (zlen ls))) as (i' & Ei); [by rewrite words_hostname|done|]. cbn [mset].
    rewrite Ei. exists set. split; [done|]. cbn [compress_index]. rewrite length_map, H2, length_rev. split; [done|]. apply Forall_map. exact H3.
  - apply Forall_rev. eapply Forall_impl; [apply Hls|]. intros l (Hl & _). exact Hl.
Qed.

(** ** Encoding with the index of one name *)

Lemma insert_longest_perm x l : insert_longest x l ≡ₚ x :: l.
Proof. induction l as [|y l IH]; cbn [insert_longest]; [done|]. destruct (_ >? _); [done|]. rewrite IH. apply perm_swap. Qed.

Lemma sorted_perm l : foldr insert_longest [] l ≡ₚ l.
Proof. induction l as [|x l IH]; [done|]. cbn [foldr]. by rewrite insert_longest_perm, IH. Qed.

Lemma indexed_fst {A} (l : list A) : map fst (indexed l) = seq 0 (length l).
Proof. unfold indexed. apply fst_zip. by rewrite length_seq. Qed.
Lemma indexed_snd {A} (l : list A) : map snd (indexed l) = l.
Proof. unfold indexed. apply snd_zip. by rewrite length_seq. Qed.

(** When every entry is cached, all positions are there. *)
Lemma sorted_all set idx : Forall (fun e => Dns.index e ∈ set) (compress_index idx) -> getSortedIndexes set idx ≡ₚ seq 0 (length (compress_index idx)).
Proof.
  intros Hc. unfold getSortedIndexes. rewrite <- (indexed_fst (compress_index idx)). apply Permutation_map. rewrite sorted_perm.
  rewrite <- (indexed_snd (compress_index idx)), Forall_map in Hc. induction Hc as [|e l He _ IH]; [done|]. rewrite filter_cons_True by done. by rewrite IH.
Qed.

(** The same entries, up to their positions. *)
Definition alike (a b : CompressIndex) : Prop := Dns.index a = Dns.index b /\ Dns.name a = Dns.name b.

Lemma insert_alike x y l k : fst x = fst y -> alike (snd x) (snd y) -> Forall2 (fun a b => fst a = fst b /\ alike (snd a) (snd b)) l k ->
  Forall2 (fun a b => fst a = fst b /\ alike (snd a) (snd b)) (insert_longest x l) (insert_longest y k).
Proof.
  intros Hx Ha. pose proof Ha as [_ Hn]. induction 1 as [|a b l k [H1 H2] Hl IH]; cbn [insert_longest]; [by apply Forall2_cons_2|]. pose proof H2 as [_ Hn2]. rewrite Hn, Hn2.
  destruct (_ >? _); [|by constructor]. constructor; [done|]. by constructor.
Qed.

Lemma sorted_alike set items items' m : Forall2 alike items items' -> getSortedIndexes set (MkIndex items m) = getSortedIndexes set (MkIndex items' m).
Proof.
  intros Ha. unfold getSortedIndexes. cbn [compress_index].
  assert (Forall2 (fun a b => fst a = fst b /\ alike (snd a) (snd b)) (indexed items) (indexed items')) as Hi.
  { unfold indexed. rewrite <- (Forall2_length _ _ _ Ha). generalize 0%nat. induction Ha as [|a b l k Hab _ IH]; intros n; [constructor|]. cbn. constructor; [done|]. apply IH. }
  assert (Forall2 (fun a b => fst a = fst b /\ alike (snd a) (snd b))
    (foldr insert_longest [] (filter (fun e => Dns.index (snd e) ∈ set) (indexed items))) (foldr insert_longest [] (filter (fun e => Dns.index (snd e) ∈ set) (indexed items')))) as Hs.
  { induction Hi as [|a b l k [H1 H2] _ IH]; [constructor|]. destruct (decide (Dns.index (snd a) ∈ set)) as [Hd|Hd].
    - rewrite !filter_cons_True by (first [done|by rewrite <- (proj1 H2)]). cbn [foldr]. by apply insert_alike.
    - rewrite !filter_cons_False by (first [done|by rewrite <- (proj1 H2)]). exact IH. }
  induction Hs as [|a b l k [H1 _] _ IH]; [done|]. cbn [map]. by rewrite H1, IH.
Qed.

Lemma updatePos_alike ks : forall offset first nm items, Forall2 alike items (updatePos ks offset first nm items).
Proof.
  induction ks as [|i ks IH]; intros offset first nm items; cbn [updatePos]; [by apply Forall_Forall2_diag, Forall_true|].
  destruct (items !! i) as [item|] eqn:E; [|by apply Forall_Forall2_diag, Forall_true]. destruct (negb _); [by apply Forall_Forall2_diag, Forall_true|]. cbv zeta.
  set (item' := MkCompressIndex _ _ _). assert (Forall2 alike items (<[i:=item']> items)) as H1.
  { rewrite <- (list_insert_id items i item E) at 1. apply Forall2_insert; [by apply Forall_Forall2_diag, Forall_true|done]. }
  eapply Forall2_trans; [|exact H1|apply IH]. intros a b c [] []. split; congruence.
Qed.

(** A position that is not in the list keeps its entry. *)
Lemma updatePos_other ks : forall offset first nm items i, ~ In i ks -> updatePos ks offset first nm items !! i = items !! i.
Proof.
  induction ks as [|k ks IH]; intros offset first nm items i Hi; cbn [updatePos]; [done|]. destruct (items !! k) as [item|] eqn:E; [|done].
  destruct (negb _); [done|]. cbv zeta. rewrite IH by (intros H; apply Hi; by right). apply list_lookup_insert_ne. intros ->. apply Hi. by left.
Qed.

Lemma cached_words_fresh ks ws items : forall i, Forall (fun k => exists item, items !! k = Some item /\ Dns.pos item = 0) ks -> length ws = (i + length ks)%nat ->
  cached_words ks ws i items = Val ((drop i ws ≫= (fun w => u8 (zlen w) :: w)) ++ [0]).
Proof.
  induction ks as [|k ks IH]; intros i Hi Hl; cbn [cached_words length] in *.
  - by rewrite drop_ge by lia.
  - apply Forall_cons in Hi as [(item & E & Hp) Hi]. rewrite E. cbn [of_option]. rewrite bind_Val.
    destruct (lookup_lt_is_Some_2 ws i ltac:(lia)) as [w Hw]. rewrite Hw. cbn [of_option]. rewrite bind_Val, Hp. cbn [Z.eqb].
    rewrite (IH (S i) Hi ltac:(lia)), bind_Val. rewrite (drop_S ws w i Hw), bind_cons. cbn [app]. by rewrite <- app_assoc.
Qed.

(** The index after the name was written at [12]: it is written as a pointer from then on. *)
Definition known_index (nm : bytes) (idx : Index) : Prop :=
  forall offset, encode_name nm offset idx = Val ([192; 12], idx).

Lemma encode_fresh ls idx : labels_ok ls -> fresh_index (hostname ls) (length ls) idx ->
  exists idx', encode_name (hostname ls) 12 idx = Val (wire ls, idx') /\ known_index (hostname ls) idx'.
Proof.
  intros Hls (set & Hm & Hl & Hc). destruct idx as [items mapping]. cbn [compress_mapping compress_index] in *. subst mapping.
  assert (lexcmp (hostname ls) (hostname ls) = 0) as Eq by (by apply lexcmp_eq).
  pose proof (sorted_all set (MkIndex items [(hostname ls, set)])) as Hs. cbn [compress_index] in Hs. specialize (Hs ltac:(eapply Forall_impl; [exact Hc|]; by intros ? [])).
  remember (getSortedIndexes set (MkIndex items [(hostname ls, set)])) as ks eqn:Eis.
  assert (Forall (fun k => exists item, items !! k = Some item /\ Dns.pos item = 0) ks) as Hi.
  { rewrite Hs. apply Forall_seq. intros k Hk. destruct (lookup_lt_is_Some_2 items k ltac:(lia)) as [item E]. exists item. split; [done|].
    rewrite Forall_forall in Hc. apply Hc. by eapply list_elem_of_lookup_2. }
  assert (length ks = length ls) as Hlen by (by rewrite (Permutation_length Hs), length_seq).
  assert (List.NoDup ks) as Hnd by (rewrite Hs; apply seq_NoDup).
  exists (MkIndex (updatePos ks 12 true [] items) [(hostname ls, set)]). split.
  - unfold encode_name. cbn [compress_mapping mfind]. rewrite Eq. cbn [Z.eqb]. unfold Index_encodeWords. cbn [compress_index compress_mapping]. rewrite <- Eis.
    rewrite words_hostname, (cached_words_fresh _ _ _ 0 Hi) by (done || lia). rewrite bind_Val. rewrite drop_0. do 2 f_equal.
    pose proof (encodeWords_hostname ls Hls) as E. unfold encodeWords in E. by rewrite words_hostname in E.
  - intros offset. unfold encode_name. cbn [compress_mapping mfind]. rewrite Eq. cbn [Z.eqb]. unfold Index_encodeWords. cbn [compress_index compress_mapping].
    rewrite <- (sorted_alike set items _ _ (updatePos_alike ks 12 true [] items)), <- Eis. rewrite words_hostname by done. clear Hs Eis.
    destruct ks as [|i ks]; [exfalso; destruct ls; [by apply Hls|done]|]. apply Forall_cons in Hi as [(item & E & Hp) _]. apply NoDup_cons_iff in Hnd as [Hnd _].
    assert (updatePos (i :: ks) 12 true [] items !! i = Some (MkCompressIndex (Dns.index item) (Dns.name item) 12)) as Hi.
    { cbn [updatePos]. rewrite E, Hp. cbn [Z.eqb negb]. rewrite updatePos_other by done. apply list_lookup_insert_eq. by eapply lookup_lt_Some. }
    set (items' := updatePos (i :: ks) 12 true [] items) in *. clearbody items'. cbn [cached_words]. rewrite Hi. cbn [of_option]. rewrite bind_Val.
    destruct ls as [|l ls]; [done|]. cbn [lookup list_lookup of_option]. rewrite bind_Val. cbn [Dns.pos Z.eqb]. rewrite bind_Val.
    cbn [updatePos]. rewrite Hi. cbn [Dns.pos Z.eqb negb]. f_equal.
Qed.
