(* ===== verification/DnsRoundtrip.v ===== *)
(** * Round trips of DNS packages

    What [encode] writes and [decode] reads back: queries without an index, and responses
    whose records all have the name of the question. *)

From S2P Require Import Prelude Text Cells OrdMap Words Endian Dns DnsNames.
From stdpp Require Import gmap.
Local Open Scope Z_scope.

(** ** What is written *)

Definition question_bytes (nm : bytes) (q : Question) : bytes := nm ++ be16 (q_type q) ++ be16 (q_class q).
Definition answer_rest (a : Answer) : bytes := be16 (a_type a) ++ be16 (a_class a) ++ be32_ (a_ttl a) ++ be16 (a_data_length a) ++ a_data a.
Definition answer_bytes (nm : bytes) (a : Answer) : bytes := nm ++ answer_rest a.
Definition head_bytes (p : DnsPackage) : bytes :=
  be16 (id p) ++ be16 (flags p) ++ be16 (u16 (zlen (questions p))) ++ be16 (u16 (zlen (answers p))) ++
  be16 (u16 (zlen (authorities p))) ++ be16 (u16 (zlen (additionals p))).

Lemma head_zlen p : zlen (head_bytes p) = 12.
Proof. unfold head_bytes. by rewrite !zlen_app, !be16_zlen. Qed.

Lemma put_room max base len P R data : max <> 0 -> 0 <= zlen data <= max - len -> max - len < 2 ^ 64 -> base + len = zlen P -> zlen data <= zlen R ->
  put max base len (P ++ R) data = Val (Some ((P ++ data) ++ zdrop (zlen data) R, len + zlen data)).
Proof.
  intros Hm Hd Hw Hp Hr. unfold put. rewrite (proj2 (Z.eqb_neq max 0)) by done. rewrite wrap_small by (unfold is_u; lia).
  rewrite (proj2 (Z.ltb_ge _ _)) by lia. by rewrite memcpy_at.
Qed.

(** Two pieces in a row. *)
Lemma pieces_app (P a b R : bytes) : zlen a + zlen b <= zlen R -> ((P ++ a) ++ b) ++ zdrop (zlen b) (zdrop (zlen a) R) = (P ++ a ++ b) ++ zdrop (zlen (a ++ b)) R.
Proof.
  intros H. pose proof (zlen_nonneg a). pose proof (zlen_nonneg b). rewrite zdrop_zdrop, zlen_app by lia. by rewrite <- !app_assoc.
Qed.

Section Room.
Context (max base : Z) (Hmax : max < 2 ^ 63).

Lemma encodeQuestions_step q qs nm idx idx' len P R :
  encode_name (q_name q) (len + base) idx = Val (nm, idx') -> 0 <= len -> len + zlen (question_bytes nm q) <= max -> base + len = zlen P -> zlen (question_bytes nm q) <= zlen R ->
  encodeQuestions (q :: qs) max base len (P ++ R) idx =
  encodeQuestions qs max base (len + zlen (question_bytes nm q)) ((P ++ question_bytes nm q) ++ zdrop (zlen (question_bytes nm q)) R) idx'.
Proof.
  intros En Hl Hm Hp Hr. unfold question_bytes in *. set (r := be16 _ ++ be16 _) in *. assert (zlen r = 4) as H4 by (subst r; by rewrite zlen_app, !be16_zlen).
  rewrite zlen_app in *. pose proof (zlen_nonneg nm). cbn [encodeQuestions]. rewrite En, bind_Val, put_room by lia. rewrite bind_Val. cbn iota. fold r.
  rewrite put_room, bind_Val by (rewrite ?zlen_app, ?zlen_zdrop; lia). rewrite pieces_app by lia. rewrite zlen_app. f_equal; lia.
Qed.

Lemma encodeAnswers_step a l nm idx idx' len P R :
  encode_name (a_name a) (len + base) idx = Val (nm, idx') -> zlen (a_data a) = a_data_length a ->
  0 <= len -> len + zlen (answer_bytes nm a) <= max -> base + len = zlen P -> zlen (answer_bytes nm a) <= zlen R ->
  encodeAnswers (a :: l) max base len (P ++ R) idx =
  encodeAnswers l max base (len + zlen (answer_bytes nm a)) ((P ++ answer_bytes nm a) ++ zdrop (zlen (answer_bytes nm a)) R) idx'.
Proof.
  intros En Hd Hl Hm Hp Hr. unfold answer_bytes in *. assert (zlen (answer_rest a) = 10 + a_data_length a) as H10.
  { unfold answer_rest. rewrite !zlen_app, !be16_zlen, be32_zlen. lia. }
  rewrite zlen_app in *. pose proof (zlen_nonneg nm). pose proof (zlen_nonneg (a_data a)). cbn [encodeAnswers]. rewrite En, bind_Val, put_room by lia. rewrite bind_Val. cbn iota.
  rewrite (proj2 (Z.eqb_neq max 0)) by lia. rewrite wrap_small by (unfold is_u; lia). rewrite (proj2 (Z.ltb_ge _ _)) by lia.
  pose proof (memread_at [] (a_data a) [] 0 (a_data_length a) eq_refl ltac:(lia)) as E. cbn [app] in E. rewrite app_nil_r in E. rewrite E, bind_Val. clear E.
  change (be16 (a_type a) ++ _) with (answer_rest a). rewrite put_room, bind_Val by (rewrite ?zlen_app, ?zlen_zdrop; lia). rewrite pieces_app by lia. rewrite zlen_app. f_equal; lia.
Qed.

(** Names that are written the same way wherever they are. *)
Lemma encodeQuestions_all (nmf : Question -> bytes) idx qs : Forall (fun q => forall off, encode_name (q_name q) off idx = Val (nmf q, idx)) qs ->
  forall len P R, 0 <= len -> len + zlen (qs ≫= (fun q => question_bytes (nmf q) q)) <= max -> base + len = zlen P -> zlen (qs ≫= (fun q => question_bytes (nmf q) q)) <= zlen R ->
  encodeQuestions qs max base len (P ++ R) idx = Val (true, (P ++ (qs ≫= (fun q => question_bytes (nmf q) q))) ++ zdrop (zlen (qs ≫= (fun q => question_bytes (nmf q) q))) R,
    len + zlen (qs ≫= (fun q => question_bytes (nmf q) q)), idx).
Proof.
  induction 1 as [|q qs Hq _ IH]; intros len P R Hl Hm Hp Hr.
  - cbn [mbind list_bind encodeQuestions]. rewrite app_nil_r, zdrop_0, zlen_nil, Z.add_0_r by (rewrite zlen_nil; lia). done.
  - rewrite bind_cons, zlen_app in *. set (B := qs ≫= _) in *. pose proof (zlen_nonneg B). pose proof (zlen_nonneg (question_bytes (nmf q) q)).
    rewrite (encodeQuestions_step q qs (nmf q) idx idx) by (done || lia). rewrite IH by (rewrite ?zlen_app, ?zlen_zdrop; lia).
    rewrite pieces_app, zlen_app by lia. do 3 f_equal. lia.
Qed.

Lemma encodeAnswers_all nm idx l : Forall (fun a => (forall off, encode_name (a_name a) off idx = Val (nm, idx)) /\ zlen (a_data a) = a_data_length a) l ->
  forall len P R, 0 <= len -> len + zlen (l ≫= answer_bytes nm) <= max -> base + len = zlen P -> zlen (l ≫= answer_bytes nm) <= zlen R ->
  encodeAnswers l max base len (P ++ R) idx = Val (true, (P ++ (l ≫= answer_bytes nm)) ++ zdrop (zlen (l ≫= answer_bytes nm)) R, len + zlen (l ≫= answer_bytes nm), idx).
Proof.
  induction 1 as [|a l [Ha Hd] _ IH]; intros len P R Hl Hm Hp Hr.
  - cbn [mbind list_bind encodeAnswers]. rewrite app_nil_r, zdrop_0, zlen_nil, Z.add_0_r by (rewrite zlen_nil; lia). done.
  - rewrite bind_cons, zlen_app in *. set (B := l ≫= _) in *. pose proof (zlen_nonneg B). pose proof (zlen_nonneg (answer_bytes nm a)).
    rewrite (encodeAnswers_step a l nm idx idx) by (done || lia). rewrite IH by (rewrite ?zlen_app, ?zlen_zdrop; lia).
    rewrite pieces_app, zlen_app by lia. do 3 f_equal. lia.
Qed.
End Room.

(** The sections one after another. *)
Lemma encode_sections p buf max idx idx' Bq nm :
  let Ban := answers p ≫= answer_bytes nm in let Bns := authorities p ≫= answer_bytes nm in let Bar := additionals p ≫= answer_bytes nm in
  (forall M P R, M < 2 ^ 63 -> zlen P = 12 -> zlen Bq <= M -> zlen Bq <= zlen R -> encodeQuestions (questions p) M 12 0 (P ++ R) idx = Val (true, (P ++ Bq) ++ zdrop (zlen Bq) R, zlen Bq, idx')) ->
  Forall (fun a => (forall off, encode_name (a_name a) off idx' = Val (nm, idx')) /\ zlen (a_data a) = a_data_length a) (answers p ++ authorities p ++ additionals p) ->
  12 + zlen (Bq ++ Ban ++ Bns ++ Bar) <= max < 2 ^ 63 -> max <= zlen buf ->
  exists rest, Dns.encode p buf max idx = Val (true, head_bytes p ++ Bq ++ Ban ++ Bns ++ Bar ++ rest, 12 + zlen (Bq ++ Ban ++ Bns), idx') /\
    12 + zlen (Bq ++ Ban ++ Bns ++ Bar) + zlen rest = zlen buf.
Proof.
  intros Ban Bns Bar HQ HA Hmax Hbuf. apply Forall_app in HA as [HA1 HA]. apply Forall_app in HA as [HA2 HA3]. rewrite !zlen_app in *.
  pose proof (zlen_nonneg Bq). pose proof (zlen_nonneg Ban). pose proof (zlen_nonneg Bns). pose proof (zlen_nonneg Bar).
  unfold Dns.encode, room, clearPos. rewrite (proj2 (Z.eqb_neq max 0)), (proj2 (Z.ltb_ge max 12)) by lia. cbn [negb andb]. cbv zeta.
  pose proof (memcpy_at [] buf (head_bytes p) 0 eq_refl ltac:(rewrite head_zlen; lia)) as E. cbn [app] in E. unfold head_bytes at 1 in E. rewrite E, bind_Val. clear E.
  assert (forall n, 0 <= n <= max -> u64 (max - n) = max - n) as Hu by (intros n Hn; apply wrap_small; unfold is_u; lia).
  rewrite head_zlen, (Hu 12) by lia. assert (zlen (head_bytes p) = 12) as Hh by apply head_zlen. assert (zlen (zdrop 12 buf) = zlen buf - 12) as Hz by (apply zlen_zdrop; lia).
  rewrite HQ by lia. rewrite bind_Val. cbn [negb]. rewrite Hu by lia.
  rewrite (encodeAnswers_all (max - (12 + zlen Bq)) _ ltac:(lia) nm idx' _ HA1); fold Ban; [|lia|lia|rewrite zlen_app; lia|rewrite zlen_zdrop; lia]. rewrite bind_Val. cbn [negb]. rewrite Hu by lia.
  rewrite (encodeAnswers_all (max - (12 + zlen Bq + (0 + zlen Ban))) _ ltac:(lia) nm idx' _ HA2); fold Bns; [|lia|lia|rewrite !zlen_app; lia|rewrite !zlen_zdrop; rewrite ?zlen_zdrop; lia]. rewrite bind_Val. cbn [negb]. rewrite Hu by lia.
  rewrite (encodeAnswers_all (max - (12 + zlen Bq + (0 + zlen Ban) + (0 + zlen Bns))) _ ltac:(lia) nm idx' _ HA3); fold Bar; [|lia|lia|rewrite !zlen_app; lia|rewrite !zlen_zdrop; rewrite ?zlen_zdrop; rewrite ?zlen_zdrop; lia]. rewrite bind_Val.
  eexists. split; [rewrite <- !app_assoc; do 3 f_equal; lia|]. rewrite !zdrop_zdrop by lia. rewrite zlen_zdrop by lia. lia.
Qed.

(** ** Reading it back *)

(** A question by the labels of its name. *)
Definition question (q : list bytes * Z * Z) : Question := let '(ls, t, c) := q in MkQuestion (hostname ls) t c.
Definition query_ok (q : list bytes * Z * Z) : Prop := let '(ls, t, c) := q in labels_ok ls /\ is_u 16 t /\ is_u 16 c.
Definition query_bytes (q : list bytes * Z * Z) : bytes := question_bytes (wire (fst (fst q))) (question q).

Lemma wire_zlen ls : zlen (wire ls) = zlen (wire_labels ls) + 1.
Proof. unfold wire. by rewrite zlen_app. Qed.

Lemma wire_longer ls : zlen ls <= zlen (wire_labels ls).
Proof.
  induction ls as [|l ls IH]; [done|]. rewrite wire_labels_cons, !zlen_cons, zlen_app. pose proof (zlen_nonneg l). lia.
Qed.

Lemma hostname_nonempty ls : labels_ok ls -> hostname ls <> [].
Proof. intros [Hne Hls]. unfold hostname. rewrite <- dotted_join. destruct Hls as [|l ls (Hl & _) _]; [done|]. by destruct l. Qed.

Lemma decodeQuestions_spec qs : Forall query_ok qs -> forall mem L pos fuel, has mem pos (qs ≫= query_bytes) -> 0 <= pos -> pos + zlen (qs ≫= query_bytes) <= L ->
  L < 2 ^ 16 -> (Z.to_nat L < fuel)%nat ->
  decodeQuestions fuel (length qs) mem L pos = Val (Some (map question qs, pos + zlen (qs ≫= query_bytes))).
Proof.
  induction 1 as [|[[ls t] c] qs (Hls & Ht & Hc) _ IH]; intros mem L pos fuel Hm Hp HL Hmax Hf; cbn [length decodeQuestions map].
  - cbn [mbind list_bind]. by rewrite zlen_nil, Z.add_0_r.
  - rewrite bind_cons, zlen_app in *. set (B := qs ≫= _) in *. pose proof (zlen_nonneg B). apply has_app in Hm as [Hq HB]. unfold query_bytes, question_bytes in Hq. cbn [fst] in Hq.
    assert (zlen (query_bytes (ls, t, c)) = zlen (wire ls) + 4) as Hz by (unfold query_bytes, question_bytes; by rewrite !zlen_app, !be16_zlen). rewrite Hz in *.
    pose proof (wire_zlen ls). pose proof (wire_longer ls). unfold zlen in H1 at 1. pose proof (zlen_nonneg (wire_labels ls)).
    apply has_app in Hq as [Hn Hq]. apply has_app in Hq as [Hq1 Hq2]. rewrite be16_zlen in Hq2. cbn [question q_type q_class] in Hq1, Hq2.
    rewrite (decode_name ls) by (done || lia). rewrite bind_Val. rewrite bool_decide_eq_false_2 by by apply hostname_nonempty.
    assert (pos + zlen (wire_labels ls) + 1 = pos + zlen (wire ls)) as -> by lia. assert (pos + zlen (wire_labels ls) + 3 = pos + zlen (wire ls) + 2) as -> by lia.
    rewrite (has_read16 _ _ _ Ht Hq1), bind_Val, (has_read16 _ _ _ Hc Hq2), bind_Val.
    replace (pos + zlen (wire_labels ls) + 5) with (pos + (zlen (wire ls) + 4)) by lia. rewrite IH by (done || lia). rewrite bind_Val. cbn [question].
    do 3 f_equal. lia.
Qed.

(** A record whose fields fit. *)
Definition answer_ok (nm : bytes) (a : Answer) : Prop :=
  a_name a = nm /\ is_u 16 (a_type a) /\ is_u 16 (a_class a) /\ is_u 32 (a_ttl a) /\ is_u 16 (a_data_length a) /\ zlen (a_data a) = a_data_length a.

Lemma decodeAnswers_spec ls l : labels_ok ls -> Forall (answer_ok (hostname ls)) l -> forall mem L pos fuel,
  (l <> [] -> has mem 12 (wire ls) /\ 12 + zlen (wire ls) <= L) -> has mem pos (l ≫= answer_bytes [192; 12]) -> 0 <= pos -> pos + zlen (l ≫= answer_bytes [192; 12]) <= L ->
  L < 2 ^ 16 -> (Z.to_nat L < fuel)%nat ->
  decodeAnswers fuel (length l) mem L pos = Val (Some (l, pos + zlen (l ≫= answer_bytes [192; 12]))).
Proof.
  intros Hls. induction 1 as [|a l (Hn & Ht & Hc & Htl & Hdl & Hd) _ IH]; intros mem L pos fuel Hw Hm Hp HL Hmax Hf; cbn [length decodeAnswers].
  - cbn [mbind list_bind]. by rewrite zlen_nil, Z.add_0_r.
  - destruct (Hw ltac:(done)) as [Hwm HwL]. rewrite bind_cons, zlen_app in *. set (B := l ≫= _) in *. pose proof (zlen_nonneg B). apply has_app in Hm as [Ha HB]. pose proof (zlen_nonneg (a_data a)).
    assert (zlen (answer_bytes [192; 12] a) = 12 + a_data_length a) as Hz.
    { unfold answer_bytes, answer_rest. rewrite !zlen_app, !be16_zlen, be32_zlen. change (zlen [192; 12]) with 2. lia. }
    rewrite Hz in *. unfold answer_bytes, answer_rest in Ha. apply has_app in Ha as [Hptr Ha]. change (zlen [192; 12]) with 2 in Ha.
    apply has_app in Ha as [H1 Ha]. apply has_app in Ha as [H2 Ha]. apply has_app in Ha as [H3 Ha]. apply has_app in Ha as [H4 H5]. rewrite !be16_zlen, ?be32_zlen in *.
    pose proof (wire_zlen ls). pose proof (wire_longer ls) as Hlong. unfold zlen in Hlong at 1. pose proof (zlen_nonneg (wire_labels ls)).
    rewrite (decode_pointer ls) by (done || lia). rewrite bind_Val. rewrite bool_decide_eq_false_2 by by apply hostname_nonempty.
    rewrite (proj2 (Z.ltb_ge L _)) by lia. rewrite (has_read16 _ _ _ Ht H1), bind_Val, (has_read16 _ _ _ Hc H2), bind_Val.
    replace (pos + 2 + 2 + 2) with (pos + 2 + 4) in * by lia. rewrite (has_read32 _ _ _ Htl H3), bind_Val. replace (pos + 2 + 4 + 4) with (pos + 2 + 8) in * by lia.
    rewrite (has_read16 _ _ _ Hdl H4), bind_Val. cbv zeta. rewrite (proj2 (Z.ltb_ge L _)) by lia. replace (pos + 2 + 8 + 2) with (pos + 2 + 10) in * by lia.
    rewrite <- Hd at 1. rewrite (has_read _ _ _ H5), bind_Val. replace (pos + 2 + 10 + a_data_length a) with (pos + (12 + a_data_length a)) by lia. rewrite IH by (done || lia).
    rewrite bind_Val. do 2 f_equal. f_equal; [f_equal; rewrite <- Hn; by destruct a|lia].
Qed.

(** Every question and every record takes some bytes. *)
Lemma sections_longer {A} (f : A -> bytes) l : (forall x, 1 <= zlen (f x)) -> zlen l <= zlen (l ≫= f).
Proof. intros Hf. induction l as [|x l IH]; [done|]. rewrite bind_cons, zlen_cons, zlen_app. specialize (Hf x). lia. Qed.

Lemma query_bytes_zlen q : 1 <= zlen (query_bytes q).
Proof. unfold query_bytes, question_bytes. rewrite !zlen_app, !be16_zlen. pose proof (zlen_nonneg (wire (fst (fst q)))). lia. Qed.
Lemma answer_bytes_zlen a : 1 <= zlen (answer_bytes [192; 12] a).
Proof. unfold answer_bytes. rewrite zlen_app. change (zlen [192; 12]) with 2. pose proof (zlen_nonneg (answer_rest a)). lia. Qed.

Lemma read_head p mem : is_u 16 (id p) -> is_u 16 (flags p) -> has mem 0 (head_bytes p) ->
  read16 mem 0 = Val (id p) /\ read16 mem 2 = Val (flags p) /\ read16 mem 4 = Val (u16 (zlen (questions p))) /\ read16 mem 6 = Val (u16 (zlen (answers p))) /\
  read16 mem 8 = Val (u16 (zlen (authorities p))) /\ read16 mem 10 = Val (u16 (zlen (additionals p))).
Proof.
  intros Hi Hf Hm. unfold head_bytes in Hm. apply has_app in Hm as [H1 Hm]. apply has_app in Hm as [H2 Hm]. apply has_app in Hm as [H3 Hm].
  apply has_app in Hm as [H4 Hm]. apply has_app in Hm as [H5 H6]. rewrite !be16_zlen in *.
  repeat split; apply has_read16; done || (apply wrap_range; lia).
Qed.

(** The header with its counts, and the sections. The records are pointers to the name of the first question. *)
Lemma decode_sections i f qs an ns ar mem L fuel ls :
  let p := MkPackage i f (map question qs) an ns ar in let sec l := l ≫= answer_bytes [192; 12] in
  is_u 16 i -> is_u 16 f -> Forall query_ok qs -> labels_ok ls -> Forall (answer_ok (hostname ls)) (an ++ ns ++ ar) ->
  (an ++ ns ++ ar <> [] -> exists t c qs', qs = (ls, t, c) :: qs') ->
  has mem 0 (head_bytes p ++ (qs ≫= query_bytes) ++ sec an ++ sec ns ++ sec ar) ->
  12 + zlen ((qs ≫= query_bytes) ++ sec an ++ sec ns ++ sec ar) <= L -> L < 2 ^ 16 -> (Z.to_nat L < fuel)%nat ->
  Dns.decode fuel mem L = Val (Some p).
Proof.
  intros p sec Hi Hf Hqs Hls Ha Hfirst Hm HL Hmax Hfuel. rewrite !zlen_app in HL. apply has_app in Hm as [Hh Hm]. rewrite head_zlen in Hm.
  pose proof Hm as Hq. apply has_app in Hm as [Hm0 Hm]. apply has_app in Hm as [Hm1 Hm]. apply has_app in Hm as [Hm2 Hm3].
  change (0 + 12) with 12 in *. pose proof (zlen_nonneg (qs ≫= query_bytes)). pose proof (zlen_nonneg (sec an)). pose proof (zlen_nonneg (sec ns)). pose proof (zlen_nonneg (sec ar)).
  assert (an ++ ns ++ ar <> [] -> has mem 12 (wire ls) /\ 12 + zlen (wire ls) <= L) as Hw.
  { intros Hne. destruct (Hfirst Hne) as (t & c & qs' & ->). rewrite bind_cons, zlen_app in HL. rewrite bind_cons, <- !app_assoc in Hq. unfold query_bytes at 1, question_bytes in Hq.
    rewrite <- !app_assoc in Hq. apply has_app in Hq as [Hq _]. split; [done|]. unfold query_bytes at 1, question_bytes in HL. rewrite zlen_app in HL.
    pose proof (zlen_nonneg (be16 (q_type (question (ls, t, c))) ++ be16 (q_class (question (ls, t, c))))). pose proof (zlen_nonneg (qs' ≫= query_bytes)). cbn [fst] in HL. lia. }
  pose proof (sections_longer query_bytes qs query_bytes_zlen). pose proof (sections_longer (answer_bytes [192; 12]) an answer_bytes_zlen) as Nan.
  pose proof (sections_longer (answer_bytes [192; 12]) ns answer_bytes_zlen) as Nns. pose proof (sections_longer (answer_bytes [192; 12]) ar answer_bytes_zlen) as Nar.
  fold (sec an) in Nan. fold (sec ns) in Nns. fold (sec ar) in Nar. pose proof (zlen_nonneg qs). pose proof (zlen_nonneg an). pose proof (zlen_nonneg ns). pose proof (zlen_nonneg ar).
  destruct (read_head p mem Hi Hf Hh) as (R1 & R2 & R3 & R4 & R5 & R6). subst p. cbn [id flags questions answers authorities additionals] in *.
  assert (zlen (map question qs) = zlen qs) as Hlen by (unfold zlen; by rewrite length_map). rewrite Hlen, wrap_small in R3 by (unfold is_u; lia).
  rewrite wrap_small in R4, R5, R6 by (unfold is_u; lia). apply Forall_app in Ha as [Ha1 Ha]. apply Forall_app in Ha as [Ha2 Ha3].
  assert (forall {A} (l : list A), Z.to_nat (zlen l) = length l) as Hnat by (intros; unfold zlen; lia).
  unfold Dns.decode. rewrite (proj2 (Z.ltb_ge L 12)) by lia. rewrite R1, bind_Val, R2, bind_Val, R3, bind_Val, R4, bind_Val, R5, bind_Val, R6, bind_Val, !Hnat.
  rewrite (decodeQuestions_spec qs) by (done || lia). rewrite bind_Val.
  assert (forall l, Forall (answer_ok (hostname ls)) l -> (l <> [] -> an ++ ns ++ ar <> []) -> forall pos, has mem pos (sec l) -> 0 <= pos -> pos + zlen (sec l) <= L ->
    decodeAnswers fuel (length l) mem L pos = Val (Some (l, pos + zlen (sec l)))) as Hdec.
  { intros l Hl Hne pos Hpos H0' HL'. apply (decodeAnswers_spec ls); [done|done|intros Hl'; by apply Hw, Hne|done..]. }
  rewrite (Hdec an), bind_Val by (done || lia || (intros; by destruct an)). rewrite (Hdec ns), bind_Val by (done || lia || (intros; by destruct an, ns)).
  rewrite (Hdec ar), bind_Val by (done || lia || (intros; by destruct an, ns, ar)). done.
Qed.

(** ** Queries and responses *)

Abbreviation records l := (l ≫= answer_bytes [192; 12]) (only parsing).

Lemma zlen_one (q : list bytes * Z * Z) : zlen ([q] ≫= query_bytes) = zlen (query_bytes q).
Proof. cbn [mbind list_bind]. by rewrite app_nil_r. Qed.

(** Without an index every name is written in full. *)
Lemma encode_query i f qs buf max : Forall query_ok qs -> 12 + zlen (qs ≫= query_bytes) <= max < 2 ^ 63 -> max <= zlen buf ->
  let p := MkPackage i f (map question qs) [] [] [] in
  exists rest, Dns.encode p buf max no_index = Val (true, head_bytes p ++ (qs ≫= query_bytes) ++ rest, 12 + zlen (qs ≫= query_bytes), no_index) /\
    12 + zlen (qs ≫= query_bytes) + zlen rest = zlen buf.
Proof.
  intros Hqs Hmax Hbuf p.
  assert (forall M P R, M < 2 ^ 63 -> zlen P = 12 -> zlen (qs ≫= query_bytes) <= M -> zlen (qs ≫= query_bytes) <= zlen R ->
    encodeQuestions (questions p) M 12 0 (P ++ R) no_index = Val (true, (P ++ (qs ≫= query_bytes)) ++ zdrop (zlen (qs ≫= query_bytes)) R, zlen (qs ≫= query_bytes), no_index)) as HQ.
  { intros M P R HM HP HB HR.
    assert ((map question qs) ≫= (fun q => question_bytes (encodeWords (q_name q)) q) = qs ≫= query_bytes) as E.
    { clear -Hqs. induction Hqs as [|[[ls t] c] qs (Hls & _) _ IH]; [done|]. cbn [map]. rewrite !bind_cons, IH. f_equal. unfold query_bytes. cbn [fst question q_name].
      by rewrite encodeWords_hostname. }
    pose proof (encodeQuestions_all M 12 HM (fun q => encodeWords (q_name q)) no_index (map question qs)) as Ha. cbn beta in Ha. rewrite E in Ha. cbn [questions p].
    rewrite (Ha ltac:(apply Forall_true; intros; done) 0 P R); (done || lia). }
  destruct (encode_sections p buf max no_index no_index (qs ≫= query_bytes) [192; 12] HQ) as (rest & E & Hr).
  - constructor.
  - cbn [p answers authorities additionals mbind list_bind]. by rewrite app_nil_r.
  - done.
  - cbn [p answers authorities additionals mbind list_bind] in *. rewrite !app_nil_r in *. cbn [app] in E. by exists rest.
Qed.

(** The index of a response: the name of the question is written in full once. *)
Lemma response_index i f q an ns ar : query_ok q -> let ls := fst (fst q) in Forall (answer_ok (hostname ls)) (an ++ ns ++ ar) ->
  exists idx, encode_name (hostname ls) 12 (buildIndex (MkPackage i f [question q] an ns ar)) = Val (wire ls, idx) /\ known_index (hostname ls) idx.
Proof.
  destruct q as [[ls t] c]. intros (Hls & _ & _) ls' Ha. subst ls'. cbn [fst] in *. apply encode_fresh; [done|].
  apply (buildIndex_same ls _ (length (an ++ ns ++ ar)) Hls). cbn [questions answers authorities additionals map question q_name app repeat]. f_equal. rewrite <- !map_app.
  clear -Ha. induction Ha as [|a l (Hn & _) _ IH]; [done|]. cbn [map length repeat]. by rewrite Hn, IH.
Qed.

(** Its records are written as pointers. *)
Lemma records_known nm idx l : known_index nm idx -> Forall (answer_ok nm) l ->
  Forall (fun a => (forall off, encode_name (a_name a) off idx = Val ([192; 12], idx)) /\ zlen (a_data a) = a_data_length a) l.
Proof. intros Hk Hl. eapply Forall_impl; [exact Hl|]. intros a (Hn & _ & _ & _ & _ & Hd). split; [|done]. intros off. by rewrite Hn. Qed.

(** With the index of the package the records point to the question. *)
Lemma encode_response i f q an ns ar buf max : query_ok q -> let ls := fst (fst q) in Forall (answer_ok (hostname ls)) (an ++ ns ++ ar) ->
  let p := MkPackage i f [question q] an ns ar in
  12 + zlen (query_bytes q ++ records an ++ records ns ++ records ar) <= max < 2 ^ 63 -> max <= zlen buf ->
  exists rest idx, Dns.encode p buf max (buildIndex p) =
      Val (true, head_bytes p ++ query_bytes q ++ records an ++ records ns ++ records ar ++ rest, 12 + zlen (query_bytes q ++ records an ++ records ns), idx) /\
    known_index (hostname ls) idx /\ 12 + zlen (query_bytes q ++ records an ++ records ns ++ records ar) + zlen rest = zlen buf.
Proof.
  intros Hq ls Ha p Hmax Hbuf. destruct q as [[ls' t] c]. cbn [fst] in ls. subst ls. destruct Hq as (Hls & Ht & Hc).
  destruct (response_index i f (ls', t, c) an ns ar (conj Hls (conj Ht Hc)) Ha) as (idx & Ei & Hk). cbn [fst] in Ei, Hk.
  destruct (encode_sections p buf max (buildIndex p) idx (query_bytes (ls', t, c)) [192; 12]) as (rest & E & Hr).
  - intros M P R HM HP HB HR. pose proof (encodeQuestions_step M 12 HM (question (ls', t, c)) [] (wire ls') (buildIndex p) idx 0 P R Ei) as Hs.
    fold (query_bytes (ls', t, c)) in Hs. change (questions p) with [question (ls', t, c)]. rewrite Hs by (done || lia). done.
  - cbn [p answers authorities additionals]. by apply (records_known (hostname ls')).
  - done.
  - done.
  - exists rest, idx. done.
Qed.

(** C11: A response with one question, whose records all have the name of the question, is read back: encoding it with its
    index succeeds whenever the buffer has room, every record's name is a pointer to the question, and decoding the written bytes
    gives the package, whatever the buffer held before. The length that [encode] announces leaves out the additional records. *)
Theorem dns_response_roundtrip i f q an ns ar buf max fuel : query_ok q -> Forall (answer_ok (hostname (fst (fst q)))) (an ++ ns ++ ar) ->
  is_u 16 i -> is_u 16 f -> let p := MkPackage i f [question q] an ns ar in
  12 + zlen (query_bytes q ++ records an ++ records ns ++ records ar) <= max < 2 ^ 16 -> max <= zlen buf -> (Z.to_nat max < fuel)%nat ->
  exists mem len idx, Dns.encode p buf max (buildIndex p) = Val (true, mem, len, idx) /\ len <= max /\ Dns.decode fuel mem (len + zlen (records ar)) = Val (Some p).
Proof.
  intros Hq Ha Hi Hf p Hmax Hbuf Hfuel. destruct (encode_response i f q an ns ar buf max Hq Ha) as (rest & idx & E & _ & Hr); [fold p; lia|done|].
  eexists _, _, _. split; [exact E|]. pose proof (zlen_nonneg (records ar)). rewrite !zlen_app in *. split; [lia|]. destruct q as [[ls t] c]. cbn [fst] in Ha.
  apply (decode_sections i f [(ls, t, c)] an ns ar _ _ fuel ls); try done.
  - by repeat constructor; apply Hq.
  - apply Hq.
  - by exists t, c, [].
  - cbn [mbind list_bind]. rewrite app_nil_r. exists [], rest. split; [|done]. cbn [app]. by rewrite <- !app_assoc.
  - rewrite !zlen_app, zlen_one. lia.
  - lia.
  - lia.
Qed.

(** ** The length first, the package then *)

Lemma put_count base len mem data : put 0 base len mem data = Val (Some (mem, len + zlen data)).
Proof. reflexivity. Qed.

Lemma encodeAnswers_count nm idx base mem l : Forall (fun a => (forall off, encode_name (a_name a) off idx = Val (nm, idx)) /\ zlen (a_data a) = a_data_length a) l ->
  forall len, encodeAnswers l 0 base len mem idx = Val (true, mem, len + zlen (l ≫= answer_bytes nm), idx).
Proof.
  induction 1 as [|a l [Hn Hd] _ IH]; intros len; cbn [encodeAnswers].
  - cbn [mbind list_bind]. by rewrite zlen_nil, Z.add_0_r.
  - rewrite Hn, bind_Val, put_count, bind_Val. change (0 =? 0) with true. cbn iota. rewrite IH, bind_cons, zlen_app. do 3 f_equal.
    unfold answer_bytes, answer_rest. rewrite !zlen_app, !be16_zlen, be32_zlen. lia.
Qed.

Lemma encode_count i f q an ns ar : query_ok q -> let ls := fst (fst q) in Forall (answer_ok (hostname ls)) (an ++ ns ++ ar) ->
  let p := MkPackage i f [question q] an ns ar in
  exists idx, Dns.encode p [] 0 (buildIndex p) = Val (true, [], 12 + zlen (query_bytes q ++ records an ++ records ns), idx) /\ known_index (hostname ls) idx.
Proof.
  intros Hq ls Ha p. destruct q as [[ls' t] c]. cbn [fst] in ls. subst ls. destruct Hq as (Hls & Ht & Hc).
  destruct (response_index i f (ls', t, c) an ns ar (conj Hls (conj Ht Hc)) Ha) as (idx & Ei & Hk). cbn [fst] in Ei, Hk. fold p in Ei. set (idx0 := buildIndex p) in *. exists idx. split; [|done].
  assert (Forall (fun a => (forall off, encode_name (a_name a) off idx = Val ([192; 12], idx)) /\ zlen (a_data a) = a_data_length a) (an ++ ns ++ ar)) as Hr.
  { by apply (records_known (hostname ls')). }
  apply Forall_app in Hr as [H1 Hr]. apply Forall_app in Hr as [H2 H3].
  unfold Dns.encode, clearPos, room. change (0 =? 0) with true. cbn [negb andb]. rewrite bind_Val. cbv zeta. cbn [p questions answers authorities additionals encodeQuestions question q_name q_type q_class].
  change (0 + 12) with 12. rewrite Ei, bind_Val, put_count, bind_Val. cbn iota. rewrite put_count, bind_Val. cbn iota. rewrite bind_Val. cbn [negb].
  rewrite (encodeAnswers_count _ _ _ _ _ H1), bind_Val. cbn [negb]. rewrite (encodeAnswers_count _ _ _ _ _ H2), bind_Val. cbn [negb].
  rewrite (encodeAnswers_count _ _ _ _ _ H3), bind_Val. do 3 f_equal. unfold query_bytes, question_bytes. cbn [fst question q_type q_class]. rewrite !zlen_app. lia.
Qed.

(** Decoding a question that is a pointer to itself. *)
Lemma decode_question_self p mem L : is_u 16 (id p) -> is_u 16 (flags p) -> length (questions p) = 1%nat -> has mem 0 (head_bytes p ++ [192; 12]) -> 12 <= L ->
  forall fuel, Dns.decode fuel mem L = Undef.
Proof.
  intros Hi Hf Hq Hm HL fuel. apply has_app in Hm as [Hh Hp]. rewrite head_zlen in Hp. destruct (read_head p mem Hi Hf Hh) as (R1 & R2 & R3 & R4 & R5 & R6).
  unfold Dns.decode. rewrite (proj2 (Z.ltb_ge L 12)) by lia. rewrite R1, bind_Val, R2, bind_Val, R3, bind_Val, R4, bind_Val, R5, bind_Val, R6, bind_Val.
  assert (zlen (questions p) = 1) as -> by (unfold zlen; by rewrite Hq). change (Z.to_nat (u16 1)) with 1%nat. cbn [decodeQuestions]. by rewrite decode_self.
Qed.

(** C38: The way to encode that the header documents, a first call without a buffer for the length and a second one with the
    same index, fails: the positions of the first call are never cleared, so the name of the question is written as a
    pointer to itself, and [decode] does not end on the result. *)
Theorem dns_two_pass_diverges i f q an ns ar buf max : query_ok q -> Forall (answer_ok (hostname (fst (fst q)))) (an ++ ns ++ ar) -> is_u 16 i -> is_u 16 f ->
  let p := MkPackage i f [question q] an ns ar in
  12 + zlen (query_bytes q ++ records an ++ records ns ++ records ar) <= max < 2 ^ 63 -> max <= zlen buf ->
  exists len idx mem len' idx', Dns.encode p [] 0 (buildIndex p) = Val (true, [], len, idx) /\ Dns.encode p buf max idx = Val (true, mem, len', idx') /\
    forall fuel, Dns.decode fuel mem len' = Undef.
Proof.
  intros Hq Ha Hi Hf p Hmax Hbuf. destruct (encode_count i f q an ns ar Hq Ha) as (idx & E & Hk). fold p in E. destruct q as [[ls t] c]. cbn [fst] in *.
  pose proof (wire_zlen ls) as Hw. pose proof (wire_longer ls) as Hw2. assert (1 <= zlen ls) as Hw3.
  { destruct Hq as ([Hne _] & _). destruct ls as [|l ls]; [done|]. rewrite zlen_cons. pose proof (zlen_nonneg ls). lia. }
  set (Bq := question_bytes [192; 12] (question (ls, t, c))).
  assert (zlen Bq <= zlen (query_bytes (ls, t, c))) as HBq.
  { unfold Bq, query_bytes, question_bytes. cbn [fst]. rewrite !zlen_app. change (zlen [192; 12]) with 2. lia. }
  destruct (encode_sections p buf max idx idx Bq [192; 12]) as (rest & E2 & Hr).
  - intros M P R HM HP HB HR. change (questions p) with [question (ls, t, c)]. rewrite (encodeQuestions_step M 12 HM (question (ls, t, c)) [] [192; 12] idx idx 0 P R (Hk _)) by (done || lia). done.
  - cbn [p answers authorities additionals]. by apply (records_known (hostname ls)).
  - cbn [p answers authorities additionals]. rewrite !zlen_app in *. pose proof (zlen_nonneg Bq). lia.
  - done.
  - eexists _, _, _, _, _. split; [exact E|]. split; [exact E2|]. intros fuel. apply (decode_question_self p); [done..| |].
    + exists [], (be16 t ++ be16 c ++ (records (answers p) ++ records (authorities p) ++ records (additionals p) ++ rest)). split; [|done]. unfold Bq, question_bytes. cbn [app question q_type q_class].
      by rewrite <- !app_assoc.
    + rewrite !zlen_app. pose proof (zlen_nonneg Bq). pose proof (zlen_nonneg (records (answers p))). pose proof (zlen_nonneg (records (authorities p))). lia.
Qed.

(** Two addresses, and a record of another kind. *)
Abbreviation sample_query := ([str "www"; str "example"; str "com"], 1, 1).
Abbreviation sample_answers := [MkAnswer (str "www.example.com") 1 1 114514 4 [93; 184; 216; 34]; MkAnswer (str "www.example.com") 28 1 60 2 [0; 255]].

Lemma sample_query_ok : query_ok sample_query.
Proof.
  split; [split; [done|]|split; split; lia].
  repeat (constructor; [split_and!; [done|vm_compute; reflexivity|vm_compute; intuition discriminate|vm_compute; intuition discriminate]|]). constructor.
Qed.
Lemma sample_answers_ok : Forall (answer_ok (hostname (fst (fst sample_query)))) (sample_answers ++ [] ++ []).
Proof. repeat constructor; done || lia. Qed.

Lemma dns_response_roundtrip_witness : exists mem len idx,
  Dns.encode (MkPackage 4660 33152 [question sample_query] sample_answers [] []) (repeat 7 200) 120 (buildIndex (MkPackage 4660 33152 [question sample_query] sample_answers [] [])) = Val (true, mem, len, idx) /\
  len <= 120 /\ Dns.decode 200 mem (len + 0) = Val (Some (MkPackage 4660 33152 [question sample_query] sample_answers [] [])).
Proof.
  apply (dns_response_roundtrip 4660 33152 sample_query sample_answers [] [] (repeat 7 200) 120 200); [exact sample_query_ok|exact sample_answers_ok|split; lia|split; lia| | |lia].
  - vm_compute. split; [discriminate|reflexivity].
  - vm_compute. discriminate.
Defined.

Lemma dns_two_pass_diverges_witness : exists len idx mem len' idx',
  Dns.encode (MkPackage 4660 256 [question sample_query] sample_answers [] []) [] 0 (buildIndex (MkPackage 4660 256 [question sample_query] sample_answers [] [])) = Val (true, [], len, idx) /\
  Dns.encode (MkPackage 4660 256 [question sample_query] sample_answers [] []) (repeat 0 100) 100 idx = Val (true, mem, len', idx') /\ forall fuel, Dns.decode fuel mem len' = Undef.
Proof.
  apply (dns_two_pass_diverges 4660 256 sample_query sample_answers [] [] (repeat 0 100) 100); [exact sample_query_ok|exact sample_answers_ok|split; lia|split; lia| |].
  - vm_compute. split; [discriminate|reflexivity].
  - vm_compute. discriminate.
Defined.

(** ** Edges *)

(** With an index a second question that shares the end of its name is misread: the decoder passes a byte after a pointer. *)
Example shared_suffix : let p := MkPackage 1 256 [question sample_query; question ([str "mail"; str "example"; str "com"], 1, 1)] [] [] [] in
  match Dns.encode p (malloc 100) 100 (buildIndex p) with Val (_, mem, len, _) => Dns.decode 50 mem len | Undef => Undef end =
  Val (Some (MkPackage 1 256 [question sample_query; MkQuestion (str "mail.example.com") 256 511] [] [] [])).
Proof. vm_compute. reflexivity. Qed.

(** The name of a record that is no pointer is misread. *)
Example record_in_full : let p := MkPackage 1 256 [] [MkAnswer (str "a.b") 1 1 60 0 []] [] [] in
  match Dns.encode p (malloc 100) 100 no_index with Val (_, mem, len, _) => Dns.decode 50 mem len | Undef => Undef end = Val None.
Proof. vm_compute. reflexivity. Qed.

(** A buffer that the answers fill exactly is overrun by what follows. *)
Example full_buffer : let p := MkPackage 1 256 [] [MkAnswer (str "a.b") 1 1 60 0 []] [MkAnswer (str "c") 1 1 60 0 []] [MkAnswer (str "d") 1 1 60 0 []] in
  Dns.encode p (malloc 27) 27 no_index = Undef.
Proof. vm_compute. reflexivity. Qed.

(** The flags in their fields and back. *)
Lemma flags_roundtrip f : 0 <= opcode f < 16 -> 0 <= z f < 8 -> 0 <= rcode f < 16 -> Flags_decode (Flags_encode f) = f.
Proof.
  destruct f as [b1 o b2 b3 b4 b5 zz r]. cbn [opcode z rcode]. intros Ho Hz Hr.
  assert (forallb (fun o => forallb (fun zz => forallb (fun r => forallb (fun b => let '(b1, b2, b3, b4, b5) := b in
    let f' := Flags_decode (Flags_encode (MkFlags b1 o b2 b3 b4 b5 zz r)) in
    eqb (qr f') b1 && (opcode f' =? o) && eqb (aa f') b2 && eqb (Dns.tc f') b3 && eqb (rd f') b4 && eqb (ra f') b5 && (z f' =? zz) && (rcode f' =? r))
    (list_prod (list_prod (list_prod (list_prod [true; false] [true; false]) [true; false]) [true; false]) [true; false])) (seqZ 0 16)) (seqZ 0 8)) (seqZ 0 16) = true) as H
    by (vm_compute; reflexivity).
  pose proof (forallb_seqZ _ _ H o Ho) as H1. pose proof (forallb_seqZ _ _ H1 zz Hz) as H2. pose proof (forallb_seqZ _ _ H2 r Hr) as H3.
  rewrite forallb_forall in H3. specialize (H3 (b1, b2, b3, b4, b5) ltac:(destruct b1, b2, b3, b4, b5; vm_compute; tauto)). cbv beta iota zeta in H3.
  clear H H1 H2. revert H3. generalize (Flags_decode (Flags_encode (MkFlags b1 o b2 b3 b4 b5 zz r))). intros [c1 o' c2 c3 c4 c5 z' r'] H3. cbn [qr opcode aa Dns.tc rd ra z rcode] in H3. repeat rewrite andb_true_iff in H3.
  destruct H3 as (((((((E1 & E2) & E3) & E4) & E5) & E6) & E7) & E8). apply eqb_prop in E1, E3, E4, E5, E6. zbool. subst. reflexivity.
Qed.
