(* ===== verification/DnsService.v ===== *)
(** * The DNS resolver and the DNS service

    Models [sese/net/dns/Resolver.cpp] and [sese/internal/service/dns/DnsService.cpp]. What a
    name server answers to a datagram is a parameter of the resolver, what the resolver finds upstream one of the service;
    one turn of the service's loop is a function of the datagram it received. At the end both are put together. *)

From S2P Require Import Prelude Text Cells OrdMap Words Endian Dns DnsNames DnsRoundtrip.
From stdpp Require Import gmap.
Local Open Scope Z_scope.

(*@ sese/net/dns/Config.h 26-26 TYPE_A *)
Definition TYPE_A : Z := 1.
(*@ sese/net/dns/Config.h 41-41 TYPE_AAAA *)
Definition TYPE_AAAA : Z := 28.
(*@ sese/net/dns/Config.h 46-46 CLASS_IN *)
Definition CLASS_IN : Z := 1.

(** The bytes of [sin_addr] and [sin6_addr]. *)
Inductive IPAddress := IPv4 (addr : bytes) | IPv6 (addr : bytes).

(** ** The resolver *)

(*@ sese/net/dns/Resolver.cpp 90-109 Resolver::resolve *)
Fixpoint addresses (type : Z) (answers : list Answer) : outcome (list IPAddress) :=
  match answers with
  | [] => Val []
  | answer :: answers =>
      if negb (a_type answer =? type) || (a_data_length answer =? 0) || negb (a_class answer =? CLASS_IN) then addresses type answers
      else if (a_type answer =? TYPE_A) && (a_data_length answer =? 4) then
        d ← memread (a_data answer) 0 4; result ← addresses type answers; Val (IPv4 d :: result)
      else if (a_type answer =? TYPE_AAAA) || (a_data_length answer =? 16) then
        d ← memread (a_data answer) 0 16; result ← addresses type answers; Val (IPv6 d :: result)
      else addresses type answers
  end.

(** What is left in a buffer of 512 bytes when a datagram is received. *)
Definition receive (datagram buffer : bytes) : bytes * Z := (ztake 512 datagram ++ zdrop (zlen (ztake 512 datagram)) buffer, zlen (ztake 512 datagram)).

Section Resolver.
Context {Server : Type} (exchange : Server -> bytes -> option bytes).

(*@ sese/net/dns/Resolver.cpp 52-111 Resolver::resolve *)
(** [id] is the number that is drawn. *)
Definition resolve_at (fuel : nat) (name_server : Server) (id : Z) (hostname : bytes) (type : Z) : outcome (list IPAddress) :=
  let send_package := MkPackage id (Flags_encode (MkFlags false 0 false false false false 0 0)) [MkQuestion hostname type CLASS_IN] [] [] [] in
  '(ok, buffer, length, _) ← Dns.encode send_package (malloc 512) 512 no_index;
  if negb ok then Val []
  else
    sent ← memread buffer 0 length;
    match exchange name_server sent with
    | None => Val []
    | Some datagram =>
        let '(buffer, length) := receive datagram buffer in
        p ← Dns.decode fuel buffer length;
        match p with
        | None => Val []
        | Some package => if negb (Dns.id package =? id) then Val [] else addresses type (Dns.answers package)
        end
    end.

(*@ sese/net/dns/Resolver.cpp 42-50 Resolver::resolve *)
(** [draw] is the sequence of drawn numbers. *)
Fixpoint resolve (fuel : nat) (name_servers : list Server) (draw : nat -> Z) (hostname : bytes) (type : Z) : outcome (list IPAddress) :=
  match name_servers with
  | [] => Val []
  | name_server :: name_servers =>
      addresses ← resolve_at fuel name_server (draw 0%nat) hostname type;
      match addresses with [] => resolve fuel name_servers (fun n => draw (S n)) hostname type | _ => Val addresses end
  end.
End Resolver.

(** ** The service *)

(*@ sese/internal/service/dns/DnsService.h 37-43 DnsService *)
Record Service := MkService { buffer : bytes; v4map : list (bytes * bytes); v6map : list (bytes * bytes) }.

(*@ sese/internal/service/dns/DnsService.cpp 59-65 DnsService::addRecord *)
Definition addRecord (name : bytes) (address : IPAddress) (s : Service) : Service :=
  match address with
  | IPv6 a => MkService (buffer s) (v4map s) (mset lexcmp name a (v6map s))
  | IPv4 a => MkService (buffer s) (mset lexcmp name a (v4map s)) (v6map s)
  end.

(** An answer to a question. *)
Definition answer_to (q : Question) (address : IPAddress) : Answer :=
  match address with
  | IPv4 a => MkAnswer (q_name q) (q_type q) (q_class q) 114514 4 a
  | IPv6 a => MkAnswer (q_name q) (q_type q) (q_class q) 114514 16 a
  end.

(** The record for a question, of the type it asks for. *)
Definition record_of (s : Service) (q : Question) : option IPAddress :=
  if negb (q_class q =? CLASS_IN) then None
  else if q_type q =? TYPE_A then IPv4 <$> mfind lexcmp (q_name q) (v4map s)
  else if q_type q =? TYPE_AAAA then IPv6 <$> mfind lexcmp (q_name q) (v6map s)
  else None.

(** Questions and answers are added to the package to send. *)
Definition add (q : Question) (l : list Answer) (p : DnsPackage) : DnsPackage :=
  MkPackage (id p) (flags p) (questions p ++ [q]) (answers p ++ l) (authorities p) (additionals p).

(*@ sese/internal/service/dns/DnsService.cpp 133-178 DnsService::handleBySelf *)
(** The questions that are left, and the package. *)
Fixpoint handleBySelf (s : Service) (questions : list Question) (send_package : DnsPackage) : list Question * DnsPackage :=
  match questions with
  | [] => ([], send_package)
  | q :: questions =>
      match record_of s q with
      | Some address => handleBySelf s questions (add q [answer_to q address] send_package)
      | None => let '(rest, send_package) := handleBySelf s questions send_package in (q :: rest, send_package)
      end
  end.

Section Service.
Context (upstream : bytes -> Z -> list IPAddress) (callback : option (DnsPackage -> DnsPackage -> bool * DnsPackage * DnsPackage)).

(*@ sese/internal/service/dns/DnsService.cpp 180-227 DnsService::handleByUpstream *)
Fixpoint handleByUpstream (questions : list Question) (send_package : DnsPackage) (s : Service) : list Question * DnsPackage * Service :=
  match questions with
  | [] => ([], send_package, s)
  | q :: questions =>
      match upstream (q_name q) (q_type q) with
      | [] => let '(rest, send_package, s) := handleByUpstream questions send_package s in (q :: rest, send_package, s)
      | ips => handleByUpstream questions (add q (map (answer_to q) ips) send_package) (fold_left (fun s ip => addRecord (q_name q) ip s) ips s)
      end
  end.

(*@ sese/internal/service/dns/DnsService.cpp 87-131 DnsService::handle *)
(** A turn of the loop: the datagram that is sent back, if there is one. *)
Definition handle (fuel : nat) (datagram : bytes) (s : Service) : outcome (option bytes * Service) :=
  let '(buf, length) := receive datagram (buffer s) in
  let s := MkService buf (v4map s) (v6map s) in
  r ← Dns.decode fuel buf length;
  match r with
  | None => Val (None, s)
  | Some recv_package =>
      let send_package := MkPackage (id recv_package) (Flags_encode (MkFlags true 0 false false false false 0 0)) [] [] [] [] in
      let '(handled, recv_package, send_package) :=
        match callback with Some f => f recv_package send_package | None => (false, recv_package, send_package) end in
      if (handled : bool) then
        (* the room is the length of the query, and the result is not looked at *)
        '(_, buf, length, _) ← Dns.encode send_package buf length (buildIndex send_package);
        reply ← memread buf 0 length;
        Val (Some reply, MkService buf (v4map s) (v6map s))
      else
        let '(rest, send_package) := handleBySelf s (questions recv_package) send_package in
        let '(_, send_package, s) := handleByUpstream rest send_package s in
        '(ok, buf, length, _) ← Dns.encode send_package buf 512 (buildIndex send_package);
        let s := MkService buf (v4map s) (v6map s) in
        if negb ok then Val (None, s) else reply ← memread buf 0 length; Val (Some reply, s)
  end.
End Service.

(** ** A client and a service *)

(** What the service knows about a question: its record, or what is found upstream. *)
Definition known (upstream : bytes -> Z -> list IPAddress) (s : Service) (q : Question) : list IPAddress :=
  match record_of s q with Some a => [a] | None => upstream (q_name q) (q_type q) end.

(** The server of a resolver that is a service in some state. *)
Definition served (upstream : bytes -> Z -> list IPAddress) (fuel : nat) (s : Service) (datagram : bytes) : option bytes :=
  match handle upstream None fuel datagram s with Val (Some reply, _) => Some reply | _ => None end.

(** Addresses that an answer of the type can hold. *)
Definition address_ok (type : Z) (a : IPAddress) : Prop :=
  match a with IPv4 b => type = TYPE_A /\ zlen b = 4 | IPv6 b => zlen b = 16 end.

Lemma addresses_back ls type ips : type = TYPE_A \/ type = TYPE_AAAA -> Forall (address_ok type) ips ->
  addresses type (map (answer_to (MkQuestion (hostname ls) type CLASS_IN)) ips) = Val ips.
Proof.
  intros Ht. assert (forall b, memread b 0 (zlen b) = Val b) as Hall.
  { intros b. pose proof (memread_at [] b [] 0 (zlen b) eq_refl eq_refl) as E. by rewrite app_nil_r in E. }
  induction 1 as [|ip ips Hip _ IH]; [done|]. cbn [map]. destruct ip as [b|b]; cbn [answer_to addresses a_type a_data_length a_class a_data address_ok q_name q_type q_class] in *; rewrite (Z.eqb_refl type); cbn [negb orb].
  - destruct Hip as [-> Hb]. change ((4 =? 0) || negb (CLASS_IN =? CLASS_IN)) with false. change ((TYPE_A =? TYPE_A) && (4 =? 4)) with true. cbn iota.
    rewrite <- Hb, Hall, bind_Val. by rewrite IH.
  - change ((16 =? 0) || negb (CLASS_IN =? CLASS_IN)) with false. change (16 =? 4) with false. rewrite andb_false_r, orb_true_r. cbn iota. rewrite <- Hip, Hall, bind_Val. by rewrite IH.
Qed.

Lemma answers_fit ls type ips : is_u 16 type -> Forall (address_ok type) ips -> Forall (answer_ok (hostname ls)) (map (answer_to (MkQuestion (hostname ls) type CLASS_IN)) ips).
Proof.
  intros Ht Hips. apply Forall_map. eapply Forall_impl; [exact Hips|]. intros [b|b] Hb; cbn in Hb |- *; unfold answer_ok; cbn.
  - destruct Hb as [_ Hb]. split_and!; done || lia.
  - split_and!; done || lia.
Qed.

(** The service's package for one question. *)
Definition reply_package (i : Z) (q : list bytes * Z * Z) (ips : list IPAddress) : DnsPackage :=
  MkPackage i (Flags_encode (MkFlags true 0 false false false false 0 0)) (map question (match ips with [] => [] | _ => [q] end)) (map (answer_to (question q)) ips) [] [].

Lemma served_package upstream s i q : match handleBySelf s [question q] (MkPackage i (Flags_encode (MkFlags true 0 false false false false 0 0)) [] [] [] []) with
  (rest, p) => exists rest' s', handleByUpstream upstream rest p s = (rest', reply_package i q (known upstream s (question q)), s') /\ buffer s' = buffer s end.
Proof.
  unfold known. cbn [handleBySelf]. destruct (record_of s (question q)) as [a|] eqn:E; [by exists [], s|].
  cbn [handleByUpstream]. destruct (upstream (q_name (question q)) (q_type (question q))) as [|ip ips] eqn:Eu; [by exists [question q], s|].
  eexists [], _. split; [done|]. rewrite <- Eu. generalize (upstream (q_name (question q)) (q_type (question q))) as l. clear. intros l. revert s.
  induction l as [|ip l IH]; intros s; [done|]. cbn [fold_left]. rewrite IH. by destruct ip.
Qed.

(** How the package is written. *)
Definition reply_bytes (q : list bytes * Z * Z) (ips : list IPAddress) : bytes :=
  match ips with [] => [] | _ => query_bytes q end ++ (map (answer_to (question q)) ips ≫= answer_bytes [192; 12]).

Lemma reply_encoded i q ips buf : query_ok q -> Forall (answer_ok (hostname (fst (fst q)))) (map (answer_to (question q)) ips) ->
  12 + zlen (reply_bytes q ips) <= 512 -> 512 <= zlen buf -> let p := reply_package i q ips in
  exists rest idx, Dns.encode p buf 512 (buildIndex p) = Val (true, head_bytes p ++ reply_bytes q ips ++ rest, 12 + zlen (reply_bytes q ips), idx) /\
    12 + zlen (reply_bytes q ips) + zlen rest = zlen buf.
Proof.
  intros Hq Ha Hz Hbuf p. destruct ips as [|ip ips].
  - destruct (encode_sections p buf 512 (buildIndex p) (buildIndex p) [] [192; 12]) as (rest & E & Hr); cbn [p reply_package answers authorities additionals map app mbind list_bind] in *.
    + intros M P R HM HP HB HR. cbn. by rewrite app_nil_r, zdrop_0.
    + constructor.
    + split; [done|lia].
    + done.
    + exists rest, (buildIndex p). done.
  - set (l := ip :: ips) in *. destruct (encode_response i (Flags_encode (MkFlags true 0 false false false false 0 0)) q (map (answer_to (question q)) l) [] [] buf 512 Hq) as (rest & idx & E & _ & Hr).
    + by rewrite !app_nil_r.
    + cbn [mbind list_bind]. rewrite !app_nil_r. split; [exact Hz|lia].
    + done.
    + cbn [mbind list_bind] in E, Hr. rewrite !app_nil_r in E, Hr. cbn [app] in E. exists rest, idx. split; [|exact Hr]. unfold reply_bytes. subst l. cbn iota. rewrite <- app_assoc. exact E.
Qed.

Lemma received data buf : zlen data <= 512 -> zlen buf = 512 -> exists rest, receive data buf = (data ++ rest, zlen data) /\ zlen (data ++ rest) = 512.
Proof.
  intros Hd Hb. pose proof (zlen_nonneg data). unfold receive. rewrite ztake_ge by lia. eexists. split; [done|]. rewrite zlen_app, zlen_zdrop by lia. lia.
Qed.

(** A package in a buffer, with what comes before in it. *)
Lemma decode_received p qs an fuel ls data rest : p = MkPackage (id p) (flags p) (map question qs) an [] [] -> is_u 16 (id p) -> is_u 16 (flags p) -> Forall query_ok qs -> labels_ok ls ->
  Forall (answer_ok (hostname ls)) an -> (an <> [] -> exists t c qs', qs = (ls, t, c) :: qs') -> data = head_bytes p ++ (qs ≫= query_bytes) ++ (an ≫= answer_bytes [192; 12]) ->
  zlen data <= 512 -> (512 < fuel)%nat -> Dns.decode fuel (data ++ rest) (zlen data) = Val (Some p).
Proof.
  intros Ep Hi Hf Hqs Hls Ha Hfirst -> Hz Hfuel. destruct p as [i f pq pan pns par]. cbn [id flags] in *. injection Ep as -> -> -> ->.
  rewrite !zlen_app, head_zlen in *. apply (decode_sections i f qs an [] [] _ _ fuel ls); rewrite ?app_nil_r; try done.
  - exists [], rest. done.
  - cbn [mbind list_bind]. rewrite ?app_nil_r, ?zlen_app in *. lia.
  - lia.
  - lia.
Qed.

Lemma flags_small b : is_u 16 (Flags_encode (MkFlags b 0 false false false false 0 0)).
Proof. by destruct b; split. Qed.

Lemma serve_query upstream s i q fuel : query_ok q -> is_u 16 i -> let ips := known upstream s (question q) in
  Forall (answer_ok (hostname (fst (fst q)))) (map (answer_to (question q)) ips) -> 12 + zlen (query_bytes q) <= 512 -> 12 + zlen (reply_bytes q ips) <= 512 ->
  zlen (buffer s) = 512 -> (512 < fuel)%nat ->
  let p := MkPackage i (Flags_encode (MkFlags false 0 false false false false 0 0)) [question q] [] [] [] in
  served upstream fuel s (head_bytes p ++ query_bytes q) = Some (head_bytes (reply_package i q ips) ++ reply_bytes q ips).
Proof.
  intros Hq Hi ips Ha Hz1 Hz2 Hbuf Hfuel p. unfold served, handle.
  assert (zlen (head_bytes p ++ query_bytes q) = 12 + zlen (query_bytes q)) as Hlen by (by rewrite zlen_app, head_zlen).
  destruct (received (head_bytes p ++ query_bytes q) (buffer s)) as (rest & -> & Hrest); [lia|done|].
  rewrite (decode_received p [q] [] fuel (fst (fst q))); [|done|done|apply flags_small|by constructor|by destruct q as [[ls t] c]; apply Hq|constructor|done|cbn [mbind list_bind]; by rewrite !app_nil_r|lia|done].
  rewrite bind_Val. cbn iota. change (id p) with i. change (questions p) with [question q].
  set (s1 := MkService _ (v4map s) (v6map s)). assert (known upstream s1 (question q) = ips) as Hknown by done.
  pose proof (served_package upstream s1 i q) as Hs. destruct (handleBySelf s1 _ _) as [rest1 p1]. destruct Hs as (rest' & s' & -> & Hbs). rewrite Hknown.
  destruct (reply_encoded i q ips (head_bytes p ++ query_bytes q ++ rest) Hq Ha Hz2) as (rest2 & idx & E & Hr); [rewrite app_assoc; lia|].
  rewrite <- app_assoc, E, bind_Val. cbn [negb]. set (r := reply_package i q ips) in *.
  rewrite (app_assoc (head_bytes r)). pose proof (memread_at [] (head_bytes r ++ reply_bytes q ips) rest2 0 (12 + zlen (reply_bytes q ips)) eq_refl) as Em. cbn [app] in Em.
  rewrite Em by (by rewrite zlen_app, head_zlen). done.
Qed.

(** C10: The resolver and the service together: asked for the addresses of a host name, the resolver gets exactly those that
    the service has, its record of the type that is asked for or else what it finds upstream, as long as question and
    answers fit into the 512 bytes of a datagram; the service's buffer may hold anything. *)
Theorem dns_resolve_served {Server} (server : Server) upstream s i ls type fuel : labels_ok ls -> type = TYPE_A \/ type = TYPE_AAAA -> 0 <= i < 256 ->
  let q := (ls, type, CLASS_IN) in let ips := known upstream s (question q) in
  Forall (address_ok type) ips -> 12 + zlen (query_bytes q) <= 512 -> 12 + zlen (reply_bytes q ips) <= 512 -> zlen (buffer s) = 512 -> (512 < fuel)%nat ->
  resolve_at (fun _ => served upstream fuel s) fuel server i (hostname ls) type = Val ips.
Proof.
  intros Hls Ht Hi q ips Hips Hz1 Hz2 Hbuf Hfuel.
  assert (is_u 16 type) as Htype by (destruct Ht as [->| ->]; by split). assert (query_ok q) as Hq by (split_and!; done). assert (is_u 16 i) as Hi16 by (unfold is_u; lia).
  pose proof (answers_fit ls type ips Htype Hips) as Ha. unfold resolve_at. set (f := Flags_encode _).
  destruct (encode_query i f [q] (malloc 512) 512) as (rest & E & Hr); [by constructor|rewrite zlen_one; lia|by rewrite zlen_malloc|].
  change (map question [q]) with [question q] in E. rewrite zlen_one in *. cbn [mbind list_bind] in E. rewrite app_nil_r in E. change (MkQuestion (hostname ls) type CLASS_IN) with (question q). rewrite E, bind_Val. cbn [negb].
  set (p := MkPackage i f [question q] [] [] []) in *. rewrite (app_assoc (head_bytes p)).
  pose proof (memread_at [] (head_bytes p ++ query_bytes q) rest 0 (12 + zlen (query_bytes q)) eq_refl) as Em. cbn [app] in Em. rewrite Em by (by rewrite zlen_app, head_zlen). rewrite bind_Val.
  pose proof (serve_query upstream s i q fuel Hq Hi16 Ha Hz1 Hz2 Hbuf Hfuel) as Es. cbv zeta in Es. fold f in Es. fold p in Es. fold ips in Es. rewrite Es. clear Es.
  set (r := reply_package i q ips).
  assert (zlen (head_bytes r ++ reply_bytes q ips) = 12 + zlen (reply_bytes q ips)) as Hlen by (by rewrite zlen_app, head_zlen).
  destruct (received (head_bytes r ++ reply_bytes q ips) ((head_bytes p ++ query_bytes q) ++ rest)) as (rest2 & -> & Hrest2); [lia|rewrite !zlen_app, head_zlen, zlen_malloc in *; lia|].
  rewrite (decode_received r (match ips with [] => [] | _ => [q] end) (map (answer_to (question q)) ips) fuel ls).
  - rewrite bind_Val. change (Dns.id r) with i. rewrite Z.eqb_refl. cbn [negb]. by apply addresses_back.
  - done.
  - done.
  - apply flags_small.
  - destruct ips; [constructor|]. constructor; [done|constructor].
  - done.
  - done.
  - intros Hne. destruct ips as [|ip l]; [done|]. by exists type, CLASS_IN, [].
  - f_equal. unfold reply_bytes. destruct ips; [done|]. cbn [mbind list_bind]. by rewrite app_nil_r.
  - lia.
  - done.
Qed.

(** A record, and two addresses found upstream. *)
Abbreviation sample_labels := [str "www"; str "example"; str "com"].
Abbreviation sample_service := (addRecord (str "www.example.com") (IPv4 [127; 0; 0; 1]) (MkService (repeat 9 512) [] [])).
Lemma sample_labels_ok : labels_ok sample_labels.
Proof. exact (proj1 sample_query_ok). Qed.

Lemma dns_resolve_served_witness :
  resolve_at (fun _ => served (fun _ _ => []) 600 sample_service) 600 tt 77 (hostname sample_labels) TYPE_A = Val [IPv4 [127; 0; 0; 1]] /\
  resolve_at (fun _ => served (fun _ _ => [IPv6 (repeat 1 16); IPv6 (repeat 2 16)]) 600 sample_service) 600 tt 77 (hostname sample_labels) TYPE_AAAA = Val [IPv6 (repeat 1 16); IPv6 (repeat 2 16)].
Proof.
  split.
  - apply (dns_resolve_served tt (fun _ _ => []) sample_service 77 sample_labels TYPE_A 600); [exact sample_labels_ok|by left|lia| | | |done|lia].
    + vm_compute. repeat constructor.
    + vm_compute. discriminate.
    + vm_compute. discriminate.
  - apply (dns_resolve_served tt (fun _ _ => [IPv6 (repeat 1 16); IPv6 (repeat 2 16)]) sample_service 77 sample_labels TYPE_AAAA 600); [exact sample_labels_ok|by right|lia| | | |done|lia].
    + vm_compute. repeat constructor.
    + vm_compute. discriminate.
    + vm_compute. discriminate.
Defined.

(** ** Edges *)

(** A record of four bytes for an IPv6 address is read as sixteen. *)
Lemma short_address name c ttl d answers : zlen d = 4 -> c = CLASS_IN -> addresses TYPE_AAAA (MkAnswer name TYPE_AAAA c ttl 4 d :: answers) = Undef.
Proof.
  intros Hd ->. cbn [addresses a_type a_data_length a_class a_data]. change (negb (TYPE_AAAA =? TYPE_AAAA) || (4 =? 0) || negb (CLASS_IN =? CLASS_IN)) with false.
  change ((TYPE_AAAA =? TYPE_A) && (4 =? 4)) with false. change ((TYPE_AAAA =? TYPE_AAAA) || (4 =? 16)) with true. cbn iota.
  unfold memread. rewrite (proj2 (Z.leb_gt (0 + 16) _)) by lia. by rewrite andb_false_r.
Qed.

(** Of the addresses found upstream the last one is remembered. *)
Lemma upstream_remembered upstream q p s ip ips : upstream (q_name q) (q_type q) = ip :: ips -> List.last (ip :: ips) ip = IPv4 [1; 2; 3; 4] ->
  exists rest p' s', handleByUpstream upstream [q] p s = (rest, p', s') /\ mfind lexcmp (q_name q) (v4map s') = Some [1; 2; 3; 4].
Proof.
  intros E Hl. cbn [handleByUpstream]. rewrite E. eexists [], _, _. split; [done|].
  rewrite (app_removelast_last ip (l := ip :: ips)), fold_left_app, Hl by done. cbn [fold_left addRecord v4map].
  apply mfind_mset_self.
Qed.
