(* ===== verification/Http2Frame.v ===== *)
(** * HTTP/2 frames

    Models [sese/net/http/Http2Frame.h] and [Http2Frame.cpp], and how
    [HttpConnectionEx::readFrameHeader] reads the nine bytes of a frame header. *)

From S2P Require Import Prelude Words.

(*@ sese/net/http/Http2Frame.h 30-30 FRAME_FLAG_END_STREAM *)
Definition FRAME_FLAG_END_STREAM : Z := 0x1.
(*@ sese/net/http/Http2Frame.h 31-31 FRAME_FLAG_END_HEADERS *)
Definition FRAME_FLAG_END_HEADERS : Z := 0x4.
(*@ sese/net/http/Http2Frame.h 32-32 FRAME_FLAG_PADDED *)
Definition FRAME_FLAG_PADDED : Z := 0x8.
(*@ sese/net/http/Http2Frame.h 33-33 FRAME_FLAG_PRIORITY *)
Definition FRAME_FLAG_PRIORITY : Z := 0x20.

(*@ sese/net/http/Http2Frame.h 35-35 FRAME_TYPE_DATA *)
Definition FRAME_TYPE_DATA : Z := 0x0.
(*@ sese/net/http/Http2Frame.h 36-36 FRAME_TYPE_HEADERS *)
Definition FRAME_TYPE_HEADERS : Z := 0x1.
(*@ sese/net/http/Http2Frame.h 37-37 FRAME_TYPE_PRIORITY *)
Definition FRAME_TYPE_PRIORITY : Z := 0x2.
(*@ sese/net/http/Http2Frame.h 38-38 FRAME_TYPE_RST_STREAM *)
Definition FRAME_TYPE_RST_STREAM : Z := 0x3.
(*@ sese/net/http/Http2Frame.h 39-39 FRAME_TYPE_SETTINGS *)
Definition FRAME_TYPE_SETTINGS : Z := 0x4.
(*@ sese/net/http/Http2Frame.h 40-40 FRAME_TYPE_PUSH_PROMISE *)
Definition FRAME_TYPE_PUSH_PROMISE : Z := 0x5.
(*@ sese/net/http/Http2Frame.h 41-41 FRAME_TYPE_PING *)
Definition FRAME_TYPE_PING : Z := 0x6.
(*@ sese/net/http/Http2Frame.h 42-42 FRAME_TYPE_GOAWAY *)
Definition FRAME_TYPE_GOAWAY : Z := 0x7.
(*@ sese/net/http/Http2Frame.h 43-43 FRAME_TYPE_WINDOW_UPDATE *)
Definition FRAME_TYPE_WINDOW_UPDATE : Z := 0x8.
(*@ sese/net/http/Http2Frame.h 44-44 FRAME_TYPE_CONTINUATION *)
Definition FRAME_TYPE_CONTINUATION : Z := 0x9.
(*@ sese/net/http/Http2Frame.h 45-45 FRAME_TYPE_ALTSVC *)
Definition FRAME_TYPE_ALTSVC : Z := 0xa.
(*@ sese/net/http/Http2Frame.h 46-46 FRAME_TYPE_ORIGIN *)
Definition FRAME_TYPE_ORIGIN : Z := 0xc.

(*@ sese/net/http/Http2Frame.h 48-48 GOAWAY_NO_ERROR *)
Definition GOAWAY_NO_ERROR : Z := 0x0.

(*@ sese/net/http/Http2Frame.h 49-49 GOAWAY_PROTOCOL_ERROR *)
Definition GOAWAY_PROTOCOL_ERROR : Z := 0x1.

(*@ sese/net/http/Http2Frame.h 50-50 GOAWAY_INTERNAL_ERROR *)
Definition GOAWAY_INTERNAL_ERROR : Z := 0x2.

(*@ sese/net/http/Http2Frame.h 51-51 GOAWAY_FLOW_CONTROL_ERROR *)
Definition GOAWAY_FLOW_CONTROL_ERROR : Z := 0x3.

(*@ sese/net/http/Http2Frame.h 52-52 GOAWAY_SETTINGS_TIMEOUT *)
Definition GOAWAY_SETTINGS_TIMEOUT : Z := 0x4.

(*@ sese/net/http/Http2Frame.h 53-53 GOAWAY_STREAM_CLOSED *)
Definition GOAWAY_STREAM_CLOSED : Z := 0x5.

(*@ sese/net/http/Http2Frame.h 54-54 GOAWAY_FRAME_SIZE_ERROR *)
Definition GOAWAY_FRAME_SIZE_ERROR : Z := 0x6.

(*@ sese/net/http/Http2Frame.h 55-55 GOAWAY_REFUSED_STREAM *)
Definition GOAWAY_REFUSED_STREAM : Z := 0x7.

(*@ sese/net/http/Http2Frame.h 56-56 GOAWAY_CANCEL *)
Definition GOAWAY_CANCEL : Z := 0x8.

(*@ sese/net/http/Http2Frame.h 57-57 GOAWAY_COMPRESSION_ERROR *)
Definition GOAWAY_COMPRESSION_ERROR : Z := 0x9.

(*@ sese/net/http/Http2Frame.h 58-58 GOAWAY_CONNECT_ERROR *)
Definition GOAWAY_CONNECT_ERROR : Z := 0xa.

(*@ sese/net/http/Http2Frame.h 59-59 GOAWAY_ENHANCE_YOUR_CALM *)
Definition GOAWAY_ENHANCE_YOUR_CALM : Z := 0xb.

(*@ sese/net/http/Http2Frame.h 60-60 GOAWAY_INADEQUATE_SECURITY *)
Definition GOAWAY_INADEQUATE_SECURITY : Z := 0xc.

(*@ sese/net/http/Http2Frame.h 61-61 GOAWAY_HTTP_1_1_REQUIRED *)
Definition GOAWAY_HTTP_1_1_REQUIRED : Z := 0xd.

(*@ sese/net/http/Http2Frame.h 63-63 SETTINGS_HEADER_TABLE_SIZE *)
Definition SETTINGS_HEADER_TABLE_SIZE : Z := 0x1.

(*@ sese/net/http/Http2Frame.h 64-64 SETTINGS_ENABLE_PUSH *)
Definition SETTINGS_ENABLE_PUSH : Z := 0x2.

(*@ sese/net/http/Http2Frame.h 65-65 SETTINGS_MAX_CONCURRENT_STREAMS *)
Definition SETTINGS_MAX_CONCURRENT_STREAMS : Z := 0x3.

(*@ sese/net/http/Http2Frame.h 66-66 SETTINGS_INITIAL_WINDOW_SIZE *)
Definition SETTINGS_INITIAL_WINDOW_SIZE : Z := 0x4.

(*@ sese/net/http/Http2Frame.h 67-67 SETTINGS_MAX_FRAME_SIZE *)
Definition SETTINGS_MAX_FRAME_SIZE : Z := 0x5.
(*@ sese/net/http/Http2Frame.h 68-68 SETTINGS_MAX_HEADER_LIST_SIZE *)
Definition SETTINGS_MAX_HEADER_LIST_SIZE : Z := 0x6.

(*@ sese/net/http/Http2Frame.h 70-70 SETTINGS_FLAGS_ACK *)
Definition SETTINGS_FLAGS_ACK : Z := 0x1.

(*@ sese/net/http/Http2Frame.h 72-72 MAGIC_STRING *)
Definition MAGIC_STRING : bytes :=
  str "PRI * HTTP/2.0" ++ [13; 10; 13; 10] ++ str "SM" ++ [13; 10; 13; 10].

(*@ sese/net/http/Http2Frame.h 75-80 Http2FrameInfo *)
Record Http2FrameInfo := FrameInfo { fr_length : Z; fr_type : Z; fr_flags : Z; fr_ident : Z }.
#[export] Instance Http2FrameInfo_eta : Eta Http2FrameInfo :=
  fun f => FrameInfo (fr_length f) (fr_type f) (fr_flags f) (fr_ident f).
#[export] Instance Http2FrameInfo_eq_dec : EqDecision Http2FrameInfo.
Proof. solve_decision. Defined.

(*@ sese/net/http/Http2Frame.h 83-91 Http2Frame *)
(** The header fields and the memory of the frame. *)
Record Http2Frame := MkFrame { fr_info : Http2FrameInfo; fr_mem : bytes }.
#[export] Instance Http2Frame_eta : Eta Http2Frame := fun f => MkFrame (fr_info f) (fr_mem f).
#[export] Instance Http2Frame_eq_dec : EqDecision Http2Frame.
Proof. solve_decision. Defined.

(*@ sese/net/http/Http2Frame.cpp 20-26 Http2Frame::Http2Frame *)
(** [std::make_unique<char[]>] zeroes the memory. *)
Definition new_frame (frame_size : Z) : Http2Frame :=
  MkFrame (FrameInfo 0 0 0 0) (repeat 0 (Z.to_nat (frame_size + 9))).

(*@ sese/net/http/Http2Frame.cpp 32-34 Http2Frame::getFrameLength *)
Definition getFrameLength (f : Http2Frame) : Z := u32 (fr_length (fr_info f) + 9).

(*@ sese/net/http/Http2Frame.cpp 36-38 Http2Frame::getFrameContentBuffer *)
(** [memcpy(getFrameContentBuffer() + off, data, size)]. *)
Definition write_content (f : Http2Frame) (off : Z) (data : bytes) : outcome Http2Frame :=
  m ← memcpy (fr_mem f) (9 + off) data; Val (f <| fr_mem := m |>).

(*@ sese/net/http/Http2Frame.cpp 44-53 Http2Frame::buildFrameHeader *)
Definition buildFrameHeader (f : Http2Frame) : outcome Http2Frame :=
  let length := be_bytes 4 (fr_length (fr_info f)) in
  let ident := be_bytes 4 (fr_ident (fr_info f)) in
  m ← memcpy (fr_mem f) 0 (zdrop 1 length);
  m ← memcpy m 3 [fr_type (fr_info f)];
  m ← memcpy m 4 [fr_flags (fr_info f)];
  m ← memcpy m 5 ident;
  Val (f <| fr_mem := m |>).

(*@ sese/internal/service/http/HttpConnectionEx.cpp 92-99 HttpConnectionEx::readFrameHeader *)
(** The first nine bytes of the buffer, as a frame header. *)
Definition parse_header (b : bytes) : outcome Http2FrameInfo :=
  match b with
  | l1 :: l2 :: l3 :: ty :: fl :: i0 :: i1 :: i2 :: i3 :: _ =>
      Val (FrameInfo (u32 (be32 0 l1 l2 l3)) ty fl (Z.land (be32 i0 i1 i2 i3) 0x7fffffff))
  | _ => Undef
  end.

(** What goes over the wire: [getFrameLength()] bytes from [getFrameBuffer()]. *)
Definition wire_bytes (f : Http2Frame) : outcome bytes := memread (fr_mem f) 0 (getFrameLength f).

(** ** What a frame is *)

Definition info_ok (i : Http2FrameInfo) : Prop :=
  0 <= fr_length i < 2 ^ 24 /\ is_byte (fr_type i) /\ is_byte (fr_flags i) /\ is_u 31 (fr_ident i).

(** A frame with its header built and a payload. *)
Definition header_bytes (i : Http2FrameInfo) : bytes :=
  zdrop 1 (be_bytes 4 (fr_length i)) ++ [fr_type i] ++ [fr_flags i] ++ be_bytes 4 (fr_ident i).

Lemma header_bytes_zlen i : zlen (header_bytes i) = 9.
Proof. unfold header_bytes. rewrite !zlen_app, zlen_zdrop; unfold zlen; rewrite ?be_bytes_length; cbn; lia. Qed.

Lemma buildFrameHeader_spec i old content : zlen old = 9 ->
  buildFrameHeader (MkFrame i (old ++ content)) = Val (MkFrame i (header_bytes i ++ content)).
Proof.
  intros Ho. unfold buildFrameHeader. cbn [fr_info fr_mem].
  assert (exists o1 o2 o3 o4, old = o1 ++ o2 ++ o3 ++ o4 /\ zlen o1 = 3 /\ zlen o2 = 1 /\ zlen o3 = 1 /\ zlen o4 = 4)
    as (o1 & o2 & o3 & o4 & -> & H1 & H2 & H3 & H4).
  { exists (ztake 3 old), (ztake 1 (zdrop 3 old)), (ztake 1 (zdrop 4 old)), (zdrop 5 old).
    rewrite !zlen_ztake, zlen_zdrop by (rewrite ?zlen_zdrop; lia). repeat split; try lia.
    rewrite <- (ztake_zdrop 3 old) at 1. f_equal. rewrite <- (ztake_zdrop 1 (zdrop 3 old)) at 1.
    rewrite zdrop_zdrop by lia. f_equal. rewrite <- (ztake_zdrop 1 (zdrop _ old)) at 1.
    by rewrite zdrop_zdrop by lia. }
  assert (zlen (zdrop 1 (be_bytes 4 (fr_length i))) = 3) as L1 by (by rewrite zlen_zdrop; unfold zlen; rewrite be_bytes_length).
  assert (zlen (be_bytes 4 (fr_ident i)) = 4) as L4 by (by unfold zlen; rewrite be_bytes_length).
  rewrite <- !app_assoc.
  change (o1 ++ ?r) with ([] ++ o1 ++ r). rewrite memcpy_over, bind_Val by (reflexivity || congruence). cbn [app].
  rewrite memcpy_over, bind_Val by (symmetry; first [exact L1 | exact H2]).
  rewrite (app_assoc _ [fr_type i]), memcpy_over, bind_Val by (rewrite ?zlen_app, ?L1; symmetry; first [exact H3 | reflexivity]).
  rewrite <- (app_assoc _ [fr_type i]), (app_assoc [fr_type i]), (app_assoc _ (_ ++ _)).
  rewrite memcpy_over, bind_Val by (rewrite ?zlen_app, ?L1, ?H4; first [exact L4 | reflexivity]).
  unfold header_bytes. by rewrite <- !app_assoc.
Qed.

Lemma parse_header_bytes i rest : info_ok i -> parse_header (header_bytes i ++ rest) = Val i.
Proof.
  intros (Hl & Ht & Hf & Hi). destruct i as [l t f i]. unfold header_bytes, is_u in *. cbn [fr_length fr_type fr_flags fr_ident] in *.
  rewrite !be_bytes_4. change (zdrop 1 (?a :: ?l)) with l. cbn [app parse_header]. do 2 f_equal.
  - rewrite wrap_small by (unfold is_u, be32; dlia). pose proof (be32_bytes l ltac:(unfold is_u; lia)) as E. etransitivity; [|exact E]. f_equal.
    rewrite (Z.div_small (l / 256 / 256)) by dlia. reflexivity.
  - change 2147483647 with (Z.ones 31). rewrite Z.land_ones, be32_bytes by (unfold is_u; lia).
    apply Z.mod_small. lia.
Qed.

(** A frame that is ready to be sent: what [fr_mem] holds up to [getFrameLength()]. *)
Definition built (f : Http2Frame) (i : Http2FrameInfo) (payload : bytes) : Prop :=
  fr_info f = i /\ zlen payload = fr_length i /\ exists rest, fr_mem f = header_bytes i ++ payload ++ rest.

Lemma built_wire f i payload : built f i payload -> info_ok i -> wire_bytes f = Val (header_bytes i ++ payload).
Proof.
  intros (<- & Hp & rest & Hm) (Hl & _). unfold wire_bytes, getFrameLength.
  rewrite (wrap_small 32) by (unfold is_u; lia). pose proof (header_bytes_zlen (fr_info f)). pose proof (zlen_nonneg rest).
  rewrite memread_Val by (rewrite ?Hm, ?zlen_app; lia). rewrite Hm. unfold slice. f_equal.
  rewrite zdrop_0, app_assoc, ztake_app_le, ztake_ge by (rewrite ?zlen_app; lia). done.
Qed.

(** The memory of a new frame, cut at the header and at the payload's end. *)
Lemma new_frame_mem n k : 0 <= k <= n -> exists h p r,
  fr_mem (new_frame n) = h ++ p ++ r /\ zlen h = 9 /\ zlen p = k /\ zlen r = n - k.
Proof.
  intros Hk. exists (repeat 0 9), (repeat 0 (Z.to_nat k)), (repeat 0 (Z.to_nat (n - k))).
  rewrite !zlen_repeat, !Z2Nat.id by lia. repeat split. unfold new_frame. cbn [fr_mem].
  rewrite <- !repeat_app. f_equal. lia.
Qed.

(** Filling the payload and building the header, in the two orders the code uses. *)
Lemma write_then_build n i payload : info_ok i -> zlen payload = fr_length i -> fr_length i <= n ->
  exists f, (f ← write_content ((new_frame n) <| fr_info := i |>) 0 payload; buildFrameHeader f) = Val f /\
    built f i payload.
Proof.
  intros (Hl & _) Hp Hn. destruct (new_frame_mem n (fr_length i)) as (h & p & r & Hm & Hh & Hpl & _); [lia|].
  unfold write_content. cbn [update fr_info fr_mem]. rewrite Hm.
  rewrite memcpy_over, bind_Val, bind_Val by lia. unfold update. cbn [fr_info fr_mem]. rewrite buildFrameHeader_spec by done.
  eexists. split; [done|]. repeat split; cbn; eauto.
Qed.

Lemma build_then_write n i payload : info_ok i -> zlen payload = fr_length i -> fr_length i <= n ->
  exists f, (f ← buildFrameHeader ((new_frame n) <| fr_info := i |>); write_content f 0 payload) = Val f /\
    built f i payload.
Proof.
  intros (Hl & _) Hp Hn. destruct (new_frame_mem n (fr_length i)) as (h & p & r & Hm & Hh & Hpl & _); [lia|].
  cbn [update fr_info fr_mem]. change ((new_frame n) <| fr_info := i |>) with (MkFrame i (fr_mem (new_frame n))).
  rewrite Hm, buildFrameHeader_spec, bind_Val by done. unfold write_content. cbn [fr_mem].
  rewrite memcpy_over, bind_Val by (rewrite ?header_bytes_zlen; lia).
  eexists. split; [done|]. repeat split; cbn; eauto.
Qed.

(** An HTTP/2 frame that is filled, given its header and sent is the nine bytes of
    its header and then its payload; reading the header back from the wire gives the
    length, the type, the flags and the stream of the frame, whatever follows. *)
Theorem http2_frame_roundtrip (n : Z) (i : Http2FrameInfo) (payload rest : bytes) :
  info_ok i -> zlen payload = fr_length i -> fr_length i <= n ->
  exists f wire, (f ← write_content ((new_frame n) <| fr_info := i |>) 0 payload; buildFrameHeader f) = Val f /\
    wire_bytes f = Val wire /\ parse_header (wire ++ rest) = Val i /\ zdrop 9 (wire ++ rest) = payload ++ rest.
Proof.
  intros Hi Hp Hn. destruct (write_then_build n i payload Hi Hp Hn) as (f & Hf & Hb).
  exists f, (header_bytes i ++ payload). split; [done|]. split; [by apply built_wire|].
  rewrite <- app_assoc. split; [by apply parse_header_bytes|].
  rewrite zdrop_app_ge, header_bytes_zlen, zdrop_0 by (rewrite ?header_bytes_zlen; lia). done.
Qed.

Lemma http2_frame_roundtrip_witness : exists f wire,
  (f ← write_content ((new_frame 16) <| fr_info := FrameInfo 3 1 5 7 |>) 0 [1; 2; 3]; buildFrameHeader f) = Val f /\
  wire_bytes f = Val wire /\ parse_header (wire ++ [9]) = Val (FrameInfo 3 1 5 7) /\ zdrop 9 (wire ++ [9]) = [1; 2; 3; 9].
Proof.
  apply (http2_frame_roundtrip 16 (FrameInfo 3 1 5 7) [1; 2; 3] [9]);
    [repeat split; vm_compute; congruence|reflexivity|vm_compute; congruence].
Defined.
