(* ===== verification/HPack.v ===== *)
(** * HPACK encoding and decoding of header blocks

    Models [sese/net/http/HPackUtil.cpp]. The decoder reads from any stream that
    keeps the laws of [Streams.v]; an encoding function gives the bytes it hands
    to [dest->write], in order (the counts [write] returns are ignored by the
    code), with the size it returns. *)

From S2P Require Import Prelude Streams InputBufferWrapper Text OrdMap DateTime Header DynamicTable Huffman Http2Frame.

(*@ sese/net/http/HPackUtil.cpp 49-49 HPackUtil::REQ_PSEUDO_HEADER *)
Definition REQ_PSEUDO_HEADER : list bytes :=
  map str [":method"; ":scheme"; ":authority"; ":path"]%string.

(*@ sese/net/http/HPackUtil.cpp 54-70 HPackUtil::setHeader *)
Definition setHeader (h : Header) (key value : bytes) : bool * Header :=
  if negb (header_exist h key) then (true, header_set h key value)
  else if bool_decide (key = str ":status") then (false, h)
  else if bool_decide (key ∈ REQ_PSEUDO_HEADER) then (false, h)
  else (true, header_set h key value).

(*@ sese/net/http/HPackUtil.cpp 72-93 HPackUtil::verifyHeader *)
Definition verifyHeader (h : Header) (is_resp : bool) : bool :=
  if is_resp then
    negb (existsb (header_exist h) REQ_PSEUDO_HEADER) && header_exist h (str ":status")
  else
    forallb (header_exist h) REQ_PSEUDO_HEADER && negb (header_exist h (str ":status")).

(** ** Decoding *)

Section Decode.
Context {S : Type} `{InputStream S}.

(*@ sese/net/http/HPackUtil.cpp 409-419 HPackUtil::decodeInteger *)
(** The loop over the continuation bytes. The shift of an [int] by [m >= 32]
    is undefined, so six rounds are all the loop can run: the result is the
    length, or -1, and the value. *)
Fixpoint decodeInteger_loop (fuel : nat) (s : S) (dest m len : Z) : outcome (Z * Z * S) :=
  match fuel with
  | O => Undef
  | Datatypes.S fuel =>
      '(c, data, s) ← stream_read s 1;
      if c >? 0 then
        buf ← of_option (head data);
        if m <? 32 then
          let dest := u32 (dest + swrap 32 (Z.shiftl (Z.land buf 127) m)) in
          if Z.land buf 128 =? 0 then Val (len + 1, dest, s)
          else decodeInteger_loop fuel s dest (m + 7) (len + 1)
        else Undef
      else Val (-1, dest, s)
  end.

(*@ sese/net/http/HPackUtil.cpp 405-423 HPackUtil::decodeInteger *)
Definition decodeInteger (buf : byte) (s : S) (n : Z) : outcome (Z * Z * S) :=
  let TWO_N := u16 (2 ^ n - 1) in
  let dest := Z.land buf TWO_N in
  if dest =? TWO_N then decodeInteger_loop 6 s dest 0 0 else Val (0, dest, s).

(*@ sese/net/http/HPackUtil.cpp 425-453 HPackUtil::decodeString *)
(** The count of the first read is not looked at: at the end of the stream
    [buf] is uninitialised. A plain string ends at its first NUL; [buffer] is all
    zero beyond the data, except when the data fill it. *)
Definition decodeString (s : S) : outcome (Z * bytes * S) :=
  '(_, data, s) ← stream_read s 1;
  buf ← of_option (head data);
  let is_huffman := Z.land buf 128 =? 128 in
  '(l, len, s) ← decodeInteger buf s 7;
  if l =? -1 then Val (-1, [], s)
  else if len >? 65535 then Val (-1, [], s)
  else
    '(c, buffer, s) ← stream_read s len;
    if negb (len =? c) then Val (-1, [], s)
    else if is_huffman then
      match huffman_decode buffer with
      | None => Val (-1, [], s)
      | Some result => Val (1 + l + len, result, s)
      end
    else if (len =? 65535) && negb (existsb (Z.eqb 0) buffer) then Undef
    else Val (1 + l + len, cstr buffer, s).

(** The variables of [decode] and what it holds by reference. *)
(*@ sese/net/http/HPackUtil.cpp 95-105 HPackUtil::decode *)
Record dstate := DState {
  src : S; len : Z; table : DynamicTable.t; header : Header; has_pseudo : bool }.

Definition with_src (d : dstate) (s : S) : dstate :=
  DState s (len d) (table d) (header d) (has_pseudo d).
Definition advance (d : dstate) (l : Z) : dstate :=
  DState (src d) (u64 (len d + l)) (table d) (header d) (has_pseudo d).
Definition with_table (d : dstate) (t : DynamicTable.t) : dstate :=
  DState (src d) (len d) t (header d) (has_pseudo d).
Definition with_header (d : dstate) (h : Header) (p : bool) : dstate :=
  DState (src d) (len d) (table d) h p.

(** One round of the main loop goes on, or returns a code. *)
Inductive round := Go (d : dstate) | Stop (code : Z) (d : dstate).

(*@ sese/net/http/HPackUtil.cpp 206-221 HPackUtil::decode *)
(** The field is stored; the same lines follow every representation. The
    first byte of an empty name does not exist. *)
Definition store_field (d : dstate) (key value : bytes) : outcome round :=
  if strcmpDoNotCase key (str "Cookie") then
    Val (Go (with_header d (header_setCookies (header d) (Some (parseFromCookie value))) (has_pseudo d)))
  else
    match key with
    | [] => Undef
    | c :: _ =>
        if c =? 58 then
          if negb (has_pseudo d) then Val (Stop GOAWAY_COMPRESSION_ERROR d)
          else
            match setHeader (header d) key value with
            | (true, h) => Val (Go (with_header d h (has_pseudo d)))
            | (false, _) => Val (Stop GOAWAY_PROTOCOL_ERROR d)
            end
        else Val (Go (with_header d (header_set (header d) key value) false))
    end.

(*@ sese/net/http/HPackUtil.cpp 112-143 HPackUtil::decode *)
(** An indexed field. *)
Definition decode_case0 (d : dstate) (buf : byte) : outcome round :=
  '(l, index, s) ← decodeInteger buf (src d) 7;
  let d := with_src d s in
  if l =? -1 then Val (Stop GOAWAY_COMPRESSION_ERROR d)
  else
    let d := advance d l in
    if index =? 0 then Val (Stop GOAWAY_COMPRESSION_ERROR d)
    else
      match DynamicTable.get (table d) index with
      | None => Val (Stop GOAWAY_COMPRESSION_ERROR d)
      | Some (k, v) => store_field d k v
      end.

(*@ sese/net/http/HPackUtil.cpp 145-155 HPackUtil::decode *)
(** A change of the table's size. *)
Definition decode_case4 (d : dstate) (buf : byte) (limit : Z) : outcome round :=
  '(l, new_size, s) ← decodeInteger buf (src d) 5;
  let d := with_src d s in
  if l =? -1 then Val (Stop GOAWAY_COMPRESSION_ERROR d)
  else
    let d := advance d l in
    if new_size >? limit then Val (Stop GOAWAY_COMPRESSION_ERROR d)
    else
      t ← DynamicTable.resize (table d) new_size;
      Val (Go (with_table d t)).

(*@ sese/net/http/HPackUtil.cpp 202-204 HPackUtil::decode *)
(** What [set] returns is ignored. *)
Definition store_table (is_store : bool) (t : DynamicTable.t) (key value : bytes) :
    outcome DynamicTable.t :=
  if is_store then '(_, t) ← DynamicTable.set t key value; Val t else Val t.

(*@ sese/net/http/HPackUtil.cpp 195-221 HPackUtil::decode *)
(** The value, once the name is known. *)
Definition decode_value (d : dstate) (is_store : bool) (key : bytes) : outcome round :=
  '(l, value, s) ← decodeString (src d);
  let d := with_src d s in
  if l =? -1 then Val (Stop GOAWAY_COMPRESSION_ERROR d)
  else
    let d := advance d l in
    t ← store_table is_store (table d) key value;
    store_field (with_table d t) key value.

(*@ sese/net/http/HPackUtil.cpp 156-222 HPackUtil::decode *)
(** A literal field, with an indexed or a literal name; [n] is the width of
    the index prefix. *)
Definition decode_literal (d : dstate) (buf : byte) (n : Z) (is_store : bool) : outcome round :=
  '(l, index, s) ← decodeInteger buf (src d) n;
  let d := with_src d s in
  if l =? -1 then Val (Stop GOAWAY_COMPRESSION_ERROR d)
  else
    let d := advance d l in
    if negb (index =? 0) then
      match DynamicTable.get (table d) index with
      | None => Val (Stop GOAWAY_COMPRESSION_ERROR d)
      | Some (key, _) => decode_value d is_store key
      end
    else
      '(l, key, s) ← decodeString (src d);
      let d := with_src d s in
      if l =? -1 then Val (Stop GOAWAY_COMPRESSION_ERROR d)
      else decode_value (advance d l) is_store key.

(*@ sese/net/http/HPackUtil.cpp 107-222 HPackUtil::decode *)
(** The body of the main loop. *)
Definition decode_round (d : dstate) (limit : Z) : outcome round :=
  '(c, data, s) ← stream_read (src d) 1;
  let d := with_src d s in
  if negb (c =? 1) then Val (Stop GOAWAY_COMPRESSION_ERROR d)
  else
    buf ← of_option (head data);
    let d := advance d 1 in
    if negb (Z.land buf 128 =? 0) then decode_case0 d buf
    else if Z.land buf 224 =? 32 then decode_case4 d buf limit
    else if Z.land buf 192 =? 64 then decode_literal d buf 6 true
    else decode_literal d buf 4 false.

(*@ sese/net/http/HPackUtil.cpp 106-228 HPackUtil::decode *)
Fixpoint decode_loop (fuel : nat) (d : dstate) (content_length : Z) (is_resp : bool)
    (limit : Z) : outcome (Z * dstate) :=
  if len d <? content_length then
    match fuel with
    | O => Undef
    | Datatypes.S fuel =>
        r ← decode_round d limit;
        match r with
        | Go d => decode_loop fuel d content_length is_resp limit
        | Stop code d => Val (code, d)
        end
    end
  else Val (if verifyHeader (header d) is_resp then 0 else GOAWAY_PROTOCOL_ERROR, d).

(*@ sese/net/http/HPackUtil.cpp 95-229 HPackUtil::decode *)
(** Every round reads at least one byte, so [content_length] rounds are
    enough. *)
Definition decode (s : S) (content_length : Z) (t : DynamicTable.t) (h : Header)
    (is_resp has_pseudo : bool) (limit : Z) : outcome (Z * dstate) :=
  decode_loop (Z.to_nat content_length) (DState s 0 t h has_pseudo) content_length is_resp limit.
End Decode.

Arguments dstate S : clear implicits.
Arguments round S : clear implicits.

(** ** Encoding *)

(** What an encoding function wrote, and the size it returns. *)
Definition emitted : Type := bytes * Z.

Definition eplus (a b : emitted) : emitted := (fst a ++ fst b, snd a + snd b).

(*@ sese/net/http/HPackUtil.cpp 467-472 HPackUtil::encodeIndexCase0 *)
(** The loop that writes the continuation bytes, and the index left. Ten
    rounds are enough for a [size_t]. *)
Fixpoint continuation (fuel : nat) (index : Z) : bytes * Z :=
  match fuel with
  | O => ([], index)
  | Datatypes.S fuel =>
      if index >=? 128 then
        let '(out, r) := continuation fuel (index / 128) in (index mod 128 + 128 :: out, r)
      else ([], index)
  end.

(*@ sese/net/http/HPackUtil.cpp 455-475 HPackUtil::encodeIndexCase0 *)
Definition encodeIndexCase0 (index : Z) : emitted :=
  let PREFIX := u8 (2 ^ 7 - 1) in
  if index <? PREFIX then ([Z.lor 128 (Z.land (u8 index) 127)], 1)
  else
    let '(out, _) := continuation 10 (index - PREFIX) in
    (Z.lor 128 127 :: out, 1 + zlen out).

(*@ sese/net/http/HPackUtil.cpp 477-500 HPackUtil::encodeIndexCase1 *)
Definition encodeIndexCase1 (index : Z) : emitted :=
  let PREFIX := u8 (2 ^ 6 - 1) in
  if index <? PREFIX then ([Z.lor 64 (Z.land (u8 index) 63)], 1)
  else
    let '(out, index) := continuation 10 (index - PREFIX) in
    (Z.lor 64 63 :: out ++ [u8 index], 1 + zlen out + 1).

(*@ sese/net/http/HPackUtil.cpp 502-525 HPackUtil::encodeIndexCase2 *)
Definition encodeIndexCase2 (index : Z) : emitted :=
  let PREFIX := u8 (2 ^ 4 - 1) in
  if index <? PREFIX then ([Z.lor 0 (Z.land (u8 index) 15)], 1)
  else
    let '(out, index) := continuation 10 (index - PREFIX) in
    (Z.lor 0 15 :: out ++ [u8 index], 1 + zlen out + 1).

(*@ sese/net/http/HPackUtil.cpp 527-550 HPackUtil::encodeIndexCase3 *)
Definition encodeIndexCase3 (index : Z) : emitted :=
  let PREFIX := u8 (2 ^ 4 - 1) in
  if index <? PREFIX then ([Z.lor 16 (Z.land (u8 index) 15)], 1)
  else
    let '(out, index) := continuation 10 (index - PREFIX) in
    (Z.lor 16 15 :: out ++ [u8 index], 1 + zlen out + 1).

(*@ sese/net/http/HPackUtil.cpp 552-609 HPackUtil::encodeString *)
(** The static encoder object is fresh between calls ([huffman_encode_bits]). *)
Definition encodeString (s : bytes) : emitted :=
  let PREFIX := u8 (2 ^ 7 - 1) in
  if zlen s >? 8 then
    let code := fst (huffman_encode new_encoder s) in
    if zlen code <? PREFIX then (Z.lor 128 (u8 (zlen code)) :: code, 1 + zlen code)
    else
      let '(out, i) := continuation 10 (zlen code - PREFIX) in
      (Z.lor 128 127 :: out ++ [u8 i] ++ code, 1 + zlen out + 1 + zlen code)
  else
    if zlen s <? PREFIX then (Z.lor 0 (u8 (zlen s)) :: s, 1 + zlen s)
    else
      let '(out, i) := continuation 10 (zlen s - PREFIX) in
      (Z.lor 0 127 :: out ++ [u8 i] ++ s, 1 + zlen out + 1 + zlen s).

(*@ sese/net/http/HPackUtil.cpp 611-648 HPackUtil::buildCookieString *)
Definition buildCookieString (c : Cookie) : outcome bytes :=
  date ← (if negb (0 <? maxAge c) && (0 <? expires c) then
            dt ← DateTime.create (expires c) 0 FORMAT;
            s ← format dt TIME_GREENWICH_MEAN_PATTERN;
            Val (str "; Expires=" ++ s)
          else Val []);
  Val (name c ++ str "=" ++ value c
    ++ (if negb (bool_decide (path c = [])) then str "; " ++ path c else [])
    ++ (if negb (bool_decide (domain c = [])) then str "; " ++ domain c else [])
    ++ (if 0 <? maxAge c then str "; Max-Age=" ++ to_string (maxAge c) else date)
    ++ (if secure c then str "; Secure" else [])
    ++ (if httpOnly c then str "; HttpOnly" else [])).

(*@ sese/net/http/HPackUtil.cpp 238-248 HPackUtil::encode *)
(** The search loop: [iterator_key] and [iterator_all] as positions. *)
Fixpoint search (q : list entry) (i : Z) (key value : bytes) (iterator_key : option Z) :
    option Z * option Z :=
  match q with
  | [] => (iterator_key, None)
  | (k, v) :: q =>
      if bool_decide (k = key) then
        if bool_decide (v = value) then (Some i, Some i)
        else search q (i + 1) key value (Some i)
      else search q (i + 1) key value iterator_key
  end.

(*@ sese/net/http/HPackUtil.cpp 235-313 HPackUtil::encode *)
(** One field of [indexed_header]. *)
Definition encode_indexed (t : DynamicTable.t) (item : entry) : outcome (emitted * DynamicTable.t) :=
  let '(key, value) := item in
  let store e := '(_, t) ← DynamicTable.set t key value; Val (e, t) in
  let position i := u64 (DynamicTable.getCount t - 1 - i + zlen PREDEFINED_HEADERS) in
  match search (DynamicTable.queue t) 0 key value None with
  | (_, Some i) => Val (encodeIndexCase0 (position i), t)
  | (Some i, None) => store (eplus (encodeIndexCase1 (position i)) (encodeString value))
  | (None, None) =>
      match search PREDEFINED_HEADERS 0 key value None with
      | (_, Some i) => Val (encodeIndexCase0 i, t)
      | (Some i, None) => store (eplus (encodeIndexCase1 i) (encodeString value))
      | (None, None) =>
          store (eplus (encodeIndexCase1 0) (eplus (encodeString key) (encodeString value)))
      end
  end.

(*@ sese/net/http/HPackUtil.cpp 316-380 HPackUtil::encode *)
(** One field of [once_header]. *)
Definition encode_once (t : DynamicTable.t) (item : entry) : emitted :=
  let '(key, value) := item in
  match search (DynamicTable.queue t) 0 key value None with
  | (_, Some i) => encodeIndexCase0 (i + 62)
  | (Some i, None) => eplus (encodeIndexCase2 (i + 62)) (encodeString value)
  | (None, None) =>
      match search PREDEFINED_HEADERS 0 key value None with
      | (_, Some i) => encodeIndexCase0 i
      | (Some i, None) => eplus (encodeIndexCase2 i) (encodeString value)
      | (None, None) => eplus (encodeIndexCase3 0) (eplus (encodeString key) (encodeString value))
      end
  end.

(*@ sese/net/http/HPackUtil.cpp 387-391 HPackUtil::encode *)
(** One cookie. *)
Definition encode_cookie (c : Cookie) : outcome emitted :=
  s ← buildCookieString c;
  Val (eplus (encodeIndexCase2 0) (eplus (encodeString (str "Set-Cookie")) (encodeString s))).

(*@ sese/net/http/HPackUtil.cpp 235-313 HPackUtil::encode *)
Fixpoint encode_indexed_all (t : DynamicTable.t) (l : list entry) : outcome (emitted * DynamicTable.t) :=
  match l with
  | [] => Val (([], 0), t)
  | item :: l =>
      '(e, t) ← encode_indexed t item;
      '(es, t) ← encode_indexed_all t l;
      Val (eplus e es, t)
  end.

(*@ sese/net/http/HPackUtil.cpp 386-392 HPackUtil::encode *)
Fixpoint encode_cookies (l : list (bytes * Cookie)) : outcome emitted :=
  match l with
  | [] => Val ([], 0)
  | (_, c) :: l => e ← encode_cookie c; es ← encode_cookies l; Val (eplus e es)
  end.

(*@ sese/net/http/HPackUtil.cpp 231-403 HPackUtil::encode *)
Definition encode (t : DynamicTable.t) (once_header indexed_header : Header) :
    outcome (emitted * DynamicTable.t) :=
  '(e1, t) ← encode_indexed_all t (headers indexed_header);
  let e2 := fold_right (fun item e => eplus (encode_once t item) e) ([], 0) (headers once_header) in
  e3 ← encode_cookies (from_option id [] (cookies once_header));
  e4 ← encode_cookies (from_option id [] (cookies indexed_header));
  Val (eplus e1 (eplus e2 (eplus e3 e4)), t).

(** ** Integers *)

(** The integer representation of RFC 7541, which cases 1 to 3 and the string
    lengths have in common. *)
Definition varint (i : Z) : bytes := fst (continuation 10 i) ++ [u8 (snd (continuation 10 i))].
Definition int_head (tag n i : Z) : byte := tag + Z.min i (2 ^ n - 1).
Definition int_tail (n i : Z) : bytes := if i <? 2 ^ n - 1 then [] else varint (i - (2 ^ n - 1)).

Lemma continuation_spec fuel : forall i, 0 <= i < 128 ^ (1 + Z.of_nat fuel) ->
  0 <= snd (continuation fuel i) < 128.
Proof.
  induction fuel as [|fuel IH]; intros i Hi; [cbn in *; lia|]. cbn [continuation].
  destruct (i >=? 128) eqn:E; [|cbn; lia].
  rewrite Nat2Z.inj_succ, <- Z.add_1_r, Z.add_assoc, Z.pow_add_r in Hi by lia.
  specialize (IH (i / 128)). destruct (continuation fuel (i / 128)) as [out r]. apply IH.
  split; [apply Z.div_pos; lia|]. apply Z.div_lt_upper_bound; lia.
Qed.

(** The bits the code tests, on all bytes. *)
Lemma byte_bits b : is_byte b ->
  Z.land b 127 = b mod 128 /\ Z.land b 128 = 128 * (b / 128).
Proof.
  intros H. apply (forallb_seqZ (fun b =>
    (Z.land b 127 =? b mod 128) && (Z.land b 128 =? 128 * (b / 128))) 256) in H.
  - zbool. auto.
  - reflexivity.
Qed.

Lemma wrap_add_swrap a x : u32 (a + swrap 32 x) = u32 (a + x).
Proof.
  unfold wrap, swrap. rewrite Z.add_sub_assoc, Zminus_mod, Zplus_mod_idemp_r, <- Zminus_mod.
  f_equal. lia.
Qed.

Section Integers.
Context {S : Type} `{MemInput S}.

(** One round of the loop. *)
Lemma decodeInteger_round dfuel s b rest dest m len :
  in_valid s -> in_content s = b :: rest -> is_byte b -> 0 <= m < 32 -> 0 <= dest ->
  dest + b mod 128 * 2 ^ m < 2 ^ 32 ->
  exists s', decodeInteger_loop (Datatypes.S dfuel) s dest m len =
      (if b / 128 =? 0 then Val (len + 1, dest + b mod 128 * 2 ^ m, s')
       else decodeInteger_loop dfuel s' (dest + b mod 128 * 2 ^ m) (m + 7) (len + 1)) /\
    in_valid s' /\ in_content s' = rest.
Proof.
  intros Hv Hc Hb Hm Hd Hlt. destruct (read_byte s _ _ Hv Hc) as (s' & Er & Hv' & Hc').
  exists s'. split; [|done]. cbn [decodeInteger_loop]. rewrite Er, bind_Val. cbn [head of_option].
  change (1 >? 0) with true. cbv iota. rewrite bind_Val, (proj2 (Z.ltb_lt m 32)) by lia.
  destruct (byte_bits b Hb) as [-> ->]. assert (0 <= 2 ^ m) by (apply Z.pow_nonneg; lia).
  pose proof (Z.mod_pos_bound b 128 ltac:(lia)).
  rewrite wrap_add_swrap, Z.shiftl_mul_pow2, wrap_small by (unfold is_u; nia || lia).
  destruct (128 * (b / 128) =? 0) eqn:E1, (b / 128 =? 0) eqn:E2; zbool; done || lia.
Qed.

(** The loop reads back what [continuation] and the last byte wrote. *)
Lemma decode_varint fuel : forall dfuel i s rest dest m len,
  0 <= i < 128 ^ (1 + Z.of_nat fuel) ->
  in_valid s -> in_content s = fst (continuation fuel i) ++ [u8 (snd (continuation fuel i))] ++ rest ->
  0 <= m < 32 -> 0 <= dest -> dest + i * 2 ^ m < 2 ^ 32 -> 32 - m < 7 * Z.of_nat dfuel ->
  exists s', decodeInteger_loop dfuel s dest m len =
      Val (len + zlen (fst (continuation fuel i)) + 1, dest + i * 2 ^ m, s') /\
    in_valid s' /\ in_content s' = rest.
Proof.
  assert (Hlast : forall dfuel i s rest dest m len, 0 <= i < 128 ->
    in_valid s -> in_content s = [u8 i] ++ rest -> 0 <= m < 32 -> 0 <= dest ->
    dest + i * 2 ^ m < 2 ^ 32 -> exists s',
    decodeInteger_loop (Datatypes.S dfuel) s dest m len = Val (len + 0 + 1, dest + i * 2 ^ m, s') /\
    in_valid s' /\ in_content s' = rest).
  { intros dfuel i s rest dest m len Hi Hv Hc Hm Hd Hlt.
    rewrite wrap_small in Hc by (unfold is_u; lia).
    destruct (decodeInteger_round dfuel s i rest dest m len) as (s' & -> & Hv' & Hc');
      rewrite ?Z.mod_small by lia; auto; [unfold is_u; lia|].
    exists s'. rewrite Z.div_small, Z.add_0_r by lia. auto. }
  induction fuel as [|fuel IH]; intros [|dfuel] i s rest dest m len Hi Hv Hc Hm Hd Hlt Hf; try lia.
  { apply Hlast; auto. }
  pose proof (continuation_spec _ _ Hi) as Hr. cbn [continuation] in *.
  destruct (i >=? 128) eqn:E; [|cbn [fst snd app] in *; apply Hlast; auto].
  destruct (continuation fuel (i / 128)) as [out r] eqn:Ec. cbn [fst snd app] in *.
  assert (Hmod := Z.mod_pos_bound i 128 ltac:(lia)).
  pose proof (Z.div_mod i 128 ltac:(lia)) as Hdm.
  assert (0 < 2 ^ m) by (apply Z.pow_pos_nonneg; lia).
  assert (i / 128 * 2 ^ (m + 7) = (i - i mod 128) * 2 ^ m) as Hsh
    by (rewrite Z.pow_add_r by lia; change (2 ^ 7) with 128; nia).
  assert (m + 7 < 32).
  { apply (Z.pow_lt_mono_r_iff 2); [lia|lia|]. assert (1 <= i / 128) by lia.
    assert (0 < 2 ^ (m + 7)) by (apply Z.pow_pos_nonneg; lia). nia. }
  assert (Hq : (i mod 128 + 128) mod 128 = i mod 128 /\ (i mod 128 + 128) / 128 = 1) by
    (clear - Hmod; generalize dependent (i mod 128); intros; split;
     [symmetry; apply (Z.mod_unique _ _ 1)|symmetry; apply (Z.div_unique _ _ _ z)]; lia).
  destruct Hq as [Hq1 Hq2].
  destruct (decodeInteger_round dfuel s _ _ dest m len Hv Hc) as (s' & -> & Hv' & Hc');
    rewrite ?Hq1; auto; [unfold is_u; lia|nia|].
  rewrite Nat2Z.inj_succ, <- Z.add_1_r, Z.add_assoc, Z.pow_add_r in Hi by lia.
  destruct (IH dfuel (i / 128) s' rest (dest + i mod 128 * 2 ^ m) (m + 7) (len + 1))
    as (s'' & E2 & Hv2 & Hc2); rewrite ?Ec; cbn [fst snd]; auto; try lia; try nia.
  exists s''. split; [|done]. rewrite Hq2. change (1 =? 0) with false. cbv iota.
  rewrite E2, Ec. cbn [fst]. rewrite zlen_cons. do 2 f_equal. f_equal; lia.
Qed.

(** Reading an integer of prefix width [n]. *)
Lemma decodeInteger_spec tag n i s rest : 1 <= n <= 7 -> 0 <= i < 2 ^ 32 ->
  tag mod 2 ^ n = 0 -> in_valid s -> in_content s = int_tail n i ++ rest ->
  exists s', decodeInteger (int_head tag n i) s n = Val (zlen (int_tail n i), i, s') /\
    in_valid s' /\ in_content s' = rest.
Proof.
  intros Hn Hi Ht Hv Hc. unfold decodeInteger.
  assert (0 < 2 ^ n - 1 < 2 ^ 7).
  { split; [pose proof (Z.pow_le_mono_r 2 1 n); lia|]. pose proof (Z.pow_le_mono_r 2 n 7). lia. }
  rewrite (wrap_small 16) by (unfold is_u; lia).
  assert (Z.land (int_head tag n i) (2 ^ n - 1) = Z.min i (2 ^ n - 1)) as ->.
  { change (2 ^ n - 1) with (Z.pred (2 ^ n)).
    rewrite <- Z.ones_equiv, Z.land_ones by lia. unfold int_head.
    rewrite Zplus_mod, Ht, Z.add_0_l, Z.mod_mod by lia. rewrite Z.ones_equiv. apply Z.mod_small. lia. }
  unfold int_tail in *. destruct (i <? 2 ^ n - 1) eqn:E; zbool.
  - rewrite Z.min_l, (proj2 (Z.eqb_neq _ _)) by lia. exists s. auto.
  - rewrite Z.min_r, Z.eqb_refl by lia. unfold varint in Hc. rewrite <- app_assoc in Hc.
    destruct (decode_varint 10 6 (i - (2 ^ n - 1)) s rest (2 ^ n - 1) 0 0) as (s' & -> & Hv' & Hc');
      auto; try lia.
    exists s'. split; [|done]. unfold varint. rewrite zlen_app. change (zlen [_]) with 1.
    do 2 f_equal. f_equal; lia.
Qed.
End Integers.

(** What is written for an integer, and its size. *)
Definition int_emitted (tag n i : Z) : emitted :=
  (int_head tag n i :: int_tail n i, 1 + zlen (int_tail n i)).

(** A case of [encodeIndex] writes that representation when its two branches
    have the shape of the code. *)
Lemma int_emitted_spec tag n i : 0 < n <= 7 -> 0 <= i -> tag mod 2 ^ n = 0 -> 0 <= tag < 256 ->
  (if i <? u8 (2 ^ n - 1) then ([Z.lor tag (Z.land (u8 i) (2 ^ n - 1))], 1)
   else let '(out, r) := continuation 10 (i - u8 (2 ^ n - 1)) in
     (Z.lor tag (2 ^ n - 1) :: out ++ [u8 r], 1 + zlen out + 1)) = int_emitted tag n i.
Proof.
  intros Hn Hi Ht Htag. assert (0 < 2 ^ n - 1 < 2 ^ 7).
  { split; [pose proof (Z.pow_le_mono_r 2 1 n); lia|]. pose proof (Z.pow_le_mono_r 2 n 7). lia. }
  assert (Hor : forall x, 0 <= x < 2 ^ n -> Z.lor tag x = tag + x).
  { intros x Hx. rewrite <- Z.lxor_lor, Z.add_nocarry_lxor; [done|..];
      apply Z.bits_inj'; intros k Hk; rewrite Z.land_spec, Z.bits_0;
      (destruct (Z.lt_ge_cases k n);
       [rewrite <- (Z.mod_pow2_bits_low tag n), Ht, Z.bits_0 by lia; done|
        rewrite <- (Z.mod_small x (2 ^ n)), Z.mod_pow2_bits_high, andb_false_r by lia; done]). }
  unfold int_emitted, int_head, int_tail. rewrite (wrap_small 8 (2 ^ n - 1)) by (unfold is_u; lia).
  destruct (i <? 2 ^ n - 1) eqn:E; zbool.
  - rewrite (wrap_small 8 i) by (unfold is_u; lia). change (2 ^ n - 1) with (Z.pred (2 ^ n)).
    rewrite <- Z.ones_equiv, Z.land_ones, Z.mod_small, Hor, Z.ones_equiv by lia.
    rewrite Z.min_l by lia. done.
  - rewrite Z.min_r, Hor by lia. unfold varint. destruct (continuation 10 _) as [out r].
    cbn [fst snd]. rewrite zlen_app. f_equal. change (zlen [_]) with 1. lia.
Qed.

Lemma encodeIndexCase1_spec i : 0 <= i -> encodeIndexCase1 i = int_emitted 64 6 i.
Proof. intros. apply (int_emitted_spec 64 6); done || lia. Qed.

Lemma encodeIndexCase2_spec i : 0 <= i -> encodeIndexCase2 i = int_emitted 0 4 i.
Proof. intros. apply (int_emitted_spec 0 4); done || lia. Qed.

Lemma encodeIndexCase3_spec i : 0 <= i -> encodeIndexCase3 i = int_emitted 16 4 i.
Proof. intros. apply (int_emitted_spec 16 4); done || lia. Qed.

Lemma encodeIndexCase0_spec i : 0 <= i < 127 -> encodeIndexCase0 i = int_emitted 128 7 i.
Proof.
  intros H. rewrite <- int_emitted_spec by (done || lia). unfold encodeIndexCase0.
  change (u8 (2 ^ 7 - 1)) with 127. by rewrite (proj2 (Z.ltb_lt i 127)) by lia.
Qed.

(** ** Strings *)

(** The representation chosen for a string: whether it is compressed, and its
    bytes on the wire. *)
Definition string_code (s : bytes) : Z * bytes :=
  if zlen s >? 8 then (128, fst (huffman_encode new_encoder s)) else (0, s).

Lemma encodeString_spec s :
  encodeString s =
  eplus (int_emitted (fst (string_code s)) 7 (zlen (snd (string_code s))))
        (snd (string_code s), zlen (snd (string_code s))).
Proof.
  unfold encodeString, string_code. destruct (zlen s >? 8); cbn [fst snd].
  - set (code := fst (huffman_encode _ _)). pose proof (zlen_nonneg code).
    rewrite <- int_emitted_spec by (done || lia). change (u8 (2 ^ 7 - 1)) with 127.
    change (2 ^ 7 - 1) with 127.
    destruct (zlen code <? 127) eqn:E; zbool; unfold eplus; cbn [fst snd app].
    + rewrite (wrap_small 8) by (unfold is_u; lia). do 2 f_equal.
      destruct (byte_bits (zlen code)) as [-> _]; [unfold is_u; lia|]. by rewrite Z.mod_small by lia.
    + destruct (continuation 10 _) as [out r]. cbn [fst snd app]. by rewrite <- app_assoc.
  - pose proof (zlen_nonneg s).
    rewrite <- int_emitted_spec by (done || lia). change (u8 (2 ^ 7 - 1)) with 127.
    change (2 ^ 7 - 1) with 127.
    destruct (zlen s <? 127) eqn:E; zbool; unfold eplus; cbn [fst snd app].
    + rewrite (wrap_small 8) by (unfold is_u; lia). do 2 f_equal.
      destruct (byte_bits (zlen s)) as [-> _]; [unfold is_u; lia|]. by rewrite Z.mod_small by lia.
    + destruct (continuation 10 _) as [out r]. cbn [fst snd app]. by rewrite <- app_assoc.
Qed.

(** The strings the wire format carries: a short one has no NUL, a long one
    none of the bytes that the Huffman table confuses. *)
Definition string_ok (s : bytes) : Prop :=
  bytes_ok s /\ zlen (snd (string_code s)) <= 65534 /\
  if zlen s >? 8 then forallb unshadowed s = true else ~ In 0 s.

(** Emitted sizes are the numbers of bytes written. *)
Definition sized (e : emitted) : Prop := snd e = zlen (fst e).

Lemma int_emitted_sized tag n i : sized (int_emitted tag n i).
Proof. unfold sized, int_emitted. cbn [fst snd]. by rewrite zlen_cons. Qed.

Lemma int_emitted_pos tag n i : 1 <= snd (int_emitted tag n i).
Proof. cbn. pose proof (zlen_nonneg (int_tail n i)). lia. Qed.

Lemma eplus_sized a b : sized a -> sized b -> sized (eplus a b).
Proof. unfold sized, eplus. cbn. rewrite zlen_app. lia. Qed.

Lemma encodeString_sized s : sized (encodeString s).
Proof. rewrite encodeString_spec. apply eplus_sized; [apply int_emitted_sized|done]. Qed.

Lemma encodeString_pos s : 1 <= snd (encodeString s).
Proof.
  rewrite encodeString_spec. unfold eplus. cbn [snd].
  pose proof (int_emitted_pos (fst (string_code s)) 7 (zlen (snd (string_code s)))).
  pose proof (zlen_nonneg (snd (string_code s))). lia.
Qed.

Section Strings.
Context {S : Type} `{MemInput S}.

(** Reading back a string. *)
Lemma decodeString_spec text s rest : string_ok text -> in_valid s ->
  in_content s = fst (encodeString text) ++ rest ->
  exists s', decodeString s = Val (snd (encodeString text), text, s') /\
    in_valid s' /\ in_content s' = rest.
Proof.
  intros (Hb & Hlen & Hok) Hv Hc. rewrite encodeString_spec in *.
  set (tag := fst (string_code text)) in *. set (code := snd (string_code text)) in *.
  assert (tag mod 2 ^ 7 = 0 /\ 0 <= tag < 256 /\ Z.land (int_head tag 7 (zlen code)) 128 = tag) as (Ht & Htag & Hhuff).
  { assert (Z.min (zlen code) 127 mod 128 = Z.min (zlen code) 127 /\
            0 <= Z.min (zlen code) 127 < 128) as [Hm Hr].
    { pose proof (zlen_nonneg code). split; [apply Z.mod_small|]; lia. }
    assert (tag = 0 \/ tag = 128) as [->| ->] by (unfold tag, string_code; destruct (_ >? _); auto);
      (split; [done|split; [lia|]]); unfold int_head; change (2 ^ 7 - 1) with 127;
      (destruct (byte_bits (0 + Z.min (zlen code) 127)) as [_ E0]; [unfold is_u; lia|]);
      (destruct (byte_bits (128 + Z.min (zlen code) 127)) as [_ E1]; [unfold is_u; lia|]).
    - rewrite E0, Z.div_small; lia.
    - rewrite E1. replace (128 + _) with (Z.min (zlen code) 127 + 1 * 128) by lia.
      rewrite Z.div_add, Z.div_small; lia. }
  unfold eplus, int_emitted in Hc. cbn [fst snd] in Hc. rewrite <- app_assoc in Hc. cbn [app] in Hc.
  unfold decodeString. destruct (read_byte s _ _ Hv Hc) as (s1 & -> & Hv1 & Hc1).
  rewrite bind_Val. cbn [head of_option]. rewrite bind_Val, Hhuff.
  pose proof (zlen_nonneg code).
  destruct (decodeInteger_spec tag 7 (zlen code) s1 (code ++ rest)) as (s2 & -> & Hv2 & Hc2);
    auto; [lia|lia|].
  rewrite bind_Val. pose proof (zlen_nonneg (int_tail 7 (zlen code))).
  rewrite (proj2 (Z.eqb_neq _ (-1))) by lia.
  assert ((zlen code >? 65535) = false) as -> by lia.
  destruct (read_prefix s2 code rest Hv2 Hc2) as (s3 & -> & Hv3 & Hc3).
  rewrite bind_Val, Z.eqb_refl. cbn [negb]. exists s3.
  unfold eplus, int_emitted. cbn [fst snd].
  split; [|done]. unfold tag, code, string_code in *.
  destruct (zlen text >? 8); cbn [fst snd] in *.
  - change (128 =? 128) with true. cbv iota.
    destruct (huffman_encode_bits text) as (pad & Hpad & Hbits & _ & _).
    unfold huffman_decode. rewrite tree_decode_bits, Hbits by lia.
    rewrite foldlM_app, decode_codes by done.
    destruct (decode_padding pad ([] ++ text) Hpad) as [n ->]. reflexivity.
  - change (0 =? 128) with false. cbv iota.
    rewrite (proj2 (Z.eqb_neq _ 65535)) by lia. cbn [andb]. by rewrite cstr_no_nul.
Qed.
End Strings.

(** ** Fields *)

(** What [decode] does with a field, apart from the stream and the table. *)
Definition apply_field (st : Header * bool) (item : entry) : option (Header * bool) :=
  let '(h, pseudo) := st in
  let '(key, value) := item in
  if strcmpDoNotCase key (str "Cookie") then
    Some (header_setCookies h (Some (parseFromCookie value)), pseudo)
  else
    match key with
    | [] => None
    | c :: _ =>
        if c =? 58 then
          if negb pseudo then None
          else match setHeader h key value with (true, h) => Some (h, pseudo) | _ => None end
        else Some (header_set h key value, false)
    end.

(** The first byte tells the representations apart. *)
Lemma dispatch b : is_byte b ->
  (Z.land b 128 =? 0) = (b <? 128) /\
  (Z.land b 224 =? 32) = ((32 <=? b) && (b <? 64)) /\
  (Z.land b 192 =? 64) = ((64 <=? b) && (b <? 128)).
Proof.
  intros H. apply (forallb_seqZ (fun b =>
    eqb (Z.land b 128 =? 0) (b <? 128) &&
    eqb (Z.land b 224 =? 32) ((32 <=? b) && (b <? 64)) &&
    eqb (Z.land b 192 =? 64) ((64 <=? b) && (b <? 128))) 256) in H.
  - zbool. auto using eqb_prop.
  - reflexivity.
Qed.

Lemma search_spec q : forall i0 k v ik,
  match search q i0 k v ik with
  | (_, Some i) => i0 <= i < i0 + zlen q /\ q !! Z.to_nat (i - i0) = Some (k, v)
  | (Some i, None) => ik = Some i \/
      i0 <= i < i0 + zlen q /\ exists w, q !! Z.to_nat (i - i0) = Some (k, w)
  | (None, None) => ik = None /\ Forall (fun e => fst e <> k) q
  end.
Proof.
  assert (Hshift : forall (x : entry) q i0 i (P : entry -> Prop),
    i0 + 1 <= i < i0 + 1 + zlen q /\ (exists y, q !! Z.to_nat (i - (i0 + 1)) = Some y /\ P y) ->
    i0 <= i < i0 + zlen (x :: q) /\ (exists y, (x :: q) !! Z.to_nat (i - i0) = Some y /\ P y)).
  { intros x q' i0 i P [Hr Hl]. rewrite zlen_cons. split; [lia|].
    replace (Z.to_nat (i - i0)) with (S (Z.to_nat (i - (i0 + 1)))) by lia. done. }
  induction q as [|[k' v'] q IH]; intros i0 k v ik; cbn [search].
  { destruct ik; auto. }
  destruct (bool_decide (k' = k)) eqn:Ek; [apply bool_decide_eq_true in Ek as ->|apply bool_decide_eq_false in Ek].
  - destruct (bool_decide (v' = v)) eqn:Ev.
    + apply bool_decide_eq_true in Ev as ->. rewrite zlen_cons, Z.sub_diag.
      pose proof (zlen_nonneg q). split; [lia|done].
    + specialize (IH (i0 + 1) k v (Some i0)). destruct (search q _ _ _ _) as [[a|] [b|]].
      all: try (destruct IH as [Hr Hl]; specialize (Hshift (k, v') q i0 b (eq (k, v)));
        destruct Hshift as (? & y & ? & ?); [eauto|subst y; auto]).
      * right. destruct IH as [[= ->]|[Hr [w Hl]]].
        -- rewrite zlen_cons, Z.sub_diag. pose proof (zlen_nonneg q). split; [lia|]. by exists v'.
        -- destruct (Hshift (k, v') q i0 a (fun y => fst y = k)) as (? & [k2 w2] & ? & Hk); [eauto|].
           cbn in Hk. subst k2. eauto.
      * destruct IH; done.
  - specialize (IH (i0 + 1) k v ik). destruct (search q _ _ _ _) as [[a|] [b|]].
    all: try (destruct IH as [Hr Hl]; specialize (Hshift (k', v') q i0 b (eq (k, v)));
        destruct Hshift as (? & y & ? & ?); [eauto|subst y; auto]).
    + destruct IH as [->|[Hr [w Hl]]]; [auto|right].
      destruct (Hshift (k', v') q i0 a (fun y => fst y = k)) as (? & [k2 w2] & ? & Hk); [eauto|].
      cbn in Hk. subst k2. eauto.
    + destruct IH as [-> HF]. split; [done|]. by constructor.
Qed.

(** The names the tables must not hold or mention: the entry at index 0 of
    the static table only fills the place of the invalid index. *)
Definition name_ok (k : bytes) : Prop := string_ok k /\ k <> str "INVALIDINDEX".

Definition field_ok (e : entry) : Prop := name_ok (fst e) /\ string_ok (snd e).

Lemma static_index_pos i k v :
  0 <= i < 0 + zlen PREDEFINED_HEADERS -> PREDEFINED_HEADERS !! Z.to_nat (i - 0) = Some (k, v) ->
  k <> str "INVALIDINDEX" -> 1 <= i < 62.
Proof.
  intros Hr Hl Hk. change (zlen PREDEFINED_HEADERS) with 62 in Hr.
  destruct (decide (i = 0)) as [->|]; [|lia]. injection Hl as Hl _. by destruct Hk.
Qed.

Lemma static_get t i : 1 <= i < 62 ->
  DynamicTable.get t i = PREDEFINED_HEADERS !! Z.to_nat (i - 0).
Proof.
  intros H. unfold DynamicTable.get. change (zlen PREDEFINED_HEADERS) with 62.
  rewrite (proj2 (Z.eqb_neq i 0)), (proj2 (Z.ltb_lt i 62)), Z.sub_0_r by lia. done.
Qed.

(** An index of the dynamic table, as [encode] computes it for the fields it
    indexes, finds the entry it was computed for. *)
Lemma dynamic_get t i : 0 <= i < zlen (DynamicTable.queue t) -> zlen (DynamicTable.queue t) < 2 ^ 31 ->
  let p := u64 (DynamicTable.getCount t - 1 - i + zlen PREDEFINED_HEADERS) in
  62 <= p <= 61 + zlen (DynamicTable.queue t) /\
  DynamicTable.get t p = DynamicTable.queue t !! Z.to_nat (i - 0).
Proof.
  intros H Hc. cbn zeta. unfold DynamicTable.get, DynamicTable.getCount.
  change (zlen PREDEFINED_HEADERS) with 62.
  rewrite wrap_small by (unfold is_u; lia). split; [lia|].
  rewrite (proj2 (Z.eqb_neq _ 0)), (proj2 (Z.ltb_ge _ 62)), (proj2 (Z.ltb_lt _ (62 + _))) by lia.
  do 2 f_equal. lia.
Qed.

Section Rounds.
Context {S : Type} `{MemInput S}.

(** The state after [n] more bytes, with the stream [s] and the table [t]. *)
Definition after (d : dstate S) (s : S) (n : Z) (t : DynamicTable.t) : dstate S :=
  DState s (len d + n) t (header d) (has_pseudo d).

Lemma store_field_apply d s n t item h p :
  apply_field (header d, has_pseudo d) item = Some (h, p) ->
  store_field (after d s n t) (fst item) (snd item) = Val (Go (DState s (len d + n) t h p)).
Proof.
  destruct item as [key value]. unfold apply_field, store_field, after, with_header. cbn.
  destruct (strcmpDoNotCase key _); [by intros [= <- <-]|].
  destruct key as [|c key]; [done|]. destruct (c =? 58); [|by intros [= <- <-]].
  destruct (negb (has_pseudo d)); [done|].
  destruct (setHeader (header d) _ value) as [[] h']; [by intros [= <- <-]|done].
Qed.

(** Reading the first byte of a representation. *)
Lemma decode_round_first d limit tag n i rest :
  0 < n <= 7 -> 0 <= i -> 0 <= tag -> tag + 2 ^ n <= 256 -> in_valid (src d) -> 0 <= len d < 2 ^ 64 - 1 ->
  in_content (src d) = fst (int_emitted tag n i) ++ rest ->
  exists s, in_valid s /\ in_content s = int_tail n i ++ rest /\
    let b := int_head tag n i in
    let d' := DState s (len d + 1) (table d) (header d) (has_pseudo d) in
    decode_round d limit =
      (if negb (b <? 128) then decode_case0 d' b
       else if (32 <=? b) && (b <? 64) then decode_case4 d' b limit
       else if (64 <=? b) && (b <? 128) then decode_literal d' b 6 true
       else decode_literal d' b 4 false).
Proof.
  intros Hn Hi Ht Htn Hv Hl Hc. unfold int_emitted in Hc. cbn [fst] in Hc.
  rewrite <- app_comm_cons in Hc.
  destruct (read_byte _ _ _ Hv Hc) as (s & E & Hv' & Hc'). exists s. split; [done|]. split; [done|].
  cbn zeta. unfold decode_round. rewrite E, bind_Val. change (negb (1 =? 1)) with false. cbv iota.
  cbn [head of_option]. rewrite bind_Val. unfold advance, with_src. cbn.
  rewrite wrap_small by (unfold is_u; lia).
  destruct (dispatch (int_head tag n i)) as (-> & -> & ->); [|done].
  unfold int_head, is_u. assert (1 < 2 ^ n) by (apply Z.pow_gt_1; lia). change (2 ^ 8) with 256. lia.
Qed.

Lemma decode_value_spec d is_store key value rest t : string_ok value ->
  in_valid (src d) -> in_content (src d) = fst (encodeString value) ++ rest ->
  0 <= len d -> len d + snd (encodeString value) < 2 ^ 64 ->
  store_table is_store (table d) key value = Val t ->
  exists s, in_valid s /\ in_content s = rest /\
    decode_value d is_store key = store_field (after d s (snd (encodeString value)) t) key value.
Proof.
  intros Hok Hv Hc Hl Hl2 Ht. unfold decode_value.
  destruct (decodeString_spec value _ _ Hok Hv Hc) as (s & -> & Hv' & Hc'). exists s.
  split; [done|]. split; [done|]. rewrite bind_Val. unfold with_src, advance, with_table, after. cbn.
  pose proof (encodeString_sized value) as Hsz. unfold sized in Hsz.
  pose proof (zlen_nonneg (fst (encodeString value))).
  rewrite (proj2 (Z.eqb_neq _ (-1))) by lia. rewrite wrap_small by (unfold is_u; lia).
  by rewrite Ht, bind_Val.
Qed.

(** A literal field: with the name at [index], or spelled out after index 0. *)
Lemma decode_literal_spec d tag n is_store index key value (name : emitted) rest t :
  0 < n < 7 -> tag mod 2 ^ n = 0 -> 0 <= index < 2 ^ 32 -> string_ok value ->
  (index <> 0 /\ name = ([], 0) /\ (exists v, DynamicTable.get (table d) index = Some (key, v)) \/
   index = 0 /\ name = encodeString key /\ string_ok key) ->
  let e := eplus (int_emitted tag n index) (eplus name (encodeString value)) in
  in_valid (src d) -> in_content (src d) = int_tail n index ++ fst name ++ fst (encodeString value) ++ rest ->
  0 < len d -> len d - 1 + snd e < 2 ^ 64 ->
  store_table is_store (table d) key value = Val t ->
  exists s, in_valid s /\ in_content s = rest /\
    decode_literal d (int_head tag n index) n is_store =
    store_field (after d s (snd e - 1) t) key value.
Proof.
  intros Hn Htag Hi Hvalue Hname e Hv Hc Hl Hlen Ht. unfold decode_literal.
  destruct (decodeInteger_spec tag n index (src d) _ ltac:(lia) Hi Htag Hv Hc) as (s1 & -> & Hv1 & Hc1).
  rewrite bind_Val. pose proof (zlen_nonneg (int_tail n index)).
  rewrite (proj2 (Z.eqb_neq _ (-1))) by lia.
  pose proof (encodeString_sized value) as Hsv. unfold sized in Hsv.
  pose proof (zlen_nonneg (fst (encodeString value))).
  unfold e, eplus, int_emitted in Hlen |- *. cbn [fst snd] in Hlen |- *.
  destruct Hname as [(Hi0 & -> & v & Hget)|(-> & -> & Hkey)].
  - rewrite (proj2 (Z.eqb_neq index 0)) by lia. cbn [negb fst snd] in *.
    change (table (advance _ _)) with (table d). rewrite Hget.
    edestruct (decode_value_spec (advance (with_src d s1) (zlen (int_tail n index))) is_store key value
      rest t) as (s & Hvs & Hcs & ->); eauto; unfold advance, with_src; cbn [src len table];
      rewrite ?wrap_small by (unfold is_u; lia); try lia.
    exists s. split; [done|]. split; [done|]. unfold after. cbn.
    rewrite ?wrap_small by (unfold is_u; lia). do 2 f_equal. lia.
  - change (negb (0 =? 0)) with false. cbv iota.
    pose proof (encodeString_sized key) as Hsk. unfold sized in Hsk.
    pose proof (zlen_nonneg (fst (encodeString key))).
    edestruct (decodeString_spec key s1) as (s2 & E2 & Hv2 & Hc2); eauto.
    change (src (advance (with_src d s1) (zlen (int_tail n 0)))) with s1. rewrite E2, bind_Val.
    rewrite (proj2 (Z.eqb_neq _ (-1))) by lia. cbn [fst snd] in *.
    edestruct (decode_value_spec (advance (with_src (advance (with_src d s1) (zlen (int_tail n 0))) s2)
      (snd (encodeString key))) is_store key value rest t) as (s & Hvs & Hcs & ->); eauto;
      unfold advance, with_src; cbn [src len table];
      rewrite ?(wrap_small 64 (_ + zlen _)), ?wrap_small by (unfold is_u; lia); try lia.
    exists s. split; [done|]. split; [done|]. unfold after. cbn.
    rewrite ?wrap_small by (unfold is_u; lia). do 2 f_equal. lia.
Qed.
End Rounds.

Section Fields.
Context {S : Type} `{MemInput S}.

(** One round of the decoder is right for the bytes [e] of a field: it
    consumes exactly them, applies the field, and leaves the table [t]. *)
Definition round_reads (limit : Z) (d : dstate S) (e : emitted) (t : DynamicTable.t) (item : entry) : Prop :=
  forall rest h p, in_valid (src d) -> in_content (src d) = fst e ++ rest ->
    0 <= len d -> len d + snd e < 2 ^ 63 ->
    apply_field (header d, has_pseudo d) item = Some (h, p) ->
    exists s, in_valid s /\ in_content s = rest /\
      decode_round d limit = Val (Go (DState s (len d + snd e) t h p)).

Lemma head_range tag n i : 0 < n -> 0 <= i -> tag <= int_head tag n i < tag + 2 ^ n.
Proof. intros. unfold int_head. assert (1 < 2 ^ n) by (apply Z.pow_gt_1; lia). lia. Qed.

Lemma read_case0 limit d i item : 1 <= i < 127 -> DynamicTable.get (table d) i = Some item ->
  round_reads limit d (encodeIndexCase0 i) (table d) item.
Proof.
  intros Hi Hget rest h p Hv Hc Hl Hlen Happ. rewrite encodeIndexCase0_spec in * by lia.
  pose proof (int_emitted_pos 128 7 i).
  destruct (decode_round_first d limit 128 7 i rest) as (s & Hv' & Hc' & E); try done; try lia.
  cbn zeta in E. rewrite E. pose proof (head_range 128 7 i).
  rewrite (proj2 (Z.ltb_ge _ 128)) by lia. cbn [negb]. unfold decode_case0. cbn [src].
  destruct (decodeInteger_spec 128 7 i s rest) as (s2 & -> & Hv2 & Hc2); try done; try lia.
  rewrite bind_Val. exists s2. split; [done|]. split; [done|].
  pose proof (zlen_nonneg (int_tail 7 i)). rewrite (proj2 (Z.eqb_neq _ (-1))), (proj2 (Z.eqb_neq i 0)) by lia.
  cbn [table advance with_src]. rewrite Hget. destruct item as [k v].
  unfold int_emitted in *. cbn [snd] in *.
  rewrite <- (store_field_apply d s2 (1 + zlen (int_tail 7 i)) (table d) _ _ _ Happ).
  unfold advance, with_src, after. cbn. rewrite wrap_small by (unfold is_u; lia).
  do 2 f_equal. lia.
Qed.

Lemma read_literal limit d tag n is_store index key value name t :
  (tag = 64 /\ n = 6 /\ is_store = true \/ (tag = 0 \/ tag = 16) /\ n = 4 /\ is_store = false) ->
  0 <= index < 2 ^ 32 -> string_ok value ->
  (index <> 0 /\ name = ([], 0) /\ (exists v, DynamicTable.get (table d) index = Some (key, v)) \/
   index = 0 /\ name = encodeString key /\ string_ok key) ->
  store_table is_store (table d) key value = Val t ->
  round_reads limit d (eplus (int_emitted tag n index) (eplus name (encodeString value))) t (key, value).
Proof.
  intros Htag Hi Hvalue Hname Ht rest h p Hv Hc Hl Hlen Happ.
  assert (0 < n < 7 /\ tag mod 2 ^ n = 0 /\ 0 <= tag /\ tag + 2 ^ n <= 128) as (Hn & Hm & Hp & Hle)
    by (destruct Htag as [(-> & -> & _)|([-> | ->] & -> & _)]; repeat split; lia || done).
  unfold eplus at 1 in Hc. cbn [fst] in Hc. rewrite <- app_assoc in Hc.
  assert (0 <= snd name + snd (encodeString value)) as Hnn.
  { pose proof (encodeString_pos value). pose proof (encodeString_pos key).
    destruct Hname as [(_ & -> & _)|(_ & -> & _)]; cbn [snd]; lia. }
  pose proof (zlen_nonneg (int_tail n index)).
  unfold eplus, int_emitted in Hlen. cbn [snd] in Hlen.
  destruct (decode_round_first d limit tag n index
    (fst (eplus name (encodeString value)) ++ rest)) as (s & Hv' & Hc' & E); auto; try lia.
  cbn zeta in E. pose proof (head_range tag n index).
  unfold eplus in Hc'. cbn [fst] in Hc'. rewrite <- app_assoc in Hc'.
  destruct (decode_literal_spec (DState s (len d + 1) (table d) (header d) (has_pseudo d))
    tag n is_store index key value name rest t) as (s2 & Hv2 & Hc2 & E2);
    auto; try (unfold eplus, int_emitted; cbn [snd len]; lia).
  exists s2. split; [done|]. split; [done|].
  set (e := eplus (int_emitted tag n index) (eplus name (encodeString value))) in *.
  rewrite <- (store_field_apply d s2 (snd e) t _ _ _ Happ). rewrite E.
  replace (after d s2 (snd e) t) with
    (after (DState s (len d + 1) (table d) (header d) (has_pseudo d)) s2 (snd e - 1) t)
    by (unfold after; cbn; f_equal; lia).
  cbn [fst snd]. rewrite <- E2.
  rewrite (proj2 (Z.ltb_lt _ 128)) by lia. cbn [negb].
  destruct Htag as [(-> & -> & ->)|(Ht16 & -> & ->)].
  - rewrite (proj2 (Z.leb_le 64 _)), (proj2 (Z.ltb_ge _ 64)), andb_false_r by lia. done.
  - rewrite (proj2 (Z.leb_gt 32 _)), (proj2 (Z.leb_gt 64 _)) by (destruct Ht16; subst; lia). done.
Qed.

Lemma eplus_unit a : eplus ([], 0) a = a.
Proof. by destruct a. Qed.

(** What [encode] writes for an indexed field is read back as that field, and
    the decoder's table makes the encoder's step. *)
Lemma read_indexed limit d item e t : zlen (DynamicTable.queue (table d)) <= 65 -> field_ok item ->
  encode_indexed (table d) item = Val (e, t) -> round_reads limit d e t item.
Proof.
  intros Hq [[Hk Hinv] Hvalue] He. destruct item as [key value]. cbn [fst snd] in *.
  assert (Hstore : forall e0, ('(_, t) ← DynamicTable.set (table d) key value; Val (e0, t)) = Val (e, t) ->
    e = e0 /\ store_table true (table d) key value = Val t).
  { intros e0. unfold store_table. destruct (DynamicTable.set _ _ _) as [[]|]; [|done].
    rewrite !bind_Val. by intros [= -> ->]. }
  unfold encode_indexed in He. cbv zeta in He.
  pose proof (search_spec (DynamicTable.queue (table d)) 0 key value None) as Hs.
  destruct (search (DynamicTable.queue _) _ _ _ _) as [[a|] [b|]].
  all: try (destruct Hs as [Hr Hl]; injection He as <- <-;
    destruct (dynamic_get (table d) b) as [Hp Hg]; [lia|lia|];
    apply read_case0; [lia|exact (eq_trans Hg Hl)]).
  - destruct Hs as [[=]|[Hr [w Hl]]]. destruct (dynamic_get (table d) a) as [Hp Hg]; [lia|lia|].
    apply Hstore in He as [-> He]. rewrite encodeIndexCase1_spec by lia.
    rewrite <- (eplus_unit (encodeString value)). apply read_literal with true; auto; try lia.
    left. split; [lia|]. split; [done|]. exists w. exact (eq_trans Hg Hl).
  - clear Hs. pose proof (search_spec PREDEFINED_HEADERS 0 key value None) as Hs.
    destruct (search PREDEFINED_HEADERS _ _ _ _) as [[a|] [b|]].
    all: try (destruct Hs as [Hr Hl]; injection He as <- <-;
      pose proof (static_index_pos _ _ _ Hr Hl Hinv); apply read_case0; [lia|]; by rewrite static_get by lia).
    + destruct Hs as [[=]|[Hr [w Hl]]]. pose proof (static_index_pos _ _ _ Hr Hl Hinv).
      apply Hstore in He as [-> He]. rewrite encodeIndexCase1_spec by lia.
      rewrite <- (eplus_unit (encodeString value)). apply read_literal with true; auto; try lia.
      left. rewrite static_get by lia. split; [lia|]. eauto.
    + apply Hstore in He as [-> He]. rewrite encodeIndexCase1_spec by lia.
      apply read_literal with true; auto; lia.
Qed.

(** The same for a field of the other header, if the dynamic table does not
    know its name. *)
Lemma read_once limit d item : field_ok item ->
  Forall (fun e => fst e <> fst item) (DynamicTable.queue (table d)) ->
  round_reads limit d (encode_once (table d) item) (table d) item.
Proof.
  intros [[Hk Hinv] Hvalue] HF. destruct item as [key value]. cbn [fst snd] in *.
  assert (Hnone : forall i e, DynamicTable.queue (table d) !! i = Some e -> fst e <> key)
    by (intros i e He; exact (Forall_lookup_1 _ _ _ _ HF He)).
  unfold encode_once.
  pose proof (search_spec (DynamicTable.queue (table d)) 0 key value None) as Hs.
  destruct (search (DynamicTable.queue _) _ _ _ _) as [[a|] [b|]].
  all: try (destruct Hs as [Hr Hl]; exfalso; exact (Hnone _ _ Hl eq_refl)).
  { destruct Hs as [[=]|[Hr [w Hl]]]. exfalso. exact (Hnone _ _ Hl eq_refl). }
  clear Hs. pose proof (search_spec PREDEFINED_HEADERS 0 key value None) as Hs.
  destruct (search PREDEFINED_HEADERS _ _ _ _) as [[a|] [b|]].
  all: try (destruct Hs as [Hr Hl]; pose proof (static_index_pos _ _ _ Hr Hl Hinv);
    apply read_case0; [lia|]; by rewrite static_get by lia).
  - destruct Hs as [[=]|[Hr [w Hl]]]. pose proof (static_index_pos _ _ _ Hr Hl Hinv).
    rewrite encodeIndexCase2_spec by lia.
    rewrite <- (eplus_unit (encodeString value)). apply read_literal with false; auto; try lia.
    left. rewrite static_get by lia. split; [lia|]. eauto.
  - rewrite encodeIndexCase3_spec by lia. apply read_literal with false; auto; lia.
Qed.
End Fields.

(** ** Header blocks *)

Section Blocks.
Context {S : Type} `{MemInput S}.
Variable limit : Z.

(** The bytes [e] are a sequence of fields that take the table from [t] to
    [t']. *)
Inductive block : DynamicTable.t -> list entry -> emitted -> DynamicTable.t -> Prop :=
| block_nil t : block t [] ([], 0) t
| block_cons t item e t1 l es t2 :
    (forall d : dstate S, table d = t -> round_reads limit d e t1 item) -> 1 <= snd e ->
    block t1 l es t2 -> block t (item :: l) (eplus e es) t2.

Lemma block_app t l1 e1 t1 l2 e2 t2 : block t l1 e1 t1 -> block t1 l2 e2 t2 ->
  block t (l1 ++ l2) (eplus e1 e2) t2.
Proof.
  induction 1 as [t|t item e t1' l es t2' Hr Hp _ IH]; intros H2; [by rewrite eplus_unit|].
  replace (eplus (eplus e es) e2) with (eplus e (eplus es e2))
    by (unfold eplus; cbn; f_equal; [by rewrite app_assoc|lia]).
  cbn [app]. econstructor; eauto.
Qed.

Lemma block_size t l e t' : block t l e t' -> zlen l <= snd e.
Proof. induction 1; [done|]. rewrite zlen_cons. cbn. lia. Qed.

(** The main loop over such a sequence: it ends where the sequence does. *)
Lemma decode_block t l e t' : block t l e t' ->
  forall fuel (d : dstate S) rest is_resp h p, table d = t ->
  in_valid (src d) -> in_content (src d) = fst e ++ rest -> 0 <= len d -> len d + snd e < 2 ^ 63 ->
  foldlM apply_field (header d, has_pseudo d) l = Some (h, p) -> zlen l <= Z.of_nat fuel ->
  exists s, decode_loop fuel d (len d + snd e) is_resp limit =
      Val (if verifyHeader h is_resp then 0 else GOAWAY_PROTOCOL_ERROR,
           DState s (len d + snd e) t' h p) /\ in_valid s /\ in_content s = rest.
Proof.
  induction 1 as [t|t item e t1 l es t2 Hr Hp Hb IH];
    intros fuel d rest is_resp h p Ht Hv Hc Hl Hlen Happ Hf.
  - injection Happ as <- <-. cbn [snd fst app] in *. rewrite Z.add_0_r. exists (src d).
    subst t. split; [|done]. destruct fuel; cbn [decode_loop]; rewrite Z.ltb_irrefl; by destruct d.
  - pose proof (block_size _ _ _ _ Hb). pose proof (zlen_nonneg l).
    unfold eplus in *. cbn [fst snd] in *. rewrite zlen_cons in Hf.
    rewrite <- app_assoc in Hc. cbn [foldlM] in Happ.
    destruct (apply_field _ item) as [[h1 p1]|] eqn:E1; [|done].
    destruct (Hr d Ht _ h1 p1 Hv Hc Hl ltac:(lia) E1) as (s1 & Hv1 & Hc1 & E2).
    destruct fuel as [|fuel]; [lia|]. cbn [decode_loop].
    rewrite (proj2 (Z.ltb_lt (len d) _)), E2, bind_Val by lia.
    destruct (IH fuel (DState s1 (len d + snd e) t1 h1 p1) rest is_resp h p) as (s & E3 & Hv3 & Hc3);
      cbn [table src len header has_pseudo] in *; auto; try lia.
    exists s. rewrite Z.add_assoc. auto.
Qed.

(** Adding a field makes the table at most one entry longer. *)
Lemma evict_count q size addition max q' size' :
  DynamicTable.evict q size addition max = Val (q', size') -> zlen q' <= zlen q.
Proof.
  revert size. induction q as [|x q IH]; intros size; cbn [DynamicTable.evict];
    (destruct (_ <? _); [|by intros [= <- _]]); [done|].
  destruct (last (x :: q)); [|done]. intros Hq%IH. rewrite zlen_cons. lia.
Qed.

Lemma set_count t k v b t' : DynamicTable.set t k v = Val (b, t') ->
  zlen (DynamicTable.queue t') <= zlen (DynamicTable.queue t) + 1.
Proof.
  unfold DynamicTable.set. destruct (_ <? _); [intros [= _ <-]; lia|].
  destruct (_ <? _); [intros [= _ <-]; lia|].
  destruct (DynamicTable.evict _ _ _ _) as [[q' size']|] eqn:E; [|done].
  rewrite bind_Val. intros [= _ <-]. apply evict_count in E. cbn. rewrite zlen_app.
  change (zlen [_]) with 1. lia.
Qed.

Lemma encodeIndexCase0_pos i : 1 <= snd (encodeIndexCase0 i).
Proof.
  unfold encodeIndexCase0. destruct (_ <? _); [done|].
  destruct (continuation _ _) as [out r]. pose proof (zlen_nonneg out). cbn. lia.
Qed.

Lemma encode_indexed_count t item e t' : encode_indexed t item = Val (e, t') ->
  zlen (DynamicTable.queue t') <= zlen (DynamicTable.queue t) + 1 /\ 1 <= snd e.
Proof.
  assert (Hpos1 : forall i e, 0 <= i -> 0 <= snd e -> 1 <= snd (eplus (encodeIndexCase1 i) e)).
  { intros i e0 Hi He0. rewrite encodeIndexCase1_spec by done. pose proof (int_emitted_pos 64 6 i).
    unfold eplus. cbn [snd] in *. lia. }
  assert (Hstr : forall s, 0 <= snd (encodeString s)) by (intros s; pose proof (encodeString_pos s); lia).
  assert (Hstr2 : forall s s', 0 <= snd (eplus (encodeString s) (encodeString s')))
    by (intros s s'; pose proof (Hstr s); pose proof (Hstr s'); cbn; lia).
  destruct item as [key value]. unfold encode_indexed. cbv zeta.
  assert (Hstore : forall e0, 1 <= snd e0 ->
    ('(_, t) ← DynamicTable.set t key value; Val (e0, t)) = Val (e, t') ->
    zlen (DynamicTable.queue t') <= zlen (DynamicTable.queue t) + 1 /\ 1 <= snd e).
  { intros e0 He0. destruct (DynamicTable.set _ _ _) as [[b t1]|] eqn:E; [|done].
    rewrite bind_Val. intros [= <- <-]. split; [by apply set_count in E|done]. }
  assert (Hu : forall x, 0 <= u64 x) by (intros x; apply wrap_range; lia).
  pose proof (search_spec PREDEFINED_HEADERS 0 key value None) as Hs.
  assert (Hhit : forall i, Val (encodeIndexCase0 i, t) = Val (e, t') ->
    zlen (DynamicTable.queue t') <= zlen (DynamicTable.queue t) + 1 /\ 1 <= snd e).
  { intros i [= <- <-]. split; [lia|apply encodeIndexCase0_pos]. }
  destruct (search (DynamicTable.queue t) _ _ _ _) as [[a|] [b|]].
  1, 3: apply Hhit.
  - apply Hstore. by apply Hpos1.
  - destruct (search PREDEFINED_HEADERS _ _ _ _) as [[a|] [b|]].
    1, 3: apply Hhit.
    + destruct Hs as [[=]|[Hr _]]. apply Hstore. apply Hpos1; [lia|done].
    + apply Hstore. by apply Hpos1.
Qed.

Lemma block_indexed l : forall t e t', encode_indexed_all t l = Val (e, t') ->
  Forall field_ok l -> zlen (DynamicTable.queue t) + zlen l <= 65 -> block t l e t'.
Proof.
  induction l as [|item l IH]; intros t e t' He HF Hq; cbn [encode_indexed_all] in He.
  - injection He as <- <-. constructor.
  - destruct (encode_indexed t item) as [[e1 t1]|] eqn:E1; [|done]. rewrite bind_Val in He.
    destruct (encode_indexed_all t1 l) as [[es t2]|] eqn:E2; [|done]. injection He as <- <-.
    inversion HF as [|? ? Hok HFl]. rewrite zlen_cons in Hq. pose proof (zlen_nonneg l).
    destruct (encode_indexed_count _ _ _ _ E1). apply block_cons with t1; [|done|].
    + intros d <-. apply read_indexed; [lia|done|done].
    + apply IH; [done|done|lia].
Qed.

Lemma encode_once_pos t item : 1 <= snd (encode_once t item).
Proof.
  assert (Hpos2 : forall i, 1 <= snd (encodeIndexCase2 i)).
  { intros i. unfold encodeIndexCase2. destruct (_ <? _); [done|].
    destruct (continuation _ _) as [out r]. pose proof (zlen_nonneg out). cbn. lia. }
  destruct item as [key value]. unfold encode_once.
  pose proof (encodeString_pos key). pose proof (encodeString_pos value).
  destruct (search (DynamicTable.queue t) _ _ _ _) as [[a|] [b|]]; auto using encodeIndexCase0_pos;
    [pose proof (Hpos2 (a + 62)); cbn [snd eplus]; lia|].
  destruct (search PREDEFINED_HEADERS _ _ _ _) as [[a|] [b|]]; auto using encodeIndexCase0_pos;
    [pose proof (Hpos2 a); cbn [snd eplus]; lia|].
  rewrite encodeIndexCase3_spec by lia. pose proof (int_emitted_pos 16 4 0). cbn [snd eplus] in *. lia.
Qed.

(** The names of [l] are not in the dynamic table. *)
Definition names_absent (t : DynamicTable.t) (l : list entry) : Prop :=
  Forall (fun item => Forall (fun e => fst e <> fst item) (DynamicTable.queue t)) l.

Lemma block_once t l : Forall field_ok l -> names_absent t l ->
  block t l (fold_right (fun item e => eplus (encode_once t item) e) ([], 0) l) t.
Proof.
  induction 1 as [|item l Hok _ IH]; intros Hn; cbn [fold_right]; [constructor|].
  inversion Hn as [|? ? Hi Hl]. apply block_cons with t; [|apply encode_once_pos|auto].
  intros d <-. by apply read_once.
Qed.

Lemma literal_pos k v : 1 <= snd (eplus (encodeIndexCase2 0) (eplus (encodeString k) (encodeString v))).
Proof.
  rewrite encodeIndexCase2_spec by lia. pose proof (int_emitted_pos 0 4 0).
  pose proof (encodeString_pos k). pose proof (encodeString_pos v). unfold eplus. cbn [snd] in *. lia.
Qed.

(** Cookies travel as fields of their own. *)
Fixpoint cookie_fields (l : list (bytes * Cookie)) : outcome (list entry) :=
  match l with
  | [] => Val []
  | (_, c) :: l => s ← buildCookieString c; fs ← cookie_fields l; Val ((str "Set-Cookie", s) :: fs)
  end.

Lemma block_cookies t l : forall fs e, cookie_fields l = Val fs -> encode_cookies l = Val e ->
  Forall field_ok fs -> block t fs e t.
Proof.
  induction l as [|[k c] l IH]; intros fs e Hfs He HF; cbn [cookie_fields encode_cookies] in *.
  - injection Hfs as <-. injection He as <-. constructor.
  - unfold encode_cookie in He. destruct (buildCookieString c) as [s|]; [|done].
    rewrite !bind_Val in *. destruct (cookie_fields l) as [fs'|]; [|done].
    destruct (encode_cookies l) as [es|]; [|done]. injection Hfs as <-. injection He as <-.
    inversion HF as [|? ? [[Hk Hinv] Hv] HFl]. cbn [fst snd] in *. apply block_cons with t.
    + intros d <-. rewrite encodeIndexCase2_spec by lia.
      apply read_literal with false; auto; lia.
    + apply literal_pos.
    + auto.
Qed.
End Blocks.

(** The fields [encode] sends, in order. *)
Definition sent_fields (once_header indexed_header : Header) : outcome (list entry) :=
  c1 ← cookie_fields (from_option id [] (cookies once_header));
  c2 ← cookie_fields (from_option id [] (cookies indexed_header));
  Val (headers indexed_header ++ headers once_header ++ c1 ++ c2).

(** ** Properties *)

(** C3: decoding what [encode] wrote, on any stream and with the same dynamic
    table, applies the fields that were sent in their order, consumes exactly the
    size [encode] returned, ends with the encoder's table, and then gives the
    verdict of [verifyHeader]. This is for fields that pass through the string
    encoding, at most 65 table entries, and single-use names that the dynamic
    table does not hold. *)
Theorem hpack_decode_encode {S : Type} `{MemInput S} (s : S) (t t' : DynamicTable.t)
    (once indexed h h' : Header) (e : emitted) (fields : list entry) (rest : bytes)
    (is_resp pseudo pseudo' : bool) (limit : Z) :
  encode t once indexed = Val (e, t') -> sent_fields once indexed = Val fields ->
  Forall field_ok fields -> zlen (DynamicTable.queue t) + zlen (headers indexed) <= 65 ->
  names_absent t' (headers once) ->
  in_valid s -> in_content s = fst e ++ rest -> snd e < 2 ^ 63 ->
  foldlM apply_field (h, pseudo) fields = Some (h', pseudo') ->
  exists s', decode s (snd e) t h is_resp pseudo limit =
      Val (if verifyHeader h' is_resp then 0 else GOAWAY_PROTOCOL_ERROR,
           DState s' (snd e) t' h' pseudo') /\
    in_valid s' /\ in_content s' = rest.
Proof.
  intros He Hs HF Hq Hn Hv Hc Hlen Happ. unfold encode, sent_fields in *.
  destruct (encode_indexed_all t _) as [[e1 t1]|] eqn:E1; [|done]. rewrite bind_Val in He.
  destruct (cookie_fields (from_option id [] (cookies once))) as [c1|] eqn:Ec1; [|done].
  destruct (cookie_fields (from_option id [] (cookies indexed))) as [c2|] eqn:Ec2; [|done].
  destruct (encode_cookies (from_option id [] (cookies once))) as [e3|] eqn:Ee3; [|done].
  destruct (encode_cookies (from_option id [] (cookies indexed))) as [e4|] eqn:Ee4; [|done].
  rewrite !bind_Val in *. injection Hs as <-. injection He as <- <-.
  rewrite !Forall_app in HF. destruct HF as (HF1 & HF2 & HF3 & HF4).
  set (e := eplus e1 _) in *.
  assert (block (S := S) limit t (headers indexed ++ headers once ++ c1 ++ c2) e t1) as Hb.
  { eapply block_app; [by apply block_indexed|].
    eapply block_app; [by apply block_once|]. eapply block_app; eapply block_cookies; eauto. }
  pose proof (block_size _ _ _ _ _ Hb) as Hsize.
  pose proof (zlen_nonneg (headers indexed ++ headers once ++ c1 ++ c2)).
  apply (decode_block limit t _ e t1 Hb (Z.to_nat (snd e)) (DState s 0 t h pseudo) rest);
    cbn [table src len header has_pseudo]; auto; lia.
Qed.

(** A request with fields from both tables. *)
Definition example_indexed : Header :=
  fold_left (fun h e => header_set h (str (fst e)) (str (snd e)))
    [(":method", "GET"); (":path", "/index"); (":scheme", "https"); (":authority", "example.com");
     ("user-agent", "sese/2.3")]%string empty_header.
Definition example_once : Header := header_set empty_header (str "x-request-token") (str "0123456789").
Definition example_emitted : emitted :=
  match encode (DynamicTable.create 4096) example_once example_indexed with
  | Val (e, _) => e | Undef => ([], 0)
  end.

Lemma string_ok_bool s :
  forallb (fun b => (0 <=? b) && (b <? 2 ^ 8)) s && (zlen (snd (string_code s)) <=? 65534) &&
    (if zlen s >? 8 then forallb unshadowed s else negb (existsb (Z.eqb 0) s)) = true ->
  string_ok s.
Proof.
  intros H. zbool. split; [by apply bytes_ok_bool|]. split; [done|]. destruct (zlen s >? 8); [done|].
  intros Hin. zbool. assert (existsb (Z.eqb 0) s = true) by (apply existsb_exists; by exists 0).
  congruence.
Qed.

Definition field_ok_bool (e : entry) : bool :=
  let ok s := forallb (fun b => (0 <=? b) && (b <? 2 ^ 8)) s && (zlen (snd (string_code s)) <=? 65534) &&
    (if zlen s >? 8 then forallb unshadowed s else negb (existsb (Z.eqb 0) s)) in
  ok (fst e) && ok (snd e) && negb (bool_decide (fst e = str "INVALIDINDEX")).

Lemma fields_ok_bool l : forallb field_ok_bool l = true -> Forall field_ok l.
Proof.
  intros H. apply List.Forall_forall. intros e He. rewrite forallb_forall in H. apply H in He.
  unfold field_ok_bool in He. cbv zeta in He. apply andb_true_iff in He as [[Hk Hv]%andb_true_iff Hn].
  apply negb_true_iff, bool_decide_eq_false in Hn.
  split; [split; [by apply string_ok_bool|done]|by apply string_ok_bool].
Qed.

(** The state of the receiver of the example after its fields. *)
Definition example_received : option (Header * bool) :=
  foldlM apply_field (empty_header, true) (headers example_indexed ++ headers example_once).
Definition example_header : Header := from_option fst empty_header example_received.

Lemma hpack_decode_encode_witness :
  exists s' t',
    decode (InputBufferWrapper.create (fst example_emitted) (snd example_emitted))
      (snd example_emitted) (DynamicTable.create 4096) empty_header false true 8192 =
    Val (if verifyHeader example_header false then 0 else GOAWAY_PROTOCOL_ERROR,
         DState s' (snd example_emitted) t' example_header false) /\
    in_valid s' /\ in_content s' = [] /\ verifyHeader example_header false = true.
Proof.
  assert (exists t', encode (DynamicTable.create 4096) example_once example_indexed =
    Val (example_emitted, t')) as [t' E] by (eexists; vm_compute; reflexivity).
  destruct (hpack_decode_encode
    (InputBufferWrapper.create (fst example_emitted) (snd example_emitted))
    (DynamicTable.create 4096) t' example_once example_indexed empty_header example_header
    example_emitted (headers example_indexed ++ headers example_once ++ [] ++ []) [] false true false 8192)
    as (s' & Hd & Hv & Hc).
  - exact E.
  - reflexivity.
  - apply fields_ok_bool. vm_compute. reflexivity.
  - vm_compute. discriminate.
  - vm_compute in E. injection E as <-. constructor; [|constructor].
    repeat constructor; vm_compute; discriminate.
  - vm_compute. repeat split; discriminate.
  - vm_compute. reflexivity.
  - vm_compute. reflexivity.
  - vm_compute. reflexivity.
  - exists s', t'. split; [exact Hd|]. split; [exact Hv|]. split; [exact Hc|]. vm_compute. reflexivity.
Defined.

(** the index encodings of cases 1 to 3 are read back: on every stream
    that delivers what [encodeIndexCase] wrote after its first byte,
    [decodeInteger] returns the index and counts one byte less than was written. *)
Theorem hpack_integer_roundtrip {S : Type} `{MemInput S} (s : S) (i tag n : Z) (e : emitted)
    (rest : bytes) :
  0 <= i < 2 ^ 32 -> In (n, e) [(6, encodeIndexCase1 i); (4, encodeIndexCase2 i); (4, encodeIndexCase3 i)] ->
  in_valid s -> head (fst e) = Some tag -> in_content s = tail (fst e) ++ rest ->
  exists s', decodeInteger tag s n = Val (snd e - 1, i, s') /\ in_valid s' /\ in_content s' = rest.
Proof.
  intros Hi He Hv Ht Hc. rewrite encodeIndexCase1_spec, encodeIndexCase2_spec, encodeIndexCase3_spec in He by lia.
  assert (exists g, g mod 2 ^ n = 0 /\ 1 <= n <= 7 /\ e = int_emitted g n i) as (g & Hg & Hn & ->).
  { destruct He as [[= <- <-]|[[= <- <-]|[[= <- <-]|[]]]]; [exists 64|exists 0|exists 16];
      (split; [done|split; [lia|done]]). }
  cbn [fst snd int_emitted head tail] in *. injection Ht as <-.
  destruct (decodeInteger_spec g n i s rest) as (s' & -> & Hs'); auto.
  exists s'. split; [|done]. do 2 f_equal. f_equal. lia.
Qed.

Lemma hpack_integer_roundtrip_witness : exists s',
  decodeInteger 79 (InputBufferWrapper.create [63; 178; 161; 7; 5] 5) 6 = Val (0, 15, InputBufferWrapper.create [63; 178; 161; 7; 5] 5) /\
  fst (encodeIndexCase1 123456) = [127; 129; 196; 7] /\
  decodeInteger 127 (InputBufferWrapper.create [129; 196; 7; 5] 4) 6 = Val (3, 123456, s') /\
  in_valid s' /\ in_content s' = [5].
Proof.
  destruct (hpack_integer_roundtrip (InputBufferWrapper.create [129; 196; 7; 5] 4) 123456 127 6
    (encodeIndexCase1 123456) [5]) as (s' & H1 & H2).
  - lia.
  - left. reflexivity.
  - zeval.
  - reflexivity.
  - reflexivity.
  - exists s'. split; [reflexivity|]. split; [reflexivity|]. split; [exact H1|exact H2].
Defined.

(** All continuation bytes have their top bit set. *)
Lemma continuation_bits fuel : forall i, 0 <= i ->
  Forall (fun b => 128 <= b < 256) (fst (continuation fuel i)).
Proof.
  induction fuel as [|fuel IH]; intros i Hi; cbn [continuation]; [constructor|].
  destruct (i >=? 128); [|constructor]. specialize (IH (i / 128)).
  destruct (continuation fuel (i / 128)) as [out r]. constructor; [|apply IH, Z.div_pos; lia].
  pose proof (Z.mod_pos_bound i 128). lia.
Qed.

Lemma continuation_length fuel : forall i k, 0 <= i < 128 ^ (k + 1) -> 0 <= k ->
  zlen (fst (continuation fuel i)) <= k.
Proof.
  induction fuel as [|fuel IH]; intros i k Hi Hk; cbn [continuation]; [cbn [fst]; rewrite zlen_nil; lia|].
  destruct (i >=? 128) eqn:E; [|cbn [fst]; rewrite zlen_nil; lia].
  assert (1 <= k) by (destruct (Z.eq_dec k 0) as [->|]; [change (128 ^ (0 + 1)) with 128 in Hi; lia|lia]).
  specialize (IH (i / 128) (k - 1)). destruct (continuation fuel (i / 128)) as [out r].
  cbn [fst] in *. rewrite zlen_cons. rewrite Z.pow_add_r in Hi by lia.
  enough (zlen out <= k - 1) by lia. apply IH; [|lia].
  replace (k - 1 + 1) with k by lia. split; [apply Z.div_pos; lia|]. apply Z.div_lt_upper_bound; lia.
Qed.

Section Truncated.
Context {S : Type} `{MemInput S}.

(** A sequence of at most four continuation bytes at the end of a stream is
    no integer. *)
Lemma decode_unfinished out : forall dfuel (s : S) dest m len, Forall (fun b => 128 <= b < 256) out ->
  in_valid s -> in_content s = out -> 0 <= m -> m + 7 * zlen out < 32 -> (length out < dfuel)%nat ->
  exists dest' s', decodeInteger_loop dfuel s dest m len = Val (-1, dest', s').
Proof.
  induction out as [|b out IH]; intros [|dfuel] s dest m len Hb Hv Hc Hm Hlt Hf; cbn [length] in Hf; try lia.
  - destruct (read_eof s 1 Hv ltac:(lia) Hc) as (s' & E & _). cbn [decodeInteger_loop].
    rewrite E, bind_Val. eauto.
  - inversion Hb as [|? ? Hb1 Hb2]; subst. rewrite zlen_cons in Hlt. pose proof (zlen_nonneg out).
    destruct (read_byte s _ _ Hv Hc) as (s' & E & Hv' & Hc'). cbn [decodeInteger_loop].
    rewrite E, bind_Val. cbn [head of_option]. change (1 >? 0) with true. cbv iota.
    rewrite bind_Val, (proj2 (Z.ltb_lt m 32)) by lia.
    destruct (byte_bits b) as [_ ->]; [unfold is_u; lia|].
    assert (b / 128 = 1) as -> by (symmetry; apply (Z.div_unique b 128 1 (b - 128)); lia).
    change (128 * 1 =? 0) with false. cbv iota. apply IH; auto; lia.
Qed.
End Truncated.

(** The index encoding of case 0 stops before its last byte: from index
    127 on, a header block that ends with an indexed field is refused with a
    compression error by the decoder of the same library. *)
Theorem hpack_case0_truncated {S : Type} `{MemInput S} (s : S) (i : Z) (t : DynamicTable.t)
    (h : Header) (is_resp pseudo : bool) (limit : Z) :
  127 <= i < 127 + 2 ^ 32 -> in_valid s -> in_content s = fst (encodeIndexCase0 i) ->
  exists d, decode s (snd (encodeIndexCase0 i)) t h is_resp pseudo limit =
    Val (GOAWAY_COMPRESSION_ERROR, d).
Proof.
  intros Hi Hv. unfold encodeIndexCase0. change (u8 (2 ^ 7 - 1)) with 127.
  rewrite (proj2 (Z.ltb_ge i 127)) by lia.
  assert (Hb := continuation_bits 10 (i - 127) ltac:(lia)).
  assert (Hl := continuation_length 10 (i - 127) 4 ltac:(lia) ltac:(lia)).
  destruct (continuation 10 (i - 127)) as [out r]. cbn [fst snd] in *. change (Z.lor 128 127) with 255.
  intros Hc. pose proof (zlen_nonneg out). unfold decode.
  replace (Z.to_nat (1 + zlen out)) with (Datatypes.S (length out)) by (unfold zlen; lia).
  cbn [decode_loop len]. rewrite (proj2 (Z.ltb_lt 0 _)) by lia.
  unfold decode_round. cbn [src]. destruct (read_byte s _ _ Hv Hc) as (s' & -> & Hv' & Hc').
  rewrite bind_Val. change (negb (1 =? 1)) with false. cbv iota. cbn [head of_option]. rewrite bind_Val.
  change (negb (Z.land 255 128 =? 0)) with true. cbv iota. unfold decode_case0, decodeInteger.
  change (Z.land 255 (u16 (2 ^ 7 - 1)) =? u16 (2 ^ 7 - 1)) with true. cbv iota.
  destruct (decode_unfinished out 6 s' (Z.land 255 (u16 (2 ^ 7 - 1))) 0 0) as (dest & s2 & E); auto;
    [lia|lia|unfold zlen in *; lia|].
  cbn [advance with_src src]. rewrite E, !bind_Val. eauto.
Qed.

Lemma hpack_case0_truncated_witness : exists d,
  decode (InputBufferWrapper.create [255] 1) 1 (DynamicTable.create 4096) empty_header true true 8192 =
    Val (GOAWAY_COMPRESSION_ERROR, d).
Proof.
  apply (hpack_case0_truncated (InputBufferWrapper.create [255] 1) 130); [lia|zeval|reflexivity].
Defined.

(** A single-use field that [encode] finds in the dynamic table is sent
    with an index that counts from the wrong end: the receiver, whose table is
    the same, takes the mirrored entry. *)
Theorem hpack_once_mirrored (t : DynamicTable.t) (k v : bytes) (i : Z) :
  search (DynamicTable.queue t) 0 k v None = (Some i, Some i) ->
  encode_once t (k, v) = encodeIndexCase0 (i + 62) /\
  DynamicTable.queue t !! Z.to_nat i = Some (k, v) /\
  DynamicTable.get t (i + 62) =
    DynamicTable.queue t !! Z.to_nat (zlen (DynamicTable.queue t) - 1 - i).
Proof.
  intros Hs. pose proof (search_spec (DynamicTable.queue t) 0 k v None) as Hsp.
  rewrite Hs in Hsp. destruct Hsp as [Hr Hl]. rewrite Z.sub_0_r in Hl. unfold encode_once. rewrite Hs. split; [done|]. split; [done|].
  unfold DynamicTable.get. change (zlen PREDEFINED_HEADERS) with 62.
  rewrite (proj2 (Z.eqb_neq _ 0)), (proj2 (Z.ltb_ge _ 62)), (proj2 (Z.ltb_lt _ (62 + _))) by lia.
  do 2 f_equal. lia.
Qed.

Lemma hpack_once_mirrored_witness :
  let t := DynamicTable.Make 4096 20 [(str "x", str "1"); (str "y", str "2")] in
  encode_once t (str "x", str "1") = encodeIndexCase0 (0 + 62) /\
  DynamicTable.queue t !! Z.to_nat 0 = Some (str "x", str "1") /\
  DynamicTable.get t (0 + 62) = Some (str "y", str "2").
Proof.
  apply (hpack_once_mirrored (DynamicTable.Make 4096 20 [(str "x", str "1"); (str "y", str "2")])
    (str "x") (str "1") 0).
  reflexivity.
Defined.
