(* ===== verification/HPackSafety.v ===== *)
(** * The HPACK decoder on arbitrary input

    What [HPackUtil::decode] guarantees whatever the peer sends, and whatever
    stream it reads from: it terminates, the codes it returns, and what a header
    accepted by it looks like. *)

From S2P Require Import Prelude Streams InputBufferWrapper Text Header DynamicTable Http2Frame HPack.

Section Safety.
Context {S : Type} `{InputStream S}.

Lemma decodeInteger_loop_results fuel : forall (s : S) dest m len, 0 <= len ->
  results (fun r => (fst (fst r) = -1 \/ len < fst (fst r) <= len + Z.of_nat fuel) /\
                    (0 <= dest -> 0 <= snd (fst r)))
    (decodeInteger_loop fuel s dest m len).
Proof.
  induction fuel as [|fuel IH]; intros s dest m len Hl; cbn [decodeInteger_loop]; [exact I|].
  any_first. destruct a as [[c data] s']. destruct (c >? 0); [|cbn; auto].
  any_first. destruct (m <? 32); [|exact I].
  set (dest' := u32 _). assert (0 <= dest') by (apply wrap_range; lia).
  destruct (_ =? 0); [cbn; auto with lia|].
  specialize (IH s' dest' (m + 7) (len + 1) ltac:(lia)).
  destruct (decodeInteger_loop fuel s' _ _ _) as [[[l v] s'']|]; [|exact I]. cbn in *. split; [lia|tauto].
Qed.

Lemma decodeInteger_results buf (s : S) n :
  results (fun r => (fst (fst r) = -1 \/ 0 <= fst (fst r) <= 6) /\ 0 <= snd (fst r))
    (decodeInteger buf s n).
Proof.
  unfold decodeInteger.
  assert (0 <= Z.land buf (u16 (2 ^ n - 1))) by (apply Z.land_nonneg; right; apply wrap_range; lia).
  destruct (_ =? _).
  - pose proof (decodeInteger_loop_results 6 s (Z.land buf (u16 (2 ^ n - 1))) 0 0 ltac:(lia)) as Hr.
    destruct (decodeInteger_loop 6 s _ 0 0) as [[[l v] s']|]; [|exact I]. cbn in *. split; [lia|tauto].
  - cbn. lia.
Qed.

Lemma decodeString_results (s : S) :
  results (fun r => fst (fst r) = -1 \/ 1 <= fst (fst r) <= 65542) (decodeString s).
Proof.
  unfold decodeString. any_first. destruct a as [[c data] s1]. any_first.
  eapply results_bind; [apply decodeInteger_results|]. intros [[l len] s2] [Hl Hlen]. cbn in *.
  destruct (l =? -1) eqn:E1; zbool; [cbn; auto|]. destruct (len >? 65535) eqn:E2; [cbn; auto|].
  any_first. destruct a0 as [[c2 buffer] s3]. destruct (negb _); [cbn; auto|].
  destruct (_ =? 128); [destruct (Huffman.huffman_decode buffer); cbn; lia|].
  destruct (_ && _); cbn; [exact I|lia].
Qed.

(** What a round may do to the state: more input, a table of bounded size, and
    only the two error codes. *)
Definition round_ok (limit : Z) (d : dstate S) (r : round S) : Prop :=
  match r with
  | Go d' => len d < len d' <= len d + 2 ^ 18 /\
             DynamicTable.max (table d') <= Z.max (DynamicTable.max (table d)) limit
  | Stop code _ => code = GOAWAY_COMPRESSION_ERROR \/ code = GOAWAY_PROTOCOL_ERROR
  end.

Lemma store_field_results limit (d0 d : dstate S) k v :
  len d0 < len d <= len d0 + 2 ^ 18 ->
  DynamicTable.max (table d) <= Z.max (DynamicTable.max (table d0)) limit ->
  results (round_ok limit d0) (store_field d k v).
Proof.
  intros Hl Ht. unfold store_field. destruct (strcmpDoNotCase k _); [done|].
  destruct k as [|c k]; [exact I|]. destruct (c =? 58); [|done].
  destruct (negb (has_pseudo d)); [by left|]. destruct (setHeader _ _ _) as [[] h]; [done|by right].
Qed.

Lemma set_max t k v : results (fun r => DynamicTable.max (snd r) = DynamicTable.max t) (DynamicTable.set t k v).
Proof.
  unfold DynamicTable.set. destruct (_ <? _); [done|]. destruct (_ <? _); [done|].
  destruct (DynamicTable.evict _ _ _ _) as [[q size]|]; done.
Qed.

(** [advance] by a bounded positive length, without wrap-around. *)
Lemma advance_len (d : dstate S) l : 0 <= len d < 2 ^ 63 + 2 ^ 20 -> 0 <= l < 2 ^ 20 -> len (advance d l) = len d + l.
Proof. intros. apply wrap_small. unfold is_u. lia. Qed.

Lemma decode_value_results limit (d0 d : dstate S) is_store key :
  0 <= len d0 < 2 ^ 63 -> len d0 < len d <= len d0 + 65549 ->
  DynamicTable.max (table d) <= Z.max (DynamicTable.max (table d0)) limit ->
  results (round_ok limit d0) (decode_value d is_store key).
Proof.
  intros H0 Hl Ht. unfold decode_value. eapply results_bind; [apply decodeString_results|].
  intros [[l value] s] Hr. cbn in Hr. destruct (l =? -1) eqn:E; zbool; [by left|].
  eapply results_bind with (P := fun t => DynamicTable.max t = DynamicTable.max (table d)).
  - unfold store_table. destruct is_store; [|done].
    eapply results_bind; [apply set_max|]. by intros [b t] Hm.
  - intros t Hm. apply store_field_results; cbn [len table with_table]; [|cbn in *; lia].
    rewrite advance_len; cbn [len with_src]; lia.
Qed.

Lemma decode_literal_results limit (d0 d : dstate S) buf n is_store :
  0 <= len d0 < 2 ^ 63 -> len d = len d0 + 1 -> table d = table d0 ->
  results (round_ok limit d0) (decode_literal d buf n is_store).
Proof.
  intros H0 Hl Ht. unfold decode_literal. eapply results_bind; [apply decodeInteger_results|].
  intros [[l index] s] [Hr _]. cbn in Hr. destruct (l =? -1) eqn:E; zbool; [by left|].
  assert (len (advance (with_src d s) l) = len d0 + 1 + l) as Hl1
    by (rewrite advance_len; cbn [len with_src]; lia).
  set (d1 := advance (with_src d s) l) in *. assert (table d1 = table d0) as Ht1 by done.
  destruct (negb _).
  - destruct (DynamicTable.get (table d1) index) as [[key v]|]; [|by left].
    apply decode_value_results; [done|lia|rewrite Ht1; lia].
  - eapply results_bind; [apply decodeString_results|]. intros [[l2 key] s2] Hr2. cbn in Hr2.
    destruct (l2 =? -1) eqn:E2; zbool; [by left|].
    apply decode_value_results; [done|rewrite advance_len; cbn [len with_src]; lia|].
    cbn [table advance with_src]. rewrite Ht1. lia.
Qed.

Lemma decode_round_results limit (d : dstate S) : 0 <= len d < 2 ^ 63 ->
  results (round_ok limit d) (decode_round d limit).
Proof.
  intros H0. unfold decode_round. any_first. destruct a as [[c data] s].
  destruct (negb _); [by left|]. any_first. set (d1 := advance (with_src d s) 1).
  assert (len d1 = len d + 1) as Hl by (unfold d1; rewrite advance_len; cbn [len with_src]; lia).
  destruct (negb (Z.land a 128 =? 0)); [|destruct (_ =? 32); [|destruct (_ =? 64)]].
  - unfold decode_case0. eapply results_bind; [apply decodeInteger_results|].
    intros [[l index] s2] [Hr _]. cbn in Hr. destruct (l =? -1) eqn:E; zbool; [by left|].
    destruct (index =? 0); [by left|].
    destruct (DynamicTable.get _ index) as [[k v]|]; [|by left].
    apply store_field_results; [rewrite advance_len; cbn [len with_src]; lia|].
    change (table (advance _ _)) with (table d). lia.
  - unfold decode_case4. eapply results_bind; [apply decodeInteger_results|].
    intros [[l size] s2] [Hr _]. cbn in Hr. destruct (l =? -1) eqn:E; zbool; [by left|].
    destruct (size >? limit) eqn:E2; [by left|].
    eapply results_bind with (P := fun t => DynamicTable.max t = size).
    + unfold DynamicTable.resize. by destruct (DynamicTable.evict _ _ _ _) as [[q sz]|].
    + intros t Ht. unfold results, round_ok, with_table. cbn [len table].
      rewrite advance_len; cbn [len with_src]; lia.
  - by apply decode_literal_results.
  - by apply decode_literal_results.
Qed.

Lemma decode_loop_results fuel content_length is_resp limit : content_length <= 2 ^ 63 ->
  forall (d : dstate S), 0 <= len d ->
  results (fun r => (fst r = 0 /\ content_length <= len (snd r) /\ verifyHeader (header (snd r)) is_resp = true) \/
                    fst r = GOAWAY_COMPRESSION_ERROR \/ fst r = GOAWAY_PROTOCOL_ERROR)
    (decode_loop fuel d content_length is_resp limit).
Proof.
  intros Hc. induction fuel as [|fuel IH]; intros d Hl; cbn [decode_loop];
    (destruct (len d <? content_length) eqn:E; zbool; [|destruct (verifyHeader _ _) eqn:Ev; cbn; auto]).
  - exact I.
  - eapply results_bind; [apply decode_round_results; lia|].
    intros [d'|code d'] Hr; [|exact (or_intror Hr)]. apply IH. cbn in Hr. lia.
Qed.

(** More fuel than [content_length] changes nothing. *)
Lemma decode_loop_fuel content_length is_resp limit : content_length <= 2 ^ 63 ->
  forall n m (d : dstate S), 0 <= len d -> content_length - len d <= Z.of_nat n -> (n <= m)%nat ->
  decode_loop m d content_length is_resp limit = decode_loop n d content_length is_resp limit.
Proof.
  intros Hc. induction n as [|n IH]; intros [|m] d Hl Hn Hm; try lia; cbn [decode_loop]; try done;
    destruct (len d <? content_length) eqn:E; zbool; try done; [lia|].
  pose proof (decode_round_results limit d ltac:(lia)) as Hr.
  destruct (decode_round d limit) as [[d'|code d']|]; try done. rewrite !bind_Val.
  cbn in Hr. apply IH; lia.
Qed.
End Safety.

(** ** Properties *)

(** A [decode] that meets no undefined behaviour returns one of three codes, whatever the stream delivers; and
    when it returns 0, it has read all of the block, a request has all four of its
    pseudo-header fields and no status, and a response has a status and none of the
    four. *)
Theorem hpack_decode_safe {S : Type} `{InputStream S} (s : S) (n : Z) (t : DynamicTable.t)
    (h : Header) (is_resp pseudo : bool) (limit code : Z) (d : dstate S) :
  n <= 2 ^ 63 -> decode s n t h is_resp pseudo limit = Val (code, d) ->
  In code [0; GOAWAY_COMPRESSION_ERROR; GOAWAY_PROTOCOL_ERROR] /\
  (code = 0 -> n <= len d /\
     header_exist (header d) (str ":status") = is_resp /\
     Forall (fun k => header_exist (header d) k = negb is_resp) REQ_PSEUDO_HEADER).
Proof.
  intros Hn Hd. unfold decode in Hd.
  pose proof (decode_loop_results (Z.to_nat n) n is_resp limit Hn (DState s 0 t h pseudo)) as Hr.
  rewrite Hd in Hr. cbn in Hr. destruct Hr as [(-> & Hlen & Hver)|[->| ->]]; [lia|..].
  - split; [by left|]. intros _. split; [done|]. unfold verifyHeader in Hver.
    destruct is_resp; apply andb_true_iff in Hver as [H1 H2].
    + split; [done|]. apply negb_true_iff in H1. apply List.Forall_forall. intros k Hk.
      destruct (header_exist (header d) k) eqn:E; [|done].
      assert (existsb (header_exist (header d)) REQ_PSEUDO_HEADER = true) by
        (apply existsb_exists; eauto). congruence.
    + apply negb_true_iff in H2. split; [done|]. apply List.Forall_forall.
      by rewrite forallb_forall in H1.
  - split; [by right; left|]. done.
  - split; [by right; right; left|]. done.
Qed.

Lemma hpack_decode_safe_witness :
  exists d, decode (InputBufferWrapper.create [136] 1) 1 (DynamicTable.create 4096) empty_header true true 8192 =
    Val (0, d) /\
  In 0 [0; GOAWAY_COMPRESSION_ERROR; GOAWAY_PROTOCOL_ERROR] /\
  (0 = 0 -> 1 <= len d /\ header_exist (header d) (str ":status") = true /\
     Forall (fun k => header_exist (header d) k = negb true) REQ_PSEUDO_HEADER).
Proof.
  eexists. split; [vm_compute; reflexivity|].
  apply (hpack_decode_safe (InputBufferWrapper.create [136] 1) 1 (DynamicTable.create 4096) empty_header
    true true 8192).
  - lia.
  - vm_compute. reflexivity.
Defined.

(** The main loop terminates: every round consumes at least one byte of
    the block, so no number of rounds above [content_length] changes the result,
    on any stream. *)
Theorem hpack_decode_terminates {S : Type} `{InputStream S} (s : S) (n : Z) (t : DynamicTable.t)
    (h : Header) (is_resp pseudo : bool) (limit : Z) (fuel : nat) :
  n <= 2 ^ 63 -> (Z.to_nat n <= fuel)%nat ->
  decode_loop fuel (DState s 0 t h pseudo) n is_resp limit = decode s n t h is_resp pseudo limit.
Proof. intros Hn Hf. apply decode_loop_fuel; cbn [len]; lia. Qed.

Lemma hpack_decode_terminates_witness :
  decode_loop 1000 (DState (InputBufferWrapper.create [136] 1) 0 (DynamicTable.create 4096) empty_header true)
    1 true 8192 =
  decode (InputBufferWrapper.create [136] 1) 1 (DynamicTable.create 4096) empty_header true true 8192.
Proof. apply hpack_decode_terminates; lia. Defined.
