(* ===== verification/Base64.v ===== *)
(** * Base64 and the group encoding called Base62

    Models [sese/util/Base64Converter.cpp], between any input stream and any
    output stream. *)

From S2P Require Import Prelude Streams InputBufferWrapper OutputBufferWrapper.

(*@ sese/util/Base64Converter.cpp 27-27 base64_code_page *)
Definition base64_code_page : bytes :=
  str "ABCDEFGHIJKLMNOPQRSTUVWXYZabcdefghijklmnopqrstuvwxyz0123456789+/".

(*@ sese/util/Base64Converter.cpp 29-29 base62_code_page *)
Definition base62_code_page : bytes :=
  str "ABCDEFGHIJKLMNOPQRSTUVWXYZabcdefghijklmnopqrstuvwxyz0123456789".

(** An element of an array. *)
Definition at_ {A} (l : list A) (i : Z) : outcome A :=
  if i <? 0 then Undef else of_option (l !! Z.to_nat i).

(** An assignment to an element of an array. *)
Definition store (l : bytes) (i : Z) (b : byte) : outcome bytes := memcpy l i [b].

(*@ sese/util/Base64Converter.cpp 31-33 encode *)
Definition encode_char (b : byte) : outcome byte := at_ base64_code_page b.

Section Converter.
Context {S D : Type} `{InputStream S} `{OutputStream D}.

(*@ sese/util/Base64Converter.cpp 41-46 Base64Converter::encode *)
Definition clear_tail (buffer : bytes) (len : Z) : outcome bytes :=
  if len =? 2 then store buffer 2 0
  else if len =? 1 then b ← store buffer 1 0; store b 2 0
  else Val buffer.

(*@ sese/util/Base64Converter.cpp 48-65 Base64Converter::encode *)
(** The characters of one group, stored in [result]. *)
Definition encode_group (buffer result : bytes) (len : Z) : outcome bytes :=
  b0 ← at_ buffer 0; b1 ← at_ buffer 1; b2 ← at_ buffer 2;
  c ← encode_char (Z.shiftr (Z.land b0 252) 2);
  result ← store result 0 c;
  c ← encode_char (Z.lor (u8 (Z.shiftl (Z.land b0 3) 4)) (Z.shiftr (Z.land b1 240) 4));
  result ← store result 1 c;
  if len >=? 2 then
    c ← encode_char (Z.lor (u8 (Z.shiftl (Z.land b1 15) 2)) (Z.shiftr (Z.land b2 192) 6));
    result ← store result 2 c;
    if len =? 3 then
      c ← encode_char (Z.land b2 63);
      store result 3 c
    else Val result
  else Val result.

(*@ sese/util/Base64Converter.cpp 35-69 Base64Converter::encode *)
(** The loop; the counts returned by [write] are ignored. *)
Fixpoint encode_loop (fuel : nat) (src : S) (dest : D) (buffer result : bytes) : outcome (S * D) :=
  match fuel with
  | O => Undef
  | Datatypes.S fuel =>
      '(len, data, src) ← stream_read src 3;
      buffer ← memcpy buffer 0 data;
      if len =? 0 then Val (src, dest)
      else
        buffer ← clear_tail buffer len;
        result ← encode_group buffer result len;
        out ← memread result 0 (len + 1);
        '(_, dest) ← stream_write dest out;
        if negb (len =? 3) then
          '(_, dest) ← stream_write dest (if len =? 1 then str "==" else str "=");
          encode_loop fuel src dest buffer result
        else encode_loop fuel src dest buffer result
  end.

(*@ sese/util/Base64Converter.cpp 35-69 Base64Converter::encode *)
Definition encode (fuel : nat) (src : S) (dest : D) : outcome (S * D) :=
  encode_loop fuel src dest [0; 0; 0] [0; 0; 0; 0].

(*@ sese/util/Base64Converter.cpp 85-98 Base64Converter::decode *)
(** The value of a character, or that it is none of the alphabet. *)
Definition decode_char (c : byte) : option byte :=
  if (65 <=? c) && (c <=? 90) then Some (c - 65)
  else if (97 <=? c) && (c <=? 122) then Some (c - 71)
  else if (48 <=? c) && (c <=? 57) then Some (c + 4)
  else if (c =? 43) || (c =? 45) then Some 62
  else if (c =? 47) || (c =? 95) then Some 63
  else None.

(*@ sese/util/Base64Converter.cpp 82-100 Base64Converter::decode *)
(** The loop over the characters read: a foreign character becomes 0 and
    lowers [offset]. *)
Fixpoint decode_chars (cs : bytes) : bytes * Z :=
  match cs with
  | [] => ([], 0)
  | c :: cs =>
      let '(bs, offset) := decode_chars cs in
      match decode_char c with Some b => (b :: bs, offset) | None => (0 :: bs, offset - 1) end
  end.

(*@ sese/util/Base64Converter.cpp 104-116 Base64Converter::decode *)
Definition decode_group (buffer : bytes) (len : Z) : outcome bytes :=
  b0 ← at_ buffer 0; b1 ← at_ buffer 1; b2 ← at_ buffer 2; b3 ← at_ buffer 3;
  if len >=? 2 then
    buffer ← store buffer 0 (u8 (Z.lor (Z.shiftl b0 2) (Z.shiftr (Z.land b1 48) 4)));
    if len >=? 3 then
      buffer ← store buffer 1 (u8 (Z.lor (Z.shiftl (Z.land b1 15) 4) (Z.shiftr (Z.land b2 60) 2)));
      if len =? 4 then store buffer 2 (u8 (Z.lor (Z.shiftl (Z.land b2 3) 6) b3))
      else Val buffer
    else Val buffer
  else Val buffer.

(*@ sese/util/Base64Converter.cpp 77-120 Base64Converter::decode *)
(** A negative length given to [write] is a huge one: the read runs out of
    the buffer. *)
Fixpoint decode_loop (fuel : nat) (src : S) (dest : D) (buffer : bytes) : outcome (S * D) :=
  match fuel with
  | O => Undef
  | Datatypes.S fuel =>
      '(len, data, src) ← stream_read src 4;
      buffer ← memcpy buffer 0 data;
      if len =? 0 then Val (src, dest)
      else
        let '(values, offset) := decode_chars (ztake len buffer) in
        buffer ← memcpy buffer 0 values;
        let len := len + offset in
        buffer ← decode_group buffer len;
        out ← memread buffer 0 (len - 1);
        '(_, dest) ← stream_write dest out;
        decode_loop fuel src dest buffer
  end.

(*@ sese/util/Base64Converter.cpp 77-120 Base64Converter::decode *)
Definition decode (fuel : nat) (src : S) (dest : D) : outcome (S * D) :=
  decode_loop fuel src dest [0; 0; 0; 0].

(** ** Base62 *)

(*@ sese/util/Base64Converter.cpp 136-140 Base64Converter::encodeInteger *)
(** The digits of a number, the last one first; [div] takes and returns
    [int]s, and a [size_t] is at most [62 ^ 11]. *)
Fixpoint integer_digits (fuel : nat) (num : Z) : outcome bytes :=
  if num >? 0 then
    match fuel with
    | O => Undef
    | Datatypes.S fuel =>
        c ← at_ base62_code_page (Z.rem (swrap 32 num) 62);
        cs ← integer_digits fuel (u64 (Z.quot (swrap 32 num) 62));
        Val (c :: cs)
    end
  else Val [].

(*@ sese/util/Base64Converter.cpp 128-144 Base64Converter::encodeInteger *)
Definition encodeInteger (num : Z) (output : D) : outcome (bool * D) :=
  if num =? 0 then
    c ← at_ base62_code_page 0;
    '(_, output) ← stream_write output [c];
    Val (true, output)
  else
    vector ← integer_digits 11 num;
    '(n, output) ← stream_write output (rev vector);
    Val (n =? zlen vector, output).

(*@ sese/util/Base64Converter.cpp 152-152 Base64Converter::decodeBuffer *)
(** [page.find]. *)
Fixpoint position (page : bytes) (c : byte) : option Z :=
  match page with
  | [] => None
  | d :: page => if d =? c then Some 0 else Z.succ <$> position page c
  end.

(*@ sese/util/Base64Converter.cpp 146-157 Base64Converter::decodeBuffer *)
(** The sum is in [int64_t]; the product with [size_t] wraps around. *)
Fixpoint decodeBuffer_loop (buffer : bytes) (num : Z) : Z :=
  match buffer with
  | [] => num
  | c :: buffer =>
      match position base62_code_page c with
      | None => -1
      | Some i => decodeBuffer_loop buffer (swrap 64 (num + i * 62 ^ zlen buffer))
      end
  end.

(*@ sese/util/Base64Converter.cpp 146-157 Base64Converter::decodeBuffer *)
Definition decodeBuffer (buffer : bytes) : Z := decodeBuffer_loop buffer 0.

(*@ sese/util/Base64Converter.cpp 164-175 Base64Converter::encodeBase62 *)
(** The big-endian number of a group of at most three bytes. *)
Definition base62_number (group : bytes) : Z := fold_left (fun a b => a * 256 + b) group 0.

(*@ sese/util/Base64Converter.cpp 159-182 Base64Converter::encodeBase62 *)
Fixpoint encodeBase62 (fuel : nat) (input : S) (output : D) : outcome (bool * S * D) :=
  match fuel with
  | O => Undef
  | Datatypes.S fuel =>
      '(len, data, input) ← stream_read input 3;
      if len =? 0 then Val (true, input, output)
      else
        '(ok, output) ← encodeInteger (base62_number data) output;
        if negb ok then Val (false, input, output) else encodeBase62 fuel input output
  end.

(*@ sese/util/Base64Converter.cpp 195-207 Base64Converter::decodeBase62 *)
(** The low bytes of the number, most significant first. *)
Definition low_bytes (num : Z) (n : nat) : bytes :=
  map (fun k => u8 (Z.shiftr num (8 * Z.of_nat k))) (rev (seq 0 n)).

(*@ sese/util/Base64Converter.cpp 184-216 Base64Converter::decodeBase62 *)
Fixpoint decodeBase62 (fuel : nat) (input : S) (output : D) : outcome (bool * S * D) :=
  match fuel with
  | O => Undef
  | Datatypes.S fuel =>
      '(len, data, input) ← stream_read input 4;
      if len =? 0 then Val (true, input, output)
      else
        let num := decodeBuffer data in
        if num =? -1 then Val (false, input, output)
        else if (2 <=? len) && (len <=? 4) then
          '(n, output) ← stream_write output (low_bytes num (Z.to_nat (len - 1)));
          if n =? len - 1 then decodeBase62 fuel input output else Val (false, input, output)
        else Val (false, input, output)
  end.
End Converter.

(** ** The encoding that is meant

    The 24-bit number of a group is cut into four digits of the alphabet; the
    digits that hold no bit of the input are replaced by the padding. *)

(** The alphabet of RFC 4648: capital letters, small letters, digits, plus and slash. *)
Definition digit (i : Z) : byte :=
  if i <? 26 then 65 + i else if i <? 52 then 97 + (i - 26) else if i <? 62 then 48 + (i - 52) else if i =? 62 then 43 else 47.

Definition quad (n : Z) : bytes :=
  map digit [n / 262144; n / 4096 mod 64; n / 64 mod 64; n mod 64].

Fixpoint base64 (l : bytes) : bytes :=
  match l with
  | [] => []
  | [a] => ztake 2 (quad (a * 65536)) ++ str "=="
  | [a; b] => ztake 3 (quad (a * 65536 + b * 256)) ++ str "="
  | a :: b :: c :: l => quad (a * 65536 + b * 256 + c) ++ base64 l
  end.

(** Induction by groups of three. *)
Lemma group_ind (P : bytes -> Prop) :
  P [] -> (forall a, P [a]) -> (forall a b, P [a; b]) ->
  (forall a b c l, P l -> P (a :: b :: c :: l)) -> forall l, P l.
Proof.
  intros H0 H1 H2 H3. fix IH 1. intros [|a [|b [|c l]]]; [done|done|done|]. apply H3, IH.
Qed.

(** The bit operations of the code, on all bytes. *)
Lemma encode_bits a b : is_byte a -> is_byte b ->
  Z.shiftr (Z.land a 252) 2 = a / 4 /\
  Z.lor (u8 (Z.shiftl (Z.land a 3) 4)) (Z.shiftr (Z.land b 240) 4) = a mod 4 * 16 + b / 16 /\
  Z.lor (u8 (Z.shiftl (Z.land a 15) 2)) (Z.shiftr (Z.land b 192) 6) = a mod 16 * 4 + b / 64 /\
  Z.land a 63 = a mod 64.
Proof.
  intros Ha Hb.
  assert (forallb (fun a => forallb (fun b =>
    (Z.shiftr (Z.land a 252) 2 =? a / 4) &&
    (Z.lor (u8 (Z.shiftl (Z.land a 3) 4)) (Z.shiftr (Z.land b 240) 4) =? a mod 4 * 16 + b / 16) &&
    (Z.lor (u8 (Z.shiftl (Z.land a 15) 2)) (Z.shiftr (Z.land b 192) 6) =? a mod 16 * 4 + b / 64) &&
    (Z.land a 63 =? a mod 64)) (seqZ 0 256)) (seqZ 0 256) = true) as Hall by (vm_compute; reflexivity).
  pose proof (forallb_seqZ _ _ (forallb_seqZ _ _ Hall a Ha) b Hb) as Hab. cbn beta in Hab. zbool. auto.
Qed.

Lemma decode_bits a b : 0 <= a < 64 -> 0 <= b < 64 ->
  u8 (Z.lor (Z.shiftl a 2) (Z.shiftr (Z.land b 48) 4)) = a * 4 + b / 16 /\
  u8 (Z.lor (Z.shiftl (Z.land a 15) 4) (Z.shiftr (Z.land b 60) 2)) = a mod 16 * 16 + b / 4 /\
  u8 (Z.lor (Z.shiftl (Z.land a 3) 6) b) = a mod 4 * 64 + b.
Proof.
  intros Ha Hb.
  assert (forallb (fun a => forallb (fun b =>
    (u8 (Z.lor (Z.shiftl a 2) (Z.shiftr (Z.land b 48) 4)) =? a * 4 + b / 16) &&
    (u8 (Z.lor (Z.shiftl (Z.land a 15) 4) (Z.shiftr (Z.land b 60) 2)) =? a mod 16 * 16 + b / 4) &&
    (u8 (Z.lor (Z.shiftl (Z.land a 3) 6) b) =? a mod 4 * 64 + b)) (seqZ 0 64)) (seqZ 0 64) = true)
    as Hall by (vm_compute; reflexivity).
  pose proof (forallb_seqZ _ _ (forallb_seqZ _ _ Hall a Ha) b Hb) as Hab. cbn beta in Hab. zbool. auto.
Qed.

Lemma digit_spec i : 0 <= i < 64 ->
  encode_char i = Val (digit i) /\ decode_char (digit i) = Some i /\ is_byte (digit i).
Proof.
  intros Hi. apply (forallb_seqZ (fun i => bool_decide (encode_char i = Val (digit i)) &&
    bool_decide (decode_char (digit i) = Some i) && bool_decide (is_byte (digit i))) 64) in Hi.
  - zbool. rewrite !bool_decide_eq_true in *. auto.
  - vm_compute. reflexivity.
Qed.

(** One group of the encoder. *)
Lemma encode_group_spec b0 b1 b2 r0 r1 r2 r3 len : is_byte b0 -> is_byte b1 -> is_byte b2 ->
  1 <= len <= 3 -> (len < 3 -> b2 = 0) -> (len < 2 -> b1 = 0) ->
  exists r, encode_group [b0; b1; b2] [r0; r1; r2; r3] len = Val r /\ length r = 4%nat /\
    ztake (len + 1) r = ztake (len + 1) (quad (b0 * 65536 + b1 * 256 + b2)).
Proof.
  intros H0 H1 H2 Hl Hb2 Hb1. set (n := b0 * 65536 + b1 * 256 + b2).
  destruct (encode_bits b0 b1 H0 H1) as (E0 & E1 & _ & _).
  destruct (encode_bits b1 b2 H1 H2) as (_ & _ & E2 & _).
  destruct (encode_bits b2 b2 H2 H2) as (_ & _ & _ & E3). unfold is_u in *.
  assert (n / 262144 = b0 / 4 /\ n / 4096 mod 64 = b0 mod 4 * 16 + b1 / 16 /\
          n / 64 mod 64 = b1 mod 16 * 4 + b2 / 64 /\ n mod 64 = b2 mod 64) as (N0 & N1 & N2 & N3)
    by (unfold n; clear - H0 H1 H2; repeat split; dlia).
  unfold encode_group. change (at_ [b0; b1; b2] 0) with (Val b0). change (at_ [b0; b1; b2] 1) with (Val b1).
  change (at_ [b0; b1; b2] 2) with (Val b2). rewrite !bind_Val, E0, E1, E2, E3.
  destruct (digit_spec (b0 / 4)) as [-> _]; [dlia|].
  destruct (digit_spec (b0 mod 4 * 16 + b1 / 16)) as [-> _]; [dlia|].
  destruct (digit_spec (b1 mod 16 * 4 + b2 / 64)) as [-> _]; [dlia|].
  destruct (digit_spec (b2 mod 64)) as [-> _]; [dlia|].
  unfold quad. rewrite N0, N1, N2, N3.
  assert (len = 1 \/ len = 2 \/ len = 3) as [->|[->| ->]] by lia; eexists; repeat split; reflexivity.
Qed.

(** One group of the decoder, whose first [len] values are digits. *)
Lemma decode_group_spec v0 v1 v2 v3 len : 0 <= v0 < 64 -> 0 <= v1 < 64 -> 0 <= v2 < 64 -> 0 <= v3 < 64 ->
  2 <= len <= 4 ->
  exists r, decode_group [v0; v1; v2; v3] len = Val r /\ length r = 4%nat /\
    memread r 0 (len - 1) = Val (ztake (len - 1)
      [v0 * 4 + v1 / 16; v1 mod 16 * 16 + v2 / 4; v2 mod 4 * 64 + v3]).
Proof.
  intros H0 H1 H2 H3 Hl. destruct (decode_bits v0 v1 H0 H1) as (E0 & _ & _).
  destruct (decode_bits v1 v2 H1 H2) as (_ & E1 & _). destruct (decode_bits v2 v3 H2 H3) as (_ & _ & E2).
  unfold decode_group. change (at_ [v0; v1; v2; v3] 0) with (Val v0).
  change (at_ [v0; v1; v2; v3] 1) with (Val v1). change (at_ [v0; v1; v2; v3] 2) with (Val v2).
  change (at_ [v0; v1; v2; v3] 3) with (Val v3). rewrite !bind_Val, E0, E1.
  assert (len = 2 \/ len = 3 \/ len = 4) as [->|[->| ->]] by lia; cbn [Z.geb Z.compare Pos.compare Pos.compare_cont Z.eqb Pos.eqb].
  3: rewrite <- E2.
  all: eexists; repeat split; reflexivity.
Qed.

(** A decoder that, like the code, drops what it does not know. *)
Lemma decode_chars_digits vs k : Forall (fun v => 0 <= v < 64) vs ->
  decode_chars (map digit vs ++ repeat 61 k) = (vs ++ repeat 0 k, - Z.of_nat k).
Proof.
  induction 1 as [|v vs Hv _ IH]; cbn [map app decode_chars].
  - induction k as [|k IH]; [done|]. cbn [repeat app decode_chars]. rewrite IH.
    change (decode_char 61) with (@None byte). cbn [app]. f_equal. lia.
  - rewrite IH. destruct (digit_spec v Hv) as (_ & -> & _). done.
Qed.

Section Loops.
Context {S D : Type} `{MemInput S} `{MemOutput D}.

(** A group of one to three bytes, completed with zeros. *)
Lemma group_cases g : 1 <= zlen g <= 3 -> bytes_ok g ->
  exists b0 b1 b2, is_byte b0 /\ is_byte b1 /\ is_byte b2 /\
    (zlen g < 3 -> b2 = 0) /\ (zlen g < 2 -> b1 = 0) /\
    base64 g = ztake (zlen g + 1) (quad (b0 * 65536 + b1 * 256 + b2)) ++ repeat 61 (3 - length g) /\
    (forall x0 x1 x2, (buffer ← memcpy [x0; x1; x2] 0 g; clear_tail buffer (zlen g)) = Val [b0; b1; b2]).
Proof.
  intros Hl Hb. destruct g as [|a [|b [|c [|]]]]; try (exfalso; zlen);
    repeat (match goal with H : bytes_ok (_ :: _) |- _ => inversion H; clear H; subst
                          | H : Forall is_byte (_ :: _) |- _ => inversion H; clear H; subst end).
  - exists a, 0, 0. replace (a * 65536 + 0 * 256 + 0) with (a * 65536) by lia.
    split_and!; done.
  - exists a, b, 0. replace (a * 65536 + b * 256 + 0) with (a * 65536 + b * 256) by lia.
    split_and!; done.
  - exists a, b, c. split_and!; done.
Qed.

Lemma base64_group g l : length g = 3%nat -> base64 (g ++ l) = base64 g ++ base64 l.
Proof. destruct g as [|a [|b [|c [|]]]]; done. Qed.

(** One round of the encoder: the loop goes on with the rest of the stream and
    with the group written. *)
Lemma encode_round fuel (s : S) (d : D) buffer result g rest n :
  1 <= zlen g <= 3 -> (zlen g < 3 -> rest = []) -> bytes_ok g -> in_valid s -> in_content s = g ++ rest ->
  out_valid d -> 0 <= n -> out_room d (zlen (base64 g) + n) ->
  length buffer = 3%nat -> length result = 4%nat ->
  exists s' d' buffer' result', encode_loop (Datatypes.S fuel) s d buffer result =
      encode_loop fuel s' d' buffer' result' /\
    in_valid s' /\ in_content s' = rest /\ out_valid d' /\ out_content d' = out_content d ++ base64 g /\
    out_room d' n /\ length buffer' = 3%nat /\ length result' = 4%nat.
Proof.
  intros Hl Hrest Hb Hv Hc Ho Hn Hr Hbuf Hres.
  destruct (group_cases g Hl Hb) as (b0 & b1 & b2 & H0' & H1' & H2' & Hb2 & Hb1 & Hg & Hclear).
  destruct buffer as [|x0 [|x1 [|x2 [|]]]]; try done. specialize (Hclear x0 x1 x2).
  destruct result as [|r0 [|r1 [|r2 [|r3 [|]]]]]; try done.
  cbn [encode_loop]. destruct (read_law s 3 Hv ltac:(lia)) as (s' & -> & Hv' & Hc').
  assert (Z.min 3 (zlen (g ++ rest)) = zlen g /\ ztake 3 (g ++ rest) = g /\ zdrop 3 (g ++ rest) = rest)
    as (Hmin & Htake & Hdrop).
  { pose proof (zlen_nonneg rest). rewrite zlen_app. destruct (decide (zlen g = 3)) as [E|].
    - rewrite ztake_app_ge, zdrop_app_ge, E, Z.sub_diag, ztake_0, zdrop_0, app_nil_r by lia.
      split_and!; done || lia.
    - rewrite Hrest, app_nil_r, ztake_ge, zdrop_ge by lia. rewrite zlen_nil. split_and!; done || lia. }
  rewrite Hc in Hc' |- *. rewrite Hmin, Htake, Hdrop in *. rewrite bind_Val.
  destruct (memcpy [x0; x1; x2] 0 g) as [buffer|]; [|done].
  unfold mbind, outcome_bind in Hclear. rewrite bind_Val.
  rewrite (proj2 (Z.eqb_neq _ 0)), Hclear, bind_Val by lia.
  destruct (encode_group_spec b0 b1 b2 r0 r1 r2 r3 (zlen g)) as (r & -> & Hlr & Et); auto.
  rewrite bind_Val, memread_Val, bind_Val by (unfold zlen in *; lia).
  unfold slice. rewrite zdrop_0, Et by lia. rewrite Hg, zlen_app, <- Z.add_assoc in Hr.
  rewrite Hg. destruct (write_step d _ _ Ho (Z.add_nonneg_nonneg _ _ (zlen_nonneg _) Hn) Hr) as (d' & -> & Ho' & Hd' & Hr').
  rewrite bind_Val. destruct (zlen g =? 3) eqn:E3; zbool; cbn [negb].
  - exists s', d', [b0; b1; b2], r. rewrite Hd'. replace (3 - length g)%nat with 0%nat in * by (unfold zlen in *; lia).
    cbn [repeat] in *. rewrite app_nil_r. auto 10.
  - replace (if zlen g =? 1 then str "==" else str "=") with (repeat 61 (3 - length g)%nat)
      by (destruct g as [|? [|? [|]]]; (reflexivity || exfalso; zlen)).
    destruct (write_step d' _ n Ho' Hn Hr') as (d2 & -> & Ho2 & Hd2 & Hr2). rewrite bind_Val.
    exists s', d2, [b0; b1; b2], r. rewrite Hd2, Hd', app_assoc. auto 10.
Qed.

(** The encoder's loop writes the encoding of what the stream holds. *)
Lemma base64_encode_loop_spec c : forall fuel (s : S) (d : D) buffer result,
  bytes_ok c -> in_valid s -> in_content s = c -> out_valid d -> out_room d (zlen (base64 c)) ->
  (length c < fuel)%nat -> length buffer = 3%nat -> length result = 4%nat ->
  exists s' d', encode_loop fuel s d buffer result = Val (s', d') /\
    in_valid s' /\ in_content s' = [] /\ out_valid d' /\ out_content d' = out_content d ++ base64 c.
Proof.
  assert (Hnil : forall fuel (s : S) (d : D) buffer result, in_valid s -> in_content s = [] ->
    (0 < fuel)%nat -> out_valid d -> exists s' d', encode_loop fuel s d buffer result = Val (s', d') /\
    in_valid s' /\ in_content s' = [] /\ out_valid d' /\ out_content d' = out_content d).
  { intros [|fuel] s d buffer result Hv Hc Hf Ho; [lia|]. cbn [encode_loop].
    destruct (read_eof s 3 Hv ltac:(lia) Hc) as (s' & -> & Hv' & Hc'). rewrite bind_Val.
    rewrite memcpy_Val by (pose proof (zlen_nonneg buffer); zlen). rewrite bind_Val. cbn. eauto 10. }
  induction c as [|a|a b|a b c l IH] using group_ind;
    intros [|fuel] s d buffer result Hb Hv Hc Ho Hr Hf Hbuf Hres; cbn [length] in Hf; try lia.
  - cbn [base64]. rewrite app_nil_r. apply Hnil; [done|done|lia|done].
  - destruct (encode_round fuel s d buffer result [a] [] 0) as (s1 & d1 & b1 & r1 & -> & Hv1 & Hc1 & Ho1 & <- & _);
      auto; try (rewrite ?Z.add_0_r; done || lia). apply Hnil; auto; lia.
  - destruct (encode_round fuel s d buffer result [a; b] [] 0) as (s1 & d1 & b1 & r1 & -> & Hv1 & Hc1 & Ho1 & <- & _);
      auto; try (rewrite ?Z.add_0_r; done || lia). apply Hnil; auto; lia.
  - change (a :: b :: c :: l) with ([a; b; c] ++ l) in *. rewrite base64_group, zlen_app in Hr by done.
    apply Forall_app in Hb as [Hb1 Hb2].
    destruct (encode_round fuel s d buffer result [a; b; c] l (zlen (base64 l)))
      as (s1 & d1 & b1 & r1 & -> & Hv1 & Hc1 & Ho1 & Hd1 & Hr1 & Hbuf1 & Hres1);
      auto; try done; try apply zlen_nonneg.
    destruct (IH fuel s1 d1 b1 r1) as (s2 & d2 & E & ? & ? & ? & Hd2); auto; [lia|].
    exists s2, d2. rewrite E, Hd2, Hd1, base64_group, <- app_assoc by done. auto.
Qed.
(** The values of the four characters of a group, and the bytes in them. *)
Definition sextets (n : Z) : bytes := [n / 262144; n / 4096 mod 64; n / 64 mod 64; n mod 64].

Lemma sextets_range n : 0 <= n < 2 ^ 24 -> Forall (fun v => 0 <= v < 64) (sextets n).
Proof. intros H'. unfold sextets. repeat constructor; dlia. Qed.

Lemma base64_sextets g : 1 <= zlen g <= 3 -> bytes_ok g ->
  exists n, 0 <= n < 2 ^ 24 /\
    base64 g = map digit (ztake (zlen g + 1) (sextets n)) ++ repeat 61 (3 - length g) /\
    (exists r, decode_group (ztake (zlen g + 1) (sextets n) ++ repeat 0 (3 - length g)) (zlen g + 1) = Val r /\
       length r = 4%nat /\ memread r 0 (zlen g + 1 - 1) = Val g).
Proof.
  intros Hl Hb. destruct (group_cases g Hl Hb) as (b0 & b1 & b2 & H0' & H1' & H2' & Hb2 & Hb1 & Hg & Hclear).
  set (n := b0 * 65536 + b1 * 256 + b2) in *. unfold is_u in *.
  assert (0 <= n < 2 ^ 24) as Hn by (unfold n; lia). exists n. split; [done|]. split.
  { rewrite Hg. unfold ztake. f_equal. apply (firstn_map digit). }
  pose proof (sextets_range n Hn) as Hr. unfold sextets in Hr |- *.
  assert (n / 262144 * 4 + n / 4096 mod 64 / 16 = b0 /\
          n / 4096 mod 64 mod 16 * 16 + n / 64 mod 64 / 4 = b1 /\
          n / 64 mod 64 mod 4 * 64 + n mod 64 = b2) as (N0 & N1 & N2)
    by (unfold n; clear - H0' H1' H2'; repeat split; dlia).
  set (v0 := n / 262144) in *. set (v1 := n / 4096 mod 64) in *. set (v2 := n / 64 mod 64) in *.
  set (v3 := n mod 64) in *.
  rewrite !Forall_cons in Hr. destruct Hr as (R0 & R1 & R2 & R3 & _).
  specialize (Hclear 0 0 0). unfold mbind, outcome_bind in Hclear.
  destruct g as [|a [|b [|c [|]]]]; try (exfalso; zlen); injection Hclear as E0 E1 E2;
    [assert (b1 = 0) by (apply Hb1; done); assert (b2 = 0) by (apply Hb2; done)|assert (b2 = 0) by (apply Hb2; done)|];
    [destruct (decode_group_spec v0 v1 0 0 2) as (r & Er & Hlr & Em)
    |destruct (decode_group_spec v0 v1 v2 0 3) as (r & Er & Hlr & Em)
    |destruct (decode_group_spec v0 v1 v2 v3 4) as (r & Er & Hlr & Em)]; try done; try lia;
    exists r; split; auto; split; auto.
  - change (zlen [a] + 1 - 1) with (2 - 1). rewrite Em, N0, E0. done.
  - change (zlen [a; b] + 1 - 1) with (3 - 1). rewrite Em, N0, N1, E0, E1. done.
  - change (zlen [a; b; c] + 1 - 1) with (4 - 1). rewrite Em, N0, N1, N2, E0, E1, E2. done.
Qed.

(** One round of the decoder on the characters of a group. *)
Lemma decode_round fuel (s : S) (d : D) buffer g rest n :
  1 <= zlen g <= 3 -> bytes_ok g -> in_valid s -> in_content s = base64 g ++ rest ->
  out_valid d -> 0 <= n -> out_room d (zlen g + n) -> length buffer = 4%nat ->
  exists s' d' buffer', decode_loop (Datatypes.S fuel) s d buffer = decode_loop fuel s' d' buffer' /\
    in_valid s' /\ in_content s' = rest /\ out_valid d' /\ out_content d' = out_content d ++ g /\
    out_room d' n /\ length buffer' = 4%nat.
Proof.
  intros Hl Hb Hv Hc Ho Hn Hr Hbuf.
  destruct (base64_sextets g Hl Hb) as (m & Hm & Hg & r & Er & Hlr & Em).
  set (vs := ztake (zlen g + 1) (sextets m)) in *.
  assert (zlen vs = zlen g + 1) as Hvs by (apply zlen_ztake; change (zlen (sextets m)) with 4; lia).
  assert (Forall (fun v => 0 <= v < 64) vs) as HF by (apply Forall_take, sextets_range; done).
  assert (zlen (base64 g) = 4) as Hlen.
  { rewrite Hg, zlen_app, zlen_repeat. unfold zlen in Hvs |- *. rewrite length_map. unfold zlen in Hl. lia. }
  destruct (read_prefix s (base64 g) rest Hv Hc) as (s' & Erd & Hv' & Hc'). rewrite Hlen in Erd.
  cbn [decode_loop]. rewrite Erd, bind_Val.
  rewrite memcpy_Val, bind_Val by (unfold zlen in *; lia). change (4 =? 0) with false. cbv iota.
  rewrite (ztake_0 0), (zdrop_ge _ buffer), app_nil_r by (unfold zlen in *; lia). cbn [app].
  rewrite ztake_ge by lia. rewrite Hg, decode_chars_digits by done.
  set (values := vs ++ repeat 0 (3 - length g)).
  assert (zlen values = 4) as Hval.
  { unfold values. rewrite zlen_app, zlen_repeat. unfold zlen in Hl, Hvs |- *. lia. }
  rewrite <- Hg, memcpy_Val, bind_Val by lia.
  rewrite (ztake_0 0), (zdrop_ge _ (base64 g)), app_nil_r by lia. cbn [app].
  replace (4 + - Z.of_nat (3 - length g)) with (zlen g + 1) by (unfold zlen in *; lia).
  unfold values. rewrite Er, bind_Val, Em, bind_Val.
  destruct (write_step d g n Ho Hn Hr) as (d' & -> & Ho' & Hd' & Hr'). rewrite bind_Val.
  exists s', d', r. auto 10.
Qed.

(** The decoder's loop inverts the encoding. *)
Lemma decode_loop_spec c : forall fuel (s : S) (d : D) buffer,
  bytes_ok c -> in_valid s -> in_content s = base64 c -> out_valid d -> out_room d (zlen c) ->
  (length c < fuel)%nat -> length buffer = 4%nat ->
  exists s' d', decode_loop fuel s d buffer = Val (s', d') /\
    in_valid s' /\ in_content s' = [] /\ out_valid d' /\ out_content d' = out_content d ++ c.
Proof.
  assert (Hnil : forall fuel (s : S) (d : D) buffer, in_valid s -> in_content s = [] ->
    (0 < fuel)%nat -> out_valid d -> exists s' d', decode_loop fuel s d buffer = Val (s', d') /\
    in_valid s' /\ in_content s' = [] /\ out_valid d' /\ out_content d' = out_content d).
  { intros [|fuel] s d buffer Hv Hc Hf Ho; [lia|]. cbn [decode_loop].
    destruct (read_eof s 4 Hv ltac:(lia) Hc) as (s' & -> & Hv' & Hc'). rewrite bind_Val.
    rewrite memcpy_Val by (pose proof (zlen_nonneg buffer); zlen). rewrite bind_Val. cbn. eauto 10. }
  induction c as [|a|a b|a b c l IH] using group_ind;
    intros [|fuel] s d buffer Hb Hv Hc Ho Hr Hf Hbuf; cbn [length] in Hf; try lia.
  - rewrite app_nil_r. apply Hnil; [done|done|lia|done].
  - destruct (decode_round fuel s d buffer [a] [] 0) as (s1 & d1 & b1 & -> & Hv1 & Hc1 & Ho1 & <- & _);
      auto; try (rewrite ?app_nil_r, ?Z.add_0_r; done || lia). apply Hnil; auto; lia.
  - destruct (decode_round fuel s d buffer [a; b] [] 0) as (s1 & d1 & b1 & -> & Hv1 & Hc1 & Ho1 & <- & _);
      auto; try (rewrite ?app_nil_r, ?Z.add_0_r; done || lia). apply Hnil; auto; lia.
  - change (a :: b :: c :: l) with ([a; b; c] ++ l) in *. rewrite base64_group in Hc by done.
    rewrite zlen_app in Hr. apply Forall_app in Hb as [Hb1 Hb2].
    destruct (decode_round fuel s d buffer [a; b; c] (base64 l) (zlen l))
      as (s1 & d1 & b1 & -> & Hv1 & Hc1 & Ho1 & Hd1 & Hr1 & Hbuf1); auto; try done; try apply zlen_nonneg.
    destruct (IH fuel s1 d1 b1) as (s2 & d2 & E & ? & ? & ? & Hd2); auto; [lia|].
    exists s2, d2. rewrite E, Hd2, Hd1, <- app_assoc. auto.
Qed.
End Loops.

(** ** Properties *)

(** C25: the encoder writes exactly the Base64 encoding of what the stream
    delivers, padding included, and consumes all of it, whatever the streams. *)
Theorem base64_encode_correct {S D : Type} `{MemInput S} `{MemOutput D} (src : S) (dest : D) (fuel : nat) :
  bytes_ok (in_content src) -> in_valid src -> out_valid dest ->
  out_room dest (zlen (base64 (in_content src))) -> (length (in_content src) < fuel)%nat ->
  exists src' dest', encode fuel src dest = Val (src', dest') /\
    in_content src' = [] /\ out_content dest' = out_content dest ++ base64 (in_content src).
Proof.
  intros Hb Hv Ho Hr Hf. destruct (base64_encode_loop_spec _ fuel src dest [0; 0; 0] [0; 0; 0; 0] Hb Hv eq_refl Ho Hr Hf)
    as (s' & d' & E & _ & Hc & _ & Hd); [done|done|]. exists s', d'. auto.
Qed.

Lemma base64_encode_correct_witness :
  base64 (str "Many") = str "TWFueQ==" /\
  exists src' dest',
    encode 9 (InputBufferWrapper.create (str "Many") 4) (OutputBufferWrapper.fresh 20) = Val (src', dest') /\
    in_content src' = [] /\
    out_content dest' = out_content (OutputBufferWrapper.fresh 20) ++ base64 (in_content (InputBufferWrapper.create (str "Many") 4)).
Proof.
  split; [reflexivity|].
  apply (base64_encode_correct (InputBufferWrapper.create (str "Many") 4) (OutputBufferWrapper.fresh 20) 9).
  - apply bytes_ok_bool. reflexivity.
  - zeval.
  - apply OutputBufferWrapper.fresh_valid. lia.
  - vm_compute. discriminate.
  - vm_compute. lia.
Defined.

(** The decoder gives back the bytes that were encoded: for every byte
    sequence, the encoding without a foreign character is decoded to it, and the
    loop ends. *)
Theorem base64_roundtrip {S D : Type} `{MemInput S} `{MemOutput D} (src : S) (dest : D) (c : bytes) (fuel : nat) :
  bytes_ok c -> in_valid src -> in_content src = base64 c -> out_valid dest ->
  out_room dest (zlen c) -> (length c < fuel)%nat ->
  exists src' dest', decode fuel src dest = Val (src', dest') /\
    in_content src' = [] /\ out_content dest' = out_content dest ++ c.
Proof.
  intros Hb Hv Hc Ho Hr Hf. destruct (decode_loop_spec c fuel src dest [0; 0; 0; 0] Hb Hv Hc Ho Hr Hf)
    as (s' & d' & E & _ & Hc' & _ & Hd); [done|]. exists s', d'. auto.
Qed.

Lemma base64_roundtrip_witness :
  exists src' dest',
    decode 9 (InputBufferWrapper.create (base64 [0; 255; 16; 7]) 8) (OutputBufferWrapper.fresh 4) = Val (src', dest') /\
    in_content src' = [] /\ out_content dest' = out_content (OutputBufferWrapper.fresh 4) ++ [0; 255; 16; 7].
Proof.
  apply (base64_roundtrip (InputBufferWrapper.create (base64 [0; 255; 16; 7]) 8)
    (OutputBufferWrapper.fresh 4) [0; 255; 16; 7] 9).
  - apply bytes_ok_bool. reflexivity.
  - zeval.
  - reflexivity.
  - apply OutputBufferWrapper.fresh_valid. lia.
  - vm_compute. discriminate.
  - cbn. lia.
Defined.

(** A group without a single character of the alphabet makes the decoder
    write with a negative length: four padding characters, or a line of other
    text, are enough to read out of its buffer. *)
Theorem base64_decode_foreign {S D : Type} `{MemInput S} `{OutputStream D} (src : S) (dest : D) (fuel : nat) (g rest : bytes) :
  in_valid src -> in_content src = g ++ rest -> zlen g = 4 ->
  Forall (fun c => decode_char c = None) g -> decode fuel src dest = Undef.
Proof.
  intros Hv Hc Hl Hg. unfold decode. destruct fuel as [|fuel]; [done|].
  destruct (read_prefix src g rest Hv Hc) as (s' & E & _). rewrite Hl in E.
  cbn [decode_loop]. rewrite E, bind_Val.
  rewrite memcpy_Val, bind_Val by (change (zlen [0; 0; 0; 0]) with 4; lia).
  change (4 =? 0) with false. cbv iota. rewrite (ztake_0 0), Hl, (zdrop_ge _ [0; 0; 0; 0]), app_nil_r by done.
  cbn [app]. rewrite ztake_ge by lia.
  destruct g as [|c0 [|c1 [|c2 [|c3 [|]]]]]; try (exfalso; zlen).
  rewrite !Forall_cons in Hg. destruct Hg as (E0 & E1 & E2 & E3 & _).
  cbn [decode_chars]. rewrite E0, E1, E2, E3. reflexivity.
Qed.

Lemma base64_decode_foreign_witness :
  decode 5 (InputBufferWrapper.create (str "====QUJD") 8) (OutputBufferWrapper.fresh 20) = Undef.
Proof.
  apply (base64_decode_foreign (InputBufferWrapper.create (str "====QUJD") 8)
    (OutputBufferWrapper.fresh 20) 5 (str "====") (str "QUJD")).
  - zeval.
  - reflexivity.
  - reflexivity.
  - repeat constructor.
Defined.

(** ** Integers in Base62 *)

Definition digit62 (i : Z) : byte := nth (Z.to_nat i) base62_code_page 0.

Definition value62 (ds : list Z) : Z := fold_left (fun a d => 62 * a + d) ds 0.

Lemma value62_snoc ds d : value62 (ds ++ [d]) = 62 * value62 ds + d.
Proof. unfold value62. now rewrite fold_left_app. Qed.

Lemma value62_cons ds : forall d, value62 (d :: ds) = d * 62 ^ zlen ds + value62 ds.
Proof.
  induction ds as [|x ds IH] using rev_ind; intros d; [change (d = d * 1 + 0); lia|].
  rewrite app_comm_cons, !value62_snoc, IH, zlen_app. change (zlen [x]) with 1.
  rewrite Z.pow_add_r by (try apply zlen_nonneg; lia). lia.
Qed.

Lemma value62_nonneg ds : Forall (fun d => 0 <= d < 62) ds -> 0 <= value62 ds.
Proof.
  induction 1 as [|d ds Hd _ IH]; [done|]. rewrite value62_cons.
  assert (0 < 62 ^ zlen ds) by (apply Z.pow_pos_nonneg; [lia|apply zlen_nonneg]). nia.
Qed.

Lemma digit62_spec i : 0 <= i < 62 ->
  at_ base62_code_page i = Val (digit62 i) /\ position base62_code_page (digit62 i) = Some i.
Proof.
  intros Hi. apply (forallb_seqZ (fun i => bool_decide (at_ base62_code_page i = Val (digit62 i)) &&
    bool_decide (position base62_code_page (digit62 i) = Some i)) 62) in Hi.
  - zbool. rewrite !bool_decide_eq_true in *. auto.
  - vm_compute. reflexivity.
Qed.

Lemma swrap_small w z : 1 <= w -> - 2 ^ (w - 1) <= z < 2 ^ (w - 1) -> swrap w z = z.
Proof.
  intros Hw Hz. unfold swrap. assert (2 ^ w = 2 * 2 ^ (w - 1)) as E
    by (rewrite <- Z.pow_succ_r by lia; f_equal; lia).
  rewrite E, Z.mod_small by lia. lia.
Qed.

Lemma integer_digits_spec fuel : forall n, 0 <= n < 2 ^ 31 -> n < 62 ^ Z.of_nat fuel ->
  exists ds, integer_digits fuel n = Val (map digit62 ds) /\ Forall (fun d => 0 <= d < 62) ds /\
    value62 (rev ds) = n.
Proof.
  induction fuel as [|fuel IH]; intros n Hn Hf.
  - assert (n = 0) as -> by (cbn in Hf; lia). by exists [].
  - cbn [integer_digits]. destruct (n >? 0) eqn:E; [|exists []; split; [done|split; [done|cbn; lia]]].
    rewrite swrap_small, Z.rem_mod_nonneg, Z.quot_div_nonneg by lia.
    rewrite Nat2Z.inj_succ, Z.pow_succ_r in Hf by lia.
    assert (0 <= n mod 62 < 62) as Hm by (apply Z.mod_pos_bound; lia).
    pose proof (Z.div_mod n 62 ltac:(lia)).
    destruct (digit62_spec (n mod 62) Hm) as [-> _]. rewrite bind_Val, wrap_small by (unfold is_u; lia).
    destruct (IH (n / 62)) as (ds & -> & HF & Hv); [lia|lia|]. exists (n mod 62 :: ds).
    rewrite bind_Val. split; [done|]. split; [by constructor|]. cbn [rev]. rewrite value62_snoc. lia.
Qed.

Lemma integer_digits_length fuel : forall n l, integer_digits fuel n = Val l -> zlen l <= Z.of_nat fuel.
Proof.
  induction fuel as [|fuel IH]; intros n l; cbn [integer_digits]; destruct (n >? 0); try done;
    try (intros [= <-]; change (zlen []) with 0; lia).
  destruct (at_ _ _) as [c|]; [|done]. rewrite bind_Val.
  destruct (integer_digits fuel _) as [l'|] eqn:E; [|done]. intros [= <-]. apply IH in E. rewrite zlen_cons. lia.
Qed.

Lemma decodeBuffer_digits ds : forall num, Forall (fun d => 0 <= d < 62) ds -> 0 <= num ->
  num + value62 ds < 2 ^ 63 -> decodeBuffer_loop (map digit62 ds) num = num + value62 ds.
Proof.
  induction ds as [|d ds IH]; intros num HF Hn Hlt; cbn [map decodeBuffer_loop]; [cbn; lia|].
  inversion HF as [|? ? Hd HF']; subst. destruct (digit62_spec d Hd) as [_ ->].
  rewrite value62_cons in *. pose proof (value62_nonneg ds HF').
  assert (0 < 62 ^ zlen ds) by (apply Z.pow_pos_nonneg; [lia|apply zlen_nonneg]).
  replace (zlen (map digit62 ds)) with (zlen ds) by (unfold zlen; by rewrite length_map).
  rewrite swrap_small by (change (64 - 1) with 63; nia). rewrite IH; [lia|done|nia|lia].
Qed.

(** Numbers below 2^31 survive: what [encodeInteger] writes for one is
    read back by [decodeBuffer], on any output stream with room for it. *)
Theorem base62_integer_roundtrip {D : Type} `{MemOutput D} (n : Z) (dest : D) :
  0 <= n < 2 ^ 31 -> out_valid dest -> out_room dest 11 ->
  exists text dest', encodeInteger n dest = Val (true, dest') /\
    out_content dest' = out_content dest ++ text /\ decodeBuffer text = n.
Proof.
  intros Hn Ho Hr. unfold encodeInteger. destruct (n =? 0) eqn:E; zbool.
  - subst n. change (at_ base62_code_page 0) with (Val 65). rewrite bind_Val.
    destruct (write_step dest [65] 0 Ho ltac:(lia)) as (d' & -> & _ & Hd & _);
      [apply room_law with 11; [done|done]|].
    exists [65], d'. auto.
  - destruct (integer_digits_spec 11 n) as (ds & Ed & HF & Hv); [lia|lia|]. rewrite Ed, bind_Val.
    pose proof (integer_digits_length _ _ _ Ed) as Hlen.
    rewrite <- map_rev.
    destruct (write_step dest (map digit62 (rev ds)) 0 Ho ltac:(lia)) as (d' & -> & _ & Hd & _).
    { apply room_law with 11; [done|]. revert Hlen. unfold zlen. rewrite !length_map, length_rev. lia. }
    exists (map digit62 (rev ds)), d'. rewrite bind_Val. split; [|split; [done|]].
    + do 2 f_equal. apply Z.eqb_eq. unfold zlen. by rewrite !length_map, length_rev.
    + unfold decodeBuffer. rewrite decodeBuffer_digits, Hv; [lia|by apply Forall_rev|lia|lia].
Qed.

Lemma base62_integer_roundtrip_witness :
  exists text dest', encodeInteger 123456789 (OutputBufferWrapper.fresh 16) = Val (true, dest') /\
    out_content dest' = out_content (OutputBufferWrapper.fresh 16) ++ text /\ decodeBuffer text = 123456789.
Proof.
  apply (base62_integer_roundtrip 123456789 (OutputBufferWrapper.fresh 16)).
  - lia.
  - apply OutputBufferWrapper.fresh_valid. lia.
  - vm_compute. discriminate.
Defined.

(** The group encoding itself is not invertible: a group of three bytes is
    written with as many digits as its number needs, one to five, and read back
    four by four. *)
Theorem base62_groups_lost :
  exists src dest,
    encodeBase62 3 (InputBufferWrapper.create [0; 0; 7] 3) (OutputBufferWrapper.fresh 16) = Val (true, src, dest) /\
    out_content dest = str "H" /\
    (exists src' dest', decodeBase62 3 (InputBufferWrapper.create (str "H") 1) (OutputBufferWrapper.fresh 16) =
       Val (false, src', dest')).
Proof.
  eexists _, _. split; [vm_compute; reflexivity|]. split; [vm_compute; reflexivity|].
  eexists _, _. vm_compute. reflexivity.
Qed.
