(* ===== verification/Percent.v ===== *)
(** * Percent encoding

    Models [sese/util/PercentConverter.cpp]: the versions over C strings that
    return a string and the versions that write to a stream. *)

From S2P Require Import Prelude Streams OutputBufferWrapper.

(*@ sese/util/PercentConverter.cpp 21-23 PercentConverter::URL_EXCLUDE_CHARS *)
Definition URL_EXCLUDE_CHARS : list byte :=
  [33; 42; 34; 39; 40; 41; 59; 58; 64; 38; 61; 43; 36; 44; 47; 63; 37; 35; 91; 93; 32].

(*@ sese/util/PercentConverter.cpp 25-27 getEncodeChar *)
Definition getEncodeChar (ch : byte) : byte :=
  u8 (ch + (if (0 <=? ch) && (ch <=? 9) then 48 else 55)).

(*@ sese/util/PercentConverter.cpp 56-69 getHexChar *)
(** [None] is [static_cast<char>(-1)], which no digit is. A byte above 127 is
    a negative [char], outside the three ranges. *)
Definition getHexChar (ch : byte) : option Z :=
  if (65 <=? ch) && (ch <=? 70) then Some (ch - 55)
  else if (97 <=? ch) && (ch <=? 102) then Some (ch - 87)
  else if (48 <=? ch) && (ch <=? 57) then Some (ch - 48)
  else None.

(*@ sese/util/PercentConverter.cpp 33-48 PercentConverter::encode *)
(** What is written for one byte. *)
Definition encode_byte (p : byte) : bytes :=
  if Z.shiftr (Z.land p 128) 7 =? 0 then
    if existsb (Z.eqb p) URL_EXCLUDE_CHARS then [37; getEncodeChar (p / 16); getEncodeChar (p mod 16)]
    else [p]
  else [37; getEncodeChar (p / 16); getEncodeChar (p mod 16)].

(*@ sese/util/PercentConverter.cpp 102-125 PercentConverter::encode *)
(** Into a string; the source is a C string. *)
Definition encode (src : bytes) : bytes := cstr src ≫= encode_byte.

(*@ sese/util/PercentConverter.cpp 132-151 PercentConverter::decode *)
(** The loop; past the end of the string [p] points to its NUL, which is no
    digit. *)
Fixpoint decode_loop (p : bytes) : option bytes :=
  match p with
  | [] => Some []
  | c :: p =>
      if c =? 37 then
        match p with
        | h1 :: h2 :: p =>
            ch1 ← getHexChar h1; ch2 ← getHexChar h2;
            r ← decode_loop p; Some (u8 (ch1 * 16 + ch2) :: r)
        | _ => None
        end
      else r ← decode_loop p; Some (c :: r)
  end.

(*@ sese/util/PercentConverter.cpp 127-154 PercentConverter::decode *)
(** A failure gives the empty string. *)
Definition decode (src : bytes) : bytes := default [] (decode_loop (cstr src)).

Section Streams.
Context {D : Type} `{OutputStream D}.

(*@ sese/util/PercentConverter.cpp 29-50 PercentConverter::encode *)
Fixpoint encode_stream_loop (p : bytes) (dest : D) : outcome D :=
  match p with
  | [] => Val dest
  | c :: p => '(_, dest) ← stream_write dest (encode_byte c); encode_stream_loop p dest
  end.

(*@ sese/util/PercentConverter.cpp 29-50 PercentConverter::encode *)
Definition encode_stream (src : bytes) (dest : D) : outcome D := encode_stream_loop (cstr src) dest.

(*@ sese/util/PercentConverter.cpp 79-98 PercentConverter::decode *)
(** The bytes before an error stay written. *)
Fixpoint decode_stream_loop (p : bytes) (dest : D) : outcome (bool * D) :=
  match p with
  | [] => Val (true, dest)
  | c :: p =>
      if c =? 37 then
        match p with
        | h1 :: h2 :: p =>
            match getHexChar h1, getHexChar h2 with
            | Some ch1, Some ch2 =>
                '(_, dest) ← stream_write dest [u8 (ch1 * 16 + ch2)];
                decode_stream_loop p dest
            | _, _ => Val (false, dest)
            end
        | _ => Val (false, dest)
        end
      else '(_, dest) ← stream_write dest [c]; decode_stream_loop p dest
  end.

(*@ sese/util/PercentConverter.cpp 75-100 PercentConverter::decode *)
Definition decode_stream (src : bytes) (dest : D) : outcome (bool * D) :=
  decode_stream_loop (cstr src) dest.
End Streams.

(** ** One byte *)

(** The characters that may stand in a URL as they are written. *)
Definition url_char (c : byte) : bool :=
  (0 <? c) && (c <? 128) && ((c =? 37) || negb (existsb (Z.eqb c) URL_EXCLUDE_CHARS)).

Lemma encode_byte_spec b : is_byte b -> b <> 0 ->
  forallb url_char (encode_byte b) = true /\
  forall rest, decode_loop (encode_byte b ++ rest) = (b ::.) <$> decode_loop rest.
Proof.
  intros Hb Hn.
  assert (forallb url_char (encode_byte b) = true /\
    (encode_byte b = [b] /\ b <> 37 \/ exists h1 h2 c1 c2, encode_byte b = [37; h1; h2] /\
       getHexChar h1 = Some c1 /\ getHexChar h2 = Some c2 /\ u8 (c1 * 16 + c2) = b)) as [Hu Hc].
  { apply (forallb_seqZ (fun b => (b =? 0) || forallb url_char (encode_byte b) &&
      match encode_byte b with
      | [c] => (c =? b) && negb (b =? 37)
      | [p; h1; h2] =>
          (p =? 37) && match getHexChar h1, getHexChar h2 with
                       | Some c1, Some c2 => u8 (c1 * 16 + c2) =? b | _, _ => false end
      | _ => false
      end) 256) in Hb; [|vm_compute; reflexivity].
    apply orb_true_iff in Hb as [Hb|Hb]; zbool; [done|]. split; [done|].
    destruct (encode_byte b) as [|p [|h1 [|h2 [|]]]]; try done; zbool; [left; by subst|right].
    destruct (getHexChar h1) as [c1|] eqn:E1; [|done]. destruct (getHexChar h2) as [c2|] eqn:E2; [|done].
    zbool. subst p. exists h1, h2, c1, c2. auto. }
  split; [done|]. intros rest. destruct Hc as [[-> H37]|(h1 & h2 & c1 & c2 & -> & E1 & E2 & Ev)].
  - cbn [app decode_loop]. rewrite (proj2 (Z.eqb_neq _ _)) by done. by destruct (decode_loop rest).
  - cbn [app decode_loop]. change (37 =? 37) with true. cbv iota. rewrite E1, E2. cbn.
    rewrite Ev. by destruct (decode_loop rest).
Qed.

Lemma percent_encode_loop_spec s : bytes_ok s -> ~ In 0 s ->
  forallb url_char (s ≫= encode_byte) = true /\ decode_loop (s ≫= encode_byte) = Some s.
Proof.
  induction s as [|b s IH]; [done|]. intros Hb Hn. inversion Hb; subst.
  destruct (encode_byte_spec b) as [Hu Hd]; [done|intros ->; apply Hn; by left|].
  destruct IH as [IHu IHd]; [done|intros Hin; apply Hn; by right|].
  rewrite bind_cons. split; [by rewrite forallb_app, Hu, IHu|]. by rewrite Hd, IHd.
Qed.

(** An encoded text in front of another. *)
Lemma decode_app s rest : bytes_ok s -> ~ In 0 s ->
  decode_loop ((s ≫= encode_byte) ++ rest) = (s ++.) <$> decode_loop rest.
Proof.
  induction s as [|b s IH]; intros Hb Hn; [cbn; by destruct (decode_loop rest)|]. inversion Hb; subst.
  destruct (encode_byte_spec b) as [_ Hd]; [done|intros ->; apply Hn; by left|].
  rewrite bind_cons, <- app_assoc, Hd, IH; [by destruct (decode_loop rest)|done|].
  intros Hin; apply Hn; by right.
Qed.

(** ** Properties *)

(** Every text without NUL comes back from its percent encoding, and the
    encoding is made of characters that are safe in a URL. *)
Theorem percent_roundtrip (s : bytes) :
  bytes_ok s -> ~ In 0 s -> decode (encode s) = s /\ forallb url_char (encode s) = true.
Proof.
  intros Hb Hn. destruct (percent_encode_loop_spec s Hb Hn) as [Hu Hd]. unfold decode, encode.
  rewrite (cstr_no_nul s Hn). split; [|done]. rewrite cstr_no_nul, Hd; [done|].
  intros H0. rewrite forallb_forall in Hu. by apply Hu in H0.
Qed.

Lemma percent_roundtrip_witness :
  encode (str "a b/c%") = str "a%20b%2Fc%25" /\
  decode (encode (str "a b/c%")) = str "a b/c%" /\ forallb url_char (encode (str "a b/c%")) = true.
Proof.
  split; [reflexivity|]. apply percent_roundtrip; [apply bytes_ok_bool; reflexivity|].
  cbn. intuition discriminate.
Defined.

(** The stream versions write what the string versions return, on every
    output stream with room: all of the encoding, and of the decoding all of it on
    success. *)
Theorem percent_streams {D : Type} `{MemOutput D} (s : bytes) (dest : D) :
  out_valid dest -> out_room dest (3 * zlen s) ->
  (exists dest', encode_stream s dest = Val dest' /\ out_content dest' = out_content dest ++ encode s) /\
  (exists dest', decode_stream s dest = Val (bool_decide (is_Some (decode_loop (cstr s))), dest') /\
     (is_Some (decode_loop (cstr s)) -> out_content dest' = out_content dest ++ decode s)).
Proof.
  intros Hv Hr.
  pose proof (cstr_zlen s) as Hcs. unfold encode_stream, decode_stream, encode, decode.
  assert (out_room dest (3 * zlen (cstr s))) as Hr' by (apply room_law with (3 * zlen s); [done|lia]).
  clear Hr Hcs. generalize dependent (cstr s). clear s. intros s Hr. split.
  - revert dest Hv Hr. induction s as [|c s IH]; intros dest Hv Hr; cbn [encode_stream_loop].
    { exists dest. split; [done|]. cbn. by rewrite app_nil_r. }
    assert (zlen (encode_byte c) <= 3) by (unfold encode_byte; repeat (destruct (_ : bool)); done).
    pose proof (zlen_nonneg s). rewrite zlen_cons in Hr.
    destruct (write_step dest (encode_byte c) (3 * zlen s) Hv) as (d' & -> & Hv' & Hc' & Hr');
      [lia|apply room_law with (3 * (1 + zlen s)); [done|lia]|].
    rewrite bind_Val. destruct (IH d' Hv' Hr') as (d2 & -> & Hc2). exists d2. split; [done|].
    rewrite Hc2, Hc', bind_cons, app_assoc. done.
  - remember (length s) as n eqn:En. assert (length s <= n)%nat as Hn by lia. clear En.
    revert s dest Hv Hr Hn. induction n as [|n IH]; intros [|c s] dest Hv Hr Hn; cbn [length] in Hn; try lia;
      cbn [decode_stream_loop decode_loop];
      try (exists dest; split; [by rewrite bool_decide_true by eauto|intros _; cbn; by rewrite app_nil_r]).
    assert (Hfail : exists dest', Val (false, dest) = Val (bool_decide (is_Some (@None bytes)), dest') /\
      (is_Some (@None bytes) -> out_content dest' = out_content dest ++ default [] None))
      by (exists dest; split; [done|intros [? [=]]]).
    assert (Hstep : forall b s', (length s' <= n)%nat -> zlen s' <= zlen s ->
      exists dest', ('(_, dest) ← stream_write dest [b]; decode_stream_loop s' dest) =
        Val (bool_decide (is_Some (r ← decode_loop s'; Some (b :: r))), dest') /\
      (is_Some (r ← decode_loop s'; Some (b :: r)) ->
       out_content dest' = out_content dest ++ default [] (r ← decode_loop s'; Some (b :: r)))).
    { intros b s' Hl Hz. rewrite zlen_cons in Hr. pose proof (zlen_nonneg s').
      destruct (write_step dest [b] (3 * zlen s') Hv) as (d' & -> & Hv' & Hc' & Hr');
        [lia|apply room_law with (3 * (1 + zlen s)); [done|change (zlen [b]) with 1; lia]|].
      rewrite bind_Val. destruct (IH s' d' Hv' Hr' Hl) as (d2 & -> & Hc2). exists d2.
      destruct (decode_loop s') as [r|]; cbn in *; [|split; [done|intros [? [=]]]].
      split; [done|]. intros _. rewrite Hc2, Hc', <- app_assoc by eauto. done. }
    destruct (c =? 37); [|apply Hstep; lia].
    destruct s as [|h1 [|h2 s]]; try done. cbn [length] in *.
    destruct (getHexChar h1) as [c1|]; [|done]. destruct (getHexChar h2) as [c2|]; [|done].
    apply Hstep; [lia|]. rewrite !zlen_cons. pose proof (zlen_nonneg s). lia.
Qed.

Lemma percent_streams_witness :
  (exists dest', encode_stream (str "a b") (OutputBufferWrapper.fresh 9) = Val dest' /\
     out_content dest' = out_content (OutputBufferWrapper.fresh 9) ++ encode (str "a b")) /\
  (exists dest', decode_stream (str "a b") (OutputBufferWrapper.fresh 9) =
       Val (bool_decide (is_Some (decode_loop (cstr (str "a b")))), dest') /\
     (is_Some (decode_loop (cstr (str "a b"))) ->
      out_content dest' = out_content (OutputBufferWrapper.fresh 9) ++ decode (str "a b"))).
Proof.
  apply (percent_streams (str "a b") (OutputBufferWrapper.fresh 9)).
  - apply OutputBufferWrapper.fresh_valid. lia.
  - vm_compute. discriminate.
Defined.
