(* ===== verification/Request.v ===== *)
(** * HTTP requests and responses

    Models [sese/net/http/RequestHeader.h], [RequestHeader.cpp], [Request.h],
    [ResponseHeader.h], [Response.h], [HttpConverter.cpp] and [Range.cpp]. The bodies
    are byte buffers of [ByteBuffer.v]. *)

From S2P Require Import Prelude Text OrdMap Header ByteBuffer Percent.

(** ** Types *)

(*@ sese/net/http/RequestHeader.h 32-42 RequestType *)
Inductive RequestType := OPTIONS | GET | POST | HEAD | PUT | DELETE | TRACE | CONNECT | ANOTHER.
#[export] Instance RequestType_eq_dec : EqDecision RequestType.
Proof. solve_decision. Defined.

(*@ sese/net/http/Header.h 35-39 HttpVersion *)
Inductive HttpVersion := VERSION_1_1 | VERSION_2 | VERSION_UNKNOWN.
#[export] Instance HttpVersion_eq_dec : EqDecision HttpVersion.
Proof. solve_decision. Defined.

(*@ sese/net/http/RequestHeader.h 44-66 requestTypeToString *)
Definition requestTypeToString (t : RequestType) : bytes :=
  str match t with
      | OPTIONS => "OPTIONS" | GET => "GET" | POST => "POST" | HEAD => "HEAD" | PUT => "PUT"
      | DELETE => "DELETE" | TRACE => "TRACE" | CONNECT => "CONNECT" | ANOTHER => "ANOTHER"
      end%string.

(*@ sese/net/http/RequestHeader.h 68-94 stringToRequestType *)
Definition stringToRequestType (s : bytes) : RequestType :=
  if bool_decide (s = str "OPTIONS") then OPTIONS
  else if bool_decide (s = str "GET") then GET
  else if bool_decide (s = str "POST") then POST
  else if bool_decide (s = str "HEAD") then HEAD
  else if bool_decide (s = str "PUT") then PUT
  else if bool_decide (s = str "DELETE") then DELETE
  else if bool_decide (s = str "TRACE") then TRACE
  else if bool_decide (s = str "CONNECT") then CONNECT
  else ANOTHER.

(*@ sese/net/http/RequestHeader.h 101-140 RequestHeader *)
(** With the header it derives from and the body of [Request]. *)
Record Request := MkRequest {
  rq_header : Header; rq_type : RequestType; rq_uri : bytes; rq_version : HttpVersion;
  query_args : list (bytes * bytes);  (** [std::map<std::string, std::string>] *)
  rq_body : ByteBuffer.t }.
#[export] Instance Request_eta : Eta Request :=
  fun r => MkRequest (rq_header r) (rq_type r) (rq_uri r) (rq_version r) (query_args r) (rq_body r).

(*@ sese/net/http/ResponseHeader.h 33-51 ResponseHeader *)
(** With the header it derives from and the body of [Response]. *)
Record Response := MkResponse {
  rp_header : Header; statusCode : Z; rp_version : HttpVersion; rp_body : ByteBuffer.t }.
#[export] Instance Response_eta : Eta Response :=
  fun r => MkResponse (rp_header r) (statusCode r) (rp_version r) (rp_body r).

(*@ sese/io/ByteBuilder.h 36-38 ByteBuilder::ByteBuilder *)
Definition new_builder (base_size : Z) : ByteBuffer.t := ByteBuffer.create base_size 1024.

(*@ sese/net/http/Request.h 41-41 Request::body *)
Definition new_request : Request :=
  MkRequest empty_header GET (str "/") VERSION_1_1 [] (new_builder 8192).
(*@ sese/net/http/Response.h 40-40 Response::body *)
Definition new_response : Response := MkResponse empty_header 200 VERSION_1_1 (new_builder 8192).

(** ** URLs *)

(*@ sese/net/http/RequestHeader.cpp 24-26 RequestHeader::setQueryArg *)
Definition setQueryArg (r : Request) (key value : bytes) : Request :=
  r <| query_args ::= mset lexcmp key value |>.

(*@ sese/net/http/RequestHeader.cpp 16-22 RequestHeader::getQueryArg *)
Definition getQueryArg (r : Request) (key default_value : bytes) : bytes :=
  default default_value (mfind lexcmp key (query_args r)).

(*@ sese/net/http/RequestHeader.cpp 73-88 RequestHeader::setUrl *)
(** One item of the query string. *)
Definition setQueryItem (r : Request) (item : bytes) : Request :=
  match split_view item (str "=") with
  | [k] => setQueryArg r (decode k) []
  | [k; v] => setQueryArg r (decode k) (decode v)
  | _ => r
  end.

(*@ sese/net/http/RequestHeader.cpp 63-89 RequestHeader::setUrl *)
(** The arguments that are there already stay. *)
Definition setUrl (r : Request) (request_url : bytes) : Request :=
  match find (str "?") request_url with
  | None => r <| rq_uri := decode request_url |>
  | Some pos =>
      fold_left setQueryItem (split_view (drop (pos + 1) request_url) (str "&"))
        (r <| rq_uri := decode (take pos request_url) |>)
  end.

(*@ sese/net/http/RequestHeader.cpp 35-45 RequestHeader::getUrl *)
Definition path_text (dirs : list bytes) : bytes :=
  match dirs with
  | [[]] => str "/"
  | _ => dirs ≫= (fun item => match item with [] => [] | _ => str "/" ++ encode item end)
  end.

(*@ sese/net/http/RequestHeader.cpp 33-61 RequestHeader::getUrl *)
Definition getUrl (r : Request) : bytes :=
  let arg e := encode (fst e) ++ str "=" ++ encode (snd e) in
  path_text (split_view (rq_uri r) (str "/")) ++
  match query_args r with
  | [] => []
  | e :: args => str "?" ++ arg e ++ (args ≫= (fun e => str "&" ++ arg e))
  end.

(** ** Conversion from and to HTTP/2 *)

(*@ sese/net/http/HttpConverter.cpp 17-53 HttpConverter::convertFromHttp2 *)
Definition convertFromHttp2 (r : Request) : bool * Request :=
  let h := rq_header r in
  if negb (header_exist h (str ":path")) || negb (header_exist h (str ":method")) ||
     negb (header_exist h (str ":scheme")) then (false, r)
  else
    match header_get h (str ":path") [] with
    | [] => (false, r)
    | _ =>
        let r := setUrl (r <| rq_version := VERSION_2 |>) (header_get h (str ":path") (str "/")) in
        let method := header_get h (str ":method") (str "get") in
        if strcmpDoNotCase method (str "get") then (true, r <| rq_type := GET |>)
        else if strcmpDoNotCase method (str "options") then (true, r <| rq_type := OPTIONS |>)
        else if strcmpDoNotCase method (str "post") then (true, r <| rq_type := POST |>)
        else if strcmpDoNotCase method (str "head") then (true, r <| rq_type := HEAD |>)
        else if strcmpDoNotCase method (str "put") then (true, r <| rq_type := PUT |>)
        else if strcmpDoNotCase method (str "delete") then (true, r <| rq_type := DELETE |>)
        else if strcmpDoNotCase method (str "trace") then (true, r <| rq_type := TRACE |>)
        else if strcmpDoNotCase method (str "connect") then (true, r <| rq_type := CONNECT |>)
        else (false, r)
    end.

(*@ sese/net/http/HttpConverter.cpp 55-57 HttpConverter::convert2Http2 *)
Definition convert2Http2 (r : Response) : Response :=
  r <| rp_header ::= fun h => header_set h (str ":status") (to_string (statusCode r)) |>.

(** ** Ranges *)

(*@ sese/net/http/Range.h 32-36 Range *)
Record Range := MkRange { begin : Z; len : Z }.
#[export] Instance Range_eq_dec : EqDecision Range.
Proof. solve_decision. Defined.

(*@ sese/net/http/Range.cpp 45-70 Range::parse *)
(** One item, or [None] where the code gives up on all of them. The [long] of
    [strtol] is compared with a [size_t]. *)
Definition parse_range (total : Z) (item : bytes) : option Range :=
  match split_view item (str "-") with
  | [b] =>
      let begin := toInteger b in
      if u64 begin >? u64 (total - 1) then None
      else Some (MkRange (u64 begin) (u64 (total - begin)))
  | [b; e] =>
      let begin := toInteger b in
      let end_ := toInteger e in
      if (u64 begin >? u64 (total - 1)) || (u64 end_ >? u64 (total - 1)) then None
      else if begin >? end_ then None
      else Some (MkRange (u64 begin) (u64 (end_ - begin + 1)))
  | _ => None
  end.

(*@ sese/net/http/Range.cpp 24-74 Range::parse *)
Definition parse_ranges (s : bytes) (total : Z) : list Range :=
  match split_view s (str "=") with
  | [unit_; items] =>
      if negb (bool_decide (unit_ = str "bytes")) then []
      else
        let tmp1 := split_view items (str ",") in
        if bool_decide (tmp1 = []) then []
        else if zlen tmp1 >? 16 then []
        else default [] (mapM (parse_range total) tmp1)
  | _ => []
  end.

(*@ sese/net/http/Range.cpp 76-78 Range::toString *)
Definition range_toString (r : Range) (total : Z) : bytes :=
  str "bytes " ++ to_string (begin r) ++ str "-" ++ to_string (u64 (begin r + len r - 1)) ++ str "/" ++
  to_string total.

(*@ sese/util/Util.h 153-156 number2StringLength *)
Fixpoint number_digits (fuel : nat) (num : Z) : Z :=
  match fuel with
  | O => 0
  | S fuel => let num := num / 10 in 1 + (if num >? 0 then number_digits fuel num else 0)
  end.

(*@ sese/util/Util.h 144-158 number2StringLength *)
(** For a 64-bit integer and radix 10: at most twenty rounds. *)
Definition number2StringLength (num : Z) : Z :=
  if num =? 0 then 1
  else if num <? 0 then 1 + number_digits 20 (- num)
  else number_digits 20 num.

(*@ sese/net/http/Range.cpp 80-88 Range::toStringLength *)
Definition range_toStringLength (r : Range) (total : Z) : Z :=
  zlen (str "bytes ") + number2StringLength (begin r) + zlen (str "-") +
  number2StringLength (u64 (begin r + len r - 1)) + zlen (str "/") + number2StringLength total.

(** ** Lengths of numbers *)

Lemma number_digits_spec fuel : forall n acc, 0 <= n < 10 ^ Z.of_nat fuel -> (0 < fuel)%nat ->
  zlen (digits fuel n acc) = number_digits fuel n + zlen acc.
Proof.
  induction fuel as [|fuel IH]; intros n acc Hn Hf; [lia|]. cbn [digits number_digits].
  assert (0 <= n / 10 < 10 ^ Z.of_nat fuel) as Hd.
  { rewrite Nat2Z.inj_succ, Z.pow_succ_r in Hn by lia. split; [apply Z.div_pos; lia|].
    apply Z.div_lt_upper_bound; lia. }
  rewrite Z.gtb_ltb. destruct (n / 10 =? 0) eqn:E; zbool.
  - rewrite (proj2 (Z.ltb_ge 0 _)) by lia. rewrite zlen_cons. lia.
  - rewrite (proj2 (Z.ltb_lt 0 _)) by lia.
    destruct fuel as [|fuel]; [cbn in Hd; lia|]. rewrite IH by (done || lia). rewrite zlen_cons. lia.
Qed.

Lemma number2StringLength_spec n : 0 <= n < 2 ^ 64 -> zlen (to_string n) = number2StringLength n.
Proof.
  intros Hn. unfold to_string, number2StringLength. rewrite (proj2 (Z.ltb_ge n 0)) by lia.
  destruct (n =? 0) eqn:E; zbool; [by subst|].
  rewrite number_digits_spec, zlen_nil by lia. lia.
Qed.

(** ** Separators and numbers *)

Lemma to_string_digits n : 0 <= n < 10 ^ 20 -> forall c, In c (to_string n) -> 48 <= c <= 57.
Proof. intros Hn c. destruct (to_string_spec n Hn) as (_ & _ & H). rewrite List.Forall_forall in H. apply H. Qed.

Lemma toInteger_to_string n : 0 <= n < 2 ^ 63 -> toInteger (to_string n) = n.
Proof.
  intros Hn. unfold toInteger. rewrite <- (app_nil_r (to_string n)).
  rewrite strtol_to_string by (done || intros []). done.
Qed.

(** Splitting at a character that the pieces do not hold. *)
Lemma split_view_join c s ps : Forall (fun p => ~ In c p) ps -> List.last ps [] <> [] ->
  ~ In 0 (List.last ps []) -> split_view (join (c :: s) ps) (c :: s) = ps.
Proof.
  destruct ps as [|p ps]; [done|]. intros Hp Hn H0. unfold split_view.
  apply (split_loop_join cstr c s); [|done|done|].
  - pose proof (join_length (c :: s) ps ltac:(cbn; lia) p). lia.
  - by apply cstr_no_nul.
Qed.

(** ** Properties of ranges *)

(** The Range field for a list of ranges. *)
Definition print_range (r : Range) : bytes := to_string (begin r) ++ [45] ++ to_string (begin r + len r - 1).
Definition print_ranges (l : list Range) : bytes := str "bytes=" ++ join [44] (map print_range l).

Definition range_in (total : Z) (r : Range) : Prop := 0 <= begin r /\ 0 < len r /\ begin r + len r <= total.

Lemma print_range_chars total r c : total < 2 ^ 63 -> range_in total r -> In c (print_range r) -> 45 <= c <= 57 /\ c <> 46 /\ c <> 47.
Proof.
  unfold range_in, print_range. intros Ht Hr. rewrite !in_app_iff. intros [Hc|[[<-|[]]|Hc]]; [|lia|];
    apply to_string_digits in Hc; lia.
Qed.

Lemma parse_print_range total r : total < 2 ^ 63 -> range_in total r ->
  parse_range total (print_range r) = Some r.
Proof.
  intros Ht Hr. pose proof Hr as (Hb & Hl & Hs). unfold parse_range, print_range.
  assert (0 <= begin r + len r - 1 < 10 ^ 20) as He by lia.
  change (to_string (begin r) ++ [45] ++ to_string (begin r + len r - 1))
    with (join [45] [to_string (begin r); to_string (begin r + len r - 1)]).
  change (str "-") with [45]. rewrite split_view_join; cycle 1.
  - repeat constructor; intros Hc; apply to_string_digits in Hc; lia.
  - by destruct (to_string_spec _ He) as (_ & ? & _).
  - cbn [List.last]. intros Hc; apply to_string_digits in Hc; lia.
  - rewrite !toInteger_to_string by lia. rewrite !wrap_small by (unfold is_u; lia).
    rewrite !Z.gtb_ltb, !(proj2 (Z.ltb_ge _ _)) by lia. cbn [orb]. destruct r as [b l]. cbn in *. do 2 f_equal. lia.
Qed.

Lemma parse_range_in total item r : 0 < total < 2 ^ 63 -> parse_range total item = Some r -> range_in total r.
Proof.
  intros Ht. unfold parse_range, range_in, wrap. rewrite (Z.mod_small (total - 1)) by lia.
  destruct (split_view item (str "-")) as [|b [|e [|]]]; try done.
  - destruct (_ >? _) eqn:E; [done|]. intros [= <-]. cbn. rewrite Z.gtb_ltb in E. zbool.
    set (v := toInteger b) in *. assert (0 <= v mod 2 ^ 64 < 2 ^ 64) by (apply Z.mod_pos_bound; lia).
    replace ((total - v) mod 2 ^ 64) with (total - v mod 2 ^ 64); [lia|].
    rewrite <- Zminus_mod_idemp_r. symmetry. apply Z.mod_small. lia.
  - destruct (_ || _) eqn:E; [done|]. destruct (toInteger b >? toInteger e) eqn:E2; [done|]. intros [= <-]. cbn.
    apply orb_false_iff in E as [E1 E3]. rewrite Z.gtb_ltb in *. zbool.
    set (v := toInteger b) in *. set (w := toInteger e) in *.
    assert (- 2 ^ 63 <= v < 2 ^ 63 /\ - 2 ^ 63 <= w < 2 ^ 63) as [Hv Hw].
    { unfold v, w, toInteger. split; apply strtol_range. }
    assert (0 <= v) by (destruct (Z.lt_ge_cases v 0); [|done]; rewrite <- (Z.mod_add v 1), Z.mod_small in E1 by lia; lia).
    rewrite (Z.mod_small v), (Z.mod_small w) in * by lia. rewrite Z.mod_small by lia. lia.
Qed.

Lemma mapM_parse_range total items l : 0 < total < 2 ^ 63 ->
  mapM (parse_range total) items = Some l -> Forall (range_in total) l.
Proof.
  intros Ht. revert l. induction items as [|i items IH]; intros l; cbn; [by intros [= <-]|].
  destruct (parse_range total i) as [r|] eqn:E; [|done]. cbn. destruct (mapM _ items) as [l'|]; [|done].
  intros [= <-]. constructor; [by apply parse_range_in with i|]. auto.
Qed.

Lemma parse_ranges_in s total : 0 < total < 2 ^ 63 ->
  Forall (range_in total) (parse_ranges s total) /\ zlen (parse_ranges s total) <= 16.
Proof.
  intros Ht. unfold parse_ranges. destruct (split_view s (str "=")) as [|u [|items [|]]]; try done.
  destruct (negb _); [done|]. destruct (bool_decide _); [done|].
  set (l := split_view items (str ",")). rewrite Z.gtb_ltb. destruct (16 <? zlen l) eqn:E; zbool; [done|].
  destruct (mapM (parse_range total) l) as [rs|] eqn:Em; [|done]. cbn. split.
  - by apply mapM_parse_range with l.
  - apply length_mapM in Em. unfold zlen in *. lia.
Qed.

(** C29: whatever the Range field says, the ranges that [parse] accepts lie inside a
    file that is not empty, none of them is empty, and there are at most sixteen. *)
Theorem range_parse_bounds (s : bytes) (total : Z) :
  0 < total < 2 ^ 63 ->
  Forall (range_in total) (parse_ranges s total) /\ zlen (parse_ranges s total) <= 16.
Proof. apply parse_ranges_in. Qed.

Lemma range_parse_bounds_witness :
  parse_ranges (str "bytes=0-50,100-") 1000 = [MkRange 0 51; MkRange 100 900] /\
  Forall (range_in 1000) (parse_ranges (str "bytes=0-50,100-") 1000) /\
  zlen (parse_ranges (str "bytes=0-50,100-") 1000) <= 16.
Proof. split; [vm_compute; reflexivity|]. apply (range_parse_bounds (str "bytes=0-50,100-") 1000). lia. Defined.

(** On an empty file the check of the bounds compares with a difference that
    wraps around: every range is accepted, with a length close to 2^64, and it
    passes the service's own test, whose sum wraps to 0. *)
Theorem range_empty_file (b : Z) :
  0 < b < 2 ^ 63 ->
  parse_ranges (str "bytes=" ++ to_string b ++ str "-") 0 = [MkRange b (2 ^ 64 - b)] /\
  u64 (b + (2 ^ 64 - b)) = 0.
Proof.
  intros Hb. split; [|replace (b + (2 ^ 64 - b)) with (2 ^ 64) by lia; reflexivity].
  assert (0 <= b < 10 ^ 20) as Hb' by lia.
  assert (Hd : forall c, In c (to_string b ++ str "-") -> 45 <= c <= 57 /\ c <> 46).
  { intros c. change (str "-") with [45]. rewrite in_app_iff.
    intros [Hc|[<-|[]]]; [apply to_string_digits in Hc; lia|lia]. }
  unfold parse_ranges. change (str "bytes=" ++ ?x) with (join [61] [str "bytes"; x]).
  change (str "=") with [61]. rewrite split_view_join; cycle 1.
  { repeat constructor; intros Hc; [vm_compute in Hc; intuition discriminate|apply Hd in Hc; lia]. }
  { cbn [List.last]. by destruct (to_string b). }
  { cbn [List.last]. intros Hc. apply Hd in Hc. lia. }
  rewrite bool_decide_true by done. cbn [negb].
  assert (split_view (to_string b ++ str "-") (str ",") = [to_string b ++ str "-"]) as ->.
  { change (to_string b ++ str "-") with (join [44] [to_string b ++ str "-"]) at 1. apply (split_view_join 44).
    - repeat constructor. intros Hc; apply Hd in Hc; lia.
    - cbn [List.last]. by destruct (to_string b).
    - cbn [List.last]. intros Hc; apply Hd in Hc; lia. }
  rewrite bool_decide_false by done. change (zlen [_] >? 16) with false. cbv iota.
  cbn [mapM]. unfold parse_range.
  assert (split_view (to_string b ++ str "-") (str "-") = [to_string b]) as ->.
  { unfold split_view. change (str "-") with [45]. cbn [split_loop].
    pose proof (find_next 45 [] (to_string b) []) as E. cbn [app] in E. rewrite E.
    2: { intros Hc. apply to_string_digits in Hc; lia. }
    rewrite take_app_length, drop_ge by (rewrite length_app; cbn; lia).
    rewrite length_app. cbn [length]. rewrite Nat.add_1_r. reflexivity. }
  rewrite toInteger_to_string, (wrap_small 64 b) by (unfold is_u; lia).
  change (u64 (0 - 1)) with (2 ^ 64 - 1). rewrite Z.gtb_ltb, (proj2 (Z.ltb_ge _ b)) by lia. cbn.
  do 2 f_equal. unfold wrap. change (b mod 2 ^ 64) with (b mod 2 ^ 64). symmetry. apply (Z.mod_unique _ _ (-1)); lia.
Qed.

Lemma range_empty_file_witness :
  parse_ranges (str "bytes=" ++ to_string 5 ++ str "-") 0 = [MkRange 5 (2 ^ 64 - 5)] /\
  u64 (5 + (2 ^ 64 - 5)) = 0.
Proof. apply (range_empty_file 5). lia. Defined.

(** The ranges a field is printed for are read back, in their order, and the
    length the service announces for each is the length of what it prints. *)
Theorem range_roundtrip (l : list Range) (total : Z) :
  l <> [] -> zlen l <= 16 -> total < 2 ^ 63 -> Forall (range_in total) l ->
  parse_ranges (print_ranges l) total = l /\
  Forall (fun r => zlen (range_toString r total) = range_toStringLength r total) l.
Proof.
  intros Hne Hn Ht Hl. split.
  - unfold parse_ranges, print_ranges. set (items := map print_range l).
    assert (Hc : Forall (fun p => forall c, In c p -> 45 <= c <= 57) items).
    { unfold items. apply List.Forall_map. eapply Forall_impl; [exact Hl|]. cbn. intros r Hr c Hc.
      apply (print_range_chars total r c) in Hc; tauto. }
    assert (Hp : Forall (fun p => p <> []) items).
    { unfold items. apply List.Forall_map. eapply Forall_impl; [exact Hl|]. intros r Hr. cbn beta.
      unfold print_range. by destruct (to_string (begin r)). }
    assert (items <> []) as Hi by (by destruct l).
    assert (In (List.last items []) items) as Hin.
    { destruct (exists_last Hi) as (q & x & ->). rewrite List.last_last. apply in_or_app. right. by left. }
    assert (forall c, In c (List.last items []) -> 45 <= c <= 57) as Hcl.
    { rewrite List.Forall_forall in Hc. by apply Hc. }
    assert (List.last items [] <> []) as Hpl by (rewrite List.Forall_forall in Hp; by apply Hp).
    assert (Hj : forall ps, Forall (fun p => forall c, In c p -> 45 <= c <= 57) ps ->
      forall c, In c (join [44] ps) -> 44 <= c <= 57).
    { clear. induction ps as [|p [|q ps] IH]; intros Hc c; [done|..]; inversion Hc as [|? ? Hcp Hc']; subst.
      - cbn. intros H%Hcp. lia.
      - change (join [44] (p :: q :: ps)) with (p ++ [44] ++ join [44] (q :: ps)). rewrite !in_app_iff.
        intros [H|[[<-|[]]|H]]; [apply Hcp in H; lia|lia|by apply IH]. }
    change (str "bytes=" ++ ?x) with (join [61] [str "bytes"; x]). change (str "=") with [61].
    rewrite split_view_join; cycle 1.
    + repeat constructor; intros H; [vm_compute in H; intuition discriminate|apply (Hj items) in H; [lia|done]].
    + cbn [List.last]. intros H. apply (f_equal length) in H. destruct items as [|p ps]; [done|].
      inversion Hp as [|? ? Hp1 _]; subst. destruct ps; cbn in H; [by destruct p|].
      rewrite length_app in H. destruct p; [done|cbn in H; lia].
    + cbn [List.last]. intros H. apply (Hj items) in H; [lia|done].
    + rewrite bool_decide_true by done. cbn [negb]. change (str ",") with [44].
      rewrite split_view_join; [|eapply Forall_impl; [exact Hc|]; cbn; intros p H H'; apply H in H'; lia|done
        |intros H; apply Hcl in H; lia].
      rewrite bool_decide_false by done. rewrite Z.gtb_ltb, (proj2 (Z.ltb_ge 16 _)).
      2: { unfold items, zlen in *. rewrite length_map. lia. }
      assert (mapM (parse_range total) items = Some l) as ->; [|done].
      unfold items. clear -Ht Hl. induction Hl as [|r l Hr _ IH]; [done|]. cbn [map mapM].
      rewrite parse_print_range by done. cbn. by rewrite IH.
  - eapply Forall_impl; [exact Hl|]. intros r (Hb & Hlen & Hs).
    unfold range_toString, range_toStringLength. rewrite !zlen_app.
    rewrite !number2StringLength_spec by (try (apply wrap_range; lia); lia). lia.
Qed.

Lemma range_roundtrip_witness :
  print_ranges [MkRange 0 51; MkRange 100 900] = str "bytes=0-50,100-999" /\
  parse_ranges (print_ranges [MkRange 0 51; MkRange 100 900]) 1000 = [MkRange 0 51; MkRange 100 900] /\
  Forall (fun r => zlen (range_toString r 1000) = range_toStringLength r 1000) [MkRange 0 51; MkRange 100 900].
Proof.
  split; [vm_compute; reflexivity|]. apply (range_roundtrip [MkRange 0 51; MkRange 100 900] 1000).
  - discriminate.
  - vm_compute. discriminate.
  - lia.
  - repeat constructor; cbn; lia.
Defined.

(** ** Properties of URLs *)

(** What an URL can carry: bytes other than NUL. *)
Definition text_ok (s : bytes) : Prop := bytes_ok s /\ ~ In 0 s.

Lemma encode_chars s : text_ok s -> decode (encode s) = s /\
  (forall c, In c (encode s) -> c <> 0 /\ c <> 38 /\ c <> 47 /\ c <> 61 /\ c <> 63) /\ (encode s = [] -> s = []).
Proof.
  intros [Hb H0]. destruct (percent_encode_loop_spec s Hb H0) as [Hu Hd].
  assert (encode s = s ≫= encode_byte) as E by (unfold encode; by rewrite cstr_no_nul).
  assert (forall c, In c (encode s) -> c <> 0 /\ c <> 38 /\ c <> 47 /\ c <> 61 /\ c <> 63) as Hc.
  { rewrite E. intros c Hc. rewrite forallb_forall in Hu. specialize (Hu c Hc). unfold url_char in Hu.
    repeat split; intros ->; vm_compute in Hu; done. }
  split; [|split; [done|]].
  - unfold decode. rewrite cstr_no_nul, E, Hd; [done|]. rewrite E in Hc |- *. intros Hi. apply Hc in Hi; tauto.
  - intros Hn. rewrite E in Hn. destruct s as [|b s]; [done|]. rewrite bind_cons in Hn.
    apply app_eq_nil in Hn as [Hn _]. unfold encode_byte in Hn.
    repeat match type of Hn with context [if ?c then _ else _] => destruct c end; done.
Qed.

Lemma setQueryItem_arg r e : text_ok (fst e) -> text_ok (snd e) ->
  setQueryItem r (encode (fst e) ++ str "=" ++ encode (snd e)) = setQueryArg r (fst e) (snd e).
Proof.
  destruct e as [k v]. cbn [fst snd]. intros Hk Hv.
  destruct (encode_chars k Hk) as (Ek & Hck & _). destruct (encode_chars v Hv) as (Ev & Hcv & Hnv).
  unfold setQueryItem. change (str "=") with [61]. destruct (encode v) as [|b ev] eqn:E.
  - unfold split_view. cbn [split_loop]. pose proof (find_next 61 [] (encode k) []) as Ef. cbn [app] in Ef |- *.
    rewrite Ef by (intros Hi; apply Hck in Hi; tauto).
    rewrite take_app_length, drop_ge by (rewrite length_app; cbn; lia).
    rewrite length_app, Nat.add_1_r. cbn [split_loop]. change (find [61] []) with (@None nat). cbv iota.
    rewrite Ek, (Hnv eq_refl). done.
  - change (encode k ++ [61] ++ b :: ev) with (join [61] [encode k; b :: ev]).
    rewrite split_view_join; [by rewrite Ek, Ev|..].
    + repeat constructor; intros Hi; [apply Hck in Hi|apply Hcv in Hi]; tauto.
    + done.
    + intros Hi. apply Hcv in Hi. tauto.
Qed.

(** A path: the root, or directories that are not empty. *)
Definition path_of (dirs : list bytes) : bytes := match dirs with [] => [47] | _ => dirs ≫= (fun d => 47 :: d) end.
Definition dir_ok (d : bytes) : Prop := text_ok d /\ d <> [] /\ ~ In 47 d.

Lemma path_split dirs : Forall dir_ok dirs -> dirs <> [] ->
  split_view (path_of dirs) (str "/") = [] :: dirs.
Proof.
  intros Hd Hne. change (str "/") with [47].
  assert (path_of dirs = join [47] ([] :: dirs)) as ->.
  { clear Hd. destruct dirs as [|d dirs]; [done|]. clear Hne. cbn [path_of]. revert d.
    induction dirs as [|d' dirs IH]; intros d; [cbn; by rewrite app_nil_r|].
    rewrite bind_cons, IH. done. }
  destruct (exists_last Hne) as (ds & d & ->). apply Forall_app in Hd as [Hds Hd]. inversion Hd as [|? ? (Ht & Hn & H47) _]; subst.
  change ([] :: ds ++ [d]) with (([] :: ds) ++ [d]). rewrite split_view_join; rewrite ?List.last_last; [done|..].
  - apply Forall_app. split; [|by constructor]. constructor; [intros []|].
    eapply Forall_impl; [exact Hds|]. by intros x (_ & _ & ?).
  - done.
  - apply Ht.
Qed.

Lemma decode_path dirs : Forall dir_ok dirs ->
  decode (match dirs with [] => [47] | _ => dirs ≫= (fun d => 47 :: encode d) end) = path_of dirs.
Proof.
  intros Hd. destruct dirs as [|d0 dirs0]; [reflexivity|].
  set (dirs := d0 :: dirs0) in *. change (path_of dirs) with (dirs ≫= (fun d => 47 :: d)).
  assert (~ In 0 (dirs ≫= (fun d => 47 :: encode d)) /\
    decode_loop (dirs ≫= (fun d => 47 :: encode d)) = Some (dirs ≫= (fun d => 47 :: d))) as [H0 Hl].
  { clearbody dirs. induction Hd as [|d ds (Ht & _ & _) _ [IH0 IH]]; [split; [intros []|done]|]. rewrite !bind_cons.
    destruct (encode_chars d Ht) as (_ & Hc & _). destruct Ht as [Hb Hn].
    split.
    - rewrite in_app_iff. intros [[?|Hi]|Hi]; [done|apply Hc in Hi; tauto|done].
    - cbn [app decode_loop]. change (47 =? 37) with false. cbv iota.
      replace (encode d) with (d ≫= encode_byte) by (unfold encode; by rewrite cstr_no_nul).
      rewrite decode_app by done. rewrite IH. done. }
  unfold decode. rewrite cstr_no_nul, Hl by done. done.
Qed.

(** A request whose URL can be written: the path is the root or a sequence of
    directories, and the arguments are a map. *)
Definition url_ok (r : Request) : Prop :=
  (exists dirs, rq_uri r = path_of dirs /\ Forall dir_ok dirs) /\
  Forall (fun e => text_ok (fst e) /\ text_ok (snd e)) (query_args r) /\ msorted lexcmp (query_args r).

Lemma path_encoded dirs : Forall dir_ok dirs ->
  path_text (split_view (path_of dirs) (str "/")) =
  match dirs with [] => [47] | _ => dirs ≫= (fun d => 47 :: encode d) end.
Proof.
  intros Hd. destruct dirs as [|d0 dirs0]; [reflexivity|]. rewrite path_split by done.
  unfold path_text. rewrite bind_cons. cbn [app]. generalize dependent (d0 :: dirs0). clear. intros dirs Hd.
  induction Hd as [|d ds (_ & Hn & _) _ IH]; [done|]. rewrite !bind_cons, IH. by destruct d.
Qed.

Lemma encoded_path_chars dirs c : Forall dir_ok dirs ->
  In c (match dirs with [] => [47] | _ => dirs ≫= (fun d => 47 :: encode d) end) -> c <> 63.
Proof.
  intros Hd. destruct dirs as [|d0 dirs0]; [intros [<-|[]]; lia|].
  generalize dependent (d0 :: dirs0). clear. intros dirs Hd. induction Hd as [|d ds (Ht & _ & _) _ IH]; [done|].
  rewrite bind_cons, in_app_iff. intros [[<-|Hi]|Hi]; [lia| |auto].
  destruct (encode_chars d Ht) as (_ & Hc & _). apply Hc in Hi. tauto.
Qed.

Lemma setQueryItem_args args : forall r, Forall (fun e => text_ok (fst e) /\ text_ok (snd e)) args ->
  fold_left setQueryItem (map (fun e => encode (fst e) ++ str "=" ++ encode (snd e)) args) r =
  r <| query_args := fold_left (fun m e => mset lexcmp (fst e) (snd e) m) args (query_args r) |>.
Proof.
  induction args as [|e args IH]; intros r Ha; [by destruct r|]. inversion Ha as [|? ? [Hk Hv] Ha']; subst.
  cbn [map fold_left]. rewrite setQueryItem_arg, IH by done. reflexivity.
Qed.

Lemma join_bind sep (f : bytes * bytes -> bytes) e args :
  f e ++ (args ≫= (fun e => sep ++ f e)) = join sep (map f (e :: args)).
Proof.
  revert e. induction args as [|e' args IH]; intros e; [cbn; by rewrite app_nil_r|].
  rewrite bind_cons, <- app_assoc, IH. done.
Qed.

Lemma setUrl_getUrl (r r0 : Request) :
  url_ok r -> query_args r0 = [] ->
  setUrl r0 (getUrl r) = r0 <| rq_uri := rq_uri r |> <| query_args := query_args r |>.
Proof.
  intros [(dirs & Hu & Hd) [Ha Hs]] H0. unfold getUrl. cbv zeta. rewrite Hu, path_encoded by done.
  set (path := match dirs with [] => [47] | _ => _ end).
  assert (decode path = path_of dirs) as Hpath by (by apply decode_path).
  assert (~ In 63 path) as Hq by (intros Hi; by apply (encoded_path_chars dirs) in Hi).
  destruct (query_args r) as [|e args] eqn:Eq.
  - rewrite app_nil_r. unfold setUrl. change (str "?") with [63]. rewrite find_absent, Hpath by done.
    destruct r0 as [? ? ? ? q ?]. cbn in H0 |- *. by rewrite H0.
  - rewrite (join_bind (str "&") (fun e => encode (fst e) ++ str "=" ++ encode (snd e))).
    unfold setUrl. change (str "?") with [63]. change (str "&") with [38].
    set (items := map _ (e :: args)).
    pose proof (find_next 63 [] path (join [38] items) Hq) as Ef. rewrite Ef.
    rewrite take_app_length, Hpath. cbn [app]. rewrite Nat.add_1_r.
    replace (drop (S (length path)) (path ++ 63 :: join [38] items)) with (join [38] items)
      by (rewrite drop_app_ge by lia; replace (S (length path) - length path)%nat with 1%nat by lia; done).
    assert (Forall (fun p => ~ In 38 p /\ ~ In 0 p /\ p <> []) items) as Hi.
    { unfold items. apply List.Forall_map. eapply Forall_impl; [exact Ha|]. intros [k v] [Hk Hv]. cbn [fst snd] in *.
      destruct (encode_chars k Hk) as (_ & Hck & _). destruct (encode_chars v Hv) as (_ & Hcv & _).
      change (str "=") with [61]. split; [|split].
      - rewrite !in_app_iff. intros [Hi|[[Hi|[]]|Hi]]; [apply Hck in Hi; tauto|lia|apply Hcv in Hi; tauto].
      - rewrite !in_app_iff. intros [Hi|[[Hi|[]]|Hi]]; [apply Hck in Hi; tauto|lia|apply Hcv in Hi; tauto].
      - by destruct (encode k). }
    assert (items <> []) as Hne by done.
    rewrite split_view_join.
    + unfold items. rewrite setQueryItem_args by done. cbn [query_args update]. rewrite H0, (mset_rebuild lexcmp (e :: args) [] Hs). done.
    + eapply Forall_impl; [exact Hi|]. cbn. tauto.
    + destruct (exists_last Hne) as (q & x & ->). rewrite List.last_last. apply Forall_app in Hi as [_ Hi]. inversion Hi. tauto.
    + destruct (exists_last Hne) as (q & x & ->). rewrite List.last_last. apply Forall_app in Hi as [_ Hi]. inversion Hi. tauto.
Qed.

(** An URL is one word of a line, unless a carriage return is in its parts: it is not
    encoded. *)
Definition no_cr (s : bytes) : Prop := ~ In 13 s.

Lemma encode_word s : text_ok s -> no_cr s -> forall c, In c (encode s) -> c <> 32 /\ c <> 13.
Proof.
  intros [Hb H0] Hc c. replace (encode s) with (s ≫= encode_byte) by (unfold encode; by rewrite cstr_no_nul).
  induction Hb as [|b s Hb _ IH]; [done|]. rewrite bind_cons, in_app_iff. intros [Hi|Hi].
  - pose proof (forallb_seqZ (fun b => (b =? 13) || forallb (fun c => negb (c =? 32) && negb (c =? 13)) (encode_byte b)) 256) as F.
    specialize (F ltac:(vm_compute; reflexivity) b Hb). cbv beta in F. apply orb_true_iff in F as [F|F]; zbool.
    + exfalso. apply Hc. by left.
    + rewrite forallb_forall in F. specialize (F c Hi). cbv beta in F. zbool. done.
  - apply IH; [|by intros ?; apply Hc; right|done]. intros Hi0. apply H0. by right.
Qed.

Definition url_word (r : Request) : Prop :=
  no_cr (rq_uri r) /\ Forall (fun e => no_cr (fst e) /\ no_cr (snd e)) (query_args r).

Lemma getUrl_word r : url_ok r -> url_word r -> forall c, In c (getUrl r) -> c <> 32 /\ c <> 13.
Proof.
  intros [(dirs & Hu & Hd) [Ha _]] [Hcu Hca] c. unfold getUrl. change (str "?") with [63]. change (str "&") with [38]. rewrite Hu, path_encoded, in_app_iff by done. intros [Hi|Hi].
  - destruct dirs as [|d0 ds0]; [destruct Hi as [<-|[]]; lia|]. rewrite Hu in Hcu. cbn [path_of] in Hcu.
    revert Hcu Hi. generalize dependent (d0 :: ds0). clear. intros ds _ Hd. induction Hd as [|d ds (Ht & _ & _) _ IH]; [done|].
    unfold no_cr. rewrite !bind_cons, !in_app_iff. intros Hc [[<-|Hi]|Hi]; [lia| |].
    + apply (encode_word d); [done| |done]. intros ?. apply Hc. left. by right.
    + apply IH; [|done]. intros ?. apply Hc. by right.
  - assert (Forall (fun e => forall c, In c (encode (fst e) ++ str "=" ++ encode (snd e)) -> c <> 32 /\ c <> 13) (query_args r)) as HF.
    { apply List.Forall_forall. intros e He. rewrite List.Forall_forall in Ha, Hca. destruct (Ha e He), (Hca e He).
      change (str "=") with [61]. intros x. rewrite !in_app_iff.
      intros [Hx|[[<-|[]]|Hx]]; [by apply encode_word in Hx|lia|by apply encode_word in Hx]. }
    clear -Hi HF. destruct (query_args r) as [|e args]; [done|]. revert Hi. rewrite in_app_iff. intros [[<-|[]]|Hi]; [lia|].
    rewrite in_app_iff in Hi. inversion HF as [|? ? He HF']; subst. destruct Hi as [Hi|Hi]; [by apply He|].
    clear He HF. induction HF' as [|e' args He' _ IH]; [done|]. rewrite bind_cons, in_app_iff in Hi.
    destruct Hi as [[<-|Hi]|Hi]; [lia|by apply He'|by apply IH].
Qed.

(** C30: the URL that [getUrl] builds is read back by [setUrl]: path and arguments
    come back, whatever characters they are made of. *)
Theorem url_roundtrip (r r0 : Request) :
  url_ok r -> query_args r0 = [] ->
  setUrl r0 (getUrl r) = r0 <| rq_uri := rq_uri r |> <| query_args := query_args r |>.
Proof. apply setUrl_getUrl. Qed.

Definition example_request : Request :=
  new_request <| rq_uri := str "/docs/a b?" |> <| query_args := [(str "k", []); (str "q", str "x&y=1")] |>.

Lemma text_ok_bool s : forallb (fun b => (0 <? b) && (b <? 256)) s = true -> text_ok s.
Proof.
  intros Hs. rewrite forallb_forall in Hs. split.
  - apply List.Forall_forall. intros b Hb. apply Hs in Hb. unfold is_u. zbool. lia.
  - intros Hb. apply Hs in Hb. discriminate.
Qed.

Lemma example_request_ok : url_ok example_request.
Proof.
  split; [|split].
  - exists [str "docs"; str "a b?"]. split; [reflexivity|].
    repeat apply List.Forall_cons; try apply List.Forall_nil;
      (split; [apply text_ok_bool; reflexivity|split; [discriminate|vm_compute; intuition discriminate]]).
  - repeat apply List.Forall_cons; try apply List.Forall_nil; split; apply text_ok_bool; reflexivity.
  - vm_compute. repeat constructor.
Qed.

Lemma url_roundtrip_witness :
  getUrl example_request = str "/docs/a%20b%3F?k=&q=x%26y%3D1" /\
  setUrl new_request (getUrl example_request) =
    new_request <| rq_uri := rq_uri example_request |> <| query_args := query_args example_request |>.
Proof.
  split; [vm_compute; reflexivity|]. apply (url_roundtrip example_request new_request); [exact example_request_ok|reflexivity].
Defined.
