(* ===== verification/HttpUtil.v ===== *)
(** * HTTP/1 messages

    Models [sese/net/http/HttpUtil.cpp]: the lines, header fields and cookies of
    requests and responses, read from any input stream and written to any output
    stream. The functions are [noexcept]: an exception ends the program, which is
    [Undef] here. *)

From S2P Require Import Prelude Streams Text OrdMap DateTime DateParse Header ByteBuffer Percent Request.

(** ** Cookies *)

(*@ sese/net/http/HttpUtil.cpp 361-379 HttpUtil::parseFromSetCookie *)
(** One attribute. [None] where [stoll] or [substr] throws. *)
Definition set_cookie_attribute (cookie : Cookie) (one : bytes) : option Cookie :=
  match find (str "=") one with
  | Some index =>
      let key := take index one in
      let value := drop (index + 1) one in
      if strcmpDoNotCase key (str "max-age") then v ← stoll value; Some (setMaxAge (u64 v) cookie)
      else if strcmpDoNotCase key (str "expires") then e ← parseFromGreenwich value; Some (setExpires e cookie)
      else if strcmpDoNotCase key (str "path") then Some (setPath value cookie)
      else if strcmpDoNotCase key (str "domain") then Some (setDomain value cookie)
      else Some cookie
  | None =>
      if strcmpDoNotCase one (str "secure") then Some (setSecure true cookie)
      else if strcmpDoNotCase one (str "httponly") then Some (setHttpOnly true cookie)
      else Some cookie
  end.

(*@ sese/net/http/HttpUtil.cpp 350-384 HttpUtil::parseFromSetCookie *)
Definition parseFromSetCookie (text : bytes) : outcome (option Cookie) :=
  match split_view text (str "; ") with
  | [] => Val None
  | one :: attributes =>
      match find (str "=") one with
      | None => Val None
      | Some index =>
          Some <$> of_option (foldlM set_cookie_attribute (new_cookie (take index one) (drop (index + 1) one)) attributes)
      end
  end.

(** ** Receiving *)

(*@ sese/Config.h 133-133 HTTP_MAX_SINGLE_LINE *)
Definition HTTP_MAX_SINGLE_LINE : nat := 1023.

(** [find_first_of] a colon or a blank, not of the two in a row. *)
Fixpoint find_first_of (set s : bytes) : option nat :=
  match s with
  | [] => None
  | c :: s => if existsb (Z.eqb c) set then Some 0%nat else S <$> find_first_of set s
  end.

(** [substr(pos)], [None] where it throws. *)
Definition substr (pos : nat) (s : bytes) : option bytes :=
  if (length s <? pos)%nat then None else Some (drop pos s).

Section Receive.
Context {I : Type} `{InputStream I}.

(*@ sese/net/http/HttpUtil.cpp 30-44 HttpUtil::getLine *)
Fixpoint getLine_loop (n : nat) (source : I) (builder : bytes) : outcome (bool * bytes * I) :=
  match n with
  | O => Val (false, builder, source)
  | S n =>
      '(size, data, source) ← stream_read source 1;
      if negb (size =? 1) then Val (false, builder, source)
      else
        ch ← of_option (data !! 0%nat);
        if negb (ch =? 13) then getLine_loop n source (builder ++ [ch])
        else '(_, _, source) ← stream_read source 1; Val (true, builder, source)
  end.

(*@ sese/net/http/HttpUtil.cpp 28-45 HttpUtil::getLine *)
(** Every caller passes an empty builder. *)
Definition getLine (source : I) : outcome (bool * bytes * I) :=
  getLine_loop (HTTP_MAX_SINGLE_LINE + 1) source [].

(*@ sese/net/http/HttpUtil.cpp 211-235 HttpUtil::recvHeader *)
(** What a line does to the header and the cookies, or [None] for a line without a
    separator. *)
Definition header_line (is_resp : bool) (line : bytes) (h : Header) (cookies : option CookieMap) :
    option (outcome (Header * option CookieMap)) :=
  pos ← find_first_of (str ": ") line;
  Some (
    let key := take pos line in
    value ← of_option (substr (pos + 2) line);
    if is_resp then
      if strcmpDoNotCase key (str "Set-Cookie") then
        cookie ← parseFromSetCookie value;
        Val (h, match cookie with Some c => cookies_add c <$> cookies | None => cookies end)
      else Val (header_set h key value, cookies)
    else if strcmpDoNotCase key (str "Cookie") then Val (h, Some (parseFromCookie value))
    else Val (header_set h key value, cookies)).

(*@ sese/net/http/HttpUtil.cpp 200-236 HttpUtil::recvHeader *)
(** One round of fuel for a line. *)
Fixpoint recvHeader_loop (fuel : nat) (is_resp : bool) (source : I) (h : Header) (cookies : option CookieMap) :
    outcome (bool * Header * I) :=
  match fuel with
  | O => Undef
  | S fuel =>
      '(ok, line, source) ← getLine source;
      if negb ok then Val (false, h, source)
      else
        match line with
        | [] => Val (true, header_setCookies h cookies, source)
        | _ =>
            match header_line is_resp line h cookies with
            | None => Val (false, h, source)
            | Some r => '(h, cookies) ← r; recvHeader_loop fuel is_resp source h cookies
            end
        end
  end.

(*@ sese/net/http/HttpUtil.cpp 194-239 HttpUtil::recvHeader *)
Definition recvHeader (fuel : nat) (is_resp : bool) (source : I) (h : Header) : outcome (bool * Header * I) :=
  recvHeader_loop fuel is_resp source h (if is_resp then Some [] else None).

(*@ sese/net/http/HttpUtil.cpp 47-94 HttpUtil::recvRequest *)
Definition recvRequest (fuel : nat) (source : I) (request : Request) : outcome (bool * Request * I) :=
  '(ok, line, source) ← getLine source;
  if negb ok then Val (false, request, source)
  else
    match split line (str " ") with
    | [method; url; version] =>
        let request := setUrl (request <| rq_type := stringToRequestType method |>) url in
        let request := request <| rq_version := if bool_decide (version = str "HTTP/1.1") then VERSION_1_1
                                                else VERSION_UNKNOWN |> in
        '(ok, h, source) ← recvHeader fuel false source (rq_header request);
        Val (ok, request <| rq_header := h |>, source)
    | _ => Val (false, request, source)
    end.

(*@ sese/net/http/HttpUtil.cpp 153-173 HttpUtil::recvResponse *)
(** The number of words is not tested. *)
Definition recvResponse (fuel : nat) (source : I) (response : Response) : outcome (bool * Response * I) :=
  '(ok, line, source) ← getLine source;
  if negb ok then Val (false, response, source)
  else
    let first_lines := split line (str " ") in
    version ← of_option (first_lines !! 0%nat);
    code ← of_option (first_lines !! 1%nat);
    let response := response <| rp_version := if bool_decide (version = str "HTTP/1.1") then VERSION_1_1
                                              else VERSION_UNKNOWN |>
                             <| statusCode := u16 (fst (strtol code)) |> in
    '(ok, h, source) ← recvHeader fuel true source (rp_header response);
    Val (ok, response <| rp_header := h |>, source).
End Receive.

(** ** Sending *)

Definition CRLF : bytes := [13; 10].

(*@ sese/net/http/HttpUtil.cpp 271-315 HttpUtil::sendSetCookie *)
(** The pieces that are written for a cookie. *)
Definition set_cookie_pieces (key : bytes) (c : Cookie) : outcome (list bytes) :=
  life ← (if maxAge c >? 0 then Val [str "; Max-Age="; to_string (maxAge c)]
          else if expires c >? 0 then
            dt ← create (u64 (expires c * 1000000)) 0 FORMAT;
            date ← format dt TIME_GREENWICH_MEAN_PATTERN;
            Val [str "; Expires="; date]
          else Val []);
  Val ([str "Set-Cookie: "; key; str "="; value c] ++
       match path c with [] => [] | _ => [str "; Path="; path c] end ++
       match domain c with [] => [] | _ => [str "; Domain="; domain c] end ++
       life ++
       (if secure c then [str "; Secure"] else []) ++
       (if httpOnly c then [str "; HttpOnly"] else []) ++
       [CRLF]).

(*@ sese/net/http/HttpUtil.cpp 320-344 HttpUtil::sendCookie *)
Definition cookie_pieces (m : CookieMap) : list bytes :=
  match m with
  | [] => []
  | (k, c) :: m =>
      [str "Cookie: "; k; str "="; value c] ++ (m ≫= (fun e => [str "; "; fst e; str "="; value (snd e)])) ++ [CRLF]
  end.

Section Send.
Context {O : Type} `{OutputStream O}.

(*@ sese/net/http/HttpUtil.cpp 269-318 HttpUtil::sendSetCookie *)
Fixpoint sendSetCookie (dest : O) (m : CookieMap) : outcome (bool * O) :=
  match m with
  | [] => Val (true, dest)
  | (k, c) :: m =>
      pieces ← set_cookie_pieces k c;
      '(ok, dest) ← write_all dest pieces;
      if negb ok then Val (false, dest) else sendSetCookie dest m
  end.

(*@ sese/net/http/HttpUtil.cpp 244-267 HttpUtil::sendHeader *)
(** The last write fails only by returning -1. *)
Definition sendHeader (dest : O) (h : Header) (is_resp : bool) : outcome (bool * O) :=
  '(ok, dest) ← write_all dest (headers h ≫= (fun e => [fst e; str ": "; snd e; CRLF]));
  if negb ok then Val (false, dest)
  else
    '(ok, dest) ← match cookies h with
                  | None => Val (true, dest)
                  | Some m => if is_resp then sendSetCookie dest m else write_all dest (cookie_pieces m)
                  end;
    if negb ok then Val (false, dest)
    else '(n, dest) ← stream_write dest CRLF; Val (negb (n =? -1), dest).

(*@ sese/net/http/HttpUtil.cpp 96-151 HttpUtil::sendRequest *)
Definition sendRequest (dest : O) (request : Request) : outcome (bool * O) :=
  '(ok, dest) ← write_all dest [requestTypeToString (rq_type request) ++ str " "; getUrl request];
  if negb ok then Val (false, dest)
  else if negb (bool_decide (rq_version request = VERSION_1_1)) then Val (false, dest)
  else
    '(ok, dest) ← write_all dest [str " HTTP/1.1" ++ CRLF];
    if negb ok then Val (false, dest) else sendHeader dest (rq_header request) false.

(*@ sese/net/http/HttpUtil.cpp 175-192 HttpUtil::sendResponse *)
Definition sendResponse (dest : O) (response : Response) : outcome (bool * O) :=
  if negb (bool_decide (rp_version response = VERSION_1_1)) then Val (false, dest)
  else
    '(ok, dest) ← write_all dest [str "HTTP/1.1 "; to_string (statusCode response); CRLF];
    if negb ok then Val (false, dest) else sendHeader dest (rp_header response) true.
End Send.
