(* ===== verification/HttpMessages.v ===== *)
(** * HTTP/1 messages: sending and receiving

    What [sendRequest] and [sendResponse] of [HttpUtil.v] write is what [recvRequest] and
    [recvResponse] read, over any streams that keep their laws. *)

From S2P Require Import Prelude Streams Text OrdMap DateTime DateParse Header ByteBuffer Percent Request HttpUtil.
From S2P Require Import InputBufferWrapper OutputBufferWrapper.

(** ** Lines *)

Section Lines.
Context {I : Type} `{ByteSource I}.

Lemma getLine_loop_spec n : forall line c rest builder source, byte_valid source ->
  byte_content source = line ++ 13 :: c :: rest -> no_cr line -> (length line < n)%nat ->
  exists source', getLine_loop n source builder = Val (true, builder ++ line, source') /\
    byte_valid source' /\ byte_content source' = rest.
Proof.
  induction n as [|n IH]; intros line c rest builder source Hv Hc Hl Hn; [lia|]. destruct line as [|x line].
  - destruct (byte_law source 13 (c :: rest) Hv Hc) as (s1 & E1 & Hv1 & Hc1).
    destruct (byte_law s1 c rest Hv1 Hc1) as (s2 & E2 & Hv2 & Hc2).
    exists s2. cbn [getLine_loop]. rewrite E1, bind_Val. cbn -[getLine_loop]. rewrite E2, bind_Val. by rewrite app_nil_r.
  - destruct (byte_law source x (line ++ 13 :: c :: rest) Hv Hc) as (s1 & E1 & Hv1 & Hc1).
    destruct (IH line c rest (builder ++ [x]) s1 Hv1 Hc1) as (s2 & E2 & Hs2).
    { intros Hi. apply Hl. by right. } { cbn in Hn. lia. }
    exists s2. split; [|done]. cbn [getLine_loop]. rewrite E1, bind_Val. cbn -[getLine_loop].
    rewrite (proj2 (Z.eqb_neq x 13)) by (intros ->; apply Hl; by left). cbn [negb]. by rewrite E2, <- app_assoc.
Qed.

(** A line is read whole when it holds no carriage return and at most 1023 bytes. *)
Definition line_ok (line : bytes) : Prop := no_cr line /\ zlen line <= 1023.

Lemma getLine_spec line rest source : byte_valid source -> byte_content source = line ++ CRLF ++ rest -> line_ok line ->
  exists source', getLine source = Val (true, line, source') /\ byte_valid source' /\ byte_content source' = rest.
Proof.
  intros Hv Hc [Hl Hn]. apply (getLine_loop_spec _ line 10 rest [] source Hv Hc Hl).
  unfold zlen, HTTP_MAX_SINGLE_LINE in *. lia.
Qed.

(** ** Fields *)

(** A name that is read back: no separator in it, and not the name of a cookie field. *)
Definition field_ok (is_resp : bool) (e : bytes * bytes) : Prop :=
  ~ In 58 (fst e) /\ ~ In 32 (fst e) /\ line_ok (fst e ++ str ": " ++ snd e) /\
  strcmpDoNotCase (fst e) (str (if is_resp then "Set-Cookie" else "Cookie")) = false.

Lemma find_first_of_sep k v : ~ In 58 k -> ~ In 32 k -> find_first_of (str ": ") (k ++ str ": " ++ v) = Some (length k).
Proof.
  change (str ": ") with [58; 32]. induction k as [|c k IH]; intros H1 H2; [done|]. cbn [app find_first_of existsb].
  rewrite (proj2 (Z.eqb_neq c 58)), (proj2 (Z.eqb_neq c 32)) by (intros ->; first [by apply H1; left|by apply H2; left]).
  cbn [orb]. cbn [app] in IH. rewrite IH; [done|..]; intros Hi; first [by apply H1; right|by apply H2; right].
Qed.

Lemma header_line_sep is_resp k v h cs : ~ In 58 k -> ~ In 32 k ->
  header_line is_resp (k ++ str ": " ++ v) h cs = Some (
    if is_resp then
      if strcmpDoNotCase k (str "Set-Cookie") then
        cookie ← parseFromSetCookie v; Val (h, match cookie with Some c => cookies_add c <$> cs | None => cs end)
      else Val (header_set h k v, cs)
    else if strcmpDoNotCase k (str "Cookie") then Val (h, Some (parseFromCookie v))
    else Val (header_set h k v, cs)).
Proof.
  intros H1 H2. unfold header_line. rewrite find_first_of_sep by done. cbn [mbind option_bind].
  unfold substr. rewrite (proj2 (Nat.ltb_ge _ _)) by (rewrite !length_app; change (length (str ": ")) with 2%nat; lia).
  cbn [of_option]. rewrite bind_Val, take_app_length, drop_app_ge by lia.
  replace (length k + 2 - length k)%nat with 2%nat by lia. done.
Qed.

(** One line of the loop. *)
Lemma recvHeader_line fuel is_resp source h cs k v rest r :
  byte_valid source -> byte_content source = k ++ str ": " ++ v ++ CRLF ++ rest -> line_ok (k ++ str ": " ++ v) ->
  header_line is_resp (k ++ str ": " ++ v) h cs = Some (Val r) ->
  exists source', byte_valid source' /\ byte_content source' = rest /\
    recvHeader_loop (S fuel) is_resp source h cs = recvHeader_loop fuel is_resp source' (fst r) (snd r).
Proof.
  intros Hv Hc Hl Hr. destruct (getLine_spec (k ++ str ": " ++ v) rest source Hv) as (s' & E & Hs); [|done|].
  { rewrite Hc. by rewrite <- !app_assoc. }
  exists s'. split; [apply Hs|]. split; [apply Hs|]. cbn [recvHeader_loop]. rewrite E, bind_Val. cbn [negb].
  destruct (k ++ str ": " ++ v) as [|x line] eqn:El; [by destruct k|]. rewrite Hr, bind_Val. by destruct r.
Qed.

Definition field_line (e : bytes * bytes) : bytes := fst e ++ str ": " ++ snd e ++ CRLF.

Lemma recvHeader_fields is_resp fuel rest cs l : forall source h, byte_valid source ->
  byte_content source = (l ≫= field_line) ++ rest -> Forall (field_ok is_resp) l -> msorted StrCmpI (headers h ++ l) ->
  exists source', byte_valid source' /\ byte_content source' = rest /\
    recvHeader_loop (length l + fuel) is_resp source h cs =
    recvHeader_loop fuel is_resp source' (MkHeader (headers h ++ l) (cookies h)) cs.
Proof.
  induction l as [|[k v] l IH]; intros source h Hv Hc Hl Hs.
  - exists source. rewrite app_nil_r. by destruct h.
  - inversion Hl as [|? ? (H1 & H2 & H3 & H4) Hl']; subst. cbn [fst snd] in *. rewrite bind_cons, <- app_assoc in Hc.
    unfold field_line in Hc at 1. cbn [fst snd] in Hc. rewrite <- !app_assoc in Hc.
    assert (header_line is_resp (k ++ str ": " ++ v) h cs = Some (Val (header_set h k v, cs))) as Hr.
    { rewrite header_line_sep by done. destruct is_resp; by rewrite H4. }
    destruct (recvHeader_line (length l + fuel) is_resp source h cs k v _ _ Hv Hc H3 Hr) as (s1 & Hv1 & Hc1 & E1).
    assert (header_set h k v = MkHeader (headers h ++ [(k, v)]) (cookies h)) as Eh.
    { unfold header_set. f_equal. apply mset_last; [apply _|]. clear -Hs.
      induction (headers h) as [|[k' v'] m IHm]; [constructor|]. cbn in Hs. destruct Hs as [Hf Hs].
      constructor; [|by apply IHm]. apply Forall_app in Hf as [_ Hf]. by inversion Hf. }
    destruct (IH s1 (header_set h k v) Hv1 Hc1 Hl') as (s2 & Hv2 & Hc2 & E2).
    { rewrite Eh. cbn [headers]. by rewrite <- app_assoc. }
    exists s2. split; [done|]. split; [done|]. cbn [length Nat.add]. rewrite E1. cbn [fst snd]. rewrite E2, Eh. cbn [headers cookies].
    by rewrite <- app_assoc.
Qed.

(** The empty line. *)
Lemma recvHeader_end is_resp fuel source h cs rest : byte_valid source -> byte_content source = CRLF ++ rest ->
  exists source', byte_valid source' /\ byte_content source' = rest /\
    recvHeader_loop (S fuel) is_resp source h cs = Val (true, header_setCookies h cs, source').
Proof.
  intros Hv Hc. destruct (getLine_spec [] rest source Hv Hc) as (s' & E & Hs).
  { split; [intros []|rewrite zlen_nil; lia]. }
  exists s'. split; [apply Hs|]. split; [apply Hs|]. cbn [recvHeader_loop]. by rewrite E.
Qed.
End Lines.

(** ** Cookies of a request *)

(** Cookies that can be sent: filed under their names, which hold no separator, with a
    value that is not empty and without separators. *)
Definition cookie_word (s : bytes) : Prop := ~ In 0 s /\ ~ In 13 s /\ ~ In 59 s.
Definition cookies_ok (m : CookieMap) : Prop :=
  msorted lexcmp m /\
  Forall (fun e => fst e = name (snd e) /\ cookie_word (fst e) /\ ~ In 61 (fst e) /\
                   cookie_word (value (snd e)) /\ ~ In 61 (value (snd e)) /\ value (snd e) <> []) m.

Definition cookie_item (e : bytes * Cookie) : bytes := fst e ++ str "=" ++ value (snd e).

(** What the other side keeps of a cookie: its name and its value. *)
Definition plain_cookie (c : Cookie) : Cookie := new_cookie (name c) (value c).
Definition plain_cookies (m : CookieMap) : CookieMap := map (fun e => (fst e, plain_cookie (snd e))) m.

Lemma cookie_pieces_text m : m <> [] ->
  concat (cookie_pieces m) = str "Cookie" ++ str ": " ++ join (str "; ") (map cookie_item m) ++ CRLF.
Proof.
  destruct m as [|[k c] m]; [done|]. intros _. cbn [cookie_pieces].
  change (str "Cookie" ++ str ": " ++ ?x) with (str "Cookie: " ++ x). rewrite concat_app.
  change (concat [str "Cookie: "; k; str "="; value c]) with (str "Cookie: " ++ k ++ str "=" ++ value c ++ []).
  rewrite app_nil_r, <- !app_assoc. f_equal. revert k c. induction m as [|[k' c'] m IH]; intros k c.
  - cbn [map join]. unfold cookie_item. cbn [fst snd]. rewrite <- !app_assoc. done.
  - rewrite bind_cons. change (map cookie_item ((k, c) :: (k', c') :: m)) with (cookie_item (k, c) :: map cookie_item ((k', c') :: m)).
    change (join (str "; ") (cookie_item (k, c) :: map cookie_item ((k', c') :: m))) with
      (cookie_item (k, c) ++ str "; " ++ join (str "; ") (map cookie_item ((k', c') :: m))).
    rewrite <- !app_assoc, <- IH. cbn [app concat fst snd]. unfold cookie_item. cbn [fst snd]. rewrite <- !app_assoc.
    rewrite concat_app. cbn [app]. done.
Qed.

Lemma plain_sorted m l : msorted lexcmp (l ++ m) -> msorted lexcmp (plain_cookies l ++ plain_cookies m).
Proof.
  unfold plain_cookies. rewrite <- map_app. generalize (l ++ m). clear. intros m. induction m as [|[k c] m IH]; [done|].
  cbn. intros [Hf Hs]. split; [|by apply IH]. apply Forall_map. eapply Forall_impl; [exact Hf|]. done.
Qed.

Lemma parseFromCookie_items m : cookies_ok m -> m <> [] ->
  parseFromCookie (join (str "; ") (map cookie_item m)) = plain_cookies m.
Proof.
  intros [Hs Hm] Hne. unfold parseFromCookie. change (str "; ") with [59; 32].
  assert (Forall (fun e => ~ In 59 (cookie_item e) /\ ~ In 0 (cookie_item e) /\ cookie_item e <> [] /\
    split_view (cookie_item e) (str "=") = [fst e; value (snd e)]) m) as Hi.
  { eapply Forall_impl; [exact Hm|]. intros [k c]. unfold cookie_item, cookie_word. cbn [fst snd].
    intros (_ & (K0 & _ & K59) & K61 & (V0 & _ & V59) & V61 & Vn). change (str "=") with [61].
    split; [|split; [|split]].
    - rewrite !in_app_iff. cbn. intuition lia.
    - rewrite !in_app_iff. cbn. intuition lia.
    - by destruct k.
    - change (k ++ [61] ++ value c) with (join [61] [k; value c]). apply split_view_join; [repeat constructor; done|done|done]. }
  assert (List.last (map cookie_item m) [] <> [] /\ ~ In 0 (List.last (map cookie_item m) [])) as [L1 L2].
  { destruct (exists_last Hne) as (q & x & ->). rewrite map_app. cbn [map]. rewrite List.last_last.
    apply Forall_app in Hi as [_ Hi]. inversion Hi; tauto. }
  rewrite split_view_join; [|apply Forall_map; eapply Forall_impl; [exact Hi|]; cbn; tauto|done|done].
  assert (forall l, msorted lexcmp (l ++ m) -> fold_left (fun cookies one =>
    match split_view one (str "=") with [n; v] => cookies_add (new_cookie n v) cookies | _ => cookies end)
    (map cookie_item m) (plain_cookies l) = plain_cookies l ++ plain_cookies m) as G; [|by apply (G [])].
  clear Hs Hne L1 L2. induction m as [|[k c] m IH]; intros l Hs; [by rewrite app_nil_r|]. cbn [map fold_left].
  inversion Hm as [|? ? (E & _) Hm']; subst. inversion Hi as [|? ? (_ & _ & _ & Hsp) Hi']; subst. rewrite Hsp. cbn [fst snd] in *. subst k.
  assert (cookies_add (plain_cookie c) (plain_cookies l) = plain_cookies (l ++ [(name c, c)])) as E.
  { unfold cookies_add, plain_cookies. rewrite map_app. cbn [map fst snd]. apply mset_last; [apply _|].
    apply Forall_map. clear -Hs. induction l as [|[k' c'] l IHl]; [constructor|]. cbn in Hs. destruct Hs as [Hf Hs].
    constructor; [|by apply IHl]. apply Forall_app in Hf as [_ Hf]. by inversion Hf. }
  unfold plain_cookie in E at 1. rewrite E, IH; [|done|done|by rewrite <- app_assoc].
  unfold plain_cookies. rewrite map_app, <- app_assoc. done.
Qed.

(** ** Requests *)

(** What is written for a request. *)
Definition request_line (r : Request) : bytes := requestTypeToString (rq_type r) ++ str " " ++ getUrl r ++ str " HTTP/1.1".
Definition cookie_text (c : option CookieMap) : bytes := match c with Some m => concat (cookie_pieces m) | None => [] end.
Definition request_text (r : Request) : bytes :=
  request_line r ++ CRLF ++ (headers (rq_header r) ≫= field_line) ++ cookie_text (cookies (rq_header r)) ++ CRLF.

(** Requests that survive: HTTP/1.1, an URL, fields and cookies without separators, and no
    line longer than the receiver accepts. *)
Record request_ok (r : Request) : Prop := {
  ro_version : rq_version r = VERSION_1_1;
  ro_url : url_ok r;
  ro_word : url_word r;
  ro_line : zlen (request_line r) <= 1023;
  ro_fields : Forall (field_ok false) (headers (rq_header r));
  ro_sorted : msorted StrCmpI (headers (rq_header r));
  ro_cookies : match cookies (rq_header r) with
               | Some (e :: m) => cookies_ok (e :: m) /\
                   line_ok (str "Cookie" ++ str ": " ++ join (str "; ") (map cookie_item (e :: m)))
               | _ => True
               end }.

(** The request that arrives: cookies without their attributes, an empty map as none. *)
Definition arrived (r r0 : Request) : Request :=
  MkRequest
    (MkHeader (headers (rq_header r)) match cookies (rq_header r) with Some [] | None => None | Some m => Some (plain_cookies m) end)
    (rq_type r) (rq_uri r) (rq_version r) (query_args r) (rq_body r0).

Lemma method_word t : ~ In 32 (requestTypeToString t) /\ no_cr (requestTypeToString t) /\ requestTypeToString t <> [] /\
  stringToRequestType (requestTypeToString t) = t.
Proof. destruct t; vm_compute; split_and!; intuition discriminate. Qed.

Lemma request_line_ok r : request_ok r -> line_ok (request_line r) /\
  split (request_line r) (str " ") = [requestTypeToString (rq_type r); getUrl r; str "HTTP/1.1"].
Proof.
  intros Hr. destruct (method_word (rq_type r)) as (M1 & M2 & _ & _).
  pose proof (getUrl_word r (ro_url _ Hr) (ro_word _ Hr)) as Hu. split; [split; [|by apply ro_line]|].
  - unfold no_cr, request_line. rewrite !in_app_iff. intros [Hi|[Hi|[Hi|Hi]]]; [done|vm_compute in Hi; intuition discriminate| |vm_compute in Hi; intuition discriminate].
    apply Hu in Hi. tauto.
  - unfold split, request_line. change (str " HTTP/1.1") with (str " " ++ str "HTTP/1.1").
    change (?a ++ str " " ++ ?b ++ str " " ++ ?c) with (join (str " ") [a; b; c]). change (str " ") with [32].
    apply (split_loop_join (fun l => l) 32 []); [|repeat constructor; [done| |vm_compute; intuition discriminate]|done|done].
    + pose proof (join_length [32] [getUrl r; str "HTTP/1.1"] ltac:(cbn; lia) (requestTypeToString (rq_type r))). lia.
    + intros Hi. apply Hu in Hi. tauto.
Qed.

Lemma field_pieces l : concat (l ≫= (fun e : bytes * bytes => [fst e; str ": "; snd e; CRLF])) = l ≫= field_line.
Proof.
  induction l as [|e l IH]; [done|]. rewrite !bind_cons, concat_app, IH. unfold field_line. cbn [concat].
  by rewrite app_nil_r, <- !app_assoc.
Qed.

Section Roundtrip.
Context {I O : Type} `{ByteSource I} `{MemOutput O}.

Lemma sendRequest_spec r dest : rq_version r = VERSION_1_1 -> out_valid dest -> out_room dest (zlen (request_text r)) ->
  exists dest', sendRequest dest r = Val (true, dest') /\ out_valid dest' /\ out_content dest' = out_content dest ++ request_text r.
Proof.
  intros Hver Hv Hr. unfold sendRequest. rewrite (bool_decide_eq_true_2 _ Hver).
  set (p1 := [requestTypeToString (rq_type r) ++ str " "; getUrl r]). set (p2 := [str " HTTP/1.1" ++ CRLF]).
  set (p3 := headers (rq_header r) ≫= (fun e => [fst e; str ": "; snd e; CRLF])).
  set (p4 := match cookies (rq_header r) with Some m => cookie_pieces m | None => [] end).
  assert (request_text r = concat p1 ++ concat p2 ++ concat p3 ++ concat p4 ++ CRLF) as Et.
  { unfold request_text, request_line, p3. rewrite field_pieces. unfold p1, p2, p4, cookie_text. cbn [concat]. rewrite !app_nil_r, <- !app_assoc.
    by destruct (cookies (rq_header r)). }
  rewrite Et in *. rewrite !zlen_app in Hr.
  pose proof (zlen_nonneg (concat p1)). pose proof (zlen_nonneg (concat p2)). pose proof (zlen_nonneg (concat p3)).
  pose proof (zlen_nonneg (concat p4)). change (zlen CRLF) with 2 in Hr.
  destruct (write_all_spec p1 dest _ Hv Hr ltac:(lia)) as (d1 & E1 & V1 & C1 & R1).
  destruct (write_all_spec p2 d1 _ V1 R1 ltac:(lia)) as (d2 & E2 & V2 & C2 & R2).
  destruct (write_all_spec p3 d2 _ V2 R2 ltac:(lia)) as (d3 & E3 & V3 & C3 & R3).
  destruct (write_all_spec p4 d3 _ V3 R3 ltac:(lia)) as (d4 & E4 & V4 & C4 & R4).
  destruct (write_law d4 CRLF V4) as (d5 & E5 & V5 & C5 & _); [done|].
  exists d5. rewrite E1, bind_Val. cbn [negb]. rewrite E2, bind_Val. cbn [negb]. unfold sendHeader. fold p3. rewrite E3, bind_Val. cbn [negb].
  assert (match cookies (rq_header r) with None => Val (true, d3) | Some m => write_all d3 (cookie_pieces m) end = Val (true, d4)) as ->.
  { unfold p4 in E4. by destruct (cookies (rq_header r)). }
  rewrite bind_Val. cbn [negb]. rewrite E5, bind_Val. split; [done|]. split; [done|]. rewrite C5, C4, C3, C2, C1. by rewrite <- !app_assoc.
Qed.

Lemma recvRequest_spec r r0 source rest fuel : request_ok r -> query_args r0 = [] -> headers (rq_header r0) = [] ->
  byte_valid source -> byte_content source = request_text r ++ rest -> (length (headers (rq_header r)) + 2 <= fuel)%nat ->
  exists source', recvRequest fuel source r0 = Val (true, arrived r r0, source') /\ byte_valid source' /\ byte_content source' = rest.
Proof.
  intros Hr Hq Hh Hv Hc Hf. destruct (request_line_ok r Hr) as [Hl Hsp]. destruct (method_word (rq_type r)) as (_ & _ & _ & Mt).
  unfold request_text in Hc. rewrite <- !app_assoc in Hc.
  destruct (getLine_spec _ _ source Hv Hc Hl) as (s1 & E1 & V1 & C1).
  unfold recvRequest. rewrite E1, bind_Val. cbn [negb]. rewrite Hsp, Mt. rewrite (bool_decide_eq_true_2 (str "HTTP/1.1" = str "HTTP/1.1")) by done.
  rewrite setUrl_getUrl by (done || apply Hr || (fields; done)).
  set (hs := headers (rq_header r)) in *. replace fuel with (length hs + (2 + (fuel - length hs - 2)))%nat by lia.
  set (k := (fuel - length hs - 2)%nat). unfold recvHeader. fields.
  destruct (recvHeader_fields false (2 + k) _ None hs s1 (rq_header r0) V1 C1 (ro_fields _ Hr)) as (s2 & V2 & C2 & E2).
  { rewrite Hh. apply (ro_sorted _ Hr). }
  rewrite E2, Hh. cbn [app].
  assert (exists s3 fuel', byte_valid s3 /\ byte_content s3 = CRLF ++ rest /\
    recvHeader_loop (2 + k) false s2 (MkHeader hs (cookies (rq_header r0))) None =
    recvHeader_loop (S fuel') false s3 (MkHeader hs (cookies (rq_header r0)))
      match cookies (rq_header r) with Some [] | None => None | Some m => Some (plain_cookies m) end) as (s3 & k' & V3 & C3 & E3).
  { pose proof (ro_cookies _ Hr) as Hck. destruct (cookies (rq_header r)) as [[|e m]|]; [by exists s2, (1 + k)%nat| |by exists s2, (1 + k)%nat].
    destruct Hck as [Hck Hcl]. unfold cookie_text in C2. rewrite cookie_pieces_text in C2 by done. rewrite <- !app_assoc in C2.
    destruct (recvHeader_line (1 + k) false s2 (MkHeader hs (cookies (rq_header r0))) None (str "Cookie")
      (join (str "; ") (map cookie_item (e :: m))) (CRLF ++ rest) (MkHeader hs (cookies (rq_header r0)), Some (plain_cookies (e :: m)))
      V2 C2 Hcl) as (s3 & V3 & C3 & E3).
    { rewrite header_line_sep by (vm_compute; intuition discriminate). cbn [strcmpDoNotCase]. rewrite parseFromCookie_items by done. done. }
    exists s3, k. done. }
  rewrite E3. destruct (recvHeader_end false k' s3 (MkHeader hs (cookies (rq_header r0)))
    match cookies (rq_header r) with Some [] | None => None | Some m => Some (plain_cookies m) end rest V3 C3) as (s4 & V4 & C4 & E4).
  exists s4. rewrite E4, bind_Val. split; [|done]. unfold arrived. rewrite <- (ro_version _ Hr). by destruct r0.
Qed.

(** C8: a request that is sent is received: what [sendRequest] writes to a stream with
    room for it is what [recvRequest] reads from any stream, with the method, the path, the
    arguments, the fields and the names and values of the cookies; what follows the
    request stays in the stream. *)
Theorem http_request_roundtrip (r r0 : Request) (dest : O) (source : I) (rest : bytes) (fuel : nat) :
  request_ok r -> query_args r0 = [] -> headers (rq_header r0) = [] ->
  out_valid dest -> out_room dest (zlen (request_text r)) ->
  byte_valid source -> byte_content source = request_text r ++ rest ->
  (length (headers (rq_header r)) + 2 <= fuel)%nat ->
  (exists dest', sendRequest dest r = Val (true, dest') /\ out_content dest' = out_content dest ++ request_text r) /\
  exists source', recvRequest fuel source r0 = Val (true, arrived r r0, source') /\ byte_content source' = rest.
Proof.
  intros Hr Hq Hh Hv Hroom Hvs Hcs Hf. split.
  - destruct (sendRequest_spec r dest (ro_version _ Hr) Hv Hroom) as (dest' & E & _ & C). eauto.
  - destruct (recvRequest_spec r r0 source rest fuel Hr Hq Hh Hvs Hcs Hf) as (s' & E' & _ & C'). eauto.
Qed.
End Roundtrip.

(** ** Cookies of a response *)

(** The date that is written for a time. *)
Definition date_text (t : Z) : bytes :=
  match (dt ← create (u64 (t * 1000000)) 0 FORMAT; format dt TIME_GREENWICH_MEAN_PATTERN) with
  | Val text => text
  | Undef => []
  end.

(** The attributes that are written for a cookie, and its line. *)
Definition set_cookie_attributes (c : Cookie) : list bytes :=
  match path c with [] => [] | _ => [str "Path=" ++ path c] end ++
  match domain c with [] => [] | _ => [str "Domain=" ++ domain c] end ++
  (if maxAge c >? 0 then [str "Max-Age=" ++ to_string (maxAge c)]
   else if expires c >? 0 then [str "Expires=" ++ date_text (expires c)] else []) ++
  (if secure c then [str "Secure"] else []) ++ (if httpOnly c then [str "HttpOnly"] else []).
Definition set_cookie_value (c : Cookie) : bytes :=
  join (str "; ") ((name c ++ str "=" ++ value c) :: set_cookie_attributes c).

(** Cookies that survive. *)
Record sendable (c : Cookie) : Prop := {
  sd_name : cookie_word (name c) /\ ~ In 61 (name c);
  sd_value : cookie_word (value c);
  sd_path : cookie_word (path c);
  sd_domain : cookie_word (domain c);
  sd_age : 0 <= maxAge c < 2 ^ 63;
  sd_expires : 0 <= expires c < 253402300800;
  sd_line : line_ok (str "Set-Cookie" ++ str ": " ++ set_cookie_value c) }.

(** The date is not written for a cookie that has an age. *)
Definition arrived_cookie (c : Cookie) : Cookie :=
  MkCookie (secure c) (httpOnly c) (maxAge c) (if maxAge c >? 0 then 0 else expires c) (name c) (value c) (domain c) (path c).

Lemma join_concat sub x l : join sub (x :: l) = x ++ concat (map (fun y => sub ++ y) l).
Proof.
  revert x. induction l as [|y l IH]; intros x; [cbn; by rewrite app_nil_r|].
  change (join sub (x :: y :: l)) with (x ++ sub ++ join sub (y :: l)). rewrite IH. cbn [map concat]. by rewrite <- app_assoc.
Qed.

Lemma date_text_spec t : 0 <= t < 253402300800 ->
  (dt ← create (u64 (t * 1000000)) 0 FORMAT; format dt TIME_GREENWICH_MEAN_PATTERN) = Val (date_text t) /\
  parseFromGreenwich (date_text t) = Some t /\ cookie_word (date_text t).
Proof.
  intros Ht. destruct (greenwich_text t Ht) as (text & E & _ & P & W). unfold date_text. rewrite E. split; [done|]. split; [done|].
  rewrite forallb_forall in W. split_and!; intros Hi; by specialize (W _ Hi).
Qed.

Definition life_items (c : Cookie) : list bytes :=
  if maxAge c >? 0 then [str "Max-Age=" ++ to_string (maxAge c)]
  else if expires c >? 0 then [str "Expires=" ++ date_text (expires c)] else [].

Lemma life_pieces c : sendable c -> exists life,
  (if maxAge c >? 0 then Val [str "; Max-Age="; to_string (maxAge c)]
   else if expires c >? 0 then
     dt ← create (u64 (expires c * 1000000)) 0 FORMAT; date ← format dt TIME_GREENWICH_MEAN_PATTERN;
     Val [str "; Expires="; date]
   else Val []) = Val life /\
  concat life = concat (map (fun y => str "; " ++ y) (life_items c)).
Proof.
  intros Hc. unfold life_items. destruct (maxAge c >? 0); [eexists; split; [reflexivity|]|destruct (expires c >? 0); [|by exists []]].
  - cbn [map concat]. by rewrite !app_nil_r.
  - destruct (date_text_spec (expires c) (sd_expires _ Hc)) as (Ed & _ & _).
    destruct (create (u64 (expires c * 1000000)) 0 FORMAT) as [dt|]; [|done]. rewrite bind_Val in Ed. rewrite bind_Val.
    destruct (format dt TIME_GREENWICH_MEAN_PATTERN) as [x|]; [|done]. injection Ed as ->. rewrite bind_Val.
    eexists. split; [reflexivity|]. cbn [map concat]. rewrite !app_nil_r, app_assoc. reflexivity.
Qed.

Lemma set_cookie_pieces_text c : sendable c -> exists pieces,
  set_cookie_pieces (name c) c = Val pieces /\ concat pieces = str "Set-Cookie" ++ str ": " ++ set_cookie_value c ++ CRLF.
Proof.
  intros Hc. unfold set_cookie_pieces, set_cookie_value. rewrite join_concat. unfold set_cookie_attributes. fold (life_items c).
  destruct (life_pieces c Hc) as (life & E & El). rewrite E, bind_Val. clear E.
  eexists. split; [reflexivity|]. rewrite !map_app, !concat_app, <- El. clear El.
  replace (str "Set-Cookie" ++ str ": ") with (str "Set-Cookie: ") by reflexivity.
  rewrite (app_assoc (str "Set-Cookie")). change (str "Set-Cookie" ++ str ": ") with (str "Set-Cookie: ").
  cbn [concat]. rewrite !app_nil_r, <- !app_assoc. do 4 f_equal.
  destruct (path c), (domain c), (secure c), (httpOnly c); cbn [map concat app]; rewrite ?app_nil_r, <- ?app_assoc; reflexivity.
Qed.

(** Reading the attributes back one after the other. *)
Lemma attribute_split key v : ~ In 61 key -> find (str "=") (key ++ str "=" ++ v) = Some (length key) /\
  take (length key) (key ++ str "=" ++ v) = key /\ drop (length key + 1) (key ++ str "=" ++ v) = v.
Proof.
  intros Hk. change (str "=") with [61]. split; [exact (find_next 61 [] key v Hk)|]. rewrite take_app_length. split; [done|].
  rewrite drop_app_ge by lia. by replace (length key + 1 - length key)%nat with 1%nat by lia.
Qed.

Lemma read_attributes c : sendable c ->
  foldlM set_cookie_attribute (new_cookie (name c) (value c)) (set_cookie_attributes c) = Some (arrived_cookie c).
Proof.
  intros Hc. unfold set_cookie_attributes, arrived_cookie. destruct c as [se ho ma ex n v d p]. cbn [secure httpOnly maxAge expires name value domain path].
  pose proof (sd_age _ Hc) as Ha. pose proof (sd_expires _ Hc) as He. cbn [maxAge expires] in Ha, He.
  rewrite foldlM_app.
  assert (forall key v c0, ~ In 61 key -> set_cookie_attribute c0 (key ++ str "=" ++ v) =
    if strcmpDoNotCase key (str "max-age") then x ← stoll v; Some (setMaxAge (u64 x) c0)
    else if strcmpDoNotCase key (str "expires") then e ← parseFromGreenwich v; Some (setExpires e c0)
    else if strcmpDoNotCase key (str "path") then Some (setPath v c0)
    else if strcmpDoNotCase key (str "domain") then Some (setDomain v c0) else Some c0) as A.
  { intros key x c0 Hk. unfold set_cookie_attribute. destruct (attribute_split key x Hk) as (-> & -> & ->). done. }
  assert (foldlM set_cookie_attribute (new_cookie n v) match p with [] => [] | _ => [str "Path=" ++ p] end =
    Some (setPath p (new_cookie n v))) as ->.
  { destruct p as [|x p]; [done|]. cbn [foldlM]. change (str "Path=" ++ x :: p) with (str "Path" ++ str "=" ++ x :: p).
    rewrite A by (vm_compute; intuition discriminate). done. }
  rewrite foldlM_app. assert (foldlM set_cookie_attribute (setPath p (new_cookie n v)) match d with [] => [] | _ => [str "Domain=" ++ d] end =
    Some (setDomain d (setPath p (new_cookie n v)))) as ->.
  { destruct d as [|x d]; [done|]. cbn [foldlM]. change (str "Domain=" ++ x :: d) with (str "Domain" ++ str "=" ++ x :: d).
    rewrite A by (vm_compute; intuition discriminate). done. }
  rewrite foldlM_app. unfold new_cookie, setPath, setDomain. cbn [secure httpOnly maxAge expires name value domain path].
  assert (foldlM set_cookie_attribute (MkCookie false false 0 0 n v d p)
    (if ma >? 0 then [str "Max-Age=" ++ to_string ma] else if ex >? 0 then [str "Expires=" ++ date_text ex] else []) =
    Some (MkCookie false false ma (if ma >? 0 then 0 else ex) n v d p)) as ->.
  { rewrite !Z.gtb_ltb. destruct (0 <? ma) eqn:E1; zbool; [|destruct (0 <? ex) eqn:E2; zbool].
    - cbn [foldlM]. replace (str "Max-Age=") with (str "Max-Age" ++ str "=") by reflexivity. rewrite <- app_assoc, A by (vm_compute; intuition discriminate).
      change (strcmpDoNotCase (str "Max-Age") (str "max-age")) with true. cbv iota. rewrite stoll_to_string by lia.
      cbn. unfold setMaxAge. cbn. rewrite wrap_small by (unfold is_u; lia). done.
    - destruct (date_text_spec ex He) as (_ & P & _).
      cbn [foldlM]. replace (str "Expires=") with (str "Expires" ++ str "=") by reflexivity. rewrite <- app_assoc, A by (vm_compute; intuition discriminate).
      change (strcmpDoNotCase (str "Expires") (str "max-age")) with false. change (strcmpDoNotCase (str "Expires") (str "expires")) with true.
      cbv iota. rewrite P. cbn [mbind option_bind setExpires]. unfold setExpires. cbn [secure httpOnly maxAge expires name value domain path]. assert (ma = 0) as -> by lia. done.
    - cbn [foldlM]. assert (ma = 0) as -> by lia. assert (ex = 0) as -> by lia. done. }
  destruct se, ho; reflexivity.
Qed.

(** A cookie in its line is read back. *)
Lemma parse_set_cookie c : sendable c -> parseFromSetCookie (set_cookie_value c) = Val (Some (arrived_cookie c)).
Proof.
  intros Hc. unfold parseFromSetCookie, set_cookie_value.
  set (items := (name c ++ str "=" ++ value c) :: set_cookie_attributes c).
  destruct (sd_name _ Hc) as [(N0 & _ & N59) N61]. destruct (sd_value _ Hc) as (V0 & _ & V59).
  assert (Forall (fun i => ~ In 59 i /\ ~ In 0 i /\ i <> []) items) as Hi.
  { destruct (sd_path _ Hc) as (P0 & _ & P59). destruct (sd_domain _ Hc) as (D0 & _ & D59).
    destruct (date_text_spec (expires c) (sd_expires _ Hc)) as (_ & _ & (E0 & _ & E59)).
    assert (forall x, In x (to_string (maxAge c)) -> 48 <= x <= 57) as Hd.
    { intros x Hx. destruct (to_string_spec (maxAge c)) as (_ & _ & Hf); [pose proof (sd_age _ Hc); lia|].
      rewrite List.Forall_forall in Hf. by apply Hf. }
    assert (forall s v, forallb word_byte s = true -> s <> [] -> ~ In 59 v -> ~ In 0 v -> ~ In 59 (s ++ v) /\ ~ In 0 (s ++ v) /\ s ++ v <> []) as W.
    { intros s v Hs Hn H1 H2. rewrite forallb_forall in Hs. rewrite !in_app_iff. split; [|split].
      - intros [Hx|Hx]; [by specialize (Hs _ Hx)|done].
      - intros [Hx|Hx]; [by specialize (Hs _ Hx)|done].
      - by destruct s. }
    unfold items, set_cookie_attributes. constructor; [|rewrite !Forall_app; split_and!].
    - change (str "=") with [61]. rewrite !in_app_iff. cbn [In]. split; [|split]; [intuition lia..|]. by destruct (name c).
    - destruct (path c) eqn:Ep; [constructor|]. rewrite <- Ep in *. repeat constructor; apply (W (str "Path=")); done.
    - destruct (domain c) eqn:Ep; [constructor|]. rewrite <- Ep in *. repeat constructor; apply (W (str "Domain=")); done.
    - destruct (maxAge c >? 0); [|destruct (expires c >? 0); [|constructor]].
      + repeat constructor; apply (W (str "Max-Age=")); try done; intros Hx%Hd; lia.
      + repeat constructor; apply (W (str "Expires=")); done.
    - destruct (secure c); repeat constructor; vm_compute; intuition discriminate.
    - destruct (httpOnly c); repeat constructor; vm_compute; intuition discriminate. }
  assert (items <> []) as Hne by done. destruct (exists_last Hne) as (q & x & Eq).
  assert (~ In 59 x /\ ~ In 0 x /\ x <> []) as (_ & X0 & Xn) by (rewrite Eq in Hi; apply Forall_app in Hi as [_ Hi]; by inversion Hi).
  change (str "; ") with [59; 32]. rewrite split_view_join.
  - unfold items. destruct (attribute_split (name c) (value c) N61) as (-> & -> & ->). by rewrite read_attributes.
  - eapply Forall_impl; [exact Hi|]. cbn. tauto.
  - by rewrite Eq, List.last_last.
  - by rewrite Eq, List.last_last.
Qed.

(** ** Responses *)

Definition set_cookie_lines (m : CookieMap) : bytes :=
  m ≫= (fun e => str "Set-Cookie" ++ str ": " ++ set_cookie_value (snd e) ++ CRLF).
Definition sent_cookies (r : Response) : CookieMap := default [] (cookies (rp_header r)).

(** What is written for a response. *)
Definition response_text (r : Response) : bytes :=
  str "HTTP/1.1 " ++ to_string (statusCode r) ++ CRLF ++ (headers (rp_header r) ≫= field_line) ++
  set_cookie_lines (sent_cookies r) ++ CRLF.

Record response_ok (r : Response) : Prop := {
  po_version : rp_version r = VERSION_1_1;
  po_code : is_u 16 (statusCode r);
  po_fields : Forall (field_ok true) (headers (rp_header r));
  po_sorted : msorted StrCmpI (headers (rp_header r));
  po_cookies : msorted lexcmp (sent_cookies r) /\ Forall (fun e => fst e = name (snd e) /\ sendable (snd e)) (sent_cookies r) }.

Definition arrived_response (r r0 : Response) : Response :=
  MkResponse (MkHeader (headers (rp_header r)) (Some (map (fun e => (fst e, arrived_cookie (snd e))) (sent_cookies r))))
    (statusCode r) (rp_version r) (rp_body r0).

Section Responses.
Context {I O : Type} `{ByteSource I} `{MemOutput O}.

Lemma sendSetCookie_spec m : forall dest n, Forall (fun e => fst e = name (snd e) /\ sendable (snd e)) m ->
  out_valid dest -> out_room dest (zlen (set_cookie_lines m) + n) -> 0 <= n ->
  exists dest', sendSetCookie dest m = Val (true, dest') /\ out_valid dest' /\
    out_content dest' = out_content dest ++ set_cookie_lines m /\ out_room dest' n.
Proof.
  unfold set_cookie_lines. induction m as [|[k c] m IH]; intros dest n Hm Hv Hr Hn.
  - exists dest. cbn in *. rewrite app_nil_r. done.
  - inversion Hm as [|? ? [Hk Hc] Hm']; subst. cbn [fst snd] in *. subst k.
    destruct (set_cookie_pieces_text c Hc) as (pieces & E & Et). rewrite bind_cons in *. cbn [snd] in *. rewrite <- Et in *.
    rewrite zlen_app, <- Z.add_assoc in Hr. pose proof (zlen_nonneg (m ≫= (fun e => str "Set-Cookie" ++ str ": " ++ set_cookie_value (snd e) ++ CRLF))).
    destruct (write_all_spec pieces dest _ Hv Hr ltac:(lia)) as (d1 & E1 & V1 & C1 & R1).
    destruct (IH d1 n Hm' V1 R1 Hn) as (d2 & E2 & V2 & C2 & R2).
    exists d2. cbn [sendSetCookie]. rewrite E, bind_Val, E1, bind_Val. cbn [negb]. rewrite E2, C2, C1, <- app_assoc. done.
Qed.

Lemma sendResponse_spec r dest : response_ok r -> out_valid dest -> out_room dest (zlen (response_text r)) ->
  exists dest', sendResponse dest r = Val (true, dest') /\ out_valid dest' /\ out_content dest' = out_content dest ++ response_text r.
Proof.
  intros Hok Hv Hr. unfold sendResponse. rewrite (bool_decide_eq_true_2 _ (po_version _ Hok)). cbn [negb].
  set (p1 := [str "HTTP/1.1 "; to_string (statusCode r); CRLF]).
  set (p2 := headers (rp_header r) ≫= (fun e => [fst e; str ": "; snd e; CRLF])).
  assert (response_text r = concat p1 ++ concat p2 ++ set_cookie_lines (sent_cookies r) ++ CRLF) as Et.
  { unfold response_text, p2, p1. rewrite field_pieces. cbn [concat]. by rewrite !app_nil_r, <- !app_assoc. }
  rewrite Et in *. rewrite !zlen_app in Hr. pose proof (zlen_nonneg (concat p2)).
  pose proof (zlen_nonneg (set_cookie_lines (sent_cookies r))). change (zlen CRLF) with 2 in Hr.
  destruct (write_all_spec p1 dest _ Hv Hr ltac:(lia)) as (d1 & E1 & V1 & C1 & R1).
  destruct (write_all_spec p2 d1 _ V1 R1 ltac:(lia)) as (d2 & E2 & V2 & C2 & R2).
  destruct (sendSetCookie_spec _ d2 _ (proj2 (po_cookies _ Hok)) V2 R2 ltac:(lia)) as (d3 & E3 & V3 & C3 & R3).
  destruct (write_law d3 CRLF V3 R3) as (d4 & E4 & V4 & C4 & _).
  exists d4. rewrite E1, bind_Val. cbn [negb]. unfold sendHeader. fold p2. rewrite E2, bind_Val. cbn [negb].
  assert (match cookies (rp_header r) with None => Val (true, d2) | Some m => sendSetCookie d2 m end = Val (true, d3)) as ->.
  { unfold sent_cookies in E3. by destruct (cookies (rp_header r)). }
  rewrite bind_Val. cbn [negb]. rewrite E4, bind_Val. split; [done|]. split; [done|]. rewrite C4, C3, C2, C1. by rewrite <- !app_assoc.
Qed.

Definition arrived_cookies (m : CookieMap) : CookieMap := map (fun e => (fst e, arrived_cookie (snd e))) m.

Lemma arrived_sorted (m : CookieMap) : msorted lexcmp m -> msorted lexcmp (arrived_cookies m).
Proof.
  induction m as [|[k c] m IH]; [done|]. cbn. intros [Hf Hs]. split; [|by apply IH].
  apply Forall_map. eapply Forall_impl; [exact Hf|]. done.
Qed.

Lemma recvHeader_cookies fuel h rest m : forall l source, byte_valid source ->
  byte_content source = set_cookie_lines m ++ rest -> msorted lexcmp (l ++ m) ->
  Forall (fun e => fst e = name (snd e) /\ sendable (snd e)) m ->
  exists source', byte_valid source' /\ byte_content source' = rest /\
    recvHeader_loop (length m + fuel) true source h (Some (arrived_cookies l)) =
    recvHeader_loop fuel true source' h (Some (arrived_cookies (l ++ m))).
Proof.
  induction m as [|[k c] m IH]; intros l source Hv Hc Hs Hm.
  - exists source. rewrite app_nil_r. done.
  - inversion Hm as [|? ? [Hk Hok] Hm']; subst. cbn [fst snd] in *. subst k.
    unfold set_cookie_lines in Hc. rewrite bind_cons, <- app_assoc in Hc. cbn [snd] in Hc. rewrite <- !app_assoc in Hc.
    assert (cookies_add (arrived_cookie c) (arrived_cookies l) = arrived_cookies (l ++ [(name c, c)])) as Ea.
    { unfold cookies_add, arrived_cookies. rewrite map_app. cbn [map fst snd]. apply mset_last; [apply _|].
      apply Forall_map. clear -Hs. induction l as [|[k' c'] l IHl]; [constructor|]. cbn in Hs. destruct Hs as [Hf Hs].
      constructor; [|by apply IHl]. apply Forall_app in Hf as [_ Hf]. by inversion Hf. }
    destruct (recvHeader_line (length m + fuel) true source h (Some (arrived_cookies l)) _ _ _
      (h, Some (arrived_cookies (l ++ [(name c, c)]))) Hv Hc (sd_line _ Hok)) as (s1 & V1 & C1 & E1).
    { rewrite header_line_sep by (vm_compute; intuition discriminate).
      change (strcmpDoNotCase (str "Set-Cookie") (str "Set-Cookie")) with true. cbv iota.
      rewrite parse_set_cookie, bind_Val by done. cbn [fmap option_fmap option_map]. by rewrite Ea. }
    destruct (IH (l ++ [(name c, c)]) s1 V1 C1) as (s2 & V2 & C2 & E2); [by rewrite <- app_assoc|done|].
    exists s2. split; [done|]. split; [done|]. cbn [length Nat.add]. rewrite E1. cbn [fst snd]. rewrite E2, <- app_assoc. done.
Qed.

Lemma recvResponse_spec r r0 source rest fuel : response_ok r -> headers (rp_header r0) = [] ->
  byte_valid source -> byte_content source = response_text r ++ rest ->
  (length (headers (rp_header r)) + length (sent_cookies r) + 1 <= fuel)%nat ->
  exists source', recvResponse fuel source r0 = Val (true, arrived_response r r0, source') /\ byte_valid source' /\ byte_content source' = rest.
Proof.
  intros Hok Hh Hv Hc Hf. pose proof (po_code _ Hok) as Hcode. unfold is_u in Hcode.
  destruct (to_string_spec (statusCode r) ltac:(lia)) as (_ & Hne & Hd). rewrite List.Forall_forall in Hd.
  unfold response_text in Hc. rewrite <- !app_assoc in Hc. rewrite (app_assoc (str "HTTP/1.1 ")) in Hc.
  pose proof (to_string_zlen (statusCode r) ltac:(lia)) as Hz.
  destruct (getLine_spec (str "HTTP/1.1 " ++ to_string (statusCode r)) _ source Hv Hc) as (s1 & E1 & V1 & C1).
  { split; [unfold no_cr; rewrite in_app_iff; intros [Hi|Hi]; [vm_compute in Hi; intuition discriminate|apply Hd in Hi; lia]|].
    rewrite zlen_app. change (zlen (str "HTTP/1.1 ")) with 9. lia. }
  unfold recvResponse. rewrite E1, bind_Val. cbn [negb].
  assert (split (str "HTTP/1.1 " ++ to_string (statusCode r)) (str " ") = [str "HTTP/1.1"; to_string (statusCode r)]) as ->.
  { unfold split. change (str "HTTP/1.1 " ++ ?x) with (join [32] [str "HTTP/1.1"; x]). change (str " ") with [32].
    apply (split_loop_join (fun l => l) 32 []); [|repeat constructor; [vm_compute; intuition discriminate|intros Hi; apply Hd in Hi; lia]|done|done].
    pose proof (join_length [32] [to_string (statusCode r)] ltac:(cbn; lia) (str "HTTP/1.1")). lia. }
  cbn [lookup list_lookup of_option]. rewrite !bind_Val. rewrite (bool_decide_eq_true_2 (str "HTTP/1.1" = str "HTTP/1.1")) by done.
  assert (u16 (fst (strtol (to_string (statusCode r)))) = statusCode r) as ->.
  { rewrite <- (app_nil_r (to_string _)), strtol_to_string by (try done; try lia; intros []). by apply wrap_small. }
  set (hs := headers (rp_header r)) in *. set (m := sent_cookies r) in *.
  set (k := (fuel - length hs - length m - 1)%nat). replace fuel with (length hs + (length m + S k))%nat by lia.
  unfold recvHeader. fields. destruct (po_cookies _ Hok) as [Hcs Hcm].
  destruct (recvHeader_fields true (length m + S k) _ (Some []) hs s1 (rp_header r0) V1 C1 (po_fields _ Hok)) as (s2 & V2 & C2 & E2).
  { rewrite Hh. apply (po_sorted _ Hok). }
  rewrite E2, Hh. cbn [app].
  destruct (recvHeader_cookies (S k) (MkHeader hs (cookies (rp_header r0))) _ m [] s2 V2 C2 Hcs Hcm) as (s3 & V3 & C3 & E3).
  change (Some []) with (Some (arrived_cookies [])). rewrite E3. cbn [app].
  destruct (recvHeader_end true k s3 (MkHeader hs (cookies (rp_header r0))) (Some (arrived_cookies m)) rest V3 C3) as (s4 & V4 & C4 & E4).
  exists s4. rewrite E4, bind_Val. split; [|done]. unfold arrived_response. rewrite (po_version _ Hok). by destruct r0.
Qed.

(** C9: a response that is sent is received: code, fields and cookies with all their
    attributes come back (of a cookie with an age the date is not sent), and what follows
    the response stays in the stream. *)
Theorem http_response_roundtrip (r r0 : Response) (dest : O) (source : I) (rest : bytes) (fuel : nat) :
  response_ok r -> headers (rp_header r0) = [] ->
  out_valid dest -> out_room dest (zlen (response_text r)) ->
  byte_valid source -> byte_content source = response_text r ++ rest ->
  (length (headers (rp_header r)) + length (sent_cookies r) + 1 <= fuel)%nat ->
  (exists dest', sendResponse dest r = Val (true, dest') /\ out_content dest' = out_content dest ++ response_text r) /\
  exists source', recvResponse fuel source r0 = Val (true, arrived_response r r0, source') /\ byte_content source' = rest.
Proof.
  intros Hr Hh Hv Hroom Hvs Hcs Hf. split.
  - destruct (sendResponse_spec r dest Hr Hv Hroom) as (dest' & E & _ & C). eauto.
  - destruct (recvResponse_spec r r0 source rest fuel Hr Hh Hvs Hcs Hf) as (s' & E' & _ & C'). eauto.
Qed.
End Responses.

(** ** Examples *)

(** A request with fields, arguments and cookies. *)
Definition sample_cookie (n v : bytes) : bytes * Cookie := (n, setSecure true (new_cookie n v)).
Definition sample_request : Request :=
  example_request <| rq_header := MkHeader [(str "Accept", str "*/*"); (str "host", str "a.b: 80")]
    (Some [sample_cookie (str "id") (str "1"); sample_cookie (str "t") (str "x y")]) |>.

Definition sample_text : bytes := request_text sample_request.

Lemma sample_request_ok : request_ok sample_request.
Proof.
  pose proof example_request_ok as Hu. split; [reflexivity|exact Hu|..].
  - split; [vm_compute; intuition discriminate|]. repeat constructor; vm_compute; intuition discriminate.
  - vm_compute. discriminate.
  - repeat constructor; try (vm_compute; intuition discriminate).
  - split; [constructor; [reflexivity|constructor]|split; [constructor|exact I]].
  - cbn [cookies sample_request]. split; [split|split; [vm_compute; intuition discriminate|vm_compute; discriminate]].
    + split; [constructor; [reflexivity|constructor]|split; [constructor|exact I]].
    + repeat constructor; try (vm_compute; intuition discriminate).
Qed.

Lemma http_request_roundtrip_witness :
  firstn 49 sample_text = str "GET /docs/a%20b%3F?k=&q=x%26y%3D1 HTTP/1.1" ++ CRLF ++ str "Accep" /\
  (exists dest', sendRequest (OutputBufferWrapper.fresh 200) sample_request = Val (true, dest') /\
     out_content dest' = out_content (OutputBufferWrapper.fresh 200) ++ request_text sample_request) /\
  exists source', recvRequest 4 (InputBufferWrapper.of_bytes (sample_text ++ str "body")) new_request =
    Val (true, arrived sample_request new_request, source') /\ byte_content source' = str "body".
Proof.
  split; [vm_compute; reflexivity|].
  assert (zlen (sample_text ++ str "body") < 2 ^ 64) as Hz by (vm_compute; reflexivity).
  apply (http_request_roundtrip sample_request new_request (OutputBufferWrapper.fresh 200)
    (InputBufferWrapper.of_bytes (sample_text ++ str "body")) (str "body") 4).
  - exact sample_request_ok.
  - reflexivity.
  - reflexivity.
  - apply OutputBufferWrapper.fresh_valid. lia.
  - vm_compute. discriminate.
  - apply (InputBufferWrapper.of_bytes_valid _ Hz).
  - apply (InputBufferWrapper.of_bytes_valid _ Hz).
  - cbn. lia.
Defined.

Definition sample_response : Response :=
  new_response <| statusCode := 302 |> <| rp_header := MkHeader [(str "Location", str "/a?b=c")]
    (Some [(str "id", MkCookie true true 0 784111777 (str "id") (str "a=b") (str "x.org") (str "/"))]) |>.

Lemma sample_response_ok : response_ok sample_response.
Proof.
  split.
  - reflexivity.
  - vm_compute. split; [discriminate|reflexivity].
  - repeat constructor; vm_compute; intuition discriminate.
  - split; [constructor|exact I].
  - split; [split; [constructor|exact I]|]. constructor; [|constructor]. split; [reflexivity|].
    split; try (vm_compute; intuition discriminate).
    all: cbn; split; lia.
Qed.

Lemma http_response_roundtrip_witness :
  response_text sample_response =
    str "HTTP/1.1 302" ++ CRLF ++ str "Location: /a?b=c" ++ CRLF ++
    str "Set-Cookie: id=a=b; Path=/; Domain=x.org; Expires=Sun, 06 Nov 1994 08:49:37 GMT; Secure; HttpOnly" ++ CRLF ++ CRLF /\
  (exists dest', sendResponse (OutputBufferWrapper.fresh 200) sample_response = Val (true, dest') /\
     out_content dest' = out_content (OutputBufferWrapper.fresh 200) ++ response_text sample_response) /\
  exists source', recvResponse 3 (InputBufferWrapper.of_bytes (response_text sample_response ++ str "body")) new_response =
    Val (true, arrived_response sample_response new_response, source') /\ byte_content source' = str "body".
Proof.
  split; [vm_compute; reflexivity|].
  assert (zlen (response_text sample_response ++ str "body") < 2 ^ 64) as Hz by (vm_compute; reflexivity).
  apply (http_response_roundtrip sample_response new_response (OutputBufferWrapper.fresh 200)
    (InputBufferWrapper.of_bytes (response_text sample_response ++ str "body")) (str "body") 3).
  - exact sample_response_ok.
  - reflexivity.
  - apply OutputBufferWrapper.fresh_valid. lia.
  - vm_compute. discriminate.
  - apply (InputBufferWrapper.of_bytes_valid _ Hz).
  - apply (InputBufferWrapper.of_bytes_valid _ Hz).
  - cbn. lia.
Defined.

(** ** Messages that end the program *)

(** A line that ends with the colon after its name ("Host:" without a blank) makes
    [substr] throw inside [noexcept] functions: one such line of a peer ends the program,
    in a request as in a response. *)
Theorem http_bare_colon_aborts {I} `{ByteSource I} (is_resp : bool) (k rest : bytes) (h : Header) (cs : option CookieMap)
    (source : I) (fuel : nat) :
  ~ In 58 k -> ~ In 32 k -> no_cr k -> zlen k < 1023 ->
  byte_valid source -> byte_content source = k ++ str ":" ++ CRLF ++ rest ->
  recvHeader_loop (S fuel) is_resp source h cs = Undef.
Proof.
  intros H58 H32 Hcr Hz Hv Hc. destruct (getLine_spec (k ++ str ":") rest source Hv) as (s' & E & _).
  - rewrite Hc. by rewrite <- !app_assoc.
  - split; [unfold no_cr; rewrite in_app_iff; intros [Hi|Hi]; [done|vm_compute in Hi; intuition discriminate]|].
    rewrite zlen_app. change (zlen (str ":")) with 1. lia.
  - cbn [recvHeader_loop]. rewrite E, bind_Val. cbn [negb].
    assert (header_line is_resp (k ++ str ":") h cs = Some Undef) as Hl.
    { unfold header_line. assert (find_first_of (str ": ") (k ++ str ":") = Some (length k)) as ->.
      { clear -H58 H32. induction k as [|c k IH]; [done|]. cbn [app find_first_of]. change (str ": ") with [58; 32] in *. cbn [existsb].
        rewrite (proj2 (Z.eqb_neq c 58)), (proj2 (Z.eqb_neq c 32)) by (intros ->; first [by apply H58; left|by apply H32; left]).
        cbn [orb]. rewrite IH; [done|..]; intros Hi; first [by apply H58; right|by apply H32; right]. }
      cbn [mbind option_bind]. unfold substr. rewrite length_app. change (length (str ":")) with 1%nat.
      by rewrite (proj2 (Nat.ltb_lt _ _)) by lia. }
    destruct (k ++ str ":") as [|x line] eqn:El; [by destruct k|]. by rewrite Hl.
Qed.

Lemma http_bare_colon_aborts_witness :
  recvHeader_loop 1 false (InputBufferWrapper.of_bytes (str "Host:" ++ CRLF ++ CRLF)) empty_header None = Undef.
Proof.
  assert (zlen (str "Host:" ++ CRLF ++ CRLF) < 2 ^ 64) as Hz by (vm_compute; reflexivity).
  apply (http_bare_colon_aborts false (str "Host") CRLF empty_header None (InputBufferWrapper.of_bytes (str "Host:" ++ CRLF ++ CRLF)) 0).
  1-3: vm_compute; intuition discriminate.
  - vm_compute. reflexivity.
  - apply (InputBufferWrapper.of_bytes_valid _ Hz).
  - apply (InputBufferWrapper.of_bytes_valid _ Hz).
Defined.
