(* ===== verification/HttpClient.v ===== *)
(** * HTTP/1.1 client

    Models [sese/internal/net/http/HttpClientImpl.cpp]. The socket is a class of what the network
    library provides ([Socket]); [Peer] says what a connected socket does. A short count is
    allowed everywhere: a write takes some of the bytes, a read delivers some of those that come. *)

From S2P Require Import Prelude Streams Text OrdMap Header ByteBuffer Request HttpUtil HttpMessages.

(** ** Sockets *)

(** The synchronous operations of a socket; [None] and [false] stand for an error code. The
    handshake and the shutdown are those of the TLS stream, or do nothing. *)
Class Socket (S : Type) := {
  connect : S -> bool * S;
  handshake : S -> bool * S;
  shutdown : S -> bool * S;
  close : S -> S;
  read_some : S -> Z -> option bytes * S;
  write_some : S -> bytes -> option Z * S }.

(*@ sese/internal/net/http/HttpClientImpl.cpp 268-274 HttpClient::Impl::read *)
Definition read {S} `{Socket S} (s : S) (len : Z) : outcome (Z * bytes * S) :=
  match read_some s len with
  | (None, s) => Val (-1, [], s)
  | (Some buf, s) => Val (zlen buf, buf, s)
  end.
#[export] Instance socket_input {S} `{Socket S} : InputStream S := read.

(*@ sese/internal/net/http/HttpClientImpl.cpp 276-282 HttpClient::Impl::write *)
Definition write {S} `{Socket S} (s : S) (buf : bytes) : outcome (Z * S) :=
  match write_some s buf with
  | (None, s) => Val (-1, s)
  | (Some wrote, s) => Val (wrote, s)
  end.
#[export] Instance socket_output {S} `{Socket S} : OutputStream S := write.

Definition MTU_VALUE : Z := 1472.

(** ** Moving bytes *)

Section Loops.
Context {S : Type} `{Socket S}.

(** The loop of [writeHeader] and [writeBodyByAuto]: until the stream is at its end. *)
Fixpoint write_until_end {P} `{PeekableStream P} (fuel : nat) (source : P) (s : S) : outcome (bool * P * S) :=
  match fuel with
  | O => Undef
  | Datatypes.S fuel =>
      '(len, buffer) ← stream_peek source MTU_VALUE;
      if len =? 0 then Val (true, source, s)
      else
        '(wrote, s) ← write s buffer;
        if wrote <=? 0 then Val (false, source, s)
        else '(_, source) ← stream_trunc source wrote; write_until_end fuel source s
  end.

(*@ sese/internal/net/http/HttpClientImpl.cpp 161-175 HttpClient::Impl::writeHeader *)
Definition writeHeader (fuel : nat) (builder : ByteBuffer.t) (s : S) : outcome (bool * ByteBuffer.t * S) :=
  write_until_end fuel (ByteBuffer.resetPos builder) s.

(*@ sese/internal/net/http/HttpClientImpl.cpp 215-228 HttpClient::Impl::writeBodyByAuto *)
Definition writeBodyByAuto (fuel : nat) (body : ByteBuffer.t) (s : S) : outcome (bool * ByteBuffer.t * S) :=
  write_until_end fuel body s.

(*@ sese/internal/net/http/HttpClientImpl.cpp 177-195 HttpClient::Impl::writeBodyByCallback *)
(** A callback that fills a buffer is an input stream. *)
Fixpoint writeBodyByCallback {R} `{InputStream R} (fuel : nat) (expect_total real : Z) (callback : R) (s : S) :
    outcome (bool * R * S) :=
  match fuel with
  | O => Undef
  | Datatypes.S fuel =>
      if real >=? expect_total then Val (true, callback, s)
      else
        let need := Z.min (u64 (expect_total - real)) MTU_VALUE in
        '(len, buffer, callback) ← stream_read callback need;
        if len <=? 0 then Val (false, callback, s)
        else
          '(wrote, s) ← write s buffer;
          if negb (len =? wrote) then Val (false, callback, s)
          else writeBodyByCallback fuel expect_total (u64 (real + wrote)) callback s
  end.

(*@ sese/internal/net/http/HttpClientImpl.cpp 197-213 HttpClient::Impl::writeBodyByData *)
Fixpoint writeBodyByData {P} `{PeekableStream P} (fuel : nat) (expect_total real : Z) (read_data : P) (s : S) :
    outcome (bool * P * S) :=
  match fuel with
  | O => Undef
  | Datatypes.S fuel =>
      if real >=? expect_total then Val (true, read_data, s)
      else
        let need := Z.min (u64 (expect_total - real)) MTU_VALUE in
        '(len, buffer) ← stream_peek read_data need;
        '(wrote, s) ← write s buffer;
        if wrote <=? 0 then Val (false, read_data, s)
        else
          '(_, read_data) ← stream_trunc read_data wrote;
          writeBodyByData fuel expect_total (u64 (real + wrote)) read_data s
  end.

(** The loop of [readBodyByCallback] and [readBodyByData]: a callback that takes bytes is an
    output stream. *)
Fixpoint read_body {O} `{OutputStream O} (fuel : nat) (expect real : Z) (dest : O) (s : S) : outcome (bool * O * S) :=
  match fuel with
  | Datatypes.O => Undef
  | Datatypes.S fuel =>
      if real >=? expect then Val (true, dest, s)
      else
        let need := Z.min (u64 (expect - real)) MTU_VALUE in
        '(got, buffer, s) ← read s need;
        if got <=? 0 then Val (false, dest, s)
        else
          '(wrote, dest) ← stream_write dest buffer;
          if negb (got =? wrote) then Val (false, dest, s)
          else read_body fuel expect (u64 (real + got)) dest s
  end.

(*@ sese/internal/net/http/HttpClientImpl.cpp 230-247 HttpClient::Impl::readBodyByCallback *)
Definition readBodyByCallback {W} `{OutputStream W} (fuel : nat) (expect : Z) (callback : W) (s : S) :=
  read_body fuel expect 0 callback s.

(*@ sese/internal/net/http/HttpClientImpl.cpp 249-266 HttpClient::Impl::readBodyByData *)
Definition readBodyByData {O} `{OutputStream O} (fuel : nat) (expect : Z) (write_data : O) (s : S) :=
  read_body fuel expect 0 write_data s.
End Loops.

(** ** The client *)

(** Where [read_data] and [write_data] point: to the body, or to an object of the application. *)
Inductive target := Body | Application.
#[export] Instance target_eq_dec : EqDecision target.
Proof. solve_decision. Defined.

Section Client.
Context {S In Out RC WC : Type} `{Socket S} `{PeekableStream In} `{OutputStream Out} `{InputStream RC} `{OutputStream WC}.

(*@ sese/internal/net/http/HttpClientImpl.cpp 292-311 HttpClient::Impl *)
(** The objects of the application that the pointers and callbacks lead to are part of the state. *)
Record Client := MkClient {
  socket : S; first : bool; req : Request; resp : Response; expect_total : Z;
  read_data : target; write_data : target; write_callback : bool; read_callback : bool;
  app_in : In; app_out : Out; app_read : RC; app_write : WC }.
#[export] Instance Client_eta : Eta Client :=
  fun c => MkClient (socket c) (first c) (req c) (resp c) (expect_total c) (read_data c) (write_data c)
    (write_callback c) (read_callback c) (app_in c) (app_out c) (app_read c) (app_write c).

(*@ sese/internal/net/http/HttpClientImpl.cpp 145-151 HttpClient::Impl::reset *)
Definition reset (c : Client) : Client :=
  c <| expect_total := 0 |> <| read_data := Body |> <| write_data := Body |> <| read_callback := false |> <| write_callback := false |>.

(*@ sese/internal/net/http/HttpClientImpl.cpp 38-46 HttpClient::Impl::Impl *)
Definition new_client (s : S) (r : Request) (i : In) (o : Out) (rc : RC) (wc : WC) : Client :=
  reset (MkClient s true (r <| rq_header := header_setCookies (rq_header r) (Some []) |>) new_response 0 Body Body false false i o rc wc).

(*@ sese/internal/net/http/HttpClientImpl.cpp 420-423 HttpClient::setReadData *)
Definition setReadData (i : In) (total : Z) (c : Client) : Client :=
  c <| app_in := i |> <| read_data := Application |> <| expect_total := total |>.
(*@ sese/internal/net/http/HttpClientImpl.cpp 425-427 HttpClient::setWriteData *)
Definition setWriteData (o : Out) (c : Client) : Client := c <| app_out := o |> <| write_data := Application |>.
(*@ sese/internal/net/http/HttpClientImpl.cpp 429-432 HttpClient::setReadCallback *)
Definition setReadCallback (rc : RC) (total : Z) (c : Client) : Client :=
  c <| app_read := rc |> <| read_callback := true |> <| expect_total := total |>.
(*@ sese/internal/net/http/HttpClientImpl.cpp 434-436 HttpClient::setWriteCallback *)
Definition setWriteCallback (wc : WC) (c : Client) : Client := c <| app_write := wc |> <| write_callback := true |>.

(*@ sese/internal/net/http/HttpClientImpl.cpp 61-88 HttpClient::Impl::request *)
(** The header is written, after a connection has been made when that fails. The third part of the
    result is whether the loop was left by its condition. *)
Fixpoint send_loop (rounds fuel : nat) (times : Z) (builder : ByteBuffer.t) (s : S) : outcome (bool * S) :=
  match rounds with
  | O => Undef
  | Datatypes.S rounds =>
      '(ok, builder, s) ← writeHeader fuel builder s;
      if (ok : bool) then Val (true, s)
      else if times >? 1 then Val (false, s)
      else
        let '(ok, s) := connect s in
        if negb ok then Val (false, s)
        else
          let '(ok, s) := handshake s in
          if negb ok then Val (false, s) else send_loop rounds fuel (times + 1) builder s
  end.

(*@ sese/internal/net/http/HttpClientImpl.cpp 90-106 HttpClient::Impl::request *)
Definition send_body (fuel : nat) (c : Client) : outcome (bool * Client) :=
  if negb (expect_total c =? 0) && read_callback c then
    '(ok, rc, s) ← writeBodyByCallback fuel (expect_total c) 0 (app_read c) (socket c);
    Val (ok, c <| app_read := rc |> <| socket := s |>)
  else if negb (expect_total c =? 0) then
    match read_data c with
    | Body => '(ok, b, s) ← writeBodyByData fuel (expect_total c) 0 (rq_body (req c)) (socket c);
              Val (ok, c <| req ::= fun r => r <| rq_body := b |> |> <| socket := s |>)
    | Application => '(ok, i, s) ← writeBodyByData fuel (expect_total c) 0 (app_in c) (socket c);
                     Val (ok, c <| app_in := i |> <| socket := s |>)
    end
  else
    length ← ByteBuffer.getLength (rq_body (req c));
    if negb (length =? 0) then
      '(ok, b, s) ← writeBodyByAuto fuel (rq_body (req c)) (socket c);
      Val (ok, c <| req ::= fun r => r <| rq_body := b |> |> <| socket := s |>)
    else Val (true, c).

(*@ sese/internal/net/http/HttpClientImpl.cpp 114-125 HttpClient::Impl::request *)
(** With a callback the body is read into it, and then read once more into [write_data]. *)
Definition recv_body (fuel : nat) (c : Client) : outcome (bool * Client) :=
  let expect := fst (strtol (header_get (rp_header (resp c)) (str "content-length") (str "0"))) in
  if negb (bool_decide (rq_type (req c) = HEAD)) && (expect >? 0) then
    '(ok, c) ← (if write_callback c then
                  '(ok, wc, s) ← readBodyByCallback fuel expect (app_write c) (socket c);
                  Val (ok, c <| app_write := wc |> <| socket := s |>)
                else Val (true, c));
    if negb ok then Val (false, c)
    else
      match write_data c with
      | Body => '(ok, b, s) ← readBodyByData fuel expect (rp_body (resp c)) (socket c);
                Val (ok, c <| resp ::= fun r => r <| rp_body := b |> |> <| socket := s |>)
      | Application => '(ok, o, s) ← readBodyByData fuel expect (app_out c) (socket c);
                       Val (ok, c <| app_out := o |> <| socket := s |>)
      end
  else Val (true, c).

(*@ sese/internal/net/http/HttpClientImpl.cpp 127-132 HttpClient::Impl::request *)
Definition finish_connection (c : Client) : Client :=
  if strcmpDoNotCase (str "close") (header_get (rp_header (resp c)) (str "connection") (str "close")) then
    c <| first := true |> <| socket ::= fun s => close (snd (shutdown s)) |>
  else c.

(*@ sese/internal/net/http/HttpClientImpl.cpp 134-138 HttpClient::Impl::request *)
Definition apply_cookies (c : Client) : outcome Client :=
  dest ← of_option (cookies (rq_header (req c)));
  received ← of_option (cookies (rp_header (resp c)));
  Val (c <| req ::= fun r => r <| rq_header ::= fun h =>
         header_setCookies h (Some (fold_left (fun m e => cookies_add (snd e) m) received dest)) |> |>).

(*@ sese/internal/net/http/HttpClientImpl.cpp 52-142 HttpClient::Impl::request *)
Definition request (fuel : nat) (c : Client) : outcome (bool * Client) :=
  length ← (if negb (expect_total c =? 0) then Val (expect_total c) else ByteBuffer.getLength (rq_body (req c)));
  let c := c <| req ::= fun r => r <| rq_header ::= fun h => header_set h (str "content-length") (to_string length) |> |> in
  let times := if first c then 1 else 0 in
  '(_, builder) ← sendRequest (ByteBuffer.create 1024 1024) (req c);
  '(ok, s) ← send_loop 3 fuel times builder (socket c);
  let c := c <| socket := s |> in
  if negb ok then Val (false, reset c)
  else
    '(ok, c) ← send_body fuel c;
    if negb (ok : bool) then Val (false, reset c)
    else
      '(ok, r, s) ← recvResponse fuel (socket c) (resp c);
      let c := c <| resp := r |> <| socket := s |> in
      if negb ok then Val (false, reset c)
      else
        '(ok, c) ← recv_body fuel c;
        if negb (ok : bool) then Val (false, reset c)
        else c ← apply_cookies (finish_connection c); Val (true, reset c).
End Client.
