(* ===== verification/HttpClientProof.v ===== *)
(** * HTTP/1.1 client: what a request does

    [request] of [HttpClient.v] against a socket that takes and delivers bytes in pieces of any
    size: the request that is sent, the response that is read. *)

From S2P Require Import Prelude Streams InputBufferWrapper OutputBufferWrapper Text OrdMap Header ByteBuffer Request HttpUtil HttpMessages HttpClient.

(** ** A connected peer *)

(** What a connected socket does: a write takes at least one byte, a read delivers at least
    one of the bytes that come. [sent] is what has been taken, [inbox] what is still to come. *)
Class Peer (S : Type) `{Socket S} := {
  linked : S -> Prop;
  sent : S -> bytes;
  inbox : S -> bytes;
  write_peer s data : linked s -> data <> [] ->
    exists n s', write_some s data = (Some n, s') /\ 1 <= n <= zlen data /\ linked s' /\
      sent s' = sent s ++ ztake n data /\ inbox s' = inbox s;
  read_peer s n : linked s -> 0 < n -> inbox s <> [] ->
    exists m s', read_some s n = (Some (ztake m (inbox s)), s') /\ 1 <= m <= Z.min n (zlen (inbox s)) /\ linked s' /\
      sent s' = sent s /\ inbox s' = zdrop m (inbox s) }.

(** The socket that a request goes out on: the one that is open, or a new connection after a write has failed. *)
Inductive dials {S} `{Peer S} (s : S) : S -> Prop :=
| dials_open : linked s -> dials s s
| dials_new s2 : (forall data, data <> [] -> exists s0 s1, write_some s data = (None, s0) /\ connect s0 = (true, s1) /\ handshake s1 = (true, s2)) ->
    linked s2 -> dials s s2.

Section Peers.
Context {S : Type} `{Peer S}.

(** A socket is a source of bytes; reading them sends nothing. *)
#[refine] Definition quiet (T : bytes) : ByteSource S := {| byte_valid s := linked s /\ sent s = T; byte_content := inbox |}.
Proof.
  intros s b rest [Hl Hs] Hi. destruct (read_peer s 1 Hl ltac:(lia)) as (m & s' & E & Hm & Hl' & Hs' & Hi'); [by rewrite Hi|].
  rewrite Hi in *. assert (m = 1) as -> by lia. exists s'. unfold stream_read, socket_input, read. rewrite E. split; [done|].
  split; [|done]. split; [done|]. congruence.
Defined.

Lemma write_once s data : linked s -> data <> [] ->
  exists n s', write s data = Val (n, s') /\ 1 <= n <= zlen data /\ linked s' /\ sent s' = sent s ++ ztake n data /\ inbox s' = inbox s.
Proof.
  intros Hl Hd. destruct (write_peer s data Hl Hd) as (n & s' & E & Hs). exists n, s'. unfold write. by rewrite E.
Qed.

(** A piece and the rest of what is left of a stream. *)
Lemma piece_rest n k (l : bytes) : 0 <= n <= k -> ztake n (ztake k l) ++ zdrop n l = l.
Proof. intros Hn. unfold ztake at 1 2. rewrite take_take, Nat.min_l by lia. apply ztake_zdrop. Qed.

Lemma pieces_take n need k (l : bytes) : 0 <= n <= need -> n <= k ->
  ztake n (ztake need l) ++ ztake (k - n) (zdrop n l) = ztake k l.
Proof.
  intros Hn Hk. unfold ztake, zdrop. rewrite take_take, Nat.min_l, take_take_drop by lia. f_equal. lia.
Qed.

Lemma zlen_zero {A} (l : list A) : zlen l = 0 -> l = [].
Proof. destruct l; [done|]. unfold zlen. cbn [length]. lia. Qed.

Lemma write_until_end_spec {P} `{MemPeek P} fuel : forall (source : P) s, in_valid source -> linked s ->
  (length (in_content source) < fuel)%nat ->
  exists source' s', write_until_end fuel source s = Val (true, source', s') /\ in_valid source' /\ in_content source' = [] /\
    linked s' /\ sent s' = sent s ++ in_content source /\ inbox s' = inbox s.
Proof.
  induction fuel as [|fuel IH]; intros source s Hv Hl Hf; [lia|]. cbn [write_until_end].
  rewrite peek_law, bind_Val by (done || (unfold MTU_VALUE; lia)). pose proof (zlen_nonneg (in_content source)) as Hz.
  destruct (Z.min _ _ =? 0) eqn:E0; zbool.
  - assert (in_content source = []) as Hc by (apply zlen_zero; unfold MTU_VALUE in E0; lia). exists source, s. rewrite Hc, app_nil_r. done.
  - destruct (write_once s (ztake MTU_VALUE (in_content source)) Hl) as (n & s1 & -> & Hn & Hl1 & Hs1 & Hi1).
    { intros Hc. apply (f_equal zlen) in Hc. rewrite zlen_ztake_min in Hc by (unfold MTU_VALUE; lia). change (zlen (@nil Z)) with 0 in Hc. lia. }
    rewrite bind_Val. rewrite zlen_ztake_min in Hn by (unfold MTU_VALUE; lia). rewrite (proj2 (Z.leb_gt n 0)) by lia.
    destruct (trunc_law source n Hv ltac:(lia)) as (source1 & -> & Hv1 & Hc1). rewrite bind_Val.
    destruct (IH source1 s1 Hv1 Hl1) as (source2 & s2 & -> & Hv2 & Hc2 & Hl2 & Hs2 & Hi2).
    { rewrite Hc1. unfold zdrop, zlen in *. rewrite length_drop. lia. }
    exists source2, s2. split; [done|]. split; [done|]. split; [done|]. split; [done|]. split; [|congruence].
    rewrite Hs2, Hs1, Hc1, <- app_assoc. f_equal. apply piece_rest. lia.
Qed.

Lemma writeBodyByData_spec {P} `{MemPeek P} total fuel : forall (source : P) s real, in_valid source -> linked s ->
  0 <= real <= total -> total < 2 ^ 63 -> total - real <= zlen (in_content source) -> (Z.to_nat (total - real) < fuel)%nat ->
  exists source' s', writeBodyByData fuel total real source s = Val (true, source', s') /\ in_valid source' /\
    in_content source' = zdrop (total - real) (in_content source) /\
    linked s' /\ sent s' = sent s ++ ztake (total - real) (in_content source) /\ inbox s' = inbox s.
Proof.
  induction fuel as [|fuel IH]; intros source s real Hv Hl Hr Ht Hz Hf; [lia|]. cbn [writeBodyByData].
  destruct (real >=? total) eqn:E; zbool.
  - exists source, s. rewrite zdrop_0, ztake_0, app_nil_r by lia. done.
  - rewrite wrap_small by (unfold is_u; lia). set (need := Z.min (total - real) MTU_VALUE).
    assert (0 < need <= total - real) as Hn by (unfold need, MTU_VALUE; lia).
    rewrite peek_law, bind_Val by (done || lia).
    destruct (write_once s (ztake need (in_content source)) Hl) as (n & s1 & -> & Hn1 & Hl1 & Hs1 & Hi1).
    { intros Hc. apply (f_equal zlen) in Hc. rewrite zlen_ztake in Hc by lia. change (zlen (@nil Z)) with 0 in Hc. lia. }
    rewrite bind_Val. rewrite zlen_ztake in Hn1 by lia. rewrite (proj2 (Z.leb_gt n 0)) by lia.
    destruct (trunc_law source n Hv ltac:(lia)) as (source1 & -> & Hv1 & Hc1). rewrite bind_Val.
    rewrite wrap_small by (unfold is_u; lia).
    destruct (IH source1 s1 (real + n) Hv1 Hl1) as (source2 & s2 & -> & Hv2 & Hc2 & Hl2 & Hs2 & Hi2); try lia.
    { rewrite Hc1, zlen_zdrop by lia. lia. }
    exists source2, s2. split; [done|]. split; [done|]. split; [|split; [done|split; [|congruence]]].
    + rewrite Hc2, Hc1, zdrop_zdrop by lia. f_equal. lia.
    + rewrite Hs2, Hs1, Hc1, <- app_assoc. f_equal. rewrite <- (pieces_take n need (total - real)) by lia.
      do 2 f_equal. lia.
Qed.

Lemma read_body_spec {O} `{MemOutput O} expect fuel : forall (dest : O) s real, out_valid dest -> linked s ->
  0 <= real <= expect -> expect < 2 ^ 63 -> expect - real <= zlen (inbox s) -> out_room dest (expect - real) ->
  (Z.to_nat (expect - real) < fuel)%nat ->
  exists dest' s', read_body fuel expect real dest s = Val (true, dest', s') /\ out_valid dest' /\
    out_content dest' = out_content dest ++ ztake (expect - real) (inbox s) /\
    linked s' /\ sent s' = sent s /\ inbox s' = zdrop (expect - real) (inbox s).
Proof.
  induction fuel as [|fuel IH]; intros dest s real Hv Hl Hr Ht Hz Hroom Hf; [lia|]. cbn [read_body].
  destruct (real >=? expect) eqn:E; zbool.
  - exists dest, s. rewrite zdrop_0, ztake_0, app_nil_r by lia. done.
  - rewrite wrap_small by (unfold is_u; lia). set (need := Z.min (expect - real) MTU_VALUE).
    assert (0 < need <= expect - real) as Hn by (unfold need, MTU_VALUE; lia).
    destruct (read_peer s need Hl ltac:(lia)) as (m & s1 & E1 & Hm & Hl1 & Hs1 & Hi1); [intros Hc; rewrite Hc in Hz; change (zlen (@nil Z)) with 0 in Hz; lia|].
    unfold read. rewrite E1, bind_Val. assert (zlen (ztake m (inbox s)) = m) as Hzm by (apply zlen_ztake; lia). rewrite Hzm.
    rewrite (proj2 (Z.leb_gt m 0)) by lia.
    destruct (write_step dest (ztake m (inbox s)) (expect - real - m) Hv ltac:(lia)) as (d1 & -> & Hv1 & Hd1 & Hroom1).
    { rewrite Hzm. by replace (m + (expect - real - m)) with (expect - real) by lia. }
    rewrite bind_Val, Hzm, Z.eqb_refl. cbn [negb]. rewrite wrap_small by (unfold is_u; lia).
    destruct (IH d1 s1 (real + m) Hv1 Hl1) as (d2 & s2 & -> & Hv2 & Hd2 & Hl2 & Hs2 & Hi2); try lia.
    { rewrite Hi1, zlen_zdrop by lia. lia. } { by replace (expect - (real + m)) with (expect - real - m) by lia. }
    exists d2, s2. split; [done|]. split; [done|]. split; [|split; [done|split; [congruence|]]].
    + rewrite Hd2, Hd1, Hi1, <- app_assoc. f_equal. unfold ztake, zdrop. rewrite take_take_drop. f_equal. lia.
    + rewrite Hi2, Hi1, zdrop_zdrop by lia. f_equal. lia.
Qed.
End Peers.

(** ** The header in its buffer *)

(** Writing does not move the read cursor of a byte buffer. *)
Lemma write_loop_cursor fuel : forall b data acc r, ByteBuffer.write_loop fuel b data acc = Val r ->
  ByteBuffer.rnode (snd r) = ByteBuffer.rnode b /\ ByteBuffer.rpos (snd r) = ByteBuffer.rpos b.
Proof.
  induction fuel as [|fuel IH]; intros b data acc r E; [done|]. cbn [ByteBuffer.write_loop] in E.
  apply bind_Val_inv in E as (n & _ & E). ifcase_in E; apply bind_Val_inv in E as (mem & _ & E).
  - by injection E as <-.
  - by apply IH in E.
Qed.

(** Byte buffers that nothing has been read from. *)
#[refine] Definition unread : MemOutput ByteBuffer.t :=
  {| out_valid b := ByteBuffer.valid b /\ ByteBuffer.rnode b = 0%nat /\ ByteBuffer.rpos b = 0;
     out_content := ByteBuffer.content; out_room _ _ := True |}.
Proof.
  - intros b data (Hv & Hn & Hp) _. destruct (ByteBuffer.chain_write_spec b data Hv) as (b' & E & Hv' & Hc & _).
    exists b'. destruct (write_loop_cursor _ _ _ _ _ E) as [Hn' Hp']. cbn in Hn', Hp'. rewrite Hn', Hp'. done.
  - done.
Defined.

Lemma resetPos_unread b : ByteBuffer.rnode b = 0%nat -> ByteBuffer.rpos b = 0 -> ByteBuffer.resetPos b = b.
Proof. destruct b. cbn. by intros -> ->. Qed.

Section Header.
Context {S : Type} `{Peer S}.

Lemma writeHeader_spec fuel builder s : @out_valid _ _ unread builder -> linked s ->
  (length (ByteBuffer.content builder) < fuel)%nat ->
  exists builder' s', writeHeader fuel builder s = Val (true, builder', s') /\ linked s' /\
    sent s' = sent s ++ ByteBuffer.content builder /\ inbox s' = inbox s.
Proof.
  intros (Hv & Hn & Hp) Hl Hf. unfold writeHeader. rewrite resetPos_unread by done.
  destruct (write_until_end_spec fuel builder s) as (b' & s' & E & _ & _ & Hs); [exact Hv|exact Hl|exact Hf|]. by exists b', s'.
Qed.

(** The header goes out on the socket that is dialled, with two attempts at most. *)
Lemma send_loop_spec rounds fuel times builder s s2 : @out_valid _ _ unread builder -> dials s s2 -> times <= 1 ->
  ByteBuffer.content builder <> [] -> (length (ByteBuffer.content builder) < fuel)%nat -> (2 <= rounds)%nat ->
  exists s', send_loop rounds fuel times builder s = Val (true, s') /\ linked s' /\
    sent s' = sent s2 ++ ByteBuffer.content builder /\ inbox s' = inbox s2.
Proof.
  intros Hb Hd Ht Hne Hf Hr. destruct rounds as [|[|rounds]]; [lia..|]. destruct Hd as [Hl|s2 Hno Hl].
  - destruct (writeHeader_spec fuel builder s Hb Hl Hf) as (b' & s' & E & Hs). exists s'. cbn [send_loop]. by rewrite E.
  - destruct (writeHeader_spec fuel builder s2 Hb Hl Hf) as (b' & s' & E & Hs). exists s'. split; [|exact Hs].
    destruct Hb as (Hv & Hn & Hp). pose proof (zlen_nonneg (ByteBuffer.content builder)) as Hz0.
    assert (zlen (ByteBuffer.content builder) <> 0) as Hz by (intros Hz; by apply Hne, zlen_zero).
    destruct (Hno (ztake MTU_VALUE (ByteBuffer.content builder))) as (s0 & s1 & E0 & E1 & E2).
    { intros Hc. apply (f_equal zlen) in Hc. rewrite zlen_ztake_min in Hc by (unfold MTU_VALUE; lia).
      change (zlen (@nil Z)) with 0 in Hc. unfold MTU_VALUE in Hc. lia. }
    assert (writeHeader fuel builder s = Val (false, builder, s0)) as Ew.
    { unfold writeHeader. rewrite resetPos_unread by done. destruct fuel as [|fuel]; [lia|]. cbn [write_until_end].
      rewrite (peek_law builder) by (exact Hv || (unfold MTU_VALUE; lia)).
      change (in_content builder) with (ByteBuffer.content builder). rewrite bind_Val.
      rewrite (proj2 (Z.eqb_neq _ 0)) by (unfold MTU_VALUE; lia). unfold write. by rewrite E0. }
    cbn [send_loop]. rewrite Ew, bind_Val. cbv iota. destruct (times >? 1) eqn:Et; [zbool; lia|].
    rewrite E1. cbn [negb]. rewrite E2. cbn [negb]. by rewrite E.
Qed.
End Header.

(** ** A request *)

Section Request.
Context {S In Out RC WC : Type} `{Peer S} `{MemPeek In} `{MemOutput Out} `{InputStream RC} `{OutputStream WC}.
Abbreviation client := (@Client S In Out RC WC).

(** The body that goes out, and the request with its length. *)
Definition outgoing (c : client) : bytes :=
  if expect_total c =? 0 then ByteBuffer.content (rq_body (req c))
  else ztake (expect_total c) match read_data c with
                              | Body => ByteBuffer.content (rq_body (req c))
                              | Application => in_content (app_in c)
                              end.
Definition announced (c : client) : Request :=
  (req c) <| rq_header ::= fun h => header_set h (str "content-length") (to_string (zlen (outgoing c))) |>.

(** What has been written where the body of a response goes. *)
Definition delivered (t : target) (c : client) : bytes :=
  match t with Body => ByteBuffer.content (rp_body (resp c)) | Application => out_content (app_out c) end.

(** A client before its first request, without callbacks: the body of the request has not been read, and
    what is to be sent is there. *)
Record prepared (c : client) (room : Z) (m : CookieMap) : Prop := {
  pr_callbacks : read_callback c = false /\ write_callback c = false;
  pr_body : ByteBuffer.valid (rq_body (req c)) /\
    ByteBuffer.getLength (rq_body (req c)) = Val (zlen (ByteBuffer.content (rq_body (req c))));
  pr_total : 0 <= expect_total c < 2 ^ 63 /\
    expect_total c <= zlen match read_data c with Body => ByteBuffer.content (rq_body (req c)) | Application => in_content (app_in c) end;
  pr_in : in_valid (app_in c);
  pr_out : ByteBuffer.valid (rp_body (resp c)) /\ out_valid (app_out c) /\ out_room (app_out c) room;
  pr_fresh : headers (rp_header (resp c)) = [];
  pr_cookies : cookies (rq_header (req c)) = Some m }.

Lemma announced_length c room m : prepared c room m ->
  (if negb (expect_total c =? 0) then Val (expect_total c) else ByteBuffer.getLength (rq_body (req c))) = Val (zlen (outgoing c)).
Proof.
  intros Hp. destruct (pr_total _ _ _ Hp) as [H1' H2']. unfold outgoing. destruct (expect_total c =? 0) eqn:E; cbn [negb].
  - apply Hp.
  - f_equal. symmetry. apply zlen_ztake. lia.
Qed.

(** The body, once the header is out. *)
Lemma send_body_spec fuel (c : client) room m : prepared c room m -> linked (socket c) -> (length (outgoing c) < fuel)%nat ->
  exists c' s', send_body fuel c = Val (true, c') /\ socket c' = s' /\ linked s' /\
    sent s' = sent (socket c) ++ outgoing c /\ inbox s' = inbox (socket c) /\
    (exists b i, c' = c <| req ::= fun r => r <| rq_body := b |> |> <| app_in := i |> <| socket := s' |>).
Proof.
  intros Hp Hl Hf. destruct (pr_callbacks _ _ _ Hp) as [Hrc _]. destruct (pr_body _ _ _ Hp) as [Hv Hlen]. destruct (pr_total _ _ _ Hp) as [H1' H2'].
  unfold send_body, outgoing in *. rewrite Hrc, andb_false_r. destruct (expect_total c =? 0) eqn:E; zbool; cbn [negb].
  - rewrite Hlen, bind_Val. destruct (zlen _ =? 0) eqn:E0; zbool; cbn [negb].
    + rewrite (zlen_zero _ E0), app_nil_r. exists c, (socket c). do 5 (split; [done|]). exists (rq_body (req c)), (app_in c). by destruct c as [? ? [] ? ? ? ? ? ? ? ? ? ?].
    + unfold writeBodyByAuto. destruct (write_until_end_spec fuel (rq_body (req c)) (socket c)) as (b & s' & -> & _ & _ & Hs); [exact Hv|done|exact Hf|].
      rewrite bind_Val. eexists _, s'. split; [done|]. split; [done|]. destruct Hs as (? & ? & ?). do 3 (split; [done|]). exists b, (app_in c). by destruct c.
  - assert (0 < expect_total c) as H3' by lia.
    assert (Z.to_nat (expect_total c) < fuel)%nat as Hf2.
    { assert (zlen (ztake (expect_total c) match read_data c with Body => ByteBuffer.content (rq_body (req c)) | Application => in_content (app_in c) end) = expect_total c) as Hz
        by (apply zlen_ztake; lia). unfold zlen in Hz at 1. lia. }
    destruct (read_data c).
    + destruct (writeBodyByData_spec (expect_total c) fuel (rq_body (req c)) (socket c) 0) as (b & s' & -> & _ & _ & Hs);
        [exact Hv|done|lia|lia|rewrite Z.sub_0_r; exact H2'|by rewrite Z.sub_0_r|]. rewrite Z.sub_0_r in Hs.
      rewrite bind_Val. eexists _, s'. split; [done|]. split; [done|]. destruct Hs as (? & ? & ?). do 3 (split; [done|]). exists b, (app_in c). by destruct c.
    + destruct (writeBodyByData_spec (expect_total c) fuel (app_in c) (socket c) 0) as (i & s' & -> & _ & _ & Hs);
        [apply Hp|done|lia|lia|rewrite Z.sub_0_r; exact H2'|by rewrite Z.sub_0_r|]. rewrite Z.sub_0_r in Hs.
      rewrite bind_Val. eexists _, s'. split; [done|]. split; [done|]. destruct Hs as (? & ? & ?). do 3 (split; [done|]). exists (rq_body (req c)), i. by destruct c as [? ? [] ? ? ? ? ? ? ? ? ? ?].
Qed.

(** The length of the body that a response announces. *)
Definition announced_body (head : bool) (rp : Response) : Z :=
  if head then 0 else Z.max 0 (toInteger (header_get (rp_header rp) (str "content-length") (str "0"))).

Lemma recv_body_spec fuel (c : client) rp payload rest :
  write_callback c = false -> ByteBuffer.valid (rp_body (resp c)) -> out_valid (app_out c) -> out_room (app_out c) (zlen payload) ->
  headers (rp_header (resp c)) = headers (rp_header rp) -> linked (socket c) -> inbox (socket c) = payload ++ rest ->
  zlen payload = announced_body (bool_decide (rq_type (req c) = HEAD)) rp -> zlen payload < 2 ^ 63 -> (length payload < fuel)%nat ->
  exists c', recv_body fuel c = Val (true, c') /\ linked (socket c') /\ sent (socket c') = sent (socket c) /\ inbox (socket c') = rest /\
    delivered (write_data c) c' = delivered (write_data c) c ++ payload /\
    (exists b o, c' = c <| resp ::= fun r => r <| rp_body := b |> |> <| app_out := o |> <| socket := socket c' |>).
Proof.
  intros Hwc Hv Ho Hr Hh Hl Hi Hz Hz63 Hf. unfold recv_body, announced_body, toInteger in *.
  assert (header_get (rp_header (resp c)) (str "content-length") (str "0") = header_get (rp_header rp) (str "content-length") (str "0")) as ->
    by (unfold header_get, header_find; by rewrite Hh).
  set (n := fst (strtol _)) in *. pose proof (zlen_nonneg payload) as Hnn. pose proof (zlen_nonneg rest) as Hnr.
  destruct (negb (bool_decide (rq_type (req c) = HEAD)) && (n >? 0)) eqn:E.
  - apply andb_true_iff in E as [E1 E2]. apply negb_true_iff in E1. rewrite E1 in Hz. zbool. rewrite Hwc, bind_Val. cbn [negb].
    assert (n = zlen payload) as Hn by lia. rewrite Hn.
    assert (ztake (zlen payload) (payload ++ rest) = payload /\ zdrop (zlen payload) (payload ++ rest) = rest) as [Ht Hd].
    { rewrite ztake_app_le, ztake_ge, zdrop_app_ge, zdrop_0 by lia. done. }
    assert (zlen payload - 0 <= zlen (inbox (socket c))) as Hzi by (rewrite Hi, zlen_app; lia).
    assert (Z.to_nat (zlen payload - 0) < fuel)%nat as Hf2 by (unfold zlen; lia).
    destruct (write_data c).
    + destruct (read_body_spec (zlen payload) fuel (rp_body (resp c)) (socket c) 0) as (b & s' & E3 & _ & Hc & Hl' & Hs' & Hi');
        [exact Hv|done|lia|lia|exact Hzi|exact I|exact Hf2|].
      unfold readBodyByData. rewrite E3, bind_Val. rewrite Z.sub_0_r, Hi, Ht in Hc. rewrite Z.sub_0_r, Hi, Hd in Hi'.
      eexists. split; [done|]. do 4 (split; [done|]). exists b, (app_out c). by destruct c.
    + destruct (read_body_spec (zlen payload) fuel (app_out c) (socket c) 0) as (o & s' & E3 & _ & Hc & Hl' & Hs' & Hi');
        [exact Ho|done|lia|lia|exact Hzi|by rewrite Z.sub_0_r|exact Hf2|].
      unfold readBodyByData. rewrite E3, bind_Val. rewrite Z.sub_0_r, Hi, Ht in Hc. rewrite Z.sub_0_r, Hi, Hd in Hi'.
      eexists. split; [done|]. do 4 (split; [done|]). exists (rp_body (resp c)), o. by destruct c as [? ? ? [] ? ? ? ? ? ? ? ? ?].
  - assert (zlen payload = 0) as Hz0.
    { destruct (bool_decide _); [done|]. cbn [negb andb] in E. zbool. lia. }
    apply zlen_zero in Hz0 as ->. cbn [app] in Hi. exists c. do 4 (split; [done|]). split; [by rewrite app_nil_r|].
    exists (rp_body (resp c)), (app_out c). by destruct c as [? ? ? [] ? ? ? ? ? ? ? ? ?].
Qed.

Lemma prepared_announced c room m : prepared c room m -> prepared (c <| req := announced c |>) room m.
Proof. intros [Hcb Hb Ht Hin Ho Hfr Hck]. by split. Qed.

Lemma outgoing_announced c : outgoing (c <| req := announced c |>) = outgoing c.
Proof. reflexivity. Qed.

Lemma prepared_socket c room m s : prepared c room m -> prepared (c <| socket := s |>) room m.
Proof. intros [Hcb Hb Ht Hin Ho Hfr Hck]. by split. Qed.

(** There is a line in a text for every field and cookie. *)
Lemma response_fuel r : (length (headers (rp_header r)) + length (sent_cookies r) + 1 <= length (response_text r))%nat.
Proof.
  assert (forall {A} (f : A -> bytes) l, (forall e, 1 <= length (f e))%nat -> length l <= length (l ≫= f))%nat as Hbind.
  { intros A f l Hf. induction l as [|e l IH]; [done|]. rewrite bind_cons, length_app. specialize (Hf e). cbn [length]. lia. }
  assert (length (headers (rp_header r)) <= length (headers (rp_header r) ≫= field_line))%nat as Hfl.
  { apply Hbind. intros e. unfold field_line. rewrite !length_app. change (length CRLF) with 2%nat. lia. }
  assert (length (sent_cookies r) <= length (set_cookie_lines (sent_cookies r)))%nat as Hcl.
  { apply Hbind. intros e. rewrite !length_app. change (length CRLF) with 2%nat. lia. }
  unfold response_text. rewrite !length_app.
  change (length CRLF) with 2%nat. lia.
Qed.

Lemma request_text_nonempty r : request_text r <> [].
Proof. unfold request_text. intros E. apply (f_equal length) in E. rewrite !length_app in E. change (length CRLF) with 2%nat in E. cbn [length] in E. lia. Qed.

(** C2: one call of the client, over a socket that takes and delivers bytes in pieces of any size, on an open connection or
    on a new one. The peer is sent the text of the request with the length of its body, and the body, wherever it
    comes from; when the peer's answer is the text of a response and its body, the call succeeds: the fields, the code and
    the cookies of the response are there, the body is where it was asked for, the cookies are kept for the
    next request, and what follows in the connection is left unread. The connection is closed when the response says so. *)
Theorem http_client_request (c : client) (s2 : S) (rp : Response) (m : CookieMap) (payload rest : bytes) (fuel : nat) :
  prepared c (zlen payload) m -> dials (socket c) s2 -> inbox s2 = response_text rp ++ payload ++ rest ->
  request_ok (announced c) -> response_ok rp ->
  zlen payload = announced_body (bool_decide (rq_type (req c) = HEAD)) rp -> zlen payload < 2 ^ 63 ->
  (length (request_text (announced c)) + length (outgoing c) + length (response_text rp) + length payload < fuel)%nat ->
  exists c' s3, request fuel c = Val (true, c') /\
    linked s3 /\ sent s3 = sent s2 ++ request_text (announced c) ++ outgoing c /\ inbox s3 = rest /\
    socket c' = (if strcmpDoNotCase (str "close") (header_get (rp_header rp) (str "connection") (str "close"))
                 then close (snd (shutdown s3)) else s3) /\
    rp_header (resp c') = rp_header (arrived_response rp (resp c)) /\ statusCode (resp c') = statusCode rp /\
    delivered (write_data c) c' = delivered (write_data c) c ++ payload /\
    cookies (rq_header (req c')) = Some (fold_left (fun m e => cookies_add (snd e) m) (arrived_cookies (sent_cookies rp)) m).
Proof.
  intros Hp Hd Hi Hok Hrp Hz Hz63 Hf. unfold request. rewrite (announced_length c _ m Hp), bind_Val.
  set (c1 := update req _ c). change c1 with (c <| req := announced c |>). clear c1. set (c1 := c <| req := announced c |>).
  cbv zeta. change (req c1) with (announced c). change (first c1) with (first c). change (socket c1) with (socket c).
  pose proof (prepared_announced c _ m Hp) as Hp1. fold c1 in Hp1.
  destruct (ByteBuffer.create_valid 1024 1024) as [Vb Cb]; [lia|lia|].
  destruct (@sendRequest_spec _ _ unread (announced c) (ByteBuffer.create 1024 1024) (ro_version _ Hok)) as (b & E1 & Hb & Hcb); [done|exact I|].
  change (ByteBuffer.content b = ByteBuffer.content (ByteBuffer.create 1024 1024) ++ request_text (announced c)) in Hcb. rewrite Cb in Hcb. cbn [app] in Hcb.
  rewrite E1, bind_Val.
  destruct (send_loop_spec 3 fuel (if first c then 1 else 0) b (socket c) s2 Hb Hd) as (s3 & E2 & Hl3 & Hs3 & Hi3); rewrite ?Hcb; try lia.
  { destruct (first c); lia. } { apply request_text_nonempty. }
  rewrite E2, bind_Val. cbn [negb].
  destruct (send_body_spec fuel (c1 <| socket := s3 |>) _ m (prepared_socket _ _ _ s3 Hp1)) as (c2 & s4 & E3 & Hsk & Hl4 & Hs4 & Hi4 & bd & ai & Ec2);
    [exact Hl3|change (outgoing (c1 <| socket := s3 |>)) with (outgoing c); lia|].
  change (outgoing (c1 <| socket := s3 |>)) with (outgoing c) in Hs4. change (socket (c1 <| socket := s3 |>)) with s3 in Hs4, Hi4.
  rewrite E3, bind_Val. cbn [negb]. rewrite Hsk.
  destruct (@recvResponse_spec S _ (quiet (sent s4)) rp (resp c2) s4 (payload ++ rest) fuel Hrp) as (s5 & E4 & [Hl5 Hs5] & Hi5).
  { rewrite Ec2. apply Hp. } { done. } { change (inbox s4 = response_text rp ++ payload ++ rest). congruence. }
  { pose proof (response_fuel rp). lia. }
  change (inbox s5 = payload ++ rest) in Hi5. change (recvResponse fuel s4 (resp c2)) with (@recvResponse S _ fuel s4 (resp c2)). rewrite E4, bind_Val. cbn [negb].
  set (c3 := c2 <| resp := _ |> <| socket := s5 |>).
  pose proof (pr_out _ _ _ Hp) as (Hvr & Hvo & Hro). pose proof (pr_callbacks _ _ _ Hp) as [_ Hwc].
  destruct (recv_body_spec fuel c3 rp payload rest) as (c4 & E5 & Hl6 & Hs6 & Hi6 & Hdel & bd2 & ao & Ec4);
    [by unfold c3; rewrite Ec2..|done|done|by unfold c3; rewrite Ec2|done|lia|].
  rewrite E5, bind_Val. cbn [negb]. unfold finish_connection.
  assert (rp_header (resp c4) = rp_header (arrived_response rp (resp c)) /\ statusCode (resp c4) = statusCode rp /\ cookies (rq_header (req c4)) = Some m) as (Hh & Hst & Hck).
  { rewrite Ec4. unfold c3. rewrite Ec2. split; [done|]. split; [done|]. apply Hp. }
  assert (header_get (rp_header (resp c4)) (str "connection") (str "close") = header_get (rp_header rp) (str "connection") (str "close")) as ->
    by (unfold header_get, header_find; by rewrite Hh).
  assert (forall c5 : client, req c5 = req c4 -> resp c5 = resp c4 -> apply_cookies c5 = Val (c5 <| req ::= fun r => r <| rq_header ::= fun h =>
    header_setCookies h (Some (fold_left (fun m e => cookies_add (snd e) m) (arrived_cookies (sent_cookies rp)) m)) |> |>)) as Hap.
  { intros c5 R1 R2. unfold apply_cookies. rewrite R1, R2, Hck, Hh. reflexivity. }
  assert (delivered (write_data c) c4 = delivered (write_data c) c ++ payload) as Hdel2.
  { assert (write_data c3 = write_data c) as Hw by (unfold c3; by rewrite Ec2). rewrite Hw in Hdel. rewrite Hdel. f_equal.
    unfold c3. rewrite Ec2. by destruct (write_data c). }
  assert (sent (socket c4) = sent s2 ++ request_text (announced c) ++ outgoing c) as Hsent.
  { rewrite Hs6. change (socket c3) with s5. by rewrite Hs5, Hs4, Hs3, Hcb, <- app_assoc. }
  destruct (strcmpDoNotCase _ _).
  - rewrite Hap, bind_Val by done.
    eexists _, (socket c4). split; [done|]. do 3 (split; [done|]). split; [done|]. split; [exact Hh|]. split; [exact Hst|].
    split; [|done]. rewrite <- Hdel2. by destruct (write_data c).
  - rewrite Hap, bind_Val by done.
    eexists _, (socket c4). split; [done|]. do 3 (split; [done|]). split; [done|]. split; [exact Hh|]. split; [exact Hst|].
    split; [|done]. rewrite <- Hdel2. by destruct (write_data c).
Qed.
End Request.

(** ** An example *)

(** A socket whose peer answers [reply] on a new connection; a call takes at most five bytes
    or delivers at most three. At the end of the reply the peer has closed the connection. *)
Record Line := MkLine { up : bool; taken : bytes; coming : bytes; reply : bytes }.
#[export] Instance line_socket : Socket Line := {
  connect s := (true, MkLine true [] (reply s) (reply s));
  handshake s := (true, s);
  shutdown s := (true, s);
  close s := MkLine false (taken s) [] (reply s);
  read_some s n :=
    if up s then
      match coming s with
      | [] => (None, s)
      | data => let m := Z.min n 3 in (Some (ztake m data), MkLine true (taken s) (zdrop m data) (reply s))
      end
    else (None, s);
  write_some s data :=
    if up s then let n := Z.min (zlen data) 5 in (Some n, MkLine true (taken s ++ ztake n data) (coming s) (reply s))
    else (None, s) }.

#[export] Program Instance line_peer : Peer Line := {| linked s := up s = true; sent := taken; inbox := coming |}.
Next Obligation.
  intros s data Hl Hd. cbn in *. rewrite Hl. destruct data as [|b data]; [done|]. rewrite zlen_cons. pose proof (zlen_nonneg data).
  eexists _, _. split; [done|]. split; [lia|]. done.
Qed.
Next Obligation.
  intros s n Hl Hn Hi. cbn in *. rewrite Hl. destruct (coming s) as [|b l]; [done|]. rewrite zlen_cons. pose proof (zlen_nonneg l).
  destruct (decide (Z.min n 3 <= 1 + zlen l)).
  - exists (Z.min n 3). eexists. split; [done|]. split; [lia|]. done.
  - exists (1 + zlen l). eexists. split; [rewrite !ztake_ge by (rewrite zlen_cons; lia); done|]. split; [lia|].
    split; [done|]. split; [done|]. cbn. by rewrite !zdrop_ge by (rewrite zlen_cons; lia).
Qed.

Definition get_reply : Response :=
  new_response <| rp_header := MkHeader [(str "connection", str "keep-alive"); (str "Content-Length", str "4")]
    (Some [(str "id", MkCookie true true 0 784111777 (str "id") (str "a=b") (str "x.org") (str "/"))]) |>.
Definition post_request : Request := example_request <| rq_type := POST |> <| rq_header := MkHeader [(str "host", str "a.b: 80")] None |>.
Definition post_client : Client :=
  setReadData (InputBufferWrapper.of_bytes (str "seven bytes")) 5
    (new_client (MkLine false [] [] (response_text get_reply ++ str "okay" ++ str "HTTP")) post_request
      (InputBufferWrapper.of_bytes []) (OutputBufferWrapper.fresh 10) (InputBufferWrapper.of_bytes []) (OutputBufferWrapper.fresh 10)).

Lemma get_reply_ok : response_ok get_reply.
Proof.
  split.
  - reflexivity.
  - vm_compute. split; [discriminate|reflexivity].
  - repeat constructor; vm_compute; intuition discriminate.
  - split; [constructor; [reflexivity|constructor]|split; [constructor|exact I]].
  - split; [split; [constructor|exact I]|]. constructor; [|constructor]. split; [reflexivity|].
    split; try (vm_compute; intuition discriminate).
    all: cbn; split; lia.
Qed.

Lemma post_request_ok : request_ok (announced post_client).
Proof.
  pose proof example_request_ok as Hu. split; [reflexivity|exact Hu|..].
  - split; [vm_compute; intuition discriminate|]. repeat constructor; vm_compute; intuition discriminate.
  - vm_compute. discriminate.
  - repeat constructor; try (vm_compute; intuition discriminate).
  - split; [constructor; [reflexivity|constructor]|split; [constructor|exact I]].
  - exact I.
Qed.

Lemma http_client_request_witness :
  exists c' s3, request 2000 post_client = Val (true, c') /\
    linked s3 /\ taken s3 = [] ++ request_text (announced post_client) ++ str "seven" /\ inbox s3 = str "HTTP" /\
    socket c' = s3 /\
    rp_header (resp c') = rp_header (arrived_response get_reply new_response) /\ statusCode (resp c') = 200 /\
    delivered Body c' = delivered Body post_client ++ str "okay" /\
    cookies (rq_header (req c')) = Some (fold_left (fun m e => cookies_add (snd e) m) (arrived_cookies (sent_cookies get_reply)) []).
Proof.
  destruct (http_client_request post_client (MkLine true [] (reply (socket post_client)) (reply (socket post_client))) get_reply [] (str "okay") (str "HTTP") 2000)
    as (c' & s3 & E & Hl & Hs & Hi & Hk & Hh & Hst & Hd & Hc).
  - destruct (ByteBuffer.create_valid 8192 1024) as [V C]; [lia|lia|].
    split; [done|split; [exact V|reflexivity]|split; [zeval|vm_compute; discriminate]|vm_compute; repeat split; discriminate| |reflexivity|reflexivity].
    split; [exact V|]. split; [apply OutputBufferWrapper.fresh_valid; lia|vm_compute; discriminate].
  - apply dials_new; [|reflexivity]. intros data Hd. eexists _, _. split; [reflexivity|]. split; reflexivity.
  - reflexivity.
  - exact post_request_ok.
  - exact get_reply_ok.
  - reflexivity.
  - reflexivity.
  - vm_compute. lia.
  - exists c', s3. split; [exact E|]. split; [exact Hl|]. split; [exact Hs|]. split; [exact Hi|]. split; [exact Hk|]. split; [exact Hh|].
    split; [exact Hst|]. split; [exact Hd|exact Hc].
Defined.

(** With a callback for the body the same reply is not enough: the body is read once more after the callback
    has taken it, so the call fails when nothing more comes. *)
Example callback_reads_twice :
  (let c := setWriteCallback (OutputBufferWrapper.fresh 10)
      (new_client (MkLine false [] [] (response_text get_reply ++ str "okay")) post_request
        (InputBufferWrapper.of_bytes []) (OutputBufferWrapper.fresh 10) (InputBufferWrapper.of_bytes []) (OutputBufferWrapper.fresh 10)) in
   '(ok, c) ← request 2000 c; Val (ok, OutputBufferWrapper.content (app_write c))) = Val (false, str "okay").
Proof. vm_compute. reflexivity. Qed.

(** A body from a callback is given up when the socket takes a part of it. *)
Example callback_short_write :
  (let c := setReadCallback (InputBufferWrapper.of_bytes (str "sevenseven")) 10
      (new_client (MkLine false [] [] (response_text get_reply ++ str "okay")) post_request
        (InputBufferWrapper.of_bytes []) (OutputBufferWrapper.fresh 10) (InputBufferWrapper.of_bytes []) (OutputBufferWrapper.fresh 10)) in
   '(ok, c) ← request 2000 c; let sent := taken (socket c) in Val (ok, zdrop (zlen sent - 7) sent)) = Val (false, CRLF ++ str "seven").
Proof. vm_compute. reflexivity. Qed.
