(* ===== verification/HttpUrl.v ===== *)
(** * URLs and the making of a client

    Models [sese/net/http/UrlHelper.cpp], [RequestParser.cpp], [sese/net/AddressPool.h] and
    [HttpClient::create] of [sese/internal/net/http/HttpClientImpl.cpp]. Addresses are objects that the
    pool and the clients share, so they live in a heap; what the system makes of a numeric address or a
    name is a parameter. *)

From S2P Require Import Prelude Text OrdMap Header ByteBuffer Percent Request.

(** ** URLs *)

(*@ sese/net/http/UrlHelper.h 56-63 Url *)
Record Url := MkUrl { protocol : bytes; host : bytes; url : bytes; query : bytes }.

(** [text.find(sub, pos)]. *)
Definition find_at (sub text : bytes) (pos : nat) : option nat :=
  (fun i => (pos + i)%nat) <$> find sub (drop pos text).

(** [std::string_view(text + first, last - first)], and up to the terminator. *)
Definition part (first last : nat) (text : bytes) : bytes := take (last - first) (drop first text).
Definition tail_of (first : nat) (text : bytes) : bytes := cstr (drop first text).

(*@ sese/net/http/UrlHelper.cpp 19-59 Url::Url *)
Definition parse_url (text : bytes) : Url :=
  let '(protocol, protocol_end) :=
    match find_at (str "://") text 0 with
    | Some e => (take e text, (e + 3)%nat)
    | None => ([], O)
    end in
  let '(found_host, host, host_end) :=
    match find_at (str "/") text protocol_end with
    | Some e => (true, part protocol_end e text, e)
    | None => (false, [], protocol_end)
    end in
  match find_at (str "?") text host_end with
  | None =>
      if found_host : bool then MkUrl protocol host (tail_of host_end text) []
      else MkUrl protocol (tail_of host_end text) (str "/") []
  | Some uri_end =>
      if found_host then MkUrl protocol host (part host_end uri_end text) (tail_of uri_end text)
      else MkUrl protocol (part host_end uri_end text) (str "/") (tail_of uri_end text)
  end.

(** ** Addresses *)

Section Addresses.
Context {A : Type} (from_numbers : bytes -> option A) (look_up_any : bytes -> option A).

(** The addresses that exist, with their ports, and the pool's map of names to them. *)
(*@ sese/net/AddressPool.h 46-48 AddressPool *)
Record Pool := MkPool { addresses : list (A * Z); addressMap : list (bytes * nat) }.

Definition new_address (a : A) (p : Pool) : nat * Pool :=
  (length (addresses p), MkPool (addresses p ++ [(a, 0)]) (addressMap p)).
Definition setPort (r : nat) (port : Z) (p : Pool) : Pool :=
  MkPool (alter (fun a => (fst a, port)) r (addresses p)) (addressMap p).

(*@ sese/net/AddressPool.h 60-76 AddressPool::lookup *)
Definition lookup_address (domain : bytes) (p : Pool) : option nat * Pool :=
  match mfind lexcmp domain (addressMap p) with
  | Some r => (Some r, p)
  | None =>
      match look_up_any domain with
      | None => (None, p)
      | Some a => let '(r, p) := new_address a p in
                  (Some r, MkPool (addresses p) (mset lexcmp domain r (addressMap p)))
      end
  end.

(*@ sese/net/http/RequestParser.cpp 63-72 RequestParser::parseAddress *)
Definition is_number_part (item : bytes) : bool :=
  let '(bit, rest) := strtol item in
  match rest with [] => negb ((bit <? 0) || (bit >? 255)) | c :: _ => (c =? 0) && negb ((bit <? 0) || (bit >? 255)) end.

(*@ sese/net/http/RequestParser.cpp 60-78 RequestParser::parseAddress *)
Definition parseAddress (host : bytes) (p : Pool) : option nat * Pool :=
  let result := split_view host (str ".") in
  if (zlen result =? 4) && forallb is_number_part result then
    match from_numbers (cstr host) with
    | Some a => let '(r, p) := new_address a p in (Some r, p)
    | None => (None, p)
    end
  else lookup_address host p.

(*@ sese/net/http/RequestParser.h 31-35 RequestParser::Result *)
Record Result := MkResult { rs_url : Url; rs_address : option nat; rs_request : option Request }.

(*@ sese/net/http/RequestParser.cpp 30-44 RequestParser::parse *)
(** The name and the port of a host. *)
Definition host_port (host : bytes) (port : Z) : option (bytes * Z) :=
  match find (str ":") host with
  | None => Some (host, port)
  | Some _ =>
      match split_view host (str ":") with
      | [name; text] => let '(v, rest) := strtol text in
                        match rest with [] => Some (name, u16 v) | c :: _ => if c =? 0 then Some (name, u16 v) else None end
      | _ => None
      end
  end.

(*@ sese/net/http/RequestParser.cpp 20-58 RequestParser::parse *)
Definition parse (text : bytes) (p : Pool) : Result * Pool :=
  let u := parse_url text in
  let port := if StrCmpI (protocol u) (str "Https") =? 0 then 443 else 80 in
  match host_port (host u) port with
  | None => (MkResult u None None, p)
  | Some (name, port) =>
      match parseAddress name p with
      | (None, p) => (MkResult u None None, p)
      | (Some addr, p) =>
          let request := new_request <| rq_header ::= fun h => header_set h (str "host") (host u) |> in
          (MkResult u (Some addr) (Some (setUrl request (url u ++ query u))), setPort addr port p)
      end
  end.

(*@ sese/internal/net/http/HttpClientImpl.cpp 352-387 HttpClient::create *)
(** The client's scheme, address and request; [None] is a null client. *)
Definition create (text proxy : bytes) (p : Pool) : outcome (option (bool * nat * Request) * Pool) :=
  let '(url_result, p) := parse text p in
  let set k v (r : Request) := r <| rq_header ::= fun h => header_set h k v |> in
  let finish ssl address request :=
    Some (ssl, address, set (str "connection") (str "keep-alive") (set (str "user-agent") (str "sese-httpclient/1.0") request)) in
  match proxy with
  | [] =>
      match rs_address url_result with
      | None => Val (None, p)
      | Some address =>
          request ← of_option (rs_request url_result);
          Val (finish (strcmpDoNotCase (str "https") (protocol (rs_url url_result))) address request, p)
      end
  | _ =>
      let '(proxy_result, p) := parse proxy p in
      match rs_address proxy_result with
      | None => Val (None, p)
      | Some address =>
          request ← of_option (rs_request url_result);
          let request := set (str "proxy-connection") (str "keep-alive") (set (str "via:") proxy (setUrl request text)) in
          Val (finish (strcmpDoNotCase (str "https") (protocol (rs_url proxy_result))) address request, p)
      end
  end.
End Addresses.
Arguments MkPool {A} _ _.

(** ** What is read from an URL *)

Lemma find_at_next c s (a b rest : bytes) : ~ In c b -> find_at (c :: s) (a ++ b ++ (c :: s) ++ rest) (length a) = Some (length a + length b)%nat.
Proof. intros Hb. unfold find_at. by rewrite drop_app_length, find_next. Qed.

Lemma part_app (a b c : bytes) : part (length a) (length a + length b) (a ++ b ++ c) = b.
Proof. unfold part. rewrite drop_app_length. replace (_ - _)%nat with (length b) by lia. apply take_app_length. Qed.

(** The protocol and the host are found, and what follows the host is cut in two at most. *)
Lemma parse_url_spec p h rest : ~ In 58 p -> ~ In 47 h -> ~ In 0 rest ->
  exists u q, parse_url (p ++ str "://" ++ h ++ 47 :: rest) = MkUrl p h u q /\ u ++ q = 47 :: rest.
Proof.
  intros Hp Hh H0. assert (~ In 0 (47 :: rest)) as Hn by (intros [|]; done). set (text := p ++ str "://" ++ h ++ 47 :: rest). unfold parse_url. set (front := p ++ [58; 47; 47]).
  assert (find_at (str "://") text 0 = Some (length p)) as ->
    by exact (find_at_next 58 [47; 47]%Z [] p (h ++ 47 :: rest) Hp).
  assert ((length p + 3)%nat = length front) as -> by (unfold front; by rewrite length_app).
  assert (text = front ++ h ++ [47] ++ rest) as Et by (by unfold text, front; rewrite <- app_assoc).
  assert (find_at (str "/") text (length front) = Some (length front + length h)%nat) as ->
    by (rewrite Et; exact (find_at_next 47 [] front h rest Hh)).
  assert (take (length p) text = p) as -> by (unfold text; apply take_app_length).
  assert (part (length front) (length front + length h) text = h) as -> by (rewrite Et; apply part_app).
  assert (drop (length front + length h) text = 47 :: rest) as Ed.
  { rewrite Et, <- drop_drop, drop_app_length. apply drop_app_length. }
  set (n := (length front + length h)%nat) in *. unfold find_at, tail_of, part. rewrite Ed.
  destruct (find (str "?") (47 :: rest)) as [i|]; cbn [fmap option_fmap option_map].
  - eexists _, _. split; [reflexivity|]. replace (n + i - n)%nat with i by lia. rewrite <- drop_drop, Ed.
    rewrite cstr_no_nul; [apply take_drop|]. intros Hi. apply Hn. rewrite <- (take_drop i (47 :: rest)). apply in_app_iff. by right.
  - eexists _, _. split; [reflexivity|]. rewrite cstr_no_nul by done. apply app_nil_r.
Qed.

(** An URL that is written starts with a slash and holds no NUL. *)
Lemma getUrl_shape r : url_ok r -> exists rest, getUrl r = 47 :: rest /\ ~ In 0 rest.
Proof.
  intros [(dirs & Hu & Hd) [Ha _]]. unfold getUrl. cbv zeta. rewrite Hu, path_encoded by done.
  set (args := match query_args r with [] => [] | e :: l => _ end).
  assert (~ In 0 args) as Hargs.
  { assert (Forall (fun e => ~ In 0 (encode (fst e) ++ str "=" ++ encode (snd e))) (query_args r)) as HF.
    { eapply Forall_impl; [exact Ha|]. cbn beta. intros e [H1 H2]. change (str "=") with [61]. rewrite !in_app_iff.
      intros [Hi|[[|[]]|Hi]]; [apply encode_chars in Hi; tauto|done|apply encode_chars in Hi; tauto]. }
    unfold args. destruct HF as [|e l He HF]; [intros []|]. change (str "?") with [63]. change (str "&") with [38].
    intros Hi. apply in_app_iff in Hi as [[|[]]|Hi]; [done|]. apply in_app_iff in Hi as [Hi|Hi]; [done|]. clear -Hi HF. induction HF as [|e' l He' HF IH]; [done|].
    rewrite bind_cons in Hi. apply in_app_iff in Hi as [Hi|Hi]; [|by apply IH]. apply in_app_iff in Hi as [[|[]]|Hi]; [done|by apply He']. }
  destruct Hd as [|d ds (Ht & _ & _) Hd]; [by exists args|]. rewrite bind_cons. cbn [app]. eexists. split; [done|].
  rewrite !in_app_iff. intros [[Hi|Hi]|Hi]; [apply encode_chars in Hi; tauto| |done].
  clear -Hi Hd. induction Hd as [|d' ds (Ht' & _ & _) Hd IH]; [done|]. rewrite bind_cons, in_app_iff in Hi.
  destruct Hi as [[|Hi]|Hi]; [done|apply encode_chars in Hi; tauto|by apply IH].
Qed.

(** A host with a port, or without. *)
Definition host_text (h : bytes) (port : option Z) : bytes :=
  match port with Some n => h ++ str ":" ++ to_string n | None => h end.
Definition host_ok (h : bytes) : Prop := ~ In 58 h /\ ~ In 47 h /\ ~ In 0 h.
Definition port_ok (port : option Z) : Prop := match port with Some n => is_u 16 n | None => True end.

Lemma host_port_spec h port d : host_ok h -> port_ok port -> host_port (host_text h port) d = Some (h, default d port).
Proof.
  intros (Hc & _ & _) Hp. unfold host_port, host_text. change (str ":") with [58]. destruct port as [n|].
  - rewrite find_next by done. unfold port_ok, is_u in Hp.
    assert (forall c, In c (to_string n) -> 48 <= c < 58) as Hdig by (intros c Hi; apply to_string_digits in Hi; lia).
    change (h ++ [58] ++ to_string n) with (join [58] [h; to_string n]). rewrite split_view_join.
    + rewrite <- (app_nil_r (to_string n)), strtol_to_string by (done || lia || intros []). cbn [default]. by rewrite wrap_small.
    + constructor; [done|]. constructor; [|done]. intros Hi. apply Hdig in Hi. lia.
    + cbn [List.last]. apply to_string_spec. lia.
    + cbn [List.last]. intros Hi. apply Hdig in Hi. lia.
  - by rewrite find_absent.
Qed.

Definition default_port (p : bytes) : Z := if StrCmpI p (str "Https") =? 0 then 443 else 80.

(** C27: a client is made for an URL: the scheme decides whether TLS is used, the address is that of the host with the port
    of the URL or of the scheme, and the request has the path and the arguments that the URL was written from, whatever
    characters they are made of, with the host's name and port as its host field. *)
Theorem http_client_create {A} (from_numbers look_up_any : bytes -> option A) (p h : bytes) (port : option Z) (r : Request) (pool pool' : Pool) (a : nat) :
  ~ In 58 p -> host_ok h -> port_ok port -> url_ok r -> parseAddress from_numbers look_up_any h pool = (Some a, pool') ->
  create from_numbers look_up_any (p ++ str "://" ++ host_text h port ++ getUrl r) [] pool =
    Val (Some (strcmpDoNotCase (str "https") p, a,
               new_request <| rq_uri := rq_uri r |> <| query_args := query_args r |>
                 <| rq_header := MkHeader [(str "connection", str "keep-alive"); (str "host", host_text h port);
                                           (str "user-agent", str "sese-httpclient/1.0")] None |>),
         setPort a (default (default_port p) port) pool').
Proof.
  intros Hp Hh Hport Hr Ha. destruct (getUrl_shape r Hr) as (rest & Eg & H0). 
  destruct (parse_url_spec p (host_text h port) rest Hp) as (u & q & Eu & Euq); [|done|].
  { unfold host_text. destruct Hh as (_ & Hh & _). destruct port as [n|]; [|done]. change (str ":") with [58].
    rewrite !in_app_iff. intros [?|[[|[]]|Hi]]; [done|done|]. apply to_string_digits in Hi; [lia|unfold port_ok, is_u in Hport; lia]. }
  unfold create, parse. rewrite Eg, Eu. cbn [protocol host url query]. rewrite host_port_spec by done. rewrite Ha.
  cbn [rs_address rs_request rs_url protocol of_option]. rewrite bind_Val, Euq, <- Eg.
  rewrite setUrl_getUrl by done. reflexivity.
Qed.

Definition to_address (text : bytes) : option bytes := Some text.

Lemma http_client_create_witness :
  create to_address (fun _ => None) (str "HTTPS" ++ str "://" ++ host_text (str "10.0.0.1") (Some 8443) ++ getUrl example_request) [] (MkPool [] []) =
    Val (Some (strcmpDoNotCase (str "https") (str "HTTPS"), 0%nat,
               new_request <| rq_uri := rq_uri example_request |> <| query_args := query_args example_request |>
                 <| rq_header := MkHeader [(str "connection", str "keep-alive"); (str "host", host_text (str "10.0.0.1") (Some 8443));
                                           (str "user-agent", str "sese-httpclient/1.0")] None |>),
         setPort 0 (default (default_port (str "HTTPS")) (Some 8443)) (MkPool [(str "10.0.0.1", 0)] [])).
Proof.
  apply (http_client_create to_address (fun _ => None) (str "HTTPS") (str "10.0.0.1") (Some 8443) example_request (MkPool [] [])).
  - vm_compute. intuition discriminate.
  - repeat split; vm_compute; intuition discriminate.
  - vm_compute. split; [discriminate|reflexivity].
  - exact example_request_ok.
  - reflexivity.
Defined.

(** The address of a name is one object for all its clients: a second client for another port moves the first one's too. *)
Definition two_clients : outcome (option nat * option nat * list (bytes * Z)) :=
  let address_of (c : option (bool * nat * Request)) := match c with Some (_, a, _) => Some a | None => None end in
  '(c1, p) ← create (fun _ => None) to_address (str "http://example.org:81/") [] (MkPool [] []);
  '(c2, p) ← create (fun _ => None) to_address (str "http://example.org:82/") [] p;
  Val (address_of c1, address_of c2, addresses p).

Example pool_port_shared : two_clients = Val (Some 0%nat, Some 0%nat, [(str "example.org", 82)]).
Proof. vm_compute. reflexivity. Qed.

(** A slash in the arguments of an URL without a path is taken for the start of the path. *)
Example slash_in_query : parse_url (str "http://a.org?next=/x") = MkUrl (str "http") (str "a.org?next=") (str "/x") [].
Proof. reflexivity. Qed.

(** With a proxy, a host of the URL that has no address leaves no request to change. *)
Example proxy_no_request :
  create to_address (fun _ => None) (str "http://example.org/") (str "http://10.0.0.1:8080") (MkPool [] []) = Undef.
Proof. vm_compute. reflexivity. Qed.
