(* ===== verification/HttpService.v ===== *)
(** * The HTTP service

    Models what [HttpServiceImpl::handleFilter] and [handleRequest] of
    [sese/internal/service/http/HttpServiceImpl.cpp] do with a request, the state they
    share with the connections ([Handleable.h]), servlets ([net/http/Controller.cpp]) and
    the file stream they open ([io/FileStream.cpp]). The file system and the callbacks of
    the application are parameters; the stopwatch and the log are left out. *)

From S2P Require Import Prelude Text OrdMap DateTime Header ByteBuffer Request ContentTypeMap.

(** ** Files *)

(** The [FILE] behind a [FileStream]: its bytes and the position in them. *)
Record File := MkFile { f_data : bytes; f_pos : Z }.
#[export] Instance File_eta : Eta File := fun f => MkFile (f_data f) (f_pos f).

(*@ sese/io/FileStream.cpp 35-37 FileStream::read *)
Definition file_read (f : File) (length : Z) : bytes * File :=
  let data := slice (f_pos f) length (f_data f) in (data, f <| f_pos ::= Z.add (zlen data) |>).

(*@ sese/io/FileStream.cpp 60-62 FileStream::setSeek *)
(** For [Seek::BEGIN]; [fseek] refuses a negative position. *)
Definition file_seek (f : File) (offset : Z) : Z * File :=
  if offset <? 0 then (-1, f) else (0, f <| f_pos := offset |>).

(** What [std::filesystem] and [fopen] answer for a path. *)
Class FileSystem := {
  fs_exists : bytes -> bool;
  fs_is_regular_file : bytes -> bool;
  fs_is_directory : bytes -> bool;
  fs_open : bytes -> option bytes;   (** the content, when [fopen] succeeds *)
  fs_file_size : bytes -> Z;
  fs_last_write_time : bytes -> Z }. (** in seconds *)

(** [path::extension()]: from the last dot of the last component, unless the dot is its
    first character. *)
Definition path_extension (p : bytes) : bytes :=
  let name := rev (fst (break (fun c => c =? 47) (rev p))) in
  if bool_decide (name = str "..") then []
  else match break (fun c => c =? 46) (rev name) with
       | (_, []) | (_, [_]) => []
       | (ext, _) => 46 :: rev ext
       end.

(** ** Connections, as the service sees them *)

(*@ sese/internal/service/http/ConnType.h 21-26 ConnType *)
Inductive ConnType := FILTER | FILE_DOWNLOAD | CONTROLLER | NONE.
#[export] Instance ConnType_eq_dec : EqDecision ConnType.
Proof. solve_decision. Defined.

(*@ sese/internal/service/http/Handleable.h 26-40 Handleable *)
(** [range_iterator] is an index into [ranges]; the address is opaque. *)
Record Handleable := MkHandleable {
  conn_type : ConnType; request : Request; response : Response; content_type : bytes;
  file : option File; filesize : Z; ranges : list Range; range_iterator : nat;
  remote_address : Z; keepalive : bool }.
#[export] Instance Handleable_eta : Eta Handleable := fun h =>
  MkHandleable (conn_type h) (request h) (response h) (content_type h) (file h) (filesize h) (ranges h)
    (range_iterator h) (remote_address h) (keepalive h).

Definition new_handleable (addr : Z) : Handleable :=
  MkHandleable NONE new_request new_response (str "application/x-") None 0 [] 0 addr false.

(** ** Servlets *)

(** The application's callbacks, as what they make of the request and the response. *)
Definition FilterCallback : Type := Request -> Response -> bool * Request * Response.
Definition Callback : Type := Request -> Response -> Z -> Request * Response.

(*@ sese/net/http/Controller.h 35-76 Servlet *)
Record Servlet := MkServlet {
  s_uri : bytes; expect_type : RequestType; expect_query_args : list (bytes * unit);
  expect_headers : list (bytes * unit); callback : option Callback }.
#[export] Instance Servlet_eta : Eta Servlet := fun s =>
  MkServlet (s_uri s) (expect_type s) (expect_query_args s) (expect_headers s) (callback s).

(*@ sese/net/http/Controller.cpp 38-49 Servlet::Servlet *)
Definition expect_item (s : Servlet) (item : bytes) : Servlet :=
  let key := slice 1 (zlen item - 2) item in
  if startsWith item (str "{") && endsWith item (str "}") then
    match key with [] => s | _ => s <| expect_query_args ::= mset lexcmp key tt |> end
  else if startsWith item (str "<") && endsWith item (str ">") then
    match key with [] => s | _ => s <| expect_headers ::= mset lexcmp key tt |> end
  else s.

(*@ sese/net/http/Controller.cpp 27-50 Servlet::Servlet *)
Definition new_servlet (expect : RequestType) (url : bytes) : Servlet :=
  match find (str "?") url with
  | None => MkServlet url expect [] [] None
  | Some pos =>
      fold_left expect_item (split_view (drop (pos + 1) url) (str "&"))
        (MkServlet (take pos url) expect [] [] None)
  end.

(*@ sese/net/http/Controller.cpp 62-90 Servlet::invoke *)
Definition invoke (s : Servlet) (req : Request) (resp : Response) (addr : Z) : Request * Response :=
  match callback s with
  | None => (req, resp <| statusCode := 500 |>)
  | Some callback =>
      if negb (bool_decide (rq_type req = expect_type s)) then (req, resp <| statusCode := 403 |>)
      else if negb (forallb (fun item => header_exist (rq_header req) (fst item)) (expect_headers s)) then
        (req, resp <| statusCode := 400 |>)
      else if negb (forallb (fun item => match mfind lexcmp (fst item) (query_args req) with
                                         | Some _ => true | None => false end) (expect_query_args s)) then
        (req, resp <| statusCode := 400 |>)
      else callback req resp addr
  end.

(** ** The service *)

(*@ sese/service/http/HttpService.h 63-72 HttpService *)
(** The unordered maps are lists in the order of their iteration. *)
Record Service := MkService {
  sv_keepalive : Z; serv_name : bytes; mount_points : list (bytes * bytes);
  servlets : list (bytes * Servlet); tail_filter : option FilterCallback;
  filters : list (bytes * FilterCallback) }.

Definition resp_set (key value : bytes) (h : Handleable) : Handleable :=
  h <| response ::= fun r => r <| rp_header ::= fun hd => header_set hd key value |> |>.
Definition resp_code (code : Z) (h : Handleable) : Handleable :=
  h <| response ::= fun r => r <| statusCode := code |> |>.

(** [resp.set("content-length", std::to_string(resp.getBody().getLength()))]. *)
Definition resp_length (h : Handleable) : outcome Handleable :=
  n ← ByteBuffer.getLength (rp_body (response h)); Val (resp_set (str "content-length") (to_string n) h).

(*@ sese/Config.h 137-137 HTTPD_BOUNDARY *)
Definition HTTPD_BOUNDARY : bytes := str "000000SESE0BOUNDARY000000".

(*@ sese/internal/service/http/HttpServiceImpl.cpp 122-135 HttpServiceImpl::handleFilter *)
Fixpoint handleFilter_loop (l : list (bytes * FilterCallback)) (h : Handleable) : Handleable :=
  match l with
  | [] => h
  | (uri_prefix, callback) :: l =>
      if startsWith (rq_uri (request h)) uri_prefix then
        let '(ok, req, resp) := callback (request h) (response h) in
        let h := h <| request := req |> <| response := resp |> in
        if ok : bool then handleFilter_loop l (h <| conn_type := NONE |>) else h <| conn_type := FILTER |>
      else handleFilter_loop l h
  end.
Definition handleFilter (sv : Service) (h : Handleable) : Handleable := handleFilter_loop (filters sv) h.

(*@ sese/internal/service/http/HttpServiceImpl.cpp 153-163 HttpServiceImpl::handleRequest *)
Definition match_mount_point (sv : Service) (h : Handleable) : Handleable * bytes :=
  if bool_decide (conn_type h = NONE) then
    match List.find (fun m => startsWith (rq_uri (request h)) (fst m)) (mount_points sv) with
    | Some (uri_prefix, mount_point) =>
        (h <| conn_type := FILE_DOWNLOAD |>,
         mount_point ++ str "/" ++ zdrop (zlen uri_prefix) (rq_uri (request h)))
    | None => (h, [])
    end
  else (h, []).

(*@ sese/internal/service/http/HttpServiceImpl.cpp 165-174 HttpServiceImpl::handleRequest *)
Definition handle_servlet (sv : Service) (h : Handleable) : outcome Handleable :=
  let h := match List.find (fun s => bool_decide (fst s = rq_uri (request h))) (servlets sv) with
           | None => resp_code 404 h
           | Some (_, s) =>
               let '(req, resp) := invoke s (request h) (response h) (remote_address h) in
               h <| request := req |> <| response := resp |> <| conn_type := CONTROLLER |>
           end in
  resp_length h.

(*@ sese/internal/service/http/HttpServiceImpl.cpp 229-243 HttpServiceImpl::handleRequest *)
(** The length of a multipart body, [None] when a range is out of the file. *)
Fixpoint multipart_loop (h : Handleable) (l : list Range) (content_length : Z) : option Z :=
  match l with
  | [] => Some (u64 (content_length + (6 + zlen HTTPD_BOUNDARY)))
  | item :: l =>
      if u64 (begin item + len item) >? filesize h then None
      else multipart_loop h l (u64 (content_length + (12 + zlen HTTPD_BOUNDARY + zlen (str "Content-Type: ") +
             zlen (content_type h) + zlen (str "Content-Range: ") + range_toStringLength item (filesize h) + len item)))
  end.

Section Service.
Context `{FileSystem} (sv : Service).

(*@ sese/internal/service/http/HttpServiceImpl.cpp 192-201 HttpServiceImpl::handleRequest *)
Definition set_content_type (filename : bytes) (h : Handleable) : Handleable :=
  match path_extension filename with
  | [] => h
  | _ :: ext =>
      match content_type_find ext with
      | None => resp_set (str "content-type") (content_type h) h
      | Some type => resp_set (str "content-type") type h <| content_type := type |>
      end
  end.

(*@ sese/internal/service/http/HttpServiceImpl.cpp 203-249 HttpServiceImpl::handleRequest *)
(** The flag says that the code jumps to [uni_handle]. *)
Definition set_ranges (filename : bytes) (h : Handleable) : outcome (bool * Handleable) :=
  let h := h <| filesize := fs_file_size filename |> in
  let h := h <| ranges := parse_ranges (header_get (rq_header (request h)) (str "Range") []) (filesize h) |> in
  match ranges h with
  | [] =>
      let h := h <| ranges := [MkRange 0 (filesize h)] |> <| range_iterator := 0%nat |> in
      Val (false, resp_code 200 (resp_set (str "content-length") (to_string (filesize h)) h))
  | [r] =>
      let h := h <| range_iterator := 0%nat |> in
      if u64 (begin r + len r) >? filesize h then h ← resp_length (resp_code 416 h); Val (true, h)
      else Val (false, resp_code 206 (resp_set (str "content-length") (to_string (len r)) h))
  | l =>
      let h := h <| range_iterator := 0%nat |> in
      match multipart_loop h l 0 with
      | None => h ← resp_length (resp_code 416 h); Val (true, h)
      | Some content_length =>
          let h := resp_set (str "content-type") (str "multipart/byteranges; boundary=" ++ HTTPD_BOUNDARY) h in
          Val (false, resp_code 206 (resp_set (str "content-length") (to_string content_length) h))
      end
  end.

(*@ sese/internal/service/http/HttpServiceImpl.cpp 175-254 HttpServiceImpl::handleRequest *)
Definition handle_file (filename : bytes) (h : Handleable) : outcome Handleable :=
  if negb (fs_exists filename) || negb (fs_is_regular_file filename) || fs_is_directory filename then
    h ← resp_length (resp_code 404 h); Val (h <| conn_type := NONE |>)
  else
    let h := h <| file := (fun data => MkFile data 0) <$> fs_open filename |> in
    match file h with
    | None => resp_length (resp_code 500 h)
    | Some _ =>
        '(jump, h) ← set_ranges filename (set_content_type filename h);
        if jump : bool then Val h
        else
          let time := u64 (fs_last_write_time filename * 1000 * 1000) in
          dt ← create time 0 FORMAT;
          text ← format dt TIME_GREENWICH_MEAN_PATTERN;
          Val (resp_set (str "last-modified") text h)
    end.

(*@ sese/internal/service/http/HttpServiceImpl.cpp 256-274 HttpServiceImpl::handleRequest *)
Definition uni_handle (h : Handleable) : outcome Handleable :=
  let h :=
    if bool_decide (rq_version (request h) = VERSION_1_1) then
      let h := h <| keepalive := strcmpDoNotCase (header_get (rq_header (request h)) (str "connection") (str "close"))
                                   (str "keep-alive") |> in
      if keepalive h then
        resp_set (str "keep-alive") (str "timeout=" ++ to_string (sv_keepalive sv))
          (resp_set (str "connection") (str "keep-alive") h)
      else h
    else h in
  let h := resp_set (str "accept-range") (str "bytes") (resp_set (str "server") (serv_name sv) h) in
  match tail_filter sv with
  | Some filter =>
      if negb (statusCode (response h) =? 200) && negb (statusCode (response h) =? 201) then
        let '(ok, req, resp) := filter (request h) (response h) in
        let h := h <| request := req |> <| response := resp |> in
        if ok : bool then
          n ← ByteBuffer.getReadableSize (rp_body (response h));
          Val (resp_set (str "content-length") (to_string n) h <| conn_type := CONTROLLER |>)
        else Val h
      else Val h
  | None => Val h
  end.

(*@ sese/internal/service/http/HttpServiceImpl.cpp 137-275 HttpServiceImpl::handleRequest *)
Definition handleRequest (h : Handleable) : outcome Handleable :=
  let '(h, filename) := match_mount_point sv h in
  h ← match conn_type h with
      | NONE => handle_servlet sv h
      | FILE_DOWNLOAD => handle_file filename h
      | _ => Val h
      end;
  uni_handle h.
End Service.

(** ** Parts of a multipart body, as both kinds of connections send them *)

(*@ sese/internal/service/http/HttpConnection.cpp 201-203 HttpConnection::writeRanges *)
Definition first_subheader (h : Handleable) (r : Range) : bytes :=
  str "--" ++ HTTPD_BOUNDARY ++ [13; 10] ++ str "content-type: " ++ content_type h ++ [13; 10] ++
  str "content-range: " ++ range_toString r (filesize h) ++ [13; 10; 13; 10].

(*@ sese/internal/service/http/HttpConnection.cpp 236-238 HttpConnection::writeRanges *)
Definition next_subheader (h : Handleable) (r : Range) : bytes := [13; 10] ++ first_subheader h r.

(*@ sese/internal/service/http/HttpConnection.cpp 224-224 HttpConnection::writeRanges *)
Definition end_boundary : bytes := [13; 10] ++ str "--" ++ HTTPD_BOUNDARY ++ str "--" ++ [13; 10].

(** ** Multipart bodies *)

(** The body that the connections send for several ranges of a file. *)
Definition part (h : Handleable) (data : bytes) (r : Range) : bytes := next_subheader h r ++ slice (begin r) (len r) data.
Definition multipart_body (h : Handleable) (data : bytes) (l : list Range) : bytes :=
  zdrop 2 (concat (map (part h data) l)) ++ end_boundary.

Lemma multipart_body_first h data r l : multipart_body h data (r :: l) =
  first_subheader h r ++ slice (begin r) (len r) data ++ concat (map (part h data) l) ++ end_boundary.
Proof. unfold multipart_body, part, next_subheader. cbn [map concat app]. change (zdrop 2 (13 :: 10 :: ?l)) with l. by rewrite <- !app_assoc. Qed.

Lemma multipart_body_zlen h data r l :
  zlen (multipart_body h data (r :: l)) = zlen (concat (map (part h data) (r :: l))) + (6 + zlen HTTPD_BOUNDARY).
Proof.
  unfold multipart_body, part, next_subheader. cbn [map concat app]. change (zdrop 2 (13 :: 10 :: ?l)) with l.
  rewrite zlen_app, !zlen_cons. change (zlen end_boundary) with (8 + zlen HTTPD_BOUNDARY). lia.
Qed.

Lemma multipart_body_ext h h' data l : content_type h' = content_type h -> filesize h' = filesize h ->
  multipart_body h' data l = multipart_body h data l.
Proof. intros E1 E2. unfold multipart_body, part, next_subheader, first_subheader. by rewrite E1, E2. Qed.

Lemma multipart_loop_ext h h' l : content_type h' = content_type h -> filesize h' = filesize h ->
  forall acc, multipart_loop h' l acc = multipart_loop h l acc.
Proof. intros E1 E2. induction l as [|r l IH]; intros acc; cbn; [done|]. rewrite E1, E2. by destruct (_ >? _). Qed.

Lemma range_toString_zlen r total : 0 <= total < 2 ^ 63 -> range_in total r -> zlen (range_toString r total) = range_toStringLength r total.
Proof.
  intros Ht (H1 & H2 & H3). unfold range_toString, range_toStringLength. rewrite !zlen_app.
  rewrite (wrap_small 64) by (unfold is_u; lia). rewrite !number2StringLength_spec by lia. lia.
Qed.

Lemma part_zlen h data r : zlen data = filesize h -> filesize h < 2 ^ 63 -> range_in (filesize h) r ->
  zlen (part h data r) = 12 + zlen HTTPD_BOUNDARY + zlen (str "Content-Type: ") + zlen (content_type h) +
    zlen (str "Content-Range: ") + range_toStringLength r (filesize h) + len r.
Proof.
  intros Hd Hs Hr. pose proof (zlen_nonneg data). pose proof Hr as (? & ? & ?).
  unfold part, next_subheader, first_subheader. rewrite !zlen_app, zlen_slice, range_toString_zlen by (done || lia).
  change (zlen (str "content-type: ")) with 14. change (zlen (str "Content-Type: ")) with 14.
  change (zlen (str "content-range: ")) with 15. change (zlen (str "Content-Range: ")) with 15.
  change (zlen (str "--")) with 2. change (zlen [13; 10]) with 2. change (zlen [13; 10; 13; 10]) with 4. lia.
Qed.

Lemma multipart_loop_spec h data l : zlen data = filesize h -> filesize h < 2 ^ 63 -> Forall (range_in (filesize h)) l ->
  forall n acc, multipart_loop h l acc = Some n ->
  n = u64 (acc + zlen (concat (map (part h data) l)) + (6 + zlen HTTPD_BOUNDARY)).
Proof.
  intros Hd Hs. induction 1 as [|r l Hr _ IH]; intros n acc; cbn [multipart_loop map concat].
  - intros [= <-]. rewrite zlen_nil. f_equal. lia.
  - destruct (_ >? _); [done|]. intros ->%IH. rewrite <- (part_zlen h data r), zlen_app by done.
    unfold wrap. rewrite <- (Z.add_mod_idemp_l (_ + _) (6 + _)), (Z.add_mod_idemp_l (acc + _)), Z.add_mod_idemp_l by lia.
    f_equal. lia.
Qed.

Section Properties.
Context `{FileSystem} (sv : Service).

Lemma resp_length_header h k v : header_ok (rp_header (response h)) ->
  header_find (rp_header (response (resp_code 206 (resp_set k v h)))) k = Some v.
Proof.
  intros Hh. unfold resp_code, resp_set. fields. rewrite header_find_set by done.
  by rewrite (proj2 (cmp_eq StrCmpI k k)) by done.
Qed.

(** C28: several ranges of a file. When the service answers a request with 206 and more
    than one range, the Content-Length it announces is the number of bytes (in 64 bits) of
    the multipart body that the connections send: the boundaries, the fields and the bytes
    of every range. *)
Theorem multipart_content_length (filename data : bytes) (h h' : Handleable) :
  fs_file_size filename = zlen data -> 0 < zlen data < 2 ^ 63 -> header_ok (rp_header (response h)) ->
  set_ranges filename h = Val (false, h') -> 1 < zlen (ranges h') ->
  statusCode (response h') = 206 /\
  header_find (rp_header (response h')) (str "content-length") = Some (to_string (u64 (zlen (multipart_body h' data (ranges h'))))).
Proof.
  intros Hf Hd Hh. unfold set_ranges. cbv zeta.
  set (h1 := update ranges _ _).
  assert (ranges h1 = parse_ranges (header_get (rq_header (request h)) (str "Range") []) (zlen data) /\ filesize h1 = zlen data /\
    rp_header (response h1) = rp_header (response h)) as (Hr & Hs & Hh1) by (subst h1; fields; rewrite Hf; done).
  pose proof (parse_ranges_in (header_get (rq_header (request h)) (str "Range") []) (zlen data) Hd) as [Hin _].
  rewrite <- Hr in Hin. clearbody h1. rewrite <- Hh1 in Hh. destruct (ranges h1) as [|r [|r2 l]] eqn:El.
  - intros [= <-]. unfold resp_code, resp_set. fields. unfold zlen. cbn. lia.
  - destruct (_ >? _).
    + intros E. apply bind_Val_inv in E as (? & _ & E). discriminate.
    + intros [= <-]. unfold resp_code, resp_set. fields. rewrite El. unfold zlen. cbn. lia.
  - destruct (multipart_loop _ _ _) as [n|] eqn:Em; [|intros E; apply bind_Val_inv in E as (? & _ & E); discriminate].
    intros [= <-] _. split; [unfold resp_code; by fields|].
    rewrite resp_length_header by (unfold resp_set; fields; by apply header_set_ok). do 2 f_equal.
    rewrite (multipart_body_ext h1) by (unfold resp_code, resp_set; by fields).
    unfold resp_code, resp_set. fields. rewrite El.
    rewrite (multipart_loop_ext h1) in Em by by fields.
    apply (multipart_loop_spec _ data) in Em; [|by rewrite Hs|rewrite Hs; lia|by rewrite Hs].
    rewrite Em, multipart_body_zlen. f_equal; lia.
Qed.

Lemma set_content_type_keeps filename h : request (set_content_type filename h) = request h /\
  file (set_content_type filename h) = file h.
Proof.
  unfold set_content_type. destruct (path_extension filename); [done|]. destruct (content_type_find l); unfold resp_set; by fields.
Qed.

(** The date of a file can always be written. *)
Lemma file_date_total t : exists dt text, create t 0 FORMAT = Val dt /\ format dt TIME_GREENWICH_MEAN_PATTERN = Val text.
Proof.
  destruct (create t 0 FORMAT) as [dt|] eqn:E.
  2: { unfold create in E. change (swrap 32 (0 * 3600) =? 0 * 3600) with true in E. discriminate. }
  destruct (format_loop_ok (length TIME_GREENWICH_MEAN_PATTERN) dt TIME_GREENWICH_MEAN_PATTERN []) as [text Ht];
    [exact (create_date_ok _ _ _ E)|done|]. eauto.
Qed.

(** C39: mount points. The path of the file that is opened is the directory of the mount
    point, a slash and the rest of the decoded path of the request, whatever it contains:
    a rest such as "../../etc/passwd" leaves the directory, and the file is served with
    200. *)
Theorem mount_point_escapes (h : Handleable) (prefix dir rest data : bytes) (l : list (bytes * bytes)) :
  mount_points sv = (prefix, dir) :: l -> conn_type h = NONE -> rq_uri (request h) = prefix ++ rest ->
  header_ok (rp_header (response h)) -> header_find (rq_header (request h)) (str "Range") = None ->
  let filename := dir ++ str "/" ++ rest in
  fs_exists filename = true -> fs_is_regular_file filename = true -> fs_is_directory filename = false ->
  fs_open filename = Some data ->
  let '(h1, path) := match_mount_point sv h in
  path = filename /\ conn_type h1 = FILE_DOWNLOAD /\
  exists h2, handle_file path h1 = Val h2 /\ statusCode (response h2) = 200 /\ file h2 = Some (MkFile data 0) /\
    ranges h2 = [MkRange 0 (fs_file_size filename)].
Proof.
  intros Hm Hc Hu Hh Hr filename He Hreg Hdir Ho. unfold match_mount_point. rewrite Hc, Hm. cbn [List.find fst bool_decide].
  rewrite bool_decide_eq_true_2 by done.
  assert (startsWith (rq_uri (request h)) prefix = true) as ->.
  { unfold startsWith. rewrite Hu, zlen_app. pose proof (zlen_nonneg rest). rewrite (proj2 (Z.ltb_ge _ _)) by lia.
    rewrite ztake_app_le, ztake_ge by lia. by apply bool_decide_eq_true_2. }
  rewrite Hu, zdrop_app_ge, Z.sub_diag, zdrop_0 by lia. fold filename. split; [done|]. split; [by fields|].
  unfold handle_file. rewrite He, Hreg, Hdir. cbn [negb orb]. fields. rewrite Ho. cbn [fmap option_fmap option_map].
  set (h1 := update file _ _). destruct (set_content_type_keeps filename h1) as [Eq Ef].
  unfold set_ranges. fields. rewrite Eq.
  assert (header_get (rq_header (request h1)) (str "Range") [] = []) as -> by (unfold h1, header_get; fields; by rewrite Hr).
  assert (parse_ranges [] (fs_file_size filename) = []) as -> by reflexivity. rewrite bind_Val.
  destruct (file_date_total (u64 (fs_last_write_time filename * 1000 * 1000))) as (dt & text & -> & Ht).
  rewrite bind_Val, Ht, bind_Val. eexists. split; [reflexivity|]. unfold resp_set, resp_code. fields.
  split; [done|]. split; [|done]. rewrite Ef. unfold h1. by fields.
Qed.
End Properties.

(** A file system with one file of a thousand bytes. *)
Definition one_file (name data : bytes) : FileSystem := {|
  fs_exists := fun p => bool_decide (p = name); fs_is_regular_file := fun p => bool_decide (p = name);
  fs_is_directory := fun _ => false; fs_open := fun p => if bool_decide (p = name) then Some data else None;
  fs_file_size := fun _ => zlen data; fs_last_write_time := fun _ => 0 |}.
Definition example_data : bytes := repeat 7 (Z.to_nat 1000).
Definition ranged_handleable : Handleable :=
  (new_handleable 0) <| request ::= fun r => r <| rq_header ::= fun h => header_set h (str "Range") (str "bytes=0-9,500-509") |> |>.

Lemma multipart_content_length_witness : exists h',
  @set_ranges (one_file (str "f") example_data) (str "f") ranged_handleable = Val (false, h') /\ statusCode (response h') = 206 /\
  header_find (rp_header (response h')) (str "content-length") =
    Some (to_string (u64 (zlen (multipart_body h' example_data (ranges h'))))).
Proof.
  eexists. split; [vm_compute; reflexivity|].
  apply (@multipart_content_length (one_file (str "f") example_data) (str "f") example_data ranged_handleable);
    [reflexivity|vm_compute; split; congruence|done|vm_compute; reflexivity|vm_compute; reflexivity].
Defined.

Definition mounted : Service := MkService 30 (str "sese") [(str "/static/", str "/srv/www")] [] None [].
Definition escaping : Handleable :=
  (new_handleable 0) <| request ::= fun r => r <| rq_uri := str "/static/../../etc/passwd" |> |>.

Lemma mount_point_escapes_witness :
  let '(h1, path) := match_mount_point mounted escaping in
  path = str "/srv/www" ++ str "/" ++ str "../../etc/passwd" /\ conn_type h1 = FILE_DOWNLOAD /\
  exists h2, @handle_file (one_file (str "/srv/www/../../etc/passwd") example_data) path h1 = Val h2 /\
    statusCode (response h2) = 200 /\ file h2 = Some (MkFile example_data 0) /\ ranges h2 = [MkRange 0 1000].
Proof.
  apply (@mount_point_escapes (one_file (str "/srv/www/../../etc/passwd") example_data) mounted escaping
    (str "/static/") (str "/srv/www") (str "../../etc/passwd") example_data []); reflexivity || done.
Defined.

(** ** Servlets *)

(** The items of the query string. *)
Definition bracket (o c : byte) (k : bytes) : bytes := o :: k ++ [c].

Lemma bracket_spec o c k : zlen (bracket o c k) = zlen k + 2 /\ slice 1 (zlen (bracket o c k) - 2) (bracket o c k) = k /\
  (forall o', startsWith (bracket o c k) [o'] = (o =? o')) /\ (forall c', endsWith (bracket o c k) [c'] = (c =? c')).
Proof.
  assert (zlen (bracket o c k) = zlen k + 2) as Hz by (unfold bracket; rewrite zlen_cons, zlen_app, zlen_cons, zlen_nil; lia).
  pose proof (zlen_nonneg k). rewrite Hz. split; [done|]. split; [|split].
  - unfold slice, bracket. change (zdrop 1 (o :: k ++ [c])) with (k ++ [c]). rewrite ztake_app_le, ztake_ge by lia. done.
  - intros o'. unfold startsWith. rewrite Hz. change (zlen [o']) with 1. rewrite (proj2 (Z.ltb_ge _ _)) by lia.
    change (ztake 1 (bracket o c k)) with [o]. destruct (o =? o') eqn:E; zbool; [by subst; apply bool_decide_eq_true_2|].
    apply bool_decide_eq_false_2. congruence.
  - intros c'. unfold endsWith. rewrite Hz. change (zlen [c']) with 1. rewrite (proj2 (Z.ltb_ge _ _)) by lia.
    unfold bracket. change (o :: k ++ [c]) with ((o :: k) ++ [c]).
    rewrite zdrop_app_ge, zdrop_0 by (rewrite zlen_cons; lia).
    destruct (c =? c') eqn:E; zbool; [by subst; apply bool_decide_eq_true_2|]. apply bool_decide_eq_false_2. congruence.
Qed.

Lemma expect_arg s k : k <> [] -> expect_item s (bracket 123 125 k) = s <| expect_query_args ::= mset lexcmp k tt |>.
Proof.
  intros Hk. destruct (bracket_spec 123 125 k) as (_ & Hs & Hp & He). unfold expect_item. rewrite Hs.
  change (str "{") with [123]. change (str "}") with [125]. rewrite Hp, He. cbn. by destruct k.
Qed.

Lemma expect_header s k : k <> [] -> expect_item s (bracket 60 62 k) = s <| expect_headers ::= mset lexcmp k tt |>.
Proof.
  intros Hk. destruct (bracket_spec 60 62 k) as (_ & Hs & Hp & He). unfold expect_item. rewrite Hs.
  change (str "{") with [123]. change (str "}") with [125]. change (str "<") with [60]. change (str ">") with [62].
  rewrite !Hp, !He. cbn. by destruct k.
Qed.

Lemma forallb_mset (P : bytes -> bool) k (m : list (bytes * unit)) :
  forallb (fun e => P (fst e)) (mset lexcmp k tt m) = P k && forallb (fun e => P (fst e)) m.
Proof.
  induction m as [|[k' []] m IH]; [done|]. cbn [mset]. destruct (_ <? 0); [done|].
  destruct (_ =? 0) eqn:E; cbn [forallb fst].
  - apply Z.eqb_eq, lexcmp_eq in E as ->. by destruct (P k').
  - rewrite IH. destruct (P k), (P k'); done.
Qed.

(** The servlet after its items, as far as the tests of [invoke] go. *)
Definition requires (s : Servlet) (P Q : bytes -> bool) : bool :=
  forallb (fun e => P (fst e)) (expect_query_args s) && forallb (fun e => Q (fst e)) (expect_headers s).

Lemma expect_items args hs P Q : Forall (fun k => k <> []) (args ++ hs) -> forall s,
  let s' := fold_left expect_item (map (bracket 123 125) args ++ map (bracket 60 62) hs) s in
  forallb (fun e => P (fst e)) (expect_query_args s') = forallb P args && forallb (fun e => P (fst e)) (expect_query_args s) /\
  forallb (fun e => Q (fst e)) (expect_headers s') = forallb Q hs && forallb (fun e => Q (fst e)) (expect_headers s) /\
  expect_type s' = expect_type s /\ s_uri s' = s_uri s.
Proof.
  induction args as [|k args IH]; cbn [map app]; intros Hne s.
  - revert s. induction hs as [|k hs IH]; intros s; [done|]. inversion Hne as [|? ? Hk Hne']; subst. cbn [map fold_left].
    rewrite expect_header by done. destruct (IH Hne' (s <| expect_headers ::= mset lexcmp k tt |>)) as (-> & -> & -> & ->). fields.
    split; [done|]. split; [|done]. rewrite forallb_mset. cbn [forallb]. destruct (Q k); [done|apply andb_false_r].
  - inversion Hne as [|? ? Hk Hne']; subst. cbn [fold_left]. rewrite expect_arg by done.
    destruct (IH Hne' (s <| expect_query_args ::= mset lexcmp k tt |>)) as (-> & -> & -> & ->). fields.
    split; [|done]. rewrite forallb_mset. cbn [forallb]. destruct (P k); [done|apply andb_false_r].
Qed.

(** A servlet registered for a URL that requires query arguments and fields (as in
    [SESE_URL(..., "/path?{arg}&<field>")]) answers a request with its callback exactly when
    the method is the expected one and every field and every argument is there; otherwise
    the callback is not run, the request stays and the code is 500 without a callback, 403
    for another method and 400 for a missing part. *)
Theorem servlet_guard (expect : RequestType) (path : bytes) (args fields_ : list bytes) (cb : option Callback)
    (req : Request) (resp : Response) (addr : Z) :
  ~ In 63 path -> args ++ fields_ <> [] ->
  Forall (fun k => k <> [] /\ ~ In 38 k /\ ~ In 0 k) (args ++ fields_) ->
  let url := path ++ str "?" ++ join (str "&") (map (bracket 123 125) args ++ map (bracket 60 62) fields_) in
  let s := (new_servlet expect url) <| callback := cb |> in
  s_uri s = path /\
  invoke s req resp addr =
  match cb with
  | None => (req, resp <| statusCode := 500 |>)
  | Some f =>
      if negb (bool_decide (rq_type req = expect)) then (req, resp <| statusCode := 403 |>)
      else if forallb (header_exist (rq_header req)) fields_ &&
              forallb (fun k => match mfind lexcmp k (query_args req) with Some _ => true | None => false end) args
      then f req resp addr
      else (req, resp <| statusCode := 400 |>)
  end.
Proof.
  intros Hp Hne Hk url s.
  set (items := map (bracket 123 125) args ++ map (bracket 60 62) fields_) in *.
  assert (Forall (fun i => ~ In 38 i /\ ~ In 0 i /\ i <> []) items) as Hi.
  { apply Forall_app in Hk as [H1 H2]. apply Forall_app. unfold bracket. split; apply Forall_map.
    1: eapply Forall_impl; [exact H1|]. 2: eapply Forall_impl; [exact H2|].
    all: intros k (_ & Ha & Hb); cbn; rewrite !in_app_iff; cbn; split_and!; [intuition lia|intuition lia|done]. }
  assert (items <> []) as Hin.
  { unfold items. destruct args; [|done]. destruct fields_; [|done]. done. }
  assert (new_servlet expect url = fold_left expect_item items (MkServlet path expect [] [] None)) as Hs.
  { unfold new_servlet, url. change (str "?") with [63]. change ([63] ++ ?l) with ([63] ++ l).
    rewrite (find_next 63 [] path) by done. rewrite take_app_length, drop_app_ge by lia.
    replace (length path + 1 - length path)%nat with 1%nat by lia. change (drop 1 ([63] ++ ?l)) with l.
    change (str "&") with [38]. rewrite split_view_join; [done|..].
    - eapply Forall_impl; [exact Hi|]. cbn. tauto.
    - destruct (exists_last Hin) as (l & i & ->). rewrite List.last_last. apply Forall_app in Hi as [_ Hi].
      inversion Hi; subst. tauto.
    - destruct (exists_last Hin) as (l & i & ->). rewrite List.last_last. apply Forall_app in Hi as [_ Hi].
      inversion Hi; subst. tauto. }
  assert (Forall (fun k => k <> []) (args ++ fields_)) as Hk' by (eapply Forall_impl; [exact Hk|]; cbn; tauto).
  set (Q := header_exist (rq_header req)). set (P := fun k => match mfind lexcmp k (query_args req) with Some _ => true | None => false end).
  destruct (expect_items args fields_ P Q Hk' (MkServlet path expect [] [] None)) as (HP & HQ & HT & HU).
  fold items in HP, HQ, HT, HU. rewrite <- Hs in HP, HQ, HT, HU.
  cbn [expect_query_args expect_headers expect_type s_uri forallb] in HP, HQ, HT, HU.
  rewrite andb_true_r in HP, HQ. split.
  { unfold s. by fields. }
  unfold invoke, s. fields. destruct cb as [f|]; [|done]. rewrite HT. destruct (negb _); [done|].
  unfold P, Q in *. rewrite HQ. destruct (forallb _ fields_); [|done]. cbn [negb andb]. rewrite HP. by destruct (forallb _ args).
Qed.

Lemma servlet_guard_witness :
  let s := (new_servlet GET (str "/hi?{id}&<token>")) <| callback := Some (fun req resp _ => (req, resp)) |> in
  s_uri s = str "/hi" /\ statusCode (snd (invoke s new_request new_response 0)) = 400 /\
  invoke s new_request new_response 0 = (new_request, new_response <| statusCode := 400 |>).
Proof.
  destruct (servlet_guard GET (str "/hi") [str "id"] [str "token"] (Some (fun req resp _ => (req, resp))) new_request new_response 0)
    as [H1 H2].
  - cbn. by intuition.
  - done.
  - apply Forall_cons_2; [cbn; intuition (discriminate || lia)|].
    apply Forall_singleton. cbn; intuition (discriminate || lia).
  - split; [exact H1|]. split; [reflexivity|exact H2].
Defined.
