(* ===== verification/HttpConnection.v ===== *)
(** * The HTTP/1 connection

    Models [sese/internal/service/http/HttpConnection.h], [HttpConnection.cpp] and
    [HttpConnectionImpl.cpp]: a connection reads a request in pieces, has the service
    handle it and writes the response in blocks. A handler runs to its end when the socket
    completes an operation, so it is a function from state to state; the one operation
    that is under way is part of the state ([pending]), and its completion is an event. *)

From S2P Require Import Prelude Streams Text Header ByteBuffer IOBuf Request HttpUtil HttpService.

(*@ sese/Config.h 148-148 MTU_VALUE *)
Definition MTU_VALUE : Z := 1472.

(** ** State *)

(** What the callback of a write goes on with. *)
Inductive WriteK := KHeader | KBody | KSingleRange | KSubheader | KRange | KEnd.

(** The operation under way: none, a read into a fresh [node], or a write of the bytes of
    [send_buffer] that are still to be sent. *)
Inductive Pending := Idle | ReadHeader | ReadBody | Write (block : bytes) (k : WriteK).

(*@ sese/internal/service/http/HttpConnection.h 30-90 HttpConnection *)
(** [base] is the inherited [Handleable]; the timer is a flag for its pending wait. *)
Record Conn := MkConn {
  base : Handleable; expect_length : Z; real_length : Z; is0x0a : bool; io_buffer : IOBuf.t;
  dynamic_buffer : ByteBuffer.t; pending : Pending; timer_wait : bool; disposed : bool }.
#[export] Instance Conn_eta : Eta Conn := fun c =>
  MkConn (base c) (expect_length c) (real_length c) (is0x0a c) (io_buffer c) (dynamic_buffer c) (pending c)
    (timer_wait c) (disposed c).

(*@ sese/internal/service/http/HttpConnection.cpp 18-24 HttpConnection::HttpConnection *)
Definition new_conn (addr : Z) : Conn :=
  MkConn (new_handleable addr) 0 0 false IOBuf.empty (new_builder 1024) Idle false false.

(*@ sese/internal/service/http/HttpConnection.cpp 270-274 HttpConnection::disponse *)
Definition disponse (c : Conn) : Conn := c <| disposed := true |>.

(*@ sese/internal/service/http/HttpConnectionImpl.cpp 27-28 HttpConnectionImpl::writeBlock *)
Definition writeBlock (data : bytes) (k : WriteK) (c : Conn) : Conn := c <| pending := Write data k |>.

(** ** Reading *)

(*@ sese/internal/service/http/HttpConnection.cpp 26-28 HttpConnection::readHeader *)
Definition readHeader (c : Conn) : Conn := c <| pending := ReadHeader |>.
(*@ sese/internal/service/http/HttpConnection.cpp 85-87 HttpConnection::readBody *)
Definition readBody (c : Conn) : Conn := c <| pending := ReadBody |>.

(*@ sese/internal/service/http/HttpConnection.cpp 42-51 HttpConnection::readHeader *)
(** Whether the end of a header was found, and [is0x0a] after the loop. *)
Fixpoint scan (is0x0a : bool) (data : bytes) : bool * bool :=
  match data with
  | [] => (false, is0x0a)
  | ch :: data => if is0x0a && (ch =? 13) then (true, false) else scan (ch =? 10) data
  end.

(*@ sese/internal/service/http/HttpConnection.cpp 93-96 HttpConnection::readBody *)
(** What the socket stored in the node, with its [size]. *)
Definition push_node (data : bytes) (io : IOBuf.t) : outcome IOBuf.t :=
  node ← IOBuf.filled MTU_VALUE data; Val (IOBuf.push io node).

(*@ sese/internal/service/http/HttpConnection.cpp 98-98 HttpConnection::readBody *)
(** [streamMove(&conn->request.getBody(), &conn->io_buffer, size)]. *)
Definition move_body (size : Z) (c : Conn) : outcome Conn :=
  '(_, body, io) ← streamMove (rq_body (request (base c))) (io_buffer c) size;
  Val (c <| base ::= fun h => h <| request ::= fun r => r <| rq_body := body |> |> |> <| io_buffer := io |>).

(** ** Writing *)

(*@ sese/internal/service/http/HttpConnection.cpp 276-293 HttpConnection::reset *)
Definition reset (c : Conn) : outcome Conn :=
  '(_, qb) ← ByteBuffer.freeCapacity (rq_body (request (base c)));
  '(_, pb) ← ByteBuffer.freeCapacity (rp_body (response (base c)));
  let clear h := MkHeader [] (match cookies h with Some _ => Some [] | None => None end) in
  Val (c <| base ::= fun h => h <| conn_type := NONE |> <| ranges := [] |>
              <| request ::= fun r => r <| rq_header ::= clear |> <| query_args := [] |> <| rq_body := qb |> |>
              <| response ::= fun r => r <| statusCode := 200 |> <| rp_header ::= clear |> <| rp_body := pb |> |> |>
         <| expect_length := 0 |> <| real_length := 0 |>).

(*@ sese/internal/service/http/HttpConnectionImpl.cpp 41-55 HttpConnectionImpl::checkKeepalive *)
Definition checkKeepalive (c : Conn) : outcome Conn :=
  if keepalive (base c) then c ← reset c; Val (readHeader (c <| timer_wait := true |>)) else Val (disponse c).

(*@ sese/internal/service/http/HttpConnection.cpp 123-123 HttpConnection::writeHeader *)
(** The number of bytes of the next block. *)
Definition block_length (c : Conn) : Z := Z.min (u64 (expect_length c - real_length c)) MTU_VALUE.

(*@ sese/internal/service/http/HttpConnection.cpp 122-126 HttpConnection::writeHeader *)
Definition writeHeader (c : Conn) : outcome Conn :=
  '(l, data, buf) ← ByteBuffer.read (dynamic_buffer c) (block_length c);
  Val (writeBlock data KHeader (c <| dynamic_buffer := buf |> <| real_length ::= fun n => u64 (n + l) |>)).

(*@ sese/internal/service/http/HttpConnection.cpp 160-164 HttpConnection::writeBody *)
Definition writeBody (c : Conn) : outcome Conn :=
  '(l, data, buf) ← ByteBuffer.read (rp_body (response (base c))) (block_length c);
  Val (writeBlock data KBody
    (c <| base ::= fun h => h <| response ::= fun r => r <| rp_body := buf |> |> |> <| real_length ::= fun n => u64 (n + l) |>)).

(*@ sese/internal/service/http/HttpConnection.cpp 257-260 HttpConnection::writeRanges *)
(** A block of the file; [file] is a null pointer before one is opened. *)
Definition write_file (k : WriteK) (c : Conn) : outcome Conn :=
  f ← of_option (file (base c));
  let '(data, f) := file_read f (block_length c) in
  Val (writeBlock data k (c <| base ::= fun h => h <| file := Some f |> |>
                            <| real_length := u64 (real_length c + block_length c) |>)).

(*@ sese/internal/service/http/HttpConnection.cpp 179-183 HttpConnection::writeSingleRange *)
Definition writeSingleRange (c : Conn) : outcome Conn := write_file KSingleRange c.

(** The range at the iterator. *)
Definition this_range (c : Conn) : outcome Range := of_option (ranges (base c) !! range_iterator (base c)).

(*@ sese/internal/service/http/HttpConnection.cpp 197-268 HttpConnection::writeRanges *)
(** The subheaders are shorter than the buffer, as the code asserts. *)
Definition writeRanges (c : Conn) : outcome Conn :=
  let subheader data k := if zlen data <=? MTU_VALUE then Val (writeBlock data k c) else Undef in
  if real_length c >=? expect_length c then
    if (range_iterator (base c) =? 0)%nat then r ← this_range c; subheader (first_subheader (base c) r) KSubheader
    else if (range_iterator (base c) =? length (ranges (base c)))%nat then subheader end_boundary KEnd
    else r ← this_range c; subheader (next_subheader (base c) r) KSubheader
  else write_file KRange c.

(*@ sese/internal/service/http/HttpConnection.cpp 211-214 HttpConnection::writeRanges *)
(** [setSeek] to the range at the iterator: [None] when it fails. *)
Definition seek_range (c : Conn) : outcome (option (Range * Conn)) :=
  r ← this_range c;
  f ← of_option (file (base c));
  let '(code, f) := file_seek f (swrap 64 (begin r)) in
  Val (if negb (code =? 0) then None else Some (r, c <| base ::= fun h => h <| file := Some f |> |>)).

(*@ sese/internal/service/http/HttpConnection.cpp 206-219 HttpConnection::writeRanges *)
Definition subheader_sent (c : Conn) : outcome Conn :=
  s ← seek_range c;
  match s with
  | None => Val (disponse c)
  | Some (r, c) =>
      c ← writeRanges (c <| expect_length := len r |> <| real_length := 0 |>);
      Val (c <| base ::= fun h => h <| range_iterator ::= S |> |>)
  end.

(*@ sese/internal/service/http/HttpConnection.cpp 126-157 HttpConnection::writeHeader *)
Definition header_sent (c : Conn) : outcome Conn :=
  if expect_length c >? real_length c then writeHeader c
  else
    '(_, buf) ← ByteBuffer.freeCapacity (dynamic_buffer c);
    let c := c <| dynamic_buffer := buf |> <| expect_length := 0 |> <| real_length := 0 |> in
    match ranges (base c) with
    | [] =>
        n ← ByteBuffer.getReadableSize (rp_body (response (base c)));
        let c := c <| expect_length := n |> in
        if negb (n =? 0) then writeBody c else checkKeepalive c
    | [_] =>
        r ← this_range c;
        s ← seek_range (c <| expect_length := len r |>);
        match s with None => Val (disponse (c <| expect_length := len r |>)) | Some (_, c) => writeSingleRange c end
    | _ => writeRanges c
    end.

(*@ sese/internal/service/http/HttpConnection.cpp 164-176 HttpConnection::writeBody *)
Definition body_sent (c : Conn) : outcome Conn :=
  if expect_length c >? real_length c then writeBody c else checkKeepalive c.

(*@ sese/internal/service/http/HttpConnection.cpp 183-194 HttpConnection::writeSingleRange *)
Definition range_sent (c : Conn) : outcome Conn :=
  if expect_length c >? real_length c then writeSingleRange c else checkKeepalive c.

(** The callbacks of the writes when there is no error. *)
Definition wrote (k : WriteK) (c : Conn) : outcome Conn :=
  match k with
  | KHeader => header_sent c
  | KBody => body_sent c
  | KSingleRange => range_sent c
  | KSubheader => subheader_sent c
  | KRange => writeRanges c
  | KEnd => checkKeepalive c
  end.

(** ** Requests *)

Section Service.
Context `{FileSystem} (sv : Service).

(*@ sese/internal/service/http/HttpConnection.cpp 112-120 HttpConnection::handleRequest *)
Definition handleRequest (c : Conn) : outcome Conn :=
  h ← HttpService.handleRequest sv (base c);
  '(_, buf) ← sendResponse (dynamic_buffer c) (response h);
  n ← ByteBuffer.getReadableSize buf;
  writeHeader (c <| base := h |> <| dynamic_buffer := buf |> <| real_length := 0 |> <| expect_length := n |>).

(*@ sese/internal/service/http/HttpConnection.cpp 66-82 HttpConnection::readHeader *)
Definition header_received (c : Conn) : outcome Conn :=
  let c := c <| base ::= handleFilter sv |> in
  let expect := u64 (toInteger (header_get (rq_header (request (base c))) (str "content-length") (str "0"))) in
  let real := IOBuf.getReadableSize (io_buffer c) in
  let c := c <| expect_length := expect |> <| real_length := real |> in
  c ← (if negb (real =? 0) && negb (bool_decide (conn_type (base c) = FILTER)) then move_body real c else Val c);
  let c := c <| io_buffer ::= IOBuf.clear |> in
  if negb (expect =? real) then Val (readBody c) else handleRequest c.

(*@ sese/internal/service/http/HttpConnection.cpp 28-83 HttpConnection::readHeader *)
(** The socket has stored [data] in the node. A line takes a byte at least, so the bytes of
    the buffer are fuel enough. *)
Definition header_read (data : bytes) (c : Conn) : outcome Conn :=
  let c := if keepalive (base c) then c <| base ::= fun h => h <| keepalive := false |> |> <| timer_wait := false |>
           else c in
  let '(recv_status, b) := scan (is0x0a c) data in
  io ← push_node data (io_buffer c);
  let c := c <| is0x0a := b |> <| io_buffer := io |> in
  if negb recv_status then Val (readHeader c)
  else
    '(parse_status, req, io) ← recvRequest (S (Z.to_nat (IOBuf.getTotalSize io))) io (request (base c));
    let c := c <| base ::= fun h => h <| request := req |> |> <| io_buffer := io |> in
    if negb parse_status then Val (disponse c) else header_received c.

(*@ sese/internal/service/http/HttpConnection.cpp 87-109 HttpConnection::readBody *)
Definition body_read (data : bytes) (c : Conn) : outcome Conn :=
  let size := zlen data in
  io ← push_node data (io_buffer c);
  let c := c <| real_length ::= fun n => u64 (n + size) |> <| io_buffer := io |> in
  c ← (if negb (bool_decide (conn_type (base c) = FILTER)) then move_body size c else Val c);
  if real_length c >=? expect_length c then handleRequest (c <| io_buffer ::= IOBuf.clear |>) else Val (readBody c).

(** ** Events *)

(** What the socket and the timer report. *)
Inductive event := EvRead (data : bytes) | EvReadError | EvWrote (n : Z) | EvWriteError | EvTimer.

(** The events that can happen. *)
Definition enabled (c : Conn) (e : event) : Prop :=
  match e with
  | EvRead data => (pending c = ReadHeader \/ pending c = ReadBody) /\ 0 < zlen data <= MTU_VALUE
  | EvReadError => pending c = ReadHeader \/ pending c = ReadBody
  | EvWrote n => exists block k, pending c = Write block k /\ 0 <= n <= zlen block
  | EvWriteError => exists block k, pending c = Write block k
  | EvTimer => timer_wait c = true
  end.

(*@ sese/internal/service/http/HttpConnectionImpl.cpp 27-55 HttpConnectionImpl *)
(** The callbacks run with no operation under way. A write that is not complete goes on
    with the rest of the block; the timer closes the connection, which leaves its
    read to an [EvReadError]. *)
Definition handle (c : Conn) (e : event) : outcome Conn :=
  match e, pending c with
  | EvRead data, ReadHeader => header_read data (c <| pending := Idle |>)
  | EvRead data, ReadBody => body_read data (c <| pending := Idle |>)
  | EvReadError, ReadHeader =>
      let c := c <| pending := Idle |> in
      Val (disponse (if keepalive (base c) then c <| base ::= fun h => h <| keepalive := false |> |> <| timer_wait := false |>
                     else c))
  | EvReadError, ReadBody => Val (disponse (c <| pending := Idle |>))
  | EvWrote n, Write block k =>
      if n =? zlen block then wrote k (c <| pending := Idle |>) else Val (writeBlock (zdrop n block) k c)
  | EvWriteError, Write _ _ => Val (disponse (c <| pending := Idle |>))
  | EvTimer, _ => Val (disponse (c <| timer_wait := false |>))
  | _, _ => Val c
  end.
End Service.
