(* ===== verification/Http1Delivery.v ===== *)
(** * Delivery of HTTP/1 responses

    What the connection of [HttpConnection.v] sends for a response: the text of its header,
    then the body, the range of the file or the multipart body, in blocks. *)

From S2P Require Import Prelude Streams Text OrdMap Header ByteBuffer IOBuf Request HttpUtil HttpMessages HttpService HttpConnection.

(** ** Blocks

    [sends c out c']: when every write of [c] is completed, [out] has been sent and the
    connection is in the state [c']. *)
Inductive sends : Conn -> bytes -> Conn -> Prop :=
| sends_end c : (forall block k, pending c <> Write block k) -> sends c [] c
| sends_block c block k c1 out c2 :
    pending c = Write block k -> wrote k (c <| pending := Idle |>) = Val c1 -> sends c1 out c2 -> sends c (block ++ out) c2.

(** A writer that sends in blocks: [holds c rest] says that [rest] is to be sent after the
    block under way. *)
Lemma blocks_sent (k : WriteK) (holds : Conn -> bytes -> Prop) :
  (forall c rest, holds c rest -> rest <> [] -> exists c', wrote k (c <| pending := Idle |>) =
     Val (writeBlock (ztake MTU_VALUE rest) k c') /\ holds c' (zdrop MTU_VALUE rest)) ->
  forall n c rest, (length rest <= n)%nat -> holds c rest ->
  exists c', holds c' [] /\
    forall block c1 out c2, wrote k (c' <| pending := Idle |>) = Val c1 -> sends c1 out c2 ->
    sends (writeBlock block k c) (block ++ rest ++ out) c2.
Proof.
  intros Hstep. induction n as [|n IH]; intros c rest Hn Hc.
  - destruct rest; [|cbn in Hn; lia]. exists c. split; [done|]. intros block c1 out c2 Hw Hs.
    by apply sends_block with k c1.
  - destruct (decide (rest = [])) as [->|Hne].
    + exists c. split; [done|]. intros block c1 out c2 Hw Hs. by apply sends_block with k c1.
    + destruct (Hstep c rest Hc Hne) as (c' & E & Hc'). destruct (IH c' (zdrop MTU_VALUE rest)) as (c0 & H0 & Hs); [|done|].
      { unfold zdrop. rewrite length_drop. unfold MTU_VALUE. destruct rest; [done|]. cbn in *. lia. }
      exists c0. split; [done|]. intros block c1 out c2 Hw Hs1.
      apply sends_block with k (writeBlock (ztake MTU_VALUE rest) k c'); [done|exact E|].
      rewrite <- (ztake_zdrop MTU_VALUE rest) at 2. rewrite <- app_assoc. by eapply Hs.
Qed.

(** The length of a block. *)
Lemma block_length_spec c (rest : bytes) : 0 <= real_length c -> expect_length c = real_length c + zlen rest -> expect_length c < 2 ^ 64 ->
  block_length c = zlen (ztake MTU_VALUE rest) /\ ztake (block_length c) rest = ztake MTU_VALUE rest /\
  zdrop (block_length c) rest = zdrop MTU_VALUE rest.
Proof.
  intros Hr He Hb. pose proof (zlen_nonneg rest). unfold block_length. rewrite wrap_small by (unfold is_u; lia).
  rewrite zlen_ztake_min by (unfold MTU_VALUE; lia). replace (expect_length c - real_length c) with (zlen rest) by lia.
  split; [lia|]. destruct (Z.min_spec (zlen rest) MTU_VALUE) as [[? ->]|[? ->]]; [|done].
  split; [rewrite !(ztake_ge _ rest) by lia|rewrite !(zdrop_ge _ rest) by lia]; done.
Qed.

(** What is counted of the bytes still to be sent. *)
Record counted (c : Conn) (rest : bytes) : Prop := {
  ct_real : 0 <= real_length c;
  ct_expect : expect_length c = real_length c + zlen rest;
  ct_bound : expect_length c < 2 ^ 64 }.

Lemma counted_more c rest : counted c rest -> rest <> [] -> (expect_length c >? real_length c) = true.
Proof. intros [] Hne. destruct rest; [done|]. rewrite zlen_cons in *. pose proof (zlen_nonneg rest). zbool. lia. Qed.

Lemma counted_done c : counted c [] -> (expect_length c >? real_length c) = false.
Proof. intros []. rewrite zlen_nil in *. zbool. lia. Qed.

(** ** The blocks of a header, a body and a range *)

Section Phases.
Variables (io : IOBuf.t) (is0x0a timer disposed : bool).

(** A connection that is writing. *)
Definition writing (h : Handleable) (expect real : Z) (buf : ByteBuffer.t) : Conn :=
  MkConn h expect real is0x0a io buf Idle timer disposed.

Definition filled_with (b : ByteBuffer.t) (data : bytes) : Prop := ByteBuffer.valid b /\ ByteBuffer.content b = data.

Lemma filled_read b data n : filled_with b data -> 0 <= n -> exists b',
  ByteBuffer.read b n = Val (Z.min n (zlen data), ztake n data, b') /\ filled_with b' (zdrop n data).
Proof.
  intros [Hv Hc] Hn. destruct (ByteBuffer.read_spec b n Hv Hn) as (b' & E & _ & V & C & _). rewrite Hc in *. exists b'. by split.
Qed.

(** One block of a header. *)
Lemma header_block h e r b rest : filled_with b rest -> counted (writing h e r b) rest ->
  exists b', writeHeader (writing h e r b) =
    Val (writeBlock (ztake MTU_VALUE rest) KHeader (writing h e (r + zlen (ztake MTU_VALUE rest)) b')) /\
    filled_with b' (zdrop MTU_VALUE rest) /\
    counted (writing h e (r + zlen (ztake MTU_VALUE rest)) b') (zdrop MTU_VALUE rest).
Proof.
  intros Hb [C1 C2 C3]. destruct (block_length_spec (writing h e r b) rest C1 C2 C3) as (B1 & B2 & B3).
  cbn [real_length expect_length writing] in *.
  pose proof (zlen_nonneg (ztake MTU_VALUE rest)). pose proof (f_equal zlen (ztake_zdrop MTU_VALUE rest)) as El. rewrite zlen_app in El.
  pose proof (zlen_nonneg (zdrop MTU_VALUE rest)).
  destruct (filled_read b rest (block_length (writing h e r b)) Hb ltac:(lia)) as (b' & E & Hb'). rewrite B2, B3, Z.min_l in * by lia.
  exists b'. unfold writeHeader. cbn [dynamic_buffer writing]. unfold writing in *. rewrite E, bind_Val, B1.
  upd. cbn. rewrite (wrap_small 64) by (unfold is_u; lia).
  split; [done|]. split; [done|]. split; cbn; lia.
Qed.

(** The state of a block: [writing] with some counters. *)
Definition in_header (h : Handleable) (c : Conn) (rest : bytes) : Prop :=
  exists e r b p, c = (writing h e r b) <| pending := p |> /\ filled_with b rest /\ counted (writing h e r b) rest.

Lemma header_sent_all h e r b rest : filled_with b rest -> counted (writing h e r b) rest ->
  exists e' b', filled_with b' [] /\ counted (writing h e' e' b') [] /\
    forall c1 out c2, header_sent (writing h e' e' b') = Val c1 -> sends c1 out c2 ->
    exists c0, writeHeader (writing h e r b) = Val c0 /\ sends c0 (rest ++ out) c2.
Proof.
  intros Hb Hc. destruct (header_block h e r b rest Hb Hc) as (b1 & E1 & Hb1 & Hc1).
  destruct (blocks_sent KHeader (in_header h)) with (n := length (zdrop MTU_VALUE rest))
    (c := writing h e (r + zlen (ztake MTU_VALUE rest)) b1) (rest := zdrop MTU_VALUE rest) as (c' & (e' & r' & b' & p & -> & Hb' & Hc') & Hs).
  - intros c l (e2 & r2 & b2 & p2 & -> & Hb2 & Hc2) Hne. destruct (header_block h e2 r2 b2 l Hb2 Hc2) as (b3 & E3 & Hb3 & Hc3).
    exists (writing h e2 (r2 + zlen (ztake MTU_VALUE l)) b3). split; [|by exists e2, (r2 + zlen (ztake MTU_VALUE l)), b3, Idle].
    change (_ <| pending := Idle |>) with (writing h e2 r2 b2). cbn [wrote]. unfold header_sent.
    by rewrite (counted_more _ _ Hc2 Hne).
  - done.
  - by exists e, (r + zlen (ztake MTU_VALUE rest)), b1, Idle.
  - assert (e' = r') as -> by (destruct Hc' as [_ Hx _]; cbn in Hx; change (zlen (@nil Z)) with 0 in Hx; lia).
    exists r', b'. split; [done|]. split; [done|]. intros c1 out c2 Hw Hs1. eexists. split; [exact E1|].
    assert (rest ++ out = ztake MTU_VALUE rest ++ zdrop MTU_VALUE rest ++ out) as -> by (by rewrite app_assoc, ztake_zdrop).
    by eapply Hs.
Qed.

(** One block of a body. *)
Definition with_body (h : Handleable) (b : ByteBuffer.t) : Handleable := h <| response ::= fun r => r <| rp_body := b |> |>.

Lemma body_block h e r d b rest : filled_with b rest -> counted (writing (with_body h b) e r d) rest ->
  exists b', writeBody (writing (with_body h b) e r d) =
    Val (writeBlock (ztake MTU_VALUE rest) KBody (writing (with_body h b') e (r + zlen (ztake MTU_VALUE rest)) d)) /\
    filled_with b' (zdrop MTU_VALUE rest) /\
    counted (writing (with_body h b') e (r + zlen (ztake MTU_VALUE rest)) d) (zdrop MTU_VALUE rest).
Proof.
  intros Hb [C1 C2 C3]. destruct (block_length_spec (writing (with_body h b) e r d) rest C1 C2 C3) as (B1 & B2 & B3).
  cbn [real_length expect_length writing] in *.
  pose proof (zlen_nonneg (ztake MTU_VALUE rest)). pose proof (f_equal zlen (ztake_zdrop MTU_VALUE rest)) as El. rewrite zlen_app in El.
  pose proof (zlen_nonneg (zdrop MTU_VALUE rest)).
  destruct (filled_read b rest (block_length (writing (with_body h b) e r d)) Hb ltac:(lia)) as (b' & E & Hb'). rewrite B2, B3, Z.min_l in * by lia.
  exists b'. unfold writeBody. unfold writing, with_body in *. upd. cbn [base response rp_body] in *. rewrite E, bind_Val, B1.
  cbn. rewrite (wrap_small 64) by (unfold is_u; lia).
  split; [done|]. split; [done|]. split; cbn; lia.
Qed.

Lemma body_sent_all h e r d b rest : filled_with b rest -> counted (writing (with_body h b) e r d) rest ->
  exists e' b', filled_with b' [] /\
    forall c1 out c2, checkKeepalive (writing (with_body h b') e' e' d) = Val c1 -> sends c1 out c2 ->
    exists c0, writeBody (writing (with_body h b) e r d) = Val c0 /\ sends c0 (rest ++ out) c2.
Proof.
  intros Hb Hc. destruct (body_block h e r d b rest Hb Hc) as (b1 & E1 & Hb1 & Hc1).
  destruct (blocks_sent KBody (fun c l => exists e r b p, c = (writing (with_body h b) e r d) <| pending := p |> /\
      filled_with b l /\ counted (writing (with_body h b) e r d) l)) with (n := length (zdrop MTU_VALUE rest))
    (c := writing (with_body h b1) e (r + zlen (ztake MTU_VALUE rest)) d) (rest := zdrop MTU_VALUE rest)
    as (c' & (e' & r' & b' & p & -> & Hb' & Hc') & Hs).
  - intros c l (e2 & r2 & b2 & p2 & -> & Hb2 & Hc2) Hne. destruct (body_block h e2 r2 d b2 l Hb2 Hc2) as (b3 & E3 & Hb3 & Hc3).
    exists (writing (with_body h b3) e2 (r2 + zlen (ztake MTU_VALUE l)) d).
    split; [|by exists e2, (r2 + zlen (ztake MTU_VALUE l)), b3, Idle].
    change (_ <| pending := Idle |>) with (writing (with_body h b2) e2 r2 d). cbn [wrote]. unfold body_sent.
    by rewrite (counted_more _ _ Hc2 Hne).
  - done.
  - by exists e, (r + zlen (ztake MTU_VALUE rest)), b1, Idle.
  - assert (e' = r') as -> by (destruct Hc' as [_ Hx _]; cbn in Hx; change (zlen (@nil Z)) with 0 in Hx; lia).
    exists r', b'. split; [done|]. intros c1 out c2 Hw Hs1. eexists. split; [exact E1|].
    assert (rest ++ out = ztake MTU_VALUE rest ++ zdrop MTU_VALUE rest ++ out) as -> by (by rewrite app_assoc, ztake_zdrop).
    eapply Hs; [|done].
    change (_ <| pending := Idle |>) with (writing (with_body h b') r' r' d). cbn [wrote]. unfold body_sent. by rewrite (counted_done _ Hc').
Qed.

(** One block of the file. *)
Definition at_file (h : Handleable) (data : bytes) (pos : Z) (i : nat) : Handleable :=
  h <| file := Some (MkFile data pos) |> <| range_iterator := i |>.
Definition unread (data : bytes) (pos : Z) (rest : bytes) : Prop :=
  0 <= pos /\ pos + zlen rest <= zlen data /\ rest = slice pos (zlen rest) data.

Lemma file_block k h data pos i e r d rest : unread data pos rest -> counted (writing (at_file h data pos i) e r d) rest ->
  let n := zlen (ztake MTU_VALUE rest) in
  write_file k (writing (at_file h data pos i) e r d) =
    Val (writeBlock (ztake MTU_VALUE rest) k (writing (at_file h data (pos + n) i) e (r + n) d)) /\
  unread data (pos + n) (zdrop MTU_VALUE rest) /\
  counted (writing (at_file h data (pos + n) i) e (r + n) d) (zdrop MTU_VALUE rest).
Proof.
  intros (U1 & U2 & U3) [C1 C2 C3] n. destruct (block_length_spec (writing (at_file h data pos i) e r d) rest C1 C2 C3) as (B1 & B2 & B3).
  cbn [real_length expect_length writing] in *. fold n in B1.
  pose proof (zlen_nonneg (ztake MTU_VALUE rest)). pose proof (f_equal zlen (ztake_zdrop MTU_VALUE rest)) as El. rewrite zlen_app in El.
  pose proof (zlen_nonneg (zdrop MTU_VALUE rest)). fold n in H, El.
  assert (slice pos n data = ztake MTU_VALUE rest) as Es.
  { rewrite <- B2, B1, U3. unfold slice, ztake. rewrite take_take. f_equal. lia. }
  split; [|split].
  - unfold write_file. change (file (base (writing (at_file h data pos i) e r d))) with (Some (MkFile data pos)).
    cbn [of_option]. rewrite bind_Val. unfold file_read. cbn [f_pos f_data]. rewrite B1, Es.
    change (real_length (writing (at_file h data pos i) e r d)) with r. rewrite (wrap_small 64) by (unfold is_u; lia).
    by rewrite (Z.add_comm pos n).
  - split; [lia|]. split; [lia|]. rewrite <- B3 at 1. rewrite B1. rewrite U3 at 1.
    set (m := zlen (zdrop MTU_VALUE rest)) in *. set (l := zlen rest) in *. clearbody m l n.
    unfold slice, ztake, zdrop. rewrite skipn_firstn_comm, drop_drop. f_equal; [lia|f_equal; lia].
  - split; cbn; lia.
Qed.

(** All the blocks of a range, after the first one. *)
Definition in_file (h : Handleable) (data : bytes) (i : nat) (d : ByteBuffer.t) (c : Conn) (rest : bytes) : Prop :=
  exists pos e r p, c = (writing (at_file h data pos i) e r d) <| pending := p |> /\ unread data pos rest /\
    counted (writing (at_file h data pos i) e r d) rest.

Lemma file_blocks k h data pos i e r d rest : k = KSingleRange \/ k = KRange ->
  unread data pos rest -> counted (writing (at_file h data pos i) e r d) rest ->
  exists pos' e', forall block c1 out c2, wrote k (writing (at_file h data pos' i) e' e' d) = Val c1 -> sends c1 out c2 ->
    sends (writeBlock block k (writing (at_file h data pos i) e r d)) (block ++ rest ++ out) c2.
Proof.
  intros Hk Hu Hc. destruct (blocks_sent k (in_file h data i d)) with (n := length rest)
    (c := writing (at_file h data pos i) e r d) (rest := rest) as (c' & (pos' & e' & r' & p & -> & Hu' & Hc') & Hs).
  - intros c l (pos2 & e2 & r2 & p2 & -> & Hu2 & Hc2) Hne. destruct (file_block k h data pos2 i e2 r2 d l Hu2 Hc2) as (E3 & Hu3 & Hc3).
    exists (writing (at_file h data (pos2 + zlen (ztake MTU_VALUE l)) i) e2 (r2 + zlen (ztake MTU_VALUE l)) d).
    split; [|by eexists _, _, _, Idle].
    change (_ <| pending := Idle |>) with (writing (at_file h data pos2 i) e2 r2 d).
    pose proof (counted_more _ _ Hc2 Hne) as Hm.
    destruct Hk as [-> | ->]; cbn [wrote]; [unfold range_sent, writeSingleRange; by rewrite Hm|].
    unfold writeRanges. rewrite Z.geb_leb, Z.leb_antisym. rewrite Z.gtb_ltb in Hm. by rewrite Hm.
  - done.
  - by exists pos, e, r, Idle.
  - assert (e' = r') as -> by (destruct Hc' as [_ Hx _]; cbn in Hx; change (zlen (@nil Z)) with 0 in Hx; lia).
    exists pos', r'. exact Hs.
Qed.

Lemma slice_unread data b l : 0 <= b -> 0 <= l -> b + l <= zlen data -> unread data b (slice b l data).
Proof. intros. unfold unread. rewrite zlen_slice by lia. done. Qed.

Definition fits (data : bytes) (r : Range) : Prop := 0 <= begin r /\ 0 <= len r /\ begin r + len r <= zlen data.

Lemma seek_spec h data pos i e r0 d r : ranges h !! i = Some r -> fits data r -> zlen data < 2 ^ 63 ->
  seek_range (writing (at_file h data pos i) e r0 d) = Val (Some (r, writing (at_file h data (begin r) i) e r0 d)).
Proof.
  intros Hr (? & ? & ?) Hd. unfold seek_range, this_range.
  change (ranges (base (writing (at_file h data pos i) e r0 d))) with (ranges h).
  change (range_iterator (base (writing (at_file h data pos i) e r0 d))) with i.
  change (file (base (writing (at_file h data pos i) e r0 d))) with (Some (MkFile data pos)).
  rewrite Hr. cbn [of_option]. rewrite !bind_Val. unfold file_seek. unfold swrap. change (2 ^ (64 - 1)) with (2 ^ 63).
  rewrite Z.mod_small by lia. replace (begin r + 2 ^ 63 - 2 ^ 63) with (begin r) by lia.
  rewrite (proj2 (Z.ltb_ge _ _)) by lia. reflexivity.
Qed.

(** The range after its subheader. *)
Lemma subheader_sent_all h data pos i e r0 d r : ranges h !! i = Some r -> fits data r -> 0 < len r -> zlen data < 2 ^ 63 ->
  exists pos' e', forall c1 out c2, writeRanges (writing (at_file h data pos' (S i)) e' e' d) = Val c1 -> sends c1 out c2 ->
    exists c0, subheader_sent (writing (at_file h data pos i) e r0 d) = Val c0 /\ sends c0 (slice (begin r) (len r) data ++ out) c2.
Proof.
  intros Hr Hf Hp Hd. pose proof Hf as (F1 & F2 & F3). set (rest := slice (begin r) (len r) data).
  assert (zlen rest = len r) as Hz by (apply zlen_slice; lia).
  assert (counted (writing (at_file h data (begin r) i) (len r) 0 d) rest) as Hc by (split; cbn; lia).
  destruct (file_block KRange h data (begin r) i (len r) 0 d rest (slice_unread _ _ _ F1 F2 F3) Hc) as (E & Hu & Hc').
  set (n := zlen (ztake MTU_VALUE rest)) in *.
  destruct (file_blocks KRange h data (begin r + n) (S i) (len r) (0 + n) d (zdrop MTU_VALUE rest)) as (pos' & e' & Hs); [by right|done| |].
  { destruct Hc' as [C1 C2 C3]. split; [exact C1|exact C2|exact C3]. }
  exists pos', e'. intros c1 out c2 Hw Hs1. unfold subheader_sent. rewrite (seek_spec h data pos i e r0 d r) by done. rewrite bind_Val.
  change (_ <| real_length := 0 |>) with (writing (at_file h data (begin r) i) (len r) 0 d).
  assert (writeRanges (writing (at_file h data (begin r) i) (len r) 0 d) = write_file KRange (writing (at_file h data (begin r) i) (len r) 0 d)) as ->.
  { unfold writeRanges. cbn [real_length expect_length writing]. by rewrite Z.geb_leb, (proj2 (Z.leb_gt _ _)) by lia. }
  rewrite E, bind_Val. eexists. split; [reflexivity|].
  assert (rest ++ out = ztake MTU_VALUE rest ++ zdrop MTU_VALUE rest ++ out) as -> by (by rewrite app_assoc, ztake_zdrop).
  by eapply Hs.
Qed.

(** The end of a response. *)
Record clean (h : Handleable) : Prop := {
  cl_type : conn_type h = NONE;
  cl_ranges : ranges h = [];
  cl_request : headers (rq_header (request h)) = [] /\ query_args (request h) = [] /\ filled_with (rq_body (request h)) [];
  cl_response : headers (rp_header (response h)) = [] /\ sent_cookies (response h) = [] /\ filled_with (rp_body (response h)) [];
  cl_status : statusCode (response h) = 200 /\ rp_version (response h) = VERSION_1_1 }.

Lemma freeCapacity_filled b data : filled_with b data -> exists n b', ByteBuffer.freeCapacity b = Val (n, b') /\ filled_with b' [].
Proof. intros [Hv _]. destruct (ByteBuffer.freeCapacity_spec b Hv) as (n & b' & E & V & C & _). exists n, b'. by split. Qed.

Lemma keepalive_spec h e d qd pd : filled_with (rq_body (request h)) qd -> filled_with (rp_body (response h)) pd ->
  rp_version (response h) = VERSION_1_1 ->
  exists c1, checkKeepalive (writing h e e d) = Val c1 /\
    if keepalive h then
      pending c1 = ReadHeader /\ io_buffer c1 = io /\ HttpConnection.is0x0a c1 = is0x0a /\ dynamic_buffer c1 = d /\
      clean (base c1) /\ HttpConnection.disposed c1 = disposed /\ timer_wait c1 = true
    else pending c1 = Idle /\ HttpConnection.disposed c1 = true.
Proof.
  intros Hq Hp Hv. unfold checkKeepalive. change (keepalive (base (writing h e e d))) with (keepalive h).
  destruct (keepalive h); [|eexists; split; [reflexivity|done]].
  destruct (freeCapacity_filled _ _ Hq) as (n1 & qb & E1 & Hq'). destruct (freeCapacity_filled _ _ Hp) as (n2 & pb & E2 & Hp').
  unfold reset. change (base (writing h e e d)) with h. rewrite E1, bind_Val, E2, !bind_Val.
  eexists. split; [reflexivity|]. do 4 (split; [reflexivity|]). split; [|split; reflexivity].
  split; [reflexivity|reflexivity|split_and!; try reflexivity; apply Hq'| |split; [reflexivity|exact Hv]].
  split; [reflexivity|]. split; [|exact Hp'].
  change (default ([] : CookieMap) (match cookies (rp_header (response h)) with Some _ => Some ([] : CookieMap) | None => None end) = []).
  by destruct (cookies (rp_header (response h))).
Qed.

Lemma ranges_sent_all h data d : zlen data < 2 ^ 63 -> forall post pre pos e, ranges h = pre ++ post -> pre <> [] ->
  Forall (fun r => fits data r /\ 0 < len r /\ zlen (next_subheader h r) <= MTU_VALUE) post ->
  exists pos' e', forall c1 out c2, checkKeepalive (writing (at_file h data pos' (length (ranges h))) e' e' d) = Val c1 -> sends c1 out c2 ->
    exists c0, writeRanges (writing (at_file h data pos (length pre)) e e d) = Val c0 /\
      sends c0 (concat (map (part h data) post) ++ end_boundary ++ out) c2.
Proof.
  intros Hd. induction post as [|r post IH]; intros pre pos e Hr Hne Hf.
  - exists pos, e. intros c1 out c2 Hw Hs. rewrite app_nil_r in Hr. unfold writeRanges. cbn [real_length expect_length base writing].
    change (ranges (at_file h data pos (length pre))) with (ranges h). change (range_iterator (at_file h data pos (length pre))) with (length pre).
    rewrite Z.geb_leb, Z.leb_refl, Hr.
    rewrite (proj2 (Nat.eqb_neq _ _)) by (by destruct pre). rewrite Nat.eqb_refl.
    eexists. split; [reflexivity|]. cbn [map concat app]. eapply sends_block; [reflexivity| |exact Hs]. rewrite Hr in Hw. exact Hw.
  - inversion Hf as [|? ? (Hf1 & Hf2 & Hf3) Hf']; subst. 
    assert (ranges h !! length pre = Some r) as Hi by (by rewrite Hr, list_lookup_middle).
    destruct (subheader_sent_all h data pos (length pre) e e d r Hi Hf1 Hf2 Hd) as (pos1 & e1 & H1).
    destruct (IH (pre ++ [r]) pos1 e1) as (pos' & e' & H2); [by rewrite <- app_assoc|by destruct pre|done|].
    exists pos', e'. intros c1 out c2 Hw Hs. destruct (H2 c1 out c2 Hw Hs) as (c3 & E3 & Hs3).
    rewrite length_app, Nat.add_1_r in E3. destruct (H1 c3 _ c2 E3 Hs3) as (c4 & E4 & Hs4).
    unfold writeRanges. cbn [real_length expect_length base writing]. rewrite Z.geb_leb, Z.leb_refl.
    change (range_iterator (at_file h data pos (length pre))) with (length pre). change (ranges (at_file h data pos (length pre))) with (ranges h).
    rewrite (proj2 (Nat.eqb_neq _ _)) by (by destruct pre).
    rewrite (proj2 (Nat.eqb_neq _ _)) by (rewrite Hr, length_app; cbn; lia).
    unfold this_range. cbn [base writing]. change (ranges (at_file h data pos (length pre))) with (ranges h).
    change (range_iterator (at_file h data pos (length pre))) with (length pre). rewrite Hi. cbn [of_option]. rewrite bind_Val.
    change (next_subheader (at_file h data pos (length pre)) r) with (next_subheader h r).
    rewrite (proj2 (Z.leb_le _ _)) by done. eexists. split; [reflexivity|]. cbn [map concat]. unfold part at 1. rewrite <- !app_assoc.
    eapply sends_block; [reflexivity| |exact Hs4]. exact E4.
Qed.

(** What is sent after the header. *)
Inductive payload (h : Handleable) : bytes -> Prop :=
| payload_body : ranges h = [] -> payload h (ByteBuffer.content (rp_body (response h)))
| payload_range r data pos : ranges h = [r] -> range_iterator h = 0%nat -> file h = Some (MkFile data pos) ->
    fits data r -> zlen data < 2 ^ 63 -> payload h (slice (begin r) (len r) data)
| payload_ranges r1 r2 l data pos : ranges h = r1 :: r2 :: l -> range_iterator h = 0%nat -> file h = Some (MkFile data pos) ->
    Forall (fun r => fits data r /\ 0 < len r /\ zlen (next_subheader h r) <= MTU_VALUE) (r1 :: r2 :: l) -> zlen data < 2 ^ 63 ->
    payload h (multipart_body h data (r1 :: r2 :: l)).

(** A handled request, but for the file, the iterator and the rest of the body. *)
Definition spent (h hf : Handleable) : Prop :=
  request hf = request h /\ keepalive hf = keepalive h /\ rp_version (response hf) = rp_version (response h) /\
  exists pd, filled_with (rp_body (response hf)) pd.

Lemma payload_sent h p e b : payload h p -> filled_with b [] -> ByteBuffer.valid (rp_body (response h)) ->
  zlen (ByteBuffer.content (rp_body (response h))) < 2 ^ 64 ->
  exists hf ef b', spent h hf /\ filled_with b' [] /\
    forall c1 out c2, checkKeepalive (writing hf ef ef b') = Val c1 -> sends c1 out c2 ->
    exists c0, header_sent (writing h e e b) = Val c0 /\ sends c0 (p ++ out) c2.
Proof.
  intros Hp Hb Hv Hz. destruct (freeCapacity_filled b [] Hb) as (n & b' & Ef & Hb').
  unfold header_sent. rewrite Z.gtb_ltb. change (expect_length (writing h e e b)) with e. change (real_length (writing h e e b)) with e.
  rewrite Z.ltb_irrefl. change (dynamic_buffer (writing h e e b)) with b. rewrite Ef, bind_Val. cbv zeta.
  change (update real_length _ _) with (writing h 0 0 b'). change (base (writing h 0 0 b')) with h.
  pose proof (zlen_nonneg (ByteBuffer.content (rp_body (response h)))) as Hnn.
  destruct Hp as [Hr|r data pos Hr Hi Hf Hfit Hd|r1 r2 l data pos Hr Hi Hf Hfit Hd]; rewrite Hr.
  - rewrite ByteBuffer.getReadableSize_spec, bind_Val, wrap_small by (done || unfold is_u; lia). cbv zeta.
    set (data := ByteBuffer.content (rp_body (response h))) in *.
    change (_ <| expect_length := zlen data |>) with (writing h (zlen data) 0 b').
    destruct (decide (data = [])) as [E|Hne].
    + rewrite E. exists h, 0, b'. split; [split_and!; try done; by exists data|]. split; [done|]. intros c1 out c2 Hk Hs. by exists c1.
    + rewrite (proj2 (Z.eqb_neq _ _)) by (destruct data; [done|rewrite zlen_cons; pose proof (zlen_nonneg data); lia]). cbn [negb].
      assert (h = with_body h (rp_body (response h))) as Eh by (by destruct h as [? ? [] ? ? ? ? ? ? ?]).
      destruct (body_sent_all h (zlen data) 0 b' (rp_body (response h)) data) as (ef & bf & Hbf & Hs); [done| |].
      { split; cbn; lia. }
      exists (with_body h bf), ef, b'. split; [split_and!; try done; by exists []|]. split; [done|]. rewrite <- Eh in Hs. exact Hs.
  - assert (ranges h !! range_iterator h = Some r) as Hl by (by rewrite Hr, Hi).
    unfold this_range at 1. change (base (writing h 0 0 b')) with h. rewrite Hl. cbn [of_option]. rewrite bind_Val.
    assert (h = at_file h data pos 0) as Eh by (destruct h; cbn in Hi, Hf; by subst).
    pose proof Hfit as (F1 & F2 & F3).
    assert (seek_range (update expect_length (fun _ => len r) (writing h 0 0 b')) =
      Val (Some (r, writing (at_file h data (begin r) 0) (len r) 0 b'))) as ->.
    { rewrite Eh at 1. rewrite Hi in Hl. exact (seek_spec h data pos 0 (len r) 0 b' r Hl Hfit Hd). }
    rewrite bind_Val. set (rest := slice (begin r) (len r) data).
    assert (zlen rest = len r) as Hzr by (apply zlen_slice; lia).
    destruct (file_block KSingleRange h data (begin r) 0 (len r) 0 b' rest (slice_unread _ _ _ F1 F2 F3)) as (E & Hu & Hc); [split; cbn; lia|].
    destruct (file_blocks KSingleRange h data _ 0 (len r) _ b' (zdrop MTU_VALUE rest) (or_introl eq_refl) Hu Hc) as (pos' & e' & Hs).
    exists (at_file h data pos' 0), e', b'. split; [split_and!; try done; by exists (ByteBuffer.content (rp_body (response h)))|]. split; [done|].
    intros c1 out c2 Hk Hs1. eexists. split; [exact E|].
    assert (rest ++ out = ztake MTU_VALUE rest ++ zdrop MTU_VALUE rest ++ out) as -> by (by rewrite app_assoc, ztake_zdrop).
    eapply Hs; [|exact Hs1]. cbn [wrote]. unfold range_sent. rewrite Z.gtb_ltb.
    change (expect_length (writing (at_file h data pos' 0) e' e' b')) with e'. change (real_length (writing (at_file h data pos' 0) e' e' b')) with e'.
    by rewrite Z.ltb_irrefl.
  - assert (h = at_file h data pos 0) as Eh by (destruct h; cbn in Hi, Hf; by subst).
    inversion Hfit as [|? ? (Hf1 & Hf2 & Hf3) Hfit']; subst.
    destruct (subheader_sent_all h data pos 0 0 0 b' r1) as (pos1 & e1 & H1); [by rewrite Hr|done|done|done|].
    destruct (ranges_sent_all h data b' Hd (r2 :: l) [r1] pos1 e1 Hr ltac:(done) Hfit') as (pos' & e' & H2).
    exists (at_file h data pos' (length (ranges h))), e', b'.
    split; [split_and!; try done; by exists (ByteBuffer.content (rp_body (response h)))|]. split; [done|].
    intros c1 out c2 Hk Hs. destruct (H2 c1 out c2 Hk Hs) as (c3 & E3 & Hs3). destruct (H1 c3 _ c2 E3 Hs3) as (c4 & E4 & Hs4).
    unfold writeRanges. change (base (writing h 0 0 b')) with h. change (real_length (writing h 0 0 b')) with 0.
    change (expect_length (writing h 0 0 b')) with 0. cbv zeta. rewrite Z.geb_leb, Z.leb_refl, Hi. cbn [Nat.eqb].
    unfold this_range. change (base (writing h 0 0 b')) with h. rewrite Hr, Hi. cbn [lookup list_lookup of_option]. rewrite bind_Val.
    assert (zlen (first_subheader h r1) <= MTU_VALUE).
    { unfold next_subheader in Hf3. rewrite zlen_app in Hf3. pose proof (zlen_nonneg [13; 10]). lia. }
    rewrite (proj2 (Z.leb_le _ _)) by done. eexists. split; [reflexivity|]. rewrite multipart_body_first, <- !app_assoc.
    eapply sends_block; [reflexivity| |exact Hs4]. rewrite <- Eh in E4. exact E4.
Qed.

(** The whole response. *)
Lemma response_sent h p d qd : response_ok (response h) -> filled_with d [] -> payload h p ->
  filled_with (rq_body (request h)) qd -> ByteBuffer.valid (rp_body (response h)) ->
  zlen (ByteBuffer.content (rp_body (response h))) < 2 ^ 64 -> zlen (response_text (response h)) < 2 ^ 64 ->
  exists c2, (
    if keepalive h then
      pending c2 = ReadHeader /\ io_buffer c2 = io /\ HttpConnection.is0x0a c2 = is0x0a /\ filled_with (dynamic_buffer c2) [] /\
      clean (base c2) /\ HttpConnection.disposed c2 = disposed /\ timer_wait c2 = true
    else pending c2 = Idle /\ HttpConnection.disposed c2 = true) /\
  exists c0, ('(_, buf) ← sendResponse d (response h); n ← ByteBuffer.getReadableSize buf; writeHeader (writing h n 0 buf)) = Val c0 /\
    sends c0 (response_text (response h) ++ p) c2.
Proof.
  intros Hok [Hdv Hdc] Hp Hq Hv Hz Ht. destruct (sendResponse_spec (response h) d Hok) as (buf & -> & Hbv & Hbc); [exact Hdv|exact I|].
  change (ByteBuffer.content buf = ByteBuffer.content d ++ response_text (response h)) in Hbc. rewrite Hdc in Hbc. cbn [app] in Hbc.
  change (ByteBuffer.valid buf) in Hbv. pose proof (zlen_nonneg (response_text (response h))).
  rewrite bind_Val, ByteBuffer.getReadableSize_spec, bind_Val, Hbc, wrap_small by (done || unfold is_u; lia).
  destruct (header_sent_all h (zlen (response_text (response h))) 0 buf (response_text (response h))) as (e1 & b1 & Hb1 & _ & H1).
  { done. } { split; cbn [writing real_length expect_length]; lia. }
  destruct (payload_sent h p e1 b1 Hp Hb1 Hv Hz) as (hf & ef & b' & (S1 & S2 & S3 & pd & S4) & Hb' & H2).
  destruct (keepalive_spec hf ef b' qd pd) as (c2 & E2 & Hk); [by rewrite S1|done|by rewrite S3; apply (po_version _ Hok)|].
  exists c2. rewrite S2 in Hk. split.
  { destruct (keepalive h); [|exact Hk]. destruct Hk as (? & ? & ? & -> & ? & ? & ?). by split_and!. }
  assert (sends c2 [] c2) as Hend.
  { apply sends_end. intros block k E. destruct (keepalive h), Hk as [Hk _]; congruence. }
  destruct (H2 c2 [] c2 E2 Hend) as (c3 & E3 & Hs3). rewrite app_nil_r in Hs3. by apply (H1 c3).
Qed.
End Phases.

(** ** Parts of blocks

    The socket takes a block in parts: [ns] are the numbers of bytes that it takes, of
    which at least one, and no more than there are, if there are any. *)

Section Drain.
Context `{FileSystem} (sv : Service).

Fixpoint drain (ns : list Z) (c : Conn) : outcome (bytes * Conn) :=
  match ns, pending c with
  | n :: ns, Write block _ =>
      let n := Z.max (Z.min 1 (zlen block)) (Z.min n (zlen block)) in
      c ← handle sv c (EvWrote n);
      '(out, c) ← drain ns c;
      Val (ztake n block ++ out, c)
  | _, _ => Val ([], c)
  end.

Lemma drain_idle ns c : (forall block k, pending c <> Write block k) -> drain ns c = Val ([], c).
Proof. intros Hp. destruct ns; [done|]. cbn. destruct (pending c) as [| | |block k]; [done..|]. by destruct (Hp block k). Qed.

Lemma writeBlock_pending c block k : pending c = Write block k -> c = writeBlock block k c.
Proof. destruct c. cbn. intros ->. done. Qed.

Lemma drain_block N k c1 out c2 c : wrote k (c <| pending := Idle |>) = Val c1 ->
  (forall ns, (N <= length ns)%nat -> drain ns c1 = Val (out, c2)) ->
  forall m block ns, (length block <= m)%nat -> (S m + N <= length ns)%nat ->
  drain ns (writeBlock block k c) = Val (block ++ out, c2).
Proof.
  intros Hw Hd. induction m as [|m IH]; intros block [|n ns] Hm Hn; cbn [length] in Hn; try lia.
  - destruct block; [|cbn in Hm; lia]. cbn [drain pending writeBlock]. unfold handle, writeBlock. fields.
    change (zlen []) with 0. replace (Z.max (Z.min 1 0) (Z.min n 0)) with 0 by lia. cbv zeta. rewrite Z.eqb_refl.
    change (_ <| pending := Idle |>) with (c <| pending := Idle |>). rewrite Hw, bind_Val, Hd by lia. done.
  - cbn [drain]. unfold writeBlock at 1. fields. set (j := Z.max _ _). pose proof (zlen_nonneg block) as H0.
    unfold handle. unfold writeBlock at 1. fields. destruct (j =? zlen block) eqn:E; zbool.
    + change (_ <| pending := Idle |>) with (c <| pending := Idle |>). rewrite Hw, bind_Val, Hd by lia.
      rewrite bind_Val, ztake_ge by lia. done.
    + rewrite bind_Val. change (writeBlock (zdrop j block) k (writeBlock block k c)) with (writeBlock (zdrop j block) k c).
      assert (0 < j < zlen block) as Hj by lia.
      rewrite IH; [|unfold zdrop; rewrite length_drop; lia|lia].
      by rewrite bind_Val, app_assoc, ztake_zdrop.
Qed.

(** However the socket takes them, the blocks are sent. *)
Lemma sends_drain c out c2 : sends c out c2 -> exists N, forall ns, (N <= length ns)%nat -> drain ns c = Val (out, c2).
Proof.
  induction 1 as [c Hp|c block k c1 out c2 Hp Hw _ [N IH]].
  - exists 0%nat. intros ns _. by apply drain_idle.
  - exists (S (length block) + N)%nat. intros ns Hn. rewrite (writeBlock_pending c block k Hp).
    by apply (drain_block N k c1 out c2 c Hw IH (length block)).
Qed.
End Drain.
