(* ===== verification/Http1Exchange.v ===== *)
(** * An exchange over HTTP/1

    A request is received however the socket cuts it; the service handles it, its response
    is sent, and a connection that is kept is ready for the next request. *)

From S2P Require Import Prelude Streams Text OrdMap Header ByteBuffer IOBuf Request HttpUtil HttpMessages HttpService HttpConnection Http1Delivery.

(** ** The receive buffer *)

(** The buffer of a connection: empty, or a chain with a total. *)
Definition io_holds (io : IOBuf.t) (data : bytes) (total : Z) : Prop :=
  (io = IOBuf.empty /\ data = [] /\ total = 0) \/ (IOBuf.valid io /\ IOBuf.content io = data /\ IOBuf.total io = total).

Lemma push_node_spec io data total p : io_holds io data total -> zlen p <= MTU_VALUE -> total + zlen p < 2 ^ 64 ->
  exists io', push_node p io = Val io' /\ IOBuf.valid io' /\ IOBuf.content io' = data ++ p /\ IOBuf.total io' = total + zlen p.
Proof.
  intros Hio Hp Ht. pose proof (zlen_nonneg p). unfold push_node.
  destruct (IOBuf.filled_spec MTU_VALUE p Hp) as (n & -> & Hn & Hr & Hs & Hc); [unfold MTU_VALUE; lia|]. rewrite bind_Val.
  eexists. split; [reflexivity|]. destruct Hio as [(-> & -> & ->)|(Hv & <- & <-)].
  - destruct (IOBuf.push_empty n Hn Hr) as [V C]. split; [done|]. split; [by rewrite C|]. cbn. rewrite Hs.
    apply wrap_small. unfold is_u. lia.
  - destruct (IOBuf.push_valid io n Hv Hn Hr) as (V & C & T); [by rewrite Hs|]. by rewrite C, Hc, T, Hs.
Qed.

(** ** The end of a header *)

Lemma scan_app (x : bytes) : forall b y, scan b (x ++ y) =
  if fst (scan b x) then scan b x else scan (snd (scan b x)) y.
Proof. induction x as [|c x IH]; intros b y; [done|]. cbn [app scan]. destruct (b && (c =? 13)); [done|]. apply IH. Qed.

(** A part of what has no end of a header has none. *)
Lemma scan_prefix b (x y : bytes) : fst (scan b (x ++ y)) = false -> fst (scan b x) = false.
Proof. rewrite scan_app. destruct (fst (scan b x)) eqn:E; [by rewrite E|done]. Qed.

(** The text of a request up to its last line end, in which a line feed is followed by a
    carriage return nowhere. *)
Definition one_end (u : bytes) : Prop := scan false u = (false, true).

Lemma cut_before (u rest p q : bytes) : u ++ rest = p ++ q -> zlen p <= zlen u -> exists w, u = p ++ w /\ w ++ rest = q.
Proof.
  intros E Hl. exists (drop (length p) u). unfold zlen in Hl. split.
  - apply (f_equal (take (length p))) in E. rewrite take_app_le, take_app_length in E by lia. 
    transitivity (take (length p) u ++ drop (length p) u); [by rewrite take_drop|by rewrite E].
  - apply (f_equal (drop (length p))) in E. by rewrite drop_app_le, drop_app_length in E by lia.
Qed.

(** ** The stages of a request *)

Section Exchange.
Context `{FileSystem} (sv : Service).

(** Packets that the socket delivers. *)
Fixpoint feed (c : Conn) (packets : list bytes) : outcome Conn :=
  match packets with [] => Val c | p :: packets => c ← handle sv c (EvRead p); feed c packets end.

(** A connection that waits for a request. *)
Record ready (c : Conn) : Prop := {
  rd_pending : pending c = ReadHeader;
  rd_io : io_buffer c = IOBuf.empty;
  rd_lf : is0x0a c = false;
  rd_dyn : filled_with (dynamic_buffer c) [];
  rd_clean : clean (base c);
  rd_open : disposed c = false }.

Lemma ready_first addr : ready (readHeader (new_conn addr)).
Proof.
  destruct (ByteBuffer.create_valid 1024 1024) as [V1 C1]; [lia|lia|]. destruct (ByteBuffer.create_valid 8192 1024) as [V2 C2]; [lia|lia|].
  split; [done|done|done|by split| |done]. by split.
Qed.

(** The request in the connection. *)
Definition with_request (req : Request) (c : Conn) : Conn := c <| base ::= fun h => h <| request := req |> |>.

(** The connection when the first [k] bytes of the text are there: [done_] has no end. *)
Definition got_part (c0 c : Conn) (done_ : bytes) : Prop :=
  exists io b t k, c = c0 <| base ::= fun h => h <| keepalive := k |> |> <| io_buffer := io |> <| is0x0a := b |> <| timer_wait := t |> /\
    io_holds io done_ (zlen done_) /\ scan false done_ = (false, b).

(** The inherited part when the request [req] has been parsed. *)
Definition asked (h : Handleable) (req : Request) : Handleable := h <| keepalive := false |> <| request := req |>.

(** The connection when the header and the part [got] of a body of [want] bytes are there. *)
Definition got_body (c0 c : Conn) (req : Request) (want : Z) (got : bytes) : Prop :=
  exists io t b total, c = MkConn (asked (base c0) (req <| rq_body := b |>)) want (zlen got) false io
      (dynamic_buffer c0) ReadBody t (disposed c0) /\
    filled_with b got /\ io_holds io [] total /\ 0 <= total <= zlen got.

(** The connection when the request is there: the lengths do not matter any more. *)
Definition received (c0 : Conn) (req : Request) (b : ByteBuffer.t) (t : bool) (n m : Z) : Conn :=
  MkConn (asked (base c0) (req <| rq_body := b |>)) n m false IOBuf.empty
    (dynamic_buffer c0) Idle t (disposed c0).

Lemma header_part c0 c done_ p : ready c0 -> got_part c0 c done_ -> 0 < zlen p <= MTU_VALUE -> zlen done_ + zlen p < 2 ^ 64 ->
  fst (scan false (done_ ++ p)) = false ->
  exists c', handle sv c (EvRead p) = Val c' /\ got_part c0 c' (done_ ++ p).
Proof.
  intros Hr (io & b & t & k & -> & Hio & Hs) Hp Hz Hsc. unfold handle. fields. rewrite (rd_pending _ Hr). unfold header_read.
  destruct (push_node_spec io done_ (zlen done_) p Hio ltac:(lia) Hz) as (io' & E & V & C & T).
  rewrite scan_app, Hs in Hsc. cbn [fst snd] in Hsc. destruct (scan b p) as [f b'] eqn:Eb. cbn [fst] in Hsc. subst f.
  assert (scan false (done_ ++ p) = (false, b')) as Hs' by (by rewrite scan_app, Hs).
  destruct k; fields; rewrite Eb; fields; rewrite E, bind_Val; cbn [negb]; eexists; (split; [reflexivity|]).
  - exists io', b', false, false. split; [|split; [right; by rewrite zlen_app|done]].
    destruct c0; cbn in Hr |- *. pose proof (rd_pending _ Hr) as Hpe. cbn in Hpe. by subst.
  - exists io', b', t, false. split; [|split; [right; by rewrite zlen_app|done]].
    destruct c0; cbn in Hr |- *. pose proof (rd_pending _ Hr) as Hpe. cbn in Hpe. by subst.
Qed.

(** The body goes from the receive buffer to the request. *)
Lemma move_body_spec (c : Conn) got data total : filled_with (rq_body (request (base c))) got ->
  IOBuf.valid (io_buffer c) -> IOBuf.content (io_buffer c) = data -> IOBuf.total (io_buffer c) = total -> zlen data < 2 ^ 64 ->
  exists b io, move_body (zlen data) c = Val (c <| base ::= fun h => h <| request ::= fun r => r <| rq_body := b |> |> |> <| io_buffer := io |>) /\
    filled_with b (got ++ data) /\ IOBuf.valid io /\ IOBuf.content io = [] /\ IOBuf.total io = total.
Proof.
  intros [Hv Hc] Vi Ci Ti Hz. unfold move_body.
  destruct (streamMove_spec (rq_body (request (base c))) (io_buffer c) (zlen data)) as (b & io & E & Vb & Cb & Vi' & Ci').
  { exact Vi. } { exact Hv. }
  { change (src_content (io_buffer c)) with (IOBuf.content (io_buffer c)). rewrite Ci. pose proof (zlen_nonneg data). lia. }
  { done. } { exact I. }
  change (ByteBuffer.content b = ByteBuffer.content (rq_body (request (base c))) ++ ztake (zlen data) (IOBuf.content (io_buffer c))) in Cb.
  change (IOBuf.content io = zdrop (zlen data) (IOBuf.content (io_buffer c))) in Ci'. rewrite Ci in *.
  rewrite ztake_ge, Hc in Cb by lia. rewrite zdrop_ge in Ci' by lia.
  exists b, io. rewrite E, bind_Val. split; [done|]. split; [by split|]. split; [done|]. split; [done|].
  pose proof (streamMove_keeps (fun s => IOBuf.total s = total) (rq_body (request (base c))) (io_buffer c) (zlen data) _
    (fun s n x Hs Hx => eq_trans (IOBuf.read_total s n x Hx) Hs) Ti E) as Ht. exact Ht.
Qed.

Lemma no_filter h : Forall (fun f => startsWith (rq_uri (request h)) (fst f) = false) (filters sv) -> handleFilter sv h = h.
Proof.
  unfold handleFilter. induction (filters sv) as [|[u f] l IH]; intros Hf; [done|].
  inversion Hf as [|? ? H1 H2]; subst. cbn [handleFilter_loop]. cbn [fst] in H1. rewrite H1. by apply IH.
Qed.

Lemma fields_fewer l : (length l <= length (l ≫= field_line))%nat.
Proof.
  induction l as [|e l IH]; [done|]. rewrite bind_cons, length_app. unfold field_line at 1. rewrite !length_app.
  change (length CRLF) with 2%nat. cbn [length]. lia.
Qed.

Lemma request_fuel r : (length (headers (rq_header r)) + 4 <= length (request_text r))%nat.
Proof.
  unfold request_text. rewrite !length_app. pose proof (fields_fewer (headers (rq_header r))).
  change (length CRLF) with 2%nat. lia.
Qed.

Variables (rq : Request) (body u : bytes).
Hypothesis (Hok : request_ok rq) (Hlen : toInteger (header_get (rq_header rq) (str "content-length") (str "0")) = zlen body).
Hypothesis (Hend : request_text rq = u ++ CRLF) (Hone : one_end u).
Hypothesis (Hfil : Forall (fun f => startsWith (rq_uri rq) (fst f) = false) (filters sv)).
Hypothesis (Hsize : zlen (request_text rq) + zlen body < 2 ^ 64).

Lemma whole_scan b1 : scan false (request_text rq ++ b1) = (true, false).
Proof. rewrite Hend, <- app_assoc, scan_app, Hone. done. Qed.

(** The packet with the end of the header. *)
Lemma header_done c0 c done_ p b1 b2 : ready c0 -> got_part c0 c done_ -> fst (scan false done_) = false ->
  0 < zlen p <= MTU_VALUE -> done_ ++ p = request_text rq ++ b1 -> body = b1 ++ b2 ->
  let req := arrived rq (request (base c0)) in
  (b2 = [] /\ exists b t n m, filled_with b body /\ handle sv c (EvRead p) = handleRequest sv (received c0 req b t n m)) \/
  (b2 <> [] /\ exists c', handle sv c (EvRead p) = Val c' /\ got_body c0 c' req (zlen body) b1).
Proof.
  intros Hr (io & b & t & k & -> & Hio & Hs) Hsc Hp Hd Hb req.
  assert (zlen done_ + zlen p = zlen (request_text rq) + zlen b1) as Hz by (by rewrite <- !zlen_app, Hd).
  assert (zlen body = zlen b1 + zlen b2) as Hzb by (by rewrite Hb, zlen_app).
  pose proof (zlen_nonneg b1). pose proof (zlen_nonneg b2). pose proof (zlen_nonneg (request_text rq)).
  destruct (push_node_spec io done_ (zlen done_) p Hio ltac:(lia) ltac:(lia)) as (io1 & E1 & V1 & C1 & T1).
  assert (scan b p = (true, false)) as Esc.
  { pose proof (whole_scan b1) as W. rewrite <- Hd, scan_app, Hs in W. exact W. }
  destruct (rd_clean _ Hr) as [K1 K2 (K3 & K4 & K5) _ _].
  destruct (recvRequest_spec rq (request (base c0)) io1 b1 (S (Z.to_nat (IOBuf.getTotalSize io1))) Hok K4 K3) as (io2 & E2 & V2 & C2).
  { exact V1. } { change (byte_content io1) with (IOBuf.content io1). by rewrite C1. }
  { unfold IOBuf.getTotalSize. rewrite T1, Hz. pose proof (request_fuel rq). unfold zlen in *. lia. }
  change (IOBuf.valid io2) in V2. change (IOBuf.content io2 = b1) in C2. fold req in E2.
  set (h1 := asked (base c0) req). set (c1 := MkConn h1 (expect_length c0) (real_length c0) false io2
    (dynamic_buffer c0) Idle (if k then false else t) (disposed c0)).
  assert (handle sv (c0 <| base ::= fun h => h <| keepalive := k |> |> <| io_buffer := io |> <| is0x0a := b |> <| timer_wait := t |>) (EvRead p) =
    header_received sv c1) as ->.
  { unfold handle. fields. rewrite (rd_pending _ Hr). unfold header_read.
    destruct k; fields; rewrite Esc; fields; rewrite E1, bind_Val; cbn [negb]; fields; rewrite E2, bind_Val; cbn [negb]; reflexivity. }
  clear E1 E2 Esc. unfold header_received.
  change (update base (handleFilter sv) c1) with (MkConn (handleFilter sv h1)
    (expect_length c0) (real_length c0) false io2 (dynamic_buffer c0) Idle (if k then false else t) (disposed c0)).
  rewrite no_filter by exact Hfil. cbn [base io_buffer].
  change (header_get (rq_header (request h1)) (str "content-length") (str "0")) with (header_get (rq_header rq) (str "content-length") (str "0")).
  rewrite Hlen, IOBuf.readable_spec, C2, (wrap_small 64) by (done || unfold is_u; lia). cbv zeta.
  set (c2 := update real_length _ _).
  assert (exists c3, (if negb (zlen b1 =? 0) && negb (bool_decide (conn_type (base c2) = FILTER)) then move_body (zlen b1) c2 else Val c2) = Val c3 /\
    exists b3, filled_with b3 b1 /\ c3 <| io_buffer ::= IOBuf.clear |> =
      MkConn (asked (base c0) (req <| rq_body := b3 |>)) (zlen body) (zlen b1) false IOBuf.empty (dynamic_buffer c0) Idle
        (if k then false else t) (disposed c0)) as (c3 & -> & b3 & Hb3 & Hc3).
  { change (conn_type (base c2)) with (conn_type (base c0)). rewrite K1. destruct (zlen b1 =? 0) eqn:E0; zbool.
    - eexists. split; [reflexivity|]. exists (rq_body (request (base c0))). split; [|reflexivity].
      by destruct b1; [|rewrite zlen_cons in E0; pose proof (zlen_nonneg b1); lia].
    - cbn [negb andb]. rewrite bool_decide_eq_false_2 by done. cbn [negb].
      destruct (move_body_spec c2 [] b1 (IOBuf.total io2)) as (b3 & io3 & -> & Hb3 & _); [exact K5|exact V2|exact C2|done|lia|].
      eexists. split; [reflexivity|]. exists b3. split; [exact Hb3|reflexivity]. }
  rewrite bind_Val, Hc3. destruct (decide (b2 = [])) as [->|Hne].
  - left. split; [done|]. exists b3, (if k then false else t), (zlen body), (zlen b1). rewrite zlen_nil in Hzb.
    rewrite (proj2 (Z.eqb_eq _ _)) by lia. split; [by rewrite Hb, app_nil_r|reflexivity].
  - right. split; [done|]. rewrite (proj2 (Z.eqb_neq _ _)) by (destruct b2; [done|rewrite zlen_cons in Hzb; pose proof (zlen_nonneg b2); lia]).
    cbn [negb]. eexists. split; [reflexivity|]. exists IOBuf.empty, (if k then false else t), b3, 0.
    split; [reflexivity|]. split; [done|]. split; [by left|lia].
Qed.


(** A packet of the body. *)
Lemma body_step c0 c req got p b2 : ready c0 -> got_body c0 c req (zlen body) got -> 0 < zlen p <= MTU_VALUE -> body = got ++ p ++ b2 ->
  (b2 = [] /\ exists b t n m, filled_with b body /\ handle sv c (EvRead p) = handleRequest sv (received c0 req b t n m)) \/
  (b2 <> [] /\ exists c', handle sv c (EvRead p) = Val c' /\ got_body c0 c' req (zlen body) (got ++ p)).
Proof.
  intros Hr (io & t & b & total & -> & Hb & Hio & Ht) Hp Hbody.
  assert (zlen body = zlen got + (zlen p + zlen b2)) as Hz by (by rewrite Hbody, !zlen_app).
  pose proof (zlen_nonneg b2). pose proof (zlen_nonneg got). pose proof (zlen_nonneg (request_text rq)).
  unfold handle. cbn [pending]. unfold body_read.
  destruct (push_node_spec io [] total p Hio ltac:(lia) ltac:(lia)) as (io1 & E1 & V1 & C1 & T1). cbn [app] in C1.
  change (io_buffer (update pending _ _)) with io. rewrite E1, bind_Val. cbv zeta.
  set (c1 := update io_buffer _ _). change (conn_type (base c1)) with (conn_type (base c0)). rewrite (cl_type _ (rd_clean _ Hr)).
  rewrite bool_decide_eq_false_2 by done. cbn [negb].
  destruct (move_body_spec c1 got p (total + zlen p)) as (b3 & io3 & -> & Hb3 & V3 & C3 & T3); [exact Hb|exact V1|exact C1|exact T1|lia|].
  rewrite bind_Val. set (c2 := update io_buffer _ _).
  assert (real_length c2 = zlen (got ++ p)) as Hrl.
  { change (real_length c2) with (u64 (zlen got + zlen p)). rewrite zlen_app. apply wrap_small. unfold is_u. lia. }
  change (expect_length c2) with (zlen body).
  assert (c2 = MkConn (asked (base c0) (req <| rq_body := b3 |>)) (zlen body) (zlen (got ++ p)) false io3 (dynamic_buffer c0) Idle t (disposed c0)) as Ec.
  { rewrite <- Hrl. reflexivity. }
  rewrite Hrl, Z.geb_leb. destruct (decide (b2 = [])) as [->|Hne].
  - left. split; [done|]. exists b3, t, (zlen body), (zlen (got ++ p)). rewrite app_nil_r in Hbody. rewrite <- Hbody in *.
    rewrite Z.leb_refl. split; [done|]. rewrite Ec. reflexivity.
  - right. split; [done|]. assert (0 < zlen b2) by (destruct b2; [done|rewrite zlen_cons in *; pose proof (zlen_nonneg b2); lia]).
    rewrite (proj2 (Z.leb_gt _ _)) by (rewrite zlen_app; lia). eexists. split; [reflexivity|].
    exists io3, t, b3, (total + zlen p). rewrite Ec. split; [reflexivity|]. split; [done|]. split; [by right|rewrite zlen_app; lia].
Qed.

Lemma concat_nil_packets (packets : list bytes) : Forall (fun p => 0 < zlen p <= MTU_VALUE) packets -> concat packets = [] -> packets = [].
Proof. intros [|p l Hp _]; [done|]. cbn. destruct p; [change (zlen (@nil Z)) with 0 in Hp; lia|done]. Qed.

Lemma body_received packets : forall c0 c req got, ready c0 -> Forall (fun p => 0 < zlen p <= MTU_VALUE) packets ->
  got_body c0 c req (zlen body) got -> body = got ++ concat packets -> packets <> [] ->
  exists b t n m, filled_with b body /\ feed c packets = handleRequest sv (received c0 req b t n m).
Proof.
  induction packets as [|p packets IH]; intros c0 c req got Hr Hps Hg Hb Hne; [done|].
  apply Forall_cons in Hps as [Hp Hps']. cbn [concat feed] in *.
  destruct (body_step c0 c req got p (concat packets) Hr Hg Hp Hb) as [(E & b & t & n & m & Hf & ->)|(Hne' & c' & -> & Hg')].
  - apply concat_nil_packets in E as ->; [|done]. exists b, t, n, m. split; [done|]. cbn [feed]. by destruct (handleRequest _ _).
  - rewrite bind_Val. apply (IH c0 c' req (got ++ p) Hr Hps' Hg'); [by rewrite <- app_assoc|]. by intros ->.
Qed.

(** No packet ends between the last carriage return and its line feed. *)
Definition well_cut (done_ : bytes) (packets : list bytes) : Prop :=
  forall l k, packets = l ++ k -> zlen (done_ ++ concat l) <> zlen (request_text rq) - 1.

Lemma request_received packets : forall c0 c done_, ready c0 -> Forall (fun p => 0 < zlen p <= MTU_VALUE) packets ->
  got_part c0 c done_ -> fst (scan false done_) = false -> done_ ++ concat packets = request_text rq ++ body ->
  well_cut done_ packets -> (zlen done_ <= zlen u) ->
  exists b t n m, filled_with b body /\ feed c packets = handleRequest sv (received c0 (arrived rq (request (base c0))) b t n m).
Proof.
  induction packets as [|p packets IH]; intros c0 c done_ Hr Hps Hg Hsc Hd Hcut Hl.
  { exfalso. cbn in Hd. rewrite app_nil_r in Hd. subst done_. rewrite Hend, !zlen_app in Hl. change (zlen CRLF) with 2 in Hl.
    pose proof (zlen_nonneg body). lia. }
  apply Forall_cons in Hps as [Hp Hps']. cbn [concat feed] in *. rewrite app_assoc in Hd.
  assert (zlen (done_ ++ p) <> zlen u + 1) as Hc1.
  { specialize (Hcut [p] packets eq_refl). cbn [concat] in Hcut. rewrite app_nil_r, Hend, (zlen_app u) in Hcut. change (zlen CRLF) with 2 in Hcut. lia. }
  destruct (Z_le_gt_dec (zlen (done_ ++ p)) (zlen u)) as [Hle|Hgt].
  - rewrite Hend, <- (app_assoc u) in Hd. symmetry in Hd. destruct (cut_before _ _ _ _ Hd Hle) as (w & Ew & _).
    assert (fst (scan false (done_ ++ p)) = false) as Hsc' by (apply (scan_prefix false _ w); rewrite <- Ew, Hone; done).
    destruct (header_part c0 c done_ p Hr Hg Hp) as (c' & -> & Hg').
    { rewrite <- zlen_app. rewrite Hend, zlen_app in Hsize. change (zlen CRLF) with 2 in Hsize. pose proof (zlen_nonneg body). lia. }
    { done. }
    rewrite bind_Val. apply (IH c0 c' (done_ ++ p)); try done.
    + rewrite <- Hd. by rewrite Hend, <- app_assoc.
    + intros l k E. specialize (Hcut (p :: l) k ltac:(by rewrite E)). cbn [concat] in Hcut. by rewrite <- app_assoc.
  - assert (zlen (request_text rq) <= zlen (done_ ++ p)) as Hge.
    { rewrite Hend, zlen_app. change (zlen CRLF) with 2. lia. }
    destruct (cut_before (done_ ++ p) (concat packets) (request_text rq) body Hd Hge) as (b1 & E1 & E2). symmetry in E2.
    destruct (header_done c0 c done_ p b1 (concat packets) Hr Hg Hsc Hp E1 E2) as [(E & b & t & n & m & Hf & ->)|(Hne & c' & -> & Hg')].
    + apply concat_nil_packets in E as ->; [|done]. exists b, t, n, m. split; [done|]. cbn [feed]. by destruct (handleRequest _ _).
    + rewrite bind_Val. apply (body_received packets c0 c' _ b1); try done. by intros ->.
Qed.
End Exchange.

(** ** The exchange *)

(** A handled request whose response can be sent, with [p] after the header. *)
Record answer (h : Handleable) (p : bytes) : Prop := {
  an_response : response_ok (response h);
  an_payload : payload h p;
  an_request : ByteBuffer.valid (rq_body (request h));
  an_body : ByteBuffer.valid (rp_body (response h));
  an_sizes : zlen (ByteBuffer.content (rp_body (response h))) < 2 ^ 64 /\ zlen (response_text (response h)) < 2 ^ 64 }.

Section Answer.
Context `{FileSystem} (sv : Service).

(** C1: an exchange over HTTP/1. A connection that waits for a request is sent the text of
    one and its body, in packets cut anywhere but between the last two bytes of the header;
    then the service is asked with that request, all of its body in the body's buffer, and
    the response it makes is sent whole: its header, then the body, the range of a file or
    the multipart body, in whatever parts the socket takes them. A connection that is kept
    alive then waits for the next request, as at the start; otherwise it is closed. *)
Theorem http_exchange (c : Conn) (rq : Request) (body u : bytes) (packets : list bytes) :
  ready c ->
  request_ok rq -> toInteger (header_get (rq_header rq) (str "content-length") (str "0")) = zlen body ->
  request_text rq = u ++ CRLF -> one_end u ->
  Forall (fun f => startsWith (rq_uri rq) (fst f) = false) (filters sv) ->
  zlen (request_text rq) + zlen body < 2 ^ 64 ->
  Forall (fun p => 0 < zlen p <= MTU_VALUE) packets -> concat packets = request_text rq ++ body -> well_cut rq [] packets ->
  exists b, filled_with b body /\
    forall h p, HttpService.handleRequest sv (asked (base c) (arrived rq (request (base c)) <| rq_body := b |>)) = Val h -> answer h p ->
    exists c1 c2 N, feed sv c packets = Val c1 /\
      (forall ns, (N <= length ns)%nat -> drain sv ns c1 = Val (response_text (response h) ++ p, c2)) /\
      if keepalive h then ready c2 else disposed c2 = true.
Proof.
  intros Hr Hok Hlen Hend Hone Hfil Hsize Hps Hcat Hcut.
  destruct (request_received sv rq body u Hok Hlen Hend Hone Hfil Hsize packets c c [] Hr Hps) as (b & t & n & m & Hb & E); try done.
  { exists IOBuf.empty, false, (timer_wait c), (keepalive (base c)). split; [|split; [by left|done]].
    destruct Hr as [_ Hio Hlf _ _ _]. destruct c as [[] ? ? ? ? ? ? ? ?]. cbn in *. by subst. }
  { apply zlen_nonneg. }
  exists b. split; [done|]. intros h p Eh Ha. destruct (an_sizes _ _ Ha) as [Hz Ht].
  destruct (response_sent IOBuf.empty false t (disposed c) h p (dynamic_buffer c) (ByteBuffer.content (rq_body (request h))))
    as (c2 & Hfin & c1 & E1 & Hs); try apply Ha; try done.
  { by apply (rd_dyn _ Hr). }
  { split; [apply Ha|done]. }
  destruct (sends_drain sv c1 _ c2 Hs) as (N & Hdr). exists c1, c2, N. rewrite E. split; [|split; [exact Hdr|]].
  - unfold handleRequest. change (base (received c (arrived rq (request (base c))) b t n m)) with
      (asked (base c) (arrived rq (request (base c)) <| rq_body := b |>)). rewrite Eh, bind_Val. exact E1.
  - destruct (keepalive h); [|tauto]. destruct Hfin as (F1 & F2 & F3 & F4 & F5 & F6 & F7).
    split; try done. rewrite F6. apply (rd_open _ Hr).
Qed.
End Answer.

(** ** Examples *)

(** A file that is asked for in two ranges, on a connection that is kept; the request has a
    body of its own and arrives in three packets. *)
Definition ranged_request : Request :=
  MkRequest (MkHeader [(str "connection", str "keep-alive"); (str "content-length", str "4"); (str "Range", str "bytes=0-9,500-509")] None)
    GET (str "/static/f") VERSION_1_1 [] (new_builder 8192).
Definition ranged_text : bytes := request_text ranged_request.
Definition ranged_packets : list bytes := [ztake 30 ranged_text; zdrop 30 ranged_text ++ str "bo"; str "dy"].

Lemma ranged_request_ok : request_ok ranged_request.
Proof.
  split; [reflexivity|..].
  - split; [|split; [constructor|exact I]]. exists [str "static"; str "f"]. split; [reflexivity|].
    repeat apply List.Forall_cons; try apply List.Forall_nil;
      (split; [apply text_ok_bool; reflexivity|split; [discriminate|vm_compute; intuition discriminate]]).
  - split; [vm_compute; intuition discriminate|constructor].
  - vm_compute. discriminate.
  - repeat constructor; vm_compute; intuition discriminate.
  - repeat constructor.
  - exact I.
Qed.

Definition ranged_service : Service := MkService 30 (str "sese") [(str "/static/", str "/srv")] [] None [].
#[local] Instance ranged_files : FileSystem := one_file (str "/srv/f") example_data.

Lemma ranged_cut : well_cut ranged_request [] ranged_packets.
Proof.
  intros l k E. destruct l as [|p1 [|p2 [|p3 [|p4 l]]]]; 
    unfold ranged_packets in E; cbn [app] in E; try discriminate; injection E; intros; subst; vm_compute; discriminate.
Qed.

Definition first_conn : Conn := readHeader (new_conn 0).

(** The answer, with the request's body [b] in it. *)
Abbreviation ranged_answer b :=
  (HttpService.handleRequest ranged_service (asked (base first_conn) (arrived ranged_request (request (base first_conn)) <| rq_body := b |>))).

Lemma ranged_answer_ok b : ByteBuffer.valid b -> exists h p, ranged_answer b = Val h /\ answer h p /\
  statusCode (response h) = 206 /\ keepalive h = true /\ zlen p = 243.
Proof.
  intros Hb. eexists. eexists. split; [vm_compute; reflexivity|]. split; [|split; [reflexivity|split; [reflexivity|]]].
  - split.
    + split; [reflexivity|split; [vm_compute; discriminate|reflexivity]| | |].
      * repeat constructor; vm_compute; intuition discriminate.
      * repeat constructor.
      * repeat constructor.
    + eapply payload_ranges; [reflexivity|reflexivity|reflexivity| |reflexivity].
      repeat constructor; vm_compute; discriminate.
    + exact Hb.
    + apply (ByteBuffer.create_valid 8192 1024); lia.
    + split; vm_compute; reflexivity.
  - vm_compute. reflexivity.
Qed.

Lemma http_exchange_witness : exists b, filled_with b (str "body") /\ exists h p c1 c2 N,
  ranged_answer b = Val h /\ statusCode (response h) = 206 /\ zlen p = 243 /\
  feed ranged_service first_conn ranged_packets = Val c1 /\
  (forall ns, (N <= length ns)%nat -> drain ranged_service ns c1 = Val (response_text (response h) ++ p, c2)) /\ ready c2.
Proof.
  destruct (http_exchange ranged_service first_conn ranged_request (str "body") (ztake (zlen ranged_text - 2) ranged_text) ranged_packets)
    as (b & Hb & T).
  - apply ready_first.
  - exact ranged_request_ok.
  - vm_compute. reflexivity.
  - vm_compute. reflexivity.
  - vm_compute. reflexivity.
  - constructor.
  - vm_compute. reflexivity.
  - repeat apply List.Forall_cons; try apply List.Forall_nil; (split; vm_compute; [reflexivity|discriminate]).
  - vm_compute. reflexivity.
  - exact ranged_cut.
  - exists b. split; [exact Hb|]. destruct (ranged_answer_ok b (proj1 Hb)) as (h & p & E & Ha & Hs & Hk & Hz).
    destruct (T h p E Ha) as (c1 & c2 & N & T1 & T2 & T3). rewrite Hk in T3.
    exists h, p, c1, c2, N. split; [exact E|]. split; [exact Hs|]. split; [exact Hz|]. split; [exact T1|]. split; [exact T2|exact T3].
Defined.

(** A packet that ends with the last carriage return: the line feed becomes the first byte
    of the body. *)
Lemma http_cut_line_end : exists c1, feed ranged_service first_conn
    [ztake (zlen ranged_text - 1) ranged_text; zdrop (zlen ranged_text - 1) ranged_text ++ str "body"] = Val c1 /\
  ByteBuffer.content (rq_body (request (base c1))) = 10 :: str "body".
Proof. eexists. split; vm_compute; reflexivity. Qed.
