(* ===== verification/Http2Connection.v ===== *)
(** * The HTTP/2 connection

    Models [sese/internal/service/http/HttpConnectionEx.h], [HttpConnectionEx.cpp] and
    [HttpConnectionExImpl.cpp]: a connection as the state its handlers share. A handler
    runs to its end when the socket completes an operation, so it is a function from
    state to state; the operations it starts are queued in the state ([reads],
    [writes]) and the completions are the events of [step].
    Streams are shared objects: the map holds addresses in a [heap],
    because a handler can go on with a stream that it has just taken out of the map.

    The timer is a flag for its pending wait. *)

From stdpp Require Import gmap.
From S2P Require Import Prelude Streams Text Words Header ByteBuffer DynamicTable Http2Frame HPack Request HttpService.

(*@ sese/internal/service/http/HttpConnectionEx.h 84-84 HttpConnectionEx::MAX_FRAME_SIZE *)
Definition MAX_FRAME_SIZE : Z := 16384.
(*@ sese/internal/service/http/HttpConnectionEx.h 86-86 HttpConnectionEx::INIT_WINDOW_SIZE *)
Definition INIT_WINDOW_SIZE : Z := 65535.
(*@ sese/internal/service/http/HttpConnectionEx.h 88-88 HttpConnectionEx::HEADER_TABLE_SIZE *)
Definition HEADER_TABLE_SIZE : Z := 8192.
(*@ sese/internal/service/http/HttpConnectionEx.h 90-90 HttpConnectionEx::MAX_CONCURRENT_STREAMS *)
Definition MAX_CONCURRENT_STREAMS : Z := 16.

(** ** State *)

(*@ sese/internal/service/http/HttpConnectionEx.h 35-59 HttpStream *)
(** [base] is the inherited [Handleable]. *)
Record HttpStream := MkStream {
  base : Handleable; st_id : Z; st_endpoint_window_size : Z; st_window_size : Z; continue_type : Z;
  end_headers : bool; end_stream : bool; do_response : bool; expect_length : Z; real_length : Z;
  st_temp_buffer : ByteBuffer.t }.
#[export] Instance HttpStream_eta : Eta HttpStream := fun s =>
  MkStream (base s) (st_id s) (st_endpoint_window_size s) (st_window_size s) (continue_type s)
    (end_headers s) (end_stream s) (do_response s) (expect_length s) (real_length s) (st_temp_buffer s).

(*@ sese/internal/service/http/HttpConnectionEx.cpp 27-37 HttpStream::HttpStream *)
Definition new_stream (id write_window_size addr : Z) : HttpStream :=
  MkStream ((new_handleable addr) <| request ::= fun r => r <| rq_version := VERSION_2 |> |>
              <| response ::= fun r => r <| rp_version := VERSION_2 |> |>)
    id write_window_size 0 0 false false false 0 0 (new_builder 1024).

(** The continuation of a read: what its callback does. *)
Inductive ReadK := KMagic | KHeader | KPayload.
(** A read in progress, of [rd_len] more bytes at [temp_buffer + rd_off]. *)
Record PendingRead := MkRead { rd_off : Z; rd_len : Z; rd_k : ReadK }.

(** The callback of a write of [vector] goes on with [handleWrite], that of a last
    GOAWAY frame ends the connection. *)
Inductive WriteK := KBlocks | KOnce.
#[export] Instance WriteK_eq_dec : EqDecision WriteK.
Proof. solve_decision. Defined.

(*@ sese/internal/service/http/HttpConnectionEx.h 77-118 HttpConnectionEx *)
(** [streams] in the order of its keys, with addresses in [heap]. The frames in
    [vector] are those of the pending [KBlocks] write. *)
Record Conn := MkConn {
  is_read : bool; is_write : bool; expect_ack : bool; accept_stream_count : Z; latest_stream_ident : Z;
  frame : Http2FrameInfo; temp_buffer : bytes; header_table_size : Z; enable_push : Z;
  max_concurrent_stream : Z; endpoint_init_window_size : Z; endpoint_window_size : Z; window_size : Z;
  endpoint_max_frame_size : Z; max_frame_size : Z; max_header_list_size : Z;
  req_dynamic_table : DynamicTable.t; resp_dynamic_table : DynamicTable.t;
  heap : list HttpStream; streams : list (Z * nat); closed_streams : gset Z;
  pre_vector : list Http2Frame; conn_addr : Z;
  (* the environment *)
  reads : list PendingRead; writes : list (WriteK * bytes); timer_wait : bool;
  socket_open : bool; disposed : bool }.
#[export] Instance Conn_eta : Eta Conn := fun c =>
  MkConn (is_read c) (is_write c) (expect_ack c) (accept_stream_count c) (latest_stream_ident c)
    (frame c) (temp_buffer c) (header_table_size c) (enable_push c)
    (max_concurrent_stream c) (endpoint_init_window_size c) (endpoint_window_size c) (window_size c)
    (endpoint_max_frame_size c) (max_frame_size c) (max_header_list_size c)
    (req_dynamic_table c) (resp_dynamic_table c) (heap c) (streams c) (closed_streams c)
    (pre_vector c) (conn_addr c) (reads c) (writes c) (timer_wait c) (socket_open c) (disposed c).

(*@ sese/internal/service/http/HttpConnectionEx.cpp 46-54 HttpConnectionEx::HttpConnectionEx *)
Definition new_conn (addr : Z) : Conn :=
  MkConn false false false 0 0 (FrameInfo 0 0 0 0) (repeat 0 (Z.to_nat MAX_FRAME_SIZE)) 4096 0 0 65535 65535 65535
    16384 16384 0 (DynamicTable.create 4096) (DynamicTable.create 4096) [] [] ∅ [] addr [] [] false true false.

(** [std::map] with integer keys, as a sorted list. *)
Fixpoint zfind {V} (k : Z) (m : list (Z * V)) : option V :=
  match m with [] => None | (k', v) :: m => if k =? k' then Some v else zfind k m end.
Fixpoint zset {V} (k : Z) (v : V) (m : list (Z * V)) : list (Z * V) :=
  match m with
  | [] => [(k, v)]
  | (k', v') :: m' => if k <? k' then (k, v) :: m else if k =? k' then (k, v) :: m' else (k', v') :: zset k v m'
  end.
Definition zerase {V} (k : Z) (m : list (Z * V)) : list (Z * V) := filter (fun e => negb (fst e =? k) = true) m.

(** A stream through its address. *)
Definition get_stream (c : Conn) (a : nat) : outcome HttpStream := of_option (heap c !! a).
Definition upd_stream (a : nat) (f : HttpStream -> HttpStream) (c : Conn) : Conn := c <| heap ::= alter f a |>.

(** [streams[id] = std::make_shared<HttpStream>(...)]. *)
Definition add_stream (id : Z) (c : Conn) : nat * Conn :=
  (length (heap c),
   c <| streams ::= zset id (length (heap c)) |>
     <| heap ::= fun h => h ++ [new_stream id (endpoint_init_window_size c) (conn_addr c)] |>
     <| accept_stream_count ::= fun n => u32 (n + 1) |>).

(*@ sese/internal/service/http/HttpConnectionEx.cpp 56-59 HttpConnectionEx::close *)
Definition close (id : Z) (c : Conn) : Conn := c <| streams ::= zerase id |> <| closed_streams ::= union {[id]} |>.

(*@ sese/internal/service/http/HttpConnectionEx.cpp 61-66 HttpConnectionEx::disponse *)
Definition disponse (c : Conn) : Conn := c <| disposed := true |>.

(** ** Starting to read and to write *)

(*@ sese/internal/service/http/HttpConnectionExImpl.cpp 45-47 HttpConnectionExImpl::readBlock *)
Definition readBlock (off len : Z) (k : ReadK) (c : Conn) : Conn :=
  c <| is_read := true |> <| reads ::= fun l => l ++ [MkRead off len k] |>.

(*@ sese/internal/service/http/HttpConnectionExImpl.cpp 36-38 HttpConnectionExImpl::writeBlock *)
Definition writeBlock (data : bytes) (c : Conn) : Conn :=
  c <| is_write := true |> <| writes ::= fun l => l ++ [(KOnce, data)] |>.

(*@ sese/internal/service/http/HttpConnectionExImpl.cpp 28-30 HttpConnectionExImpl::writeBlocks *)
Definition writeBlocks (data : bytes) (c : Conn) : Conn :=
  c <| is_write := true |> <| writes ::= fun l => l ++ [(KBlocks, data)] |>.

(*@ sese/internal/service/http/HttpConnectionExImpl.cpp 62-71 HttpConnectionExImpl::checkKeepalive *)
Definition checkKeepalive (c : Conn) : Conn := c <| timer_wait := true |>.
(** [timer.cancel()]. *)
Definition timer_cancel (c : Conn) : Conn := c <| timer_wait := false |>.

(*@ sese/internal/service/http/HttpConnectionEx.cpp 83-85 HttpConnectionEx::readFrameHeader *)
Definition readFrameHeader (c : Conn) : Conn := readBlock 0 9 KHeader c.

(*@ sese/internal/service/http/HttpConnectionEx.cpp 68-69 HttpConnectionEx::readMagic *)
Definition readMagic (c : Conn) : Conn := readBlock 0 24 KMagic c.

Definition push_frame (f : Http2Frame) (c : Conn) : Conn := c <| pre_vector ::= fun l => l ++ [f] |>.

(** ** Frames of a response *)

(*@ sese/internal/service/http/HttpConnectionEx.cpp 39-44 HttpStream::prepareRange *)
(** The result of the seek is ignored. *)
Definition prepareRange (s : HttpStream) : outcome HttpStream :=
  f ← of_option (file (base s));
  r ← of_option (ranges (base s) !! range_iterator (base s));
  Val (s <| base ::= fun h => h <| file := Some (snd (file_seek f (swrap 64 (begin r)))) |>
                                <| range_iterator ::= S |> |>
         <| expect_length := len r |> <| real_length := 0 |>).

(** [stream->file->read(frame->getFrameContentBuffer() + off, l)]. *)
Definition read_file (s : HttpStream) (l : Z) (f : Http2Frame) (off : Z) : outcome (HttpStream * Http2Frame) :=
  fl ← of_option (file (base s));
  let '(data, fl) := file_read fl l in
  f ← write_content f off data;
  Val (s <| base ::= fun h => h <| file := Some fl |> |>, f).

(** An empty frame of the given size with the stream's identifier. *)
Definition stream_frame (c : Conn) (s : HttpStream) (type : Z) : Http2Frame :=
  (new_frame (max_frame_size c)) <| fr_info := FrameInfo 0 type 0 (st_id s) |>.
Definition set_length (l : Z) (f : Http2Frame) : Http2Frame := f <| fr_info ::= fun i => i <| fr_length := u32 l |> |>.
Definition add_flag (flag : Z) (b : bool) (f : Http2Frame) : Http2Frame :=
  if b then f <| fr_info ::= fun i => i <| fr_flags ::= Z.lor flag |> |> else f.

(*@ sese/internal/service/http/HttpConnectionEx.cpp 884-901 HttpConnectionEx::writeHeadersFrame *)
Definition writeHeadersFrame (c : Conn) (s : HttpStream) (verify_end_stream : bool) :
    outcome (bool * HttpStream * Http2Frame) :=
  let f := stream_frame c s FRAME_TYPE_HEADERS in
  '(len, data, tb) ← ByteBuffer.read (st_temp_buffer s) (max_frame_size c);
  f ← write_content f 0 data;
  let s := s <| st_temp_buffer := tb |> in
  let f := set_length len f in
  e ← ByteBuffer.eof tb;
  let f := add_flag FRAME_FLAG_END_HEADERS e f in
  e ← ByteBuffer.eof (rp_body (response (base s)));
  let result := verify_end_stream && e in
  f ← buildFrameHeader (add_flag FRAME_FLAG_END_STREAM result f);
  Val (result, s, f).

(** The smallest of the windows and the frame size. *)
Definition send_window (c : Conn) (s : HttpStream) : Z :=
  Z.min (Z.min (endpoint_window_size c) (st_endpoint_window_size s)) (max_frame_size c).

Definition window_empty (c : Conn) (s : HttpStream) : bool :=
  (endpoint_window_size c =? 0) || (st_endpoint_window_size s =? 0).

(** The functions that write a DATA frame return no frame when a window is too
    small. *)
Definition written : Type := bool * HttpStream * option Http2Frame.

(*@ sese/internal/service/http/HttpConnectionEx.cpp 903-923 HttpConnectionEx::writeDataFrame4Body *)
Definition writeDataFrame4Body (c : Conn) (s : HttpStream) : outcome written :=
  if window_empty c s then Val (false, s, None)
  else
    let f := stream_frame c s FRAME_TYPE_DATA in
    '(len, data, body) ← ByteBuffer.read (rp_body (response (base s))) (send_window c s);
    f ← write_content f 0 data;
    let s := s <| base ::= fun h => h <| response ::= fun r => r <| rp_body := body |> |> |> in
    e ← ByteBuffer.eof body;
    f ← buildFrameHeader (add_flag FRAME_FLAG_END_STREAM e (set_length len f));
    Val (e, s, Some f).

(** [std::min<size_t>(stream->expect_length - stream->real_length, remind)]. *)
Definition range_chunk (s : HttpStream) (remind : Z) : Z := Z.min (u64 (expect_length s - real_length s)) remind.

(*@ sese/internal/service/http/HttpConnectionEx.cpp 925-952 HttpConnectionEx::writeDataFrame4SingleRange *)
Definition writeDataFrame4SingleRange (c : Conn) (s : HttpStream) : outcome written :=
  if window_empty c s then Val (false, s, None)
  else
    s ← (if expect_length s =? 0 then prepareRange s else Val s);
    let f := stream_frame c s 0 in
    let l := range_chunk s (send_window c s) in
    let s := s <| real_length ::= fun n => u64 (n + l) |> in
    '(s, f) ← read_file s l f 0;
    let result := expect_length s <=? real_length s in
    f ← buildFrameHeader (add_flag FRAME_FLAG_END_STREAM result (set_length l f));
    Val (result, s, Some f).

(*@ sese/internal/service/http/HttpConnectionEx.cpp 1015-1026 HttpConnectionEx::writeSubheaderAndData *)
Definition writeSubheaderAndData (c : Conn) (s : HttpStream) (subheader : bytes) (remind : Z) :
    outcome (HttpStream * Http2Frame) :=
  f ← write_content (stream_frame c s FRAME_TYPE_DATA) 0 subheader;
  let l := range_chunk s remind in
  let s := s <| real_length ::= fun n => u64 (n + l) |> in
  '(s, f) ← read_file s l f (zlen subheader);
  f ← buildFrameHeader (set_length (zlen subheader + l) f);
  Val (s, f).

(*@ sese/internal/service/http/HttpConnectionEx.cpp 955-1013 HttpConnectionEx::writeDataFrame4Ranges *)
(** In the last branch the length of the frame stays zero. *)
Definition writeDataFrame4Ranges (c : Conn) (s : HttpStream) : outcome written :=
  if window_empty c s then Val (false, s, None)
  else
    let remind := send_window c s in
    let subheader_case (text : Range -> bytes) :=
      r ← of_option (ranges (base s) !! range_iterator (base s));
      let subheader := text r in
      if zlen subheader >? remind then Val (false, s, None)
      else
        s ← prepareRange s;
        '(s, f) ← writeSubheaderAndData c s subheader (remind - zlen subheader);
        Val (false, s, Some f) in
    if expect_length s <=? real_length s then
      if (range_iterator (base s) =? 0)%nat then subheader_case (first_subheader (base s))
      else if (range_iterator (base s) =? length (ranges (base s)))%nat then
        if zlen end_boundary >? remind then Val (false, s, None)
        else
          let f := add_flag FRAME_FLAG_END_STREAM true
                     (set_length (zlen end_boundary) (stream_frame c s FRAME_TYPE_DATA)) in
          f ← buildFrameHeader f;
          f ← write_content f 0 end_boundary;
          Val (true, s, Some f)
      else subheader_case (next_subheader (base s))
    else
      let l := range_chunk s remind in
      let s := s <| real_length ::= fun n => u64 (n + l) |> in
      '(s, f) ← read_file s l (stream_frame c s 0) 0;
      f ← buildFrameHeader f;
      Val (false, s, Some f).

(** ** The send queue *)

(** What a stream that responds does in one round of [handleWrite]: close it, or go on,
    with the frame to queue. A file without ranges leaves the iterator where it is and
    the loop never ends. *)
(*@ sese/internal/service/http/HttpConnectionEx.cpp 697-750 HttpConnectionEx::handleWrite *)
Definition stream_round (c : Conn) (s : HttpStream) : outcome written :=
  match conn_type (base s) with
  | FILE_DOWNLOAD =>
      e ← ByteBuffer.eof (st_temp_buffer s);
      if negb e then '(_, s, f) ← writeHeadersFrame c s false; Val (false, s, Some f)
      else
        match ranges (base s) with
        | [] => Undef
        | [_] => writeDataFrame4SingleRange c s
        | _ => writeDataFrame4Ranges c s
        end
  | _ =>
      e ← ByteBuffer.eof (st_temp_buffer s);
      if negb e then '(fin, s, f) ← writeHeadersFrame c s true; Val (fin, s, Some f)
      else
        e ← ByteBuffer.eof (rp_body (response (base s)));
        if negb e then writeDataFrame4Body c s else Val (true, s, None)
  end.

(*@ sese/internal/service/http/HttpConnectionEx.cpp 690-751 HttpConnectionEx::handleWrite *)
(** The loop over [streams]; only the current entry is erased. *)
Fixpoint write_streams (l : list (Z * nat)) (c : Conn) : outcome Conn :=
  match l with
  | [] => Val c
  | (_, a) :: l =>
      s ← get_stream c a;
      if negb (do_response s) then write_streams l c
      else
        '(fin, s, f) ← stream_round c s;
        let c := upd_stream a (fun _ => s) c in
        let c := match f with Some f => push_frame f c | None => c end in
        write_streams l (if fin : bool then close (st_id s) c else c)
  end.

(*@ sese/internal/service/http/HttpConnectionEx.cpp 753-769 HttpConnectionEx::handleWrite *)
(** [vector] is cleared while it may still be sent from: its frames are freed. *)
Definition flush (c : Conn) : outcome Conn :=
  match pre_vector c with
  | [] => Val c
  | _ =>
      if existsb (fun w => bool_decide (fst w = KBlocks)) (writes c) then Undef
      else
        buffers ← mapM wire_bytes (pre_vector c);
        Val (writeBlocks (concat buffers) (checkKeepalive (c <| pre_vector := [] |>)))
  end.

(*@ sese/internal/service/http/HttpConnectionEx.cpp 677-770 HttpConnectionEx::handleWrite *)
Definition handleWrite (c : Conn) : outcome Conn :=
  let c := if negb (is_read c) then readFrameHeader c else c in
  if is_write c then Val c
  else c ← write_streams (streams c) (timer_cancel c); flush c.

(** A frame of a known length, with its header built and then its payload. *)
Definition small_frame (type flags ident : Z) (payload : bytes) : outcome Http2Frame :=
  f ← buildFrameHeader ((new_frame (zlen payload)) <| fr_info := FrameInfo (u32 (zlen payload)) type flags ident |>);
  write_content f 0 payload.

(*@ sese/internal/service/http/HttpConnectionEx.cpp 772-800 HttpConnectionEx::writeGoawayFrame *)
(** The message is given room and never copied. *)
Definition writeGoawayFrame (latest_stream_id flags error_code : Z) (msg : bytes) (once : bool) (c : Conn) :
    outcome Conn :=
  f ← small_frame FRAME_TYPE_GOAWAY flags 0
        (be_bytes 4 latest_stream_id ++ be_bytes 4 error_code ++ repeat 0 (length msg));
  if once then w ← wire_bytes f; Val (writeBlock w c) else handleWrite (push_frame f c).

(*@ sese/internal/service/http/HttpConnectionEx.cpp 802-827 HttpConnectionEx::writeRstStreamFrame *)
Definition writeRstStreamFrame (stream_id flags error_code : Z) (once : bool) (c : Conn) : outcome Conn :=
  f ← small_frame FRAME_TYPE_RST_STREAM flags stream_id (be_bytes 4 error_code);
  if once then w ← wire_bytes f; Val (writeBlock w c) else handleWrite (push_frame f c).

(*@ sese/internal/service/http/HttpConnectionEx.cpp 832-837 HttpConnectionEx::writeSettingsFrame *)
Definition settings_values : list (Z * Z) :=
  [(SETTINGS_INITIAL_WINDOW_SIZE, INIT_WINDOW_SIZE); (SETTINGS_MAX_FRAME_SIZE, MAX_FRAME_SIZE);
   (SETTINGS_HEADER_TABLE_SIZE, HEADER_TABLE_SIZE); (SETTINGS_MAX_CONCURRENT_STREAMS, MAX_CONCURRENT_STREAMS)].
(*@ sese/internal/service/http/HttpConnectionEx.cpp 846-855 HttpConnectionEx::writeSettingsFrame *)
Definition settings_payload (values : list (Z * Z)) : bytes :=
  values ≫= (fun '(key, value) => be_bytes 2 key ++ be_bytes 4 value).
(*@ sese/internal/service/http/HttpConnectionEx.cpp 830-860 HttpConnectionEx::writeSettingsFrame *)
Definition writeSettingsFrame (c : Conn) : outcome Conn :=
  f ← small_frame FRAME_TYPE_SETTINGS 0 0 (settings_payload settings_values);
  handleWrite (push_frame f (c <| expect_ack := true |>)).

(*@ sese/internal/service/http/HttpConnectionEx.cpp 862-869 HttpConnectionEx::writeAckFrame *)
Definition writeAckFrame (c : Conn) : outcome Conn :=
  f ← small_frame FRAME_TYPE_SETTINGS SETTINGS_FLAGS_ACK 0 []; handleWrite (push_frame f c).

(*@ sese/internal/service/http/HttpConnectionEx.cpp 871-882 HttpConnectionEx::writeWindowUpdateFrame *)
Definition writeWindowUpdateFrame (stream_id flags window_size : Z) (c : Conn) : outcome Conn :=
  f ← small_frame FRAME_TYPE_WINDOW_UPDATE flags stream_id (be_bytes 4 window_size);
  handleWrite (push_frame f c).

Definition goaway (latest code : Z) : Conn -> outcome Conn := writeGoawayFrame latest 0 code [] false.

(** The first [n] bytes of [temp_buffer] at [off], and a word there. *)
Definition buffer_at (c : Conn) (off n : Z) : outcome bytes := memread (temp_buffer c) off n.
Definition word_at (c : Conn) (off : Z) : outcome Z :=
  l ← buffer_at c off 4; match l with [a; b; d; e] => Val (u32 (be32 a b d e)) | _ => Undef end.
Definition byte_at (c : Conn) (off : Z) : outcome Z :=
  l ← buffer_at c off 1; match l with [a] => Val a | _ => Undef end.

Definition fr_flag (c : Conn) (flag : Z) : bool := negb (Z.land (fr_flags (frame c)) flag =? 0).

(** ** Handlers of frames that belong to the connection *)

(*@ sese/util/Util.h 191-202 isAdditionOverflow *)
(** For [int32_t]. *)
Definition isAdditionOverflow (a b : Z) : bool :=
  ((0 <? b) && (2147483647 - b <? a)) || ((b <? 0) && (a <? -2147483648 - b)).

(*@ sese/internal/service/http/HttpConnectionEx.cpp 219-257 HttpConnectionEx::handleSettingsFrame *)
(** One setting: a code to return, or the new state. *)
Definition apply_setting (ident value : Z) (c : Conn) : outcome (Z + Conn) :=
  if ident =? SETTINGS_HEADER_TABLE_SIZE then
    t ← DynamicTable.resize (req_dynamic_table c) value;
    Val (inr (c <| req_dynamic_table := t |> <| header_table_size := value |>))
  else if ident =? SETTINGS_MAX_CONCURRENT_STREAMS then
    Val (inr (c <| max_concurrent_stream := if value =? 0 then 100 else value |>))
  else if ident =? SETTINGS_MAX_FRAME_SIZE then
    if (value >? 16777215) || (value <? 16384) then Val (inl GOAWAY_PROTOCOL_ERROR)
    else Val (inr (c <| endpoint_max_frame_size := value |> <| max_frame_size := Z.min value MAX_FRAME_SIZE |>))
  else if ident =? SETTINGS_ENABLE_PUSH then
    if value <=? 1 then Val (inr (c <| enable_push := value |>)) else Val (inl GOAWAY_PROTOCOL_ERROR)
  else if ident =? SETTINGS_MAX_HEADER_LIST_SIZE then
    t ← DynamicTable.resize (req_dynamic_table c) value;
    t' ← DynamicTable.resize (resp_dynamic_table c) value;
    Val (inr (c <| max_header_list_size := value |> <| req_dynamic_table := t |> <| resp_dynamic_table := t' |>))
  else if ident =? SETTINGS_INITIAL_WINDOW_SIZE then
    if negb (accept_stream_count c =? 0) then Val (inl GOAWAY_FLOW_CONTROL_ERROR)
    else if value >? 2147483647 then Val (inl GOAWAY_FLOW_CONTROL_ERROR)
    else Val (inr (c <| endpoint_init_window_size := value |>))
  else Val (inr c).

(*@ sese/internal/service/http/HttpConnectionEx.cpp 215-259 HttpConnectionEx::handleSettingsFrame *)
Fixpoint settings_loop (input : bytes) (c : Conn) : outcome (Z * Conn) :=
  match input with
  | k1 :: k0 :: v3 :: v2 :: v1 :: v0 :: input =>
      r ← apply_setting (k1 * 256 + k0) (u32 (be32 v3 v2 v1 v0)) c;
      match r with inl code => Val (code, c) | inr c => settings_loop input c end
  | _ => Val (0, c)
  end.

(*@ sese/internal/service/http/HttpConnectionEx.cpp 195-260 HttpConnectionEx::handleSettingsFrame *)
Definition handleSettingsFrame (c : Conn) : outcome (Z * Conn) :=
  if negb (fr_ident (frame c) =? 0) then Val (GOAWAY_PROTOCOL_ERROR, c)
  else if fr_flag c SETTINGS_FLAGS_ACK then
    if negb (fr_length (frame c) =? 0) then Val (GOAWAY_FRAME_SIZE_ERROR, c)
    else Val (255, c <| expect_ack := false |>)
  else if negb (fr_length (frame c) mod 6 =? 0) then Val (GOAWAY_FRAME_SIZE_ERROR, c)
  else input ← buffer_at c 0 (fr_length (frame c)); settings_loop input c.

(*@ sese/internal/service/http/HttpConnectionEx.cpp 262-296 HttpConnectionEx::handleWindowUpdate *)
Definition handleWindowUpdate (c : Conn) : outcome Conn :=
  let id := fr_ident (frame c) in
  if negb (fr_length (frame c) =? 4) then goaway id GOAWAY_FRAME_SIZE_ERROR c
  else
    i ← word_at c 0;
    if i =? 0 then goaway id GOAWAY_PROTOCOL_ERROR c
    else if id =? 0 then
      if isAdditionOverflow (swrap 32 (endpoint_init_window_size c)) (swrap 32 i) then
        goaway id GOAWAY_FLOW_CONTROL_ERROR c
      else Val (readFrameHeader (c <| endpoint_window_size ::= fun w => u32 (w + i) |>))
    else
      match zfind id (streams c) with
      | None => Val (readFrameHeader c)
      | Some a =>
          s ← get_stream c a;
          let c := upd_stream a (fun s => s <| continue_type := fr_type (frame c) |>) c in
          if isAdditionOverflow (swrap 32 (st_endpoint_window_size s)) (swrap 32 i) then
            writeRstStreamFrame id 0 GOAWAY_FLOW_CONTROL_ERROR false c
          else
            Val (readFrameHeader (upd_stream a (fun s => s <| st_endpoint_window_size ::= fun w => u32 (w + i) |>) c))
      end.

(*@ sese/internal/service/http/HttpConnectionEx.cpp 298-333 HttpConnectionEx::handleGoawayFrame *)
(** The last stream and the code are read and not used. *)
Definition handleGoawayFrame (c : Conn) : outcome Conn :=
  if negb (fr_ident (frame c) =? 0) then goaway 0 GOAWAY_PROTOCOL_ERROR c
  else
    let c := match zfind (fr_ident (frame c)) (streams c) with
             | Some a => upd_stream a (fun s => s <| continue_type := fr_type (frame c) |>) c
             | None => c
             end in
    let rest := u32 (fr_length (frame c) - 8) in
    if negb (rest =? 0) then
      msg ← buffer_at c 8 rest;
      if bool_decide (msg = str "shutdown") then Val c else Val (readFrameHeader c)
    else Val (readFrameHeader c).

(*@ sese/internal/service/http/HttpConnectionEx.cpp 637-668 HttpConnectionEx::handlePingFrame *)
Definition handlePingFrame (c : Conn) : outcome Conn :=
  let c := timer_cancel c in
  if negb (fr_ident (frame c) =? 0) then writeGoawayFrame 0 0 GOAWAY_PROTOCOL_ERROR [] true c
  else if negb (fr_length (frame c) =? 8) then goaway 0 GOAWAY_FRAME_SIZE_ERROR c
  else if fr_flag c SETTINGS_FLAGS_ACK then
    writeGoawayFrame 0 0 GOAWAY_PROTOCOL_ERROR (str "unexpected ping with ack") false c
  else
    data ← buffer_at c 0 8;
    f ← small_frame FRAME_TYPE_PING SETTINGS_FLAGS_ACK 0 data;
    handleWrite (push_frame f c).

(** ** Handlers of frames that belong to a stream *)

(** Streams are opened by the peer, with odd identifiers. *)
Definition bad_ident (c : Conn) : bool := (fr_ident (frame c) =? 0) || negb (fr_ident (frame c) mod 2 =? 1).
Definition is_closed (c : Conn) (id : Z) : bool := bool_decide (id ∈ closed_streams c).

(*@ sese/internal/service/http/HttpConnectionEx.cpp 563-593 HttpConnectionEx::handleRstStreamFrame *)
(** The copy goes from an uninitialised variable to the buffer, whose first bytes are
    then unknown; nothing reads them. *)
Definition handleRstStreamFrame (c : Conn) : outcome Conn :=
  let id := fr_ident (frame c) in
  if id =? 0 then goaway 0 GOAWAY_PROTOCOL_ERROR c
  else if negb (fr_length (frame c) =? 4) then goaway 0 GOAWAY_FRAME_SIZE_ERROR c
  else if is_closed c id then Val (readFrameHeader c)
  else
    match zfind id (streams c) with
    | None => goaway id GOAWAY_PROTOCOL_ERROR c
    | Some a =>
        s ← get_stream c a;
        let c := close (st_id s) c in
        m ← memcpy (temp_buffer c) 0 (repeat poison 4);
        Val (readFrameHeader (c <| temp_buffer := m |>))
    end.

(*@ sese/internal/service/http/HttpConnectionEx.cpp 596-635 HttpConnectionEx::handlePriorityFrame *)
Definition handlePriorityFrame (c : Conn) : outcome Conn :=
  let id := fr_ident (frame c) in
  if bad_ident c then goaway 0 GOAWAY_PROTOCOL_ERROR c
  else if negb (fr_length (frame c) =? 5) then goaway id GOAWAY_FRAME_SIZE_ERROR c
  else
    let '(a, c) := match zfind id (streams c) with Some a => (a, c) | None => add_stream id c end in
    let c := upd_stream a (fun s => s <| continue_type := fr_type (frame c) |>) c in
    dependency ← word_at c 0;
    if Z.land dependency 0x7fffffff =? id then goaway id GOAWAY_PROTOCOL_ERROR c
    else Val (readFrameHeader c).

(*@ sese/internal/service/http/HttpConnectionEx.cpp 358-387 HttpConnectionEx::handleHeadersFrame *)
(** The stream of a HEADERS or CONTINUATION frame, or the GOAWAY frame to send: last
    stream, message and whether it is the last one. *)
Definition headers_stream (c : Conn) : outcome ((Z * bytes * bool) + nat * Conn) :=
  let id := fr_ident (frame c) in
  match zfind id (streams c) with
  | None =>
      if fr_type (frame c) =? FRAME_TYPE_HEADERS then
        if id <? latest_stream_ident c then Val (inl (0, [], false))
        else if zlen (streams c) >? MAX_CONCURRENT_STREAMS then Val (inl (0, str "shutdown", true))
        else let '(a, c) := add_stream id c in Val (inr (a, c <| latest_stream_ident := id |>))
      else Val (inl (id, [], false))
  | Some a =>
      s ← get_stream c a;
      if (fr_type (frame c) =? FRAME_TYPE_HEADERS) && end_headers s then Val (inl (id, [], false))
      else Val (inr (a, c))
  end.

(*@ sese/internal/service/http/HttpConnectionEx.cpp 390-416 HttpConnectionEx::handleHeadersFrame *)
(** The fragment of the header block in the frame, [None] when it is refused. *)
Definition headers_fragment (c : Conn) : outcome (option bytes) :=
  padded ← (if fr_flag c FRAME_FLAG_PADDED then byte_at c 0 else Val 0);
  let offset := if fr_flag c FRAME_FLAG_PADDED then 1 else 0 in
  dep ← (if fr_flag c FRAME_FLAG_PRIORITY then d ← word_at c offset; Val (Some d) else Val None);
  let offset := if fr_flag c FRAME_FLAG_PRIORITY then offset + 5 else offset in
  if bool_decide (dep = Some (fr_ident (frame c))) then Val None
  else if padded >? fr_length (frame c) then Val None
  else
    data ← buffer_at c offset (u32 (fr_length (frame c) - padded - offset)); Val (Some data).

Section Handlers.
Context `{FileSystem} (sv : Service).

(*@ sese/internal/service/http/HttpConnectionEx.cpp 551-557 HttpConnectionEx::handleDataFrame *)
(** The request is handled and the header block of the response encoded
    ([HttpConnectionEx::handleRequest], lines 670 to 675, included). *)
Definition respond (a : nat) (c : Conn) : outcome Conn :=
  s ← get_stream c a;
  h ← handleRequest sv (base s);
  let h := h <| response ::= convert2Http2 |> in
  '(e, t) ← encode (resp_dynamic_table c) empty_header (rp_header (response h));
  '(_, tb) ← ByteBuffer.write (st_temp_buffer s) (fst e);
  handleWrite (upd_stream a (fun _ => s <| base := h |> <| do_response := true |> <| st_temp_buffer := tb |>)
    (c <| resp_dynamic_table := t |>)).

(*@ sese/internal/service/http/HttpConnectionEx.cpp 425-457 HttpConnectionEx::handleHeadersFrame *)
(** The header block is complete. *)
Definition handle_block (a : nat) (c : Conn) : outcome Conn :=
  s ← get_stream c a;
  n ← ByteBuffer.getReadableSize (st_temp_buffer s);
  '(rt, d) ← decode (st_temp_buffer s) n (req_dynamic_table c) (rq_header (request (base s))) false true
               (header_table_size c);
  '(_, tb) ← ByteBuffer.freeCapacity (src d);
  let request' := (request (base s)) <| rq_header := header d |> in
  let s := s <| st_temp_buffer := tb |> <| base ::= fun h => h <| request := request' |> |> in
  let c := upd_stream a (fun _ => s) (c <| req_dynamic_table := table d |>) in
  if negb (rt =? 0) then goaway (fr_ident (frame c)) rt c
  else
    let '(ok, request') := convertFromHttp2 request' in
    let s := s <| base ::= fun h => h <| request := request' |> |> in
    let c := upd_stream a (fun _ => s) c in
    if negb ok then goaway (fr_ident (frame c)) GOAWAY_PROTOCOL_ERROR c
    else
      let c := upd_stream a (fun s => s <| base ::= handleFilter sv |>) c in
      if end_stream s then respond a c else Val (readFrameHeader c).

(*@ sese/internal/service/http/HttpConnectionEx.cpp 335-461 HttpConnectionEx::handleHeadersFrame *)
Definition handleHeadersFrame (c : Conn) : outcome Conn :=
  let c := timer_cancel c in
  let id := fr_ident (frame c) in
  if bad_ident c then goaway 0 GOAWAY_PROTOCOL_ERROR c
  else if is_closed c id then goaway id GOAWAY_STREAM_CLOSED c
  else
    r ← headers_stream c;
    match r with
    | inl (latest, msg, once) => writeGoawayFrame latest 0 GOAWAY_PROTOCOL_ERROR msg once c
    | inr (a, c) =>
        let c := upd_stream a (fun s => s <| continue_type := fr_type (frame c) |>) c in
        fragment ← headers_fragment c;
        match fragment with
        | None => goaway id GOAWAY_PROTOCOL_ERROR c
        | Some data =>
            s ← get_stream c a;
            '(_, tb) ← ByteBuffer.write (st_temp_buffer s) data;
            let s := s <| st_temp_buffer := tb |>
                       <| end_headers ::= orb (fr_flag c FRAME_FLAG_END_HEADERS) |>
                       <| end_stream ::= orb (fr_flag c FRAME_FLAG_END_STREAM) |> in
            let c := upd_stream a (fun _ => s) c in
            if end_headers s then handle_block a c else Val (readFrameHeader c)
        end
    end.

(*@ sese/internal/service/http/HttpConnectionEx.cpp 517-531 HttpConnectionEx::handleDataFrame *)
(** The body of the request grows, unless a filter has answered; the flag says that the
    padding is accepted. *)
Definition data_payload (a : nat) (c : Conn) : outcome (bool * Conn) :=
  s ← get_stream c a;
  padded ← (if fr_flag c FRAME_FLAG_PADDED then byte_at c 0 else Val 0);
  let offset := if fr_flag c FRAME_FLAG_PADDED then 1 else 0 in
  if padded >? fr_length (frame c) then Val (false, c)
  else if bool_decide (conn_type (base s) = FILTER) then Val (true, c)
  else
    data ← buffer_at c offset (u32 (fr_length (frame c) - padded - offset));
    '(_, body) ← ByteBuffer.write (rq_body (request (base s))) data;
    Val (true, upd_stream a (fun s => s <| base ::= fun h => h <| request ::= fun r => r <| rq_body := body |> |> |>) c).

(*@ sese/internal/service/http/HttpConnectionEx.cpp 533-560 HttpConnectionEx::handleDataFrame *)
Definition data_end (a : nat) (c : Conn) : outcome Conn :=
  let id := fr_ident (frame c) in
  if fr_flag c FRAME_FLAG_END_STREAM then
    s ← get_stream c a;
    let h := rq_header (request (base s)) in
    n ← ByteBuffer.getReadableSize (rq_body (request (base s)));
    if negb (bool_decide (conn_type (base s) = FILTER)) && header_exist h (str "content-length") &&
       negb (u64 (toInteger (header_get h (str "content-length") [])) =? n)
    then goaway id GOAWAY_PROTOCOL_ERROR c
    else if header_exist h (str "te") || header_exist h (str "trailer") then goaway id GOAWAY_PROTOCOL_ERROR c
    else respond a c
  else Val (readFrameHeader c).

(*@ sese/internal/service/http/HttpConnectionEx.cpp 463-561 HttpConnectionEx::handleDataFrame *)
Definition handleDataFrame (c : Conn) : outcome Conn :=
  let c := timer_cancel c in
  let id := fr_ident (frame c) in
  if expect_ack c then writeGoawayFrame 0 0 GOAWAY_PROTOCOL_ERROR (str "expect ack") false c
  else if bad_ident c then goaway 0 GOAWAY_PROTOCOL_ERROR c
  else if is_closed c id then goaway id GOAWAY_STREAM_CLOSED c
  else
    match zfind id (streams c) with
    | None => goaway id GOAWAY_PROTOCOL_ERROR c
    | Some a =>
        s ← get_stream c a;
        c ← (if end_stream s then goaway id GOAWAY_PROTOCOL_ERROR c else Val c);
        let c := upd_stream a (fun s => s <| continue_type := fr_type (frame c) |>) c in
        let len := fr_length (frame c) in
        s ← get_stream c a;
        if (len >? window_size c) || (len >? st_window_size s) then goaway id GOAWAY_FLOW_CONTROL_ERROR c
        else
          let c := c <| window_size ::= fun w => u32 (w - len) |> in
          let c := upd_stream a (fun s => s <| st_window_size ::= fun w => u32 (w - len) |>) c in
          c ← (if window_size c <? INIT_WINDOW_SIZE / 2 then
                 c ← writeWindowUpdateFrame 0 0 INIT_WINDOW_SIZE c;
                 Val (c <| window_size ::= fun w => u32 (w + INIT_WINDOW_SIZE) |>)
               else Val c);
          s ← get_stream c a;
          c ← (if st_window_size s <? INIT_WINDOW_SIZE / 2 then
                 c ← writeWindowUpdateFrame (st_id s) 0 INIT_WINDOW_SIZE c;
                 Val (upd_stream a (fun s => s <| st_window_size ::= fun w => u32 (w + INIT_WINDOW_SIZE) |>) c)
               else Val c);
          '(ok, c) ← data_payload a c;
          if ok : bool then data_end a c else goaway id GOAWAY_PROTOCOL_ERROR c
    end.

(*@ sese/internal/service/http/HttpConnectionEx.cpp 114-193 HttpConnectionEx::handleFrameHeader *)
(** An error code of [handleSettingsFrame] is dropped. *)
Definition handleFrameHeader (c : Conn) : outcome Conn :=
  let id := fr_ident (frame c) in
  let type := fr_type (frame c) in
  st ← match zfind id (streams c) with
       | Some a => s ← get_stream c a; Val (Some s)
       | None => Val None
       end;
  let interrupted :=
    match st with
    | Some s => negb (type =? FRAME_TYPE_CONTINUATION) && (continue_type s =? FRAME_TYPE_CONTINUATION) &&
                negb (end_headers s)
    | None => false
    end in
  if interrupted then goaway id GOAWAY_PROTOCOL_ERROR c
  else if type =? FRAME_TYPE_SETTINGS then
    '(code, c) ← handleSettingsFrame c;
    if code =? 255 then Val (readFrameHeader c) else if code =? 0 then writeAckFrame c else Val c
  else if type =? FRAME_TYPE_WINDOW_UPDATE then handleWindowUpdate c
  else if type =? FRAME_TYPE_GOAWAY then handleGoawayFrame c
  else if type =? FRAME_TYPE_CONTINUATION then
    if id =? 0 then goaway 0 GOAWAY_PROTOCOL_ERROR c
    else match st with
         | None => goaway id GOAWAY_PROTOCOL_ERROR c
         | Some s =>
             if negb (continue_type s =? FRAME_TYPE_HEADERS) && negb (continue_type s =? FRAME_TYPE_CONTINUATION)
             then goaway id GOAWAY_PROTOCOL_ERROR c
             else if end_headers s then goaway id GOAWAY_PROTOCOL_ERROR c
             else handleHeadersFrame c
         end
  else if type =? FRAME_TYPE_HEADERS then handleHeadersFrame c
  else if type =? FRAME_TYPE_DATA then handleDataFrame c
  else if type =? FRAME_TYPE_PRIORITY then handlePriorityFrame c
  else if type =? FRAME_TYPE_RST_STREAM then handleRstStreamFrame c
  else if type =? FRAME_TYPE_PING then handlePingFrame c
  else writeGoawayFrame 0 0 GOAWAY_PROTOCOL_ERROR (str "unknown frame type") false c.

(** ** The callbacks of reads *)

(*@ sese/internal/service/http/HttpConnectionEx.cpp 74-79 HttpConnectionEx::readMagic *)
Definition magic_done (c : Conn) : outcome Conn :=
  b ← buffer_at c 0 24;
  if bool_decide (b = MAGIC_STRING) then writeSettingsFrame c else Val (disponse c).

(*@ sese/internal/service/http/HttpConnectionEx.cpp 90-104 HttpConnectionEx::readFrameHeader *)
Definition header_done (c : Conn) : outcome Conn :=
  i ← parse_header (temp_buffer c);
  let c := c <| frame := i |> in
  if fr_length i >? endpoint_max_frame_size c then
    writeGoawayFrame (fr_ident i) 0 GOAWAY_PROTOCOL_ERROR (str "shutdown") true c
  else Val (readBlock 0 (fr_length i) KPayload c).

Definition read_done (k : ReadK) (c : Conn) : outcome Conn :=
  match k with KMagic => magic_done c | KHeader => header_done c | KPayload => handleFrameHeader c end.

(** ** Events *)

(** The socket completes the [i]-th pending operation, or the timer expires. *)
Inductive event :=
| ReadSome (i : nat) (data : bytes)
| ReadError (i : nat)
| WriteDone (i : nat)
| WriteError (i : nat)
| TimerExpired.

Definition delete_at {A} (i : nat) (l : list A) : list A := take i l ++ drop (S i) l.

(*@ sese/internal/service/http/HttpConnectionExImpl.cpp 51-58 HttpConnectionExImpl::readBlock *)
Definition read_some (i : nat) (rd : PendingRead) (data : bytes) (c : Conn) : outcome Conn :=
  m ← memcpy (temp_buffer c) (rd_off rd) data;
  let c := c <| temp_buffer := m |> <| reads ::= delete_at i |> <| is_read := false |> in
  if zlen data =? rd_len rd then read_done (rd_k rd) c
  else Val (readBlock (rd_off rd + zlen data) (rd_len rd - zlen data) (rd_k rd) c).

(*@ sese/internal/service/http/HttpConnectionExImpl.cpp 30-41 HttpConnectionExImpl::writeBlocks *)
(** With the callbacks of [handleWrite] and [writeGoawayFrame]. *)
Definition write_done (i : nat) (k : WriteK) (ok : bool) (c : Conn) : outcome Conn :=
  let c := c <| writes ::= delete_at i |> <| is_write := false |> in
  match k with
  | KBlocks => if ok then handleWrite c else Val (disponse c)
  | KOnce => Val (disponse c)
  end.

(** An event and the state after it; [None] when it cannot happen. A read completes with
    at least one byte, unless none was asked for. *)
Definition step (c : Conn) (e : event) : option (outcome Conn) :=
  match e with
  | ReadSome i data =>
      rd ← reads c !! i;
      if socket_open c && (zlen data <=? rd_len rd) && ((0 <? zlen data) || (rd_len rd =? 0))
      then Some (read_some i rd data c) else None
  | ReadError i =>
      _ ← reads c !! i;
      Some (Val (disponse (c <| reads ::= delete_at i |> <| is_read := false |>)))
  | WriteDone i =>
      w ← writes c !! i; if socket_open c then Some (write_done i (fst w) true c) else None
  | WriteError i => w ← writes c !! i; Some (write_done i (fst w) false c)
  | TimerExpired => if timer_wait c then Some (Val (c <| timer_wait := false |> <| socket_open := false |>)) else None
  end.

(** A sequence of events. *)
Inductive steps : Conn -> list event -> Conn -> Prop :=
| steps_nil c : steps c [] c
| steps_cons c e c' es c'' : step c e = Some (Val c') -> steps c' es c'' -> steps c (e :: es) c''.

(** The states of a connection that meets no undefined behaviour. *)
Definition reachable (c : Conn) : Prop := exists addr es, steps (readMagic (new_conn addr)) es c.

End Handlers.
