(* ===== verification/Http2Delivery.v ===== *)
(** * Delivery of HTTP/2 responses

    What [handleWrite] sends for a stream that responds with a body: a HEADERS frame,
    then one DATA frame per completed write until the body is out and the stream is
    closed. *)

From stdpp Require Import gmap.
From S2P Require Import Prelude Streams Words ByteBuffer Http2Frame Request HttpService Http2Connection.

(** ** Frames *)

Lemma small_frame_spec type flags ident payload :
  is_byte type -> is_byte flags -> is_u 31 ident -> zlen payload < 2 ^ 24 ->
  exists f, small_frame type flags ident payload = Val f /\
    built f (FrameInfo (zlen payload) type flags ident) payload.
Proof.
  intros Ht Hf Hi Hp. pose proof (zlen_nonneg payload). unfold small_frame.
  rewrite (wrap_small 32) by (unfold is_u; lia). apply build_then_write; [done|done|cbn; lia].
Qed.

(** A frame of a stream: filled first, its length and its flags set, then its header. *)
Lemma stream_frame_spec c s type fl len data f : write_content (stream_frame c s type) 0 data = Val f ->
  len = zlen data -> info_ok (FrameInfo len type fl (st_id s)) -> 0 <= max_frame_size c ->
  exists f', buildFrameHeader (f <| fr_info := FrameInfo len type fl (st_id s) |>) = Val f' /\
    built f' (FrameInfo len type fl (st_id s)) data.
Proof.
  intros Hw -> Hok Hm. unfold write_content, stream_frame in Hw. upd. cbn [fr_info fr_mem] in Hw.
  destruct (memcpy _ _ _) as [m|] eqn:Em; [|done]. injection Hw as <-. cbn [fr_info fr_mem] in *.
  unfold memcpy in Em. destruct (_ && _) eqn:E; [|done]. zbool. injection Em as <-.
  change (9 + 0) with 9 in *. upd. cbn [fr_info fr_mem].
  rewrite buildFrameHeader_spec by (apply zlen_ztake; rewrite zlen_repeat; lia).
  eexists. split; [done|]. split; [done|]. split; [done|]. eauto.
Qed.

(** Room for the payload. *)
Lemma stream_frame_write c s type data : 0 <= zlen data <= max_frame_size c ->
  exists f, write_content (stream_frame c s type) 0 data = Val f /\ fr_info f = FrameInfo 0 type 0 (st_id s).
Proof.
  intros Hd. destruct (new_frame_mem (max_frame_size c) (zlen data)) as (h & p & r & Hm & Hh & Hp & _); [lia|].
  unfold write_content, stream_frame. upd. cbn [fr_info fr_mem]. rewrite Hm, memcpy_over, bind_Val by lia.
  eauto.
Qed.

(** ** Rounds of a stream *)

Definition can_send (c : Conn) (s : HttpStream) : Prop :=
  0 < max_frame_size c < 2 ^ 24 /\ 0 < endpoint_window_size c /\ 0 < st_endpoint_window_size s /\ is_u 31 (st_id s).

Definition header_info (s : HttpStream) (hb body : bytes) : Http2FrameInfo :=
  FrameInfo (zlen hb) FRAME_TYPE_HEADERS
    (if bool_decide (body = []) then Z.lor FRAME_FLAG_END_HEADERS FRAME_FLAG_END_STREAM else FRAME_FLAG_END_HEADERS)
    (st_id s).

(** A stream that answers with [body] after the header block [hb]. *)
Record answers (s : HttpStream) (hb body : bytes) : Prop := {
  a_do : do_response s = true;
  a_type : conn_type (base s) <> FILE_DOWNLOAD;
  a_hb : ByteBuffer.valid (st_temp_buffer s) /\ ByteBuffer.content (st_temp_buffer s) = hb;
  a_body : ByteBuffer.valid (rp_body (response (base s))) /\
           ByteBuffer.content (rp_body (response (base s))) = body }.

Lemma stream_round_general c s : conn_type (base s) <> FILE_DOWNLOAD ->
  stream_round c s =
  (e ← ByteBuffer.eof (st_temp_buffer s);
   if negb e then '(fin, s, f) ← writeHeadersFrame c s true; Val (fin, s, Some f)
   else e ← ByteBuffer.eof (rp_body (response (base s)));
        if negb e then writeDataFrame4Body c s else Val (true, s, None)).
Proof. unfold stream_round. by destruct (conn_type (base s)). Qed.

Lemma header_round c s hb body : answers s hb body -> can_send c s -> 0 < zlen hb <= max_frame_size c ->
  exists s' f, stream_round c s = Val (bool_decide (body = []), s', Some f) /\
    built f (header_info s hb body) hb /\ answers s' [] body /\ st_id s' = st_id s /\
    st_endpoint_window_size s' = st_endpoint_window_size s.
Proof.
  intros [Hdo Hty [Hv Hc] [Hvb Hcb]] (Hm & He & Hs & Hid) Hl. rewrite stream_round_general by done.
  rewrite (ByteBuffer.eof_spec (st_temp_buffer s)), bind_Val, Hc by done.
  rewrite (bool_decide_eq_false_2 (hb = [])) by (intros E; rewrite E in Hl; unfold zlen in Hl; cbn in Hl; lia). cbn [negb].
  unfold writeHeadersFrame.
  destruct (ByteBuffer.read_spec (st_temp_buffer s) (max_frame_size c) Hv) as (tb & -> & _ & Hv' & Hc' & _); [lia|].
  rewrite bind_Val. rewrite Hc in Hc' |- *. rewrite ztake_ge by lia.
  destruct (stream_frame_write c s FRAME_TYPE_HEADERS hb) as (f & Hf & Hi); [lia|]. rewrite Hf, bind_Val.
  rewrite Z.min_r by lia. rewrite (ByteBuffer.eof_spec tb), bind_Val, Hc', zdrop_ge by (done || lia).
  rewrite (bool_decide_eq_true_2 ([] = [])) by done. upd. cbn [base].
  rewrite ByteBuffer.eof_spec, bind_Val, Hcb by done. cbn [andb].
  destruct (stream_frame_spec c s FRAME_TYPE_HEADERS (fr_flags (header_info s hb body)) (zlen hb) hb f Hf) as (f' & Hb & Hbuilt);
    [done| |lia|].
  { unfold info_ok, header_info. cbn [fr_length fr_type fr_flags fr_ident].
    split_and!; [lia|lia|zeval|destruct (bool_decide _); zeval|exact Hid]. }
  exists (s <| st_temp_buffer := tb |>), f'.
  assert (add_flag FRAME_FLAG_END_STREAM (bool_decide (body = []))
            (add_flag FRAME_FLAG_END_HEADERS true (set_length (zlen hb) f)) =
          f <| fr_info := FrameInfo (zlen hb) FRAME_TYPE_HEADERS (fr_flags (header_info s hb body)) (st_id s) |>) as E.
  { unfold add_flag, set_length, header_info. upd. cbn [fr_info fr_mem]. rewrite Hi. cbn [fr_flags fr_length fr_type fr_ident].
    rewrite (wrap_small 32) by (unfold is_u; lia). by destruct (bool_decide _). }
  upd. rewrite E, Hb, !bind_Val. split; [done|]. split; [done|]. split; [|done].
  split; cbn; rewrite ?Hc', ?zdrop_ge by lia; done.
Qed.

Definition data_info (s : HttpStream) (w : Z) (body : bytes) : Http2FrameInfo :=
  FrameInfo (zlen (ztake w body)) FRAME_TYPE_DATA
    (if bool_decide (zdrop w body = []) then FRAME_FLAG_END_STREAM else 0) (st_id s).

Lemma can_send_window c s : can_send c s -> 0 < send_window c s <= max_frame_size c.
Proof. unfold can_send, send_window. lia. Qed.

Lemma can_send_not_empty c s : can_send c s -> window_empty c s = false.
Proof. intros (? & ? & ? & ?). unfold window_empty. apply orb_false_iff. split; apply Z.eqb_neq; lia. Qed.

Lemma data_round c s body : answers s [] body -> can_send c s -> body <> [] ->
  exists s' f, stream_round c s = Val (bool_decide (zdrop (send_window c s) body = []), s', Some f) /\
    built f (data_info s (send_window c s) body) (ztake (send_window c s) body) /\
    answers s' [] (zdrop (send_window c s) body) /\ st_id s' = st_id s /\
    st_endpoint_window_size s' = st_endpoint_window_size s.
Proof.
  intros [Hdo Hty [Hv Hc] [Hvb Hcb]] Hcs Hne. rewrite stream_round_general by done.
  rewrite (ByteBuffer.eof_spec (st_temp_buffer s)), bind_Val, Hc, bool_decide_eq_true_2 by done. cbn [negb].
  rewrite ByteBuffer.eof_spec, bind_Val, Hcb, (bool_decide_eq_false_2 (body = [])) by done. cbn [negb].
  unfold writeDataFrame4Body. rewrite can_send_not_empty by done.
  pose proof (can_send_window c s Hcs) as Hw. destruct Hcs as (Hm & He & Hs & Hid).
  remember (send_window c s) as w eqn:Ew. clear Ew.
  destruct (ByteBuffer.read_spec (rp_body (response (base s))) w Hvb) as (tb & -> & _ & Hv' & Hc' & _); [lia|].
  rewrite bind_Val. rewrite Hcb in Hc' |- *.
  assert (zlen (ztake w body) = Z.min w (zlen body)) as Hl by (apply zlen_ztake_min; lia).
  pose proof (zlen_nonneg body).
  destruct (stream_frame_write c s FRAME_TYPE_DATA (ztake w body)) as (f & Hf & Hi); [lia|]. rewrite Hf, bind_Val.
  rewrite ByteBuffer.eof_spec, bind_Val, Hc' by done. rewrite <- Hl.
  destruct (stream_frame_spec c s FRAME_TYPE_DATA (fr_flags (data_info s w body)) (zlen (ztake w body)) _ f Hf) as (f' & Hb & Hbuilt);
    [done| |lia|].
  { unfold info_ok, data_info. cbn [fr_length fr_type fr_flags fr_ident].
    split_and!; [lia|lia|zeval|destruct (bool_decide _); zeval|exact Hid]. }
  assert (add_flag FRAME_FLAG_END_STREAM (bool_decide (zdrop w body = [])) (set_length (zlen (ztake w body)) f) =
          f <| fr_info := FrameInfo (zlen (ztake w body)) FRAME_TYPE_DATA (fr_flags (data_info s w body)) (st_id s) |>) as E.
  { unfold add_flag, set_length, data_info. upd. cbn [fr_info fr_mem]. rewrite Hi. cbn [fr_flags fr_length fr_type fr_ident].
    rewrite (wrap_small 32) by (unfold is_u; lia). by destruct (bool_decide _). }
  rewrite E, Hb, bind_Val. eexists _, f'. split; [done|]. split; [done|]. upd. split; [|done].
  by split; cbn.
Qed.

(** A round looks at nothing of the connection but what bounds the frame. *)
Lemma stream_round_ext c c' s : max_frame_size c = max_frame_size c' -> endpoint_window_size c = endpoint_window_size c' ->
  stream_round c' s = stream_round c s.
Proof.
  intros Hm He.
  unfold stream_round, writeDataFrame4SingleRange, writeDataFrame4Ranges, writeDataFrame4Body, writeSubheaderAndData,
    writeHeadersFrame, window_empty, send_window, stream_frame. by rewrite Hm, He.
Qed.

(** ** The loop over the streams *)

(** The streams around the one at [a] do not respond, and have other keys and objects. *)
Definition idle (c : Conn) (id : Z) (a : nat) (l : list (Z * nat)) : Prop :=
  Forall (fun e => fst e <> id /\ snd e <> a /\
    exists s, heap c !! snd e = Some s /\ do_response s = false) l.

Lemma write_streams_idle c id a l rest : idle c id a l -> write_streams (l ++ rest) c = write_streams rest c.
Proof.
  induction 1 as [|[k b] l (_ & _ & s & Hs & Hd) _ IH]; [done|]. cbn [app write_streams].
  unfold get_stream. cbn [snd] in Hs. rewrite Hs. cbn [of_option]. by rewrite bind_Val, Hd.
Qed.

Lemma idle_upd c id a l c' : idle c id a l -> (forall b, b <> a -> heap c' !! b = heap c !! b) -> idle c' id a l.
Proof.
  intros H Hh. eapply Forall_impl; [exact H|]. intros e (? & ? & s & Hs & ?). split; [done|]. split; [done|].
  exists s. by rewrite Hh.
Qed.

Lemma zerase_middle id a l1 l2 c : idle c id a l1 -> idle c id a l2 -> zerase id (l1 ++ (id, a) :: l2) = l1 ++ l2.
Proof.
  assert (forall l, idle c id a l -> zerase id l = l) as E.
  { intros l Hl. unfold zerase. induction Hl as [|e l (Hk & _) _ IH]; [done|].
    rewrite filter_cons_True; [by f_equal|]. apply negb_true_iff, Z.eqb_neq. done. }
  intros H1 H2. unfold zerase. rewrite filter_app, filter_cons_False by (cbn; rewrite Z.eqb_refl; done).
  fold (zerase id l1) (zerase id l2). by rewrite !E.
Qed.


(** What a round of the loop does to the connection. *)
Definition after_round (c : Conn) (id : Z) (a : nat) (fin : bool) (s : HttpStream) (f : Http2Frame) : Conn :=
  let c := push_frame f (upd_stream a (fun _ => s) c) in if fin then close id c else c.

Lemma write_streams_one c id a s l1 l2 fin s' f :
  heap c !! a = Some s -> do_response s = true -> idle c id a l1 -> idle c id a l2 ->
  stream_round c s = Val (fin, s', Some f) -> st_id s' = id ->
  write_streams (l1 ++ (id, a) :: l2) c = Val (after_round c id a fin s' f).
Proof.
  intros Hs Hd H1 H2 Hr Hid. rewrite (write_streams_idle c id a) by done. cbn [write_streams].
  unfold get_stream. rewrite Hs. cbn [of_option]. rewrite bind_Val, Hd. cbn [negb]. rewrite Hr, bind_Val, Hid.
  fold (after_round c id a fin s' f).
  assert (idle (after_round c id a fin s' f) id a l2) as H2'.
  { eapply idle_upd; [exact H2|]. intros b Hb. unfold after_round, push_frame, upd_stream, close.
    destruct fin; fields; by apply list_lookup_alter_ne. }
  rewrite <- (app_nil_r l2). rewrite (write_streams_idle _ id a) by done. done.
Qed.

(** A connection that is ready to write, whose only busy stream is [id] at [a]. *)
Record ready (c : Conn) (id : Z) (a : nat) (s : HttpStream) (l1 l2 : list (Z * nat)) : Prop := {
  r_read : is_read c = true;
  r_write : is_write c = false;
  r_streams : streams c = l1 ++ (id, a) :: l2;
  r_heap : heap c !! a = Some s;
  r_id : st_id s = id;
  r_idle : idle c id a l1 /\ idle c id a l2;
  r_pre : pre_vector c = [];
  r_writes : writes c = [];
  r_open : socket_open c = true;
  r_can : can_send c s }.

(** The state after a write of [wire] has been started: [c'] is ready once it is done. *)
Definition writing (c : Conn) (wire : bytes) (P : Conn -> Prop) : Prop :=
  writes c = [(KBlocks, wire)] /\ socket_open c = true /\ P (c <| writes := [] |> <| is_write := false |>).

Record finished (c : Conn) (id : Z) (a : nat) (l : list (Z * nat)) : Prop := {
  d_read : is_read c = true;
  d_write : is_write c = false;
  d_streams : streams c = l;
  d_closed : id ∈ closed_streams c;
  d_idle : idle c id a l;
  d_pre : pre_vector c = [];
  d_writes : writes c = [] }.

Lemma handleWrite_one c id a s l1 l2 fin s' f i payload :
  ready c id a s l1 l2 -> do_response s = true -> stream_round c s = Val (fin, s', Some f) ->
  built f i payload -> info_ok i -> st_id s' = st_id s -> st_endpoint_window_size s' = st_endpoint_window_size s ->
  exists c', handleWrite c = Val c' /\
    writing c' (header_bytes i ++ payload) (fun c' =>
      if fin : bool then finished c' id a (l1 ++ l2) else ready c' id a s' l1 l2 /\ send_window c' s' = send_window c s).
Proof.
  intros [] Hd Hr Hb Hi Hid Hw. unfold handleWrite. rewrite r_read0. cbn [negb]. rewrite r_write0, r_streams0.
  destruct r_idle0 as [H1 H2].
  rewrite <- (stream_round_ext c (timer_cancel c)) in Hr by done.
  rewrite (write_streams_one _ id a s l1 l2 fin s' f), bind_Val by (done || congruence).
  unfold after_round, push_frame, upd_stream, close, timer_cancel, flush.
  set (c1 := if fin then _ else _).
  assert (pre_vector c1 = [f] /\ writes c1 = []) as [Hpre Hwr].
  { subst c1. destruct fin; fields; by rewrite r_pre0. }
  rewrite Hpre, Hwr. cbn [existsb mapM]. rewrite (built_wire f i payload) by done.
  cbn [mbind outcome_bind mret outcome_ret concat]. rewrite app_nil_r. eexists. split; [reflexivity|].
  unfold writing, writeBlocks, checkKeepalive. fields. split; [by rewrite Hwr|].
  subst c1. split; [destruct fin; by fields|].
  assert (forall b, b <> a -> alter (fun _ => s') a (heap c) !! b = heap c !! b) as Hne
    by (intros b Hb'; by apply list_lookup_alter_ne).
  destruct fin.
  - split; fields; try done; [rewrite r_streams0; by eapply zerase_middle|set_solver|].
    eapply idle_upd; [by apply Forall_app|]. intros; fields; auto.
  - split; [|unfold send_window; fields; by rewrite Hw].
    split; fields; try done.
    + by rewrite list_lookup_alter_eq, r_heap0.
    + congruence.
    + split; eapply idle_upd; eauto; intros; fields; auto.
    + unfold can_send in *. fields. by rewrite Hw, Hid.
Qed.

(** ** The whole response *)

(** Writes complete one after another until there is nothing to send; [ws] is what goes
    over the wire. *)
Inductive sends `{FileSystem} (sv : Service) : Conn -> list bytes -> Conn -> Prop :=
| sends_done c : writes c = [] -> sends sv c [] c
| sends_write c w c' ws c'' : writes c = [(KBlocks, w)] -> step sv c (WriteDone 0) = Some (Val c') ->
    sends sv c' ws c'' -> sends sv c (w :: ws) c''.

Definition frame_bytes (d : Http2FrameInfo * bytes) : bytes := header_bytes (fst d) ++ snd d.

(** DATA frames of a stream that carry [body], the last one ending the stream. *)
Definition body_frames (id max : Z) (body : bytes) (ds : list (Http2FrameInfo * bytes)) : Prop :=
  concat (map snd ds) = body /\
  Forall (fun d => fst d = FrameInfo (zlen (snd d)) FRAME_TYPE_DATA (fr_flags (fst d)) id /\ 0 < zlen (snd d) <= max) ds /\
  map (fun d => fr_flags (fst d)) ds = repeat 0 (length ds - 1) ++ [FRAME_FLAG_END_STREAM].

Section Response.
Context `{FileSystem} (sv : Service).

Lemma step_writing c w P : writing c w P ->
  step sv c (WriteDone 0) = Some (handleWrite (c <| writes := [] |> <| is_write := false |>)).
Proof.
  intros (Hw & Ho & _). unfold step. rewrite Hw, Ho. cbn [lookup list_lookup mbind option_bind fst].
  unfold write_done, delete_at. do 2 f_equal. unfold update. by rewrite Hw.
Qed.

Lemma handleWrite_finished c id a l : finished c id a l -> handleWrite c = Val (timer_cancel c).
Proof.
  intros []. unfold handleWrite. rewrite d_read0. cbn [negb]. rewrite d_write0, d_streams0.
  rewrite <- (app_nil_r l), (write_streams_idle _ id a).
  - cbn [write_streams]. rewrite bind_Val. unfold flush, timer_cancel. fields. by rewrite d_pre0.
  - eapply idle_upd; [exact d_idle0|]. intros. unfold timer_cancel. by fields.
Qed.

(** The last write completes and nothing is left. *)
Lemma sends_last c w id a l : writing c w (fun c' => finished c' id a l) ->
  exists c', sends sv c [w] c' /\ finished c' id a l.
Proof.
  intros Hw. pose proof Hw as (Hws & _ & Hf). exists (timer_cancel (c <| writes := [] |> <| is_write := false |>)). split.
  - eapply sends_write; [exact Hws| |constructor; apply Hf].
    rewrite (step_writing _ _ _ Hw). by erewrite handleWrite_finished.
  - destruct Hf. unfold timer_cancel. split; fields; try done.
Qed.

Lemma sends_more c w P c1 ws c' : writing c w P ->
  handleWrite (c <| writes := [] |> <| is_write := false |>) = Val c1 -> sends sv c1 ws c' -> sends sv c (w :: ws) c'.
Proof. intros Hw Hh Hs. eapply sends_write; [apply Hw| |exact Hs]. by rewrite (step_writing _ _ _ Hw), Hh. Qed.

Lemma body_frames_last id max body i : body <> [] -> zlen body <= max -> i = FrameInfo (zlen body) FRAME_TYPE_DATA FRAME_FLAG_END_STREAM id ->
  body_frames id max body [(i, body)].
Proof.
  intros Hne Hm ->. split; [apply app_nil_r|]. split; [|done]. constructor; [|done]. cbn. split; [done|].
  destruct body; [done|]. rewrite zlen_cons in *. pose proof (zlen_nonneg body). lia.
Qed.

Lemma body_frames_more id max w body ds : 0 < w <= max -> zdrop w body <> [] -> body_frames id max (zdrop w body) ds ->
  body_frames id max body ((FrameInfo (zlen (ztake w body)) FRAME_TYPE_DATA 0 id, ztake w body) :: ds).
Proof.
  intros Hw Hne (Hc & Hf & Hl). assert (0 < zlen (ztake w body) <= max).
  { rewrite zlen_ztake_min by lia. assert (w < zlen body); [|lia].
    destruct (Z.lt_ge_cases w (zlen body)); [done|]. destruct Hne. by apply zdrop_ge. }
  split; [cbn; rewrite Hc; apply ztake_zdrop|]. split; [by constructor|]. cbn [map fst]. rewrite Hl. cbn [fr_flags length].
  destruct ds; [done|]. cbn. by rewrite Nat.sub_0_r.
Qed.

Lemma data_info_ok c s body : can_send c s -> info_ok (data_info s (send_window c s) body).
Proof.
  intros Hc. pose proof (can_send_window c s Hc). destruct Hc as (? & ? & ? & ?).
  unfold info_ok, data_info. cbn [fr_length fr_type fr_flags fr_ident]. rewrite zlen_ztake_min by lia.
  pose proof (zlen_nonneg body).
  split_and!; [lia|lia|zeval|destruct (bool_decide _); zeval|done].
Qed.

(** A body is delivered: by induction on what is left of it. *)
Lemma send_body n : forall c id a s l1 l2 body, (length body <= n)%nat -> body <> [] ->
  ready c id a s l1 l2 -> answers s [] body ->
  exists c1 ws c' ds, handleWrite c = Val c1 /\ sends sv c1 ws c' /\ ws = map frame_bytes ds /\
    body_frames id (send_window c s) body ds /\ finished c' id a (l1 ++ l2).
Proof.
  induction n as [|n IH]; intros c id a s l1 l2 body Hn Hne Hr Ha; [by destruct body; [|cbn in Hn; lia]|].
  pose proof (r_can _ _ _ _ _ _ Hr) as Hcan. pose proof (can_send_window c s Hcan) as Hw.
  destruct (data_round c s body Ha Hcan Hne) as (s' & f & Hround & Hb & Ha' & Hid & Hwin).
  pose proof (r_id _ _ _ _ _ _ Hr) as Hids.
  destruct (handleWrite_one c id a s l1 l2 _ s' f _ _ Hr (a_do _ _ _ Ha) Hround Hb (data_info_ok _ _ _ Hcan) Hid Hwin)
    as (c1 & Hh & Hwr).
  case_bool_decide as Hlast.
  - destruct (sends_last _ _ _ _ _ Hwr) as (c' & Hs & Hf).
    exists c1, [frame_bytes (data_info s (send_window c s) body, ztake (send_window c s) body)], c', [(data_info s (send_window c s) body, ztake (send_window c s) body)].
    split; [done|]. split; [exact Hs|]. split; [done|]. split; [|done].
    assert (ztake (send_window c s) body = body) as E.
    { rewrite <- (ztake_zdrop (send_window c s) body) at 2. by rewrite Hlast, app_nil_r. }
    unfold data_info. rewrite Hlast, !E, bool_decide_eq_true_2, Hids by done.
    apply body_frames_last; [done| |done]. pose proof (f_equal zlen E) as El. rewrite zlen_ztake_min in El; lia.
  - pose proof Hwr as (_ & _ & Hr' & Hsw).
    assert (length (zdrop (send_window c s) body) <= n)%nat as Hn' by (unfold zdrop; rewrite length_drop; lia).
    destruct (IH _ id a s' l1 l2 _ Hn' Hlast Hr' Ha') as (c2 & ws & c' & ds & Hh2 & Hs2 & -> & Hbf & Hf).
    exists c1, (frame_bytes (data_info s (send_window c s) body, ztake (send_window c s) body) :: map frame_bytes ds), c', ((data_info s (send_window c s) body, ztake (send_window c s) body) :: ds).
    split; [done|]. split; [by eapply sends_more|]. split; [done|]. split; [|done].
    unfold data_info. rewrite bool_decide_eq_false_2, Hids by done. rewrite Hsw in Hbf. by apply body_frames_more; [lia|..].
Qed.

(** C5: a response over HTTP/2 is delivered whole. On a connection that has nothing else
    to send, a stream with a header block of at most one frame and a body sends, as its
    writes complete, one HEADERS frame with the block and END_HEADERS, then DATA frames of
    at most the smallest window whose payloads are the body, the last one and no other
    with END_STREAM (the HEADERS frame when the body is empty); after finitely many writes
    the stream is closed and the connection has nothing left to send. *)
Theorem http2_response_delivery (c : Conn) (id : Z) (a : nat) (s : HttpStream) (l1 l2 : list (Z * nat)) (hb body : bytes) :
  ready c id a s l1 l2 -> answers s hb body -> 0 < zlen hb <= max_frame_size c ->
  exists c1 ws c' ds, handleWrite c = Val c1 /\ sends sv c1 ws c' /\
    ws = map frame_bytes ((FrameInfo (zlen hb) FRAME_TYPE_HEADERS (if bool_decide (body = []) then 5 else 4) id, hb) :: ds) /\
    (if bool_decide (body = []) then ds = [] else body_frames id (send_window c s) body ds) /\
    streams c' = l1 ++ l2 /\ id ∈ closed_streams c' /\ writes c' = [].
Proof.
  intros Hr Ha Hl. pose proof (r_can _ _ _ _ _ _ Hr) as Hcan.
  destruct (header_round c s hb body Ha Hcan Hl) as (s' & f & Hround & Hb & Ha' & Hid & Hwin).
  pose proof (r_id _ _ _ _ _ _ Hr) as Hids.
  assert (info_ok (header_info s hb body)) as Hok.
  { destruct Hcan as (? & ? & ? & ?). unfold info_ok, header_info. cbn [fr_length fr_type fr_flags fr_ident].
    split_and!; [lia|lia|zeval|destruct (bool_decide _); zeval|done]. }
  destruct (handleWrite_one c id a s l1 l2 _ s' f _ _ Hr (a_do _ _ _ Ha) Hround Hb Hok Hid Hwin) as (c1 & Hh & Hwr).
  unfold header_info in Hwr. rewrite Hids in Hwr. change (Z.lor _ _) with 5 in Hwr. change FRAME_FLAG_END_HEADERS with 4 in Hwr.
  case_bool_decide as Hbody.
  - destruct (sends_last _ _ _ _ _ Hwr) as (c' & Hs & []). eexists c1, _, c', [].
    split; [done|]. split; [exact Hs|]. done.
  - pose proof Hwr as (_ & _ & Hr' & Hsw).
    destruct (send_body (length body) _ id a s' l1 l2 body (le_n _) Hbody Hr' Ha') as (c2 & ws & c' & ds & Hh2 & Hs2 & -> & Hbf & []).
    rewrite Hsw in Hbf. eexists c1, _, c', ds. split; [done|]. split; [by eapply sends_more|]. done.
Qed.
End Response.

(** ** An example *)

(** No files, and a service that answers [GET /hi] with [hello]. *)
#[export] Instance no_files : FileSystem := {|
  fs_exists := fun _ => false; fs_is_regular_file := fun _ => false; fs_is_directory := fun _ => false;
  fs_open := fun _ => None; fs_file_size := fun _ => 0; fs_last_write_time := fun _ => 0 |}.

Definition hello : Callback := fun req resp _ =>
  (req, resp <| rp_body ::= fun b => match ByteBuffer.write b (str "hello") with Val (_, b) => b | Undef => b end |>).
Definition example_service : Service :=
  MkService 30 (str "sese") [] [(str "/hi", (new_servlet GET (str "/hi")) <| callback := Some hello |>)] None [].

(** A buffer that holds [data]. *)
Definition buffer_of (data : bytes) : ByteBuffer.t :=
  match ByteBuffer.write (new_builder 1024) data with Val (_, b) => b | Undef => new_builder 1024 end.

Lemma buffer_of_ok data : ByteBuffer.valid (buffer_of data) /\ ByteBuffer.content (buffer_of data) = data.
Proof.
  destruct (ByteBuffer.create_valid 1024 1024) as [Hv Hc]; [lia..|]. unfold buffer_of, new_builder.
  destruct (ByteBuffer.chain_write_spec _ data Hv) as (b & -> & Hvb & Hcb & _). by rewrite Hcb, Hc.
Qed.

Definition example_stream : HttpStream :=
  (new_stream 1 65535 0) <| do_response := true |> <| st_temp_buffer := buffer_of [136] |>
    <| base ::= fun h => h <| response ::= fun r => r <| rp_body := buffer_of (str "hello") |> |> |>.
Definition example_conn : Conn :=
  (new_conn 0) <| is_read := true |> <| heap := [example_stream] |> <| streams := [(1, 0%nat)] |>.

Lemma http2_response_delivery_witness : exists c1 ws c' ds,
  handleWrite example_conn = Val c1 /\ sends example_service c1 ws c' /\
  ws = map frame_bytes ((FrameInfo 1 FRAME_TYPE_HEADERS 4 1, [136]) :: ds) /\
  body_frames 1 16384 (str "hello") ds /\ streams c' = [] /\ 1 ∈ closed_streams c' /\ writes c' = [].
Proof.
  apply (http2_response_delivery example_service example_conn 1 0 example_stream [] [] [136] (str "hello")).
  - split; try done; first [split; constructor|vm_compute; repeat split; congruence].
  - split; try done; apply buffer_of_ok.
  - vm_compute. split; congruence.
Defined.
