(* ===== verification/Http2Behaviour.v ===== *)
(** * What the HTTP/2 handlers do

    Frames that are answered at once, settings, refused frames, and reads in pieces. The
    last part states behaviours of the code that its authors cannot have meant. *)

From stdpp Require Import gmap.
From S2P Require Import Prelude Streams Words ByteBuffer DynamicTable Http2Frame Request HttpService Http2Connection Http2Delivery.

(** ** Answering at once *)

(** A connection that is not writing and where no stream responds. *)
Record quiet (c : Conn) : Prop := {
  q_write : is_write c = false;
  q_pre : pre_vector c = [];
  q_writes : writes c = [];
  q_idle : Forall (fun e => exists s, heap c !! snd e = Some s /\ do_response s = false) (streams c) }.

(** Reading the next header, unless a read is in progress. *)
Definition reading (c : Conn) : Conn := if is_read c then c else readFrameHeader c.

(** The connection when [wire] has been handed to the socket. *)
Definition sending (wire : bytes) (c : Conn) : Conn := writeBlocks wire (checkKeepalive (timer_cancel (reading c))).

Lemma write_streams_quiet c l :
  Forall (fun e => exists s, heap c !! snd e = Some s /\ do_response s = false) l -> write_streams l c = Val c.
Proof.
  induction 1 as [|[k b] l (s & Hs & Hd) _ IH]; [done|]. cbn [write_streams snd] in *. unfold get_stream.
  rewrite Hs. cbn [of_option]. by rewrite bind_Val, Hd.
Qed.

Lemma push_pop f c : pre_vector c = [] -> (push_frame f c) <| pre_vector := [] |> = c.
Proof. intros H. destruct c. cbn in H. by subst. Qed.

Lemma reading_quiet c : quiet c -> quiet (reading c) /\ is_read (reading c) = true.
Proof.
  intros []. unfold reading. destruct (is_read c) eqn:E; [by repeat split|].
  unfold readFrameHeader, readBlock. by split; [split; fields|fields].
Qed.

Lemma handleWrite_reading f c : handleWrite (push_frame f c) = handleWrite (push_frame f (reading c)).
Proof.
  unfold reading. destruct (is_read c) eqn:E; [done|]. unfold handleWrite.
  assert (is_read (push_frame f c) = false) as -> by (unfold push_frame; by fields).
  assert (is_read (push_frame f (readFrameHeader c)) = true) as -> by (unfold push_frame, readFrameHeader, readBlock; by fields).
  done.
Qed.

Lemma send_reading c f i p : quiet c -> is_read c = true -> built f i p -> info_ok i ->
  handleWrite (push_frame f c) = Val (writeBlocks (header_bytes i ++ p) (checkKeepalive (timer_cancel c))).
Proof.
  intros [] Hr Hb Hi. unfold handleWrite.
  assert (is_read (push_frame f c) = true /\ is_write (push_frame f c) = false) as [-> E]
    by (unfold push_frame; split; by fields).
  cbn [negb]. rewrite E, write_streams_quiet, bind_Val by (unfold timer_cancel, push_frame; by fields).
  unfold flush. assert (pre_vector (timer_cancel (push_frame f c)) = [f] /\ writes (timer_cancel (push_frame f c)) = [])
    as [-> ->] by (unfold timer_cancel, push_frame; split; fields; [by rewrite q_pre0|done]).
  cbn [existsb mapM]. rewrite (built_wire f i p) by done.
  cbn [mbind outcome_bind mret outcome_ret concat]. rewrite app_nil_r. do 3 f_equal.
  transitivity (timer_cancel ((push_frame f c) <| pre_vector := [] |>)); [done|]. by rewrite push_pop.
Qed.

Lemma send_quiet c f i p : quiet c -> built f i p -> info_ok i ->
  handleWrite (push_frame f c) = Val (sending (header_bytes i ++ p) c).
Proof. intros [Hq Hr]%reading_quiet Hb Hi. rewrite handleWrite_reading. by apply send_reading. Qed.

Lemma goaway_quiet c latest code : quiet c -> is_u 32 latest -> is_u 32 code ->
  goaway latest code c = Val (sending (header_bytes (FrameInfo 8 FRAME_TYPE_GOAWAY 0 0) ++ be_bytes 4 latest ++ be_bytes 4 code) c).
Proof.
  intros Hq Hl Hc. unfold goaway, writeGoawayFrame. cbn [length repeat]. rewrite app_nil_r.
  assert (zlen (be_bytes 4 latest ++ be_bytes 4 code) = 8) as Hz by (by rewrite zlen_app; unfold zlen; rewrite !be_bytes_length).
  destruct (small_frame_spec FRAME_TYPE_GOAWAY 0 0 (be_bytes 4 latest ++ be_bytes 4 code)) as (f & -> & Hb);
    [zeval|zeval|zeval|lia|].
  rewrite bind_Val. rewrite Hz in Hb. apply send_quiet; [done|exact Hb|].
  split_and!; cbn; zeval.
Qed.

(** PING. A frame of eight bytes without ACK is answered with the same eight bytes
    and ACK, and nothing else changes: the connection goes on reading. *)
Theorem http2_ping_echo (c : Conn) (flags : Z) (data : bytes) :
  quiet c -> frame c = FrameInfo 8 FRAME_TYPE_PING flags 0 -> Z.land flags SETTINGS_FLAGS_ACK = 0 ->
  zlen data = 8 -> ztake 8 (temp_buffer c) = data ->
  handlePingFrame c =
    Val (sending (header_bytes (FrameInfo 8 FRAME_TYPE_PING SETTINGS_FLAGS_ACK 0) ++ data) (timer_cancel c)).
Proof.
  intros Hq Hf Hfl Hd Hb. unfold handlePingFrame, fr_flag.
  assert (frame (timer_cancel c) = frame c) as -> by (unfold timer_cancel; by fields).
  rewrite Hf. cbn [fr_ident fr_length fr_flags]. rewrite Hfl. cbn [Z.eqb negb]. unfold buffer_at.
  assert (temp_buffer (timer_cancel c) = temp_buffer c) as -> by (unfold timer_cancel; by fields).
  assert (8 <= zlen (temp_buffer c)) as Hl.
  { destruct (Z.le_ge_cases 8 (zlen (temp_buffer c))); [done|]. rewrite ztake_ge in Hb by done. congruence. }
  rewrite memread_Val, bind_Val by lia. unfold slice. rewrite zdrop_0, Hb by lia.
  destruct (small_frame_spec FRAME_TYPE_PING SETTINGS_FLAGS_ACK 0 data) as (f & -> & Hbu); [zeval..|lia|].
  rewrite bind_Val. rewrite Hd in Hbu. apply send_quiet; [|exact Hbu|split_and!; zeval].
  destruct Hq. unfold timer_cancel. by split; fields.
Qed.

Lemma http2_ping_echo_witness :
  handlePingFrame ((new_conn 0) <| frame := FrameInfo 8 FRAME_TYPE_PING 0 0 |>) =
  Val (sending (header_bytes (FrameInfo 8 FRAME_TYPE_PING 1 0) ++ [0; 0; 0; 0; 0; 0; 0; 0])
         (timer_cancel ((new_conn 0) <| frame := FrameInfo 8 FRAME_TYPE_PING 0 0 |>))).
Proof.
  apply (http2_ping_echo ((new_conn 0) <| frame := FrameInfo 8 FRAME_TYPE_PING 0 0 |>) 0 [0; 0; 0; 0; 0; 0; 0; 0]);
    [by split|reflexivity..].
Defined.

(** ** Settings *)

(** The settings applied one after another, up to the first that is refused. *)
Fixpoint apply_settings (values : list (Z * Z)) (c : Conn) : outcome (Z * Conn) :=
  match values with
  | [] => Val (0, c)
  | (key, value) :: values =>
      r ← apply_setting key value c;
      match r with inl code => Val (code, c) | inr c => apply_settings values c end
  end.

Lemma be_bytes_2 k : be_bytes 2 k = [k / 256 mod 256; k mod 256].
Proof. reflexivity. Qed.

Lemma settings_loop_payload values : forall c,
  Forall (fun v => is_u 16 (fst v) /\ is_u 32 (snd v)) values ->
  settings_loop (settings_payload values) c = apply_settings values c.
Proof.
  induction values as [|[k v] values IH]; intros c Hv; [done|]. inversion Hv as [|? ? [Hk Hw] Hvs]; subst. cbn [fst snd] in *.
  change (settings_payload ((k, v) :: values)) with ((be_bytes 2 k ++ be_bytes 4 v) ++ settings_payload values).
  rewrite be_bytes_2, be_bytes_4. cbn [app settings_loop apply_settings]. rewrite be32_bytes, wrap_small by done.
  replace (k / 256 mod 256 * 256 + k mod 256) with k
    by (unfold is_u in Hk; rewrite (Z.mod_small (k / 256)) by dlia; pose proof (Z.div_mod k 256); lia).
  destruct (apply_setting k v c) as [[code|c']|]; [done| |done]. rewrite !bind_Val. by apply IH.
Qed.

(** A SETTINGS frame for the connection whose payload is in the buffer. *)
Definition holds_settings (c : Conn) (values : list (Z * Z)) : Prop :=
  Forall (fun v => is_u 16 (fst v) /\ is_u 32 (snd v)) values /\
  fr_ident (frame c) = 0 /\ Z.land (fr_flags (frame c)) SETTINGS_FLAGS_ACK = 0 /\
  fr_length (frame c) = 6 * zlen values /\ fr_length (frame c) <= zlen (temp_buffer c) /\
  ztake (fr_length (frame c)) (temp_buffer c) = settings_payload values.

Lemma handle_settings c values : holds_settings c values -> handleSettingsFrame c = apply_settings values c.
Proof.
  intros (Hv & Hid & Hfl & Hl & Hb & Hp). unfold handleSettingsFrame, fr_flag. rewrite Hid, Hfl. cbn [Z.eqb negb].
  replace (fr_length (frame c) mod 6) with 0 by (rewrite Hl, Z.mul_comm, Z.mod_mul; lia). cbn [Z.eqb negb].
  unfold buffer_at. pose proof (zlen_nonneg values).
  rewrite memread_Val, bind_Val by lia. unfold slice. rewrite zdrop_0, Hp by lia. by apply settings_loop_payload.
Qed.

(** the payload that [writeSettingsFrame] writes is what [handleSettingsFrame] reads:
    any list of settings in a frame is applied in order, up to the first that is refused;
    the code is zero when none is. *)
Theorem http2_settings_roundtrip (c : Conn) (values : list (Z * Z)) :
  holds_settings c values -> handleSettingsFrame c = apply_settings values c.
Proof. apply handle_settings. Qed.

Definition settings_conn (values : list (Z * Z)) : Conn :=
  (new_conn 0) <| frame := FrameInfo (6 * zlen values) FRAME_TYPE_SETTINGS 0 0 |>
    <| temp_buffer := settings_payload values |>.

Lemma http2_settings_roundtrip_witness :
  handleSettingsFrame (settings_conn settings_values) = apply_settings settings_values (settings_conn settings_values) /\
  exists c, apply_settings settings_values (settings_conn settings_values) = Val (0, c) /\
    header_table_size c = 8192 /\ max_concurrent_stream c = 16 /\ max_frame_size c = 16384.
Proof.
  split; [|eexists; split; [vm_compute; reflexivity|vm_compute; repeat split]].
  apply (http2_settings_roundtrip (settings_conn settings_values) settings_values).
  split_and!; [repeat constructor; vm_compute; congruence|reflexivity..|vm_compute; congruence|reflexivity].
Defined.

(** A refused SETTINGS frame. The code that [handleSettingsFrame] returns is dropped:
    no GOAWAY frame is queued and the next frame is not read, so a connection that is not
    writing waits for nothing any more. *)
Theorem http2_settings_error_dropped `{FileSystem} (sv : Service) (c c' : Conn) (code : Z) :
  fr_type (frame c) = FRAME_TYPE_SETTINGS -> zfind (fr_ident (frame c)) (streams c) = None ->
  handleSettingsFrame c = Val (code, c') -> code <> 0 -> code <> 255 ->
  handleFrameHeader sv c = Val c' /\ reads c' = reads c /\ writes c' = writes c /\ pre_vector c' = pre_vector c.
Proof.
  intros Ht Hz Hs H0 H1. unfold handleFrameHeader. rewrite Hz, Ht, Hs, !bind_Val. cbn [andb negb].
  change (FRAME_TYPE_SETTINGS =? FRAME_TYPE_SETTINGS) with true. cbn [negb andb].
  rewrite (proj2 (Z.eqb_neq _ _) H0), (proj2 (Z.eqb_neq _ _) H1). split; [done|].
  revert Hs. unfold handleSettingsFrame.
  assert (forall input c1 code' c2, settings_loop input c1 = Val (code', c2) ->
    reads c2 = reads c1 /\ writes c2 = writes c1 /\ pre_vector c2 = pre_vector c1) as L.
  { fix IH 1. intros input c1 code' c2 E.
    do 6 (destruct input as [|? input]; [by injection E as <- <-|]). cbn [settings_loop] in E.
    apply bind_Val_inv in E as (r & Hr & E).
    assert (match r with inl _ => True | inr c3 => reads c3 = reads c1 /\ writes c3 = writes c1 /\ pre_vector c3 = pre_vector c1 end) as R.
    { destruct r as [|c3]; [done|]. revert Hr. unfold apply_setting. repeat case_match; intros E';
        repeat (apply bind_Val_inv in E' as (? & _ & E')); try discriminate E'; injection E' as <-; try done; by fields. }
    destruct r as [code1|c3]; [by injection E as <- <-|]. destruct R as (<- & <- & <-). eauto. }
  repeat case_match; intros E; try (injection E as <- <-; fields; done).
  apply bind_Val_inv in E as (input & _ & E). eauto.
Qed.

Lemma http2_settings_error_dropped_witness :
  let c := settings_conn [(SETTINGS_ENABLE_PUSH, 2)] in
  handleFrameHeader example_service c = Val c /\ reads c = reads c /\ writes c = writes c /\ pre_vector c = pre_vector c.
Proof.
  apply (http2_settings_error_dropped example_service _ _ GOAWAY_PROTOCOL_ERROR); try reflexivity; discriminate.
Defined.

(** ** Streams that are refused *)

(** HEADERS and DATA frames on a closed stream are answered with a GOAWAY frame that
    names the stream and STREAM_CLOSED. *)
Theorem http2_closed_stream `{FileSystem} (sv : Service) (c : Conn) :
  quiet c -> fr_ident (frame c) ∈ closed_streams c -> is_u 31 (fr_ident (frame c)) -> fr_ident (frame c) mod 2 = 1 ->
  expect_ack c = false ->
  let answer := Val (sending (header_bytes (FrameInfo 8 FRAME_TYPE_GOAWAY 0 0) ++ be_bytes 4 (fr_ident (frame c)) ++
                              be_bytes 4 GOAWAY_STREAM_CLOSED) (timer_cancel c)) in
  handleHeadersFrame sv c = answer /\ handleDataFrame sv c = answer.
Proof.
  intros Hq Hcl Hid Hodd Hack answer.
  assert (frame (timer_cancel c) = frame c /\ closed_streams (timer_cancel c) = closed_streams c /\
    expect_ack (timer_cancel c) = expect_ack c) as (Ef & Ec & Ea) by (unfold timer_cancel; by fields).
  assert (quiet (timer_cancel c)) as Hq' by (destruct Hq; unfold timer_cancel; by split; fields).
  assert (bad_ident c = false) as Hb.
  { unfold bad_ident. rewrite Hodd. apply orb_false_iff. split; [|done]. apply Z.eqb_neq. intros E. by rewrite E in Hodd. }
  unfold is_u in Hid.
  unfold handleHeadersFrame, handleDataFrame, bad_ident, is_closed. rewrite Ef, Ec, Ea, Hack. fold (bad_ident c). rewrite Hb.
  rewrite bool_decide_eq_true_2 by done. subst answer.
  split; (apply goaway_quiet; [done|unfold is_u; lia|zeval]).
Qed.

Definition closed_conn : Conn :=
  (new_conn 0) <| frame := FrameInfo 0 FRAME_TYPE_DATA 0 5 |> <| closed_streams := {[5]} |>.

Lemma http2_closed_stream_witness :
  let answer := Val (sending (header_bytes (FrameInfo 8 FRAME_TYPE_GOAWAY 0 0) ++ be_bytes 4 (fr_ident (frame closed_conn)) ++
                              be_bytes 4 GOAWAY_STREAM_CLOSED) (timer_cancel closed_conn)) in
  handleHeadersFrame example_service closed_conn = answer /\ handleDataFrame example_service closed_conn = answer.
Proof.
  apply (http2_closed_stream example_service closed_conn); unfold closed_conn; fields.
  - split; fields; done.
  - set_solver.
  - split; zeval.
  - reflexivity.
  - reflexivity.
Defined.

(** ** Reads in pieces *)

(** Reads complete in order on the only pending read. *)
Fixpoint deliver `{FileSystem} (sv : Service) (pieces : list bytes) (c : Conn) : option (outcome Conn) :=
  match pieces with
  | [] => Some (Val c)
  | [p] => step sv c (ReadSome 0 p)
  | p :: pieces => o ← step sv c (ReadSome 0 p); match o with Val c => deliver sv pieces c | Undef => Some Undef end
  end.

Lemma memcpy_twice mem off p q m1 m2 : 0 <= off -> memcpy mem off p = Val m1 -> memcpy m1 (off + zlen p) q = Val m2 ->
  memcpy mem off (p ++ q) = Val m2.
Proof.
  intros Ho E1 E2. pose proof (memcpy_zlen _ _ _ _ E1) as Hz. unfold memcpy in E1, E2.
  ifcase_in E2; [|done]. ifcase_in E1; [|done]. injection E1 as <-. injection E2 as <-.
  pose proof (zlen_nonneg p). pose proof (zlen_nonneg q). rewrite memcpy_Val by (rewrite ?zlen_app; lia). f_equal.
  assert (zlen (ztake off mem ++ p) = off + zlen p) as Hp by (rewrite zlen_app, zlen_ztake; lia).
  rewrite (app_assoc (ztake off mem) p (zdrop _ mem)).
  rewrite ztake_app_le, (ztake_ge (off + zlen p)), zdrop_app_ge, Hp, zdrop_zdrop, zlen_app, <- !app_assoc by (rewrite ?Hp; lia).
  do 4 f_equal. lia.
Qed.

Lemma read_some_piece `{FileSystem} (sv : Service) c rd p q : reads c = [rd] -> 0 <= rd_off rd -> 0 < zlen q ->
  zlen p + zlen q <= rd_len rd -> rd_off rd + rd_len rd <= zlen (temp_buffer c) ->
  exists c1 rd1, read_some sv 0 rd p c = Val c1 /\ reads c1 = [rd1] /\ socket_open c1 = socket_open c /\
    rd_off rd1 = rd_off rd + zlen p /\ rd_len rd1 = rd_len rd - zlen p /\ zlen (temp_buffer c1) = zlen (temp_buffer c) /\
    read_some sv 0 rd1 q c1 = read_some sv 0 rd (p ++ q) c.
Proof.
  intros Hr Ho Hq Hl Hb. pose proof (zlen_nonneg p). unfold read_some.
  destruct (memcpy (temp_buffer c) (rd_off rd) p) as [m1|] eqn:Em; [|rewrite memcpy_Val in Em by lia; done].
  pose proof (memcpy_zlen _ _ _ _ Em) as Hz. rewrite bind_Val, (proj2 (Z.eqb_neq (zlen p) (rd_len rd))) by lia.
  eexists _, (MkRead (rd_off rd + zlen p) (rd_len rd - zlen p) (rd_k rd)). cbn [rd_off rd_len rd_k]. split; [reflexivity|].
  unfold readBlock. split_and!; [fields; by rewrite Hr|by fields|done|done|by fields|]. fields.
  destruct (memcpy m1 (rd_off rd + zlen p) q) as [m2|] eqn:Em2; [|rewrite memcpy_Val in Em2 by lia; done].
  rewrite (memcpy_twice _ _ p q m1 m2), !bind_Val, zlen_app by done. clear Em Em2.
  destruct c. cbn in Hr. subst.
  replace (zlen p + zlen q =? rd_len rd) with (zlen q =? rd_len rd - zlen p)
    by (destruct (_ =? _) eqn:?; symmetry; zbool; [apply Z.eqb_eq|apply Z.eqb_neq]; lia).
  destruct (_ =? _); [reflexivity|].
  rewrite <- Z.add_assoc, <- Z.sub_add_distr. reflexivity.
Qed.

(** C34: [readBlock] hides how the socket cuts its input: when the bytes asked for arrive in
    any number of non-empty pieces, the connection ends in the state in which one piece with
    all of them leaves it. *)
Theorem http2_read_pieces `{FileSystem} (sv : Service) (pieces : list bytes) : forall (c : Conn) (rd : PendingRead),
  reads c = [rd] -> 0 <= rd_off rd -> rd_off rd + rd_len rd <= zlen (temp_buffer c) -> socket_open c = true ->
  Forall (fun p => p <> []) pieces -> pieces <> [] -> zlen (concat pieces) = rd_len rd ->
  deliver sv pieces c = step sv c (ReadSome 0 (concat pieces)).
Proof.
  induction pieces as [|p pieces IH]; intros c rd Hr Ho Hb Hopen Hne Hn Hz; [done|].
  destruct pieces as [|p' pieces]; [cbn [deliver concat]; by rewrite app_nil_r|].
  inversion Hne as [|? ? Hp Hne']; subst. inversion Hne' as [|? ? Hp' _]; subst.
  change (concat (p :: p' :: pieces)) with (p ++ concat (p' :: pieces)) in *. set (q := concat (p' :: pieces)) in *.
  change (deliver sv (p :: p' :: pieces) c) with
    (o ← step sv c (ReadSome 0 p); match o with Val c => deliver sv (p' :: pieces) c | Undef => Some Undef end).
  assert (forall l : bytes, l <> [] -> 0 < zlen l) as Hpos by (intros [|x l] ?; [done|]; rewrite zlen_cons; pose proof (zlen_nonneg l); lia).
  assert (0 < zlen q) as Hq.
  { apply Hpos. subst q. cbn [concat]. by destruct p'. }
  pose proof (Hpos p Hp) as Hp0. rewrite zlen_app in Hz.
  destruct (read_some_piece sv c rd p q Hr Ho Hq) as (c1 & rd1 & E1 & Hr1 & Ho1 & Hoff & Hlen & Htb & E2); [lia..|].
  assert (forall data rd0 c0, reads c0 = [rd0] -> socket_open c0 = true -> 0 < zlen data <= rd_len rd0 ->
    step sv c0 (ReadSome 0 data) = Some (read_some sv 0 rd0 data c0)) as S0.
  { intros data rd0 c0 Hr0 Ho0 Hd. unfold step. rewrite Hr0, Ho0. cbn [lookup list_lookup mbind option_bind].
    by rewrite (proj2 (Z.leb_le _ _)), (proj2 (Z.ltb_lt _ _)) by lia. }
  rewrite (S0 p rd c), E1 by (done || lia). cbn [mbind option_bind].
  rewrite (IH c1 rd1) by (done || lia || congruence).
  rewrite (S0 q rd1 c1), (S0 (p ++ q) rd c), E2 by (done || congruence || (rewrite ?zlen_app; lia)). done.
Qed.

Lemma http2_read_pieces_witness :
  deliver example_service (map (fun b => [b]) MAGIC_STRING) (readMagic (new_conn 0)) =
  step example_service (readMagic (new_conn 0)) (ReadSome 0 (concat (map (fun b => [b]) MAGIC_STRING))).
Proof.
  apply (http2_read_pieces example_service _ (readMagic (new_conn 0)) (MkRead 0 24 KMagic));
    [reflexivity|vm_compute; congruence|vm_compute; congruence|reflexivity|repeat constructor; discriminate|discriminate|reflexivity].
Defined.

(** ** What goes wrong *)

(** C36: the receive window of a stream starts at zero and only a DATA frame makes it
    grow, so a first DATA frame with a payload is answered with FLOW_CONTROL_ERROR: no
    request body can be uploaded that way. *)
Theorem http2_first_data_refused `{FileSystem} (sv : Service) (c : Conn) (a : nat) (s : HttpStream) (w addr : Z) :
  quiet c -> expect_ack c = false -> zfind (fr_ident (frame c)) (streams c) = Some a -> heap c !! a = Some s ->
  st_window_size s = st_window_size (new_stream (fr_ident (frame c)) w addr) -> end_stream s = false -> do_response s = false ->
  is_u 31 (fr_ident (frame c)) -> fr_ident (frame c) mod 2 = 1 -> fr_ident (frame c) ∉ closed_streams c ->
  0 < fr_length (frame c) ->
  exists c1, handleDataFrame sv c = Val (sending (header_bytes (FrameInfo 8 FRAME_TYPE_GOAWAY 0 0) ++
    be_bytes 4 (fr_ident (frame c)) ++ be_bytes 4 GOAWAY_FLOW_CONTROL_ERROR) c1) /\ streams c1 = streams c.
Proof.
  intros Hq Hack Hf Hs Hw He Hd Hid Hodd Hcl Hl. unfold handleDataFrame.
  assert (frame (timer_cancel c) = frame c /\ closed_streams (timer_cancel c) = closed_streams c /\
    expect_ack (timer_cancel c) = expect_ack c /\ streams (timer_cancel c) = streams c /\
    heap (timer_cancel c) = heap c) as (Ef & Ec & Ea & Es & Eh) by (unfold timer_cancel; by fields).
  assert (bad_ident c = false) as Hb.
  { unfold bad_ident. rewrite Hodd. apply orb_false_iff. split; [|done]. apply Z.eqb_neq. intros E. by rewrite E in Hodd. }
  unfold bad_ident, is_closed. rewrite Ef, Ec, Ea, Es, Hack, Hf. fold (bad_ident c).
  rewrite Hb, bool_decide_eq_false_2 by done. unfold get_stream. rewrite Eh, Hs. cbn [of_option]. rewrite bind_Val, He, bind_Val.
  unfold upd_stream. fields. rewrite Eh, Ef, list_lookup_alter_eq, Hs. cbn [option_fmap option_map fmap of_option].
  rewrite bind_Val. fields. rewrite Hw. cbn [st_window_size new_stream].
  rewrite (proj2 (Z.gtb_lt (fr_length (frame c)) 0)), orb_true_r by done.
  eexists. split; [apply goaway_quiet|].
  - destruct Hq. split; unfold timer_cancel; fields; try done.
    eapply Forall_impl; [exact q_idle0|]. intros e (s0 & H0 & H1).
    destruct (decide (snd e = a)) as [E|E].
    + rewrite E, Hs in *. injection H0 as <-. rewrite list_lookup_alter_eq, Hs. eexists. split; [done|]. by fields.
    + exists s0. by rewrite list_lookup_alter_ne.
  - unfold is_u in *. lia.
  - zeval.
  - fields. exact Es.
Qed.

Definition post_conn : Conn :=
  (new_conn 0) <| frame := FrameInfo 1 FRAME_TYPE_DATA 1 1 |> <| heap := [new_stream 1 65535 0] |> <| streams := [(1, 0%nat)] |>.

Lemma http2_first_data_refused_witness : exists c1,
  handleDataFrame example_service post_conn = Val (sending (header_bytes (FrameInfo 8 FRAME_TYPE_GOAWAY 0 0) ++
    be_bytes 4 (fr_ident (frame post_conn)) ++ be_bytes 4 GOAWAY_FLOW_CONTROL_ERROR) c1) /\ streams c1 = streams post_conn.
Proof.
  apply (http2_first_data_refused example_service post_conn 0 (new_stream 1 65535 0) 65535 0); unfold post_conn; fields;
    [|reflexivity..|split; zeval|reflexivity|set_solver|reflexivity].
  split; fields; [reflexivity..|]. constructor; [|constructor]. by exists (new_stream 1 65535 0).
Defined.

(** C37: The buffer holds 16384 bytes, but frames are accepted up to the length that the
    peer announced in SETTINGS_MAX_FRAME_SIZE: the payload of a longer frame is written
    past the end of the buffer. *)
Theorem http2_frame_overflow `{FileSystem} (sv : Service) (c : Conn) (size : Z) (i : Http2FrameInfo) (data : bytes) :
  zlen (temp_buffer c) = MAX_FRAME_SIZE -> MAX_FRAME_SIZE < fr_length i -> fr_length i <= size -> size <= 16777215 ->
  info_ok i -> zlen data = fr_length i ->
  exists c1, apply_setting SETTINGS_MAX_FRAME_SIZE size c = Val (inr c1) /\
  forall c2 m, c2 = c1 <| temp_buffer := header_bytes i ++ m |> -> zlen (header_bytes i ++ m) = MAX_FRAME_SIZE ->
  exists c3 rd, header_done c2 = Val c3 /\ reads c3 = reads c2 ++ [rd] /\ rd = MkRead 0 (fr_length i) KPayload /\
    read_some sv (length (reads c2)) rd data c3 = Undef.
Proof.
  intros Hz Hlt Hle Hmax Hi Hd. unfold apply_setting. cbn -[Z.ltb Z.gtb]. unfold MAX_FRAME_SIZE in *.
  assert ((size >? 16777215) || (size <? 16384) = false) as -> by (apply orb_false_iff; split; [rewrite Z.gtb_ltb|]; apply Z.ltb_ge; lia).
  eexists. split; [reflexivity|]. intros c2 m -> Hm. unfold header_done. fields. rewrite parse_header_bytes, bind_Val by done.
  fields. rewrite (proj2 (Z.ltb_ge size (fr_length i)) Hle) || rewrite Z.gtb_ltb, (proj2 (Z.ltb_ge size (fr_length i)) Hle).
  eexists _, _. split; [reflexivity|]. unfold readBlock. split; [by fields|]. split; [done|].
  unfold read_some. cbn [rd_off]. fields. unfold memcpy.
  rewrite (proj2 (Z.leb_gt (0 + zlen data) _)), andb_false_r by lia. done.
Qed.

Lemma http2_frame_overflow_witness :
  exists c1, apply_setting SETTINGS_MAX_FRAME_SIZE 20000 (new_conn 0) = Val (inr c1) /\
  forall c2 m, c2 = c1 <| temp_buffer := header_bytes (FrameInfo 20000 0 0 1) ++ m |> ->
    zlen (header_bytes (FrameInfo 20000 0 0 1) ++ m) = MAX_FRAME_SIZE ->
  exists c3 rd, header_done c2 = Val c3 /\ reads c3 = reads c2 ++ [rd] /\ rd = MkRead 0 20000 KPayload /\
    read_some example_service (length (reads c2)) rd (repeat 0 (Z.to_nat 20000)) c3 = Undef.
Proof.
  apply (http2_frame_overflow example_service (new_conn 0) 20000 (FrameInfo 20000 0 0 1));
    [reflexivity|reflexivity|vm_compute; congruence|vm_compute; congruence|split_and!; zeval|reflexivity].
Defined.

(** A GOAWAY frame shorter than eight bytes makes the length of its message wrap
    around: the code builds a string from four gigabytes after the buffer. *)
Theorem http2_short_goaway (c : Conn) :
  zlen (temp_buffer c) = MAX_FRAME_SIZE -> fr_ident (frame c) = 0 -> zfind 0 (streams c) = None ->
  0 <= fr_length (frame c) < 8 -> handleGoawayFrame c = Undef.
Proof.
  intros Hz Hi Hf Hl. unfold handleGoawayFrame. rewrite Hi, Hf. cbn [Z.eqb negb].
  assert (u32 (fr_length (frame c) - 8) = fr_length (frame c) - 8 + 2 ^ 32) as ->.
  { unfold wrap. symmetry. apply (Z.mod_unique_pos _ _ (-1)); lia. }
  rewrite (proj2 (Z.eqb_neq _ _)) by lia. cbn [negb]. unfold buffer_at, memread. unfold MAX_FRAME_SIZE in Hz.
  by rewrite (proj2 (Z.leb_gt _ (zlen (temp_buffer c)))), andb_false_r by lia.
Qed.

Lemma http2_short_goaway_witness :
  handleGoawayFrame ((new_conn 0) <| frame := FrameInfo 4 FRAME_TYPE_GOAWAY 0 0 |>) = Undef.
Proof.
  apply (http2_short_goaway ((new_conn 0) <| frame := FrameInfo 4 FRAME_TYPE_GOAWAY 0 0 |>)); fields;
    [reflexivity..|cbn; lia].
Defined.

(** Replenishing the window of a stream starts a read of the next header from
    [handleWrite], and the end of [handleDataFrame] starts another: two reads of nine bytes
    into the same buffer are pending at once. *)
Theorem http2_double_read `{FileSystem} (sv : Service) (c : Conn) (a : nat) (s : HttpStream) :
  quiet c -> is_read c = false -> expect_ack c = false ->
  zfind (fr_ident (frame c)) (streams c) = Some a -> heap c !! a = Some s ->
  st_id s = fr_ident (frame c) -> end_stream s = false -> do_response s = false ->
  is_u 31 (fr_ident (frame c)) -> fr_ident (frame c) mod 2 = 1 -> fr_ident (frame c) ∉ closed_streams c ->
  Z.land (fr_flags (frame c)) FRAME_FLAG_PADDED = 0 -> Z.land (fr_flags (frame c)) FRAME_FLAG_END_STREAM = 0 ->
  0 <= fr_length (frame c) <= st_window_size s -> st_window_size s - fr_length (frame c) < 32767 ->
  st_window_size s < 2 ^ 32 -> 32767 <= window_size c - fr_length (frame c) < 2 ^ 32 ->
  fr_length (frame c) <= zlen (temp_buffer c) -> ByteBuffer.valid (rq_body (request (base s))) ->
  exists c', handleDataFrame sv c = Val c' /\ reads c' = reads c ++ [MkRead 0 9 KHeader; MkRead 0 9 KHeader].
Proof.
  intros Hq Hr Hack Hf Hs Hids He Hd Hid Hodd Hcl Hpad Hend Hl Hlow Hs32 Hw Htb Hbody. unfold handleDataFrame.
  assert (bad_ident c = false) as Hb.
  { unfold bad_ident. rewrite Hodd. apply orb_false_iff. split; [|done]. apply Z.eqb_neq. intros E. by rewrite E in Hodd. }
  unfold bad_ident, is_closed, timer_cancel, get_stream, upd_stream. fields. fold (bad_ident c).
  rewrite Hack, Hb, bool_decide_eq_false_2, Hf, Hs by done. cbn [of_option]. rewrite bind_Val, He, bind_Val. fields.
  rewrite list_lookup_alter_eq, Hs. cbn [option_fmap option_map fmap of_option]. rewrite bind_Val. fields.
  rewrite !Z.gtb_ltb, (proj2 (Z.ltb_ge (window_size c) _)), (proj2 (Z.ltb_ge (st_window_size s) _)) by lia. cbn [orb].
  rewrite (wrap_small 32 (window_size c - _)) by (unfold is_u; lia).
  change (INIT_WINDOW_SIZE / 2) with 32767. rewrite (proj2 (Z.ltb_ge (window_size c - _) _)) by lia. rewrite bind_Val. fields.
  rewrite !list_lookup_alter_eq, Hs. cbn [option_fmap option_map fmap of_option]. rewrite bind_Val. fields.
  rewrite (wrap_small 32 (st_window_size s - _)) by (unfold is_u; lia).
  rewrite (proj2 (Z.ltb_lt (st_window_size s - _) 32767)) by lia.
  set (c1 := update heap _ _).
  assert (quiet c1) as Hq1.
  { destruct Hq. subst c1. split; fields; try done. eapply Forall_impl; [exact q_idle0|]. intros e (s0 & H0 & H1).
    destruct (decide (snd e = a)) as [E|E].
    - rewrite E, Hs in *. injection H0 as <-. rewrite !list_lookup_alter_eq, Hs. eexists. split; [done|]. by fields.
    - exists s0. by rewrite !list_lookup_alter_ne. }
  unfold writeWindowUpdateFrame.
  destruct (small_frame_spec FRAME_TYPE_WINDOW_UPDATE 0 (st_id s) (be_bytes 4 INIT_WINDOW_SIZE)) as (f & -> & Hbu);
    [zeval|zeval|by rewrite Hids|unfold zlen; rewrite be_bytes_length; lia|].
  rewrite bind_Val, (send_quiet c1 f _ _ Hq1 Hbu), !bind_Val
    by (split_and!; cbn; rewrite ?Hids; (exact Hid || zeval)).
  unfold data_payload, get_stream, fr_flag, sending, reading, writeBlocks, checkKeepalive, timer_cancel.
  assert (is_read c1 = false) as -> by (subst c1; by fields).
  unfold readFrameHeader, readBlock. fields. subst c1. fields.
  rewrite !list_lookup_alter_eq, Hs. cbn [option_fmap option_map fmap of_option]. rewrite bind_Val, Hpad. fields. cbn [Z.eqb negb].
  rewrite bind_Val, Z.gtb_ltb, (proj2 (Z.ltb_ge (fr_length _) 0)) by lia.
  case_bool_decide.
  - rewrite bind_Val. unfold data_end, fr_flag. fields. rewrite Hend. cbn [Z.eqb negb]. eexists. split; [reflexivity|].
    unfold readFrameHeader, readBlock. fields. by rewrite <- app_assoc.
  - unfold buffer_at. fields. rewrite Z.sub_0_r, Z.sub_0_r, (wrap_small 32) by (unfold is_u in *; lia).
    rewrite memread_Val, bind_Val by lia.
    destruct (ByteBuffer.chain_write_spec _ (slice 0 (fr_length (frame c)) (temp_buffer c)) Hbody) as (tb & -> & _).
    rewrite !bind_Val. unfold data_end, fr_flag, upd_stream. fields. rewrite Hend. cbn [Z.eqb negb].
    eexists. split; [reflexivity|]. unfold readFrameHeader, readBlock. fields. by rewrite <- app_assoc.
Qed.

Definition upload_conn : Conn :=
  (new_conn 0) <| frame := FrameInfo 0 FRAME_TYPE_DATA 0 1 |> <| heap := [new_stream 1 65535 0] |> <| streams := [(1, 0%nat)] |>.

Lemma http2_double_read_witness :
  exists c', handleDataFrame example_service upload_conn = Val c' /\
    reads c' = reads upload_conn ++ [MkRead 0 9 KHeader; MkRead 0 9 KHeader].
Proof.
  apply (http2_double_read example_service upload_conn 0 (new_stream 1 65535 0)).
  1: split; [reflexivity..|]; constructor; [|constructor]; by exists (new_stream 1 65535 0).
  18: apply (ByteBuffer.create_valid 8192 1024); lia.
  all: first [reflexivity|split; zeval|zeval|unfold upload_conn; fields; set_solver].
Defined.
