(* ===== verification/Http2Invariant.v ===== *)
(** * The invariant of an HTTP/2 connection

    What holds in every state that a connection can reach, whatever the peer sends and
    whatever the application does: the sizes of its buffer and frames, its window, its
    streams, and the form of everything it sends. Each handler keeps the invariant; the
    theorem is by induction on the events. *)

From stdpp Require Import gmap.
From S2P Require Import Prelude Streams Words ByteBuffer DynamicTable Http2Frame HPack Request HttpService.
From S2P Require Import Http2Connection Http2Delivery.

(** ** Frames *)

(** A frame that can be sent: no longer than every peer accepts. *)
Definition frame_ok (f : Http2Frame) : Prop :=
  info_ok (fr_info f) /\ fr_length (fr_info f) <= MAX_FRAME_SIZE /\ exists payload, built f (fr_info f) payload.

(** A sequence of such frames on the wire. *)
Definition frames_ok (wire : bytes) : Prop :=
  exists ds, wire = concat (map frame_bytes ds) /\
    Forall (fun d => info_ok (fst d) /\ zlen (snd d) = fr_length (fst d) /\ zlen (snd d) <= MAX_FRAME_SIZE) ds.

Lemma frame_ok_wire f : frame_ok f -> exists p, wire_bytes f = Val (frame_bytes (fr_info f, p)) /\
  info_ok (fr_info f) /\ zlen p = fr_length (fr_info f) /\ zlen p <= MAX_FRAME_SIZE.
Proof.
  intros (Hi & Hl & p & Hb). exists p. unfold frame_bytes. cbn [fst snd]. rewrite (built_wire f (fr_info f) p) by done.
  split; [done|]. destruct Hb as (_ & Hz & _).
  split_and!; [done|done|lia].
Qed.

Lemma frame_ok_frames f : frame_ok f -> results frames_ok (wire_bytes f).
Proof.
  intros (p & -> & Hi & Hz & Hl)%frame_ok_wire. exists [(fr_info f, p)]. cbn [map concat]. rewrite app_nil_r.
  by split; [|constructor].
Qed.

Lemma frames_ok_app w1 w2 : frames_ok w1 -> frames_ok w2 -> frames_ok (w1 ++ w2).
Proof.
  intros (d1 & -> & H1) (d2 & -> & H2). exists (d1 ++ d2). rewrite map_app, concat_app. split; [done|]. by apply Forall_app.
Qed.

Lemma frames_ok_all l : Forall frame_ok l -> results (fun ws => frames_ok (concat ws)) (mapM wire_bytes l).
Proof.
  induction 1 as [|f l Hf _ IH]; [by exists []|]. cbn [mapM].
  eapply results_bind; [by apply frame_ok_frames|]. intros w Hw. eapply results_bind; [exact IH|]. intros ws Hws.
  cbn [results mret outcome_ret concat]. by apply frames_ok_app.
Qed.

Lemma small_frame_ok type flags ident payload :
  is_byte type -> is_byte flags -> is_u 31 ident -> zlen payload <= MAX_FRAME_SIZE ->
  results frame_ok (small_frame type flags ident payload).
Proof.
  intros Ht Hf Hi Hp. unfold MAX_FRAME_SIZE in *. pose proof (zlen_nonneg payload).
  destruct (small_frame_spec type flags ident payload) as (f & -> & Hb); [done..|lia|].
  pose proof Hb as (E & _). cbn [results]. unfold frame_ok. rewrite E. split_and!; [split_and!; cbn; (done || lia)|cbn; unfold MAX_FRAME_SIZE; lia|eauto].
Qed.

(** A frame under construction, with memory for a whole payload. *)
Record draft (len id : Z) (f : Http2Frame) : Prop := {
  w_room : zlen (fr_mem f) = MAX_FRAME_SIZE + 9;
  w_length : fr_length (fr_info f) = len;
  w_type : is_byte (fr_type (fr_info f));
  w_flags : is_byte (fr_flags (fr_info f));
  w_ident : fr_ident (fr_info f) = id }.

Lemma draft_write len id f off data : draft len id f ->
  results (fun f' => draft len id f' /\ off + zlen data <= MAX_FRAME_SIZE) (write_content f off data).
Proof.
  intros []. unfold write_content. destruct (memcpy _ _ _) as [m|] eqn:E; [|done]. cbn [mbind outcome_bind results].
  split; [split; fields; try done; by rewrite (memcpy_zlen _ _ _ _ E)|].
  unfold memcpy in E. ifcase_in E; [|done]. lia.
Qed.

Lemma draft_length len len' id f : draft len id f -> 0 <= len' <= MAX_FRAME_SIZE -> draft len' id (set_length len' f).
Proof.
  intros [] Hl. unfold set_length, MAX_FRAME_SIZE in *. split; fields; try done. apply wrap_small. unfold is_u. lia.
Qed.

Lemma draft_flag len id f fl b : draft len id f -> is_byte fl -> draft len id (add_flag fl b f).
Proof.
  intros [] Hf. unfold add_flag. destruct b; [|done]. split; fields; try done.
  apply bits_is_u; [lia| |].
  - apply Z.lor_nonneg. unfold is_u in *. lia.
  - intros i Hi. by rewrite Z.lor_spec, (is_u_bits 8), (is_u_bits 8) by (done || lia).
Qed.

Lemma draft_build len id f : draft len id f -> 0 <= len <= MAX_FRAME_SIZE -> is_u 31 id ->
  results frame_ok (buildFrameHeader f).
Proof.
  intros [] Hl Hid. destruct f as [i m]. cbn [fr_info fr_mem] in *. unfold MAX_FRAME_SIZE in *.
  rewrite <- (ztake_zdrop 9 m). rewrite buildFrameHeader_spec by (apply zlen_ztake; lia). cbn [results].
  unfold frame_ok. cbn [fr_info]. split; [split_and!; try done; try (rewrite w_ident0; apply Hid); lia|].
  split; [unfold MAX_FRAME_SIZE; lia|]. exists (ztake len (zdrop 9 m)).
  split; [done|]. split; [rewrite zlen_ztake; rewrite ?zlen_zdrop; lia|].
  exists (zdrop len (zdrop 9 m)). cbn [fr_mem fr_info]. by rewrite ztake_zdrop.
Qed.

Lemma results_and {A} (P Q : A -> Prop) (m : outcome A) : results P m -> results Q m -> results (fun a => P a /\ Q a) m.
Proof. by destruct m. Qed.

Lemma build_info f : results (fun f' => fr_info f' = fr_info f) (buildFrameHeader f).
Proof. unfold buildFrameHeader. do 4 any_first. cbn [results]. by fields. Qed.

(** The payload of a frame whose header is there. *)
Lemma write_built_ok f data : frame_ok f -> zlen data <= fr_length (fr_info f) -> results frame_ok (write_content f 0 data).
Proof.
  intros (Hi & Hl & p & Hb & Hp & r & Hm) Hd. unfold write_content. rewrite Hm.
  pose proof (zlen_nonneg data). pose proof (zlen_nonneg r).
  rewrite <- (ztake_zdrop (zlen data) p), <- app_assoc, memcpy_over, bind_Val
    by (rewrite ?header_bytes_zlen, ?zlen_ztake; lia).
  cbn [results]. unfold frame_ok. fields. split; [done|]. split; [done|]. exists (data ++ zdrop (zlen data) p).
  split; [done|]. split; [rewrite zlen_app, zlen_zdrop; lia|]. exists r. fields. by rewrite <- app_assoc.
Qed.

(** ** Frames of a round *)

(** The streams of peers have odd identifiers. *)
Definition odd_id (id : Z) : Prop := is_u 31 id /\ id mod 2 = 1.
Definition stream_ok (s : HttpStream) : Prop := odd_id (st_id s) /\ is_u 32 (st_endpoint_window_size s).

(** A stream after a change of its other fields. *)
Definition same_stream (s s' : HttpStream) : Prop :=
  st_id s' = st_id s /\ st_endpoint_window_size s' = st_endpoint_window_size s.

(** What [stream_round] keeps of a stream, and the frame it gives. *)
Definition round_result (s : HttpStream) (r : written) : Prop :=
  let '(_, s', f) := r in same_stream s s' /\ from_option frame_ok True f.

Ltac same_ok :=
  let A := fresh in let B := fresh in
  intros [A B]; repeat split; fields; solve [done | apply A | apply B].
Ltac same := unfold same_stream in *; split; by fields.

Section Rounds.
Context (c : Conn) (Hm : max_frame_size c = MAX_FRAME_SIZE) (Hw : 0 <= endpoint_window_size c).

Lemma stream_frame_draft s type : is_byte type -> draft 0 (st_id s) (stream_frame c s type).
Proof.
  intros Ht. unfold stream_frame, new_frame. rewrite Hm.
  set (m := repeat 0 _). assert (zlen m = MAX_FRAME_SIZE + 9) by (subst m; by rewrite zlen_repeat). clearbody m.
  by split; fields.
Qed.

Lemma send_window_range s : stream_ok s -> 0 <= send_window c s <= MAX_FRAME_SIZE.
Proof. intros [_ ?]. unfold send_window, is_u, MAX_FRAME_SIZE in *. lia. Qed.

Lemma prepareRange_keeps s : results (same_stream s) (prepareRange s).
Proof. unfold prepareRange. do 2 any_first. cbn [results]. same. Qed.

Lemma read_file_keeps s l f off len id : draft len id f ->
  results (fun r => same_stream s (fst r) /\ draft len id (snd r)) (read_file s l f off).
Proof.
  intros Hd. unfold read_file. any_first. destruct (file_read _ _) as [data fl].
  eapply results_bind; [by apply draft_write|]. intros f' (? & _). cbn [results fst snd]. split; [same|done].
Qed.

Lemma range_chunk_range s remind : 0 <= remind -> 0 <= range_chunk s remind <= remind.
Proof.
  intros. unfold range_chunk. pose proof (wrap_range 64 (expect_length s - real_length s)) as H1.
  unfold is_u in H1. lia.
Qed.

Lemma read_count s need : results (fun r => fst (fst r) = zlen (snd (fst r))) (ByteBuffer.read s need).
Proof. unfold ByteBuffer.read. eapply results_bind; [apply results_any|]. by intros [[data rn] rp] _. Qed.

(** A filled frame gets its length, a flag and its header. *)
Lemma finish_frame len id f fl b : draft 0 id f -> 0 <= len <= MAX_FRAME_SIZE -> is_byte fl -> is_u 31 id ->
  results frame_ok (buildFrameHeader (add_flag fl b (set_length len f))).
Proof. intros Hd Hl Hf Hid. eapply draft_build; [apply draft_flag; [by eapply draft_length|done]|done|done]. Qed.

Lemma headers_frame_ok s v : stream_ok s ->
  results (fun r => same_stream s (snd (fst r)) /\ frame_ok (snd r)) (writeHeadersFrame c s v).
Proof.
  intros [[Hid _] _]. unfold writeHeadersFrame.
  eapply results_bind; [apply read_count|]. intros [[len data] tb] E. cbn [fst snd] in E. subst len.
  eapply results_bind; [apply draft_write, stream_frame_draft; zeval|]. intros f (Hd & Hl).
  any_first. any_first. pose proof (zlen_nonneg data).
  eapply results_bind; [eapply draft_build; [apply draft_flag; [apply draft_flag; [eapply draft_length; [exact Hd|lia]|zeval]|zeval]|lia|exact Hid]|].
  intros f' Hf. cbn [results fst snd]. split; [same|done].
Qed.

Lemma body_frame_ok s : stream_ok s -> results (round_result s) (writeDataFrame4Body c s).
Proof.
  intros [[Hid _] _]. unfold writeDataFrame4Body. destruct (window_empty c s); [by repeat split|].
  eapply results_bind; [apply read_count|]. intros [[len data] body] E. cbn [fst snd] in E. subst len.
  eapply results_bind; [apply draft_write, stream_frame_draft; zeval|]. intros f (Hd & Hl).
  any_first. pose proof (zlen_nonneg data).
  eapply results_bind; [apply (finish_frame _ (st_id s)); [exact Hd|lia|zeval|exact Hid]|].
  intros f' Hf. cbn [results]. split; [same|done].
Qed.

Lemma single_range_ok s : stream_ok s -> results (round_result s) (writeDataFrame4SingleRange c s).
Proof.
  intros Hs. pose proof (send_window_range s Hs) as Hsw. unfold writeDataFrame4SingleRange. destruct (window_empty c s); [by repeat split|].
  eapply results_bind with (P := same_stream s); [destruct (_ =? _); [apply prepareRange_keeps|done]|].
  intros s1 [E1 E2]. assert (stream_ok s1) as Hs1 by (unfold stream_ok; by rewrite E1, E2).
  assert (send_window c s1 = send_window c s) as Ew by (unfold send_window; by rewrite E2). rewrite Ew.
  pose proof (range_chunk_range s1 (send_window c s) ltac:(lia)). set (l := range_chunk s1 _) in *.
  eapply results_bind; [apply read_file_keeps, stream_frame_draft; zeval|]. intros [s2 f] [[E3 E4] Hd]. cbn [fst snd] in *.
  revert E3 E4. fields. intros E3 E4.
  eapply results_bind; [apply (finish_frame _ (st_id s1)); [exact Hd|lia|zeval|apply Hs1]|].
  intros f' Hf. cbn [results]. split; [|done]. split; congruence.
Qed.

Lemma subheader_ok s sub remind : stream_ok s -> 0 <= remind -> zlen sub + remind <= MAX_FRAME_SIZE ->
  results (fun r => same_stream s (fst r) /\ frame_ok (snd r)) (writeSubheaderAndData c s sub remind).
Proof.
  intros Hs H0 Hr. unfold writeSubheaderAndData.
  eapply results_bind; [apply draft_write, stream_frame_draft; zeval|]. intros f (Hd & _).
  pose proof (range_chunk_range s remind H0). set (l := range_chunk s _) in *. pose proof (zlen_nonneg sub).
  eapply results_bind; [apply read_file_keeps; exact Hd|]. intros [s2 f2] [[E3 E4] Hd2]. cbn [fst snd] in *.
  revert E3 E4. fields. intros E3 E4.
  eapply results_bind; [eapply draft_build; [eapply draft_length; [exact Hd2|lia]|lia|apply Hs]|].
  intros f' Hf. cbn [results fst snd]. by split; [split|].
Qed.

Lemma subheader_case_ok s text remind : stream_ok s -> 0 <= remind <= MAX_FRAME_SIZE ->
  results (round_result s)
    (r ← of_option (ranges (base s) !! range_iterator (base s));
     let subheader := text r in
     if zlen subheader >? remind then Val (false, s, None)
     else s ← prepareRange s;
          '(s, f) ← writeSubheaderAndData c s subheader (remind - zlen subheader);
          Val (false, s, Some f)).
Proof.
  intros Hs Hr. any_first. cbv zeta. rewrite Z.gtb_ltb. ifcase; [by repeat split|].
  eapply results_bind; [apply prepareRange_keeps|]. intros s1 [E1 E2].
  eapply results_bind; [apply subheader_ok; [unfold stream_ok; by rewrite E1, E2|lia|lia]|].
  intros [s2 f] [[E3 E4] Hf]. cbn [fst snd] in *. split; [|done]. split; congruence.
Qed.

Lemma ranges_ok s : stream_ok s -> results (round_result s) (writeDataFrame4Ranges c s).
Proof.
  intros Hs. pose proof (send_window_range s Hs) as Hsw. unfold writeDataFrame4Ranges. destruct (window_empty c s); [by repeat split|].
  ifcase; [ifcase; [by apply subheader_case_ok|ifcase; [|by apply subheader_case_ok]]|].
  - ifcase; [by repeat split|].
    eapply results_bind.
    { apply results_and; [|apply build_info].
      apply (finish_frame _ (st_id s)); [apply stream_frame_draft; zeval|vm_compute; split; congruence|zeval|apply Hs]. }
    intros f [Hf Hi]. eapply results_bind; [apply write_built_ok; [exact Hf|rewrite Hi; vm_compute; congruence]|].
    intros f' Hf'. cbn [results]. by split; [split|].
  - pose proof (range_chunk_range s (send_window c s) ltac:(lia)). set (l := range_chunk s _) in *.
    eapply results_bind; [apply read_file_keeps, stream_frame_draft; zeval|]. intros [s2 f] [[E3 E4] Hd]. cbn [fst snd] in *.
    revert E3 E4. fields. intros E3 E4.
    eapply results_bind; [eapply draft_build; [exact Hd|unfold MAX_FRAME_SIZE; lia|apply Hs]|].
    intros f' Hf. cbn [results]. by split; [split|].
Qed.

Lemma stream_round_ok s : stream_ok s -> results (round_result s) (stream_round c s).
Proof.
  intros Hs.
  assert (forall v m, results (round_result s) m -> results (round_result s)
    (e ← ByteBuffer.eof (st_temp_buffer s);
     if negb e then '(fin, s, f) ← writeHeadersFrame c s v; Val (fin, s, Some f) else m)) as HF.
  { intros v m Hrest. any_first. ifcase; [|done].
    eapply results_bind; [by apply headers_frame_ok|]. by intros [[fin s'] f] [? ?]. }
  unfold stream_round.
  destruct (conn_type (base s)).
  2: { any_first. ifcase.
       - eapply results_bind; [by apply headers_frame_ok|]. by intros [[fin s'] f] [? ?].
       - destruct (ranges (base s)) as [|r [|r' l]]; [done|by apply single_range_ok|by apply ranges_ok]. }
  all: apply HF; any_first; ifcase; [by apply body_frame_ok|by repeat split].
Qed.
End Rounds.

(** ** The connection *)

(** Keys in increasing order. *)
Fixpoint ksorted {V} (m : list (Z * V)) : Prop :=
  match m with [] => True | (k, _) :: m => Forall (fun e => k < fst e) m /\ ksorted m end.

Lemma zset_Forall {V} (P : Z * V -> Prop) k v m : P (k, v) -> Forall P m -> Forall P (zset k v m).
Proof.
  intros Hk. induction 1 as [|[k' v'] m Hx Hm IH]; cbn; [by constructor|].
  destruct (k <? k'); [by repeat constructor|]. destruct (k =? k'); by constructor.
Qed.

Lemma zset_sorted {V} k (v : V) m : ksorted m -> ksorted (zset k v m).
Proof.
  induction m as [|[k' v'] m IH]; cbn; [by repeat constructor|]. intros [Hf Hs].
  destruct (k <? k') eqn:E1; zbool; [|destruct (k =? k') eqn:E2; zbool].
  - split; [|done]. constructor; [done|]. eapply Forall_impl; [exact Hf|]. cbn. lia.
  - by subst.
  - split; [|by apply IH]. apply zset_Forall; [cbn; lia|done].
Qed.

Lemma zerase_Forall {V} (P : Z * V -> Prop) k m : Forall P m -> Forall P (zerase k m).
Proof. rewrite !Forall_forall. unfold zerase. intros H x [_ Hx]%list_elem_of_filter. auto. Qed.

Lemma zerase_sorted {V} k (m : list (Z * V)) : ksorted m -> ksorted (zerase k m).
Proof.
  induction m as [|[k' v'] m IH]; [done|]. intros [Hf Hs]. unfold zerase in *. rewrite filter_cons.
  destruct (decide _); [|by apply IH]. split; [by apply zerase_Forall|by apply IH].
Qed.

(** The invariant, with the range of the receive window as a parameter: a handler of DATA
    frames leaves the range for a moment. *)
Section Invariant.
Context (lo hi : Z).

Record inv (c : Conn) : Prop := {
  i_buffer : zlen (temp_buffer c) = MAX_FRAME_SIZE;
  i_frame : is_u 31 (fr_ident (frame c)) /\ is_u 32 (fr_length (frame c));
  i_endpoint : 16384 <= endpoint_max_frame_size c <= 16777215;
  i_max : max_frame_size c = MAX_FRAME_SIZE;
  i_windows : is_u 32 (endpoint_window_size c) /\ is_u 32 (endpoint_init_window_size c);
  i_window : lo <= window_size c < hi;
  i_sorted : ksorted (streams c);
  i_streams : Forall (fun e => exists s, heap c !! snd e = Some s /\ st_id s = fst e) (streams c);
  i_heap : Forall stream_ok (heap c);
  i_pre : Forall frame_ok (pre_vector c);
  i_writes : Forall (fun w => frames_ok (snd w)) (writes c) }.

(** A handler that keeps it. *)
Definition keeps (h : Conn -> outcome Conn) : Prop := forall c, inv c -> results inv (h c).

(** Changes of fields that the invariant does not mention. *)
Ltac inv_fields := intros []; split; fields; try done; auto.

Lemma inv_readBlock off len k c : inv c -> inv (readBlock off len k c).
Proof. unfold readBlock. inv_fields. Qed.
Lemma inv_readFrameHeader c : inv c -> inv (readFrameHeader c).
Proof. apply inv_readBlock. Qed.
Lemma inv_timer b c : inv c -> inv (c <| timer_wait := b |>).
Proof. inv_fields. Qed.
Lemma inv_disponse c : inv c -> inv (disponse c).
Proof. unfold disponse. inv_fields. Qed.
Lemma inv_push f c : frame_ok f -> inv c -> inv (push_frame f c).
Proof. intros Hf. unfold push_frame. inv_fields. apply Forall_app. split; [done|]. by constructor. Qed.
Lemma inv_write k w c : frames_ok w -> inv c -> inv (c <| is_write := true |> <| writes ::= fun l => l ++ [(k, w)] |>).
Proof. intros Hf. inv_fields. apply Forall_app. split; [done|]. by constructor. Qed.

Lemma inv_close id c : inv c -> inv (close id c).
Proof. unfold close. inv_fields; [by apply zerase_sorted|by apply zerase_Forall]. Qed.

Lemma inv_upd_stream a f c : (forall s, heap c !! a = Some s -> stream_ok s -> st_id (f s) = st_id s /\ stream_ok (f s)) ->
  inv c -> inv (upd_stream a f c).
Proof.
  intros Hf. unfold upd_stream. inv_fields.
  - eapply Forall_impl; [exact i_streams0|]. intros e (s & Hs & Hi).
    destruct (decide (snd e = a)) as [<-|Hn].
    + rewrite list_lookup_alter_eq, Hs. eexists. split; [done|]. rewrite <- Hi.
      apply Hf; [done|]. by eapply Forall_lookup_1 in i_heap0.
    + rewrite list_lookup_alter_ne by done. eauto.
  - apply Forall_lookup_2. intros i s Hs. destruct (decide (i = a)) as [->|Hn].
    + rewrite list_lookup_alter_eq in Hs. destruct (heap c !! a) as [s0|] eqn:E; [|done]. injection Hs as <-.
      apply Hf; [done|]. by eapply Forall_lookup_1 in i_heap0.
    + rewrite list_lookup_alter_ne in Hs by done. by eapply Forall_lookup_1 in i_heap0.
Qed.

Lemma inv_add_stream id c : odd_id id -> inv c -> inv (snd (add_stream id c)).
Proof.
  intros Hid. unfold add_stream. cbn [snd]. inv_fields.
  - by apply zset_sorted.
  - apply zset_Forall.
    + cbn [fst snd]. rewrite list_lookup_middle by done. eexists. by split.
    + eapply Forall_impl; [exact i_streams0|]. intros e (s & Hs & Hi). exists s. split; [|done].
      by apply lookup_app_l_Some.
  - apply Forall_app. split; [done|]. constructor; [|done]. split; [done|]. apply i_windows0.
Qed.

Create HintDb inv discriminated.
#[local] Hint Resolve inv_readBlock inv_readFrameHeader inv_timer inv_disponse inv_push inv_write inv_close : inv.

(** ** Writing *)

Lemma write_streams_keeps l : keeps (write_streams l).
Proof.
  induction l as [|[k a] l IH]; intros c Hc; [done|]. cbn [write_streams]. unfold get_stream.
  destruct (heap c !! a) as [s|] eqn:Hs; [|done]. cbn [of_option]. rewrite bind_Val.
  destruct (do_response s); cbn [negb]; [|by apply IH].
  pose proof (Forall_lookup_1 _ _ _ _ (i_heap c Hc) Hs) as Hok.
  eapply results_bind; [apply stream_round_ok; [apply Hc|apply Hc|exact Hok]|].
  intros [[fin s'] f] [[E1 E2] Hf]. apply IH.
  assert (inv (upd_stream a (fun _ => s') c)) as H1.
  { apply inv_upd_stream; [|done]. intros s0 H0 _. rewrite Hs in H0. injection H0 as <-.
    split; [done|]. unfold stream_ok. by rewrite E1, E2. }
  destruct f; cbn in Hf; destruct fin; auto with inv.
Qed.

Lemma flush_keeps : keeps flush.
Proof.
  intros c Hc. unfold flush. destruct (pre_vector c) as [|f l] eqn:E; [done|]. destruct (existsb _ _); [done|].
  eapply results_bind; [apply frames_ok_all; rewrite <- E; apply Hc|]. intros ws Hws. cbn [results].
  unfold writeBlocks, checkKeepalive. apply inv_write; [done|]. apply inv_timer. destruct Hc. by split; fields.
Qed.

Lemma handleWrite_keeps : keeps handleWrite.
Proof.
  intros c Hc. unfold handleWrite.
  set (c1 := if negb (is_read c) then _ else _). assert (inv c1) as H1 by (subst c1; ifcase; auto with inv).
  clearbody c1. destruct (is_write c1); [done|].
  eapply results_bind; [apply write_streams_keeps; unfold timer_cancel; auto with inv|]. apply flush_keeps.
Qed.

Lemma queue_keeps m : results frame_ok m -> keeps (fun c => f ← m; handleWrite (push_frame f c)).
Proof. intros Hm c Hc. eapply results_bind; [exact Hm|]. intros f Hf. apply handleWrite_keeps. auto with inv. Qed.

Lemma last_keeps m : results frame_ok m -> keeps (fun c => f ← m; w ← wire_bytes f; Val (writeBlock w c)).
Proof.
  intros Hm c Hc. eapply results_bind; [exact Hm|]. intros f Hf. eapply results_bind; [by apply frame_ok_frames|].
  intros w Hw. by apply inv_write.
Qed.

Lemma writeGoawayFrame_keeps latest code msg once : zlen msg <= 1000 -> keeps (writeGoawayFrame latest 0 code msg once).
Proof.
  intros Hl.
  assert (results frame_ok (small_frame FRAME_TYPE_GOAWAY 0 0 (be_bytes 4 latest ++ be_bytes 4 code ++ repeat 0 (length msg)))) as H.
  { apply small_frame_ok; [zeval..|]. rewrite !zlen_app, zlen_repeat. unfold zlen in *. rewrite !be_bytes_length.
    unfold MAX_FRAME_SIZE. lia. }
  unfold writeGoawayFrame. destruct once; [by apply last_keeps|by apply queue_keeps].
Qed.

Lemma goaway_keeps latest code : keeps (goaway latest code).
Proof. unfold goaway. apply writeGoawayFrame_keeps. vm_compute. congruence. Qed.

Lemma writeRstStreamFrame_keeps id code : is_u 31 id -> keeps (writeRstStreamFrame id 0 code false).
Proof.
  intros Hid. unfold writeRstStreamFrame. apply queue_keeps, small_frame_ok; [zeval|zeval|done|].
  unfold zlen. rewrite be_bytes_length. vm_compute. congruence.
Qed.

Lemma writeSettingsFrame_keeps : keeps writeSettingsFrame.
Proof.
  intros c Hc. unfold writeSettingsFrame. eapply results_bind; [apply small_frame_ok; zeval|].
  intros f Hf. apply handleWrite_keeps, inv_push; [done|]. revert Hc. inv_fields.
Qed.

Lemma writeAckFrame_keeps : keeps writeAckFrame.
Proof. unfold writeAckFrame. apply queue_keeps, small_frame_ok; zeval. Qed.

Lemma writeWindowUpdateFrame_keeps id w : is_u 31 id -> keeps (writeWindowUpdateFrame id 0 w).
Proof.
  intros Hid. unfold writeWindowUpdateFrame. apply queue_keeps, small_frame_ok; [zeval|zeval|done|].
  unfold zlen. rewrite be_bytes_length. vm_compute. congruence.
Qed.

(** ** Handlers *)

Lemma odd_ident c : inv c -> bad_ident c = false -> odd_id (fr_ident (frame c)).
Proof.
  intros Hc. unfold bad_ident. intros [_ H]%orb_false_iff. apply negb_false_iff, Z.eqb_eq in H.
  split; [apply Hc|done].
Qed.

Lemma inv_continue a t c : inv c -> inv (upd_stream a (fun s => s <| continue_type := t |>) c).
Proof. apply inv_upd_stream. intros s _ Hs. split; [by fields|]. destruct Hs. split; by fields. Qed.
#[local] Hint Resolve inv_continue : inv.

Lemma apply_setting_keeps ident value c : is_u 32 value -> inv c ->
  results (fun r => match r with inl _ => True | inr c' => inv c' end) (apply_setting ident value c).
Proof.
  intros Hv Hc. unfold apply_setting.
  repeat first [any_first | ifcase]; cbn [results]; try done; destruct Hc; split; fields; try done;
    rewrite ?Z.gtb_ltb in *; zbool; unfold MAX_FRAME_SIZE in *; try lia. by destruct i_windows0.
Qed.

Lemma settings_loop_keeps : forall input c, inv c -> results (fun r => inv (snd r)) (settings_loop input c).
Proof.
  fix IH 1. intros input c Hc. do 6 (destruct input as [|? input]; [done|]). cbn [settings_loop].
  eapply results_bind; [apply apply_setting_keeps; [apply wrap_range; lia|exact Hc]|].
  intros [code|c'] H; [done|by apply IH].
Qed.

Lemma handleSettingsFrame_keeps c : inv c -> results (fun r => inv (snd r)) (handleSettingsFrame c).
Proof.
  intros Hc. unfold handleSettingsFrame. repeat ifcase; try done.
  - cbn [results snd]. destruct Hc. by split; fields.
  - any_first. by apply settings_loop_keeps.
Qed.

Lemma handleWindowUpdate_keeps : keeps handleWindowUpdate.
Proof.
  intros c Hc. pose proof (i_frame c Hc) as [Hid _]. unfold handleWindowUpdate. ifcase; [by apply goaway_keeps|]. any_first.
  ifcase; [by apply goaway_keeps|]. ifcase.
  - ifcase; [by apply goaway_keeps|]. cbn [results]. apply inv_readFrameHeader. destruct Hc. split; fields; try done.
    split; [apply wrap_range; lia|apply i_windows0].
  - destruct (zfind _ _) as [b|]; [|cbn [results]; auto with inv]. any_first.
    ifcase; [apply writeRstStreamFrame_keeps; auto with inv|]. cbn [results]. apply inv_readFrameHeader.
    apply inv_upd_stream; [|auto with inv]. intros s _ [Ho Hs]. split; [by fields|]. split; fields; [done|apply wrap_range; lia].
Qed.

Lemma handleGoawayFrame_keeps : keeps handleGoawayFrame.
Proof.
  intros c Hc. unfold handleGoawayFrame. ifcase; [by apply goaway_keeps|].
  set (c1 := match zfind _ _ with Some _ => _ | None => _ end).
  assert (inv c1) by (subst c1; case_match; auto with inv). clearbody c1.
  ifcase; [|cbn [results]; auto with inv]. any_first. ifcase; cbn [results]; auto with inv.
Qed.

Lemma handlePingFrame_keeps : keeps handlePingFrame.
Proof.
  intros c Hc%(inv_timer false). unfold handlePingFrame, timer_cancel. set (c1 := update timer_wait _ c) in *. clearbody c1.
  ifcase; [apply writeGoawayFrame_keeps; [vm_compute; congruence|done]|].
  ifcase; [by apply goaway_keeps|].
  ifcase; [apply writeGoawayFrame_keeps; [vm_compute; congruence|done]|].
  eapply results_bind with (P := fun data => zlen data = 8).
  - unfold buffer_at, memread. ifcase; [|done]. cbn [results]. apply zlen_slice; lia.
  - intros data Hd. apply (queue_keeps (small_frame FRAME_TYPE_PING SETTINGS_FLAGS_ACK 0 data)); [|done].
    apply small_frame_ok; [zeval..|rewrite Hd; vm_compute; congruence].
Qed.

Lemma handleRstStreamFrame_keeps : keeps handleRstStreamFrame.
Proof.
  intros c Hc. unfold handleRstStreamFrame. repeat (ifcase; [solve [by apply goaway_keeps | cbn [results]; auto with inv]|]).
  destruct (zfind _ _) as [b|]; [|by apply goaway_keeps]. any_first.
  destruct (memcpy _ _ _) as [m|] eqn:E; [|done]. cbn [mbind outcome_bind results]. apply inv_readFrameHeader.
  apply memcpy_zlen in E. assert (inv (close (st_id a) c)) as H by auto with inv. destruct H. split; fields; try done.
  congruence.
Qed.

Lemma handlePriorityFrame_keeps : keeps handlePriorityFrame.
Proof.
  intros c Hc. unfold handlePriorityFrame. ifcase; [by apply goaway_keeps|]. ifcase; [by apply goaway_keeps|].
  assert (inv (snd (match zfind (fr_ident (frame c)) (streams c) with
                    | Some a => (a, c) | None => add_stream (fr_ident (frame c)) c end))) as H.
  { case_match; [done|]. apply inv_add_stream; [by apply odd_ident|done]. }
  destruct (match zfind _ _ with Some _ => _ | None => _ end) as [a c1]. cbn [snd] in H.
  any_first. ifcase; [apply goaway_keeps; auto with inv|cbn [results]; auto with inv].
Qed.

(** What the handlers of streams do to a stream. *)
Lemma inv_set_stream a s0 s c : heap c !! a = Some s0 -> (stream_ok s0 -> st_id s = st_id s0 /\ stream_ok s) ->
  inv c -> inv (upd_stream a (fun _ => s) c).
Proof. intros H0 Hs. apply inv_upd_stream. intros s1 H1 Hok. rewrite H0 in H1. injection H1 as <-. auto. Qed.

Lemma get_stream_spec c a : results (fun s => heap c !! a = Some s) (get_stream c a).
Proof. unfold get_stream. by destruct (heap c !! a). Qed.

Lemma headers_stream_keeps c : inv c -> odd_id (fr_ident (frame c)) ->
  results (fun r => match r with inl (_, msg, _) => zlen msg <= 1000 | inr (_, c') => inv c' end) (headers_stream c).
Proof.
  intros Hc Hid. unfold headers_stream. destruct (zfind _ _) as [a|].
  - any_first. by ifcase.
  - ifcase; [|zeval]. ifcase; [zeval|]. ifcase; [zeval|].
    destruct (add_stream _ c) as [a c'] eqn:E. cbn [results].
    assert (inv c') as H by (replace c' with (snd (add_stream (fr_ident (frame c)) c)) by (by rewrite E); by apply inv_add_stream).
    destruct H. by split; fields.
Qed.

Section Service.
Context `{FileSystem} (sv : Service).

Lemma respond_keeps a : keeps (respond sv a).
Proof.
  intros c Hc. unfold respond. eapply results_bind; [apply get_stream_spec|]. intros s Hs.
  any_first. eapply results_bind; [apply results_any|]. intros [e t] _. eapply results_bind; [apply results_any|]. intros [n tb] _.
  apply handleWrite_keeps.
  assert (inv (c <| resp_dynamic_table := t |>)) as H1 by (revert Hc; inv_fields).
  eapply (inv_set_stream a s); [by fields|same_ok|done].
Qed.

Lemma handle_block_keeps a : keeps (handle_block sv a).
Proof.
  intros c Hc. unfold handle_block. eapply results_bind; [apply get_stream_spec|]. intros s Hs.
  any_first. eapply results_bind; [apply results_any|]. intros [rt d] _. eapply results_bind; [apply results_any|]. intros [n tb] _.
  set (s1 := update base _ _). set (c1 := upd_stream a (fun _ => s1) _).
  assert (st_id s1 = st_id s /\ st_endpoint_window_size s1 = st_endpoint_window_size s) as [E1 E2] by (subst s1; split; by fields).
  assert (inv c1 /\ heap c1 !! a = Some s1) as [H1 Hs1].
  { subst c1. split.
    - apply (inv_set_stream a s s1); [by fields|intros [? ?]; unfold stream_ok; by rewrite E1, E2|revert Hc; inv_fields].
    - unfold upd_stream. fields. by rewrite list_lookup_alter_eq, Hs. }
  clearbody c1. ifcase; [by apply goaway_keeps|].
  destruct (convertFromHttp2 _) as [ok request'].
  set (s2 := update base _ s1). set (c2 := upd_stream a (fun _ => s2) c1).
  assert (inv c2) as H2.
  { apply (inv_set_stream a s1 s2 c1); [done| |done]. subst s2. clearbody s1. same_ok. }
  clearbody c2. ifcase; [by apply goaway_keeps|].
  assert (inv (upd_stream a (fun s => s <| base ::= handleFilter sv |>) c2)) as H3.
  { apply inv_upd_stream; [|done]. intros s3 _. same_ok. }
  ifcase; [by apply respond_keeps|cbn [results]; auto with inv].
Qed.

Lemma handleHeadersFrame_keeps : keeps (handleHeadersFrame sv).
Proof.
  intros c Hc%(inv_timer false). unfold handleHeadersFrame, timer_cancel. set (c1 := update timer_wait _ c) in *. clearbody c1.
  ifcase; [by apply goaway_keeps|]. ifcase; [by apply goaway_keeps|].
  eapply results_bind; [apply headers_stream_keeps; [done|by apply odd_ident]|].
  intros [[[latest msg] once]|[a c2]] H1; [by apply writeGoawayFrame_keeps|].
  assert (inv (upd_stream a (fun s => s <| continue_type := fr_type (frame c2) |>) c2)) as H2 by auto with inv.
  set (c3 := upd_stream a _ c2) in *. clearbody c3. any_first. case_match; [|by apply goaway_keeps].
  eapply results_bind; [apply get_stream_spec|]. intros s Hs. eapply results_bind; [apply results_any|]. intros [n tb] _.
  set (s1 := update end_stream _ _).
  assert (inv (upd_stream a (fun _ => s1) c3)) as H3.
  { apply (inv_set_stream a s s1 c3); [done| |done]. subst s1. same_ok. }
  ifcase; [by apply handle_block_keeps|cbn [results]; auto with inv].
Qed.

Lemma data_payload_keeps a c : inv c -> results (fun r => inv (snd r)) (data_payload a c).
Proof.
  intros Hc. unfold data_payload. any_first. any_first. ifcase; [done|]. ifcase; [done|]. any_first.
  eapply results_bind; [apply results_any|]. intros [n tb] _. cbn [results snd]. apply inv_upd_stream; [|done].
  intros s _. same_ok.
Qed.

Lemma data_end_keeps a : keeps (data_end sv a).
Proof.
  intros c Hc. unfold data_end. ifcase; [|cbn [results]; auto with inv]. any_first. any_first.
  repeat (ifcase; [by apply goaway_keeps|]). by apply respond_keeps.
Qed.

End Service.
End Invariant.

Lemma inv_range lo hi lo' hi' c : inv lo hi c -> lo' <= window_size c < hi' -> inv lo' hi' c.
Proof. intros [] Hw. by split. Qed.

(** The invariant proper: the window is kept above half of its initial size. *)
Definition conn_ok : Conn -> Prop := inv (INIT_WINDOW_SIZE / 2) (INIT_WINDOW_SIZE / 2 + INIT_WINDOW_SIZE).

Section Steps.
Context `{FileSystem} (sv : Service).

(** The window of the connection goes down by a payload and is filled up again. *)
Lemma data_window_keeps (c : Conn) len (f : HttpStream -> HttpStream) a :
  conn_ok c -> 0 <= len <= window_size c -> (forall s, stream_ok s -> st_id (f s) = st_id s /\ stream_ok (f s)) ->
  results conn_ok
    (let c := upd_stream a f (c <| window_size ::= fun w => u32 (w - len) |>) in
     if window_size c <? INIT_WINDOW_SIZE / 2 then
       c ← writeWindowUpdateFrame 0 0 INIT_WINDOW_SIZE c;
       Val (c <| window_size ::= fun w => u32 (w + INIT_WINDOW_SIZE) |>)
     else Val c).
Proof.
  intros Hc Hl Hf. pose proof (i_window _ _ _ Hc) as Hw. change (INIT_WINDOW_SIZE / 2) with 32767 in *. unfold INIT_WINDOW_SIZE in *.
  set (x := window_size c - len).
  assert (inv x (x + 1) (upd_stream a f (c <| window_size ::= fun w => u32 (w - len) |>))) as H1.
  { apply inv_upd_stream; [intros s _; apply Hf|]. destruct Hc. split; fields; try done.
    rewrite wrap_small by (unfold is_u; lia). subst x. lia. }
  set (c1 := upd_stream a f _) in *. clearbody c1. pose proof (i_window _ _ _ H1) as Hx. cbv zeta. ifcase.
  - eapply results_bind; [apply (writeWindowUpdateFrame_keeps x (x + 1)); [zeval|done]|]. intros c2 H2. cbn [results].
    pose proof (i_window _ _ _ H2). destruct H2. split; fields; try done.
    rewrite wrap_small by (unfold is_u; lia). change (INIT_WINDOW_SIZE / 2) with 32767. unfold INIT_WINDOW_SIZE. lia.
  - eapply inv_range; [exact H1|]. change (INIT_WINDOW_SIZE / 2) with 32767. unfold INIT_WINDOW_SIZE. lia.
Qed.

Lemma handleDataFrame_keeps c : conn_ok c -> results conn_ok (handleDataFrame sv c).
Proof.
  intros Hc%(inv_timer _ _ false). unfold handleDataFrame, timer_cancel. set (c1 := update timer_wait _ c) in *. clearbody c1.
  ifcase; [by apply writeGoawayFrame_keeps; [vm_compute; congruence|]|].
  ifcase; [by apply goaway_keeps|]. ifcase; [by apply goaway_keeps|].
  destruct (zfind _ _) as [a|]; [|by apply goaway_keeps]. any_first.
  eapply results_bind with (P := conn_ok); [ifcase; [by apply goaway_keeps|done]|]. intros c2 H2.
  assert (conn_ok (upd_stream a (fun s => s <| continue_type := fr_type (frame c2) |>) c2)) as H3 by (by apply inv_continue).
  set (c3 := upd_stream a _ c2) in *. clearbody c3. any_first. ifcase; [by apply goaway_keeps|].
  pose proof (i_frame _ _ _ H3) as [_ [Hl0 _]]. rewrite Z.gtb_ltb in *. zbool.
  eapply results_bind; [apply data_window_keeps; [exact H3|lia|]|].
  { intros s. same_ok. }
  intros c4 H4. eapply results_bind; [apply get_stream_spec|]. intros s Hs.
  pose proof (Forall_lookup_1 _ _ _ _ (i_heap _ _ _ H4) Hs) as [[Hid _] _].
  eapply results_bind with (P := conn_ok).
  { ifcase; [|done]. eapply results_bind; [by apply writeWindowUpdateFrame_keeps|]. intros c5 H5. cbn [results].
    apply inv_upd_stream; [|done]. intros s' _. same_ok. }
  intros c5 H5. eapply results_bind; [by apply data_payload_keeps|]. intros [ok c6] H6. cbn [snd] in H6.
  destruct ok; [by apply data_end_keeps|by apply goaway_keeps].
Qed.

Lemma handleFrameHeader_keeps c : conn_ok c -> results conn_ok (handleFrameHeader sv c).
Proof.
  intros Hc. unfold handleFrameHeader. any_first. ifcase; [by apply goaway_keeps|].
  ifcase.
  { eapply results_bind; [by apply handleSettingsFrame_keeps|]. intros [code c1] H1. cbn [snd] in H1.
    ifcase; [by apply inv_readFrameHeader|]. ifcase; [by apply writeAckFrame_keeps|done]. }
  ifcase; [by apply handleWindowUpdate_keeps|]. ifcase; [by apply handleGoawayFrame_keeps|].
  ifcase.
  { ifcase; [by apply goaway_keeps|]. case_match; [|by apply goaway_keeps].
    ifcase; [by apply goaway_keeps|]. ifcase; [by apply goaway_keeps|by apply handleHeadersFrame_keeps]. }
  ifcase; [by apply handleHeadersFrame_keeps|]. ifcase; [by apply handleDataFrame_keeps|].
  ifcase; [by apply handlePriorityFrame_keeps|]. ifcase; [by apply handleRstStreamFrame_keeps|].
  ifcase; [by apply handlePingFrame_keeps|]. by apply writeGoawayFrame_keeps; [vm_compute; congruence|].
Qed.

Lemma parse_header_ranges b : results (fun i => is_u 31 (fr_ident i) /\ is_u 32 (fr_length i)) (parse_header b).
Proof.
  unfold parse_header. do 9 (destruct b as [|? b]; [done|]). cbn [results fr_ident fr_length]. split; [|apply wrap_range; lia].
  change 0x7fffffff with (Z.ones 31). rewrite Z.land_ones by lia. apply Z.mod_pos_bound. lia.
Qed.

Lemma read_done_keeps k c : conn_ok c -> results conn_ok (read_done sv k c).
Proof.
  intros Hc. destruct k; cbn [read_done].
  - unfold magic_done. any_first. ifcase; [by apply writeSettingsFrame_keeps|by apply inv_disponse].
  - unfold header_done. eapply results_bind; [apply parse_header_ranges|]. intros i Hi.
    assert (conn_ok (c <| frame := i |>)) as H1 by (destruct Hc; by split; fields).
    ifcase; [by apply writeGoawayFrame_keeps; [vm_compute; congruence|]|by apply inv_readBlock].
  - by apply handleFrameHeader_keeps.
Qed.

Lemma write_done_keeps i k ok c : conn_ok c -> results conn_ok (write_done i k ok c).
Proof.
  intros Hc. unfold write_done.
  assert (conn_ok (c <| writes ::= delete_at i |> <| is_write := false |>)) as H1.
  { destruct Hc. split; fields; try done. unfold delete_at. apply Forall_app. split; [by apply Forall_take|by apply Forall_drop]. }
  destruct k; [ifcase; [by apply handleWrite_keeps|]|]; by apply inv_disponse.
Qed.

Lemma step_keeps c e o : conn_ok c -> step sv c e = Some o -> results conn_ok o.
Proof.
  intros Hc. destruct e as [i data|i|i|i|]; cbn [step].
  - destruct (reads c !! i) as [rd|]; [|done]. cbn [mbind option_bind]. ifcase; [|done]. intros [= <-].
    unfold read_some. destruct (memcpy _ _ _) as [m|] eqn:E; [|done]. rewrite bind_Val. apply memcpy_zlen in E.
    assert (conn_ok (c <| temp_buffer := m |> <| reads ::= delete_at i |> <| is_read := false |>)) as Hk
      by (destruct Hc; split; fields; congruence || done).
    ifcase; [by apply read_done_keeps|by apply inv_readBlock].
  - destruct (reads c !! i); [|done]. cbn [mbind option_bind]. intros [= <-]. apply inv_disponse. destruct Hc. by split; fields.
  - destruct (writes c !! i); [|done]. cbn [mbind option_bind]. ifcase; [|done]. intros [= <-]. by apply write_done_keeps.
  - destruct (writes c !! i); [|done]. cbn [mbind option_bind]. intros [= <-]. by apply write_done_keeps.
  - ifcase; [|done]. intros [= <-]. destruct Hc. by split; fields.
Qed.

Lemma start_ok addr : conn_ok (readMagic (new_conn addr)).
Proof.
  unfold readMagic. apply inv_readBlock. unfold new_conn. set (m := repeat 0 _).
  assert (zlen m = MAX_FRAME_SIZE) by (subst m; by rewrite zlen_repeat). clearbody m.
  split; cbn [temp_buffer frame endpoint_max_frame_size max_frame_size endpoint_window_size endpoint_init_window_size
    window_size streams heap pre_vector writes ksorted]; try done; zeval.
Qed.

(** C4: every state that a connection reaches, whatever the peer sends in whatever pieces,
    whatever the application's callbacks answer and however writes complete, keeps the
    invariant: the receive window stays between half of its initial size and that plus
    the initial size, frames to send and frames on the wire are well formed and at most
    16384 bytes long, streams have increasing odd identifiers and the map's keys are the
    identifiers of its streams, the buffer keeps its size. *)
Theorem http2_reachable_invariant (c : Conn) : reachable sv c -> conn_ok c.
Proof.
  intros (addr & es & Hs). pose proof (start_ok addr) as H0. revert Hs H0. generalize (readMagic (new_conn addr)). intros c0 Hs.
  induction Hs as [c|c e c' es c'' He _ IH]; intros H0; [done|]. apply IH.
  by apply (step_keeps c e (Val c')).
Qed.
End Steps.

(** The first steps of a connection: the preface, the SETTINGS frame sent, and a header. *)
Lemma http2_reachable_invariant_witness : exists c,
  steps example_service (readMagic (new_conn 0)) [ReadSome 0 MAGIC_STRING; WriteDone 0; ReadSome 0 [0; 0; 8; 6; 0; 0; 0; 0; 0]] c /\
  fr_length (frame c) = 8 /\ conn_ok c.
Proof.
  assert (exists c, steps example_service (readMagic (new_conn 0))
    [ReadSome 0 MAGIC_STRING; WriteDone 0; ReadSome 0 [0; 0; 8; 6; 0; 0; 0; 0; 0]] c /\ fr_length (frame c) = 8) as (c & Hc & Hf).
  { eexists. split; [do 3 (eapply steps_cons; [vm_compute; reflexivity|]); constructor|vm_compute; reflexivity]. }
  exists c. split; [exact Hc|]. split; [exact Hf|]. apply (http2_reachable_invariant example_service c). by exists 0, [ReadSome 0 MAGIC_STRING; WriteDone 0; ReadSome 0 [0; 0; 8; 6; 0; 0; 0; 0; 0]].
Defined.
