(* ===== verification/Json.v ===== *)
(** * JSON

    Models [sese/config/Json.cpp]: the tokenizer, the parser with its stack of pointers into
    the value it builds, and the writer with its stacks of values and iterators. A pointer
    into a value is the path to it from the root. The parser is not [noexcept]: the
    exceptions of the number conversions are results. *)

From S2P Require Import Prelude Streams Text OrdMap Double Value.

(** ** Exceptions *)

(** A result, an exception, or undefined behaviour. *)
Inductive attempt (A : Type) : Type := Done (a : A) | Thrown | Wild.
Arguments Done {A} a.
Arguments Thrown {A}.
Arguments Wild {A}.
#[export] Instance attempt_bind : MBind attempt := fun A B f m =>
  match m with Done a => f a | Thrown => Thrown | Wild => Wild end.
Definition or_throw {A} (o : option A) : attempt A := match o with Some a => Done a | None => Thrown end.
Definition lift {A} (m : outcome A) : attempt A := match m with Val a => Done a | Undef => Wild end.

(** ** Tokens *)

(*@ sese/config/Json.cpp 27-32 isKeyword *)
(** By the first byte of the C string. *)
Definition keyword_char (ch : byte) : bool := existsb (Z.eqb ch) (str "}]:,").
Definition isKeyword (token : bytes) : bool := match token with ch :: _ => keyword_char ch | [] => false end.

Section Tokenizer.
Context {I : Type} `{InputStream I}.

(*@ sese/config/Json.cpp 53-70 Json::tokenizer *)
(** The rest of a string; the flag is false when the function fails. *)
Fixpoint string_loop (fuel : nat) (source : I) (builder : bytes) (tokens : list bytes) : outcome (bool * bytes * list bytes * I) :=
  match fuel with
  | O => Undef
  | S fuel =>
      '(ch, source) ← next_char source;
      match ch with
      | None => Val (true, builder, tokens, source)
      | Some ch =>
          if ch =? 92 then
            '(ch, source) ← next_char source;
            match ch with
            | None => Val (false, builder, tokens, source)
            | Some ch => string_loop fuel source (builder ++ [92; ch]) tokens
            end
          else if ch =? 34 then Val (true, [], tokens ++ [builder ++ [34]], source)
          else string_loop fuel source (builder ++ [ch]) tokens
      end
  end.

(*@ sese/config/Json.cpp 77-97 Json::tokenizer *)
(** The rest of a plain token. *)
Fixpoint plain_loop (fuel : nat) (source : I) (builder : bytes) (tokens : list bytes) : outcome (bytes * list bytes * I) :=
  match fuel with
  | O => Undef
  | S fuel =>
      '(ch, source) ← next_char source;
      match ch with
      | None => Val (builder, tokens, source)
      | Some ch =>
          if keyword_char ch then Val ([], tokens ++ [builder; [ch]], source)
          else if isSpace ch then Val ([], tokens ++ [builder], source)
          else if ch =? 44 then Val ([], tokens ++ [builder; str ","], source)
          else plain_loop fuel source (builder ++ [ch]) tokens
      end
  end.

(*@ sese/config/Json.cpp 39-101 Json::tokenizer *)
Fixpoint tokenizer_loop (fuel : nat) (source : I) (builder : bytes) (tokens : list bytes) : outcome (bool * list bytes) :=
  match fuel with
  | O => Undef
  | S fuel =>
      '(ch, source) ← next_char source;
      match ch with
      | None => Val (true, tokens)
      | Some ch =>
          if existsb (Z.eqb ch) (str "{}[],:") then tokenizer_loop fuel source builder (tokens ++ [[ch]])
          else if ch =? 34 then
            '(ok, builder, tokens, source) ← string_loop fuel source (builder ++ [34]) tokens;
            if ok : bool then tokenizer_loop fuel source builder tokens else Val (false, tokens)
          else if isSpace ch then tokenizer_loop fuel source builder tokens
          else '(builder, tokens, source) ← plain_loop fuel source (builder ++ [ch]) tokens; tokenizer_loop fuel source builder tokens
      end
  end.

(*@ sese/config/Json.cpp 34-102 Json::tokenizer *)
Definition tokenizer (fuel : nat) (source : I) : outcome (bool * list bytes) := tokenizer_loop fuel source [] [].
End Tokenizer.

(** ** Pointers into a value *)

Inductive pointer_step := Key (k : bytes) | Index (i : nat).
Definition pointer : Type := list pointer_step.

(** What a pointer points to. *)
Fixpoint get (p : pointer) (v : Value.t) : option Value.t :=
  match p, v with
  | [], _ => Some v
  | Key k :: p, Value.Dict m => v ← Value.find k m; get p v
  | Index i :: p, Value.List l => v ← l !! i; get p v
  | _, _ => None
  end.

(** A change of the value of a key. *)
Fixpoint alter_key (k : bytes) (f : Value.t -> Value.t) (m : list (bytes * Value.t)) : list (bytes * Value.t) :=
  match m with
  | [] => []
  | (k', v) :: m => if lexcmp k k' =? 0 then (k', f v) :: m else (k', v) :: alter_key k f m
  end.

(** A change of what it points to. *)
Fixpoint modify (p : pointer) (f : Value.t -> Value.t) (v : Value.t) : Value.t :=
  match p, v with
  | [], _ => f v
  | Key k :: p, Value.Dict m => Value.Dict (alter_key k (modify p f) m)
  | Index i :: p, Value.List l => Value.List (alter (modify p f) i l)
  | _, _ => v
  end.

Definition on_dict (f : list (bytes * Value.t) -> list (bytes * Value.t)) (v : Value.t) : Value.t :=
  match v with Value.Dict m => Value.Dict (f m) | _ => v end.
Definition on_list (f : list Value.t -> list Value.t) (v : Value.t) : Value.t :=
  match v with Value.List l => Value.List (f l) | _ => v end.

(** ** Parsing *)

(*@ sese/config/Json.cpp 236-254 Json::parseBasic *)
Definition parseBasic (value : bytes) : attempt Value.t :=
  if bool_decide (value = str "null") then Done Value.Null
  else if bool_decide (value = str "true") then Done (Value.Bool true)
  else if bool_decide (value = str "false") then Done (Value.Bool false)
  else if bool_decide (head value = Some 34) then Done (Value.String (take (length value - 2) (drop 1 value)))
  else if existsb (Z.eqb 46) (drop 1 value) then d ← or_throw (stod value); Done (Value.Double d)
  else n ← or_throw (stoll value); Done (Value.Int n).

(*@ sese/config/Json.cpp 116-124 Json::parseObject *)
(** The token after a comma, [None] when there is none. *)
Definition skip_comma (token : bytes) (tokens : list bytes) : option (bytes * list bytes) :=
  if bool_decide (token = str ",") then match tokens with [] => None | t :: ts => Some (t, ts) end
  else Some (token, tokens).

(** [name.substr(1, name.size() - 2)], which throws for an empty name. *)
Definition strip (name : bytes) : option bytes :=
  match name with [] => None | _ => Some (take (length name - 2) (drop 1 name)) end.

(** The state of the parser: the tokens, the stack and the root; and the returned flag. *)
Definition ParseResult : Type := bool * list bytes * list pointer * Value.t.

(*@ sese/config/Json.cpp 109-160 Json::parseObject *)
(** [object] has been popped from the stack. A round takes three tokens at least, or ends. *)
Fixpoint parseObject_loop (fuel : nat) (tokens : list bytes) (object : pointer) (stack : list pointer) (root : Value.t) :
    attempt ParseResult :=
  match fuel, tokens with
  | _, [] => Done (false, [], stack, root)
  | O, _ => Wild
  | S fuel, name :: tokens =>
      if bool_decide (name = str "}") then Done (true, tokens, stack, root)
      else
        match skip_comma name tokens with
        | None => Done (false, tokens, stack, root)
        | Some (name, tokens) =>
            name ← or_throw (strip name);
            match tokens with
            | [] => Done (false, tokens, stack, root)
            | colon :: tokens' =>
                if negb (bool_decide (colon = str ":")) then Done (false, tokens, stack, root)
                else
                  match tokens' with
                  | [] => Done (false, tokens', stack, root)
                  | value :: tokens =>
                      if bool_decide (value = str "{") then
                        Done (true, tokens, (object ++ [Key name]) :: object :: stack,
                              modify object (on_dict (Value.setRef name Value.dict)) root)
                      else if bool_decide (value = str "[") then
                        Done (true, tokens, (object ++ [Key name]) :: object :: stack,
                              modify object (on_dict (Value.setRef name Value.list_)) root)
                      else if isKeyword value then Done (false, tokens, stack, root)
                      else
                        v ← parseBasic value;
                        parseObject_loop fuel tokens object stack (modify object (on_dict (Value.set name v)) root)
                  end
            end
        end
  end.

(*@ sese/config/Json.cpp 168-203 Json::parseArray *)
(** The end of the tokens ends the array too. *)
Fixpoint parseArray_loop (fuel : nat) (tokens : list bytes) (array : pointer) (stack : list pointer) (root : Value.t) :
    attempt ParseResult :=
  match fuel, tokens with
  | _, [] => Done (true, [], stack, root)
  | O, _ => Wild
  | S fuel, token :: tokens =>
      if bool_decide (token = str "]") then Done (true, tokens, stack, root)
      else
        match skip_comma token tokens with
        | None => Done (false, tokens, stack, root)
        | Some (token, tokens) =>
            let sub := array ++ [Index (match get array root with Some (Value.List l) => length l | _ => 0%nat end)] in
            if bool_decide (token = str "{") then
              Done (true, tokens, sub :: array :: stack, modify array (on_list (fun l => Value.append l Value.dict)) root)
            else if bool_decide (token = str "[") then
              Done (true, tokens, sub :: array :: stack, modify array (on_list (fun l => Value.append l Value.list_)) root)
            else if isKeyword token then Done (false, tokens, stack, root)
            else
              v ← parseBasic token;
              parseArray_loop fuel tokens array stack (modify array (on_list (fun l => Value.append l v)) root)
        end
  end.

(*@ sese/config/Json.cpp 104-161 Json::parseObject *)
Definition parseObject (tokens : list bytes) (object : pointer) (stack : list pointer) (root : Value.t) : attempt ParseResult :=
  parseObject_loop (length tokens) tokens object stack root.
(*@ sese/config/Json.cpp 163-204 Json::parseArray *)
Definition parseArray (tokens : list bytes) (array : pointer) (stack : list pointer) (root : Value.t) : attempt ParseResult :=
  parseArray_loop (length tokens) tokens array stack root.

(*@ sese/config/Json.cpp 220-233 Json::parse *)
Fixpoint parse_loop (fuel : nat) (tokens : list bytes) (stack : list pointer) (root : Value.t) : attempt Value.t :=
  match fuel, stack with
  | _, [] => Done root
  | O, _ => Wild
  | S fuel, current :: stack =>
      '(rt, tokens, stack, root) ←
        match get current root with
        | Some (Value.Dict _) => parseObject tokens current stack root
        | Some (Value.List _) => parseArray tokens current stack root
        | Some _ => Done (false, tokens, current :: stack, root)
        | None => Wild
        end;
      if rt : bool then parse_loop fuel tokens stack root else Done Value.Null
  end.

(*@ sese/config/Json.cpp 206-234 Json::parse *)
(** A round takes a token or leaves a container. *)
Definition parse_tokens (tokens : list bytes) : attempt Value.t :=
  match tokens with
  | [] => Wild
  | token :: tokens =>
      let fuel := (2 * length tokens + 2)%nat in
      if bool_decide (token = str "{") then parse_loop fuel tokens [[]] Value.dict
      else if bool_decide (token = str "[") then parse_loop fuel tokens [[]] Value.list_
      else Done Value.Null
  end.

(*@ sese/config/Json.cpp 256-267 Json::parse *)
Definition parse {I} `{InputStream I} (fuel : nat) (input : I) : attempt Value.t :=
  '(ok, tokens) ← lift (tokenizer fuel input);
  if negb ok then Done Value.Null
  else match tokens with [] => Done Value.Null | _ => parse_tokens tokens end.

(** ** Writing *)

Section Streamify.
Context {O : Type} `{OutputStream O}.

(** A value on the stack with the number of its elements that are written. The code uses
    the popped entry through a reference, which is its copy here. *)
Definition Entry : Type := Value.t * Z.

(*@ sese/config/Json.cpp 380-397 Json::streamifyBasic *)
Definition streamifyBasic (out : O) (value : Value.t) : outcome (bool * O) :=
  match value with
  | Value.Null | Value.Bool _ | Value.Int _ | Value.Double _ | Value.String _ => write_all out [Value.toStringBasic value]
  | _ => Val (false, out)
  end.

Definition WriteResult : Type := bool * O * list Entry * list Value.Iter.

(** What is written before an element. *)
Definition separator (first : bytes) (count size : Z) : list bytes :=
  (if count =? 0 then [first] else []) ++ (if (0 <? count) && (count <? size) then [str ","] else []).

(*@ sese/config/Json.cpp 295-330 Json::streamifyObject *)
(** [iter]: the entries from the iterator on. *)
Fixpoint streamifyObject_loop (out : O) (m : list (bytes * Value.t)) (stack : list Entry) (iters : list Value.Iter)
    (count : Z) (iter : Value.Iter) : outcome WriteResult :=
  match iter with
  | [] => Val (true, out, stack, iters)
  | (name, value) :: iter =>
      '(ok, out) ← write_all out (separator (str "{") count (zlen m) ++ [[34]; name; [34; 58]]);
      if negb ok then Val (false, out, stack, iters)
      else
        let count := u32 (count + 1) in
        match value with
        | Value.Dict m' => Val (true, out, (value, 0) :: (Value.Dict m, count) :: stack, m' :: iter :: iters)
        | Value.List _ => Val (true, out, (value, 0) :: (Value.Dict m, count) :: stack, iter :: iters)
        | _ =>
            '(ok, out) ← streamifyBasic out value;
            if negb ok then Val (false, out, stack, iters)
            else if count =? zlen m then '(ok, out) ← write_all out [str "}"]; Val (ok, out, stack, iters)
            else streamifyObject_loop out m stack iters count iter
        end
  end.

(*@ sese/config/Json.cpp 277-331 Json::streamifyObject *)
Definition streamifyObject (out : O) (m : list (bytes * Value.t)) (count : Z) (stack : list Entry) (iters : list Value.Iter) :
    outcome WriteResult :=
  match iters with
  | [] => Undef
  | iter :: iters =>
      match m with
      | [] => '(ok, out) ← write_all out [str "{}"]; Val (ok, out, stack, iters)
      | _ =>
          if count =? zlen m then '(ok, out) ← write_all out [str "}"]; Val (ok, out, stack, iters)
          else streamifyObject_loop out m stack iters count iter
      end
  end.

(*@ sese/config/Json.cpp 349-377 Json::streamifyArray *)
(** [rest]: the elements from [count] on. *)
Fixpoint streamifyArray_loop (out : O) (l : list Value.t) (stack : list Entry) (iters : list Value.Iter) (count : Z)
    (rest : list Value.t) : outcome WriteResult :=
  match rest with
  | [] => Val (true, out, stack, iters)
  | value :: rest =>
      '(ok, out) ← write_all out (separator (str "[") count (zlen l));
      if negb ok then Val (false, out, stack, iters)
      else
        let count := u32 (count + 1) in
        match value with
        | Value.Dict m => Val (true, out, (value, 0) :: (Value.List l, count) :: stack, m :: iters)
        | Value.List _ => Val (true, out, (value, 0) :: (Value.List l, count) :: stack, iters)
        | _ =>
            '(ok, out) ← streamifyBasic out value;
            if negb ok then Val (false, out, stack, iters)
            else if count =? zlen l then '(ok, out) ← write_all out [str "]"]; Val (ok, out, stack, iters)
            else streamifyArray_loop out l stack iters count rest
        end
  end.

(*@ sese/config/Json.cpp 333-378 Json::streamifyArray *)
Definition streamifyArray (out : O) (l : list Value.t) (count : Z) (stack : list Entry) (iters : list Value.Iter) :
    outcome WriteResult :=
  match l with
  | [] => '(ok, out) ← write_all out [str "[]"]; Val (ok, out, stack, iters)
  | _ =>
      if count =? zlen l then '(ok, out) ← write_all out [str "]"]; Val (ok, out, stack, iters)
      else streamifyArray_loop out l stack iters count (zdrop count l)
  end.

(*@ sese/config/Json.cpp 407-421 Json::streamify *)
Fixpoint streamify_loop (fuel : nat) (out : O) (stack : list Entry) (iters : list Value.Iter) : outcome (bool * O) :=
  match fuel, stack with
  | _, [] => Val (true, out)
  | Datatypes.O, _ => Undef
  | S fuel, (v, count) :: stack =>
      '(rt, out, stack, iters) ←
        match v with
        | Value.Dict m => streamifyObject out m count stack iters
        | Value.List l => streamifyArray out l count stack iters
        | _ => Val (false, out, stack, iters)
        end;
      if rt : bool then streamify_loop fuel out stack iters else Val (false, out)
  end.

(** The rounds that a value takes: one, and one more for every container among its elements,
    besides theirs. *)
Fixpoint rounds (v : Value.t) : nat :=
  match v with
  | Value.List l => 1 + list_sum (map (fun v => match rounds v with 0%nat => 0%nat | n => S n end) l)
  | Value.Dict m => 1 + list_sum (map (fun e => match rounds (snd e) with 0%nat => 0%nat | n => S n end) m)
  | _ => 0
  end.

(*@ sese/config/Json.cpp 399-422 Json::streamify *)
Definition streamify (out : O) (value : Value.t) : outcome (bool * O) :=
  streamify_loop (S (rounds value)) out [(value, 0)] (match value with Value.Dict m => [m] | _ => [] end).
End Streamify.
