(* ===== verification/JsonPointer.v ===== *)
(** * JSON: pointers

    Reading and writing through a pointer into a value. *)

From S2P Require Import Prelude Text OrdMap Value Json.

Lemma find_alter k f m : Value.find k (alter_key k f m) = f <$> Value.find k m.
Proof.
  unfold Value.find. induction m as [|[k' v] m IH]; [done|]. cbn [alter_key mfind].
  destruct (lexcmp k k' =? 0) eqn:E; cbn [mfind]; rewrite E; [done|exact IH].
Qed.

Lemma get_modify p f : forall v, get p (modify p f v) = f <$> get p v.
Proof.
  induction p as [|[k|i] p IH]; intros v; [done| |]; destruct v as [| | | | | |l|m]; try done; cbn [modify get].
  - rewrite find_alter. destruct (Value.find k m) as [w|]; [|done]. exact (IH w).
  - rewrite list_lookup_alter_eq. destruct (l !! i) as [w|]; [|done]. exact (IH w).
Qed.

Lemma get_app p q : forall v, get (p ++ q) v = get p v ≫= get q.
Proof.
  induction p as [|[k|i] p IH]; intros v; [done| |]; destruct v as [| | | | | |l|m]; try done; cbn [app get].
  - destruct (Value.find k m) as [w|]; [|done]. exact (IH w).
  - destruct (l !! i) as [w|]; [|done]. exact (IH w).
Qed.

Lemma alter_key_ext k f g m : (forall v, Value.find k m = Some v -> f v = g v) -> alter_key k f m = alter_key k g m.
Proof.
  unfold Value.find. induction m as [|[k' v] m IH]; [done|]. cbn [alter_key mfind]. destruct (_ =? 0); intros Hv.
  - by rewrite Hv.
  - by rewrite IH.
Qed.

(** A change depends on the value at the pointer only. *)
Lemma modify_ext p f g : forall v w, get p v = Some w -> f w = g w -> modify p f v = modify p g v.
Proof.
  induction p as [|[k|i] p IH]; intros v w Hw Hf; [injection Hw as ->; exact Hf| |];
    destruct v as [| | | | | |l|m]; try done; cbn [modify get] in *.
  - f_equal. apply alter_key_ext. intros x Hx. rewrite Hx in Hw. by apply (IH x w).
  - f_equal. apply list_eq. intros j. destruct (decide (j = i)) as [->|Hj].
    + rewrite !list_lookup_alter_eq. destruct (l !! i) as [x|] eqn:Hx; [|done]. cbn. f_equal. by apply (IH x w).
    + by rewrite !list_lookup_alter_ne by done.
Qed.

Lemma alter_key_compose k f g m : alter_key k f (alter_key k g m) = alter_key k (fun v => f (g v)) m.
Proof.
  induction m as [|[k' v] m IH]; [done|]. cbn [alter_key]. destruct (lexcmp k k' =? 0) eqn:E; cbn [alter_key]; rewrite E; [done|by rewrite IH].
Qed.

Lemma modify_compose p f g : forall v, modify p f (modify p g v) = modify p (fun x => f (g x)) v.
Proof.
  induction p as [|[k|i] p IH]; intros v; [done| |]; destruct v as [| | | | | |l|m]; try done; cbn [modify]; f_equal.
  - rewrite alter_key_compose. apply alter_key_ext. intros x _. apply IH.
  - apply list_eq. intros j. destruct (decide (j = i)) as [->|Hj].
    + rewrite !list_lookup_alter_eq. destruct (l !! i) as [x|]; [|done]. cbn. f_equal. apply IH.
    + by rewrite !list_lookup_alter_ne by done.
Qed.

Lemma modify_app p q f : forall v, modify (p ++ q) f v = modify p (modify q f) v.
Proof. induction p as [|[k|i] p IH]; intros v; [done| |]; destruct v as [| | | | | |l|m]; try done; cbn [app modify]; f_equal.
  - apply alter_key_ext. intros x _. apply IH.
  - apply list_eq. intros j. destruct (decide (j = i)) as [->|Hj].
    + rewrite !list_lookup_alter_eq. destruct (l !! i) as [x|]; [|done]. cbn. f_equal. apply IH.
    + by rewrite !list_lookup_alter_ne by done.
Qed.
Lemma modify_same p : forall v w, get p v = Some w -> modify p (fun _ => w) v = v.
Proof.
  induction p as [|[k|i] p IH]; intros v w Hw; [by injection Hw|idtac|idtac]; destruct v as [| | | | | |l|m]; try done; cbn [get modify] in *; f_equal.
  - unfold Value.find in Hw. induction m as [|[k' x] m IHm]; [done|]. cbn [mfind alter_key] in *.
    destruct (lexcmp k k' =? 0); [by rewrite IH|by rewrite IHm].
  - apply list_eq. intros j. destruct (decide (j = i)) as [->|Hj]; [|by rewrite list_lookup_alter_ne].
    rewrite list_lookup_alter_eq. destruct (l !! i) as [x|] eqn:Hx; [|done]. cbn in *. by rewrite IH.
Qed.

(** The value at a pointer is the last one written there. *)
Lemma modify_const p f w v : get p v = Some w -> modify p f v = modify p (fun _ => f w) v.
Proof. intros Hw. by apply (modify_ext p _ _ v w). Qed.
