(* ===== verification/JsonTotal.v ===== *)
(** * JSON: the parser ends

    The tokenizer reads any stream to its end, and the parser takes any tokens, with a
    value or an exception as its result. *)

From S2P Require Import Prelude Streams Text OrdMap Double Value Json JsonPointer InputBufferWrapper.

(** ** The tokenizer *)

Section Tokenizer.
Context {I : Type} `{MemInput I}.

(** What is left of the stream is no longer than [n]. *)
Definition left_ (source : I) (n : nat) : Prop := in_valid source /\ (length (in_content source) <= n)%nat.

Lemma next_char_left source n : left_ source n ->
  exists ch source', next_char source = Val (ch, source') /\
    match ch with None => left_ source' 0 | Some _ => (0 < n)%nat /\ left_ source' (n - 1) end.
Proof.
  intros [Hv Hn]. destruct (next_char_any source Hv) as (ch & s & E & V & C). exists ch, s. split; [done|]. unfold left_.
  destruct ch; rewrite C in *; cbn in *; split_and!; done || lia.
Qed.

Lemma left_weaken source n m : left_ source n -> (n <= m)%nat -> left_ source m.
Proof. intros [Hv Hn] Hm. split; [done|lia]. Qed.

Lemma string_loop_left fuel : forall source builder tokens n, left_ source n -> (n < fuel)%nat ->
  exists ok b ts source', string_loop fuel source builder tokens = Val (ok, b, ts, source') /\ left_ source' n.
Proof.
  induction fuel as [fuel IH] using lt_wf_ind. intros source builder tokens n Hn Hf. destruct fuel as [|fuel]; [lia|]. cbn [string_loop].
  destruct (next_char_left source n Hn) as (ch & s & -> & C). rewrite bind_Val.
  destruct ch as [c|]; [|do 4 eexists; split; [done|]; eapply left_weaken; [done|lia]]. destruct C as [Hpos C].
  destruct (c =? 92).
  - destruct (next_char_left s (n - 1) C) as (ch & s' & -> & C'). rewrite bind_Val.
    destruct ch as [d|]; [|do 4 eexists; split; [done|]; eapply left_weaken; [done|lia]]. destruct C' as [Hpos' C'].
    destruct (IH fuel ltac:(lia) s' (builder ++ [92; d]) tokens _ C' ltac:(lia)) as (ok & b & ts & s2 & E & C2).
    rewrite E. do 4 eexists. split; [done|]. eapply left_weaken; [done|lia].
  - destruct (c =? 34); [do 4 eexists; split; [done|]; eapply left_weaken; [done|lia]|].
    destruct (IH fuel ltac:(lia) s (builder ++ [c]) tokens _ C ltac:(lia)) as (ok & b & ts & s2 & E & C2).
    rewrite E. do 4 eexists. split; [done|]. eapply left_weaken; [done|lia].
Qed.

Lemma plain_loop_left fuel : forall source builder tokens n, left_ source n -> (n < fuel)%nat ->
  exists b ts source', plain_loop fuel source builder tokens = Val (b, ts, source') /\ left_ source' n.
Proof.
  induction fuel as [|fuel IH]; intros source builder tokens n Hn Hf; [lia|]. cbn [plain_loop].
  destruct (next_char_left source n Hn) as (ch & s & -> & C). rewrite bind_Val.
  destruct ch as [c|]; [|do 3 eexists; split; [done|]; eapply left_weaken; [done|lia]]. destruct C as [Hpos C].
  destruct (keyword_char c); [do 3 eexists; split; [done|]; eapply left_weaken; [done|lia]|].
  destruct (isSpace c); [do 3 eexists; split; [done|]; eapply left_weaken; [done|lia]|].
  destruct (c =? 44); [do 3 eexists; split; [done|]; eapply left_weaken; [done|lia]|].
  destruct (IH s (builder ++ [c]) tokens _ C ltac:(lia)) as (b & ts & s2 & E & C2).
  rewrite E. do 3 eexists. split; [done|]. eapply left_weaken; [done|lia].
Qed.

Lemma tokenizer_ends fuel : forall source builder tokens n, left_ source n -> (n < fuel)%nat ->
  exists ok ts, tokenizer_loop fuel source builder tokens = Val (ok, ts).
Proof.
  induction fuel as [|fuel IH]; intros source builder tokens n Hn Hf; [lia|]. cbn [tokenizer_loop].
  destruct (next_char_left source n Hn) as (ch & s & -> & C). rewrite bind_Val.
  destruct ch as [c|]; [|by eexists _, _]. destruct C as [Hpos C].
  destruct (existsb _ _); [eapply IH; [done|lia]|].
  destruct (c =? 34).
  - destruct (string_loop_left fuel s (builder ++ [34]) tokens _ C ltac:(lia)) as (ok & b & ts & s2 & -> & C2). rewrite bind_Val.
    destruct ok; [eapply IH; [done|lia]|by eexists _, _].
  - destruct (isSpace c); [eapply IH; [done|lia]|].
    destruct (plain_loop_left fuel s (builder ++ [c]) tokens _ C ltac:(lia)) as (b & ts & s2 & -> & C2). rewrite bind_Val.
    eapply IH; [done|lia].
Qed.
End Tokenizer.

(** ** The stack of the parser *)

(** Each pointer on the stack leads through those below it, and the top one points to a
    value. *)
Fixpoint nested (stack : list pointer) : Prop :=
  match stack with [] => True | p :: stack => match stack with [] => True | q :: _ => exists r, p = q ++ r end /\ nested stack end.
Definition stack_ok (root : Value.t) (stack : list pointer) : Prop :=
  nested stack /\ match stack with [] => True | p :: _ => exists v, get p root = Some v end.

Lemma stack_pop root p stack : stack_ok root (p :: stack) -> stack_ok root stack.
Proof.
  intros [[Hq Hn] [v Hv]]. split; [done|]. destruct stack as [|q stack]; [done|]. destruct Hq as [s ->].
  rewrite get_app in Hv. destruct (get q root) as [w|]; [by exists w|done].
Qed.

Lemma stack_modify root p stack f : stack_ok root (p :: stack) -> stack_ok (modify p f root) (p :: stack).
Proof. intros [Hn [v Hv]]. split; [done|]. rewrite get_modify, Hv. by eexists. Qed.

Lemma stack_push root p stack step : stack_ok root (p :: stack) -> (exists v, get (p ++ [step]) root = Some v) ->
  stack_ok root ((p ++ [step]) :: p :: stack).
Proof. intros [Hn _] Hv. split; [|done]. split; [by eexists|done]. Qed.

Lemma find_setRef k w m : exists v, Value.find k (Value.setRef k w m) = Some v.
Proof.
  unfold Value.setRef, Value.contains. destruct (Value.find k m) as [v|] eqn:E; [by exists v|]. exists w. apply mfind_mset_self.
Qed.

(** A round of the parser ends, and leaves less to do. *)
Definition round_ok (n : nat) (a : attempt ParseResult) : Prop :=
  match a with
  | Done (true, tokens, stack, root) => stack_ok root stack /\ (2 * length tokens + length stack <= n)%nat
  | Done (false, _, _, _) | Thrown => True
  | Wild => False
  end.

Lemma round_weaken n m a : round_ok n a -> (n <= m)%nat -> round_ok m a.
Proof. destruct a as [[[[[] ?] ?] ?]| |]; cbn; try done. intros [? ?] ?. split; [done|lia]. Qed.

Lemma parseBasic_ends value : parseBasic value <> Wild.
Proof.
  unfold parseBasic. repeat (destruct (bool_decide _); [done|]). destruct (existsb _ _); [by destruct (stod value)|by destruct (stoll value)].
Qed.

Lemma parseObject_ok fuel : forall tokens object stack root m, (length tokens <= fuel)%nat -> stack_ok root (object :: stack) ->
  get object root = Some (Value.Dict m) ->
  round_ok (2 * length tokens + length stack) (parseObject_loop fuel tokens object stack root).
Proof.
  induction fuel as [|fuel IH]; intros [|name tokens] object stack root m Hf Hs Hm; cbn [length] in *; try done; try lia.
  cbn [parseObject_loop]. destruct (bool_decide _). { split; [by eapply stack_pop|]. lia. }
  assert (forall name' tokens', skip_comma name tokens = Some (name', tokens') -> (length tokens' <= length tokens)%nat) as Hc.
  { unfold skip_comma. intros name' tokens'. destruct (bool_decide _); [destruct tokens|]; intros [= <- <-]; cbn; lia. }
  destruct (skip_comma name tokens) as [[name' tokens']|]; [|done]. specialize (Hc _ _ eq_refl). destruct (strip name') as [key|]; [|done].
  cbn [or_throw]. change (Done ?v ≫= ?f) with (f v). cbv beta.
  destruct tokens' as [|colon tokens']; [done|]. destruct (negb _); [done|]. destruct tokens' as [|value tokens']; [done|]. cbn [length] in Hc.
  assert (forall w, stack_ok (modify object (on_dict (Value.setRef key w)) root) ((object ++ [Key key]) :: object :: stack)) as Hpush.
  { intros w. apply stack_push; [by apply stack_modify|]. rewrite get_app, get_modify, Hm. cbn. destruct (find_setRef key w m) as [v ->]. by exists v. }
  destruct (bool_decide _); [split; [apply Hpush|cbn; lia]|]. destruct (bool_decide _); [split; [apply Hpush|cbn; lia]|].
  destruct (isKeyword value); [done|]. destruct (parseBasic value) as [v| |] eqn:Eb; [|done|].
  - change (Done ?v ≫= ?f) with (f v). cbv beta. eapply round_weaken; [eapply IH|].
    + lia.
    + by apply stack_modify.
    + by rewrite get_modify, Hm.
    + lia.
  - by apply parseBasic_ends in Eb.
Qed.

Lemma parseArray_ok fuel : forall tokens array stack root l, (length tokens <= fuel)%nat -> stack_ok root (array :: stack) ->
  get array root = Some (Value.List l) ->
  round_ok (2 * length tokens + length stack) (parseArray_loop fuel tokens array stack root).
Proof.
  induction fuel as [|fuel IH]; intros [|token tokens] array stack root l Hf Hs Hl; cbn [length] in *; try lia.
  1, 2: split; [by eapply stack_pop|cbn; lia].
  cbn [parseArray_loop]. destruct (bool_decide _). { split; [by eapply stack_pop|]. lia. }
  assert (forall token' tokens', skip_comma token tokens = Some (token', tokens') -> (length tokens' <= length tokens)%nat) as Hc.
  { unfold skip_comma. intros token' tokens'. destruct (bool_decide _); [destruct tokens|]; intros [= <- <-]; cbn; lia. }
  destruct (skip_comma token tokens) as [[token' tokens']|]; [|done]. specialize (Hc _ _ eq_refl). rewrite Hl. cbv zeta.
  assert (forall w, stack_ok (modify array (on_list (fun l => Value.append l w)) root) ((array ++ [Index (length l)]) :: array :: stack)) as Hpush.
  { intros w. apply stack_push; [by apply stack_modify|]. rewrite get_app, get_modify, Hl. cbn. unfold Value.append.
    rewrite list_lookup_middle by done. by exists w. }
  destruct (bool_decide _); [split; [apply Hpush|cbn; lia]|]. destruct (bool_decide _); [split; [apply Hpush|cbn; lia]|].
  destruct (isKeyword token'); [done|]. destruct (parseBasic token') as [v| |] eqn:Eb; [|done|by apply parseBasic_ends in Eb].
  change (Done ?v ≫= ?f) with (f v). cbv beta. eapply round_weaken; [eapply IH|].
  - lia.
  - by apply stack_modify.
  - by rewrite get_modify, Hl.
  - lia.
Qed.

Lemma parse_loop_ends fuel : forall tokens stack root, stack_ok root stack -> (2 * length tokens + length stack <= fuel)%nat ->
  parse_loop fuel tokens stack root <> Wild.
Proof.
  induction fuel as [|fuel IH]; intros tokens [|current stack] root Hs Hf; cbn [length] in *; try done; try lia.
  cbn [parse_loop]. destruct Hs as [Hn [v Hv]]. rewrite Hv.
  assert (forall a, round_ok (2 * length tokens + length stack) a ->
    ('(rt, tokens, stack, root) ← a; if rt : bool then parse_loop fuel tokens stack root else Done Value.Null) <> Wild) as Hr.
  { intros [[[[[] ts] st] rt]| |]; cbn; try done. intros [Hs Hl]. apply IH; [done|lia]. }
  apply Hr. assert (stack_ok root (current :: stack)) as Hs by (split; [done|by exists v]).
  destruct v as [| | | | | |l|m]; try done; [by eapply parseArray_ok|by eapply parseObject_ok].
Qed.

Lemma parse_tokens_ends tokens : tokens <> [] -> parse_tokens tokens <> Wild.
Proof.
  intros Hne. destruct tokens as [|token tokens]; [done|]. unfold parse_tokens.
  assert (forall root, parse_loop (2 * length tokens + 2) tokens [[]] root <> Wild) as Hl.
  { intros root. apply parse_loop_ends; [|cbn; lia]. split; [done|]. by exists root. }
  destruct (bool_decide _); [done|]. by destruct (bool_decide _).
Qed.

(** C13: Parsing JSON ends for every input: whatever a memory stream holds, [Json::parse] of it
    returns a value or lets the exception of a number conversion out, within a number of steps
    that its length bounds; no pointer of the parser's stack is lost. *)
Theorem json_parse_ends {I} `{MemInput I} (input : I) fuel : in_valid input -> (length (in_content input) < fuel)%nat ->
  (exists v, parse fuel input = Done v) \/ parse fuel input = Thrown.
Proof.
  intros Hv Hf. enough (parse fuel input <> Wild) as Hw by (destruct (parse fuel input); [left; by eexists|by right|done]).
  unfold parse, tokenizer.
  destruct (tokenizer_ends fuel input [] [] (length (in_content input)) ltac:(by split) Hf) as (ok & ts & ->).
  cbn [lift]. change (Done ?v ≫= ?f) with (f v). cbv beta iota. destruct (negb ok); [done|].
  destruct ts as [|t ts]; [done|]. by apply parse_tokens_ends.
Qed.

(** Text that breaks off, and a number that is too large. *)
Abbreviation broken := (str "{" ++ [34] ++ str "a" ++ [34] ++ str ":[1,{").
Abbreviation large := (str "[99999999999999999999]").
Lemma json_parse_ends_witness :
  ((exists v, parse 100 (InputBufferWrapper.create broken (zlen broken)) = Done v) \/ parse 100 (InputBufferWrapper.create broken (zlen broken)) = Thrown) /\
  parse 100 (InputBufferWrapper.create broken (zlen broken)) = Done Value.Null /\
  parse 100 (InputBufferWrapper.create large (zlen large)) = Thrown.
Proof.
  split; [apply json_parse_ends; vm_compute; [done|apply Nat.ltb_lt; reflexivity]|]. split; vm_compute; reflexivity.
Defined.
