(* ===== verification/JsonWrite.v ===== *)
(** * JSON: writing

    The text of a value and its tokens; the stack machine of [streamify] writes the text. *)

From Stdlib Require Import SpecFloat.
From S2P Require Import Prelude Streams Text OrdMap Double Value Json.

(** ** The text of a value *)

Definition quote (s : bytes) : bytes := [34] ++ s ++ [34].

(** Tokens with a comma between the groups. *)
Definition comma_tokens (groups : list (list bytes)) : list bytes :=
  match groups with [] => [] | g :: groups => g ++ (groups ≫= (fun g => str "," :: g)) end.

(** The tokens of a value, and its text. *)
Fixpoint tokens_of (v : Value.t) : list bytes :=
  match v with
  | Value.Dict m => [str "{"] ++ comma_tokens (map (fun e => [quote (fst e); str ":"] ++ tokens_of (snd e)) m) ++ [str "}"]
  | Value.List l => [str "["] ++ comma_tokens (map tokens_of l) ++ [str "]"]
  | _ => [Value.toStringBasic v]
  end.
Definition json_text (v : Value.t) : bytes := concat (tokens_of v).

Definition container (v : Value.t) : bool := match v with Value.Dict _ | Value.List _ => true | _ => false end.

(** ** Values that can be written *)

(** A string in which every backslash escapes a byte and no quotation mark stands alone. *)
Fixpoint escaped (s : bytes) : bool :=
  match s with
  | [] => true
  | c :: s =>
      if c =? 92 then match s with [] => false | _ :: s => escaped s end
      else negb (c =? 34) && escaped s
  end.

(** A number that six digits after the point tell. *)
Definition double_ok (d : double) : Prop :=
  match d with S754_zero _ | S754_finite _ _ _ => stod (to_string_f d) = Some d | _ => False end.

Inductive json_ok : Value.t -> Prop :=
| ok_null : json_ok Value.Null
| ok_bool b : json_ok (Value.Bool b)
| ok_int n : - 2 ^ 63 <= n < 2 ^ 63 -> json_ok (Value.Int n)
| ok_double d : double_ok d -> json_ok (Value.Double d)
| ok_string s : escaped s = true -> json_ok (Value.String s)
| ok_list l : Forall json_ok l -> zlen l < 2 ^ 32 -> json_ok (Value.List l)
| ok_dict m : Forall (fun e => escaped (fst e) = true /\ json_ok (snd e)) m -> msorted lexcmp m -> zlen m < 2 ^ 32 ->
    json_ok (Value.Dict m).

(** ** The writer *)

(** The text of the elements from the one at [count] on, with the closing bracket. *)
Fixpoint rest_text (open close : bytes) (count : Z) (texts : list bytes) : bytes :=
  match texts with
  | [] => close
  | t :: texts => (if count =? 0 then open else str ",") ++ t ++ rest_text open close (count + 1) texts
  end.
Definition entry_text (e : bytes * Value.t) : bytes := quote (fst e) ++ str ":" ++ json_text (snd e).

Section Writer.
Context {O : Type} `{MemOutput O}.

(** [out] has received [text], and has room for [n] more bytes. *)
Definition received (out : O) (out0 : O) (text : bytes) (n : Z) : Prop :=
  out_valid out /\ out_content out = out_content out0 ++ text /\ out_room out n.

Lemma write_pieces out n pieces : out_valid out -> 0 <= n -> out_room out (zlen (concat pieces) + n) ->
  exists out', write_all out pieces = Val (true, out') /\ received out' out (concat pieces) n.
Proof. intros Hv Hn Hr. destruct (write_all_spec pieces out n Hv Hr Hn) as (o & E & V & C & R). by exists o. Qed.

Lemma received_app out0 out1 out2 t1 t2 n m : received out1 out0 t1 n -> received out2 out1 t2 m -> received out2 out0 (t1 ++ t2) m.
Proof. intros (_ & C1 & _) (V2 & C2 & R2). split; [done|]. split; [|done]. by rewrite C2, C1, <- app_assoc. Qed.

Lemma streamifyBasic_spec v out n : json_ok v -> container v = false -> out_valid out -> 0 <= n ->
  out_room out (zlen (json_text v) + n) ->
  exists out', streamifyBasic out v = Val (true, out') /\ received out' out (json_text v) n.
Proof.
  intros Hv Hc Ho Hn Hr. unfold json_text in *. destruct Hv; try done; by apply write_pieces.
Qed.

(** The iterator that is pushed with a value. *)
Definition iters_of (v : Value.t) : list Value.Iter := match v with Value.Dict m => [m] | _ => [] end.

(** The rounds of a container write its text and take it off the stacks. *)
Definition written (v : Value.t) : Prop :=
  container v = true -> json_ok v -> forall fuel out stack iters n, out_valid out -> 0 <= n -> out_room out (zlen (json_text v) + n) ->
  exists out', received out' out (json_text v) n /\
    streamify_loop (rounds v + fuel) out ((v, 0) :: stack) (iters_of v ++ iters) = streamify_loop fuel out' stack iters.

(** The rounds of an element. *)
Definition element_rounds (v : Value.t) : nat := match rounds v with 0%nat => 0%nat | n => S n end.

Lemma container_rounds v : container v = true -> element_rounds v = S (rounds v).
Proof. by destruct v. Qed.
Lemma basic_rounds v : container v = false -> element_rounds v = 0%nat.
Proof. by destruct v. Qed.

(** What the outer loop does with the result of a round. *)
Definition continue (fuel : nat) (r : WriteResult) : outcome (bool * O) :=
  let '(rt, out, stack, iters) := r in if rt : bool then streamify_loop fuel out stack iters else Val (false, out).

Lemma separator_text first count size : 0 <= count < size ->
  concat (separator first count size) = if count =? 0 then first else str ",".
Proof.
  intros Hc. unfold separator. destruct (count =? 0) eqn:E; zbool.
  - rewrite (proj2 (Z.ltb_ge 0 count)) by lia. cbn. by rewrite app_nil_r.
  - rewrite (proj2 (Z.ltb_lt 0 count)), (proj2 (Z.ltb_lt count size)) by lia. done.
Qed.

(** The end of a container. *)
Lemma close_spec out close n stack iters fuel : out_valid out -> 0 <= n -> out_room out (zlen close + n) ->
  exists out', received out' out close n /\
    ('(ok, out) ← write_all out [close]; Val (ok, out, stack, iters)) ≫= continue fuel = streamify_loop fuel out' stack iters.
Proof.
  intros Ho Hn Hr. destruct (write_pieces out n [close] Ho Hn) as (o & E & R).
  { cbn [concat]. by rewrite app_nil_r. }
  cbn [concat] in R. rewrite app_nil_r in R. exists o. split; [done|]. by rewrite E.
Qed.

Lemma object_written m stack iters fuel : m <> [] -> zlen m < 2 ^ 32 ->
  forall iter pre out n, m = pre ++ iter -> iter <> [] -> Forall (fun e => json_ok (snd e) /\ written (snd e)) iter ->
  let text := rest_text (str "{") (str "}") (zlen pre) (map entry_text iter) in
  out_valid out -> 0 <= n -> out_room out (zlen text + n) ->
  exists out', received out' out text n /\
    streamifyObject_loop out m stack iters (zlen pre) iter ≫= continue (list_sum (map (fun e => element_rounds (snd e)) iter) + fuel)
    = streamify_loop fuel out' stack iters.
Proof.
  intros Hm Hz. induction iter as [|[name v] iter IH]; intros pre out n Em Hne Hall text Ho Hn Hr; [done|].
  apply Forall_cons in Hall as [[Hok Hv] Hall]. cbn [snd] in Hok, Hv.
  assert (0 <= zlen pre < zlen m) as Hpre.
  { rewrite Em, zlen_app, zlen_cons. pose proof (zlen_nonneg pre). pose proof (zlen_nonneg iter). lia. }
  assert (zlen m = zlen pre + 1 + zlen iter) as Hzm by (rewrite Em, zlen_app, zlen_cons; lia).
  set (tail := rest_text (str "{") (str "}") (zlen pre + 1) (map entry_text iter)).
  set (head_ := separator (str "{") (zlen pre) (zlen m) ++ [[34]; name; [34; 58]]).
  assert (text = concat head_ ++ json_text v ++ tail) as Et.
  { subst text head_ tail. cbn [map rest_text]. rewrite concat_app, separator_text by done. unfold entry_text, quote. cbn [fst snd concat].
    by rewrite <- !app_assoc. }
  clearbody text. subst text. rewrite !zlen_app, <- !Z.add_assoc in Hr.
  pose proof (zlen_nonneg (json_text v)). pose proof (zlen_nonneg tail).
  cbn [streamifyObject_loop]. fold head_.
  destruct (write_pieces out (zlen (json_text v) + (zlen tail + n)) head_ Ho ltac:(lia) Hr) as (o1 & -> & R1). rewrite bind_Val. cbn [negb]. cbv zeta.
  rewrite (wrap_small 32) by (unfold is_u; lia). destruct R1 as (V1 & C1 & R1).
  assert (forall o2 t, received o2 o1 t (zlen tail + n) -> exists out', received out' o2 tail n /\
    (if zlen pre + 1 =? zlen m then '(ok, out) ← write_all o2 [str "}"]; Val (ok, out, stack, iters)
     else streamifyObject_loop o2 m stack iters (zlen pre + 1) iter) ≫=
      continue (list_sum (map (fun e => element_rounds (snd e)) iter) + fuel) = streamify_loop fuel out' stack iters) as Hrest.
  { intros o2 t (V2 & _ & R2). destruct iter as [|e iter].
    - rewrite zlen_nil in Hzm. rewrite (proj2 (Z.eqb_eq _ _)) by lia. apply (close_spec o2 (str "}") n stack iters); done.
    - rewrite (proj2 (Z.eqb_neq _ _)) by (rewrite zlen_cons in Hzm; pose proof (zlen_nonneg iter); lia).
      assert (zlen pre + 1 = zlen (pre ++ [(name, v)])) as El by (by rewrite zlen_app).
      subst tail. rewrite El in *. apply IH; try done. by rewrite <- app_assoc. }
  cbn [map list_sum snd]. change (list_sum (?x :: ?l)) with (x + list_sum l)%nat.
  destruct (container v) eqn:Ec.
  - rewrite (container_rounds v Ec).
    destruct (Hv Ec Hok (S (list_sum (map (fun e => element_rounds (snd e)) iter) + fuel)) o1 ((Value.Dict m, zlen pre + 1) :: stack)
      (iter :: iters) (zlen tail + n)) as (o2 & R2 & E2); [done|lia|done|].
    destruct (Hrest o2 _ R2) as (o3 & R3 & E3). exists o3.
    split; [eapply received_app; [split; [exact V1|split; [exact C1|exact R1]]|]; eapply received_app; done|].
    rewrite <- E3. replace (S (rounds v) + list_sum (map (fun e => element_rounds (snd e)) iter) + fuel)%nat with
      (rounds v + S (list_sum (map (fun e => element_rounds (snd e)) iter) + fuel))%nat by lia.
    destruct v; try done; cbn [iters_of app] in E2; rewrite bind_Val; cbn [continue]; refine (eq_trans E2 _); cbn [streamify_loop];
      unfold streamifyObject; (destruct m; [done|]); by destruct (_ =? _).
  - rewrite (basic_rounds v Ec). destruct (streamifyBasic_spec v o1 (zlen tail + n) Hok Ec V1) as (o2 & E2 & R2); [lia|done|].
    destruct (Hrest o2 _ R2) as (o3 & R3 & E3). exists o3.
    split; [eapply received_app; [split; [exact V1|split; [exact C1|exact R1]]|]; eapply received_app; done|].
    rewrite <- E3. destruct v; try done; by rewrite E2.
Qed.

Lemma array_written l stack iters fuel : l <> [] -> zlen l < 2 ^ 32 ->
  forall rest pre out n, l = pre ++ rest -> rest <> [] -> Forall (fun v => json_ok v /\ written v) rest ->
  let text := rest_text (str "[") (str "]") (zlen pre) (map json_text rest) in
  out_valid out -> 0 <= n -> out_room out (zlen text + n) ->
  exists out', received out' out text n /\
    streamifyArray_loop out l stack iters (zlen pre) rest ≫= continue (list_sum (map element_rounds rest) + fuel)
    = streamify_loop fuel out' stack iters.
Proof.
  intros Hl Hz. induction rest as [|v rest IH]; intros pre out n El Hne Hall text Ho Hn Hr; [done|].
  apply Forall_cons in Hall as [[Hok Hv] Hall].
  assert (0 <= zlen pre < zlen l) as Hpre.
  { rewrite El, zlen_app, zlen_cons. pose proof (zlen_nonneg pre). pose proof (zlen_nonneg rest). lia. }
  assert (zlen l = zlen pre + 1 + zlen rest) as Hzl by (rewrite El, zlen_app, zlen_cons; lia).
  set (tail := rest_text (str "[") (str "]") (zlen pre + 1) (map json_text rest)).
  set (head_ := separator (str "[") (zlen pre) (zlen l)).
  assert (text = concat head_ ++ json_text v ++ tail) as Et.
  { subst text head_ tail. cbn [map rest_text]. by rewrite separator_text. }
  clearbody text. subst text. rewrite !zlen_app, <- !Z.add_assoc in Hr.
  pose proof (zlen_nonneg (json_text v)). pose proof (zlen_nonneg tail).
  cbn [streamifyArray_loop]. fold head_.
  destruct (write_pieces out (zlen (json_text v) + (zlen tail + n)) head_ Ho ltac:(lia) Hr) as (o1 & -> & R1). rewrite bind_Val. cbn [negb]. cbv zeta.
  rewrite (wrap_small 32) by (unfold is_u; lia). destruct R1 as (V1 & C1 & R1).
  assert (forall o2 t, received o2 o1 t (zlen tail + n) -> exists out', received out' o2 tail n /\
    (if zlen pre + 1 =? zlen l then '(ok, out) ← write_all o2 [str "]"]; Val (ok, out, stack, iters)
     else streamifyArray_loop o2 l stack iters (zlen pre + 1) rest) ≫=
      continue (list_sum (map element_rounds rest) + fuel) = streamify_loop fuel out' stack iters) as Hrest.
  { intros o2 t (V2 & _ & R2). destruct rest as [|e rest].
    - rewrite zlen_nil in Hzl. rewrite (proj2 (Z.eqb_eq _ _)) by lia. apply (close_spec o2 (str "]") n stack iters); done.
    - rewrite (proj2 (Z.eqb_neq _ _)) by (rewrite zlen_cons in Hzl; pose proof (zlen_nonneg rest); lia).
      assert (zlen pre + 1 = zlen (pre ++ [v])) as Ez by (by rewrite zlen_app).
      subst tail. rewrite Ez in *. apply IH; try done. by rewrite <- app_assoc. }
  cbn [map]. change (list_sum (?x :: ?l)) with (x + list_sum l)%nat.
  destruct (container v) eqn:Ec.
  - rewrite (container_rounds v Ec).
    destruct (Hv Ec Hok (S (list_sum (map element_rounds rest) + fuel)) o1 ((Value.List l, zlen pre + 1) :: stack)
      iters (zlen tail + n)) as (o2 & R2 & E2); [done|lia|done|].
    destruct (Hrest o2 _ R2) as (o3 & R3 & E3). exists o3.
    split; [eapply received_app; [split; [exact V1|split; [exact C1|exact R1]]|]; eapply received_app; done|].
    rewrite <- E3. replace (S (rounds v) + list_sum (map element_rounds rest) + fuel)%nat with
      (rounds v + S (list_sum (map element_rounds rest) + fuel))%nat by lia.
    assert (zdrop (zlen pre + 1) l = rest) as Ed.
    { rewrite El. change (v :: rest) with ([v] ++ rest). rewrite app_assoc, zdrop_app_ge by (rewrite zlen_app; change (zlen [v]) with 1; lia).
      rewrite zlen_app. change (zlen [v]) with 1. by rewrite Z.sub_diag, zdrop_0. }
    destruct v; try done; cbn [iters_of app] in E2; rewrite bind_Val; cbn [continue]; refine (eq_trans E2 _); cbn [streamify_loop];
      unfold streamifyArray; rewrite Ed; (destruct l; [done|]); by destruct (_ =? _).
  - rewrite (basic_rounds v Ec). destruct (streamifyBasic_spec v o1 (zlen tail + n) Hok Ec V1) as (o2 & E2 & R2); [lia|done|].
    destruct (Hrest o2 _ R2) as (o3 & R3 & E3). exists o3.
    split; [eapply received_app; [split; [exact V1|split; [exact C1|exact R1]]|]; eapply received_app; done|].
    rewrite <- E3. destruct v; try done; by rewrite E2.
Qed.

(** ** The text of a container *)

Lemma rest_text_later open close count ts : 0 < count ->
  rest_text open close count ts = concat (map (fun t => str "," ++ t) ts) ++ close.
Proof.
  revert count. induction ts as [|t ts IH]; intros count Hc; [done|]. cbn [rest_text map concat].
  rewrite (proj2 (Z.eqb_neq _ _)) by lia. rewrite IH by lia. by rewrite <- !app_assoc.
Qed.

Lemma comma_tokens_text open close (groups : list (list bytes)) : groups <> [] ->
  concat ([open] ++ comma_tokens groups ++ [close]) = rest_text open close 0 (map (@concat byte) groups).
Proof.
  destruct groups as [|g gs]; [done|]. intros _. cbn [comma_tokens map rest_text]. rewrite rest_text_later by lia.
  cbn [app concat Z.eqb]. f_equal. rewrite !concat_app. cbn [concat]. rewrite app_nil_r, <- app_assoc. do 2 f_equal.
  induction gs as [|h gs IH]; [done|]. rewrite bind_cons, concat_app. cbn [map concat]. by rewrite IH.
Qed.

Lemma dict_text m : m <> [] -> json_text (Value.Dict m) = rest_text (str "{") (str "}") 0 (map entry_text m).
Proof.
  intros Hm. unfold json_text. cbn [tokens_of]. rewrite comma_tokens_text by (by destruct m). by rewrite map_map.
Qed.

Lemma list_text l : l <> [] -> json_text (Value.List l) = rest_text (str "[") (str "]") 0 (map json_text l).
Proof. intros Hl. unfold json_text. cbn [tokens_of]. rewrite comma_tokens_text by (by destruct l). by rewrite map_map. Qed.

(** Every container is written. *)
Lemma all_written v : written v.
Proof.
  induction v as [|b0|z0|d0|s0|b1|l IH|m IH] using Value.value_ind; intros Hc Hok fuel out stack iters n Ho Hn Hr; try done.
  - inversion Hok as [| | | | |? Hl Hz|]; subst. destruct l as [|v l].
    + destruct (close_spec out (str "[]") n stack iters fuel Ho Hn Hr) as (o & R & E). exists o. split; [exact R|exact E].
    + rewrite list_text in * by done.
      destruct (array_written (v :: l) stack iters fuel ltac:(done) Hz (v :: l) [] out n) as (o & R & E); try done.
      { apply Forall_and. by split. }
      exists o. split; [exact R|]. rewrite <- E. cbn [iters_of app].
      change (rounds (Value.List (v :: l)) + fuel)%nat with (S (list_sum (map element_rounds (v :: l)) + fuel)).
      cbn [streamify_loop]. unfold streamifyArray. change (zlen (@nil Value.t)) with 0.
      rewrite (proj2 (Z.eqb_neq 0 _)) by (rewrite zlen_cons; pose proof (zlen_nonneg l); lia). done.
  - inversion Hok as [| | | | | |? Hm Hs Hz]; subst. destruct m as [|e m].
    + destruct (close_spec out (str "{}") n stack iters fuel Ho Hn Hr) as (o & R & E). exists o. split; [exact R|exact E].
    + rewrite dict_text in * by done.
      destruct (object_written (e :: m) stack iters fuel ltac:(done) Hz (e :: m) [] out n) as (o & R & E); try done.
      { apply Forall_and. split; [|exact IH]. eapply Forall_impl; [exact Hm|]. by intros e0 [_ He]. }
      exists o. split; [exact R|]. rewrite <- E. cbn [iters_of app].
      change (rounds (Value.Dict (e :: m)) + fuel)%nat with (S (list_sum (map (fun e => element_rounds (snd e)) (e :: m)) + fuel)).
      cbn [streamify_loop]. unfold streamifyObject. change (zlen (@nil (bytes * Value.t))) with 0.
      rewrite (proj2 (Z.eqb_neq 0 _)) by (rewrite zlen_cons; pose proof (zlen_nonneg m); lia). done.
Qed.

(** [streamify] writes the text of a value. *)
Lemma streamify_spec v out : container v = true -> json_ok v -> out_valid out -> out_room out (zlen (json_text v)) ->
  exists out', streamify out v = Val (true, out') /\ out_valid out' /\ out_content out' = out_content out ++ json_text v.
Proof.
  intros Hc Hok Ho Hr. destruct (all_written v Hc Hok 1%nat out [] [] 0 Ho ltac:(lia)) as (o & (V & C & _) & E).
  { by rewrite Z.add_0_r. }
  exists o. split; [|done]. unfold streamify. rewrite app_nil_r, Nat.add_1_r in E. unfold iters_of in E. by rewrite E.
Qed.
End Writer.
