(* ===== verification/JsonRoundtrip.v ===== *)
(** * JSON: what is written is read back

    The tokenizer cuts the text of a value into its tokens, and the parser builds the value
    from them. *)

From Stdlib Require Import SpecFloat.
From S2P Require Import Prelude Streams Text OrdMap Double Value Json JsonPointer JsonWrite.
From S2P Require Import InputBufferWrapper OutputBufferWrapper.

(** ** The tokenizer *)

(** A plain token, which is followed by a keyword. *)
Definition plain_char (c : byte) : bool := negb (existsb (Z.eqb c) (str "{}[],:")) && negb (c =? 34) && negb (isSpace c).
Definition plain (w : bytes) : Prop := w <> [] /\ forallb plain_char w = true.

(** Sequences of tokens whose text is cut into them. *)
Inductive cut : list bytes -> Prop :=
| cut_nil : cut []
| cut_special c ts : existsb (Z.eqb c) (str "{}[],:") = true -> cut ts -> cut ([c] :: ts)
| cut_string s ts : escaped s = true -> cut ts -> cut (quote s :: ts)
| cut_plain w c ts : plain w -> keyword_char c = true -> cut ts -> cut (w :: [c] :: ts).

Lemma plain_char_spec c : plain_char c = true ->
  existsb (Z.eqb c) (str "{}[],:") = false /\ (c =? 34) = false /\ isSpace c = false /\ keyword_char c = false /\ (c =? 44) = false.
Proof.
  unfold plain_char. rewrite !andb_true_iff, !negb_true_iff. intros [[H1 H2] H3]. split_and!; try done.
  - change (str "{}[],:") with [123; 125; 91; 93; 44; 58] in H1. unfold keyword_char. change (str "}]:,") with [125; 93; 58; 44].
    cbn [existsb] in *. rewrite !orb_false_iff in *. tauto.
  - change (str "{}[],:") with [123; 125; 91; 93; 44; 58] in H1. cbn [existsb] in *. rewrite !orb_false_iff in *. tauto.
Qed.

Lemma keyword_not_special c : keyword_char c = true -> existsb (Z.eqb c) (str "{}[],:") = true.
Proof.
  unfold keyword_char. change (str "{}[],:") with [123; 125; 91; 93; 44; 58]. change (str "}]:,") with [125; 93; 58; 44].
  cbn [existsb]. rewrite !orb_true_iff. tauto.
Qed.

Section Tokenizer.
Context {I : Type} `{MemInput I}.

(** The rest of a string. *)
Lemma string_loop_spec n : forall fuel s source builder tokens rest, (length s <= n)%nat -> (length s < fuel)%nat -> escaped s = true ->
  in_valid source -> in_content source = s ++ [34] ++ rest ->
  exists source', string_loop fuel source builder tokens = Val (true, [], tokens ++ [builder ++ s ++ [34]], source') /\
    in_valid source' /\ in_content source' = rest.
Proof.
  induction n as [|n IH]; intros [|fuel] [|c s] source builder tokens rest Hn Hf He Hv Hc; cbn [length] in *; try lia.
  1, 2: destruct (next_char_spec source 34 rest Hv Hc) as (s1 & E1 & V1 & C1); exists s1; cbn [string_loop]; rewrite E1, bind_Val; done.
  destruct (next_char_spec source c (s ++ [34] ++ rest) Hv Hc) as (s1 & E1 & V1 & C1). cbn [string_loop escaped] in *. rewrite E1, bind_Val.
  destruct (c =? 92) eqn:Ec.
  - apply Z.eqb_eq in Ec. destruct s as [|d s]; [done|]. destruct (next_char_spec s1 d (s ++ [34] ++ rest) V1 C1) as (s2 & E2 & V2 & C2). rewrite E2, bind_Val.
    cbn [length] in *. destruct (IH fuel s s2 (builder ++ [92; d]) tokens rest) as (s3 & E3 & Hs3); try done; try lia.
    exists s3. split; [|done]. rewrite E3, <- app_assoc. by subst.
  - apply andb_true_iff in He as [He1 He2]. apply negb_true_iff in He1. rewrite He1.
    destruct (IH fuel s s1 (builder ++ [c]) tokens rest) as (s2 & E2 & Hs2); try done; try lia.
    exists s2. split; [|done]. by rewrite E2, <- app_assoc.
Qed.

(** The rest of a plain token. *)
Lemma plain_loop_spec w : forall fuel source builder tokens c rest, (length w < fuel)%nat -> forallb plain_char w = true ->
  keyword_char c = true -> in_valid source -> in_content source = w ++ [c] ++ rest ->
  exists source', plain_loop fuel source builder tokens = Val ([], tokens ++ [builder ++ w; [c]], source') /\
    in_valid source' /\ in_content source' = rest.
Proof.
  induction w as [|d w IH]; intros [|fuel] source builder tokens c rest Hf Hw Hk Hv Hc; cbn [length] in *; try lia.
  - destruct (next_char_spec source c rest Hv Hc) as (s1 & E1 & V1 & C1). exists s1. cbn [plain_loop]. rewrite E1, bind_Val, Hk.
    by rewrite app_nil_r.
  - destruct (next_char_spec source d (w ++ [c] ++ rest) Hv Hc) as (s1 & E1 & V1 & C1). cbn [plain_loop forallb] in *.
    apply andb_true_iff in Hw as [Hd Hw]. destruct (plain_char_spec d Hd) as (_ & _ & P3 & P4 & P5).
    rewrite E1, bind_Val, P4, P3, P5. destruct (IH fuel s1 (builder ++ [d]) tokens c rest) as (s2 & E2 & Hs2); try done; try lia.
    exists s2. split; [|done]. by rewrite E2, <- app_assoc.
Qed.

(** The text of the tokens is cut into them. *)
Lemma tokenizer_cut ts : cut ts -> forall fuel source tokens, (length (concat ts) < fuel)%nat ->
  in_valid source -> in_content source = concat ts -> tokenizer_loop fuel source [] tokens = Val (true, tokens ++ ts).
Proof.
  induction 1 as [|c ts Hs _ IH|s ts Hs _ IH|w c ts [Hw Hp] Hk _ IH]; intros [|fuel] source tokens Hf Hv Hc; cbn [concat] in *;
    rewrite ?length_app in Hf; try (cbn in Hf; lia).
  - destruct (next_char_end source Hv Hc) as (s1 & E1). cbn [tokenizer_loop]. by rewrite E1, bind_Val, app_nil_r.
  - destruct (next_char_spec source c (concat ts) Hv Hc) as (s1 & E1 & V1 & C1). cbn [tokenizer_loop]. rewrite E1, bind_Val, Hs.
    rewrite IH by (done || (cbn in Hf; lia)). by rewrite <- app_assoc.
  - unfold quote in Hc, Hf |- *. rewrite <- app_assoc in Hc. rewrite length_app in Hf. cbn [length] in Hf. rewrite length_app in Hf.
    destruct (next_char_spec source 34 ((s ++ [34]) ++ concat ts) Hv Hc) as (s1 & E1 & V1 & C1). rewrite <- app_assoc in C1.
    cbn [tokenizer_loop]. rewrite E1, bind_Val. change (existsb (Z.eqb 34) (str "{}[],:")) with false. cbn [Z.eqb].
    change (34 =? 34) with true. cbv iota.
    destruct (string_loop_spec (length s) fuel s s1 ([] ++ [34]) tokens (concat ts)) as (s2 & E2 & V2 & C2); try done; try (cbn in Hf; lia).
    rewrite E2, bind_Val. rewrite IH by (done || (cbn in Hf; lia)). by rewrite <- app_assoc.
  - destruct w as [|d w]; [done|]. cbn [forallb] in Hp. apply andb_true_iff in Hp as [Hd Hp].
    destruct (plain_char_spec d Hd) as (P1 & P2 & P3 & _ & _).
    destruct (next_char_spec source d (w ++ [c] ++ concat ts) Hv Hc) as (s1 & E1 & V1 & C1).
    cbn [tokenizer_loop]. rewrite E1, bind_Val, P1, P2, P3. cbn [length] in Hf.
    destruct (plain_loop_spec w fuel s1 ([] ++ [d]) tokens c (concat ts)) as (s2 & E2 & V2 & C2); try done; try lia.
    rewrite E2, bind_Val. cbn [length] in Hf. rewrite IH by (done || lia). by rewrite <- app_assoc.
Qed.
End Tokenizer.

(** ** The tokens of a value *)

Lemma cut_app ts us : cut ts -> cut us -> cut (ts ++ us).
Proof.
  intros Ht Hu. induction Ht as [|c ts Hc _ IH|s ts Hs _ IH|w c ts Hw Hc _ IH]; cbn [app];
    [done|by apply cut_special|by apply cut_string|by apply cut_plain].
Qed.

(** A value and the keyword after it. *)
Definition cut_with (v : Value.t) : Prop := forall c us, keyword_char c = true -> cut us -> cut (tokens_of v ++ [c] :: us).

Lemma forallb_digits (P : byte -> bool) fuel : (forall c, 48 <= c <= 57 -> P c = true) -> forall n acc,
  forallb P acc = true -> forallb P (digits fuel n acc) = true.
Proof.
  intros HP. induction fuel as [|fuel IH]; intros n acc Ha; [done|]. cbn [digits]. cbv zeta.
  assert (forallb P (48 + n mod 10 :: acc) = true).
  { cbn [forallb]. rewrite HP, Ha; [done|]. pose proof (Z.mod_pos_bound n 10 ltac:(lia)). lia. }
  destruct (_ =? _); [done|]. by apply IH.
Qed.

Lemma digits_nonempty fuel n acc : (0 < fuel)%nat -> digits fuel n acc <> [].
Proof.
  destruct fuel as [|fuel]; [lia|]. intros _. cbn [digits]. cbv zeta. destruct (_ =? _); [done|].
  assert (forall fuel n acc, acc <> [] -> digits fuel n acc <> []) as G.
  { clear. induction fuel as [|fuel IH]; intros n acc Ha; [done|]. cbn [digits]. cbv zeta. destruct (_ =? _); [done|]. by apply IH. }
  by apply G.
Qed.

(** What is not a string or a container is a plain token. *)
Lemma digit_plain c : 48 <= c <= 57 -> plain_char c = true.
Proof.
  intros Hc. assert (c = 48 \/ c = 49 \/ c = 50 \/ c = 51 \/ c = 52 \/ c = 53 \/ c = 54 \/ c = 55 \/ c = 56 \/ c = 57) as Hd by lia.
  by repeat destruct Hd as [->|Hd]; subst.
Qed.

Lemma plain_int n : plain (to_string n).
Proof.
  unfold plain, to_string. destruct (n <? 0); split; try done.
  - cbn [forallb]. change (plain_char 45) with true. by apply forallb_digits; [exact digit_plain|].
  - apply digits_nonempty. lia.
  - by apply forallb_digits; [exact digit_plain|].
Qed.

Lemma big_digits_plain n : forallb plain_char (big_digits n) = true.
Proof. by apply forallb_digits; [exact digit_plain|]. Qed.

Lemma plain_double d : double_ok d -> plain (to_string_f d) /\ existsb (Z.eqb 46) (drop 1 (to_string_f d)) = true.
Proof.
  intros Hd. destruct d as [s|s| |s m e]; try done.
  - destruct s; vm_compute; split_and!; done.
  - unfold to_string_f. cbv zeta. set (n := if 0 <=? e then _ else _). clearbody n. clear Hd.
    assert (forall k, forallb plain_char (repeat 48 k) = true) as Hr by (intros k; induction k; [done|]; cbn [repeat forallb]; by rewrite IHk).
    pose proof (big_digits_plain (n / 1000000)) as H1. pose proof (big_digits_plain (n mod 1000000)) as H2.
    assert (big_digits (n / 1000000) <> []) as H3 by (apply digits_nonempty; lia).
    destruct (big_digits (n / 1000000)) as [|x l]; [done|].
    assert (forall a b, existsb (Z.eqb 46) (a ++ str "." ++ b) = true) as He.
    { intros a b. rewrite existsb_app. cbn. apply orb_true_r. }
    split; [split|].
    + by destruct s.
    + rewrite !forallb_app, H1, Hr, H2. by destruct s.
    + destruct s; cbn [app drop]; [change (x :: l ++ ?r) with ((x :: l) ++ r)|]; apply He.
Qed.

Lemma plain_basic v : json_ok v -> match v with Value.String _ => False | _ => container v = false end -> plain (Value.toStringBasic v).
Proof.
  intros Hok Hv. destruct Hok as [|b|n|d Hd|s|l|m]; try done.
  - by destruct b.
  - apply plain_int.
  - by apply plain_double.
Qed.

Lemma cut_groups (groups : list (list bytes)) c us :
  Forall (fun g => forall c us, keyword_char c = true -> cut us -> cut (g ++ [c] :: us)) groups ->
  keyword_char c = true -> cut us -> cut (comma_tokens groups ++ [c] :: us).
Proof.
  intros Hg Hc Hu. destruct Hg as [|g gs Hg Hgs]; cbn [comma_tokens app].
  - apply cut_special; [by apply keyword_not_special|done].
  - rewrite <- app_assoc. revert g Hg. induction Hgs as [|h gs Hh _ IH]; intros g Hg.
    + by apply Hg.
    + rewrite bind_cons. cbn [app]. rewrite <- app_assoc. apply (Hg 44); [done|]. by apply IH.
Qed.

Lemma tokens_cut v : json_ok v -> cut_with v.
Proof.
  induction v as [|b0|z0|d0|s0|b1|l IH|m IH] using Value.value_ind; intros Hok c us Hc Hu; cbn [tokens_of app].
  1-4: apply cut_plain; [by apply plain_basic|done|done].
  - inversion Hok; subst. apply cut_string; [done|]. apply cut_special; [by apply keyword_not_special|done].
  - inversion Hok.
  - inversion Hok as [| | | | |? Hl Hz|]; subst. apply cut_special; [done|]. rewrite <- app_assoc. apply cut_groups; [|done|].
    + apply Forall_map. rewrite !List.Forall_forall in *. intros v Hv. by apply IH, Hl.
    + apply cut_special; [by apply keyword_not_special|done].
  - inversion Hok as [| | | | | |? Hm Hs Hz]; subst. apply cut_special; [done|]. rewrite <- app_assoc. apply cut_groups; [|done|].
    + apply Forall_map. rewrite !List.Forall_forall in *. intros [k v] Hv c' us' Hc' Hu'. destruct (Hm _ Hv) as [Hk Hv'].
      cbn [fst snd app]. apply cut_string; [done|]. apply cut_special; [done|]. by apply (IH _ Hv).
    + apply cut_special; [by apply keyword_not_special|done].
Qed.

Lemma container_cut v : container v = true -> json_ok v -> cut (tokens_of v).
Proof.
  intros Hc Hok. destruct v as [| | | | | |l|m]; try done; cbn [tokens_of app].
  - inversion Hok as [| | | | |? Hl Hz|]; subst. apply cut_special; [done|]. apply cut_groups; [|done|constructor].
    apply Forall_map. eapply Forall_impl; [exact Hl|]. intros v Hv. by apply tokens_cut.
  - inversion Hok as [| | | | | |? Hm Hs Hz]; subst. apply cut_special; [done|]. apply cut_groups; [|done|constructor].
    apply Forall_map. eapply Forall_impl; [exact Hm|]. intros [k v] [Hk Hv] c' us' Hc' Hu'. cbn [fst snd app].
    apply cut_string; [done|]. apply cut_special; [done|]. by apply tokens_cut.
Qed.

(** ** The parser *)

(** What the outer loop does with the result of a round. *)
Definition pcontinue (fuel : nat) (r : ParseResult) : attempt Value.t :=
  let '(rt, tokens, stack, root) := r in if rt : bool then parse_loop fuel tokens stack root else Done Value.Null.

(** The container that is pushed for a value. *)
Definition empty_of (v : Value.t) : Value.t := match v with Value.Dict _ => Value.dict | _ => Value.list_ end.

(** The rounds of a container build it at its pointer. *)
Definition parsed (v : Value.t) : Prop :=
  container v = true -> json_ok v -> forall fuel root p stack ts, get p root = Some (empty_of v) ->
  parse_loop (rounds v + fuel) (tail (tokens_of v) ++ ts) (p :: stack) root = parse_loop fuel ts stack (modify p (fun _ => v) root).

Lemma plain_not_special w c : plain w -> plain_char c = false -> w <> [c].
Proof. intros [_ Hw] Hc ->. cbn [forallb] in Hw. by rewrite Hc in Hw. Qed.

Lemma plain_no_keyword w : plain w -> isKeyword w = false.
Proof.
  intros [Hne Hw]. destruct w as [|c w]; [done|]. cbn [forallb] in Hw. apply andb_true_iff in Hw as [Hc _].
  by destruct (plain_char_spec c Hc) as (_ & _ & _ & ? & _).
Qed.

Lemma plain_no_quote w : plain w -> head w <> Some 34.
Proof. intros [_ Hw]. destruct w as [|c w]; [done|]. intros [= ->]. by cbn in Hw. Qed.

(** The characters of an integer. *)
Lemma int_chars n : forallb (fun c => isdigit c || (c =? 45)) (to_string n) = true.
Proof.
  assert (forall c, 48 <= c <= 57 -> isdigit c || (c =? 45) = true) as HP by (intros c Hc; unfold isdigit; zbool; lia).
  unfold to_string. destruct (n <? 0); [cbn [forallb]; change (isdigit 45 || (45 =? 45)) with true|]; by apply forallb_digits.
Qed.

Lemma parseBasic_int n : - 2 ^ 63 <= n < 2 ^ 63 -> parseBasic (to_string n) = Done (Value.Int n).
Proof.
  intros Hn. pose proof (int_chars n) as Hc. pose proof (plain_no_quote _ (plain_int n)) as Hq. pose proof (stoll_to_string n Hn) as Hs.
  set (w := to_string n) in *. clearbody w. unfold parseBasic. rewrite !bool_decide_eq_false_2 by (done || by intros ->).
  assert (existsb (Z.eqb 46) (drop 1 w) = false) as ->.
  { destruct w as [|c w]; [done|]. cbn [forallb drop] in *. rewrite drop_0. apply andb_true_iff in Hc as [_ Hc]. clear -Hc.
    induction w as [|d w IH]; [done|]. cbn [forallb existsb] in *. apply andb_true_iff in Hc as [Hd Hc]. rewrite IH by done.
    rewrite orb_false_r. unfold isdigit in Hd. zbool. lia. }
  by rewrite Hs.
Qed.

Lemma parseBasic_double d : double_ok d -> parseBasic (to_string_f d) = Done (Value.Double d).
Proof.
  intros Hd. destruct (plain_double d Hd) as [Hp Hpt]. pose proof (plain_no_quote _ Hp) as Hq.
  assert (stod (to_string_f d) = Some d) as Hs by (by destruct d).
  set (w := to_string_f d) in *. clearbody w. unfold parseBasic. rewrite !bool_decide_eq_false_2 by (done || by intros ->).
  by rewrite Hpt, Hs.
Qed.

Lemma parseBasic_string s : parseBasic (quote s) = Done (Value.String s).
Proof.
  unfold parseBasic. rewrite !bool_decide_eq_false_2 by done. rewrite bool_decide_eq_true_2 by done.
  unfold quote. cbn [app drop length]. rewrite length_app. cbn [length]. do 2 f_equal.
  replace (S (length s + 1) - 2)%nat with (length s) by lia. by rewrite drop_0, take_app_length.
Qed.

(** The tokens that are read as a basic value. *)
Definition basic_token (t : bytes) (v : Value.t) : Prop :=
  parseBasic t = Done v /\ isKeyword t = false /\ t <> str "}" /\ t <> str "]" /\ t <> str "{" /\ t <> str "[" /\ t <> str ",".

Lemma tokens_basic v : json_ok v -> container v = false -> tokens_of v = [Value.toStringBasic v] /\ basic_token (Value.toStringBasic v) v.
Proof.
  intros Hok Hc. split; [by destruct v|]. unfold basic_token.
  assert (parseBasic (Value.toStringBasic v) = Done v) as Hp.
  { destruct Hok as [|b|n Hn|d Hd|s Hs| |]; try done; [by destruct b|by apply parseBasic_int|by apply parseBasic_double|apply parseBasic_string]. }
  split; [exact Hp|]. destruct (bool_decide (head (Value.toStringBasic v) = Some 34)) eqn:E.
  - apply bool_decide_eq_true_1 in E. destruct (Value.toStringBasic v) as [|c w]; [done|]. injection E as ->. by split_and!.
  - apply bool_decide_eq_false_1 in E. assert (plain (Value.toStringBasic v)) as Hpl.
    { apply plain_basic; [done|]. by destruct v. }
    split; [by apply plain_no_keyword|]. split_and!; by apply plain_not_special.
Qed.

(** Elements as the parser accepts them, with or without a comma before each. *)
Inductive elements {A} (toks : A -> list bytes) : list bytes -> list A -> Prop :=
| elements_nil : elements toks [] []
| elements_bare v ts l : elements toks ts l -> elements toks (toks v ++ ts) (v :: l)
| elements_comma v ts l : elements toks ts l -> elements toks (str "," :: toks v ++ ts) (v :: l).

Lemma comma_elements {A} (toks : A -> list bytes) l : elements toks (comma_tokens (map toks l)) l.
Proof.
  destruct l as [|v l]; cbn [map comma_tokens]; [constructor|]. constructor.
  induction l as [|w l IH]; cbn [map]; [constructor|]. rewrite bind_cons. by constructor.
Qed.

(** A comma before an element is skipped. *)
Lemma array_comma fuel t ts p stack root : t <> str "]" -> t <> str "," ->
  parseArray_loop (S fuel) (str "," :: t :: ts) p stack root = parseArray_loop (S fuel) (t :: ts) p stack root.
Proof.
  intros H1 H2. cbn [parseArray_loop]. unfold skip_comma.
  rewrite (bool_decide_eq_false_2 (t = _)), (bool_decide_eq_false_2 (str "," = _)), (bool_decide_eq_true_2 (str "," = str ",")) by done.
  by rewrite (bool_decide_eq_false_2 (t = str ",")) by done.
Qed.

(** A value does not start with what ends or separates elements. *)
Lemma first_token v : json_ok v -> exists t us, tokens_of v = t :: us /\ t <> str "]" /\ t <> str ",".
Proof.
  intros Hok. destruct (container v) eqn:Hc.
  - destruct v; try done; cbn [tokens_of app]; by eexists _, _.
  - destruct (tokens_basic v Hok Hc) as [Ht (_ & _ & _ & H2 & _ & _ & H5)]. by eexists _, [].
Qed.

Section Elements.
Context (p : pointer) (stack : list pointer) (ts : list bytes) (fuel : nat).

(** The rest of an array is read. *)
Definition array_rest (toks : list bytes) (l : list Value.t) : Prop :=
  forall n pre root, (length toks < n)%nat -> get p root = Some (Value.List pre) ->
  parseArray_loop n (toks ++ str "]" :: ts) p stack root ≫= pcontinue (list_sum (map element_rounds l) + fuel)
  = parse_loop fuel ts stack (modify p (fun _ => Value.List (pre ++ l)) root).

Lemma array_container v toks l : container v = true -> json_ok v -> parsed v -> array_rest toks l -> array_rest (tokens_of v ++ toks) (v :: l).
Proof.
  intros Hc Hok Hv IH [|n] pre root Hn Hp; [lia|]. rewrite length_app in Hn.
  cbn [map]. change (list_sum (?x :: ?l)) with (x + list_sum l)%nat. rewrite (container_rounds v Hc).
  set (sub := p ++ [Index (length pre)]).
  assert (parseArray_loop (S n) ((tokens_of v ++ toks) ++ str "]" :: ts) p stack root =
    Done (true, tail (tokens_of v) ++ toks ++ str "]" :: ts, sub :: p :: stack, modify p (fun _ => Value.List (pre ++ [empty_of v])) root)) as ->.
  { destruct v as [| | | | | |l'|m]; try done; cbn [tokens_of app tail parseArray_loop]; unfold skip_comma;
      rewrite Hp, !(modify_const p (on_list _) _ root Hp), <- app_assoc; reflexivity. }
  change (Done ?v ≫= ?f) with (f v). cbn [pcontinue].
  replace (S (rounds v) + list_sum (map element_rounds l) + fuel)%nat with (rounds v + S (list_sum (map element_rounds l) + fuel))%nat by lia.
  rewrite Hv; [|done|done|].
  2: { subst sub. rewrite get_app, get_modify, Hp. cbn. by rewrite list_lookup_middle. }
  assert (modify sub (fun _ => v) (modify p (fun _ => Value.List (pre ++ [empty_of v])) root) = modify p (fun _ => Value.List (pre ++ [v])) root) as ->.
  { subst sub. rewrite modify_app, modify_compose. apply (modify_ext p _ _ root _ Hp). cbn [modify]. f_equal.
    rewrite <- (Nat.add_0_r (length pre)). by rewrite alter_app_r. }
  cbn [parse_loop]. rewrite get_modify, Hp. cbn [fmap option_fmap option_map]. unfold parseArray. etransitivity; [apply IH|].
  - rewrite length_app. cbn. lia.
  - by rewrite get_modify, Hp.
  - rewrite modify_compose. unfold Value.append. by rewrite <- app_assoc.
Qed.

Lemma array_basic v toks l : container v = false -> json_ok v -> array_rest toks l -> array_rest (tokens_of v ++ toks) (v :: l).
Proof.
  intros Hc Hok IH [|n] pre root Hn Hp; [lia|]. cbn [map]. change (list_sum (?x :: ?l)) with (x + list_sum l)%nat.
  rewrite (basic_rounds v Hc). destruct (tokens_basic v Hok Hc) as [Ht (Hb & Hk & H1 & H2 & H3 & H4 & H5)]. rewrite Ht in *.
  cbn [app parseArray_loop] in *. cbv zeta. unfold skip_comma. rewrite !bool_decide_eq_false_2 by done. rewrite Hk, Hb.
  change (Done ?v ≫= ?f) with (f v). cbv beta. rewrite (modify_const p (on_list _) _ root Hp). etransitivity; [apply IH|].
  - cbn in Hn. lia.
  - by rewrite get_modify, Hp.
  - rewrite modify_compose. unfold Value.append. by rewrite <- app_assoc.
Qed.

Lemma array_parsed toks l : elements tokens_of toks l -> Forall (fun v => json_ok v /\ parsed v) l -> array_rest toks l.
Proof.
  assert (forall v toks l, json_ok v /\ parsed v -> array_rest toks l -> array_rest (tokens_of v ++ toks) (v :: l)) as Hstep.
  { intros v toks' l' [Hok Hv] Hr. destruct (container v) eqn:Hc; [by apply array_container|by apply array_basic]. }
  induction 1 as [|v toks l Hel IH|v toks l Hel IH]; intros Hall.
  - intros [|n] pre root Hn Hp; [cbn in Hn; lia|]. rewrite app_nil_r. by rewrite (modify_same p root _ Hp).
  - apply Forall_cons in Hall as [Hv Hall]. apply Hstep; auto.
  - apply Forall_cons in Hall as [Hv Hall]. intros [|n] pre root Hn Hp; [lia|].
    rewrite <- (Hstep v toks l Hv (IH Hall) (S n)) by (done || (cbn in Hn; lia)). f_equal.
    cbn [app]. destruct (first_token v (proj1 Hv)) as (t & us & -> & H1 & H2). by apply array_comma.
Qed.

(** The rest of an object is read. *)
Definition entry_tokens (e : bytes * Value.t) : list bytes := [quote (fst e); str ":"] ++ tokens_of (snd e).
Definition object_rest (toks : list bytes) (m : list (bytes * Value.t)) : Prop :=
  forall n pre root, (length toks < n)%nat -> msorted lexcmp (pre ++ m) -> get p root = Some (Value.Dict pre) ->
  parseObject_loop n (toks ++ str "}" :: ts) p stack root ≫= pcontinue (list_sum (map (fun e => element_rounds (snd e)) m) + fuel)
  = parse_loop fuel ts stack (modify p (fun _ => Value.Dict (pre ++ m)) root).

Lemma strip_quote k : strip (quote k) = Some k.
Proof.
  unfold strip, quote. cbn [app drop length]. rewrite length_app. cbn [length]. f_equal.
  replace (S (length k + 1) - 2)%nat with (length k) by lia. by rewrite drop_0, take_app_length.
Qed.

(** A key that is not there yet. *)
Lemma find_before k pre : Forall (fun e : bytes * Value.t => lexcmp (fst e) k < 0) pre ->
  Value.find k pre = None /\ forall f w, alter_key k f (pre ++ [(k, w)]) = pre ++ [(k, f w)].
Proof.
  unfold Value.find. induction 1 as [|[k' v] pre Hk _ [IH1 IH2]]; cbn [app mfind alter_key fst] in *.
  - split; [done|]. intros f w. by rewrite (proj2 (Z.eqb_eq _ _)) by by apply lexcmp_eq.
  - rewrite (proj2 (Z.eqb_neq (lexcmp k k') 0)) by (rewrite lexcmp_opp; lia). split; [done|]. intros f w. by rewrite IH2.
Qed.

Lemma find_last k w pre : Forall (fun e : bytes * Value.t => lexcmp (fst e) k < 0) pre -> Value.find k (pre ++ [(k, w)]) = Some w.
Proof.
  unfold Value.find. induction 1 as [|[k' v] pre Hk _ IH]; cbn [app mfind fst] in *.
  - by rewrite (proj2 (Z.eqb_eq _ _)) by by apply lexcmp_eq.
  - by rewrite (proj2 (Z.eqb_neq (lexcmp k k') 0)) by (rewrite lexcmp_opp; lia).
Qed.

(** The head of an entry. *)
Lemma object_entry n k t rest root : t <> str "{" -> t <> str "[" -> isKeyword t = false ->
  parseObject_loop (S n) (quote k :: str ":" :: t :: rest) p stack root =
  (v ← parseBasic t; parseObject_loop n rest p stack (modify p (on_dict (Value.set k v)) root)).
Proof.
  intros H1 H2 H3. cbn [parseObject_loop]. unfold skip_comma. rewrite !(bool_decide_eq_false_2 (quote k = _)) by done. rewrite strip_quote.
  cbn [or_throw]. change (Done ?v ≫= ?f) with (f v). cbv beta. rewrite (bool_decide_eq_true_2 (str ":" = str ":")) by done. cbn [negb].
  by rewrite !bool_decide_eq_false_2, H3 by done.
Qed.

Lemma object_container k v toks m : container v = true -> json_ok v -> parsed v -> object_rest toks m ->
  object_rest (entry_tokens (k, v) ++ toks) ((k, v) :: m).
Proof.
  intros Hc Hok Hv IH [|n] pre root Hn Hs Hp; [lia|]. rewrite length_app in Hn. pose proof (msorted_before _ _ _ _ _ Hs) as Hk.
  destruct (find_before k pre Hk) as [Hf Ha].
  cbn [map snd]. change (list_sum (?x :: ?l)) with (x + list_sum l)%nat. rewrite (container_rounds v Hc).
  set (sub := p ++ [Key k]).
  assert (forall w, modify p (on_dict (Value.setRef k w)) root = modify p (fun _ => Value.Dict (pre ++ [(k, w)])) root) as Hm.
  { intros w. rewrite (modify_const p _ _ root Hp). cbn [on_dict]. unfold Value.setRef, Value.contains. rewrite Hf. by rewrite (mset_last lexcmp k w pre Hk). }
  assert (parseObject_loop (S n) ((entry_tokens (k, v) ++ toks) ++ str "}" :: ts) p stack root =
    Done (true, tail (tokens_of v) ++ toks ++ str "}" :: ts, sub :: p :: stack, modify p (fun _ => Value.Dict (pre ++ [(k, empty_of v)])) root)) as ->.
  { unfold entry_tokens. destruct v as [| | | | | |l'|m']; try done; cbn [tokens_of app tail parseObject_loop fst snd]; unfold skip_comma;
      rewrite !(bool_decide_eq_false_2 (quote k = _)), strip_quote by done; cbn [or_throw]; change (Done ?v ≫= ?f) with (f v); cbv beta;
      rewrite !Hm, <- app_assoc; reflexivity. }
  change (Done ?v ≫= ?f) with (f v). cbn [pcontinue].
  replace (S (rounds v) + list_sum (map (fun e => element_rounds (snd e)) m) + fuel)%nat with
    (rounds v + S (list_sum (map (fun e => element_rounds (snd e)) m) + fuel))%nat by lia.
  rewrite Hv; [|done|done|].
  2: { subst sub. rewrite get_app, get_modify, Hp. cbn. by rewrite find_last. }
  assert (modify sub (fun _ => v) (modify p (fun _ => Value.Dict (pre ++ [(k, empty_of v)])) root) = modify p (fun _ => Value.Dict (pre ++ [(k, v)])) root) as ->.
  { subst sub. rewrite modify_app, modify_compose. apply (modify_ext p _ _ root _ Hp). cbn [modify]. by rewrite Ha. }
  cbn [parse_loop]. rewrite get_modify, Hp. cbn [fmap option_fmap option_map]. unfold parseObject. etransitivity; [apply (IH _ (pre ++ [(k, v)]))|].
  - rewrite length_app. cbn. lia.
  - by rewrite <- app_assoc.
  - by rewrite get_modify, Hp.
  - rewrite modify_compose. unfold Value.append. by rewrite <- app_assoc.
Qed.

Lemma object_basic k v toks m : container v = false -> json_ok v -> object_rest toks m ->
  object_rest (entry_tokens (k, v) ++ toks) ((k, v) :: m).
Proof.
  intros Hc Hok IH [|n] pre root Hn Hs Hp; [lia|]. cbn [map snd]. change (list_sum (?x :: ?l)) with (x + list_sum l)%nat.
  rewrite (basic_rounds v Hc). destruct (tokens_basic v Hok Hc) as [Ht (Hb & Hk & H1 & H2 & H3 & H4 & H5)].
  unfold entry_tokens in *. cbn [fst snd] in *. rewrite Ht in *. cbn [app length] in *. rewrite object_entry, Hb by done.
  change (Done ?v ≫= ?f) with (f v). cbv beta. rewrite (modify_const p (on_dict _) _ root Hp). cbn [on_dict]. unfold Value.set.
  rewrite (mset_last lexcmp k v pre) by (by eapply msorted_before). etransitivity; [apply (IH _ (pre ++ [(k, v)]))|].
  - lia.
  - by rewrite <- app_assoc.
  - by rewrite get_modify, Hp.
  - rewrite modify_compose. unfold Value.append. by rewrite <- app_assoc.
Qed.

Lemma object_parsed toks m : elements entry_tokens toks m -> Forall (fun e => json_ok (snd e) /\ parsed (snd e)) m -> object_rest toks m.
Proof.
  assert (forall e toks m, json_ok (snd e) /\ parsed (snd e) -> object_rest toks m -> object_rest (entry_tokens e ++ toks) (e :: m)) as Hstep.
  { intros [k v] toks' m' [Hok Hv] Hr. cbn [snd] in *. destruct (container v) eqn:Hc; [by apply object_container|by apply object_basic]. }
  induction 1 as [|e toks m Hel IH|e toks m Hel IH]; intros Hall.
  - intros [|n] pre root Hn Hs Hp; [cbn in Hn; lia|]. rewrite app_nil_r. by rewrite (modify_same p root _ Hp).
  - apply Forall_cons in Hall as [Hv Hall]. apply Hstep; auto.
  - apply Forall_cons in Hall as [Hv Hall]. intros [|n] pre root Hn Hs Hp; [lia|].
    rewrite <- (Hstep e toks m Hv (IH Hall) (S n)) by (done || (cbn [length] in Hn; lia)). by f_equal.
Qed.
End Elements.

(** Every container is built. *)
Lemma all_parsed v : parsed v.
Proof.
  induction v as [|b0|z0|d0|s0|b1|l IH|m IH] using Value.value_ind; intros Hc Hok fuel root p stack ts Hp; try done.
  - inversion Hok as [| | | | |? Hl Hz|]; subst. cbn [tokens_of app tail empty_of] in *. rewrite <- app_assoc. cbn [app].
    change (rounds (Value.List l) + fuel)%nat with (S (list_sum (map element_rounds l) + fuel)). cbn [parse_loop]. rewrite Hp. cbn [Value.list_ Value.of_type].
    change (Value.List l) with (Value.List ([] ++ l)). apply (array_parsed p stack ts fuel (comma_tokens (map tokens_of l))); [apply comma_elements| | |done].
    + apply Forall_and. by split.
    + rewrite length_app. cbn [length]. lia.
  - inversion Hok as [| | | | | |? Hm Hs Hz]; subst. cbn [tokens_of app tail empty_of] in *. rewrite <- app_assoc. cbn [app].
    change (rounds (Value.Dict m) + fuel)%nat with (S (list_sum (map (fun e => element_rounds (snd e)) m) + fuel)). cbn [parse_loop]. rewrite Hp.
    cbn [Value.dict Value.of_type].
    change (Value.Dict m) with (Value.Dict ([] ++ m)). apply (object_parsed p stack ts fuel (comma_tokens (map entry_tokens m))); [apply comma_elements| | |done|done].
    + apply Forall_and. split; [|exact IH]. eapply Forall_impl; [exact Hm|]. by intros e [_ He].
    + rewrite length_app. cbn [length]. change (map (fun e => quote (fst e) :: _) m) with (map entry_tokens m). lia.
Qed.

Lemma sum_le {A} (rd tk : A -> nat) l : Forall (fun x => (rd x <= tk x)%nat) l -> (list_sum (map rd l) <= list_sum (map tk l))%nat.
Proof. induction 1; cbn; [lia|]. unfold list_sum in *. lia. Qed.

(** There are fewer rounds than tokens. *)
Lemma rounds_tokens v : (element_rounds v <= length (tokens_of v))%nat.
Proof.
  assert (forall groups : list (list bytes), (list_sum (map length groups) <= length (comma_tokens groups))%nat) as Hg.
  { intros [|g gs]; [done|]. cbn [map comma_tokens]. rewrite length_app. change (list_sum (?x :: ?l)) with (x + list_sum l)%nat.
    enough (list_sum (map length gs) <= length (gs ≫= (fun g : list bytes => str "," :: g)))%nat by lia.
    induction gs as [|h gs IH]; [done|]. rewrite bind_cons, length_app. cbn [map length]. change (list_sum (?x :: ?l)) with (x + list_sum l)%nat. lia. }
  induction v as [|b0|z0|d0|s0|b1|l IH|m IH] using Value.value_ind; try (cbn; lia).
  - change (element_rounds (Value.List l)) with (S (S (list_sum (map element_rounds l)))). cbn [tokens_of app length]. rewrite length_app. cbn [length].
    pose proof (Hg (map tokens_of l)) as H1. rewrite map_map in H1. pose proof (sum_le _ _ _ IH). lia.
  - change (element_rounds (Value.Dict m)) with (S (S (list_sum (map (fun e => element_rounds (snd e)) m)))).
    change (tokens_of (Value.Dict m)) with (str "{" :: comma_tokens (map entry_tokens m) ++ [str "}"]). cbn [length]. rewrite length_app. cbn [length].
    pose proof (Hg (map entry_tokens m)) as H1. rewrite map_map in H1.
    enough (list_sum (map (fun e => element_rounds (snd e)) m) <= list_sum (map (fun e => length (entry_tokens e)) m))%nat by lia.
    apply sum_le. eapply Forall_impl; [exact IH|]. intros e He. etransitivity; [exact He|]. unfold entry_tokens. rewrite length_app. lia.
Qed.

(** The tokens of a value are parsed to it. *)
Lemma parse_tokens_of v : container v = true -> json_ok v -> parse_tokens (tokens_of v) = Done v.
Proof.
  intros Hc Hok. pose proof (rounds_tokens v) as Hr. rewrite (container_rounds v Hc) in Hr.
  pose proof (all_parsed v Hc Hok (2 * length (tail (tokens_of v)) + 2 - rounds v)%nat (empty_of v) [] [] [] eq_refl) as Hp.
  rewrite app_nil_r in Hp. cbn [modify] in Hp.
  replace (rounds v + (2 * length (tail (tokens_of v)) + 2 - rounds v))%nat with (2 * length (tail (tokens_of v)) + 2)%nat in Hp
    by (destruct v; try done; cbn [tokens_of app tail length] in *; lia).
  destruct v as [| | | | | |l|m]; try done; cbn [tokens_of app tail] in *; unfold parse_tokens; refine (eq_trans Hp _); by destruct (_ - _)%nat.
Qed.

(** ** The round trip *)

(** C12: JSON text is read back: when [Json::streamify] writes a list or a dictionary of values that
    the format can hold to a memory stream with room for the text, it succeeds, and [Json::parse]
    of a stream with that text returns the same value. *)
Theorem json_roundtrip {O I} `{MemOutput O} `{MemInput I} v (out : O) : container v = true -> json_ok v ->
  out_valid out -> out_content out = [] -> out_room out (zlen (json_text v)) ->
  exists out', streamify out v = Val (true, out') /\
    forall (input : I) fuel, in_valid input -> in_content input = out_content out' -> (length (out_content out') < fuel)%nat ->
    parse fuel input = Done v.
Proof.
  intros Hc Hok Ho He Hr. destruct (streamify_spec v out Hc Hok Ho Hr) as (o & E & _ & C). exists o. split; [exact E|].
  intros input fuel Hi Hin Hf. rewrite C, He in Hin, Hf. unfold parse, tokenizer.
  rewrite (tokenizer_cut (tokens_of v) (container_cut v Hc Hok) fuel input [] Hf Hi Hin).
  cbn [lift app]. change (Done ?v ≫= ?f) with (f v). cbn [negb]. etransitivity; [|exact (parse_tokens_of v Hc Hok)].
  by destruct v.
Qed.

(** A dictionary with a number, a list and a dictionary, through a buffer of 200 bytes. *)
Abbreviation sample := (Value.Dict [(str "a", Value.Int (-12)); (str "b", Value.List [Value.Double (S754_finite false 5629499534213120 (-51)); Value.Null]);
  (str "c\\", Value.Dict [(str "d", Value.Bool true); (str "e", Value.String (str "hi, {there}"))])]).

Abbreviation sample_text := (str "{" ++ [34] ++ str "a" ++ [34] ++ str ":-12," ++ [34] ++ str "b" ++ [34] ++ str ":[2.500000,null]," ++
  [34] ++ str "c\\" ++ [34] ++ str ":{" ++ [34] ++ str "d" ++ [34] ++ str ":true," ++ [34] ++ str "e" ++ [34] ++ str ":" ++
  [34] ++ str "hi, {there}" ++ [34] ++ str "}}").

Lemma json_roundtrip_witness :
  (exists out', streamify (OutputBufferWrapper.create (repeat 0 200) 200) sample = Val (true, out') /\ out_content out' = sample_text) /\
  parse 200 (InputBufferWrapper.create sample_text (zlen sample_text)) = Done sample.
Proof.
  destruct (json_roundtrip (I := InputBufferWrapper.t) sample (OutputBufferWrapper.create (repeat 0 200) 200)) as (o & E & P).
  - reflexivity.
  - repeat (constructor || (vm_compute; done)).
  - vm_compute; done.
  - reflexivity.
  - vm_compute; done.
  - assert (match streamify (OutputBufferWrapper.create (repeat 0 200) 200) sample with
      Val (_, o) => out_content o = sample_text | _ => False end) as Ht by (vm_compute; reflexivity).
    rewrite E in Ht. split; [exact (ex_intro _ o (conj E Ht))|]. refine (P _ 200%nat _ _ _).
    + clear. vm_compute. done.
    + rewrite Ht. vm_compute. reflexivity.
    + rewrite Ht. apply Nat.ltb_lt. vm_compute. reflexivity.
Defined.
