(* ===== verification/Csv.v ===== *)
(** * Comma-separated values

    Models [sese/config/CSVReader.cpp] and [CSVWriter.cpp]: rows of fields with a separator
    between the fields and a line end after the row. The writer does not quote; the reader
    takes quotation marks off. *)

From S2P Require Import Prelude Streams.

Abbreviation Row := (list bytes).

(*@ sese/config/CSVReader.cpp 18-21 CSVReader::CSVReader *)
Record CSVReader (I : Type) := MkReader { csv_source : I; reader_splitChar : byte }.
Arguments MkReader {I}.
Arguments csv_source {I}.
Arguments reader_splitChar {I}.

(*@ sese/config/CSVWriter.cpp 20-24 CSVWriter::CSVWriter *)
Record CSVWriter (O : Type) := MkWriter { csv_dest : O; writer_splitChar : byte; isCRLF : bool }.
Arguments MkWriter {O}.
Arguments csv_dest {O}.
Arguments writer_splitChar {O}.
Arguments isCRLF {O}.

Section Reader.
Context {I : Type} `{InputStream I}.

(*@ sese/config/CSVReader.cpp 29-67 CSVReader::read *)
(** [ch]: the character read last; [quot]: inside quotation marks. After a carriage return
    the next character is dropped, whatever it is. *)
Fixpoint read_row_loop (fuel : nat) (split : byte) (source : I) (quot : bool) (builder : bytes) (row : Row) (ch : byte) :
    outcome (Row * I) :=
  match fuel with
  | O => Undef
  | S fuel =>
      '(c, source) ← next_char source;
      match c with
      | None => Val (if negb (bool_decide (builder = [])) || (ch =? 44) then row ++ [builder] else row, source)
      | Some c =>
          if quot then
            if negb (c =? 34) then read_row_loop fuel split source true (builder ++ [c]) row c
            else read_row_loop fuel split source false builder row c
          else if c =? 34 then read_row_loop fuel split source true builder row c
          else if c =? split then read_row_loop fuel split source false [] (row ++ [builder]) c
          else if c =? 13 then
            '(d, source) ← next_char source;
            match d with
            | Some _ => Val (row ++ [builder], source)
            | None => read_row_loop fuel split source false builder row c
            end
          else if c =? 10 then Val (row ++ [builder], source)
          else read_row_loop fuel split source false (builder ++ [c]) row c
      end
  end.

(*@ sese/config/CSVReader.cpp 23-68 CSVReader::read *)
Definition read_row (fuel : nat) (reader : CSVReader I) : outcome (Row * CSVReader I) :=
  '(row, source) ← read_row_loop fuel (reader_splitChar reader) (csv_source reader) false [] [] 0;
  Val (row, MkReader source (reader_splitChar reader)).

(** Rows until one is empty. *)
Fixpoint read_rows (n fuel : nat) (reader : CSVReader I) : outcome (list Row) :=
  match n with
  | O => Val []
  | S n =>
      '(row, reader) ← read_row fuel reader;
      match row with [] => Val [] | _ => rows ← read_rows n fuel reader; Val (row :: rows) end
  end.
End Reader.

(** The bytes of a row. *)
Definition row_pieces (split : byte) (crlf : bool) (row : Row) : list bytes :=
  match row with [] => [] | col :: cols => col :: (cols ≫= (fun col => [[split]; col])) end ++ [if crlf then [13; 10] else [10]].

(*@ sese/config/CSVWriter.cpp 26-42 CSVWriter::write *)
(** The results of the writes are not tested. *)
Definition write_row {O} `{OutputStream O} (writer : CSVWriter O) (row : Row) : outcome (CSVWriter O) :=
  dest ← write_each (csv_dest writer) (row_pieces (writer_splitChar writer) (isCRLF writer) row);
  Val (MkWriter dest (writer_splitChar writer) (isCRLF writer)).

Definition write_rows {O} `{OutputStream O} (writer : CSVWriter O) (rows : list Row) : outcome (CSVWriter O) :=
  foldl (fun w row => w ← w; write_row w row) (Val writer) rows.

(** ** The round trip *)

(** Fields without the characters that have a meaning; a row has a field. *)
Definition field_ok (split : byte) (col : bytes) : Prop := Forall (fun c => c <> 34 /\ c <> split /\ c <> 13 /\ c <> 10) col.
Definition row_ok (split : byte) (row : Row) : Prop := row <> [] /\ Forall (field_ok split) row.
Definition split_ok (split : byte) : Prop := split <> 34 /\ split <> 13 /\ split <> 10.

(** The text of a row and of rows. *)
Definition row_text (split : byte) (crlf : bool) (row : Row) : bytes := concat (row_pieces split crlf row).
Definition rows_text (split : byte) (crlf : bool) (rows : list Row) : bytes := concat (map (row_text split crlf) rows).

Section Write.
Context {O : Type} `{MemOutput O}.

Lemma write_rows_spec split crlf rows : forall dest : O, out_valid dest -> out_room dest (zlen (rows_text split crlf rows)) ->
  exists dest', write_rows (MkWriter dest split crlf) rows = Val (MkWriter dest' split crlf) /\ out_valid dest' /\
    out_content dest' = out_content dest ++ rows_text split crlf rows.
Proof.
  unfold write_rows, rows_text. induction rows as [|row rows IH]; intros dest Hv Hr; cbn [foldl map concat] in *.
  - exists dest. by rewrite app_nil_r.
  - rewrite zlen_app in Hr. pose proof (zlen_nonneg (concat (map (row_text split crlf) rows))).
    destruct (write_each_spec (row_pieces split crlf row) dest (zlen (concat (map (row_text split crlf) rows))) Hv) as (d1 & E & V & C & R); [done|lia|].
    rewrite bind_Val. unfold write_row at 2. cbn [csv_dest writer_splitChar isCRLF]. rewrite E, bind_Val.
    destruct (IH d1 V R) as (d2 & E2 & V2 & C2). exists d2. split; [exact E2|]. split; [done|]. by rewrite C2, C, <- app_assoc.
Qed.
End Write.

Section Read.
Context {I : Type} `{MemInput I}.
Context (split : byte) (Hsplit : split_ok split).

(** The characters of a field. *)
Lemma read_field col : field_ok split col -> forall fuel (source : I) builder row ch rest, in_valid source -> in_content source = col ++ rest ->
  exists source' ch', read_row_loop (length col + fuel) split source false builder row ch = read_row_loop fuel split source' false (builder ++ col) row ch' /\
    in_valid source' /\ in_content source' = rest.
Proof.
  induction 1 as [|c col (H1 & H2 & H3 & H4) _ IH]; intros fuel source builder row ch rest Hv Hc; cbn [length Nat.add app] in *.
  - exists source, ch. by rewrite app_nil_r.
  - destruct (next_char_spec source c (col ++ rest) Hv Hc) as (s1 & E1 & V1 & C1).
    destruct (IH fuel s1 (builder ++ [c]) row c rest V1 C1) as (s2 & ch2 & E2 & V2 & C2). exists s2, ch2. split; [|done].
    cbn [read_row_loop]. rewrite E1, bind_Val, !(proj2 (Z.eqb_neq _ _)) by done. by rewrite E2, <- app_assoc.
Qed.

Lemma read_cols cols crlf : Forall (field_ok split) cols -> forall col fuel (source : I) row ch rest, field_ok split col -> in_valid source ->
  in_content source = concat (col :: (cols ≫= (fun col => [[split]; col]))) ++ (if crlf : bool then [13; 10] else [10]) ++ rest ->
  (length (in_content source) < fuel)%nat ->
  exists source', read_row_loop fuel split source false [] row ch = Val (row ++ col :: cols, source') /\ in_valid source' /\ in_content source' = rest.
Proof.
  destruct Hsplit as (S1 & S2 & S3).
  induction 1 as [|col' cols Hcol' _ IH]; intros col fuel source row ch rest Hcol Hv Hc Hf.
  - cbn [concat mbind list_bind] in Hc. rewrite app_nil_r in Hc. pose proof (f_equal length Hc) as Hl. rewrite !length_app in Hl.
    destruct (read_field col Hcol (fuel - length col) source [] row ch _ Hv Hc) as (s1 & ch1 & E1 & V1 & C1).
    replace (length col + (fuel - length col))%nat with fuel in E1 by lia. rewrite E1. cbn [app].
    destruct (fuel - length col)%nat as [|f] eqn:Ef; [lia|]. destruct crlf; cbn [app] in C1.
    + destruct (next_char_spec s1 13 (10 :: rest) V1 C1) as (s2 & E2 & V2 & C2). destruct (next_char_spec s2 10 rest V2 C2) as (s3 & E3 & V3 & C3).
      exists s3. split; [|done]. cbn [read_row_loop]. rewrite E2, bind_Val. change (13 =? 34) with false. rewrite (proj2 (Z.eqb_neq 13 split)) by done.
      change (13 =? 13) with true. cbv iota. by rewrite E3.
    + destruct (next_char_spec s1 10 rest V1 C1) as (s2 & E2 & V2 & C2). exists s2. split; [|done]. cbn [read_row_loop]. rewrite E2, bind_Val.
      change (10 =? 34) with false. rewrite (proj2 (Z.eqb_neq 10 split)) by done. done.
  - rewrite bind_cons in Hc. cbn [concat app] in Hc. rewrite <- app_assoc in Hc.
    destruct (read_field col Hcol (fuel - length col) source [] row ch _ Hv Hc) as (s1 & ch1 & E1 & V1 & C1).
    assert (length (in_content source) = length col + length (in_content s1))%nat as Hl by (rewrite Hc, C1; apply length_app).
    replace (length col + (fuel - length col))%nat with fuel in E1 by lia. rewrite E1. cbn [app] in *.
    destruct (fuel - length col)%nat as [|f] eqn:Ef; [lia|]. destruct (next_char_spec s1 split _ V1 C1) as (s2 & E2 & V2 & C2).
    assert (length (in_content s1) = S (length (in_content s2))) as Hl2 by (by rewrite C1, C2).
    cbn [read_row_loop]. rewrite E2, bind_Val, (proj2 (Z.eqb_neq split 34)), Z.eqb_refl by done.
    destruct (IH col' f s2 (row ++ [col]) split rest Hcol' V2) as (s3 & E3 & V3 & C3); [|lia|].
    { rewrite C2. reflexivity. }
    exists s3. rewrite E3, <- app_assoc. done.
Qed.

Lemma read_rows_spec crlf rows : Forall (row_ok split) rows -> forall n fuel (source : I), (length rows < n)%nat -> in_valid source ->
  in_content source = rows_text split crlf rows -> (length (in_content source) < fuel)%nat -> read_rows n fuel (MkReader source split) = Val rows.
Proof.
  unfold rows_text. induction 1 as [|row rows [Hne Hrow] _ IH]; intros [|n] fuel source Hn Hv Hc Hf; cbn [length map concat] in *; try lia; cbn [read_rows];
    unfold read_row; cbn [reader_splitChar csv_source].
  - destruct (next_char_end source Hv Hc) as (s & E). destruct fuel as [|fuel]; [lia|]. cbn [read_row_loop]. by rewrite E, !bind_Val.
  - destruct row as [|col cols]; [done|]. inversion_clear Hrow as [|? ? Hcol Hcols]. unfold row_text, row_pieces in Hc. rewrite concat_app in Hc.
    destruct (read_cols cols crlf Hcols col fuel source [] 0 (concat (map (row_text split crlf) rows)) Hcol Hv) as (s & E & V & C); [|done|].
    { rewrite Hc, <- app_assoc. do 2 f_equal. cbn. by rewrite app_nil_r. }
    rewrite E, !bind_Val. cbn [app]. rewrite IH; [done|lia|done|done|].
    assert (length (in_content s) <= length (in_content source))%nat; [|lia]. rewrite C, Hc, length_app. unfold row_text, row_pieces. lia.
Qed.
End Read.

(** Rows that are written to a memory stream with room for them are read back from it. *)
Lemma csv_roundtrip {O I} `{MemOutput O} `{MemInput I} split crlf rows (dest : O) : split_ok split -> Forall (row_ok split) rows ->
  out_valid dest -> out_content dest = [] -> out_room dest (zlen (rows_text split crlf rows)) ->
  exists writer, write_rows (MkWriter dest split crlf) rows = Val writer /\
    forall (source : I) n fuel, in_valid source -> in_content source = out_content (csv_dest writer) ->
    (length rows < n)%nat -> (length (in_content source) < fuel)%nat -> read_rows n fuel (MkReader source split) = Val rows.
Proof.
  intros Hs Hrows Hv He Hr. destruct (write_rows_spec split crlf rows dest Hv Hr) as (d & E & _ & C). exists (MkWriter d split crlf).
  split; [exact E|]. intros source n fuel Hi Hc Hn Hf. cbn [csv_dest] in Hc. rewrite C, He in Hc. by apply (read_rows_spec split Hs crlf).
Qed.
