(* ===== verification/Xml.v ===== *)
(** * XML

    Models [sese/config/xml]: elements, the tokenizer, the recursive parser with its depth
    limit, and the writer. The parser looks at the front of its token queue, and takes from
    it, without testing in some places that a token is left: that is [Undef]. *)

From S2P Require Import Prelude Streams Text OrdMap.

(** ** Elements *)

(*@ sese/config/xml/XmlTypes.h 34-57 Element *)
Inductive Element := MkElement (name value : bytes) (attributes : list (bytes * bytes)) (elements : list Element).

(*@ sese/config/xml/XmlTypes.cpp 19-21 Element::Element *)
Definition new_Element (name : bytes) : Element := MkElement name [] [] [].
(*@ sese/config/xml/XmlTypes.cpp 23-25 Element::getAttributes *)
Definition getAttributes '(MkElement _ _ attributes _) := attributes.
(*@ sese/config/xml/XmlTypes.cpp 27-29 Element::getElements *)
Definition getElements '(MkElement _ _ _ elements) := elements.
(*@ sese/config/xml/XmlTypes.cpp 31-33 Element::getName *)
Definition getName '(MkElement name _ _ _) := name.
(*@ sese/config/xml/XmlTypes.cpp 35-37 Element::getValue *)
Definition getValue '(MkElement _ value _ _) := value.
(*@ sese/config/xml/XmlTypes.cpp 39-41 Element::setValue *)
Definition setValue (var : bytes) '(MkElement name _ attributes elements) := MkElement name var attributes elements.
(*@ sese/config/xml/XmlTypes.cpp 43-45 Element::addElement *)
Definition addElement (element : Element) '(MkElement name value attributes elements) := MkElement name value attributes (elements ++ [element]).
(*@ sese/config/xml/XmlTypes.cpp 47-49 Element::setAttribute *)
Definition setAttribute (k v : bytes) '(MkElement name value attributes elements) := MkElement name value (mset lexcmp k v attributes) elements.
(*@ sese/config/xml/XmlTypes.cpp 51-57 Element::getAttribute *)
Definition getAttribute (k default_value : bytes) (e : Element) : bytes := default default_value (mfind lexcmp k (getAttributes e)).
(*@ sese/config/xml/XmlTypes.cpp 59-61 Element::removeAttribute *)
Definition removeAttribute (k : bytes) '(MkElement name value attributes elements) := MkElement name value (merase lexcmp k attributes) elements.

(** ** Tokens *)

Abbreviation Tokens := (list bytes).

(** [if (!builder.empty()) tokens.push(builder.toString())]. *)
Definition word (builder : bytes) : Tokens := match builder with [] => [] | _ => [builder] end.
Definition push_word (builder : bytes) (tokens : Tokens) : Tokens := tokens ++ word builder.

Section Tokenizer.
Context {I : Type} `{InputStream I}.

(*@ sese/config/xml/XmlUtil.cpp 74-83 XmlUtil::tokenizer *)
(** To the closing quotation mark. *)
Fixpoint quoted_loop (fuel : nat) (input_stream : I) (builder : bytes) (tokens : Tokens) : outcome (bytes * Tokens * I) :=
  match fuel with
  | O => Undef
  | S fuel =>
      '(ch, input_stream) ← next_char input_stream;
      match ch with
      | None => Val (builder, tokens, input_stream)
      | Some ch =>
          if ch =? 34 then Val ([], tokens ++ [builder], input_stream)
          else quoted_loop fuel input_stream (builder ++ [ch]) tokens
      end
  end.

(*@ sese/config/xml/XmlUtil.cpp 34-87 XmlUtil::tokenizer *)
Fixpoint tokenizer_loop (fuel : nat) (input_stream : I) (builder : bytes) (tokens : Tokens) : outcome Tokens :=
  match fuel with
  | O => Undef
  | S fuel =>
      '(ch, input_stream) ← next_char input_stream;
      match ch with
      | None => Val tokens
      | Some ch =>
          if isSpace ch then tokenizer_loop fuel input_stream [] (push_word builder tokens)
          else if ch =? 62 then tokenizer_loop fuel input_stream [] (push_word builder tokens ++ [[ch]])
          else if ch =? 60 then tokenizer_loop fuel input_stream [] (push_word builder tokens ++ [[ch]])
          else if ch =? 47 then tokenizer_loop fuel input_stream [] (push_word builder tokens ++ [[ch]])
          else if ch =? 61 then tokenizer_loop fuel input_stream [] (tokens ++ [builder; [ch]])
          else if ch =? 34 then
            '(builder, tokens, input_stream) ← quoted_loop fuel input_stream builder tokens;
            tokenizer_loop fuel input_stream builder tokens
          else tokenizer_loop fuel input_stream (builder ++ [ch]) tokens
      end
  end.

(*@ sese/config/xml/XmlUtil.cpp 30-88 XmlUtil::tokenizer *)
Definition tokenizer (fuel : nat) (input_stream : I) : outcome Tokens := tokenizer_loop fuel input_stream [] [].
End Tokenizer.

(** ** The parser *)

(** [tokens.front()] and [tokens.pop()]; on an empty queue, undefined. *)
Definition front (tokens : Tokens) : outcome bytes := match tokens with t :: _ => Val t | [] => Undef end.
Definition pop (tokens : Tokens) : outcome Tokens := match tokens with _ :: tokens => Val tokens | [] => Undef end.

(*@ sese/config/xml/XmlUtil.cpp 116-118 CHECK *)
(** [CHECK(word)] and the removal of the word: [None] returns the null pointer. *)
Definition expect (word : bytes) (tokens : Tokens) : option Tokens :=
  match tokens with t :: tokens => if bool_decide (t = word) then Some tokens else None | [] => None end.

(*@ sese/config/xml/XmlUtil.cpp 98-108 XmlUtil::removeComment *)
(** What follows the first ["--"]. *)
Fixpoint skip_comment (tokens : Tokens) : option Tokens :=
  match tokens with
  | [] => None
  | t :: tokens => if bool_decide (t = str "--") then Some tokens else skip_comment tokens
  end.

(*@ sese/config/xml/XmlUtil.cpp 96-114 XmlUtil::removeComment *)
(** [None] is the result [false]. *)
Definition removeComment (tokens : Tokens) : outcome (option Tokens) :=
  tokens ← pop tokens;
  Val (tokens ← skip_comment tokens; expect (str ">") tokens).

(*@ sese/config/xml/XmlUtil.cpp 153-164 XmlUtil::createElement *)
(** The attributes, to the ["/"] or [">"] after them. *)
Fixpoint attributes_loop (tokens : Tokens) (element : Element) : outcome (option (Element * Tokens)) :=
  match tokens with
  | [] => Undef
  | t :: rest =>
      if bool_decide (t = str ">") || bool_decide (t = str "/") then Val (Some (element, tokens))
      else match rest with
           | eq :: v :: rest' => if bool_decide (eq = str "=") then attributes_loop rest' (setAttribute t v element) else Val None
           | _ => Val None
           end
  end.

(*@ sese/config/xml/XmlUtil.cpp 206-220 XmlUtil::createElement *)
(** The words of the text, to the next ["<"]. *)
Fixpoint text_loop (tokens : Tokens) (first : bool) (builder : bytes) : bytes * Tokens :=
  match tokens with
  | [] => (builder, [])
  | t :: rest =>
      if bool_decide (t = str "<") then (builder, tokens)
      else text_loop rest false (builder ++ (if first then [] else [32]) ++ t)
  end.

(*@ sese/config/xml/XmlUtil.cpp 187-193 XmlUtil::createElement *)
(** The rest of an end tag: the name of the element and [">"]. *)
Definition end_tag (element : Element) (tokens : Tokens) : option (Element * Tokens) :=
  tokens ← expect (getName element) tokens;
  tokens ← expect (str ">") tokens;
  Some (element, tokens).

(** How the loop over the children ends: the function returns, or the loop is left. *)
Inductive children := Returns (result : option (Element * Tokens)) | Leaves (element : Element) (tokens : Tokens).

(*@ sese/config/xml/XmlUtil.cpp 120-236 XmlUtil::createElement *)
(** The element and the tokens that are left; [None] is the null pointer. *)
Fixpoint createElement (fuel : nat) (tokens : Tokens) (level : Z) (is_sub_element : bool) : outcome (option (Element * Tokens)) :=
  match fuel with
  | O => Undef
  | S fuel => if level =? 0 then Val None else element_loop fuel tokens level is_sub_element None
  end

(** Lines 123 to 147: the start of a round. *)
with element_loop (fuel : nat) (tokens : Tokens) (level : Z) (is_sub_element : bool) (element : option Element) :
    outcome (option (Element * Tokens)) :=
  match fuel with
  | O => Undef
  | S fuel =>
      if bool_decide (tokens = []) then Val (element ≫= fun element => Some (element, tokens))
      else if negb is_sub_element then
        match expect (str "<") tokens with
        | None | Some [] => Val None
        | Some tokens =>
            t ← front tokens;
            if bool_decide (t = str "!--") then
              r ← removeComment tokens;
              match r with None => Val None | Some tokens => element_loop fuel tokens level is_sub_element element end
            else named_element fuel tokens level is_sub_element
        end
      else
        t ← front tokens;
        if bool_decide (t = str "!--") then
          r ← removeComment tokens;
          match r with None => Val None | Some tokens => tokens ← pop tokens; named_element fuel tokens level is_sub_element end
        else named_element fuel tokens level is_sub_element
  end

(** Lines 148 to 232: from the name on. *)
with named_element (fuel : nat) (tokens : Tokens) (level : Z) (is_sub_element : bool) : outcome (option (Element * Tokens)) :=
  match fuel with
  | O => Undef
  | S fuel =>
      name ← front tokens;
      tokens ← pop tokens;
      if bool_decide (tokens = []) then Val None else
      r ← attributes_loop tokens (new_Element name);
      match r with
      | None => Val None
      | Some (element, tokens) =>
          t ← front tokens;
          tokens ← pop tokens;
          if bool_decide (t = str "/") then Val (tokens ← expect (str ">") tokens; Some (element, tokens))
          else if bool_decide (tokens = []) then Val None
          else
            t ← front tokens;
            if bool_decide (t = str "<") then
              r ← children_loop fuel tokens level element;
              match r with
              | Returns result => Val result
              | Leaves element tokens => element_loop fuel tokens level is_sub_element (Some element)
              end
            else
              let '(value, tokens) := text_loop tokens true [] in
              Val (tokens ← expect (str "<") tokens; tokens ← expect (str "/") tokens; end_tag (setValue value element) tokens)
      end
  end

(** Lines 180 to 204: the children. *)
with children_loop (fuel : nat) (tokens : Tokens) (level : Z) (element : Element) : outcome children :=
  match fuel with
  | O => Undef
  | S fuel =>
      t ← front tokens;
      if negb (bool_decide (t = str "<")) then Val (Leaves element tokens)
      else
        tokens ← pop tokens;
        t ← front tokens;
        if bool_decide (t = str "/") then tokens ← pop tokens; Val (Returns (end_tag element tokens))
        else
          r ← createElement fuel tokens (level - 1) true;
          match r with
          | None => Val (Returns None)
          | Some (object, tokens) => children_loop fuel tokens level (addElement object element)
          end
  end.

(** Every four calls take a token. *)
Definition parse_fuel (tokens : Tokens) : nat := (4 * length tokens + 4)%nat.

(*@ sese/config/xml/XmlUtil.cpp 90-94 XmlUtil::deserialize *)
Definition deserialize {I} `{InputStream I} (fuel : nat) (input_stream : I) (level : Z) : outcome (option Element) :=
  tokens ← tokenizer fuel input_stream;
  r ← createElement (parse_fuel tokens) tokens level false;
  Val (r ≫= fun '(element, _) => Some element).

(** ** The writer *)

(*@ sese/config/xml/XmlUtil.cpp 246-252 XmlUtil::serialize *)
Definition attribute_pieces (attr : bytes * bytes) : list bytes := [str " "; fst attr; [61; 34]; snd attr; [34]].

(*@ sese/config/xml/XmlUtil.cpp 238-274 XmlUtil::serialize *)
(** The results of the writes are not tested. *)
Fixpoint serialize {O} `{OutputStream O} (object : Element) (stream : O) : outcome O :=
  match object with
  | MkElement name value attributes elements =>
      stream ← write_each stream [str "<"; name];
      stream ← write_each stream (attributes ≫= attribute_pieces);
      match elements with
      | _ :: _ =>
          stream ← write_each stream [str ">"];
          stream ← (fix each elements stream := match elements with
                    | [] => Val stream
                    | element :: elements => stream ← serialize element stream; each elements stream
                    end) elements stream;
          write_each stream [str "</"; name; str ">"]
      | [] =>
          if bool_decide (value = []) then write_each stream [str "/>"]
          else write_each stream [str ">"; value; str "</"; name; str ">"]
      end
  end.
