(* ===== verification/XmlRoundtrip.v ===== *)
(** * Elements are read back

    The tokenizer as a function of the text, what the writer writes, the tokens of an
    element, and the parser on them: an element that is written and read again is the same
    element, if its depth is within the parser's limit. *)

From S2P Require Import Prelude Streams Text OrdMap Xml.
From S2P Require Import InputBufferWrapper OutputBufferWrapper.

(** ** Induction over elements *)

Section Induction.
Variable P : Element -> Prop.
Hypothesis HE : forall name value attributes elements, Forall P elements -> P (MkElement name value attributes elements).
Fixpoint element_induction (e : Element) : P e :=
  match e with
  | MkElement name value attributes elements =>
      HE name value attributes elements
        ((fix each l : Forall P l := match l with [] => Forall_nil_2 P | x :: l => Forall_cons_2 P x l (element_induction x) (each l) end) elements)
  end.
End Induction.

(** ** Text and tokens of an element *)

Fixpoint element_text (e : Element) : bytes :=
  match e with
  | MkElement name value attributes elements =>
      60 :: name ++ concat (attributes ≫= attribute_pieces) ++
      match elements with
      | [] => if bool_decide (value = []) then [47; 62] else 62 :: value ++ [60; 47] ++ name ++ [62]
      | _ => 62 :: concat (map element_text elements) ++ [60; 47] ++ name ++ [62]
      end
  end.

Definition attribute_tokens (attr : bytes * bytes) : Tokens := [fst attr; str "="; snd attr].

(** The words of a text. *)
Fixpoint words_loop (builder text : bytes) : Tokens :=
  match text with
  | [] => word builder
  | c :: text => if isSpace c then word builder ++ words_loop [] text else words_loop (builder ++ [c]) text
  end.
Definition words (text : bytes) : Tokens := words_loop [] text.

(** Without the opening bracket. *)
Fixpoint element_tokens (e : Element) : Tokens :=
  match e with
  | MkElement name value attributes elements =>
      name :: (attributes ≫= attribute_tokens) ++
      match elements with
      | [] => if bool_decide (value = []) then [str "/"; str ">"] else str ">" :: words value ++ [str "<"; str "/"; name; str ">"]
      | _ => str ">" :: concat (map (fun e => str "<" :: element_tokens e) elements) ++ [str "<"; str "/"; name; str ">"]
      end
  end.

(** ** Elements that can be written *)

Definition plain_char (c : byte) : bool := negb (existsb (Z.eqb c) [60; 62; 47; 61; 34]) && negb (isSpace c).
Definition plain (w : bytes) : Prop := Forall (fun c => plain_char c = true) w.

(** A name has no blank and no character of the syntax, and does not start a comment. *)
Definition name_ok (name : bytes) : Prop := plain name /\ name <> [] /\ name <> str "!--".
Definition attribute_ok (attr : bytes * bytes) : Prop := plain (fst attr) /\ ~ In 34 (snd attr).
(** Words with single blanks between them. *)
Definition value_ok (value : bytes) : Prop := exists ws, value = join [32] ws /\ Forall (fun w => plain w /\ w <> []) ws.

(** An element of depth [level] at most. *)
Fixpoint element_ok (level : nat) (e : Element) : Prop :=
  match level, e with
  | O, _ => False
  | S level, MkElement name value attributes elements =>
      name_ok name /\ Forall attribute_ok attributes /\ msorted lexcmp attributes /\ value_ok value /\
      (elements = [] \/ value = []) /\ Forall (element_ok level) elements
  end.

(** How deep an element is. *)
Fixpoint depth (e : Element) : Z := match e with MkElement _ _ _ elements => 1 + foldr Z.max 0 (map depth elements) end.

(** ** The writer *)

Lemma serialize_spec {O} `{MemOutput O} e : forall (stream : O) n, out_valid stream -> out_room stream (zlen (element_text e) + n) -> 0 <= n ->
  exists stream', serialize e stream = Val stream' /\ out_valid stream' /\
    out_content stream' = out_content stream ++ element_text e /\ out_room stream' n.
Proof.
  induction e as [name value attributes elements IH] using element_induction.
  set (each := fix each elements (stream : O) := match elements with
                    | [] => Val stream
                    | element :: elements => stream ← serialize element stream; each elements stream end).
  assert (forall (stream : O) n, out_valid stream -> out_room stream (zlen (concat (map element_text elements)) + n) -> 0 <= n ->
    exists stream', each elements stream = Val stream' /\ out_valid stream' /\
      out_content stream' = out_content stream ++ concat (map element_text elements) /\ out_room stream' n) as Heach.
  { clear - IH. induction IH as [|e elements He _ IH]; intros stream n Hv Hr Hn; cbn [map concat] in *.
    - exists stream. by rewrite app_nil_r.
    - rewrite zlen_app, <- Z.add_assoc in Hr. pose proof (zlen_nonneg (concat (map element_text elements))).
      destruct (He stream (zlen (concat (map element_text elements)) + n) Hv Hr ltac:(lia)) as (s1 & E1 & V1 & C1 & R1).
      destruct (IH s1 n V1 R1 Hn) as (s2 & E2 & V2 & C2 & R2). exists s2. cbn. rewrite E1, bind_Val. split; [exact E2|].
      by rewrite C2, C1, <- app_assoc. }
  intros stream n Hv Hr Hn. cbn [serialize]. fold each.
  set (tail := match elements with [] => if bool_decide (value = []) then [47; 62] else 62 :: value ++ [60; 47] ++ name ++ [62]
      | _ => 62 :: concat (map element_text elements) ++ [60; 47] ++ name ++ [62] end).
  assert (element_text (MkElement name value attributes elements) = concat [str "<"; name] ++ concat (attributes ≫= attribute_pieces) ++ tail) as Ht.
  { cbn [element_text concat app]. change (str "<") with [60]. by rewrite app_nil_r. }
  rewrite Ht in *. rewrite !zlen_app, <- !Z.add_assoc in Hr. pose proof (zlen_nonneg tail). pose proof (zlen_nonneg (concat (attributes ≫= attribute_pieces))).
  destruct (write_each_spec _ stream _ Hv Hr ltac:(lia)) as (s1 & E1 & V1 & C1 & R1).
  destruct (write_each_spec _ s1 _ V1 R1 ltac:(lia)) as (s2 & E2 & V2 & C2 & R2). rewrite E1, bind_Val, E2, bind_Val.
  cut (exists stream', (match elements with
      | _ :: _ => stream ← write_each s2 [str ">"]; stream ← each elements stream; write_each stream [str "</"; name; str ">"]
      | [] => if bool_decide (value = []) then write_each s2 [str "/>"] else write_each s2 [str ">"; value; str "</"; name; str ">"]
      end) = Val stream' /\ out_valid stream' /\ out_content stream' = out_content s2 ++ tail /\ out_room stream' n).
  { intros (s & E & V & C & R). exists s. split; [exact E|]. split; [done|]. split; [|done]. by rewrite C, C2, C1, <- !app_assoc. }
  clear - Heach V2 R2 Hn. destruct elements as [|e elements].
  - subst tail. destruct (bool_decide (value = []));
      [exact (write_each_spec [str "/>"] s2 n V2 R2 Hn)|exact (write_each_spec [str ">"; value; str "</"; name; str ">"] s2 n V2 R2 Hn)].
  - subst tail. change (62 :: concat (map element_text (e :: elements)) ++ [60; 47] ++ name ++ [62]) with
      (concat [str ">"] ++ concat (map element_text (e :: elements)) ++ concat [str "</"; name; str ">"]) in *.
    rewrite !zlen_app, <- !Z.add_assoc in R2. 
    pose proof (zlen_nonneg (concat [str "</"; name; str ">"])). pose proof (zlen_nonneg (concat (map element_text (e :: elements)))).
    destruct (write_each_spec _ s2 _ V2 R2 ltac:(lia)) as (s3 & E3 & V3 & C3 & R3).
    destruct (Heach s3 _ V3 R3 ltac:(lia)) as (s4 & E4 & V4 & C4 & R4).
    destruct (write_each_spec _ s4 _ V4 R4 ltac:(lia)) as (s5 & E5 & V5 & C5 & R5).
    rewrite E3, bind_Val, E4, bind_Val, E5. exists s5. split; [done|]. split; [done|]. split; [|done]. by rewrite C5, C4, C3, <- !app_assoc.
Qed.

(** ** The tokenizer *)

(** As a function of the text; [quoted]: after an opening quotation mark. *)
Fixpoint toks (quoted : bool) (builder text : bytes) : Tokens :=
  match text with
  | [] => []
  | c :: text =>
      if quoted then if c =? 34 then builder :: toks false [] text else toks true (builder ++ [c]) text
      else if isSpace c then word builder ++ toks false [] text
      else if existsb (Z.eqb c) [62; 60; 47] then word builder ++ [c] :: toks false [] text
      else if c =? 61 then builder :: [c] :: toks false [] text
      else toks (c =? 34) (if c =? 34 then builder else builder ++ [c]) text
  end.

Section Tokenizer.
Context {I : Type} `{MemInput I}.

Lemma quoted_loop_spec fuel : forall (source : I) builder tokens, in_valid source -> (length (in_content source) < fuel)%nat ->
  exists builder' tokens' source', quoted_loop fuel source builder tokens = Val (builder', tokens', source') /\ in_valid source' /\
    (length (in_content source') <= length (in_content source))%nat /\
    tokens' ++ toks false builder' (in_content source') = tokens ++ toks true builder (in_content source).
Proof.
  induction fuel as [|fuel IH]; intros source builder tokens Hv Hf; [lia|]. cbn [quoted_loop].
  destruct (next_char_any source Hv) as ([c|] & s1 & E & V & C); rewrite E, bind_Val.
  - rewrite C in *. cbn [length toks] in *. destruct (c =? 34).
    + do 3 eexists. split; [done|]. split; [done|]. split; [lia|]. by rewrite <- app_assoc.
    + destruct (IH s1 (builder ++ [c]) tokens V) as (b & t & s & E2 & V2 & L2 & T2); [lia|]. exists b, t, s. split; [done|]. split; [done|].
      split; [lia|done].
  - exists builder, tokens, s1. split; [done|]. split; [done|]. rewrite C. split; [cbn; lia|].
    destruct (in_content source) as [|c rest] eqn:Hs; [done|]. exfalso. destruct (next_char_spec source c rest Hv Hs) as (s & E' & _). congruence.
Qed.

Lemma tokenizer_loop_spec fuel : forall (source : I) builder tokens, in_valid source -> (length (in_content source) < fuel)%nat ->
  tokenizer_loop fuel source builder tokens = Val (tokens ++ toks false builder (in_content source)).
Proof.
  induction fuel as [|fuel IH]; intros source builder tokens Hv Hf; [lia|]. cbn [tokenizer_loop].
  destruct (in_content source) as [|c rest] eqn:Hc.
  { destruct (next_char_end source Hv Hc) as (s & E). rewrite E, bind_Val. cbn [toks]. by rewrite app_nil_r. }
  destruct (next_char_spec source c rest Hv Hc) as (s1 & E & V & C). rewrite E, bind_Val. cbn [length toks existsb] in *.
  assert (length (in_content s1) < fuel)%nat as Hf1 by (rewrite C; lia). unfold push_word.
  destruct (isSpace c); [rewrite (IH s1 _ _ V Hf1), C, <- app_assoc; done|].
  destruct (c =? 62); [rewrite (IH s1 _ _ V Hf1), C, <- !app_assoc; done|].
  destruct (c =? 60); [rewrite (IH s1 _ _ V Hf1), C, <- !app_assoc; done|].
  destruct (c =? 47); [rewrite (IH s1 _ _ V Hf1), C, <- !app_assoc; done|]. cbn [orb].
  destruct (c =? 61); [rewrite (IH s1 _ _ V Hf1), C, <- !app_assoc; done|].
  destruct (c =? 34); [|by rewrite (IH s1 _ _ V Hf1), C].
  destruct (quoted_loop_spec fuel s1 builder tokens V Hf1) as (b & t & s & E2 & V2 & L2 & T2). rewrite E2, bind_Val.
  rewrite IH; [|done|lia]. by rewrite T2, C.
Qed.
End Tokenizer.

Lemma xml_plain_char_spec c : plain_char c = true ->
  isSpace c = false /\ existsb (Z.eqb c) [62; 60; 47] = false /\ (c =? 61) = false /\ (c =? 34) = false.
Proof.
  unfold plain_char. cbn [existsb]. rewrite andb_true_iff, !negb_true_iff, !orb_false_iff. tauto.
Qed.

Lemma toks_plain w : plain w -> forall builder rest, toks false builder (w ++ rest) = toks false (builder ++ w) rest.
Proof.
  induction 1 as [|c w Hc _ IH]; intros builder rest; cbn [app]; [by rewrite app_nil_r|].
  apply xml_plain_char_spec in Hc as (E1 & E2 & E3 & E4). cbn [toks]. by rewrite E1, E2, E3, E4, IH, <- app_assoc.
Qed.

Lemma toks_quoted v : ~ In 34 v -> forall builder rest, toks true builder (v ++ 34 :: rest) = (builder ++ v) :: toks false [] rest.
Proof.
  induction v as [|c v IH]; intros Hn builder rest; cbn [app toks]; [by rewrite app_nil_r|].
  rewrite (proj2 (Z.eqb_neq c 34)); [|intros ->; apply Hn; by left]. rewrite IH; [|intros Hi; apply Hn; by right]. by rewrite <- app_assoc.
Qed.

Lemma toks_attributes attributes : Forall attribute_ok attributes -> forall builder c rest, c = 62 \/ c = 47 ->
  toks false builder (concat (attributes ≫= attribute_pieces) ++ c :: rest) =
  word builder ++ (attributes ≫= attribute_tokens) ++ toks false [] (c :: rest).
Proof.
  induction 1 as [|[k v] attributes [Hk Hv] _ IH]; intros builder c rest Hc; cbn [fst snd] in *.
  - by destruct Hc as [-> | ->].
  - rewrite !bind_cons, concat_app. unfold attribute_pieces at 1, attribute_tokens at 1. cbn [fst snd concat]. rewrite app_nil_r, <- !app_assoc.
    change (str " ") with [32]. cbn [app toks]. change (isSpace 32) with true. cbv iota.
    rewrite (toks_plain k Hk). cbn [app toks]. change (isSpace 61) with false. change (isSpace 34) with false. cbn [existsb Z.eqb Pos.eqb orb].
    rewrite (toks_quoted v Hv). cbn [app]. by rewrite (IH [] c rest Hc).
Qed.

(** The words of a text without markup. *)
Lemma join_words ws : Forall (fun w => plain w /\ w <> []) ws -> forall builder, plain builder ->
  words_loop builder (join [32] ws) = match ws with [] => word builder | w :: ws => (builder ++ w) :: ws end.
Proof.
  assert (forall w builder rest, plain w -> words_loop builder (w ++ rest) = words_loop (builder ++ w) rest) as Hw.
  { induction w as [|c w IH]; intros builder rest Hp; cbn [app]; [by rewrite app_nil_r|]. inversion_clear Hp as [|? ? Hc Hp'].
    apply xml_plain_char_spec in Hc as (E & _). cbn [words_loop]. by rewrite E, (IH _ _ Hp'), <- app_assoc. }
  induction 1 as [|w ws [Hp Hne] Hws IH]; intros builder Hb; [done|]. destruct ws as [|w2 ws].
  - cbn [join]. rewrite <- (app_nil_r w) at 1. rewrite (Hw _ _ _ Hp). cbn [words_loop]. destruct builder, w; done.
  - change (join [32] (w :: w2 :: ws)) with (w ++ [32] ++ join [32] (w2 :: ws)). rewrite (Hw _ _ _ Hp). cbn [app words_loop].
    change (isSpace 32) with true. cbv iota. rewrite IH by constructor. cbn [app]. destruct builder, w; done.
Qed.

Lemma toks_words ws : Forall (fun w => plain w /\ w <> []) ws -> forall rest,
  toks false [] (join [32] ws ++ 60 :: rest) = ws ++ toks false [] (60 :: rest).
Proof.
  induction 1 as [|w ws [Hp Hne] Hws IH]; intros rest; [done|]. destruct ws as [|w2 ws].
  - cbn [join]. rewrite (toks_plain w Hp). cbn [app]. cbn. by destruct w.
  - change (join [32] (w :: w2 :: ws)) with (w ++ [32] ++ join [32] (w2 :: ws)). rewrite <- !app_assoc, (toks_plain w Hp). cbn [app toks].
    change (isSpace 32) with true. cbv iota. rewrite IH. by destruct w.
Qed.

Lemma toks_element level : forall e rest, element_ok level e ->
  toks false [] (element_text e ++ rest) = str "<" :: element_tokens e ++ toks false [] rest.
Proof.
  induction level as [|level IH]; intros [name value attributes elements] rest; [done|].
  intros ((Hn & Hne & _) & Ha & _ & (ws & -> & Hws) & _ & Hc).
  assert (forall rest, toks false [] (name ++ 62 :: rest) = name :: str ">" :: toks false [] rest) as Hend.
  { intros r. rewrite (toks_plain name Hn). cbn [app]. cbn. by destruct name. }
  assert (forall c rest, c = 62 \/ c = 47 -> toks false [] (60 :: name ++ concat (attributes ≫= attribute_pieces) ++ c :: rest) =
    str "<" :: name :: (attributes ≫= attribute_tokens) ++ toks false [] (c :: rest)) as Hopen.
  { intros c r Hcc. cbn [toks]. change (isSpace 60) with false. cbn [existsb Z.eqb Pos.eqb orb word app].
    by rewrite (toks_plain name Hn), (toks_attributes _ Ha _ _ _ Hcc); destruct name. }
  cbn [element_text element_tokens]. destruct elements as [|e elements].
  - case_bool_decide as Hv.
    + cbn [app]. rewrite <- !app_assoc. cbn [app]. rewrite (Hopen 47) by auto. done.
    + cbn [app]. rewrite <- !app_assoc. cbn [app]. rewrite (Hopen 62) by auto.
      rewrite <- !app_assoc. cbn [app]. change (toks false [] (62 :: ?x)) with (str ">" :: toks false [] x). rewrite (toks_words _ Hws).
      unfold words. rewrite (join_words _ Hws) by constructor. rewrite <- !app_assoc. cbn [app].
      change (toks false [] (60 :: 47 :: ?x)) with (str "<" :: str "/" :: toks false [] x). rewrite Hend. destruct ws; done.
  - assert (forall rest, toks false [] (concat (map element_text (e :: elements)) ++ rest) =
      concat (map (fun e => str "<" :: element_tokens e) (e :: elements)) ++ toks false [] rest) as Hmap.
    { clear - IH Hc. induction Hc as [|x l Hx _ IHl]; intros r; [done|]. cbn [map concat app]. by rewrite <- !app_assoc, (IH _ _ Hx), IHl. }
    cbn [app]. rewrite <- !app_assoc. cbn [app]. rewrite (Hopen 62) by auto.
    change (toks false [] (62 :: ?x)) with (str ">" :: toks false [] x). rewrite <- !app_assoc, Hmap. cbn [app]. rewrite <- !app_assoc. cbn [app].
    change (toks false [] (60 :: 47 :: ?x)) with (str "<" :: str "/" :: toks false [] x). by rewrite Hend.
Qed.

(** ** The parser *)

(** Takes known tokens from the queue. *)
Local Ltac take_tokens := repeat (progress (cbn [front pop expect app negb getName]; rewrite ?bind_Val)).

Lemma attributes_loop_spec attributes : Forall attribute_ok attributes -> forall element t rest, t = str ">" \/ t = str "/" ->
  attributes_loop ((attributes ≫= attribute_tokens) ++ t :: rest) element =
  Val (Some (fold_left (fun e attr => setAttribute (fst attr) (snd attr) e) attributes element, t :: rest)).
Proof.
  induction 1 as [|[k v] attributes [Hk Hv] _ IH]; intros element t rest Ht.
  - by destruct Ht as [-> | ->].
  - rewrite bind_cons. unfold attribute_tokens at 1. cbn [fst snd app attributes_loop fold_left].
    rewrite (bool_decide_eq_false_2 (k = str ">")), (bool_decide_eq_false_2 (k = str "/")) by (intros ->; by inversion_clear Hk). by apply IH.
Qed.

Lemma fold_attributes attributes : forall name acc, msorted lexcmp (acc ++ attributes) ->
  fold_left (fun e attr => setAttribute (fst attr) (snd attr) e) attributes (MkElement name [] acc []) = MkElement name [] (acc ++ attributes) [].
Proof.
  induction attributes as [|[k v] attributes IH]; intros name acc Hs; cbn [fold_left]; [by rewrite app_nil_r|].
  cbn [setAttribute fst snd]. rewrite (mset_last lexcmp) by exact (msorted_before lexcmp k v attributes acc Hs).
  by rewrite IH, <- app_assoc; [|rewrite <- app_assoc].
Qed.

Lemma text_loop_words ws : Forall (fun w => plain w /\ w <> []) ws -> forall first builder rest,
  text_loop (ws ++ str "<" :: rest) first builder =
  (builder ++ match ws with [] => [] | _ => (if first then [] else [32]) ++ join [32] ws end, str "<" :: rest).
Proof.
  induction 1 as [|w ws [Hp Hne] Hws IH]; intros first builder rest; [by rewrite app_nil_r|]. cbn [app text_loop].
  rewrite bool_decide_eq_false_2 by (intros ->; by inversion_clear Hp). rewrite IH, <- !app_assoc. f_equal. f_equal. f_equal.
  destruct ws as [|w2 ws]; [cbn [join]; by rewrite app_nil_r|]. done.
Qed.

Lemma expect_word t tokens : expect t (t :: tokens) = Some tokens.
Proof. cbn [expect]. by rewrite bool_decide_eq_true_2. Qed.

Lemma end_tag_spec e name rest : getName e = name -> end_tag e (name :: str ">" :: rest) = Some (e, rest).
Proof. intros <-. unfold end_tag. rewrite expect_word. cbn [mbind option_bind]. by rewrite expect_word. Qed.

Lemma depth_pos e : 1 <= depth e.
Proof. destruct e as [n v a l]. cbn [depth]. assert (0 <= foldr Z.max 0 (map depth l)); [induction l; cbn; lia|lia]. Qed.

(** What the calls need, by the number of the tokens. *)
Definition named_ok (level : nat) : Prop := forall e fuel L sub rest, element_ok level e -> (4 * length (element_tokens e) <= fuel)%nat -> 1 <= L ->
  named_element fuel (element_tokens e ++ rest) L sub = Val (if depth e <=? L then Some (e, rest) else None).

Lemma element_tokens_name e : exists ts, element_tokens e = getName e :: ts.
Proof. destruct e. by eexists. Qed.

Lemma element_name level e : element_ok level e -> name_ok (getName e).
Proof. destruct level, e; [done..|]. by intros []. Qed.

Lemma element_loop_sub level : named_ok level -> forall e fuel L rest, element_ok level e -> (4 * length (element_tokens e) + 2 <= fuel)%nat ->
  0 <= L -> createElement fuel (element_tokens e ++ rest) L true = Val (if depth e <=? L then Some (e, rest) else None).
Proof.
  intros IH e fuel L rest He Hf HL. destruct fuel as [|[|fuel]]; try lia. cbn [createElement]. pose proof (depth_pos e).
  destruct (L =? 0) eqn:E0; zbool; [by rewrite (proj2 (Z.leb_gt _ _)) by lia|]. cbn [element_loop].
  destruct (element_tokens_name e) as [ts Et]. pose proof (element_name level e He) as (_ & _ & Hn).
  assert (named_element fuel (element_tokens e ++ rest) L true = Val (if depth e <=? L then Some (e, rest) else None)) as Hgoal by (apply IH; [done|lia|lia]).
  rewrite Et in *. cbn [app] in *. rewrite bool_decide_eq_false_2 by done. take_tokens. by rewrite bool_decide_eq_false_2.
Qed.

Lemma children_loop_spec level : named_ok level -> forall elements name value attributes acc fuel L rest, Forall (element_ok level) elements ->
  (4 * length (concat (map (fun e => str "<" :: element_tokens e) elements)) + 1 <= fuel)%nat -> 1 <= L ->
  children_loop fuel (concat (map (fun e => str "<" :: element_tokens e) elements) ++ [str "<"; str "/"; name; str ">"] ++ rest) L (MkElement name value attributes acc) =
  Val (Returns (if foldr Z.max 0 (map depth elements) <=? L - 1 then Some (MkElement name value attributes (acc ++ elements), rest) else None)).
Proof.
  intros IH elements. induction elements as [|e elements IHe]; intros name value attributes acc fuel L rest He Hf HL; cbn [map concat app length foldr] in *.
  - destruct fuel as [|fuel]; [lia|]. cbn [children_loop]. take_tokens. rewrite bool_decide_eq_true_2 by done. take_tokens.
    rewrite bool_decide_eq_true_2 by done. take_tokens. rewrite end_tag_spec, app_nil_r, (proj2 (Z.leb_le _ _)) by (done || lia). done.
  - apply Forall_cons_1 in He as [He Hes]. rewrite length_app in Hf. destruct fuel as [|fuel]; [lia|]. cbn [children_loop].
    take_tokens. rewrite bool_decide_eq_true_2 by done. take_tokens. rewrite <- app_assoc.
    pose proof (element_loop_sub _ IH e fuel (L - 1)) as Hsub. destruct (element_tokens_name e) as [ts Et]. pose proof (element_name level e He) as (Hn & _).
    rewrite Et in *. cbn [app] in *. take_tokens. rewrite bool_decide_eq_false_2 by (intros E; rewrite E in Hn; by inversion_clear Hn).
    rewrite Hsub by (done || lia). rewrite bind_Val. destruct (depth e <=? L - 1) eqn:Ed; zbool.
    + cbn [addElement]. rewrite IHe; [|done|lia|done]. rewrite <- app_assoc. cbn [app].
      destruct (_ <=? L - 1) eqn:E1; zbool; [rewrite (proj2 (Z.leb_le _ _)) by lia|rewrite (proj2 (Z.leb_gt _ _)) by lia]; done.
    + rewrite (proj2 (Z.leb_gt _ _)) by lia. done.
Qed.

Lemma named_element_spec level : named_ok level.
Proof.
  induction level as [|level IH]; intros [name value attributes elements] fuel L sub rest; [done|].
  intros (Hn & Ha & Hs & (ws & -> & Hws) & Hv & Hc) Hf HL. cbn [element_tokens] in *. destruct fuel as [|fuel]; [cbn in Hf; lia|].
  cbn [named_element app front pop]. rewrite !bind_Val, <- app_assoc.
  assert (forall t r, t = str ">" \/ t = str "/" -> attributes_loop ((attributes ≫= attribute_tokens) ++ t :: r) (new_Element name) =
    Val (Some (MkElement name [] attributes [], t :: r))) as Hattr.
  { intros t r Ht. rewrite (attributes_loop_spec _ Ha) by done. unfold new_Element. by rewrite (fold_attributes attributes name []). }
  rewrite bool_decide_eq_false_2; [|destruct elements; [case_bool_decide|]; cbn [app]; by destruct (attributes ≫= attribute_tokens)].
  destruct elements as [|e elements].
  - cbn [depth map foldr]. rewrite (proj2 (Z.leb_le _ _)) by lia. case_bool_decide as He.
    + rewrite He. cbn [app]. rewrite Hattr by auto. cbn. done.
    + cbn [app]. rewrite Hattr by auto. rewrite bind_Val. take_tokens. rewrite bool_decide_eq_false_2 by done.
      unfold words. rewrite (join_words _ Hws) by constructor. destruct ws as [|w ws]; [done|]. cbn [app]. rewrite bool_decide_eq_false_2 by done.
      cbn [front]. rewrite bind_Val. pose proof (Forall_inv Hws) as [Hw _]. rewrite bool_decide_eq_false_2 by (intros ->; by inversion_clear Hw).
      rewrite <- app_assoc. cbn [app]. change (w :: ws ++ ?x) with ((w :: ws) ++ x). rewrite (text_loop_words _ Hws). cbn [app].
      rewrite !expect_word. cbn [mbind option_bind]. rewrite !expect_word. cbn [mbind option_bind]. by rewrite end_tag_spec.
  - destruct Hv as [Hv|Hv]; [done|]. rewrite Hv. cbn [app]. rewrite Hattr by auto. rewrite bind_Val. take_tokens.
    rewrite bool_decide_eq_false_2 by done. rewrite <- app_assoc. rewrite bool_decide_eq_false_2 by (cbn [map concat]; done).
    cbn [map concat app front]. rewrite bind_Val, bool_decide_eq_true_2 by done.
    pose proof (children_loop_spec level IH (e :: elements) name [] attributes [] fuel L rest Hc) as Hl. cbn [map concat app] in Hl.
    rewrite Hl; [| |lia].
    + rewrite bind_Val. cbn [depth map]. do 2 f_equal. destruct (_ <=? L - 1) eqn:E1; zbool; [rewrite (proj2 (Z.leb_le _ _)) by lia|rewrite (proj2 (Z.leb_gt _ _)) by lia]; done.
    + cbn [length] in Hf. rewrite !length_app in Hf. cbn [length map concat app] in *. rewrite !length_app in *. cbn [length] in *. lia.
Qed.

(** A document that is one element. *)
Lemma createElement_root level e L rest : element_ok level e -> 0 <= L ->
  createElement (parse_fuel (str "<" :: element_tokens e ++ rest)) (str "<" :: element_tokens e ++ rest) L false =
  Val (if depth e <=? L then Some (e, rest) else None).
Proof.
  intros He HL. unfold parse_fuel. cbn [length]. rewrite length_app. pose proof (depth_pos e).
  replace (4 * S (length (element_tokens e) + length rest) + 4)%nat with (S (S (4 * length (element_tokens e) + (4 * length rest + 6)))) by lia.
  cbn [createElement]. destruct (L =? 0) eqn:E0; zbool; [by rewrite (proj2 (Z.leb_gt _ _)) by lia|]. cbn [element_loop].
  rewrite bool_decide_eq_false_2 by done. cbn [negb]. rewrite expect_word.
  pose proof (named_element_spec level e (4 * length (element_tokens e) + (4 * length rest + 6))%nat L false rest He) as Hnamed.
  destruct (element_tokens_name e) as [ts Et]. pose proof (element_name level e He) as (_ & _ & Hn).
  rewrite Et in *. cbn [app] in *. take_tokens. rewrite bool_decide_eq_false_2 by done. apply Hnamed; lia.
Qed.

(** ** The fuel is enough *)

Lemma expect_length word tokens rest : expect word tokens = Some rest -> (length rest < length tokens)%nat.
Proof. destruct tokens as [|t tokens]; cbn; [done|]. case_bool_decide; [|done]. intros [= ->]. lia. Qed.

Lemma skip_comment_length tokens : forall rest, skip_comment tokens = Some rest -> (length rest < length tokens)%nat.
Proof.
  induction tokens as [|t tokens IH]; intros rest; cbn [skip_comment length]; [done|]. case_bool_decide; [intros [= ->]; lia|].
  intros E%IH. lia.
Qed.

Lemma removeComment_length tokens rest : removeComment tokens = Val (Some rest) -> (length rest < length tokens)%nat.
Proof.
  destruct tokens as [|t tokens]; [done|]. unfold removeComment. cbn [pop]. rewrite bind_Val. intros [= E].
  apply bind_Some in E as (mid & E1%skip_comment_length & E2%expect_length). cbn [length]. lia.
Qed.

Lemma attributes_loop_length n : forall tokens element e rest, (length tokens <= n)%nat -> attributes_loop tokens element = Val (Some (e, rest)) ->
  (0 < length rest <= length tokens)%nat.
Proof.
  induction n as [|n IH]; intros [|t tokens] element e rest Hn; cbn [attributes_loop length] in *; try done; try lia.
  destruct (_ || _); [intros [= _ <-]; cbn; lia|]. destruct tokens as [|eq [|v tokens]]; try done. case_bool_decide; [|done].
  cbn [length] in *. intros E%IH; lia.
Qed.

Lemma text_loop_length tokens : forall first builder, (length (snd (text_loop tokens first builder)) <= length tokens)%nat.
Proof.
  induction tokens as [|t tokens IH]; intros first builder; cbn [text_loop length snd]; [lia|]. case_bool_decide; cbn [snd length]; [lia|].
  etransitivity; [apply IH|lia].
Qed.

(** No call gives back more tokens than it was given. *)
Definition shrinks (n : nat) (result : option (Element * Tokens)) : Prop := match result with Some (_, rest) => (length rest <= n)%nat | None => True end.
Definition shrinks_children (n : nat) (c : children) : Prop := match c with Returns result => shrinks n result | Leaves _ rest => (length rest <= n)%nat end.

Lemma shrinks_weaken n m result : shrinks n result -> (n <= m)%nat -> shrinks m result.
Proof. destruct result as [[e rest]|]; cbn; lia. Qed.
Lemma results_weaken {A} (P Q : A -> Prop) (m : outcome A) : results P m -> (forall a, P a -> Q a) -> results Q m.
Proof. destruct m; cbn; auto. Qed.

Lemma end_tag_shrinks element tokens n : (length tokens <= n)%nat -> shrinks n (end_tag element tokens).
Proof.
  intros Hn. unfold end_tag. destruct (expect (getName element) tokens) as [t1|] eqn:E1; [|done]. cbn [mbind option_bind].
  destruct (expect (str ">") t1) as [t2|] eqn:E2; [|done]. apply expect_length in E1, E2. cbn. lia.
Qed.

Lemma calls_shrink fuel : forall tokens L sub element,
  results (shrinks (length tokens)) (createElement fuel tokens L sub) /\
  results (shrinks (length tokens)) (element_loop fuel tokens L sub (Some element)) /\
  results (shrinks (length tokens)) (element_loop fuel tokens L sub None) /\
  results (shrinks (length tokens)) (named_element fuel tokens L sub) /\
  results (shrinks_children (length tokens)) (children_loop fuel tokens L element).
Proof.
  induction fuel as [|fuel IH]; intros tokens L sub element; [done|].
  assert (forall oe, results (shrinks (length tokens)) (element_loop (S fuel) tokens L sub oe)) as Hloop.
  { intros oe. cbn [element_loop]. case_bool_decide as Ht; [subst; destruct oe; cbn; lia|]. destruct sub; cbn [negb].
    - destruct tokens as [|t tokens]; [done|]. cbn [front]. rewrite bind_Val. case_bool_decide.
      + destruct (removeComment (t :: tokens)) as [[[|t2 t2s]|]|] eqn:E; try done. apply removeComment_length in E. rewrite bind_Val. cbn [pop]. rewrite bind_Val.
        destruct (IH t2s L true element) as (_ & _ & _ & Hn & _). eapply results_weaken; [exact Hn|]. intros r Hr. eapply shrinks_weaken; [exact Hr|]. cbn [length] in *. lia.
      + apply (IH (t :: tokens) L true element).
    - destruct (expect (str "<") tokens) as [[|t t1]|] eqn:E; try done. apply expect_length in E. cbn [front]. rewrite bind_Val. case_bool_decide.
      + destruct (removeComment (t :: t1)) as [[t2|]|] eqn:E2; try done. apply removeComment_length in E2. rewrite bind_Val.
        eapply (results_weaken (shrinks (length t2))); [destruct oe as [e|]; [apply (IH t2 L false e)|apply (IH t2 L false element)]|].
        intros r Hr. eapply shrinks_weaken; [exact Hr|]. lia.
      + destruct (IH (t :: t1) L false element) as (_ & _ & _ & Hn & _). eapply results_weaken; [exact Hn|]. intros r Hr. eapply shrinks_weaken; [exact Hr|]. lia. }
  split; [|split; [apply Hloop|split; [apply Hloop|split]]].
  - cbn [createElement]. destruct (L =? 0); [done|]. apply (IH tokens L sub element).
  - cbn [named_element]. destruct tokens as [|name tokens]; [done|]. cbn [front pop]. rewrite !bind_Val. case_bool_decide; [done|].
    destruct (attributes_loop tokens _) as [[[e t1]|]|] eqn:E1; try done. apply (attributes_loop_length _ _ _ _ _ (le_n _)) in E1. rewrite bind_Val.
    destruct t1 as [|t t1]; [cbn in E1; lia|]. cbn [front pop length] in *. rewrite !bind_Val. case_bool_decide.
    { destruct (expect (str ">") t1) as [t2|] eqn:E2; [|done]. apply expect_length in E2. cbn. lia. }
    case_bool_decide; [done|]. destruct t1 as [|t2 t2s]; [done|]. cbn [front]. rewrite bind_Val. case_bool_decide.
    + eapply results_bind; [apply (IH (t2 :: t2s) L sub e)|]. intros [r|e' r] Hr; cbn [shrinks_children results] in *.
      * eapply shrinks_weaken; [exact Hr|]. cbn [length] in *. lia.
      * eapply results_weaken; [apply (IH r L sub e')|]. intros r' Hr'. eapply shrinks_weaken; [exact Hr'|]. cbn [length] in *. lia.
    + pose proof (text_loop_length (t2 :: t2s) true []) as Hx. destruct (text_loop (t2 :: t2s) true []) as [value r]. cbn [snd] in Hx. cbn [results].
      destruct (expect (str "<") r) as [r1|] eqn:E3; [|done]. apply expect_length in E3. cbn [mbind option_bind].
      destruct (expect (str "/") r1) as [r2|] eqn:E4; [|done]. apply expect_length in E4. cbn [mbind option_bind]. apply end_tag_shrinks. cbn [length] in *. lia.
  - cbn [children_loop]. destruct tokens as [|t tokens]; [done|]. cbn [front]. rewrite bind_Val. case_bool_decide; cbn [negb]; [|cbn; lia].
    cbn [pop]. rewrite bind_Val. destruct tokens as [|t2 tokens]; [done|]. cbn [front]. rewrite bind_Val. case_bool_decide.
    + cbn. apply end_tag_shrinks. lia.
    + eapply results_bind; [apply (IH (t2 :: tokens) (L - 1) true element)|]. intros [[e r]|] Hr; cbn in Hr; [|done].
      eapply results_weaken; [apply (IH r L sub (addElement e element))|]. intros [r'|e' r'] Hr'; cbn in *; [eapply shrinks_weaken; [exact Hr'|]; lia|lia].
Qed.

(** One more unit of fuel changes nothing. *)
Lemma fuel_stable fuel : forall tokens L sub,
  ((4 * length tokens + 4 <= fuel)%nat -> createElement (S fuel) tokens L sub = createElement fuel tokens L sub) /\
  ((4 * length tokens + 3 <= fuel)%nat -> forall oe, element_loop (S fuel) tokens L sub oe = element_loop fuel tokens L sub oe) /\
  ((4 * length tokens + 2 <= fuel)%nat -> named_element (S fuel) tokens L sub = named_element fuel tokens L sub) /\
  ((4 * length tokens + 1 <= fuel)%nat -> forall element, children_loop (S fuel) tokens L element = children_loop fuel tokens L element).
Proof.
  induction fuel as [|fuel IH]; intros tokens L sub; [lia|].
  split; [|split; [|split]]; intros Hf.
  - remember (S fuel) as f1. cbn [createElement]. subst f1. cbn [createElement]. destruct (L =? 0); [done|]. apply (IH tokens L sub). lia.
  - intros oe. remember (S fuel) as f1. cbn [element_loop]. subst f1. cbn [element_loop]. case_bool_decide as Ht; [done|]. destruct sub; cbn [negb].
    + destruct (front tokens) as [t|]; [|done]. rewrite !bind_Val. case_bool_decide; [|apply (IH tokens L true); lia].
      destruct (removeComment tokens) as [[t1|]|] eqn:E; try done. apply removeComment_length in E. rewrite !bind_Val.
      destruct t1 as [|t2 t2s]; [done|]. cbn [pop length] in *. rewrite !bind_Val. apply (IH t2s L true). lia.
    + destruct (expect (str "<") tokens) as [[|t t1]|] eqn:E; try done. apply expect_length in E. cbn [front]. rewrite !bind_Val. case_bool_decide.
      * destruct (removeComment (t :: t1)) as [[t2|]|] eqn:E2; try done. apply removeComment_length in E2. rewrite !bind_Val. apply (IH t2 L false). lia.
      * apply (IH (t :: t1) L false). lia.
  - remember (S fuel) as f1. cbn [named_element]. subst f1. cbn [named_element]. destruct tokens as [|name tokens]; [done|]. cbn [front pop length] in *. rewrite !bind_Val.
    case_bool_decide; [done|]. destruct (attributes_loop tokens _) as [[[e t1]|]|] eqn:E1; try done.
    apply (attributes_loop_length _ _ _ _ _ (le_n _)) in E1. rewrite !bind_Val.
    destruct t1 as [|t t1]; [cbn in E1; lia|]. cbn [front pop length] in *. rewrite !bind_Val. case_bool_decide; [done|].
    case_bool_decide; [done|]. destruct t1 as [|t2 t2s]; [done|]. cbn [front]. rewrite !bind_Val. case_bool_decide; [|done].
    destruct (IH (t2 :: t2s) L sub) as (_ & _ & _ & Hc). rewrite Hc by (cbn [length] in *; lia).
    pose proof (calls_shrink fuel (t2 :: t2s) L sub e) as (_ & _ & _ & _ & Hs).
    destruct (children_loop fuel (t2 :: t2s) L e) as [[r|e' r]|]; try done. rewrite !bind_Val. cbn in Hs. apply (IH r L sub). cbn [length] in *. lia.
  - intros element. remember (S fuel) as f1. cbn [children_loop]. subst f1. cbn [children_loop]. destruct tokens as [|t tokens]; [done|]. cbn [front]. rewrite !bind_Val.
    case_bool_decide; cbn [negb]; [|done]. cbn [pop]. rewrite !bind_Val. destruct tokens as [|t2 tokens]; [done|]. cbn [front length] in *. rewrite !bind_Val.
    case_bool_decide; [done|]. destruct (IH (t2 :: tokens) (L - 1) true) as (Hc & _). rewrite Hc by (cbn [length]; lia).
    pose proof (calls_shrink fuel (t2 :: tokens) (L - 1) true element) as (Hs & _).
    destruct (createElement fuel (t2 :: tokens) (L - 1) true) as [[[e r]|]|]; try done. rewrite !bind_Val. cbn in Hs. apply (IH r L sub). cbn [length] in *. lia.
Qed.

Lemma fuel_any extra tokens L sub : createElement (extra + parse_fuel tokens) tokens L sub = createElement (parse_fuel tokens) tokens L sub.
Proof.
  induction extra as [|extra IH]; [done|]. cbn [Nat.add]. destruct (fuel_stable (extra + parse_fuel tokens) tokens L sub) as (H & _).
  rewrite H; [exact IH|]. unfold parse_fuel. lia.
Qed.

(** ** Reading from a stream *)

Section Streams.
Context {I : Type} `{MemInput I}.

Lemma deserialize_spec fuel (source : I) L : in_valid source -> (length (in_content source) < fuel)%nat ->
  deserialize fuel source L =
  (r ← createElement (parse_fuel (toks false [] (in_content source))) (toks false [] (in_content source)) L false; Val (r ≫= fun '(element, _) => Some element)).
Proof. intros Hv Hf. unfold deserialize, tokenizer. by rewrite tokenizer_loop_spec. Qed.

(** Two comments in a row, or one before an end tag, are not taken as comments: the parser fails. *)
Lemma xml_last_comment fuel (source : I) : in_valid source -> (length (in_content source) < fuel)%nat ->
  in_content source = str "<a><b/><!-- c --></a>" -> deserialize fuel source 8 = Val None.
Proof. intros Hv Hf E. rewrite deserialize_spec by done. rewrite E. vm_compute. reflexivity. Qed.

(** A slash in a text is a word of its own. *)
Lemma xml_slash fuel (source : I) : in_valid source -> (length (in_content source) < fuel)%nat ->
  in_content source = str "<a>b/c</a>" -> deserialize fuel source 8 = Val (Some (MkElement (str "a") (str "b / c") [] [])).
Proof. intros Hv Hf E. rewrite deserialize_spec by done. rewrite E. vm_compute. reflexivity. Qed.

(** A document that stops after an attribute, or after a child: the parser looks at the front of an
    empty queue, whatever the fuel. *)
Lemma xml_truncated extra text : text = str "<a b=" ++ [34; 99; 34] \/ text = str "<a><b/>" ->
  createElement (extra + parse_fuel (toks false [] text)) (toks false [] text) 8 false = Undef.
Proof. intros [-> | ->]; rewrite fuel_any; vm_compute; reflexivity. Qed.
End Streams.

(** C14: An XML element that is written to a memory stream with room for it and read back with a
    depth limit is the same element, with its attributes, its text and its children, exactly when
    it is not deeper than the limit; otherwise the result is the null pointer. Names and attribute names are free of
    blanks and syntax, attribute values of quotation marks, and a text is words with single blanks
    between them, in an element without children. *)
Theorem xml_roundtrip {O I} `{MemOutput O} `{MemInput I} level e (stream : O) :
  element_ok level e -> out_valid stream -> out_content stream = [] -> out_room stream (zlen (element_text e)) ->
  exists stream', serialize e stream = Val stream' /\
    forall (source : I) fuel L, in_valid source -> in_content source = out_content stream' -> (length (in_content source) < fuel)%nat -> 0 <= L ->
    deserialize fuel source L = Val (if depth e <=? L then Some e else None).
Proof.
  intros He Hv Hc Hr. destruct (serialize_spec e stream 0 Hv) as (s & E & _ & C & _); [by rewrite Z.add_0_r|lia|].
  exists s. split; [exact E|]. intros source fuel L Hi Hs Hf HL. rewrite deserialize_spec by done. rewrite Hs, C, Hc. cbn [app].
  rewrite <- (app_nil_r (element_text e)), (toks_element level) by done. cbn [toks]. rewrite (createElement_root level), bind_Val by done.
  by destruct (depth e <=? L).
Qed.

(** Two levels, through a buffer of 64 bytes; with the limit 1 the element is refused. *)
Abbreviation sample := (MkElement (str "a") [] [(str "k", str "v>")] [MkElement (str "b") (str "x y") [] []; MkElement (str "c") [] [] []]).
Abbreviation sample_text := (str "<a k=" ++ [34] ++ str "v>" ++ [34] ++ str "><b>x y</b><c/></a>").

Lemma xml_roundtrip_witness :
  (exists stream', serialize sample (OutputBufferWrapper.create (repeat 0 64) 64) = Val stream' /\ out_content stream' = sample_text) /\
  deserialize 64 (InputBufferWrapper.create sample_text (zlen sample_text)) 2 = Val (Some sample) /\
  deserialize 64 (InputBufferWrapper.create sample_text (zlen sample_text)) 1 = Val None.
Proof.
  destruct (xml_roundtrip (I := InputBufferWrapper.t) 2 sample (OutputBufferWrapper.create (repeat 0 64) 64)) as (o & E & P).
  - assert (forall w, forallb plain_char w = true -> plain w) as Hp by (intros w Hw; by apply List.Forall_forall, List.forallb_forall).
    assert (forall w, forallb plain_char w = true -> w <> [] -> w <> str "!--" -> name_ok w) as Hname by (intros w ? ? ?; split; [by apply Hp|done]).
    assert (value_ok []) as H0 by (by exists []).
    split; [by apply Hname|]. split; [apply Forall_cons_2; [split; [by apply Hp|cbn; intros [?|[?|?]]; done]|constructor]|]. split; [done|]. split; [done|].
    split; [by right|]. constructor; [|constructor; [|constructor]].
    + split; [by apply Hname|]. split; [constructor|]. split; [done|]. split; [|split; [by left|constructor]].
      exists [str "x"; str "y"]. split; [done|]. constructor; [|constructor; [|constructor]]; split; done || by apply Hp.
    + split; [by apply Hname|]. split; [constructor|]. split; [done|]. split; [done|]. split; [by left|constructor].
  - vm_compute; done.
  - reflexivity.
  - vm_compute; done.
  - assert (match serialize sample (OutputBufferWrapper.create (repeat 0 64) 64) with Val o => out_content o = sample_text | _ => False end) as Ht
      by (vm_compute; reflexivity).
    rewrite E in Ht. split; [exact (ex_intro _ o (conj E Ht))|].
    split; (refine (P _ 64%nat _ _ _ _ _); [clear; vm_compute; done|rewrite Ht; vm_compute; reflexivity|apply Nat.ltb_lt; vm_compute; reflexivity|lia]).
Defined.
