(* ===== verification/Ini.v ===== *)
(** * INI files

    Models [sese/io/InputStreamReader.cpp], which reads lines whatever ends them and passes over blank ones, and
    [sese/config/ini/IniUtil.cpp], which reads and writes sections of entries. *)

From S2P Require Import Prelude Streams Text OrdMap InputBufferWrapper OutputBufferWrapper.

(** ** Lines *)

Section Lines.
Context {I : Type} `{PeekableStream I}.

(*@ sese/io/InputStreamReader.cpp 26-59 InputStreamReader::readLine *)
(** The line so far is [builder]. At the end of the stream the line is returned, also an empty one; an empty line that ends
    before is passed over. *)
Fixpoint readLine_loop (fuel : nat) (input : I) (builder : bytes) : outcome (bytes * I) :=
  match fuel with
  | O => Undef
  | S fuel =>
      let line_end (input : I) := if bool_decide (builder = []) then readLine_loop fuel input [] else Val (builder, input) in
      '(n, data) ← stream_peek input 1;
      if negb (n =? 1) then Val (builder, input)
      else
        ch ← of_option (data !! 0%nat);
        '(_, input) ← stream_trunc input 1;
        if ch =? 13 then
          '(n, data) ← stream_peek input 1;
          if n =? 1 then
            ch ← of_option (data !! 0%nat);
            if ch =? 10 then '(_, input) ← stream_trunc input 1; line_end input else line_end input
          else Val (builder, input)
        else if ch =? 10 then line_end input
        else readLine_loop fuel input (builder ++ [ch])
  end.

(*@ sese/io/InputStreamReader.cpp 20-62 InputStreamReader::readLine *)
Definition readLine (fuel : nat) (input : I) : outcome (bytes * I) := readLine_loop fuel input [].
End Lines.

(** ** Sections *)

Abbreviation Section_ := (list (bytes * bytes)).

(*@ sese/config/ini/IniConfig.h 35-44 IniConfig *)
(** Both maps are [std::map], so their entries are sorted by key. *)
Record IniConfig := MkIni { defSection : Section_; sectionMap : list (bytes * Section_) }.

(** [map.emplace(k, v)]: an entry that is there stays. *)
Definition emplace {V} (k : bytes) (v : V) (m : list (bytes * V)) : list (bytes * V) :=
  match mfind lexcmp k m with Some _ => m | None => mset lexcmp k v m end.

(** The section that [current] points to: the default one, or one of the map. *)
Definition on_section (current : option bytes) (f : Section_ -> Section_) (config : IniConfig) : IniConfig :=
  match current with
  | None => MkIni (f (defSection config)) (sectionMap config)
  | Some name =>
      match mfind lexcmp name (sectionMap config) with
      | Some section => MkIni (defSection config) (mset lexcmp name (f section) (sectionMap config))
      | None => config
      end
  end.

(** [line.find_last_of(c)]. *)
Definition find_last_of (c : byte) (line : bytes) : option nat := (fun i => length line - 1 - i)%nat <$> find [c] (rev line).

(*@ sese/config/ini/IniUtil.cpp 32-50 IniUtil::parse *)
(** A line that is not empty: the name of a section, a comment, or an entry of the current section; other lines are passed over. *)
Definition parse_line (line : bytes) (st : IniConfig * option bytes) : IniConfig * option bytes :=
  let '(config, current) := st in
  match line with
  | 91 :: _ =>
      match find_last_of 93 line with
      | None => st
      | Some pos =>
          let name := take (pos - 1) (drop 1 line) in
          (MkIni (defSection config) (emplace name [] (sectionMap config)), Some name)
      end
  | 35 :: _ => st
  | _ =>
      match find (str "=") line with
      | None => st
      | Some pos => (on_section current (emplace (take pos line) (drop (pos + 1) line)) config, current)
      end
  end.

(*@ sese/config/ini/IniUtil.cpp 26-51 IniUtil::parse *)
(** Lines until an empty one, which is the end of the stream. *)
Fixpoint parse_loop {I} `{PeekableStream I} (rounds fuel : nat) (input : I) (st : IniConfig * option bytes) : outcome IniConfig :=
  match rounds with
  | O => Undef
  | S rounds =>
      '(line, input) ← readLine fuel input;
      match line with [] => Val (fst st) | _ => parse_loop rounds fuel input (parse_line line st) end
  end.

(*@ sese/config/ini/IniUtil.cpp 20-54 IniUtil::parse *)
Definition parse {I} `{PeekableStream I} (fuel : nat) (input : I) : outcome IniConfig :=
  parse_loop fuel fuel input (MkIni [] [], None).

(*@ sese/config/ini/IniUtil.cpp 85-91 IniUtil::unparsePair *)
Definition pair_pieces (e : bytes * bytes) : list bytes := [fst e; str "="; snd e; [10]].

(*@ sese/config/ini/IniUtil.cpp 62-83 IniUtil::unparse *)
(** The writes; the first one that is not complete ends the function. *)
Definition unparse {O} `{OutputStream O} (target : IniConfig) (output : O) : outcome (bool * O) :=
  write_all output ((defSection target ≫= pair_pieces) ++ [[10]] ++
    (sectionMap target ≫= fun map => [str "["; fst map; str "]" ++ [10]] ++ (snd map ≫= pair_pieces) ++ [[10]])).

(** ** The round trip *)

(** Text without line ends; an entry is told from a section and a comment by its first character, and from its value by the first
    equals sign. *)
Definition line_ok (l : bytes) : Prop := Forall (fun c => c <> 13 /\ c <> 10) l.
Definition entry_ok (e : bytes * bytes) : Prop :=
  line_ok (fst e) /\ line_ok (snd e) /\ ~ In 61 (fst e) /\ head (fst e) <> Some 91 /\ head (fst e) <> Some 35.
Definition section_ok (s : Section_) : Prop := Forall entry_ok s /\ msorted lexcmp s.
Definition config_ok (config : IniConfig) : Prop :=
  section_ok (defSection config) /\ Forall (fun s => line_ok (fst s) /\ section_ok (snd s)) (sectionMap config) /\ msorted lexcmp (sectionMap config).

Definition entry_line (e : bytes * bytes) : bytes := fst e ++ str "=" ++ snd e.
Definition section_lines (s : bytes * Section_) : list bytes := (str "[" ++ fst s ++ str "]") :: map entry_line (snd s) ++ [[]].
Definition config_lines (config : IniConfig) : list bytes :=
  map entry_line (defSection config) ++ [] :: (sectionMap config ≫= section_lines).
Definition lines_text (lines : list bytes) : bytes := concat (map (fun l => l ++ [10]) lines).

Lemma lines_text_app l1 l2 : lines_text (l1 ++ l2) = lines_text l1 ++ lines_text l2.
Proof. unfold lines_text. by rewrite map_app, concat_app. Qed.

Lemma pieces_text l : concat (l ≫= pair_pieces) = lines_text (map entry_line l).
Proof.
  induction l as [|e l IH]; [done|]. rewrite bind_cons, concat_app, IH. unfold lines_text. cbn [map concat pair_pieces].
  unfold entry_line. by rewrite app_nil_r, <- !app_assoc.
Qed.

Lemma section_text s : concat ([str "["; fst s; str "]" ++ [10]] ++ (snd s ≫= pair_pieces) ++ [[10]]) = lines_text (section_lines s).
Proof.
  rewrite !concat_app, pieces_text. unfold section_lines.
  change (lines_text (?l :: ?ls)) with ((l ++ [10]) ++ lines_text ls). rewrite lines_text_app. cbn. by rewrite <- !app_assoc.
Qed.

Lemma sections_text l : concat (l ≫= fun s => [str "["; fst s; str "]" ++ [10]] ++ (snd s ≫= pair_pieces) ++ [[10]]) = lines_text (l ≫= section_lines).
Proof. induction l as [|s l IH]; [done|]. by rewrite !bind_cons, lines_text_app, concat_app, section_text, IH. Qed.

Lemma unparse_spec {O} `{MemOutput O} config (output : O) : out_valid output -> out_room output (zlen (lines_text (config_lines config))) ->
  exists output', unparse config output = Val (true, output') /\ out_valid output' /\
    out_content output' = out_content output ++ lines_text (config_lines config).
Proof.
  intros Hv Hr. unfold unparse. set (pieces := _ ++ _).
  assert (concat pieces = lines_text (config_lines config)) as Hp.
  { subst pieces. unfold config_lines. by rewrite lines_text_app, !concat_app, pieces_text, sections_text. }
  destruct (write_all_spec pieces output 0 Hv) as (o & E & V & C & _); [by rewrite Hp, Z.add_0_r|done|]. exists o. by rewrite <- Hp.
Qed.

Section Read.
Context {I : Type} `{MemPeek I}.

(** A line up to its end. *)
Lemma readLine_rest line : line_ok line -> forall fuel (input : I) builder rest, in_valid input -> in_content input = line ++ [10] ++ rest ->
  exists input', readLine_loop (length line + S fuel) input builder =
      (if bool_decide (builder ++ line = []) then readLine_loop fuel input' [] else Val (builder ++ line, input')) /\
    in_valid input' /\ in_content input' = rest.
Proof.
  assert (forall (input : I) c l, in_valid input -> in_content input = c :: l -> stream_peek input 1 = Val (1, [c]) /\
    exists input', stream_trunc input 1 = Val (1, input') /\ in_valid input' /\ in_content input' = l) as Hnext.
  { intros input c l Hv Hc. assert (Z.min 1 (zlen (in_content input)) = 1) as Hm by (rewrite Hc, zlen_cons; pose proof (zlen_nonneg l); lia).
    rewrite peek_law, Hm, Hc by done. split; [done|]. destruct (trunc_law input 1 Hv) as (i & E & V & C); [done|]. rewrite Hm in E. rewrite Hc in C. by exists i. }
  induction 1 as [|c line [H13 H10] _ IH]; intros fuel input builder rest Hv Hc; cbn [length Nat.add app] in *;
    destruct (Hnext input _ _ Hv Hc) as (Ep & i1 & Et & V1 & C1); cbn [readLine_loop]; rewrite Ep, bind_Val; cbn [Z.eqb negb Pos.eqb lookup list_lookup of_option];
    rewrite bind_Val, Et, bind_Val.
  - exists i1. by rewrite app_nil_r.
  - rewrite !(proj2 (Z.eqb_neq _ _)) by done. destruct (IH fuel i1 (builder ++ [c]) rest V1 C1) as (i2 & E2 & V2 & C2). exists i2.
    by rewrite E2, <- app_assoc.
Qed.

Lemma readLine_end fuel (input : I) : in_valid input -> in_content input = [] -> (0 < fuel)%nat -> readLine fuel input = Val ([], input).
Proof. intros Hv Hc Hf. destruct fuel; [lia|]. unfold readLine. cbn [readLine_loop]. rewrite peek_law, Hc by done. done. Qed.

(** The first line that is not empty, and what follows it. *)
Fixpoint first_line (lines : list bytes) : option (bytes * list bytes) :=
  match lines with [] => None | [] :: lines => first_line lines | l :: lines => Some (l, lines) end.

Lemma readLine_spec lines : Forall line_ok lines -> forall fuel (input : I), in_valid input -> in_content input = lines_text lines ->
  (length (in_content input) < fuel)%nat ->
  exists input', match first_line lines with
    | None => readLine fuel input = Val ([], input')
    | Some (l, rest) => readLine fuel input = Val (l, input') /\ in_valid input' /\ in_content input' = lines_text rest
    end.
Proof.
  induction 1 as [|line lines Hl _ IH]; intros fuel input Hv Hc Hf.
  - exists input. apply readLine_end; [done|done|lia].
  - unfold lines_text in Hc. cbn [map concat] in Hc. rewrite <- app_assoc in Hc. pose proof Hc as Hc'. apply (f_equal length) in Hc'. rewrite !length_app in Hc'. cbn [length] in Hc'.
    destruct (readLine_rest line Hl (fuel - length line - 1) input [] _ Hv Hc) as (i & E & V & C).
    replace (length line + S (fuel - length line - 1))%nat with fuel in E by lia. unfold readLine. rewrite E. cbn [app].
    destruct line as [|c line]; [|by exists i]. destruct (IH (fuel - 0 - 1)%nat i V C) as (i2 & E2); [rewrite C; cbn in *; lia|]. exists i2. exact E2.
Qed.

Lemma first_line_shorter lines l rest : first_line lines = Some (l, rest) -> l <> [] /\ (exists before, lines = before ++ l :: rest /\ Forall (fun x => x = []) before).
Proof.
  induction lines as [|[|c x] lines IH]; [done| |].
  - intros E. destruct (IH E) as (Hl & b & -> & Hb). split; [done|]. exists ([] :: b). split; [done|by constructor].
  - intros [= <- <-]. split; [done|]. by exists [].
Qed.

Abbreviation parsed := (foldl (fun st l => parse_line l st)).

Lemma parsed_blank before st : Forall (fun x => x = []) before -> parsed st before = st.
Proof. induction 1 as [|x l -> _ IH]; [done|]. cbn. by destruct st. Qed.

Lemma parse_loop_spec rounds : forall fuel lines (input : I) st, Forall line_ok lines -> in_valid input -> in_content input = lines_text lines ->
  (length (in_content input) < fuel)%nat -> (length lines < rounds)%nat -> parse_loop rounds fuel input st = Val (fst (parsed st lines)).
Proof.
  induction rounds as [|rounds IH]; intros fuel lines input st Hl Hv Hc Hf Hr; [lia|]. cbn [parse_loop].
  destruct (readLine_spec lines Hl fuel input Hv Hc Hf) as (i & E). destruct (first_line lines) as [[l rest]|] eqn:Ef.
  - destruct E as (E & V & C). rewrite E, bind_Val. apply first_line_shorter in Ef as (Hne & before & -> & Hb). destruct l as [|c l]; [done|].
    apply Forall_app in Hl as [_ Hl]. inversion_clear Hl as [|? ? _ Hrest]. rewrite length_app in Hr. cbn [length] in Hr.
    rewrite foldl_app, (parsed_blank before) by done. cbn [foldl]. rewrite (IH fuel rest); [done|done|done|done| |lia].
    rewrite C. rewrite Hc, lines_text_app in Hf. unfold lines_text at 2 in Hf. cbn [map concat] in Hf. rewrite !length_app in Hf. unfold lines_text. cbn [length] in Hf. lia.
  - rewrite E, bind_Val. rewrite parsed_blank; [done|]. clear -Ef. induction lines as [|[|c x] lines IH]; [done| |done]. constructor; [done|by apply IH].
Qed.
End Read.

(** ** Sections from lines *)

Lemma mfind_above {V} k (m : list (bytes * V)) : Forall (fun e => lexcmp (fst e) k < 0) m -> mfind lexcmp k m = None.
Proof.
  induction 1 as [|[k' v] m Hk _ IH]; [done|]. cbn in *. apply (cmp_gt lexcmp) in Hk. by rewrite (proj2 (Z.eqb_neq _ _)) by lia.
Qed.

Lemma emplace_last {V} k (v : V) m : Forall (fun e => lexcmp (fst e) k < 0) m -> emplace k v m = m ++ [(k, v)].
Proof. intros Hm. unfold emplace. rewrite mfind_above by done. by apply (mset_last lexcmp). Qed.

Lemma mfind_last_entry {V} k (v : V) m : Forall (fun e => lexcmp (fst e) k < 0) m -> mfind lexcmp k (m ++ [(k, v)]) = Some v.
Proof.
  induction 1 as [|[k' w] m Hk _ IH]; cbn.
  - by rewrite (proj2 (Z.eqb_eq _ _)) by by apply (cmp_eq lexcmp).
  - apply (cmp_gt lexcmp) in Hk. by rewrite (proj2 (Z.eqb_neq _ _)) by (cbn in *; lia).
Qed.

Lemma mset_last_entry {V} k (v w : V) m : Forall (fun e => lexcmp (fst e) k < 0) m -> mset lexcmp k w (m ++ [(k, v)]) = m ++ [(k, w)].
Proof.
  assert (lexcmp k k = 0) as Hk0 by by apply (cmp_eq lexcmp).
  induction 1 as [|[k' u] m Hk _ IH]; cbn; [by rewrite Hk0|].
  apply (cmp_gt lexcmp) in Hk. cbn in Hk. by rewrite (proj2 (Z.ltb_ge _ 0)), (proj2 (Z.eqb_neq _ 0)), IH by lia.
Qed.

Lemma parse_blank st : parse_line [] st = st.
Proof. by destruct st. Qed.

Lemma parse_entry e st : entry_ok e -> parse_line (entry_line e) st = (on_section (snd st) (emplace (fst e) (snd e)) (fst st), snd st).
Proof.
  destruct e as [k v], st as [config current]. intros (_ & _ & Heq & H91 & H35). cbn [fst snd] in *. unfold entry_line. cbn [fst snd].
  assert (find (str "=") (k ++ str "=" ++ v) = Some (length k)) as Ef by by apply (find_next 61 []).
  assert (take (length k) (k ++ str "=" ++ v) = k) as Et by (rewrite take_app_length'; done).
  assert (drop (length k + 1) (k ++ str "=" ++ v) = v) as Ed by (by rewrite drop_app_add).
  unfold parse_line. destruct (k ++ str "=" ++ v) as [|c l] eqn:E; [by destruct k|].
  assert (c <> 91 /\ c <> 35) as [N91 N35] by (destruct k; cbn in *; injection E as <- _; [done|split; congruence]).
  rewrite Ef, Et, Ed.
  destruct c as [|p|p]; try done. do 7 (try destruct p as [p|p|]; try done).
Qed.

Abbreviation parsed := (foldl (fun st l => parse_line l st)).

(** The entries of a section, after those that it has. *)
Lemma parsed_entries l : forall current config m, Forall entry_ok l -> msorted lexcmp (m ++ l) ->
  (forall x f, on_section current f (on_section current (fun _ => x) config) = on_section current (fun _ => f x) config) ->
  parsed (on_section current (fun _ => m) config, current) (map entry_line l) = (on_section current (fun _ => m ++ l) config, current).
Proof.
  induction l as [|[k v] l IH]; intros current config m Hl Hs Hon; cbn [map foldl]; [by rewrite app_nil_r|].
  inversion_clear Hl as [|? ? He Hl']. rewrite parse_entry by done. cbn [fst snd]. rewrite Hon, emplace_last by (by eapply msorted_before).
  rewrite IH; [by rewrite <- app_assoc|done|by rewrite <- app_assoc|done].
Qed.

Lemma parse_name name st : parse_line (str "[" ++ name ++ str "]") st =
  (MkIni (defSection (fst st)) (emplace name [] (sectionMap (fst st))), Some name).
Proof.
  destruct st as [config current]. unfold parse_line. cbn [app]. change (str "[") with [91]. change (str "]") with [93]. cbn [app].
  unfold find_last_of. cbn [rev]. rewrite rev_app_distr. cbn [rev app find prefixb]. rewrite Z.eqb_refl. cbn [andb fmap option_fmap option_map].
  cbn [length]. rewrite length_app. cbn [length drop fst]. replace (S (length name + 1) - 1 - 0 - 1)%nat with (length name) by lia.
  by rewrite drop_0, take_app_length.
Qed.

Lemma parsed_sections l : forall def m current, Forall (fun s => line_ok (fst s) /\ section_ok (snd s)) l -> msorted lexcmp (m ++ l) ->
  fst (parsed (MkIni def m, current) (l ≫= section_lines)) = MkIni def (m ++ l).
Proof.
  induction l as [|[name s] l IH]; intros def m current Hl Hs; [cbn; by rewrite app_nil_r|].
  inversion_clear Hl as [|? ? [_ [He Hss]] Hl']. cbn [fst snd] in *. rewrite bind_cons, foldl_app. unfold section_lines at 1. cbn [foldl fst snd].
  rewrite parse_name. cbn [fst defSection sectionMap]. pose proof (msorted_before lexcmp _ _ _ _ Hs) as Hb. rewrite emplace_last by done.
  rewrite foldl_app. cbn [foldl].
  assert (MkIni def (m ++ [(name, [])]) = on_section (Some name) (fun _ => []) (MkIni def (m ++ [(name, [])]))) as E.
  { unfold on_section. cbn [sectionMap defSection]. by rewrite mfind_last_entry, mset_last_entry. }
  rewrite E, parsed_entries; [|done|done|].
  - cbn [app]. unfold on_section. cbn [sectionMap defSection]. rewrite mfind_last_entry, mset_last_entry, parse_blank by done.
    change (fst (parsed (MkIni def (m ++ [(name, s)]), Some name) (l ≫= section_lines)) = MkIni def (m ++ (name, s) :: l)).
    rewrite IH; [by rewrite <- app_assoc|done|by rewrite <- app_assoc].
  - intros y f. unfold on_section. cbn [sectionMap defSection]. rewrite mfind_last_entry by done. cbn [sectionMap defSection].
    by rewrite mset_last_entry, mfind_last_entry, !mset_last_entry.
Qed.

Lemma parsed_config config : config_ok config -> fst (parsed (MkIni [] [], None) (config_lines config)) = config.
Proof.
  intros ([He Hs] & Hsec & Hsm). unfold config_lines. rewrite foldl_app. cbn [foldl].
  change (MkIni [] [], @None bytes) with (on_section None (fun _ => []) (MkIni [] []), @None bytes) at 1.
  rewrite (parsed_entries (defSection config) None (MkIni [] []) []); [|done|done|done]. rewrite parse_blank.
  cbn [app on_section defSection sectionMap]. rewrite parsed_sections; [by destruct config|done|done].
Qed.

(** C15: An INI configuration that is written is read back: sections and entries without line ends, whose keys have no equals sign and do
    not start like a section or a comment. The lines may be read in any steps. *)
Theorem ini_roundtrip {O I} `{MemOutput O} `{MemPeek I} (config : IniConfig) (output : O) : config_ok config ->
  out_valid output -> out_content output = [] -> out_room output (zlen (lines_text (config_lines config))) ->
  exists output', unparse config output = Val (true, output') /\
    forall (input : I) fuel, in_valid input -> in_content input = out_content output' -> (length (out_content output') < fuel)%nat ->
      parse fuel input = Val config.
Proof.
  intros Hc Hv He Hr. destruct (unparse_spec config output Hv Hr) as (o & E & _ & C). exists o. split; [done|]. rewrite He in C. cbn [app] in C.
  intros input fuel Hi Hci Hf. rewrite C in Hci, Hf. unfold parse.
  assert (length (config_lines config) <= length (lines_text (config_lines config)))%nat as Hle.
  { clear. unfold lines_text. induction (config_lines config) as [|l ls IH]; [done|]. cbn [map concat length]. rewrite !length_app. cbn [length]. lia. }
  rewrite (parse_loop_spec fuel fuel (config_lines config)); [by rewrite parsed_config| |done|done|by rewrite Hci|lia].
  destruct Hc as ([Hd _] & Hs & _).
  assert (forall l, Forall entry_ok l -> Forall line_ok (map entry_line l)) as Hel.
  { intros l Hl. apply Forall_map. eapply Forall_impl; [exact Hl|]. intros [k v] (Hek & Hev & _). unfold line_ok, entry_line in *. cbn [fst snd] in *.
    repeat (apply Forall_app; split); [done| |done]. by repeat constructor. }
  unfold config_lines. apply Forall_app. split; [by apply Hel|]. constructor; [constructor|].
  induction Hs as [|[name s] l [Hn [Hes _]] _ IH]; [constructor|]. rewrite bind_cons. apply Forall_app. split; [|done]. unfold section_lines. cbn [fst snd] in *.
  constructor; [unfold line_ok in *; repeat (apply Forall_app; split); [by repeat constructor|done|by repeat constructor]|].
  apply Forall_app. split; [by apply Hel|]. repeat constructor.
Qed.

(** A value with an equals sign, a section without entries, and a name with a bracket. *)
Definition sample : IniConfig := MkIni [(str "a", str "1")] [(str "s]", [(str "k", str "v=w"); (str "l", [])]); (str "t", [])].
Definition sample_text : bytes := lines_text [str "a=1"; []; str "[s]]"; str "k=v=w"; str "l="; []; str "[t]"; []].

(** The conditions, to be computed. *)
Definition line_okb (l : bytes) : bool := forallb (fun c => negb (c =? 13) && negb (c =? 10)) l.
Definition entry_okb (e : bytes * bytes) : bool :=
  line_okb (fst e) && line_okb (snd e) && negb (existsb (Z.eqb 61) (fst e)) &&
  negb (bool_decide (head (fst e) = Some 91)) && negb (bool_decide (head (fst e) = Some 35)).

Lemma line_okb_ok l : line_okb l = true -> line_ok l.
Proof.
  intros Hl. apply List.Forall_forall. intros c Hc. unfold line_okb in Hl. rewrite forallb_forall in Hl. specialize (Hl c Hc).
  apply andb_true_iff in Hl as [H13 H10]. rewrite negb_true_iff, Z.eqb_neq in *. done.
Qed.

Lemma entries_okb l : forallb entry_okb l = true -> Forall entry_ok l.
Proof.
  intros Hl. apply List.Forall_forall. intros [k v] Hin. rewrite forallb_forall in Hl. specialize (Hl _ Hin). unfold entry_okb in Hl. cbn [fst snd] in Hl.
  rewrite !andb_true_iff, !negb_true_iff, !bool_decide_eq_false in Hl. destruct Hl as [[[[Hk Hv] Heq] H91] H35].
  split; [by apply line_okb_ok|]. split; [by apply line_okb_ok|]. split; [|done]. cbn [fst]. intros Hi.
  assert (existsb (Z.eqb 61) k = true) as E by (apply existsb_exists; by exists 61). congruence.
Qed.

Lemma sample_ok : config_ok sample.
Proof.
  split; [split; [by apply entries_okb|by repeat constructor]|]. split; [|by repeat constructor].
  constructor; [|constructor; [|constructor]]; (split; [by apply line_okb_ok|]); (split; [by apply entries_okb|by repeat constructor]).
Qed.

Lemma ini_roundtrip_witness :
  (exists output', unparse sample (OutputBufferWrapper.create (repeat 0 64) 64) = Val (true, output') /\ out_content output' = sample_text) /\
  parse 64 (InputBufferWrapper.create sample_text (zlen sample_text)) = Val sample.
Proof.
  destruct (ini_roundtrip (I := InputBufferWrapper.t) sample (OutputBufferWrapper.create (repeat 0 64) 64) sample_ok) as (o & E & P).
  - vm_compute; done.
  - reflexivity.
  - vm_compute; done.
  - assert (match unparse sample (OutputBufferWrapper.create (repeat 0 64) 64) with Val (_, o) => out_content o = sample_text | _ => False end) as Ht
      by (vm_compute; reflexivity).
    rewrite E in Ht. split; [exact (ex_intro _ o (conj E Ht))|].
    refine (P _ 64%nat _ _ _); [clear; vm_compute; done|rewrite Ht; vm_compute; reflexivity|rewrite Ht; apply Nat.ltb_lt; vm_compute; reflexivity].
Defined.

(** Any line end is understood, and the last line needs none; the first of two entries with a key counts. *)
Abbreviation mixed := (str "a=1" ++ [13; 13; 10] ++ str "a=2" ++ [10; 10] ++ str "# c" ++ [13] ++ str "[s]" ++ [10] ++ str "k=").
Example mixed_lines : parse 64 (InputBufferWrapper.create mixed (zlen mixed)) = Val (MkIni [(str "a", str "1")] [(str "s", [(str "k", [])])]).
Proof. vm_compute. reflexivity. Qed.

(** A key that starts with a number sign is written as a comment. *)
Example key_lost : match unparse (MkIni [(str "#a", str "1")] []) (OutputBufferWrapper.create (repeat 0 64) 64) with
  | Val (_, o) => parse 64 (InputBufferWrapper.create (out_content o) (zlen (out_content o))) = Val (MkIni [] [])
  | Undef => False
  end.
Proof. vm_compute. reflexivity. Qed.
