(* ===== verification/Yaml.v ===== *)
(** * YAML

    Models [sese/config/Yaml.cpp]: lines cut into tokens, the parser with its stack of
    containers and their columns, and the writer with its stacks of values and iterators. A
    pointer into the value that is being built is the path to it. Two loops of the parser look
    at a line and may leave the queue as it is: running out of fuel is [Undef]. *)

From S2P Require Import Prelude Streams Text OrdMap Double Value Json.

(** ** Lines and tokens *)

Abbreviation Tokens := (list bytes).
(** The queue of the lines that are left: their columns and tokens. *)
Abbreviation TokensQueue := (list (Z * list bytes)).

(*@ sese/config/Yaml.cpp 198-208 Yaml::getSpaceCount *)
Fixpoint getSpaceCount (line : bytes) : Z :=
  match line with
  | ch :: line => if ch =? 32 then 1 + getSpaceCount line else 0
  | [] => 0
  end.

Section Lines.
Context {I : Type} `{InputStream I}.

(*@ sese/config/Yaml.cpp 213-227 Yaml::getLine *)
(** Line ends before the first character are skipped. *)
Fixpoint getLine_loop (fuel : nat) (input : I) (builder : bytes) : outcome (bytes * I) :=
  match fuel with
  | O => Undef
  | S fuel =>
      '(l, data, input) ← stream_read input 1;
      if l <=? 0 then Val (builder, input)
      else
        ch ← of_option (data !! 0%nat);
        if (ch =? 13) || (ch =? 10) then
          if bool_decide (builder = []) then getLine_loop fuel input builder else Val (builder, input)
        else getLine_loop fuel input (builder ++ [ch])
  end.

(*@ sese/config/Yaml.cpp 210-233 Yaml::getLine *)
Definition getLine (fuel : nat) (input : I) : outcome (Z * bytes * I) :=
  '(line, input) ← getLine_loop fuel input [];
  let count := getSpaceCount line in
  Val (count, zdrop count line, input).
End Lines.

(** The flags of the tokenizer: none; [is_str] alone; [quot1]; [quot2], with [tran]. *)
Inductive Mode := Outside | Plain | Single | Quoted (tran : bool).

(*@ sese/config/Yaml.cpp 242-307 Yaml::tokenizer *)
Fixpoint tokenizer_loop (mode : Mode) (builder : bytes) (vector : Tokens) (line : bytes) : bytes * Tokens :=
  match line with
  | [] => (builder, vector)
  | ch :: line =>
      match mode with
      | Single => if ch =? 39 then tokenizer_loop Outside [] (vector ++ [builder]) line else tokenizer_loop Single (builder ++ [ch]) vector line
      | Quoted true => tokenizer_loop (Quoted false) (builder ++ [92; ch]) vector line
      | Quoted false =>
          if ch =? 34 then tokenizer_loop Outside [] (vector ++ [builder]) line
          else if ch =? 92 then tokenizer_loop (Quoted true) builder vector line
          else tokenizer_loop (Quoted false) (builder ++ [ch]) vector line
      | Plain => if ch =? 58 then tokenizer_loop Outside [] (vector ++ [builder; [58]]) line else tokenizer_loop Plain (builder ++ [ch]) vector line
      | Outside =>
          if ch =? 39 then tokenizer_loop Single builder vector line
          else if ch =? 34 then tokenizer_loop (Quoted false) builder vector line
          else if ch =? 58 then tokenizer_loop Outside builder (vector ++ [[58]]) line
          else if ch =? 45 then tokenizer_loop Outside builder (vector ++ [[45]]) line
          else if ch =? 32 then tokenizer_loop Outside builder vector line
          else tokenizer_loop Plain (builder ++ [ch]) vector line
      end
  end.

(*@ sese/config/Yaml.cpp 235-314 Yaml::tokenizer *)
Definition tokenizer (line : bytes) : Tokens :=
  let '(str, vector) := tokenizer_loop Outside [] [] line in
  match str with [] => vector | _ => vector ++ [str] end.

(** ** The parser *)

(*@ sese/config/Yaml.cpp 26-51 Yaml::parseBasic *)
Definition parseBasic (value : bytes) : Value.t :=
  if strcmpDoNotCase value (str "null") || bool_decide (value = str "~") || bool_decide (value = []) then Value.Null
  else if strcmpDoNotCase value (str "true") || strcmpDoNotCase value (str "yes") then Value.Bool true
  else if strcmpDoNotCase value (str "false") || strcmpDoNotCase value (str "no") then Value.Bool false
  else if existsb (Z.eqb 46) value then
    let '(d, end_) := strtod value in
    match end_ with [] => Value.Double d | _ => Value.String (cstr value) end
  else
    let '(l, end_) := strtol value in
    match end_ with [] => Value.Int l | _ => Value.String (cstr value) end.

(** A container and its column, -1 before its first line. *)
Abbreviation Frame := (pointer * Z)%type.
(** The returned flag, the queue, the stack and the root. *)
Definition ParseResult : Type := bool * TokensQueue * list Frame * Value.t.

(*@ sese/config/Yaml.cpp 66-127 Yaml::parseObject *)
(** A line with any other number of tokens than two or three stays in the queue, and the loop
    does not end. *)
Fixpoint parseObject_loop (fuel : nat) (queue : TokensQueue) (object : pointer) (count : Z) (stack : list Frame) (root : Value.t) :
    outcome ParseResult :=
  match fuel, queue with
  | _, [] => Val (true, [], stack, root)
  | O, _ => Undef
  | S fuel, (current_count, current_tokens) :: rest =>
      if count =? current_count then
        match current_tokens with
        | [key; colon; value] =>
            if negb (bool_decide (colon = str ":")) then Val (false, queue, stack, root)
            else parseObject_loop fuel rest object count stack (modify object (on_dict (Value.set key (parseBasic value))) root)
        | [key; _] =>
            let empty := modify object (on_dict (Value.set key Value.Null)) root in
            match rest with
            | [] => parseObject_loop fuel rest object count stack empty
            | (next_count, next_tokens) :: _ =>
                if next_count =? count then parseObject_loop fuel rest object count stack empty
                else if next_count <? count then Val (true, rest, stack, empty)
                else
                  match next_tokens with
                  | [] => Undef
                  | t :: _ =>
                      let new := if bool_decide (t = str "-") then Value.list_ else Value.dict in
                      Val (true, rest, (object ++ [Key key], -1) :: (object, count) :: stack, modify object (on_dict (Value.setRef key new)) root)
                  end
            end
        | _ => parseObject_loop fuel queue object count stack root
        end
      else if current_count <? count then Val (true, queue, stack, root)
      else parseObject_loop fuel rest object count stack root
  end.

(** The column of a container: that of the first line when it has none yet. *)
Definition column (count : Z) (queue : TokensQueue) : Z :=
  if count =? -1 then match queue with (c, _) :: _ => c | [] => count end else count.

(*@ sese/config/Yaml.cpp 53-129 Yaml::parseObject *)
(** [(object, count)] has been popped. *)
Definition parseObject (fuel : nat) (queue : TokensQueue) (object : pointer) (count : Z) (stack : list Frame) (root : Value.t) :
    outcome ParseResult :=
  parseObject_loop fuel queue object (column count queue) stack root.

(*@ sese/config/Yaml.cpp 145-194 Yaml::parseArray *)
(** The dash of the line is erased in the queue; a container starts two columns further. *)
Fixpoint parseArray_loop (fuel : nat) (queue : TokensQueue) (array : pointer) (count : Z) (stack : list Frame) (root : Value.t) :
    outcome ParseResult :=
  match fuel, queue with
  | _, [] => Val (true, [], stack, root)
  | O, _ => Undef
  | S fuel, (current_count, current_tokens) :: rest =>
      if current_count <? count then Val (true, queue, stack, root)
      else
        match current_tokens with
        | [] => Undef
        | _ :: current_tokens =>
            let append v := modify array (on_list (fun l => Value.append l v)) root in
            let sub := array ++ [Index (match get array root with Some (Value.List l) => length l | _ => 0%nat end)] in
            let open_ v := Val (true, (current_count + 2, current_tokens) :: rest, (sub, -1) :: (array, count) :: stack, append v) in
            if count =? current_count then
              match current_tokens with
              | [] => parseArray_loop fuel rest array count stack (append Value.Null)
              | [token] => parseArray_loop fuel rest array count stack (append (parseBasic token))
              | token :: second :: more =>
                  if (length current_tokens <=? 3)%nat && bool_decide (second = str ":") then open_ Value.dict
                  else if bool_decide (token = str "-") then open_ Value.list_
                  else Val (false, (current_count, current_tokens) :: rest, stack, root)
              end
            else parseArray_loop fuel rest array count stack root
        end
  end.

(*@ sese/config/Yaml.cpp 131-196 Yaml::parseArray *)
(** [(array, count)] has been popped. *)
Definition parseArray (fuel : nat) (queue : TokensQueue) (array : pointer) (count : Z) (stack : list Frame) (root : Value.t) :
    outcome ParseResult :=
  parseArray_loop fuel queue array (column count queue) stack root.

(*@ sese/config/Yaml.cpp 346-357 Yaml::parse *)
Fixpoint parse_loop (rounds fuel : nat) (queue : TokensQueue) (stack : list Frame) (root : Value.t) : outcome Value.t :=
  match rounds, stack with
  | _, [] => Val root
  | O, _ => Undef
  | S rounds, (current, count) :: stack =>
      '(rt, queue, stack, root) ←
        match get current root with
        | Some (Value.Dict _) => parseObject fuel queue current count stack root
        | Some (Value.List _) => parseArray fuel queue current count stack root
        | Some _ => Val (false, queue, (current, count) :: stack, root)
        | None => Undef
        end;
      if rt : bool then parse_loop rounds fuel queue stack root else Val Value.Null
  end.

(*@ sese/config/Yaml.cpp 327-359 Yaml::parse *)
Definition parse_queue (rounds fuel : nat) (queue : TokensQueue) : outcome Value.t :=
  match queue with
  | [] | (_, []) :: _ => Val Value.Null
  | (_, token :: _) :: _ =>
      parse_loop rounds fuel queue [([], -1)] (if bool_decide (token = str "-") then Value.list_ else Value.dict)
  end.

Section Parse.
Context {I : Type} `{InputStream I}.

(*@ sese/config/Yaml.cpp 318-325 Yaml::parse *)
(** A line of blanks ends the document. *)
Fixpoint lines_loop (fuel : nat) (input : I) (queue : TokensQueue) : outcome TokensQueue :=
  match fuel with
  | O => Undef
  | S fuel' =>
      '(count, line, input) ← getLine fuel input;
      match line with
      | [] => Val queue
      | _ => lines_loop fuel' input (queue ++ [(count, tokenizer line)])
      end
  end.

(*@ sese/config/Yaml.cpp 316-360 Yaml::parse *)
Definition parse (fuel : nat) (input : I) : outcome Value.t :=
  queue ← lines_loop fuel input [];
  parse_queue fuel fuel queue.
End Parse.

(** ** The writer *)

Section Streamify.
Context {O : Type} `{OutputStream O}.

(** A value on the stack, how many of its elements are written, its level, and whether its first
    line is indented. The code uses the popped entry through references; here they are copies. *)
Abbreviation Entry := (Value.t * Z * Z * bool)%type.
(** The returned flag, the output and the stacks. *)
Abbreviation WriteResult := (bool * O * list Entry * list Value.Iter)%type.

(** The count is reduced before the number of whole buffers is computed, which is zero. *)
Definition space_count (count : Z) : Z := count mod 1024.
(*@ sese/config/Yaml.cpp 370-384 Yaml::writeSpace *)
Definition writeSpace (output : O) (count : Z) : outcome (bool * O) :=
  let count := space_count count in
  let times := count / 1024 in
  write_all output (repeat (repeat 32 1024) (Z.to_nat times) ++ [repeat 32 (Z.to_nat count)]).

(*@ sese/config/Yaml.cpp 467-483 Yaml::streamifyBasic *)
(** A blob is not a string: [getString] fails. *)
Definition streamifyBasic (output : O) (value : Value.t) : outcome (bool * O) :=
  text ← match value with
         | Value.Null => Val (str "~")
         | Value.Bool b => Val (str (if b then "true" else "false"))
         | Value.Int _ | Value.Double _ => Val (Value.toStringBasic value)
         | _ => Value.getString value
         end;
  write_all output [text; [10]].

(*@ sese/config/Yaml.cpp 401-405 Yaml::streamifyObject *)
(** The indentation of an element, the [count]-th. *)
Definition write_indent (output : O) (count level : Z) (prefix : bool) : outcome (bool * O) :=
  if negb (count =? 1) || prefix then writeSpace output (u32 (level * 2)) else Val (true, output).

(*@ sese/config/Yaml.cpp 396-426 Yaml::streamifyObject *)
Fixpoint streamifyObject_loop (output : O) (object : Value.t) (count level : Z) (prefix : bool) (stack : list Entry) (iters : list Value.Iter)
    (iter : Value.Iter) : outcome WriteResult :=
  match iter with
  | [] => Val (true, output, stack, iters)
  | (name, value) :: iter =>
      let count := u32 (count + 1) in
      '(ok, output) ← write_indent output count level prefix;
      if negb ok then Val (false, output, stack, iters) else
      '(ok, output) ← write_all output [name; str ": "];
      if negb ok then Val (false, output, stack, iters) else
      match value with
      | Value.Dict m =>
          '(ok, output) ← write_all output [[10]];
          if negb ok then Val (false, output, stack, iters)
          else Val (true, output, (value, 0, u32 (level + 1), true) :: (object, count, level, true) :: stack, m :: iter :: iters)
      | Value.List _ =>
          '(ok, output) ← write_all output [[10]];
          if negb ok then Val (false, output, stack, iters)
          else Val (true, output, (value, 0, u32 (level + 1), true) :: (object, count, level, true) :: stack, iter :: iters)
      | _ =>
          '(ok, output) ← streamifyBasic output value;
          if negb ok then Val (false, output, stack, iters)
          else streamifyObject_loop output object count level prefix stack iters iter
      end
  end.

(*@ sese/config/Yaml.cpp 386-428 Yaml::streamifyObject *)
Definition streamifyObject (output : O) (object : Value.t) (count level : Z) (prefix : bool) (stack : list Entry) (iters : list Value.Iter) :
    outcome WriteResult :=
  match iters with
  | [] => Undef
  | iter :: iters => streamifyObject_loop output object count level prefix stack iters iter
  end.

(*@ sese/config/Yaml.cpp 438-463 Yaml::streamifyArray *)
(** [rest]: the elements from [count] on. *)
Fixpoint streamifyArray_loop (output : O) (array : Value.t) (count level : Z) (prefix : bool) (stack : list Entry) (iters : list Value.Iter)
    (rest : list Value.t) : outcome WriteResult :=
  match rest with
  | [] => Val (true, output, stack, iters)
  | value :: rest =>
      let count := u32 (count + 1) in
      '(ok, output) ← write_indent output count level prefix;
      if negb ok then Val (false, output, stack, iters) else
      '(ok, output) ← write_all output [str "- "];
      if negb ok then Val (false, output, stack, iters) else
      match value with
      | Value.Dict m => Val (true, output, (value, 0, u32 (level + 1), false) :: (array, count, level, true) :: stack, m :: iters)
      | Value.List _ => Val (true, output, (value, 0, u32 (level + 1), false) :: (array, count, level, true) :: stack, iters)
      | _ =>
          '(ok, output) ← streamifyBasic output value;
          if negb ok then Val (false, output, stack, iters)
          else streamifyArray_loop output array count level prefix stack iters rest
      end
  end.

(*@ sese/config/Yaml.cpp 430-465 Yaml::streamifyArray *)
Definition streamifyArray (output : O) (array : Value.t) (l : list Value.t) (count level : Z) (prefix : bool) (stack : list Entry)
    (iters : list Value.Iter) : outcome WriteResult :=
  streamifyArray_loop output array count level prefix stack iters (zdrop count l).

(*@ sese/config/Yaml.cpp 493-506 Yaml::streamify *)
Fixpoint streamify_loop (fuel : nat) (output : O) (stack : list Entry) (iters : list Value.Iter) : outcome (bool * O) :=
  match fuel, stack with
  | _, [] => Val (true, output)
  | Datatypes.O, _ => Undef
  | S fuel, (value, count, level, prefix) :: stack =>
      '(rt, output, stack, iters) ←
        match value with
        | Value.Dict _ => streamifyObject output value count level prefix stack iters
        | Value.List l => streamifyArray output value l count level prefix stack iters
        | _ => Val (false, output, stack, iters)
        end;
      if rt : bool then streamify_loop fuel output stack iters else Val (false, output)
  end.

(*@ sese/config/Yaml.cpp 485-508 Yaml::streamify *)
Definition streamify (output : O) (value : Value.t) : outcome (bool * O) :=
  streamify_loop (S (rounds value)) output [(value, 0, 0, true)] (match value with Value.Dict m => [m] | _ => [] end).
End Streamify.
