(* ===== verification/YamlRoundtrip.v ===== *)
(** * YAML: what is written is read back

    A value as lines with their columns; the writer writes the lines, the reader cuts them off
    again, and the parser builds the value from them. *)

From Stdlib Require Import SpecFloat.
From S2P Require Import Prelude Streams Text OrdMap Double Value Json JsonPointer JsonWrite JsonRoundtrip Yaml.
From S2P Require Import InputBufferWrapper OutputBufferWrapper.

(** ** Values as lines *)

Definition basic_text (v : Value.t) : bytes :=
  match v with
  | Value.Null => str "~"
  | Value.Bool b => str (if b then "true" else "false")
  | Value.Int _ | Value.Double _ => Value.toStringBasic v
  | Value.String s => s
  | _ => []
  end.

(** A line with the column of its first character. *)
Abbreviation Line := (Z * bytes)%type.
Definition dash_first (c : Z) (ls : list Line) : list Line := match ls with (_, t) :: ls => (c, str "- " ++ t) :: ls | [] => [] end.

(** The lines of a value that starts in a column. *)
Fixpoint lines (c : Z) (v : Value.t) : list Line :=
  match v with
  | Value.List l => concat (map (fun v => dash_first c (lines (c + 2) v)) l)
  | Value.Dict m =>
      concat (map (fun e =>
        if container (snd e) then (c, fst e ++ str ": ") :: lines (c + 2) (snd e) else [(c, fst e ++ str ": " ++ basic_text (snd e))]) m)
  | _ => [(c, basic_text v)]
  end.
Definition element_lines (c : Z) (v : Value.t) : list Line := dash_first c (lines (c + 2) v).
Definition entry_lines (c : Z) (e : bytes * Value.t) : list Line :=
  if container (snd e) then (c, fst e ++ str ": ") :: lines (c + 2) (snd e) else [(c, fst e ++ str ": " ++ basic_text (snd e))].

Definition spaces (c : Z) : bytes := repeat 32 (Z.to_nat c).
Definition line_text (l : Line) : bytes := spaces (fst l) ++ snd l ++ [10].
(** The text of lines, the first one with its indentation or without. *)
Definition render (prefix : bool) (ls : list Line) : bytes :=
  match ls with [] => [] | (c, t) :: ls => (if prefix then spaces c else []) ++ t ++ [10] ++ concat (map line_text ls) end.
Definition yaml_text (v : Value.t) : bytes := render true (lines 0 v).

(** Text that the tokenizer takes as one token. *)
Definition plain_first (c : byte) : bool := negb (existsb (Z.eqb c) [39; 34; 58; 45; 32]).
Definition plain_rest (c : byte) : bool := negb (existsb (Z.eqb c) [58; 13; 10]).
Definition plain (s : bytes) : bool := match s with [] => false | c :: _ => plain_first c end && forallb plain_rest s.

(** Values that can be written at a level: scalars whose text is plain and means them again, and
    containers that are not empty, less than 512 levels deep. *)
Inductive yaml_ok : Z -> Value.t -> Prop :=
| yaml_basic L v : container v = false -> plain (basic_text v) = true -> Yaml.parseBasic (basic_text v) = v -> yaml_ok L v
| yaml_list L l : 0 <= L < 512 -> l <> [] -> zlen l < 2 ^ 32 -> Forall (yaml_ok (L + 1)) l -> yaml_ok L (Value.List l)
| yaml_dict L m : 0 <= L < 512 -> m <> [] -> zlen m < 2 ^ 32 -> msorted lexcmp m ->
    Forall (fun e => plain (fst e) = true /\ yaml_ok (L + 1) (snd e)) m -> yaml_ok L (Value.Dict m).

Lemma yaml_ok_lines L v : yaml_ok L v -> forall c, exists t ls, lines c v = (c, t) :: ls.
Proof.
  revert L. induction v as [|b0|z0|d0|s0|b1|l IH|m IH] using Value.value_ind; intros L Hok c; try (by eexists _, _).
  - inversion Hok as [|? ? _ Hne _ Hl|]; subst; [done|]. destruct l as [|v l]; [done|]. apply Forall_cons_1 in IH as [IH _]. apply Forall_cons_1 in Hl as [Hv _].
    cbn [lines map concat]. destruct (IH _ Hv (c + 2)) as (t & ls & ->). by eexists _, _.
  - inversion Hok as [| |? ? _ Hne _ _ Hm]; subst; [done|]. destruct m as [|[k v] m]; [done|].
    cbn [lines map concat fst snd]. destruct (container v); by eexists _, _.
Qed.

Lemma render_app b x xs ys : render b ((x :: xs) ++ ys) = render b (x :: xs) ++ render true ys.
Proof.
  destruct x as [c t]. cbn [render app]. rewrite map_app, concat_app, <- !app_assoc. do 3 f_equal.
  destruct ys as [|[c' t'] ys]; [done|]. cbn [map concat render]. change (line_text (c', t')) with (spaces c' ++ t' ++ [10]). by rewrite <- !app_assoc.
Qed.

Lemma render_true ls : render true ls = concat (map line_text ls).
Proof. destruct ls as [|[c t] ls]; [done|]. cbn [render map concat]. change (line_text (c, t)) with (spaces c ++ t ++ [10]). by rewrite <- !app_assoc. Qed.

Lemma render_dash b c t c' ls : render b (dash_first c ((c', t) :: ls)) = (if b then spaces c else []) ++ str "- " ++ render false ((c', t) :: ls).
Proof. cbn [dash_first render app]. by rewrite <- !app_assoc. Qed.

(** ** The writer *)

Section Writer.
Context {O : Type} `{MemOutput O}.

Lemma streamifyBasic_text v out n : container v = false -> plain (basic_text v) = true -> out_valid out -> 0 <= n ->
  out_room out (zlen (basic_text v ++ [10]) + n) ->
  exists out', Yaml.streamifyBasic out v = Val (true, out') /\ received out' out (basic_text v ++ [10]) n.
Proof.
  intros Hc Hp Ho Hn Hr. destruct (write_pieces out n [basic_text v; [10]] Ho Hn) as (o & E & R); [exact Hr|].
  exists o. split; [|exact R]. destruct v; try done; exact E.
Qed.

Lemma write_indent_text out count level b n : 0 <= level < 512 -> 0 <= count < 2 ^ 32 - 1 -> out_valid out -> 0 <= n ->
  out_room out (zlen (if negb (count =? 0) || b then spaces (2 * level) else []) + n) ->
  exists out', write_indent out (u32 (count + 1)) level b = Val (true, out') /\
    received out' out (if negb (count =? 0) || b then spaces (2 * level) else []) n.
Proof.
  intros Hl Hc Ho Hn Hr. unfold write_indent. rewrite wrap_small by (unfold is_u; lia).
  assert ((count + 1 =? 1) = (count =? 0)) as ->.
  { destruct (count =? 0) eqn:E; zbool; [apply Z.eqb_eq|apply Z.eqb_neq]; lia. }
  destruct (negb (count =? 0) || b).
  - rewrite wrap_small by (unfold is_u; lia). unfold writeSpace, space_count. rewrite (Z.mod_small _ 1024), Z.div_small by lia.
    change (repeat (repeat 32 1024) (Z.to_nat 0)) with (@nil (list Z)). cbn [app]. rewrite (Z.mul_comm level).
    destruct (write_pieces out n [spaces (2 * level)] Ho Hn) as (o & E & R); [cbn [concat]; by rewrite app_nil_r|].
    cbn [concat] in R. rewrite app_nil_r in R. by exists o.
  - exists out. split; [done|]. split; [done|]. rewrite app_nil_r. split; [done|exact Hr].
Qed.

(** The rounds of a container write its lines and take it off the stacks. *)
Definition lines_written (v : Value.t) : Prop :=
  forall L, container v = true -> yaml_ok L v -> forall b fuel out stack iters n, out_valid out -> 0 <= n ->
  out_room out (zlen (render b (lines (2 * L) v)) + n) ->
  exists out', received out' out (render b (lines (2 * L) v)) n /\
    Yaml.streamify_loop (rounds v + fuel) out ((v, 0, L, b) :: stack) (iters_of v ++ iters) = Yaml.streamify_loop fuel out' stack iters.

(** What the outer loop does with the result of a round. *)
Definition ycontinue (fuel : nat) (r : bool * O * list (Value.t * Z * Z * bool) * list Value.Iter) : outcome (bool * O) :=
  let '(rt, out, stack, iters) := r in if rt : bool then Yaml.streamify_loop fuel out stack iters else Val (false, out).

Lemma u32_level L : 0 <= L < 512 -> u32 (L + 1) = L + 1.
Proof. intros. apply wrap_small. unfold is_u. lia. Qed.

Lemma entries_written m L stack iters fuel : zlen m < 2 ^ 32 -> 0 <= L < 512 ->
  forall iter pre out b n, m = pre ++ iter -> Forall (fun e => plain (fst e) = true /\ yaml_ok (L + 1) (snd e) /\ lines_written (snd e)) iter ->
  let text := render (negb (zlen pre =? 0) || b) (concat (map (entry_lines (2 * L)) iter)) in
  out_valid out -> 0 <= n -> out_room out (zlen text + n) ->
  exists out', received out' out text n /\
    Yaml.streamifyObject_loop out (Value.Dict m) (zlen pre) L b stack iters iter ≫= ycontinue (list_sum (map (fun e => element_rounds (snd e)) iter) + fuel)
    = Yaml.streamify_loop fuel out' stack iters.
Proof.
  intros Hz HL. induction iter as [|[name v] iter IH]; intros pre out b n Em Hall text Ho Hn Hr.
  { exists out. split; [|done]. split; [done|]. subst text. cbn. rewrite app_nil_r. split; [done|exact Hr]. }
  apply Forall_cons in Hall as [(Hk & Hok & Hv) Hall]. cbn [fst snd] in Hk, Hok, Hv.
  assert (0 <= zlen pre < 2 ^ 32 - 1) as Hpre.
  { rewrite Em, zlen_app, zlen_cons in Hz. pose proof (zlen_nonneg pre). pose proof (zlen_nonneg iter). lia. }
  assert (zlen (pre ++ [(name, v)]) = zlen pre + 1) as El by (by rewrite zlen_app).
  set (indent := if negb (zlen pre =? 0) || b then spaces (2 * L) else []).
  set (body := if container v then [10] ++ render true (lines (2 * (L + 1)) v) else basic_text v ++ [10]).
  set (tail := render true (concat (map (entry_lines (2 * L)) iter))).
  assert (text = indent ++ (name ++ str ": ") ++ body ++ tail) as Et.
  { subst text indent body tail. cbn [map concat]. unfold entry_lines at 1. cbn [fst snd]. rewrite (Z.mul_add_distr_l 2 L 1). change (2 * 1) with 2.
    destruct (container v); (rewrite render_app; cbn [render map concat]; rewrite <- !app_assoc; do 3 f_equal).
    cbn [app]. by rewrite (render_true (lines _ v)). }
  clearbody text. subst text. rewrite !zlen_app in Hr. pose proof (zlen_nonneg indent). pose proof (zlen_nonneg body). pose proof (zlen_nonneg tail).
  cbn [Yaml.streamifyObject_loop]. cbv zeta.
  destruct (write_indent_text out (zlen pre) L b (zlen (name ++ str ": ") + (zlen body + (zlen tail + n))) HL Hpre Ho) as (o1 & -> & R1);
    [pose proof (zlen_nonneg (name ++ str ": ")); lia|fold indent; eapply room_law; [exact Hr|]; rewrite zlen_app; lia|].
  rewrite bind_Val. cbn [negb]. fold indent in R1. destruct R1 as (V1 & C1 & R1).
  destruct (write_pieces o1 (zlen body + (zlen tail + n)) [name; str ": "] V1) as (o2 & -> & R2); [lia|cbn [concat app]; rewrite app_nil_r; exact R1|].
  cbn [concat] in R2. rewrite app_nil_r in R2.
  rewrite bind_Val. cbn [negb]. destruct R2 as (V2 & C2 & R2). rewrite (wrap_small 32) by (unfold is_u; lia).
  pose proof (conj V1 (conj C1 R1) : received o1 out indent _) as R1'. pose proof (conj V2 (conj C2 R2) : received o2 o1 _ _) as R2'.
  cbn [map list_sum snd]. change (list_sum (?x :: ?l)) with (x + list_sum l)%nat.
  assert (forall o3 b', received o3 o2 body (zlen tail + n) -> exists out', received out' o3 tail n /\
    Yaml.streamifyObject_loop o3 (Value.Dict m) (zlen pre + 1) L b' stack iters iter ≫=
      ycontinue (list_sum (map (fun e => element_rounds (snd e)) iter) + fuel) = Yaml.streamify_loop fuel out' stack iters) as Hrest.
  { intros o3 b' (V3 & _ & R3). destruct (IH (pre ++ [(name, v)]) o3 b' n) as (o4 & R4 & E4); try done; [by rewrite <- app_assoc|..];
      rewrite El, (proj2 (Z.eqb_neq (zlen pre + 1) 0)) in * by lia; [exact R3|]. by exists o4. }
  destruct (container v) eqn:Ec; subst body.
  - rewrite (container_rounds v Ec). rewrite zlen_app, <- Z.add_assoc in R2. pose proof (zlen_nonneg (render true (lines (2 * (L + 1)) v))).
    destruct (write_pieces o2 (zlen (render true (lines (2 * (L + 1)) v)) + (zlen tail + n)) [[10]] V2) as (o3 & E3 & R3); [lia|exact R2|].
    pose proof R3 as (V3 & _ & R3').
    destruct (Hv (L + 1) Ec Hok true (S (list_sum (map (fun e => element_rounds (snd e)) iter) + fuel)) o3 ((Value.Dict m, zlen pre + 1, L, true) :: stack)
      (iter :: iters) (zlen tail + n)) as (o4 & R4 & E4); [done|lia|done|].
    destruct (Hrest o4 true) as (o5 & R5 & E5); [eapply received_app; done|]. exists o5.
    split; [eapply received_app; [exact R1'|eapply received_app; [exact R2'|eapply received_app; [eapply received_app; [exact R3|exact R4]|exact R5]]]|].
    rewrite <- E5. replace (S (rounds v) + list_sum (map (fun e => element_rounds (snd e)) iter) + fuel)%nat with
      (rounds v + S (list_sum (map (fun e => element_rounds (snd e)) iter) + fuel))%nat by lia.
    rewrite u32_level by done. destruct v; try done; cbn [iters_of app] in E4; rewrite E3, bind_Val; cbn [negb]; rewrite bind_Val; cbn [ycontinue]; exact E4.
  - rewrite (basic_rounds v Ec). inversion Hok as [? ? _ Hp Hpb| |]; subst; [|done..].
    destruct (streamifyBasic_text v o2 (zlen tail + n) Ec Hp V2) as (o3 & E3 & R3); [lia|exact R2|].
    destruct (Hrest o3 b R3) as (o5 & R5 & E5). exists o5.
    split; [eapply received_app; [exact R1'|eapply received_app; [exact R2'|eapply received_app; [exact R3|exact R5]]]|].
    rewrite <- E5. destruct v; try done; rewrite E3, bind_Val; cbn [negb]; done.
Qed.

Lemma elements_written l L stack iters fuel : zlen l < 2 ^ 32 -> 0 <= L < 512 ->
  forall rest pre out b n, l = pre ++ rest -> Forall (fun v => yaml_ok (L + 1) v /\ lines_written v) rest ->
  let text := render (negb (zlen pre =? 0) || b) (concat (map (element_lines (2 * L)) rest)) in
  out_valid out -> 0 <= n -> out_room out (zlen text + n) ->
  exists out', received out' out text n /\
    Yaml.streamifyArray_loop out (Value.List l) (zlen pre) L b stack iters rest ≫= ycontinue (list_sum (map element_rounds rest) + fuel)
    = Yaml.streamify_loop fuel out' stack iters.
Proof.
  intros Hz HL. induction rest as [|v rest IH]; intros pre out b n Em Hall text Ho Hn Hr.
  { exists out. split; [|done]. split; [done|]. subst text. cbn. rewrite app_nil_r. split; [done|exact Hr]. }
  apply Forall_cons in Hall as [(Hok & Hv) Hall].
  assert (0 <= zlen pre < 2 ^ 32 - 1) as Hpre.
  { rewrite Em, zlen_app, zlen_cons in Hz. pose proof (zlen_nonneg pre). pose proof (zlen_nonneg rest). lia. }
  assert (zlen (pre ++ [v]) = zlen pre + 1) as El by (by rewrite zlen_app).
  set (indent := if negb (zlen pre =? 0) || b then spaces (2 * L) else []).
  set (body := render false (lines (2 * (L + 1)) v)).
  set (tail := render true (concat (map (element_lines (2 * L)) rest))).
  assert (text = indent ++ str "- " ++ body ++ tail) as Et.
  { subst text indent body tail. cbn [map concat]. unfold element_lines at 1. rewrite (Z.mul_add_distr_l 2 L 1). change (2 * 1) with 2.
    destruct (yaml_ok_lines _ v Hok (2 * L + 2)) as (t & ls & ->). cbn [dash_first]. rewrite render_app.
    pose proof (render_dash (negb (zlen pre =? 0) || b) (2 * L) t (2 * L + 2) ls) as Hd. cbn [dash_first] in Hd. rewrite Hd. by rewrite <- !app_assoc. }
  clearbody text. subst text. rewrite !zlen_app in Hr. pose proof (zlen_nonneg indent). pose proof (zlen_nonneg body). pose proof (zlen_nonneg tail).
  change (zlen (str "- ")) with 2 in Hr.
  cbn [Yaml.streamifyArray_loop]. cbv zeta.
  destruct (write_indent_text out (zlen pre) L b (zlen (str "- ") + (zlen body + (zlen tail + n))) HL Hpre Ho) as (o1 & -> & R1);
    [change (zlen (str "- ")) with 2; lia|fold indent; eapply room_law; [exact Hr|]; change (zlen (str "- ")) with 2; lia|].
  rewrite bind_Val. cbn [negb]. fold indent in R1. destruct R1 as (V1 & C1 & R1).
  destruct (write_pieces o1 (zlen body + (zlen tail + n)) [str "- "] V1) as (o2 & -> & R2); [lia|exact R1|].
  rewrite bind_Val. cbn [negb]. destruct R2 as (V2 & C2 & R2). rewrite (wrap_small 32) by (unfold is_u; lia).
  pose proof (conj V1 (conj C1 R1) : received o1 out indent _) as R1'. pose proof (conj V2 (conj C2 R2) : received o2 o1 (str "- ") _) as R2'.
  cbn [map]. change (list_sum (?x :: ?l)) with (x + list_sum l)%nat.
  assert (forall o3 b', received o3 o2 body (zlen tail + n) -> exists out', received out' o3 tail n /\
    Yaml.streamifyArray_loop o3 (Value.List l) (zlen pre + 1) L b' stack iters rest ≫=
      ycontinue (list_sum (map element_rounds rest) + fuel) = Yaml.streamify_loop fuel out' stack iters) as Hrest.
  { intros o3 b' (V3 & _ & R3). destruct (IH (pre ++ [v]) o3 b' n) as (o4 & R4 & E4); try done; [by rewrite <- app_assoc|..];
      rewrite El, (proj2 (Z.eqb_neq (zlen pre + 1) 0)) in * by lia; [exact R3|]. by exists o4. }
  destruct (container v) eqn:Ec; subst body.
  - rewrite (container_rounds v Ec).
    destruct (Hv (L + 1) Ec Hok false (S (list_sum (map element_rounds rest) + fuel)) o2 ((Value.List l, zlen pre + 1, L, true) :: stack)
      iters (zlen tail + n)) as (o4 & R4 & E4); [done|lia|done|].
    destruct (Hrest o4 true R4) as (o5 & R5 & E5). exists o5.
    split; [eapply received_app; [exact R1'|eapply received_app; [exact R2'|eapply received_app; [exact R4|exact R5]]]|].
    rewrite <- E5. replace (S (rounds v) + list_sum (map element_rounds rest) + fuel)%nat with
      (rounds v + S (list_sum (map element_rounds rest) + fuel))%nat by lia.
    assert (zdrop (zlen pre + 1) l = rest) as Ed.
    { rewrite Em, <- El. change (v :: rest) with ([v] ++ rest). rewrite app_assoc, zdrop_app_ge by lia. by rewrite Z.sub_diag, zdrop_0. }
    rewrite u32_level by done. destruct v; try done; cbn [iters_of app] in E4; rewrite bind_Val; cbn [ycontinue]; refine (eq_trans E4 _); cbn [Yaml.streamify_loop];
      unfold Yaml.streamifyArray; by rewrite Ed.
  - rewrite (basic_rounds v Ec). inversion Hok as [? ? _ Hp Hpb| |]; subst; [|done..].
    assert (render false (lines (2 * (L + 1)) v) = basic_text v ++ [10]) as Hb by (by destruct v).
    destruct (streamifyBasic_text v o2 (zlen tail + n) Ec Hp V2) as (o3 & E3 & R3); [lia|rewrite <- Hb; exact R2|].
    rewrite <- Hb in R3. destruct (Hrest o3 b R3) as (o5 & R5 & E5). exists o5.
    split; [eapply received_app; [exact R1'|eapply received_app; [exact R2'|eapply received_app; [exact R3|exact R5]]]|].
    rewrite <- E5. destruct v; try done; rewrite E3, bind_Val; cbn [negb]; done.
Qed.

(** Every container is written. *)
Lemma all_lines_written v : lines_written v.
Proof.
  induction v as [|b0|z0|d0|s0|b1|l IH|m IH] using Value.value_ind; intros L Hc Hok b fuel out stack iters n Ho Hn Hr; try done.
  - inversion Hok as [|? ? HL _ Hz Hl|]; subst; [done|].
    destruct (elements_written l L stack iters fuel Hz HL l [] out b n) as (o & R & E); try done; [by apply Forall_and|].
    exists o. split; [exact R|]. rewrite <- E. cbn [iters_of app].
    change (rounds (Value.List l) + fuel)%nat with (S (list_sum (map element_rounds l) + fuel)). cbn [Yaml.streamify_loop].
    unfold Yaml.streamifyArray. by rewrite zdrop_0.
  - inversion Hok as [| |? ? HL _ Hz _ Hm]; subst; [done|].
    destruct (entries_written m L stack iters fuel Hz HL m [] out b n) as (o & R & E); try done.
    { apply Forall_forall. intros e He. rewrite Forall_forall in Hm, IH. split; [by apply Hm|]. split; [by apply Hm|by apply IH]. }
    exists o. split; [exact R|]. rewrite <- E. cbn [iters_of app].
    change (rounds (Value.Dict m) + fuel)%nat with (S (list_sum (map (fun e => element_rounds (snd e)) m) + fuel)). done.
Qed.

Lemma streamify_text v out : container v = true -> yaml_ok 0 v -> out_valid out -> out_room out (zlen (yaml_text v)) ->
  exists out', Yaml.streamify out v = Val (true, out') /\ received out' out (yaml_text v) 0.
Proof.
  intros Hc Hok Ho Hr. destruct (all_lines_written v 0 Hc Hok true 1%nat out [] [] 0 Ho) as (o & R & E); [lia|by rewrite Z.add_0_r|].
  exists o. split; [|exact R]. unfold Yaml.streamify. rewrite app_nil_r, Nat.add_1_r in E. exact E.
Qed.
End Writer.

(** ** Tokens *)

Definition token_lines (ls : list Line) : TokensQueue := map (fun l => (fst l, Yaml.tokenizer (snd l))) ls.

Lemma tokenizer_loop_app line : forall mode builder v w,
  Yaml.tokenizer_loop mode builder (v ++ w) line =
  (fst (Yaml.tokenizer_loop mode builder w line), v ++ snd (Yaml.tokenizer_loop mode builder w line)).
Proof.
  induction line as [|ch line IH]; intros mode builder v w; [done|]. cbn [Yaml.tokenizer_loop].
  destruct mode as [| | |[|]]; repeat case_match; rewrite <- ?app_assoc; apply IH.
Qed.

Lemma tokenizer_push v line : (let '(str, vector) := Yaml.tokenizer_loop Outside [] v line in match str with [] => vector | _ => vector ++ [str] end) =
  v ++ Yaml.tokenizer line.
Proof.
  unfold Yaml.tokenizer. rewrite <- (app_nil_r v) at 1. rewrite tokenizer_loop_app. destruct (Yaml.tokenizer_loop Outside [] [] line) as [s w]. cbn [fst snd].
  destruct s; [done|by rewrite app_assoc].
Qed.

Lemma tokenizer_dash t : Yaml.tokenizer (str "- " ++ t) = str "-" :: Yaml.tokenizer t.
Proof. exact (tokenizer_push [str "-"] t). Qed.

Lemma plain_first_spec c : plain_first c = true -> (c =? 39) = false /\ (c =? 34) = false /\ (c =? 58) = false /\ (c =? 45) = false /\ (c =? 32) = false.
Proof. unfold plain_first. cbn [existsb]. rewrite negb_true_iff, !orb_false_iff. tauto. Qed.

Lemma plain_rest_spec c : plain_rest c = true -> (c =? 58) = false /\ (c =? 13) = false /\ (c =? 10) = false.
Proof. unfold plain_rest. cbn [existsb]. rewrite negb_true_iff, !orb_false_iff. tauto. Qed.

Lemma tokenizer_plain s : forallb plain_rest s = true -> forall builder v rest,
  Yaml.tokenizer_loop Plain builder v (s ++ rest) = Yaml.tokenizer_loop Plain (builder ++ s) v rest.
Proof.
  induction s as [|c s IH]; intros Hs builder v rest; cbn [app]; [by rewrite app_nil_r|]. cbn [forallb] in Hs. apply andb_true_iff in Hs as [Hc Hs].
  apply plain_rest_spec in Hc as (E & _). cbn [Yaml.tokenizer_loop]. by rewrite E, (IH Hs), <- app_assoc.
Qed.

Lemma tokenizer_start s : plain s = true -> forall v rest,
  Yaml.tokenizer_loop Outside [] v (s ++ rest) = Yaml.tokenizer_loop Plain s v rest.
Proof.
  intros Hs v rest. destruct s as [|c s]; [done|]. apply andb_true_iff in Hs as [Hc Hs]. cbn [forallb] in Hs. apply andb_true_iff in Hs as [_ Hs].
  apply plain_first_spec in Hc as (E1 & E2 & E3 & E4 & E5). cbn [app Yaml.tokenizer_loop]. rewrite E1, E2, E3, E4, E5. apply (tokenizer_plain s Hs [c]).
Qed.

Lemma tokenizer_basic s : plain s = true -> Yaml.tokenizer s = [s].
Proof.
  intros Hs. unfold Yaml.tokenizer. pose proof (tokenizer_start s Hs [] []) as E. rewrite app_nil_r in E. rewrite E. cbn. by destruct s.
Qed.

Lemma tokenizer_key k t : plain k = true -> Yaml.tokenizer (k ++ str ": " ++ t) = k :: str ":" :: Yaml.tokenizer t.
Proof.
  intros Hk. unfold Yaml.tokenizer at 1. rewrite (tokenizer_start k Hk). change (str ": " ++ t) with (58 :: 32 :: t). cbn [Yaml.tokenizer_loop].
  exact (tokenizer_push [k; str ":"] t).
Qed.

(** ** Lines of tokens *)

(** The first line of a value does not start with a colon; that of a list starts with a dash, that of a
    dictionary with a key, a colon and at most one more token. *)
Definition first_ok (v : Value.t) (t : Tokens) : Prop :=
  match v with
  | Value.List _ => exists t', t = str "-" :: t' /\ head t' <> Some (str ":") /\ t' <> []
  | Value.Dict _ => exists k more, t = k :: str ":" :: more /\ (length more <= 1)%nat /\ k <> str ":" /\ k <> str "-"
  | _ => t = [basic_text v] /\ basic_text v <> str ":" /\ basic_text v <> str "-"
  end.

Lemma first_ok_head v t : first_ok v t -> head t <> Some (str ":") /\ t <> [].
Proof.
  destruct v; cbn; try (by intros (-> & H1 & _); split; [intros [= E]|]).
  - by intros (? & -> & _).
  - intros (k & more & -> & _ & Hk & _). split; [|done]. by intros [= E].
Qed.

Lemma plain_not s c : plain s = true -> plain_first c = false -> s <> [c].
Proof. intros Hs Hc ->. unfold plain in Hs. by rewrite Hc in Hs. Qed.

Lemma lines_first L v : yaml_ok L v -> forall c, exists t ls, lines c v = (c, t) :: ls /\ first_ok v (Yaml.tokenizer t).
Proof.
  revert L. induction v as [|b0|z0|d0|s0|b1|l IH|m IH] using Value.value_ind; intros L Hok c;
    try (inversion Hok as [? ? _ Hp _| |]; subst; eexists _, _; split; [done|]; cbn [lines first_ok];
         rewrite (tokenizer_basic _ Hp); split; [done|]; split; by apply plain_not).
  - inversion Hok as [|? ? _ Hne _ Hl|]; subst; [done|]. destruct l as [|v l]; [done|]. apply Forall_cons_1 in IH as [IH _]. apply Forall_cons_1 in Hl as [Hv _].
    destruct (IH _ Hv (c + 2)) as (t & ls & E & Ht). cbn [lines map concat]. rewrite E. eexists _, _. split; [done|].
    cbn [first_ok]. rewrite tokenizer_dash. eexists. split; [done|]. by apply (first_ok_head v).
  - inversion Hok as [| |? ? _ Hne _ _ Hm]; subst; [done|]. destruct m as [|[k v] m]; [done|]. apply Forall_cons_1 in Hm as [[Hk Hv] _]. cbn [fst snd] in Hk, Hv.
    cbn [lines map concat fst snd]. destruct (container v) eqn:Ec; eexists _, _; (split; [done|]); cbn [first_ok].
    + pose proof (tokenizer_key k [] Hk) as E. rewrite app_nil_r in E. rewrite E. exists k, []. split; [done|]. split; [cbn; lia|]. split; by apply plain_not.
    + rewrite (tokenizer_key k _ Hk). inversion Hv as [? ? _ Hp _| |]; subst; [|done..]. rewrite (tokenizer_basic _ Hp).
      exists k, [basic_text v]. split; [done|]. split; [cbn; lia|]. split; by apply plain_not.
Qed.

(** ** The parser *)

(** What may follow a container in a column: nothing, or a line further to the left. *)
Definition left_of (c : Z) (queue : TokensQueue) : Prop := match queue with [] => True | (c', _) :: _ => c' < c end.

Definition queue_parsed (v : Value.t) : Prop := forall L, container v = true -> yaml_ok L v ->
  forall c fuel n root p stack rest, 0 <= c -> left_of c rest -> (length (token_lines (lines c v) ++ rest) <= n)%nat ->
  get p root = Some (empty_of v) ->
  Yaml.parse_loop (rounds v + fuel) n (token_lines (lines c v) ++ rest) ((p, -1) :: stack) root =
  Yaml.parse_loop fuel n rest stack (modify p (fun _ => v) root).

Definition qcontinue (fuel n : nat) (r : Yaml.ParseResult) : outcome Value.t :=
  let '(rt, queue, stack, root) := r in if rt : bool then Yaml.parse_loop fuel n queue stack root else Val Value.Null.

Lemma token_lines_app a b : token_lines (a ++ b) = token_lines a ++ token_lines b.
Proof. apply map_app. Qed.

Lemma left_weaken_column c d queue : left_of c queue -> c <= d -> left_of d queue.
Proof. destruct queue as [|[c' t] queue]; cbn; lia. Qed.

Section Parser.
Context (p : pointer) (stack : list (pointer * Z)) (rest : TokensQueue) (c : Z) (fuel N : nat).
Context (Hc : 0 <= c) (Hrest : left_of c rest).

(** The entries of a dictionary from one on. *)
Definition entries_rest (m : list (bytes * Value.t)) : Prop :=
  forall n pre root, (length (token_lines (concat (map (entry_lines c) m)) ++ rest) <= n)%nat -> (n <= N)%nat ->
  msorted lexcmp (pre ++ m) -> get p root = Some (Value.Dict pre) ->
  Yaml.parseObject_loop n (token_lines (concat (map (entry_lines c) m)) ++ rest) p c stack root ≫= qcontinue (list_sum (map (fun e => element_rounds (snd e)) m) + fuel) N
  = Yaml.parse_loop fuel N rest stack (modify p (fun _ => Value.Dict (pre ++ m)) root).

Lemma set_root k w pre root : Forall (fun e : bytes * Value.t => lexcmp (fst e) k < 0) pre -> get p root = Some (Value.Dict pre) ->
  modify p (on_dict (Value.set k w)) root = modify p (fun _ => Value.Dict (pre ++ [(k, w)])) root /\
  modify p (on_dict (Value.setRef k w)) root = modify p (fun _ => Value.Dict (pre ++ [(k, w)])) root.
Proof.
  intros Hk Hp. destruct (find_before k pre Hk) as [Hf _]. split; rewrite (modify_const p _ _ root Hp); cbn [on_dict].
  - unfold Value.set. by rewrite (mset_last lexcmp k w pre Hk).
  - unfold Value.setRef, Value.contains. rewrite Hf. by rewrite (mset_last lexcmp k w pre Hk).
Qed.

(** After the entries: nothing is left, or the line belongs to a container further out. *)
Lemma entries_end : entries_rest [].
Proof.
  intros n pre root Hn HN _ Hp. cbn [map concat token_lines app] in *. rewrite app_nil_r, (modify_same p root _ Hp).
  destruct rest as [|[c' t] rest']; [by destruct n|]. cbn in Hrest, Hn. destruct n as [|n]; [lia|]. cbn [Yaml.parseObject_loop].
  rewrite (proj2 (Z.eqb_neq c c')), (proj2 (Z.ltb_lt c' c)) by lia. done.
Qed.

Lemma later_left m : left_of (c + 2) (token_lines (concat (map (entry_lines c) m)) ++ rest).
Proof.
  destruct m as [|[k v] m]; [cbn; eapply left_weaken_column; [exact Hrest|lia]|]. cbn [map concat]. unfold entry_lines at 1. cbn [fst snd].
  destruct (container v); cbn; lia.
Qed.

Lemma entry_container L k v m : container v = true -> plain k = true -> yaml_ok L v -> queue_parsed v -> entries_rest m -> entries_rest ((k, v) :: m).
Proof.
  intros Ec Hk Hok Hv IH n pre root Hn HN Hs Hp. pose proof (msorted_before _ _ _ _ _ Hs) as Hb.
  cbn [map concat snd] in *. unfold entry_lines at 1 in Hn; unfold entry_lines at 1. cbn [fst snd] in *. rewrite Ec in *. cbn [app] in *.
  change (token_lines ((c, k ++ str ": ") :: ?x)) with ((c, Yaml.tokenizer (k ++ str ": ")) :: token_lines x) in *.
  rewrite token_lines_app in *. cbn [app] in *. rewrite <- app_assoc in *.
  set (later := token_lines (concat (map (entry_lines c) m)) ++ rest) in *.
  pose proof (tokenizer_key k [] Hk) as Et. rewrite app_nil_r in Et. change (Yaml.tokenizer []) with (@nil bytes) in Et. rewrite Et in *. clear Et.
  destruct n as [|n]; [cbn in Hn; lia|]. cbn [Yaml.parseObject_loop]. rewrite Z.eqb_refl. cbv zeta.
  pose proof (Hv L Ec Hok (c + 2) (S (list_sum (map (fun e => element_rounds (snd e)) m) + fuel))) as Hsub.
  destruct (lines_first L v Hok (c + 2)) as (t & ls & El & Hf). rewrite El in *.
  change (token_lines ((c + 2, t) :: ls)) with ((c + 2, Yaml.tokenizer t) :: token_lines ls) in *. cbn [app] in *.
  rewrite (proj2 (Z.eqb_neq (c + 2) c)), (proj2 (Z.ltb_ge (c + 2) c)) by lia.
  destruct (Yaml.tokenizer t) as [|t1 ts] eqn:Et; [by apply first_ok_head in Hf as [_ Hf]|].
  assert ((if bool_decide (t1 = str "-") then Value.list_ else Value.dict) = empty_of v) as ->.
  { destruct v; try done; cbn in Hf.
    - destruct Hf as (t' & [= -> ->] & _). by rewrite bool_decide_eq_true_2.
    - destruct Hf as (k' & more & [= -> ->] & _ & _ & Hk'). by rewrite bool_decide_eq_false_2. }
  rewrite (proj2 (set_root k (empty_of v) pre root Hb Hp)). rewrite bind_Val. cbn [qcontinue].
  change (list_sum (?x :: ?l)) with (x + list_sum l)%nat. rewrite (container_rounds v Ec).
  replace (S (rounds v) + list_sum (map (fun e => element_rounds (snd e)) m) + fuel)%nat with
    (rounds v + S (list_sum (map (fun e => element_rounds (snd e)) m) + fuel))%nat by lia.
  cbn [length] in Hn. rewrite length_app in Hn.
  rewrite Hsub; [|lia|apply later_left|cbn [length]; rewrite length_app; lia|].
  2: { rewrite get_app, get_modify, Hp. cbn. by rewrite find_last. }
  assert (modify (p ++ [Key k]) (fun _ => v) (modify p (fun _ => Value.Dict (pre ++ [(k, empty_of v)])) root) = modify p (fun _ => Value.Dict (pre ++ [(k, v)])) root) as ->.
  { rewrite modify_app, modify_compose. apply (modify_ext p _ _ root _ Hp). cbn [modify]. by rewrite (proj2 (find_before k pre Hb)). }
  cbn [Yaml.parse_loop]. rewrite get_modify, Hp. cbn [fmap option_fmap option_map]. unfold Yaml.parseObject, column.
  rewrite (proj2 (Z.eqb_neq c (-1))) by lia. etransitivity; [apply (IH N (pre ++ [(k, v)]))|].
  - fold later. rewrite ?length_app in *. lia.
  - done.
  - by rewrite <- app_assoc.
  - by rewrite get_modify, Hp.
  - rewrite modify_compose. by rewrite <- app_assoc.
Qed.

Lemma entry_basic k v m : container v = false -> plain k = true -> plain (basic_text v) = true -> Yaml.parseBasic (basic_text v) = v ->
  entries_rest m -> entries_rest ((k, v) :: m).
Proof.
  intros Ec Hk Hp Hb IH n pre root Hn HN Hs Hg. pose proof (msorted_before _ _ _ _ _ Hs) as Hbef.
  cbn [map concat snd] in *. unfold entry_lines at 1 in Hn; unfold entry_lines at 1. cbn [fst snd] in *. rewrite Ec in *. cbn [app] in *.
  change (token_lines ((c, ?t) :: ?x)) with ((c, Yaml.tokenizer t) :: token_lines x) in *. cbn [app] in *.
  rewrite (tokenizer_key k _ Hk), (tokenizer_basic _ Hp) in *. destruct n as [|n]; [cbn in Hn; lia|]. cbn [Yaml.parseObject_loop]. rewrite Z.eqb_refl.
  rewrite bool_decide_eq_true_2 by done. cbn [negb]. rewrite Hb, (proj1 (set_root k v pre root Hbef Hg)).
  change (list_sum (?x :: ?l)) with (x + list_sum l)%nat. rewrite (basic_rounds v Ec). cbn [length] in Hn. etransitivity; [apply (IH n (pre ++ [(k, v)]))|].
  - lia.
  - lia.
  - by rewrite <- app_assoc.
  - by rewrite get_modify, Hg.
  - rewrite modify_compose. by rewrite <- app_assoc.
Qed.

Lemma entries_parsed L m : Forall (fun e => plain (fst e) = true /\ yaml_ok L (snd e) /\ queue_parsed (snd e)) m -> entries_rest m.
Proof.
  induction 1 as [|[k v] m (Hk & Hok & Hv) _ IH]; [apply entries_end|]. cbn [fst snd] in *. destruct (container v) eqn:Ec.
  - by apply (entry_container L).
  - inversion Hok; subst; [|done..]. by apply entry_basic.
Qed.

(** The elements of a list from one on. *)
Definition elements_rest (l : list Value.t) : Prop :=
  forall n pre root, (length (token_lines (concat (map (element_lines c) l)) ++ rest) <= n)%nat -> (n <= N)%nat ->
  get p root = Some (Value.List pre) ->
  Yaml.parseArray_loop n (token_lines (concat (map (element_lines c) l)) ++ rest) p c stack root ≫= qcontinue (list_sum (map element_rounds l) + fuel) N
  = Yaml.parse_loop fuel N rest stack (modify p (fun _ => Value.List (pre ++ l)) root).

Lemma elements_end : elements_rest [].
Proof.
  intros n pre root Hn HN Hp. cbn [map concat token_lines app] in *. rewrite app_nil_r, (modify_same p root _ Hp).
  destruct rest as [|[c' t] rest']; [by destruct n|]. cbn in Hrest, Hn. destruct n as [|n]; [lia|]. cbn [Yaml.parseArray_loop].
  rewrite (proj2 (Z.ltb_lt c' c)) by lia. done.
Qed.

Lemma later_left_elements L l : Forall (yaml_ok L) l -> left_of (c + 2) (token_lines (concat (map (element_lines c) l)) ++ rest).
Proof.
  intros Hl. destruct Hl as [|v l Hv Hl]; [cbn; eapply left_weaken_column; [exact Hrest|lia]|]. cbn [map concat]. unfold element_lines at 1.
  destruct (yaml_ok_lines L v Hv (c + 2)) as (t & ls & ->). cbn. lia.
Qed.

Lemma append_root w pre root : get p root = Some (Value.List pre) ->
  modify p (on_list (fun l => Value.append l w)) root = modify p (fun _ => Value.List (pre ++ [w])) root.
Proof. intros Hp. by rewrite (modify_const p _ _ root Hp). Qed.

(** Which container the parser opens after a dash. *)
Lemma opened v t1 t2 ts : container v = true -> first_ok v (t1 :: t2 :: ts) ->
  (if (length (t1 :: t2 :: ts) <=? 3)%nat && bool_decide (t2 = str ":") then Some Value.dict
   else if bool_decide (t1 = str "-") then Some Value.list_ else None) = Some (empty_of v).
Proof.
  destruct v as [| | | | | |l|m]; try done; intros _; cbn [first_ok].
  - intros (t' & [= -> <-] & Hh & _). rewrite (bool_decide_eq_false_2 (t2 = str ":")) by (intros ->; by apply Hh). rewrite andb_false_r.
    by rewrite bool_decide_eq_true_2.
  - intros (k & more & [= -> -> ->] & Hl & _). rewrite bool_decide_eq_true_2 by done. rewrite andb_true_r.
    rewrite (proj2 (Nat.leb_le _ _)) by (cbn [length]; lia). done.
Qed.

Lemma element_container L v l : container v = true -> yaml_ok L v -> Forall (yaml_ok L) l -> queue_parsed v -> elements_rest l -> elements_rest (v :: l).
Proof.
  intros Ec Hok Hl Hv IH n pre root Hn HN Hp. cbn [map concat] in *. unfold element_lines at 1 in Hn; unfold element_lines at 1.
  pose proof (Hv L Ec Hok (c + 2) (S (list_sum (map element_rounds l) + fuel))) as Hsub.
  destruct (lines_first L v Hok (c + 2)) as (t & ls & El & Hf). rewrite El in *. cbn [dash_first] in *. rewrite token_lines_app in *.
  rewrite <- app_assoc in *. set (later := token_lines (concat (map (element_lines c) l)) ++ rest) in *.
  change (token_lines ((?a, ?b) :: ls)) with ((a, Yaml.tokenizer b) :: token_lines ls) in *. rewrite tokenizer_dash in *. cbn [app length] in *.
  destruct n as [|n]; [lia|]. cbn [Yaml.parseArray_loop]. rewrite (proj2 (Z.ltb_ge c c)), Z.eqb_refl by lia. cbv zeta. rewrite Hp.
  destruct (Yaml.tokenizer t) as [|t1 [|t2 ts]] eqn:Et.
  { by apply first_ok_head in Hf as [_ Hf]. }
  { exfalso. destruct v; try done; cbn in Hf; [by destruct Hf as (t' & [= -> <-] & _ & ?)|by destruct Hf as (k & more & [=] & _)]. }
  pose proof (opened v t1 t2 ts Ec Hf) as Ho.
  assert (forall w, empty_of v = w -> (Val (true, (c + 2, t1 :: t2 :: ts) :: token_lines ls ++ later, (p ++ [Index (length pre)], -1) :: (p, c) :: stack,
      modify p (on_list (fun l => Value.append l w)) root) : outcome Yaml.ParseResult) ≫= qcontinue (list_sum (map element_rounds (v :: l)) + fuel) N =
      Yaml.parse_loop fuel N rest stack (modify p (fun _ => Value.List (pre ++ v :: l)) root)) as Hgoal.
  { intros w <-. rewrite bind_Val. cbn [qcontinue map]. change (list_sum (?x :: ?l)) with (x + list_sum l)%nat. rewrite (container_rounds v Ec).
    replace (S (rounds v) + list_sum (map element_rounds l) + fuel)%nat with (rounds v + S (list_sum (map element_rounds l) + fuel))%nat by lia.
    rewrite (append_root _ _ _ Hp), Hsub; [|lia|by apply (later_left_elements L)|rewrite !length_app in *; cbn [length] in *; lia|].
    2: { rewrite get_app, get_modify, Hp. cbn. by rewrite list_lookup_middle. }
    assert (modify (p ++ [Index (length pre)]) (fun _ => v) (modify p (fun _ => Value.List (pre ++ [empty_of v])) root) = modify p (fun _ => Value.List (pre ++ [v])) root) as ->.
    { rewrite modify_app, modify_compose. apply (modify_ext p _ _ root _ Hp). cbn [modify]. f_equal.
      rewrite <- (Nat.add_0_r (length pre)). by rewrite alter_app_r. }
    cbn [Yaml.parse_loop]. rewrite get_modify, Hp. cbn [fmap option_fmap option_map]. unfold Yaml.parseArray, column.
    rewrite (proj2 (Z.eqb_neq c (-1))) by lia. etransitivity; [apply (IH N (pre ++ [v]))|].
    - fold later. rewrite ?length_app in *. lia.
    - done.
    - by rewrite get_modify, Hp.
    - rewrite modify_compose. by rewrite <- app_assoc. }
  destruct ((length (t1 :: t2 :: ts) <=? 3)%nat && bool_decide (t2 = str ":")); [by apply Hgoal; injection Ho|].
  destruct (bool_decide (t1 = str "-")); [by apply Hgoal; injection Ho|done].
Qed.

Lemma element_basic v l : container v = false -> plain (basic_text v) = true -> Yaml.parseBasic (basic_text v) = v ->
  elements_rest l -> elements_rest (v :: l).
Proof.
  intros Ec Hp Hb IH n pre root Hn HN Hg. cbn [map concat] in *. unfold element_lines at 1 in Hn; unfold element_lines at 1.
  assert (lines (c + 2) v = [(c + 2, basic_text v)]) as El by (by destruct v). rewrite El in *. cbn [dash_first app] in *.
  change (token_lines ((c, ?t) :: ?x)) with ((c, Yaml.tokenizer t) :: token_lines x) in *. cbn [app length] in *.
  rewrite tokenizer_dash, (tokenizer_basic _ Hp) in *. destruct n as [|n]; [lia|]. cbn [Yaml.parseArray_loop]. cbv zeta.
  rewrite (proj2 (Z.ltb_ge c c)), Z.eqb_refl by lia. rewrite Hb, (append_root _ _ _ Hg).
  change (list_sum (?x :: ?l)) with (x + list_sum l)%nat. rewrite (basic_rounds v Ec). etransitivity; [apply (IH n (pre ++ [v]))|].
  - lia.
  - lia.
  - by rewrite get_modify, Hg.
  - rewrite modify_compose. by rewrite <- app_assoc.
Qed.

Lemma elements_parsed L l : Forall (fun v => yaml_ok L v /\ queue_parsed v) l -> elements_rest l.
Proof.
  induction 1 as [|v l (Hok & Hv) Hl IH]; [apply elements_end|]. destruct (container v) eqn:Ec.
  - apply (element_container L); try done. eapply Forall_impl; [exact Hl|]. by intros w [].
  - inversion Hok; subst; [|done..]. by apply element_basic.
Qed.
End Parser.

(** Every container is built from its lines. *)
Lemma all_queues_parsed v : queue_parsed v.
Proof.
  induction v as [|b0|z0|d0|s0|b1|l IH|m IH] using Value.value_ind; intros L Hv Hok c fuel n root p stack rest Hc Hrest Hn Hp; try done.
  - destruct (yaml_ok_lines L _ Hok c) as (t & ls & El). pose proof Hok as Hok'. inversion Hok as [|? ? HL _ Hz Hl|]; subst; [done|].
    change (rounds (Value.List l) + fuel)%nat with (S (list_sum (map element_rounds l) + fuel)). cbn [Yaml.parse_loop]. rewrite Hp.
    cbn [empty_of Value.list_ Value.of_type]. unfold Yaml.parseArray. rewrite El. cbn [token_lines map app fst]. unfold column. change (-1 =? -1) with true. cbv iota.
    change ((c, Yaml.tokenizer (snd (c, t))) :: map ?f ls ++ rest) with (token_lines ((c, t) :: ls) ++ rest). rewrite <- El.
    change (Value.List l) with (Value.List ([] ++ l)) at 2. apply (elements_parsed p stack rest c fuel n Hc Hrest (L + 1)); try done. by apply Forall_and.
  - destruct (yaml_ok_lines L _ Hok c) as (t & ls & El). pose proof Hok as Hok'. inversion Hok as [| |? ? HL _ Hz Hs Hm]; subst; [done|].
    change (rounds (Value.Dict m) + fuel)%nat with (S (list_sum (map (fun e => element_rounds (snd e)) m) + fuel)). cbn [Yaml.parse_loop]. rewrite Hp.
    cbn [empty_of Value.dict Value.of_type]. unfold Yaml.parseObject. rewrite El. cbn [token_lines map app fst]. unfold column. change (-1 =? -1) with true. cbv iota.
    change ((c, Yaml.tokenizer (snd (c, t))) :: map ?f ls ++ rest) with (token_lines ((c, t) :: ls) ++ rest). rewrite <- El.
    change (Value.Dict m) with (Value.Dict ([] ++ m)) at 2. apply (entries_parsed p stack rest c fuel n Hc Hrest (L + 1)); try done.
    apply Forall_forall. intros e He. rewrite Forall_forall in Hm, IH. split; [by apply Hm|]. split; [by apply Hm|by apply IH].
Qed.

Lemma parse_queue_lines L v rounds_ n : container v = true -> yaml_ok L v -> (rounds v <= rounds_)%nat -> (length (lines 0 v) <= n)%nat ->
  Yaml.parse_queue rounds_ n (token_lines (lines 0 v)) = Val v.
Proof.
  intros Hc Hok Hr Hn. pose proof (all_queues_parsed v L Hc Hok 0 (rounds_ - rounds v)%nat n (empty_of v) [] [] []) as Hq.
  rewrite app_nil_r in Hq. replace (rounds v + (rounds_ - rounds v))%nat with rounds_ in Hq by lia.
  assert (length (token_lines (lines 0 v)) = length (lines 0 v)) as Hlen by apply length_map.
  specialize (Hq ltac:(lia) I ltac:(lia) eq_refl). cbn [modify] in Hq.
  destruct (lines_first L v Hok 0) as (t & ls & El & Hf). rewrite El in *.
  change (token_lines ((0, t) :: ls)) with ((0, Yaml.tokenizer t) :: token_lines ls) in *. unfold Yaml.parse_queue.
  destruct (Yaml.tokenizer t) as [|t1 ts] eqn:Et; [by apply first_ok_head in Hf as [_ Hf]|].
  assert ((if bool_decide (t1 = str "-") then Value.list_ else Value.dict) = empty_of v) as ->.
  { destruct v; try done; cbn in Hf.
    - destruct Hf as (t' & [= -> ->] & _). by rewrite bool_decide_eq_true_2.
    - destruct Hf as (k' & more & [= -> ->] & _ & _ & Hk'). by rewrite bool_decide_eq_false_2. }
  refine (eq_trans Hq _). by destruct (rounds_ - rounds v)%nat.
Qed.

(** ** Reading lines *)

Definition line_ok (l : Line) : Prop :=
  0 <= fst l /\ match snd l with [] => False | c :: _ => c <> 32 end /\ Forall (fun c => c <> 13 /\ c <> 10) (snd l).

Lemma plain_line s : plain s = true -> match s with [] => False | c :: _ => c <> 32 end /\ Forall (fun c => c <> 13 /\ c <> 10) s.
Proof.
  intros Hs. destruct s as [|c s]; [done|]. apply andb_true_iff in Hs as [Hc Hs]. split.
  - apply plain_first_spec in Hc as (_ & _ & _ & _ & E). zbool. done.
  - apply List.Forall_forall. intros d Hd. rewrite forallb_forall in Hs. specialize (Hs d Hd). apply plain_rest_spec in Hs as (_ & E1 & E2). zbool. done.
Qed.

Lemma lines_ok L v : yaml_ok L v -> forall c, 0 <= c -> Forall line_ok (lines c v).
Proof.
  revert L. induction v as [|b0|z0|d0|s0|b1|l IH|m IH] using Value.value_ind; intros L Hok c Hc;
    try (inversion Hok as [? ? _ Hp _| |]; subst; apply plain_line in Hp; repeat constructor; try done; apply Hp).
  - inversion Hok as [|? ? _ _ _ Hl|]; subst; [done|]. cbn [lines]. apply Forall_concat, Forall_map, Forall_forall. intros v Hv.
    rewrite Forall_forall in IH, Hl. specialize (IH v Hv _ (Hl v Hv) (c + 2) ltac:(lia)). destruct (yaml_ok_lines _ v (Hl v Hv) (c + 2)) as (t & ls & E).
    rewrite E in *. apply Forall_cons in IH as [(_ & _ & Ht) IH]. constructor; [|exact IH]. split; [done|]. split; [done|]. cbn [snd] in *.
    apply Forall_app. split; [repeat constructor; done|exact Ht].
  - inversion Hok as [| |? ? _ _ _ _ Hm]; subst; [done|]. cbn [lines]. apply Forall_concat, Forall_map, Forall_forall. intros [k v] He.
    rewrite Forall_forall in IH, Hm. destruct (Hm _ He) as [Hk Hv]. specialize (IH _ He _ Hv (c + 2) ltac:(lia)). cbn [fst snd] in *.
    apply plain_line in Hk as [Hk1 Hk2].
    assert (forall t, Forall (fun c => c <> 13 /\ c <> 10) t -> line_ok (c, k ++ str ": " ++ t)) as Hl.
    { intros t Ht. split; [done|]. split; [by destruct k|]. cbn [snd]. apply Forall_app. split; [done|]. apply Forall_app. split; [repeat constructor; done|done]. }
    destruct (container v) eqn:Ec.
    + constructor; [|exact IH]. specialize (Hl [] ltac:(constructor)). by rewrite app_nil_r in Hl.
    + constructor; [|constructor]. apply Hl. inversion Hv as [? ? _ Hp _| |]; subst; [|done..]. by apply plain_line.
Qed.

Lemma getSpaceCount_spaces n t : match t with [] => False | c :: _ => c <> 32 end -> getSpaceCount (repeat 32 n ++ t) = Z.of_nat n.
Proof.
  intros Ht. induction n as [|n IH]; [destruct t as [|c t]; [done|]; cbn; by rewrite (proj2 (Z.eqb_neq c 32))|].
  cbn [repeat app getSpaceCount]. change (32 =? 32) with true. cbv iota. rewrite IH. lia.
Qed.

Section Reader.
Context {I : Type} `{MemInput I}.

Lemma getLine_loop_text t : Forall (fun c => c <> 13 /\ c <> 10) t -> forall fuel (input : I) builder rest, builder ++ t <> [] ->
  in_valid input -> in_content input = t ++ 10 :: rest -> (length t < fuel)%nat ->
  exists input', getLine_loop fuel input builder = Val (builder ++ t, input') /\ in_valid input' /\ in_content input' = rest.
Proof.
  induction 1 as [|c t [H13 H10] _ IH]; intros fuel input builder rest Hne Hv Hc Hf; (destruct fuel as [|fuel]; [cbn in Hf; lia|]); cbn [getLine_loop app length] in *.
  - rewrite app_nil_r in *. destruct (read_byte input 10 rest Hv Hc) as (i1 & E & V1 & C1). rewrite E, bind_Val. exists i1.
    change (1 <=? 0) with false. change (of_option ([10] !! 0%nat)) with (Val 10). rewrite bind_Val. change ((10 =? 13) || (10 =? 10)) with true. cbv iota.
    by rewrite bool_decide_eq_false_2.
  - destruct (read_byte input c (t ++ 10 :: rest) Hv Hc) as (i1 & E & V1 & C1). rewrite E, bind_Val.
    change (1 <=? 0) with false. change (of_option ([c] !! 0%nat)) with (Val c). rewrite bind_Val.
    rewrite (proj2 (Z.eqb_neq c 13)), (proj2 (Z.eqb_neq c 10)) by done. cbn [orb].
    destruct (IH fuel i1 (builder ++ [c]) rest) as (i2 & E2 & Hi2); [by rewrite <- app_assoc|done|done|lia|].
    exists i2. rewrite E2, <- app_assoc. done.
Qed.

Lemma lines_loop_text ls : Forall line_ok ls -> forall fuel (input : I) queue, in_valid input -> in_content input = concat (map line_text ls) ->
  (length (in_content input) < fuel)%nat -> lines_loop fuel input queue = Val (queue ++ token_lines ls).
Proof.
  induction 1 as [|[c t] ls (Hc & Ht & Hs) _ IH]; intros fuel input queue Hv Hi Hf; (destruct fuel as [|fuel]; [lia|]); cbn [lines_loop map concat fst snd] in *.
  - destruct (read_eof input 1 Hv ltac:(lia) Hi) as (i1 & E & _). unfold getLine. cbn [getLine_loop]. rewrite E, bind_Val.
    change (0 <=? 0) with true. cbv iota. rewrite !bind_Val. cbn [getSpaceCount token_lines map]. rewrite zdrop_0 by lia. by rewrite app_nil_r.
  - pose proof (f_equal length Hi) as Hlen. change (line_text (c, t)) with (spaces c ++ t ++ [10]) in *. rewrite !length_app in Hlen. cbn [length] in Hlen.
    rewrite <- !app_assoc, app_assoc in Hi. cbn [app] in Hi.
    destruct (getLine_loop_text (spaces c ++ t)) with (fuel := S fuel) (input := input) (builder := @nil Z) (rest := concat (map line_text ls)) as (i1 & E & V1 & C1);
      [|by destruct t, (spaces c)|done|done|rewrite length_app; lia|].
    { apply Forall_app. split; [|exact Hs]. unfold spaces. clear. induction (Z.to_nat c); constructor; done. }
    unfold getLine. rewrite E, !bind_Val. cbn [app]. cbv zeta.
    assert (getSpaceCount (spaces c ++ t) = c) as -> by (unfold spaces; rewrite (getSpaceCount_spaces _ _ Ht); lia).
    assert (zdrop c (spaces c ++ t) = t) as ->.
    { unfold spaces, zdrop. rewrite <- (repeat_length 32 (Z.to_nat c)) at 1. apply drop_app_length. }
    destruct t as [|ch t]; [done|]. rewrite IH; [|done|done|rewrite C1; lia]. by rewrite <- app_assoc.
Qed.
End Reader.

(** ** Rounds and lines are fewer than characters *)

Definition chars (ls : list Line) : nat := list_sum (map (fun l => length (snd l)) ls).

Lemma chars_app a b : chars (a ++ b) = (chars a + chars b)%nat.
Proof. unfold chars. by rewrite map_app, list_sum_app. Qed.

Lemma chars_concat {A} (f : A -> list Line) l : chars (concat (map f l)) = list_sum (map (fun x => chars (f x)) l).
Proof. induction l as [|x l IH]; [done|]. cbn [map concat]. rewrite chars_app, IH. done. Qed.

Lemma rounds_chars v : forall L c, yaml_ok L v -> (element_rounds v <= chars (lines c v))%nat.
Proof.
  assert (forall A (f g : A -> nat) l, l <> [] -> (forall x, x ∈ l -> (f x + 2 <= g x)%nat) -> (S (S (list_sum (map f l))) <= list_sum (map g l))%nat) as Hsum.
  { intros A f g l Hne Hl. assert (list_sum (map f l) + 2 * length l <= list_sum (map g l))%nat; [|destruct l; [done|cbn [length] in *; lia]].
    clear Hne. induction l as [|x l IH]; [done|]. cbn [map length]. change (list_sum (?x :: ?l)) with (x + list_sum l)%nat.
    pose proof (Hl x ltac:(left)). specialize (IH ltac:(intros y Hy; apply Hl; by right)). lia. }
  induction v as [|b0|z0|d0|s0|b1|l IH|m IH] using Value.value_ind; intros L c Hok; try (cbn; lia).
  - inversion Hok as [|? ? _ Hne _ Hl|]; subst; [done|]. change (element_rounds (Value.List l)) with (S (S (list_sum (map element_rounds l)))).
    cbn [lines]. rewrite chars_concat. apply Hsum; [done|]. intros v Hv. rewrite Forall_forall in IH, Hl. specialize (IH v Hv (L + 1) (c + 2) (Hl v Hv)).
    destruct (yaml_ok_lines _ v (Hl v Hv) (c + 2)) as (t & ls & E). rewrite E in *. unfold chars in *. cbn [dash_first map snd app str length] in *.
    change (list_sum (?x :: ?l)) with (x + list_sum l)%nat in *. lia.
  - inversion Hok as [| |? ? _ Hne _ _ Hm]; subst; [done|].
    change (element_rounds (Value.Dict m)) with (S (S (list_sum (map (fun e => element_rounds (snd e)) m)))).
    cbn [lines]. rewrite chars_concat. apply Hsum; [done|]. intros [k v] He. rewrite Forall_forall in IH, Hm. destruct (Hm _ He) as [Hk Hv].
    specialize (IH _ He (L + 1) (c + 2) Hv). cbn [fst snd] in *. destruct (container v) eqn:Ec.
    + unfold chars in *. cbn [map snd]. change (list_sum (?x :: ?l)) with (x + list_sum l)%nat. rewrite length_app. change (length (str ": ")) with 2%nat. lia.
    + rewrite (basic_rounds v Ec). unfold chars. cbn [map snd]. change (list_sum (?x :: ?l)) with (x + list_sum l)%nat. rewrite !length_app. change (length (str ": ")) with 2%nat. lia.
Qed.

Lemma chars_text ls : (chars ls + length ls <= length (concat (map line_text ls)))%nat.
Proof.
  induction ls as [|[c t] ls IH]; [done|]. cbn [map concat]. rewrite length_app. unfold chars in *. cbn [map snd length].
  change (list_sum (?x :: ?l)) with (x + list_sum l)%nat. change (line_text (c, t)) with (spaces c ++ t ++ [10]). rewrite !length_app. cbn [length]. lia.
Qed.

(** C16: YAML text is read back: when [Yaml::streamify] writes a list or a dictionary of plain values,
    less than 512 levels deep, to a memory stream with room for the text, it succeeds, and
    [Yaml::parse] of a stream with that text returns the same value. *)
Theorem yaml_roundtrip {O I} `{MemOutput O} `{MemInput I} v (out : O) : container v = true -> yaml_ok 0 v ->
  out_valid out -> out_content out = [] -> out_room out (zlen (yaml_text v)) ->
  exists out', Yaml.streamify out v = Val (true, out') /\
    forall (input : I) fuel, in_valid input -> in_content input = out_content out' -> (length (out_content out') < fuel)%nat ->
    Yaml.parse fuel input = Val v.
Proof.
  intros Hc Hok Ho He Hr. destruct (streamify_text v out Hc Hok Ho Hr) as (o & E & _ & C & _). exists o. split; [exact E|].
  intros input fuel Hi Hin Hf. rewrite C, He in Hin, Hf. cbn [app] in Hin, Hf. unfold yaml_text in *. rewrite render_true in *.
  unfold Yaml.parse. rewrite (lines_loop_text (lines 0 v)); [|by apply (lines_ok 0)|done|done|by rewrite Hin]. rewrite bind_Val. cbn [app].
  pose proof (rounds_chars v 0 0 Hok) as Hch. rewrite (container_rounds v Hc) in Hch. pose proof (chars_text (lines 0 v)).
  apply (parse_queue_lines 0); [done|done|lia|lia].
Qed.

(** ** Documents on which the parser does not end *)

(** A line of an object that has neither two nor three tokens. *)
Lemma parseObject_stuck n c toks rest p stack root : length toks <> 2%nat -> length toks <> 3%nat ->
  Yaml.parseObject_loop n ((c, toks) :: rest) p c stack root = Undef.
Proof.
  intros H2 H3. induction n as [|n IH]; [done|]. cbn [Yaml.parseObject_loop]. rewrite Z.eqb_refl.
  destruct toks as [|t1 [|t2 [|t3 [|t4 toks]]]]; try exact IH; done.
Qed.

Lemma tokenizer_negative n : - 2 ^ 63 <= n < 0 -> Yaml.tokenizer (to_string n) = [str "-"; to_string (- n)].
Proof.
  intros Hn. assert (to_string n = 45 :: to_string (- n)) as ->.
  { unfold to_string. rewrite (proj2 (Z.ltb_lt n 0)), (proj2 (Z.ltb_ge (- n) 0)) by lia. done. }
  change (Yaml.tokenizer (45 :: ?t)) with (Yaml.tokenizer (str "- " ++ t)). rewrite tokenizer_dash. f_equal. apply tokenizer_basic.
  destruct (to_string_spec (- n) ltac:(lia)) as (_ & Hne & _). pose proof (to_string_isdigit (- n) ltac:(lia)) as Hd.
  destruct (to_string (- n)) as [|c s]; [done|]. assert (forall d, isdigit d = true -> plain_first d = true /\ plain_rest d = true) as Hdig.
  { intros d E. unfold isdigit in E. apply andb_true_iff in E as [E1 E2]. zbool. unfold plain_first, plain_rest. cbn [existsb].
    rewrite !(proj2 (Z.eqb_neq d _)) by lia. done. }
  unfold plain. apply andb_true_iff. split; [cbn [forallb] in Hd; apply andb_true_iff in Hd as [Hc _]; by apply Hdig|].
  apply forallb_forall. intros d Hi. rewrite forallb_forall in Hd. by apply Hdig, Hd.
Qed.

(** A negative number as the value of a key: the dash is a token of its own, the line has four
    tokens, and [Yaml::parse] does not end on it. *)
Theorem yaml_negative {I} `{MemInput I} k n (input : I) fuel : plain k = true -> - 2 ^ 63 <= n < 0 ->
  in_valid input -> in_content input = k ++ str ": " ++ to_string n ++ [10] -> (length (in_content input) < fuel)%nat ->
  Yaml.parse fuel input = Undef.
Proof.
  intros Hk Hn Hv Hc Hf. unfold Yaml.parse. rewrite (lines_loop_text [(0, k ++ str ": " ++ to_string n)]); [|..|done]; [|constructor; [|constructor]|done|].
  - rewrite bind_Val. cbn [app token_lines map fst snd]. rewrite (tokenizer_key k _ Hk), (tokenizer_negative n Hn). unfold Yaml.parse_queue.
    destruct fuel as [|fuel]; [done|]. rewrite (bool_decide_eq_false_2 (k = str "-")) by by apply plain_not.
    cbn [Yaml.parse_loop get]. cbn [Value.dict Value.of_type]. unfold Yaml.parseObject. change (column (-1) _) with 0. by rewrite parseObject_stuck.
  - split; [done|]. apply plain_line in Hk as [Hk1 Hk2]. split; [by destruct k|]. cbn [snd]. apply Forall_app. split; [done|]. apply Forall_app.
    split; [repeat constructor; done|]. assert (to_string n = 45 :: to_string (- n)) as ->.
    { unfold to_string. rewrite (proj2 (Z.ltb_lt n 0)), (proj2 (Z.ltb_ge (- n) 0)) by lia. done. }
    constructor; [done|]. apply List.Forall_forall. intros c Hi. pose proof (to_string_isdigit (- n) ltac:(lia)) as Hd.
    rewrite forallb_forall in Hd. specialize (Hd c Hi). unfold isdigit in Hd. zbool. lia.
  - rewrite Hc. cbn [map concat]. unfold line_text. cbn [fst snd]. change (spaces 0) with (@nil Z). cbn [app]. by rewrite app_nil_r, <- !app_assoc.
Qed.

(** ** Samples *)

(** Three levels, with lists in lists, through a buffer of 200 bytes. *)
Abbreviation sample := (Value.Dict [(str "a", Value.Int 12); (str "b", Value.List [Value.Double (S754_finite false 5629499534213120 (-51));
  Value.Dict [(str "c", Value.Null); (str "d", Value.List [Value.String (str "x y"); Value.Bool true])]; Value.List [Value.List [Value.Int 1]; Value.Int 2]])]).

Abbreviation sample_text := (concat (map (fun l => str l ++ [10]) ["a: 12"; "b: "; "  - 2.500000"; "  - c: ~"; "    d: "; "      - x y"; "      - true"; "  - - - 1"; "    - 2"]%string)).

Lemma yaml_roundtrip_witness :
  (exists out', Yaml.streamify (OutputBufferWrapper.create (repeat 0 200) 200) sample = Val (true, out') /\ out_content out' = sample_text) /\
  Yaml.parse 200 (InputBufferWrapper.create sample_text (zlen sample_text)) = Val sample.
Proof.
  destruct (yaml_roundtrip (I := InputBufferWrapper.t) sample (OutputBufferWrapper.create (repeat 0 200) 200)) as (o & E & P).
  - reflexivity.
  - repeat first [apply yaml_basic; [reflexivity|vm_compute; reflexivity|vm_compute; reflexivity] | apply yaml_list; [lia|done|vm_compute; done|]
      | apply yaml_dict; [lia|done|vm_compute; done|cbn; repeat constructor; vm_compute; done|] | apply Forall_cons; split | apply Forall_nil_2 | split; [vm_compute; reflexivity|]].
  - vm_compute; done.
  - reflexivity.
  - vm_compute; done.
  - assert (match Yaml.streamify (OutputBufferWrapper.create (repeat 0 200) 200) sample with
      Val (_, o) => out_content o = sample_text | _ => False end) as Ht by (vm_compute; reflexivity).
    rewrite E in Ht. split; [exact (ex_intro _ o (conj E Ht))|]. refine (P _ 200%nat _ _ _).
    + clear. vm_compute. done.
    + rewrite Ht. vm_compute. reflexivity.
    + rewrite Ht. apply Nat.ltb_lt. vm_compute. reflexivity.
Defined.

Lemma yaml_negative_witness : Yaml.parse 1000 (InputBufferWrapper.create (str "k: -1" ++ [10]) 6) = Undef.
Proof.
  apply (yaml_negative (str "k") (-1)); [reflexivity|lia|vm_compute; done|reflexivity|]. change (length _) with 6%nat. lia.
Defined.
