(* ===== verification/Algorithm.v ===== *)
(** * Searching for a substring

    Models [sese/text/Algorithm.cpp]: the searches that [SString] and the builders use. The
    search [BM] shifts by the last occurrence of the character that does not fit, without
    regard to what has been matched: it is right for patterns of one or two bytes; for
    longer ones it can miss an occurrence or go round in circles. *)

From S2P Require Import Prelude Text.

Definition at_ {A} (l : list A) (i : Z) : outcome A := if 0 <=? i then of_option (l !! Z.to_nat i) else Undef.

(** An [int]; its overflow is undefined. *)
Definition int32 (z : Z) : outcome Z := if swrap 32 z =? z then Val z else Undef.

(*@ sese/text/Algorithm.cpp 66-73 dist *)
(** [rest]: the characters at [i] and before it, backwards. *)
Fixpoint dist_loop (len i : Z) (rest : bytes) (ch : byte) : Z :=
  match rest with
  | [] => len
  | c :: rest => if ch =? c then len - 1 - i else dist_loop len (i - 1) rest ch
  end.

(*@ sese/text/Algorithm.cpp 61-74 dist *)
Definition dist (t : bytes) (ch : byte) : Z :=
  match rev t with
  | [] => 0
  | c :: rest => if ch =? c then zlen t else dist_loop (zlen t) (zlen t - 2) rest ch
  end.

(*@ sese/text/Algorithm.cpp 82-94 BM *)
(** [i < n] compares an [int] with a [size_t]. *)
Fixpoint BM_loop (fuel : nat) (s t : bytes) (i j : Z) : outcome Z :=
  match fuel with
  | O => Undef
  | S fuel =>
      if (0 <=? j) && (u64 i <? zlen s) then
        a ← at_ s i; b ← at_ t j;
        if a =? b then BM_loop fuel s t (i - 1) (j - 1)
        else i ← int32 (i + dist t a); BM_loop fuel s t i (zlen t - 1)
      else Val (if j <? 0 then i + 1 else -1)
  end.

(*@ sese/text/Algorithm.cpp 129-147 BM *)
(** The overload for characters with their number. *)
Definition BM_chars (fuel : nat) (s t : bytes) : outcome Z :=
  m ← int32 (zlen t); BM_loop fuel s t (m - 1) (m - 1).

(*@ sese/text/Algorithm.cpp 77-95 BM *)
Definition BM (fuel : nat) (str sub : bytes) : outcome Z := BM_chars fuel (cstr str) (cstr sub).

(*@ sese/text/Algorithm.cpp 151-154 NORMAL *)
Definition NORMAL (str sub : bytes) : Z :=
  match find (cstr sub) (cstr str) with Some i => Z.of_nat i | None => -1 end.

(*@ sese/text/Algorithm.cpp 30-32 getNext *)
(** The loop that falls back, also of [KMP]: while the characters differ. *)
Fixpoint fall_back (fuel : nat) (next : list Z) (sub : bytes) (c : byte) (k : Z) : outcome Z :=
  match fuel with
  | O => Undef
  | S fuel =>
      if k >? 0 then
        d ← at_ sub k;
        if c =? d then Val k else k ← at_ next (k - 1); fall_back fuel next sub c k
      else Val k
  end.

(*@ sese/text/Algorithm.cpp 28-38 getNext *)
(** [rest]: the characters from [i] on; [next]: the entries before. *)
Fixpoint getNext_loop (str rest : bytes) (next : list Z) : outcome (list Z) :=
  match rest with
  | [] => Val next
  | c :: rest =>
      k ← at_ next (zlen next - 1);
      k ← fall_back (S (length str)) next str c k;
      d ← at_ str k;
      getNext_loop str rest (next ++ [if c =? d then k + 1 else k])
  end.

(*@ sese/text/Algorithm.cpp 25-39 getNext *)
Definition getNext (str : bytes) : outcome (list Z) :=
  match str with [] => Val [] | _ :: rest => getNext_loop str rest [0] end.

(*@ sese/text/Algorithm.cpp 46-58 KMP *)
(** The table is that of the text. *)
Fixpoint KMP_loop (next : list Z) (sub : bytes) (i k res : Z) (rest : bytes) : outcome Z :=
  match rest with
  | [] => Val res
  | c :: rest =>
      k ← fall_back (S (length next)) next (sub ++ [0]) c k;
      d ← at_ (sub ++ [0]) k;
      let k := if c =? d then k + 1 else k in
      if k =? zlen sub then k' ← at_ next (k - 1); KMP_loop next sub (i + 1) k' (i - k + 1) rest
      else KMP_loop next sub (i + 1) k res rest
  end.

(*@ sese/text/Algorithm.cpp 41-59 KMP *)
Definition KMP (str sub : bytes) : outcome Z :=
  next ← getNext (cstr str); KMP_loop next (cstr sub) 0 0 (-1) (cstr str).

Example bm_hello : BM 100 (str "Hello, World") (str "World") = Val 7.
Proof. vm_compute. reflexivity. Qed.

(** [KMP] finds the last occurrence where the other searches find the first, and the table
    of the text lets it miss one. *)
Example kmp_last : KMP (str "abab") (str "ab") = Val 2 /\ BM 100 (str "abab") (str "ab") = Val 0.
Proof. vm_compute. done. Qed.

(** ** What is found is there *)

Definition occurs (s t : bytes) (r : Z) : Prop := r = -1 \/ 0 <= r /\ prefixb t (drop (Z.to_nat r) s) = true.

Lemma at_drop {A} (l : list A) i x : at_ l i = Val x -> 0 <= i /\ drop (Z.to_nat i) l = x :: drop (Z.to_nat (i + 1)) l.
Proof.
  unfold at_. destruct (0 <=? i) eqn:E; [|done]. zbool. destruct (l !! Z.to_nat i) as [y|] eqn:El; [|done]. intros [= ->].
  split; [done|]. rewrite Z2Nat.inj_add, Nat.add_1_r by lia. by apply drop_S.
Qed.

Lemma BM_loop_sound fuel s t : forall i j, -1 <= j -> (j < 0 -> -1 <= i) ->
  prefixb (drop (Z.to_nat (j + 1)) t) (drop (Z.to_nat (i + 1)) s) = true -> results (occurs s t) (BM_loop fuel s t i j).
Proof.
  induction fuel as [|fuel IH]; intros i j Hj Hi Hm; [done|]. cbn [BM_loop]. destruct ((0 <=? j) && (u64 i <? zlen s)) eqn:Ec.
  - zbool. destruct (at_ s i) as [a|] eqn:Ea; [|done]. destruct (at_ t j) as [b|] eqn:Eb; [|done]. rewrite !bind_Val.
    apply at_drop in Ea as [Hi0 Ha]. apply at_drop in Eb as [Hj0 Hb]. destruct (a =? b) eqn:E.
    + zbool. subst b. apply IH; [lia|lia|]. rewrite !Z.sub_add, Ha, Hb. cbn [prefixb]. by rewrite Z.eqb_refl.
    + destruct (int32 _) as [i'|]; [|done]. rewrite bind_Val. pose proof (zlen_nonneg t). apply IH; [lia| |].
      * intros Ht. destruct t as [|x t]; [by rewrite drop_nil in Hb|]. rewrite zlen_cons in Ht. pose proof (zlen_nonneg t). lia.
      * rewrite drop_ge; [done|]. unfold zlen. lia.
  - unfold results, occurs. destruct (j <? 0) eqn:E; [|by left]. zbool. right. split; [lia|]. by replace (j + 1) with 0 in Hm by lia.
Qed.

Lemma BM_sound fuel s t : results (occurs (cstr s) (cstr t)) (BM fuel s t).
Proof.
  unfold BM, BM_chars. unfold int32. destruct (_ =? _); [|done]. rewrite bind_Val. pose proof (zlen_nonneg (cstr t)).
  apply BM_loop_sound; [lia|lia|]. rewrite drop_ge; [done|]. unfold zlen. lia.
Qed.

(** ** Patterns of one or two bytes *)

Definition found (pre : bytes) (o : option nat) : outcome Z :=
  Val (match o with Some k => zlen pre + Z.of_nat k | None => -1 end).

Lemma found_next pre a o : found pre (S <$> o) = found (pre ++ [a]) o.
Proof. unfold found. rewrite zlen_app. change (zlen [a]) with 1. destruct o as [k|]; [|done]. cbn [fmap option_fmap option_map]. f_equal. lia. Qed.

Lemma at_next pre (a : byte) rest i : i = zlen pre -> at_ (pre ++ a :: rest) i = Val a.
Proof.
  intros ->. unfold at_, zlen. rewrite (proj2 (Z.leb_le 0 _)) by lia. rewrite Nat2Z.id. by rewrite list_lookup_middle.
Qed.

Lemma int32_small z : - 2 ^ 31 <= z < 2 ^ 31 -> int32 z = Val z.
Proof.
  intros Hz. unfold int32, swrap. change (2 ^ (32 - 1)) with (2 ^ 31). rewrite Z.mod_small by lia.
  by rewrite (proj2 (Z.eqb_eq _ _)) by lia.
Qed.

(** A character inside the text, and the end of the text. *)
Lemma loop_inside fuel pre a rest t i j : i = zlen pre -> 0 <= j -> zlen (pre ++ a :: rest) < 2 ^ 31 - 2 ->
  BM_loop (S fuel) (pre ++ a :: rest) t i j =
  (b ← at_ t j; if a =? b then BM_loop fuel (pre ++ a :: rest) t (i - 1) (j - 1)
    else i ← int32 (i + dist t a); BM_loop fuel (pre ++ a :: rest) t i (zlen t - 1)).
Proof.
  intros Hi Hj Hz. cbn [BM_loop]. rewrite zlen_app, zlen_cons in Hz. pose proof (zlen_nonneg pre). pose proof (zlen_nonneg rest).
  rewrite (wrap_small 64) by (unfold is_u; lia). rewrite (proj2 (Z.leb_le 0 j) Hj).
  rewrite (proj2 (Z.ltb_lt i _)) by (rewrite zlen_app, zlen_cons; lia). cbn [andb]. by rewrite at_next.
Qed.

Lemma loop_outside fuel s t i j : zlen s <= i < 2 ^ 31 -> 0 <= j -> BM_loop (S fuel) s t i j = Val (-1).
Proof.
  intros Hi Hj. cbn [BM_loop]. pose proof (zlen_nonneg s). rewrite (wrap_small 64) by (unfold is_u; lia).
  rewrite (proj2 (Z.ltb_ge i _)) by lia. rewrite andb_false_r. by rewrite (proj2 (Z.ltb_ge j 0)).
Qed.

Lemma BM_one x : forall rest pre fuel, zlen (pre ++ rest) < 2 ^ 31 - 2 -> (length rest + 2 < fuel)%nat ->
  BM_loop fuel (pre ++ rest) [x] (zlen pre) 0 = found pre (find [x] rest).
Proof.
  induction rest as [|a rest IH]; intros pre [|[|fuel]] Hz Hf; cbn [length] in Hf; try lia.
  - rewrite app_nil_r in *. pose proof (zlen_nonneg pre). by rewrite loop_outside by lia.
  - rewrite loop_inside by lia. change (at_ [x] 0) with (Val x). rewrite bind_Val. cbn [find prefixb]. rewrite andb_true_r, (Z.eqb_sym x a).
    destruct (a =? x) eqn:E.
    + cbn [BM_loop]. cbn [Z.leb Z.sub]. change (0 <=? 0 - 1) with false. cbn [andb]. change (0 - 1 <? 0) with true. unfold found. cbv iota. f_equal. lia.
    + rewrite zlen_app, zlen_cons in Hz. pose proof (zlen_nonneg pre). pose proof (zlen_nonneg rest).
      assert (dist [x] a = 1) as -> by (cbn; by rewrite E). rewrite int32_small, bind_Val by lia. rewrite (found_next pre a).
      change (zlen [x] - 1) with 0. replace (zlen pre + 1) with (zlen (pre ++ [a])) by (rewrite zlen_app; done).
      change (a :: rest) with ([a] ++ rest). rewrite app_assoc. apply IH; [|lia]. rewrite <- app_assoc, zlen_app. change (zlen ([a] ++ rest)) with (zlen (a :: rest)). rewrite zlen_cons. lia.
Qed.

Lemma dist_two x y a : (a =? y) = false -> dist [x; y] a = if a =? x then 1 else 2.
Proof. intros E. unfold dist. cbn [rev app dist_loop]. rewrite E. by destruct (a =? x). Qed.

(** The next window. *)
Lemma window_next x y fuel pre a rest : (forall pre, zlen (pre ++ rest) < 2 ^ 31 - 2 ->
    BM_loop fuel (pre ++ rest) [x; y] (zlen pre + 1) 1 = found pre (find [x; y] rest)) ->
  zlen (pre ++ a :: rest) < 2 ^ 31 - 2 ->
  BM_loop fuel (pre ++ a :: rest) [x; y] (zlen pre + 2) 1 = found pre (S <$> find [x; y] rest).
Proof.
  intros IH Hz. rewrite (found_next pre a). replace (zlen pre + 2) with (zlen (pre ++ [a]) + 1) by (rewrite zlen_app; change (zlen [a]) with 1; lia).
  change (a :: rest) with ([a] ++ rest) in *. rewrite app_assoc in *. by apply IH.
Qed.

Lemma BM_two x y : forall n rest pre fuel, (length rest <= n)%nat -> zlen (pre ++ rest) < 2 ^ 31 - 2 -> (2 * length rest + 2 < fuel)%nat ->
  BM_loop fuel (pre ++ rest) [x; y] (zlen pre + 1) 1 = found pre (find [x; y] rest).
Proof.
  induction n as [|n IH]; intros [|a [|b rest]] pre [|[|[|fuel]]] Hn Hz Hf; cbn [length] in Hn, Hf; try lia.
  1, 2: rewrite app_nil_r in *; pose proof (zlen_nonneg pre); by rewrite loop_outside by lia.
  { rewrite zlen_app in Hz. change (zlen [a]) with 1 in Hz. pose proof (zlen_nonneg pre).
    rewrite loop_outside by (rewrite ?zlen_app; change (zlen [a]) with 1; lia). cbn [find prefixb]. by rewrite andb_false_r. }
  assert (pre ++ a :: b :: rest = (pre ++ [a]) ++ b :: rest) as E2 by (by rewrite <- app_assoc).
  assert (zlen (pre ++ [a]) = zlen pre + 1) as El by (rewrite zlen_app; done).
  assert (0 <= zlen pre /\ zlen pre + 2 < 2 ^ 31 - 2) as Hpre.
  { rewrite zlen_app, !zlen_cons in Hz. pose proof (zlen_nonneg pre). pose proof (zlen_nonneg rest). lia. }
  assert (forall m, (m <= n)%nat -> forall f, (2 * m + 2 < f)%nat -> m = length (b :: rest) -> forall pre', zlen (pre' ++ b :: rest) < 2 ^ 31 - 2 ->
    BM_loop f (pre' ++ b :: rest) [x; y] (zlen pre' + 1) 1 = found pre' (find [x; y] (b :: rest))) as IH1.
  { intros m Hm f Hf' -> pre' Hz'. by apply IH. }
  specialize (IH1 (length (b :: rest)) ltac:(cbn; lia)).
  rewrite E2 at 1. rewrite loop_inside by (lia || by rewrite <- E2). rewrite <- E2. change (at_ [x; y] 1) with (Val y). rewrite bind_Val.
  cbn [find]. cbn [prefixb]. rewrite (Z.eqb_sym x a), (Z.eqb_sym y b), andb_true_r. destruct (b =? y) eqn:Eb.
  - replace (zlen pre + 1 - 1) with (zlen pre) by lia. change (1 - 1) with 0. rewrite loop_inside by lia. change (at_ [x; y] 0) with (Val x). rewrite bind_Val, andb_true_r.
    destruct (a =? x) eqn:Ea.
    + cbn [BM_loop]. change (0 <=? 0 - 1) with false. cbn [andb]. change (0 - 1 <? 0) with true. unfold found. cbv iota. f_equal. lia.
    + assert (dist [x; y] a = 2) as ->.
      { destruct (a =? y) eqn:Ey; [|by rewrite dist_two, Ea]. unfold dist. cbn [rev app]. by rewrite Ey. }
      rewrite int32_small, bind_Val by lia. change (zlen [x; y] - 1) with 1. change (find [x; y] (b :: rest)) with (find [x; y] (b :: rest)).
      apply window_next; [|done]. apply IH1; [cbn; lia|done].
  - rewrite dist_two by done. rewrite andb_false_r. destruct (b =? x) eqn:Ex.
    + rewrite int32_small, bind_Val by lia. change (zlen [x; y] - 1) with 1. replace (zlen pre + 1 + 1) with (zlen pre + 2) by lia.
      apply (window_next x y _ pre a (b :: rest)); [|done]. apply IH1; [cbn; lia|done].
    + rewrite int32_small, bind_Val by lia. change (zlen [x; y] - 1) with 1. replace (zlen pre + 1 + 2) with (zlen (pre ++ [a]) + 2) by lia.
      rewrite (found_next pre a), E2. cbn [find prefixb]. rewrite (Z.eqb_sym x b), Ex. cbn [andb].
      apply window_next; [|by rewrite <- E2]. intros pre' Hz'. apply IH; [cbn in Hn; lia|done|cbn in Hf; lia].
Qed.

Lemma BM_short (s t : bytes) fuel : zlen (cstr t) <= 2 -> zlen (cstr s) < 2 ^ 31 - 2 -> (2 * length (cstr s) + 2 < fuel)%nat ->
  BM fuel s t = Val (NORMAL s t).
Proof.
  intros Ht Hs Hf. unfold BM, BM_chars, NORMAL.
  rewrite int32_small, bind_Val by (pose proof (zlen_nonneg (cstr t)); lia).
  destruct (cstr t) as [|x [|y [|z u]]].
  - destruct fuel as [|fuel]; [lia|]. cbn [BM_loop]. change (zlen (@nil Z) - 1) with (-1). cbn [Z.leb andb]. by destruct (cstr s).
  - apply (BM_one x (cstr s) []); [done|lia].
  - apply (BM_two x y (length (cstr s)) (cstr s) []); done || lia.
  - rewrite !zlen_cons in Ht. pose proof (zlen_nonneg u). lia.
Qed.

(** C23: The search [BM] for a pattern of at most two bytes finds its first occurrence as [strstr]
    does, in a number of steps that the text bounds; whatever the pattern, an index that it
    returns is that of an occurrence. *)
Theorem bm_correct (s t : bytes) :
  (forall fuel, results (occurs (cstr s) (cstr t)) (BM fuel s t)) /\
  (zlen (cstr t) <= 2 -> zlen (cstr s) < 2 ^ 31 - 2 -> forall fuel, (2 * length (cstr s) + 2 < fuel)%nat -> BM fuel s t = Val (NORMAL s t)).
Proof. split; [intros fuel; apply BM_sound|]. intros Ht Hs fuel Hf. by apply BM_short. Qed.

Lemma bm_correct_witness : BM 40 (str "key=value; other") (str "; ") = Val (NORMAL (str "key=value; other") (str "; ")) /\ NORMAL (str "key=value; other") (str "; ") = 9.
Proof.
  split; [|reflexivity]. apply (bm_correct (str "key=value; other") (str "; ")); [vm_compute; discriminate|vm_compute; reflexivity|].
  apply Nat.ltb_lt. vm_compute. reflexivity.
Defined.

(** A search for three bytes that never ends, and one for four bytes that misses an
    occurrence. *)
Lemma bm_longer_patterns : (forall fuel, BM fuel (str "aab") (str "cab") = Undef) /\
  BM 100 (str "xxbbab") (str "bbab") = Val (-1) /\ NORMAL (str "xxbbab") (str "bbab") = 2.
Proof.
  split; [|vm_compute; done]. intros fuel. unfold BM. change (cstr (str "aab")) with (str "aab"). change (cstr (str "cab")) with (str "cab").
  change (BM_chars fuel (str "aab") (str "cab")) with (BM_loop fuel (str "aab") (str "cab") 2 2).
  enough (forall n f, (f <= n)%nat -> BM_loop f (str "aab") (str "cab") 2 2 = Undef) by eauto. clear.
  induction n as [|n IH]; intros f Hf; [by destruct f; [|lia]|]. destruct f as [|[|[|[|f]]]]; [done..|]. apply (IH f). lia.
Qed.
