(* ===== verification/Utf8.v ===== *)
(** * UTF-8

    Models the functions on characters of [sese/text/SString.cpp]. A pointer into a string is
    the bytes from it on, so a read past the end of the memory is undefined. *)

From S2P Require Import Prelude Text Words Algorithm.

(** The length of the C string in a block of memory. *)
Definition strlen (mem : bytes) : outcome Z := if existsb (Z.eqb 0) mem then Val (zlen (cstr mem)) else Undef.

(*@ sese/text/SString.cpp 35-41 getByteLengthFromUTF8String *)
Definition getByteLengthFromUTF8String (str : bytes) : outcome Z := strlen str.

(*@ sese/text/SString.cpp 56-68 getSizeFromUTF8Char *)
Definition getSizeFromUTF8Char (ch : byte) : Z :=
  if Z.land ch 128 =? 0 then 1
  else if Z.land ch 224 =? 192 then 2
  else if Z.land ch 240 =? 224 then 3
  else if Z.land ch 248 =? 240 then 4
  else -1.

(*@ sese/text/SString.cpp 43-53 getStringLengthFromUTF8String *)
Fixpoint string_length_loop (fuel : nat) (str : bytes) (i len : Z) : outcome Z :=
  match fuel with
  | O => Undef
  | S fuel =>
      c ← at_ str i;
      if c =? 0 then Val len
      else
        let n := getSizeFromUTF8Char c in
        if n =? -1 then Val len else string_length_loop fuel str (i + n) (len + 1)
  end.
Definition getStringLengthFromUTF8String (str : bytes) : outcome Z := string_length_loop (S (length str)) str 0 0.

(*@ sese/text/SString.cpp 70-82 getUTF8SizeFromUnicodeChar *)
Definition getUTF8SizeFromUnicodeChar (ch : Z) : Z :=
  if ch <=? 127 then 1
  else if (ch >? 127) && (ch <=? 2047) then 2
  else if (ch >? 2047) && (ch <=? 65535) then 3
  else if (ch >? 65535) && (ch <=? 524287) then 4
  else -1.

(*@ sese/text/SString.cpp 93-106 getUnicodeCharFromUTF8Char *)
Definition getUnicodeCharFromUTF8Char (size : Z) (ch : bytes) : outcome Z :=
  if size =? 1 then c0 ← at_ ch 0; Val (Z.land c0 127)
  else if size =? 2 then
    c0 ← at_ ch 0; c1 ← at_ ch 1;
    Val (Z.lor (Z.shiftl (Z.land c0 31) 6) (Z.land c1 63))
  else if size =? 3 then
    c0 ← at_ ch 0; c1 ← at_ ch 1; c2 ← at_ ch 2;
    Val (Z.lor (Z.lor (Z.shiftl (Z.land c0 15) 12) (Z.shiftl (Z.land c1 63) 6)) (Z.land c2 63))
  else if size =? 4 then
    c0 ← at_ ch 0; c1 ← at_ ch 1; c2 ← at_ ch 2; c3 ← at_ ch 3;
    Val (Z.lor (Z.lor (Z.lor (Z.shiftl (Z.land c0 7) 18) (Z.shiftl (Z.land c1 63) 12)) (Z.shiftl (Z.land c2 63) 6)) (Z.land c3 63))
  else Val 0.

(*@ sese/text/SString.cpp 113-132 insertUnicodeChar2UTF8String *)
(** The bytes that are stored; nothing is for another [n]. *)
Definition code_bytes (code n : Z) : bytes :=
  if n =? 1 then [Z.land 127 code]
  else if n =? 2 then
    [Z.lor 192 (Z.shiftr (Z.land 1984 code) 6); Z.lor 128 (Z.land 63 code)]
  else if n =? 3 then
    [Z.lor 224 (Z.shiftr (Z.land 61440 code) 12); Z.lor 128 (Z.shiftr (Z.land 4032 code) 6); Z.lor 128 (Z.land 63 code)]
  else if n =? 4 then
    [Z.lor 240 (Z.shiftr (Z.land 1835008 code) 18); Z.lor 128 (Z.shiftr (Z.land 258048 code) 12);
     Z.lor 128 (Z.shiftr (Z.land 4032 code) 6); Z.lor 128 (Z.land 63 code)]
  else [].
Definition insertUnicodeChar2UTF8String (mem : bytes) (destination code n : Z) : outcome bytes :=
  memcpy mem destination (code_bytes code n).

(*@ sese/text/SString.cpp 134-136 getUnicodeFromUTF8Char *)
Definition getUnicodeFromUTF8Char (u8char : bytes) : outcome Z :=
  c ← at_ u8char 0; getUnicodeCharFromUTF8Char (getSizeFromUTF8Char c) u8char.

(*@ sese/text/SString.cpp 142-159 at *)
(** The offset of the character [begin], [None] for the null pointer; [i] is the number of
    the character before [p]. *)
Fixpoint at_loop (fuel : nat) (str : bytes) (begin p i : Z) : outcome (option Z) :=
  match fuel with
  | O => Undef
  | S fuel =>
      c ← at_ str p;
      if c =? 0 then Val None
      else
        let i := i + 1 in
        if u64 i =? begin then Val (Some p) else at_loop fuel str begin (p + getSizeFromUTF8Char c) i
  end.
Definition at_char (str : bytes) (begin : Z) : outcome (option Z) := at_loop (S (length str)) str begin 0 (-1).

(*@ sese/text/SString.cpp 161-166 toLower *)
Fixpoint toLower (str : bytes) : outcome bytes :=
  match str with
  | [] => Undef
  | c :: rest =>
      if c =? 0 then Val str
      else rest ← toLower rest; Val ((if (65 <=? c) && (c <=? 90) then c + 32 else c) :: rest)
  end.

(*@ sese/text/SString.cpp 168-173 toUpper *)
Fixpoint toUpper (str : bytes) : outcome bytes :=
  match str with
  | [] => Undef
  | c :: rest =>
      if c =? 0 then Val str
      else rest ← toUpper rest; Val ((if (97 <=? c) && (c <=? 122) then c - 32 else c) :: rest)
  end.

(** ** The encoding *)

(** UTF-8 by arithmetic. *)
Definition utf8 (c : Z) : bytes :=
  if c <? 128 then [c]
  else if c <? 2048 then [192 + c / 64; 128 + c mod 64]
  else if c <? 65536 then [224 + c / 4096; 128 + c / 64 mod 64; 128 + c mod 64]
  else [240 + c / 262144; 128 + c / 4096 mod 64; 128 + c / 64 mod 64; 128 + c mod 64].

(** The characters the code encodes: not NUL, and below U+80000. *)
Definition char_ok (c : Z) : Prop := 1 <= c < 524288.

Lemma land_mask_shift m code k : 0 <= k -> Z.shiftr (Z.land (Z.shiftl (Z.ones m) k) code) k = Z.land (Z.ones m) (Z.shiftr code k).
Proof. intros Hk. rewrite Z.shiftr_land, Z.shiftr_shiftl_l, Z.sub_diag, Z.shiftl_0_r by lia. done. Qed.

Lemma land_ones_l x n : 0 <= n -> Z.land (Z.ones n) x = x mod 2 ^ n.
Proof. intros Hn. by rewrite Z.land_comm, Z.land_ones. Qed.

(** The prefix bits of a byte. *)
Lemma tag_add t k x : 0 <= k -> 0 <= x < 2 ^ k -> t mod 2 ^ k = 0 -> Z.lor t x = t + x.
Proof.
  intros Hk Hx Ht. rewrite Z.lor_comm. assert (t = t / 2 ^ k * 2 ^ k) as E by (pose proof (Z.div_mod t (2 ^ k) ltac:(lia)); lia).
  rewrite E at 1. rewrite lor_add by done. lia.
Qed.

Lemma code_bytes_utf8 c : char_ok c -> code_bytes c (getUTF8SizeFromUnicodeChar c) = utf8 c.
Proof.
  intros Hc. unfold char_ok in Hc. unfold code_bytes, getUTF8SizeFromUnicodeChar, utf8. rewrite !Z.gtb_ltb.
  change 1984 with (Z.shiftl (Z.ones 5) 6). change 61440 with (Z.shiftl (Z.ones 4) 12). change 4032 with (Z.shiftl (Z.ones 6) 6).
  change 1835008 with (Z.shiftl (Z.ones 3) 18). change 258048 with (Z.shiftl (Z.ones 6) 12).
  rewrite !land_mask_shift by lia. change (Z.land 127 c) with (Z.land (Z.ones 7) c). change (Z.land 63 c) with (Z.land (Z.ones 6) c). rewrite !land_ones_l, !Z.shiftr_div_pow2 by lia.
  change (2 ^ 6) with 64. change (2 ^ 12) with 4096. change (2 ^ 18) with 262144. change (2 ^ 3) with 8. change (2 ^ 4) with 16. change (2 ^ 5) with 32. change (2 ^ 7) with 128.
  destruct (c <? 128) eqn:E1; zbool.
  { rewrite (proj2 (Z.leb_le c 127)) by lia. cbn [Z.eqb Pos.eqb]. by rewrite Z.mod_small by lia. }
  rewrite (proj2 (Z.leb_gt c 127)), (proj2 (Z.ltb_lt 127 c)) by lia.
  destruct (c <? 2048) eqn:E2; zbool.
  { rewrite (proj2 (Z.leb_le c 2047)) by lia. cbn [andb Z.eqb Pos.eqb].
    rewrite (tag_add 192 5), (tag_add 128 6), (Z.mod_small (c / 64) 32) by (done || dlia). done. }
  rewrite (proj2 (Z.leb_gt c 2047)), (proj2 (Z.ltb_lt 2047 c)) by lia.
  destruct (c <? 65536) eqn:E3; zbool.
  { rewrite (proj2 (Z.leb_le c 65535)) by lia. cbn [andb Z.eqb Pos.eqb].
    rewrite (tag_add 224 4), !(tag_add 128 6), (Z.mod_small (c / 4096) 16) by (done || dlia). done. }
  rewrite (proj2 (Z.leb_gt c 65535)), (proj2 (Z.ltb_lt 65535 c)), (proj2 (Z.leb_le c 524287)) by lia. cbn [andb Z.eqb Pos.eqb].
  rewrite (tag_add 240 3), !(tag_add 128 6), (Z.mod_small (c / 262144) 8) by (done || dlia). done.
Qed.

Lemma utf8_size c : char_ok c -> zlen (utf8 c) = getUTF8SizeFromUnicodeChar c.
Proof.
  intros Hc. unfold char_ok in Hc. unfold getUTF8SizeFromUnicodeChar, utf8. rewrite !Z.gtb_ltb.
  destruct (c <? 128) eqn:E1, (c <=? 127) eqn:F1; zbool; try lia; [done|].
  destruct (c <? 2048) eqn:E2, (c <=? 2047) eqn:F2; zbool; try lia; rewrite (proj2 (Z.ltb_lt 127 c)) by lia; [done|].
  destruct (c <? 65536) eqn:E3, (c <=? 65535) eqn:F3; zbool; try lia; rewrite (proj2 (Z.ltb_lt 2047 c)) by lia; [done|].
  by rewrite (proj2 (Z.ltb_lt 65535 c)), (proj2 (Z.leb_le c 524287)) by lia.
Qed.

(** ** Reading it back *)

Lemma lead_size x : 0 <= x < 256 -> getSizeFromUTF8Char x =
  if x <? 128 then 1 else if x <? 192 then -1 else if x <? 224 then 2 else if x <? 240 then 3 else if x <? 248 then 4 else -1.
Proof.
  intros Hx. assert (forallb (fun x => getSizeFromUTF8Char x =?
    if x <? 128 then 1 else if x <? 192 then -1 else if x <? 224 then 2 else if x <? 240 then 3 else if x <? 248 then 4 else -1) (seqZ 0 256) = true) as H
    by (vm_compute; reflexivity).
  apply Z.eqb_eq. exact (forallb_seqZ _ 256 H x Hx).
Qed.

Lemma join_bits x y k : 0 <= k -> 0 <= y < 2 ^ k -> Z.lor (Z.shiftl x k) y = x * 2 ^ k + y.
Proof. intros Hk Hy. rewrite Z.lor_comm, Z.shiftl_mul_pow2, lor_add by lia. lia. Qed.

(** Decides the tests of a literal against bounds. *)
Ltac zif := repeat (ifcase; try (reflexivity || (exfalso; lia))).

Lemma utf8_cases c (P : bytes -> Prop) : char_ok c ->
  (c < 128 -> P [c]) ->
  (forall q r, c = q * 64 + r -> 2 <= q < 32 -> 0 <= r < 64 -> P [192 + q; 128 + r]) ->
  (forall q r s, c = (q * 64 + r) * 64 + s -> 0 <= q < 16 -> 0 <= r < 64 -> 0 <= s < 64 -> P [224 + q; 128 + r; 128 + s]) ->
  (forall q r s t, c = ((q * 64 + r) * 64 + s) * 64 + t -> 0 <= q < 2 -> 0 <= r < 64 -> 0 <= s < 64 -> 0 <= t < 64 ->
    P [240 + q; 128 + r; 128 + s; 128 + t]) -> P (utf8 c).
Proof.
  intros Hc H1 H2 H3 H4. unfold char_ok in Hc. unfold utf8. destruct (c <? 128) eqn:E1; zbool; [auto|].
  destruct (c <? 2048) eqn:E2; zbool; [apply H2; dlia|]. destruct (c <? 65536) eqn:E3; zbool; [apply H3; dlia|]. apply H4; dlia.
Qed.

(** The first byte tells the length, and the bytes the character. *)
Lemma utf8_decode c rest : char_ok c ->
  (exists b l, utf8 c = b :: l /\ b <> 0 /\ getSizeFromUTF8Char b = zlen (utf8 c)) /\
  getUnicodeCharFromUTF8Char (zlen (utf8 c)) (utf8 c ++ rest) = Val c.
Proof.
  intros Hc. apply (utf8_cases c (fun l => (exists b l', l = b :: l' /\ b <> 0 /\ getSizeFromUTF8Char b = zlen l) /\
    getUnicodeCharFromUTF8Char (zlen l) (l ++ rest) = Val c)); try done; unfold char_ok in Hc.
  - intros H. split.
    + exists c, []. rewrite lead_size by lia. split_and!; [done|lia|]. by rewrite (proj2 (Z.ltb_lt c 128)).
    + cbn [app]. change (getUnicodeCharFromUTF8Char (zlen [c]) (c :: rest)) with (Val (Z.land c 127)).
      change 127 with (Z.ones 7). rewrite Z.land_ones by lia. by rewrite Z.mod_small by lia.
  - intros q r -> Hq Hr. split.
    + eexists _, _. split_and!; [done|lia|]. rewrite lead_size by lia. zif.
    + change (getUnicodeCharFromUTF8Char _ _) with (Val (Z.lor (Z.shiftl (Z.land (192 + q) 31) 6) (Z.land (128 + r) 63))).
      change 31 with (Z.ones 5). change 63 with (Z.ones 6). rewrite !Z.land_ones by lia.
      replace ((192 + q) mod 2 ^ 5) with q by dlia. replace ((128 + r) mod 2 ^ 6) with r by dlia. rewrite join_bits by lia. f_equal.
  - intros q r s -> Hq Hr Hs. split.
    + eexists _, _. split_and!; [done|lia|]. rewrite lead_size by lia. zif.
    + change (getUnicodeCharFromUTF8Char _ _) with
        (Val (Z.lor (Z.lor (Z.shiftl (Z.land (224 + q) 15) 12) (Z.shiftl (Z.land (128 + r) 63) 6)) (Z.land (128 + s) 63))).
      change 15 with (Z.ones 4). change 63 with (Z.ones 6). rewrite !Z.land_ones by lia.
      replace ((224 + q) mod 2 ^ 4) with q by dlia. replace ((128 + r) mod 2 ^ 6) with r by dlia. replace ((128 + s) mod 2 ^ 6) with s by dlia.
      rewrite (join_bits q) by (rewrite ?Z.shiftl_mul_pow2; lia). rewrite !Z.shiftl_mul_pow2 by lia. 
      replace (q * 2 ^ 12 + r * 2 ^ 6) with (Z.shiftl (q * 64 + r) 6) by (rewrite Z.shiftl_mul_pow2; lia). rewrite join_bits by lia. f_equal; lia.
  - intros q r s t -> Hq Hr Hs Ht. split.
    + eexists _, _. split_and!; [done|lia|]. rewrite lead_size by lia. zif.
    + change (getUnicodeCharFromUTF8Char _ _) with
        (Val (Z.lor (Z.lor (Z.lor (Z.shiftl (Z.land (240 + q) 7) 18) (Z.shiftl (Z.land (128 + r) 63) 12)) (Z.shiftl (Z.land (128 + s) 63) 6)) (Z.land (128 + t) 63))).
      change 7 with (Z.ones 3). change 63 with (Z.ones 6). rewrite !Z.land_ones by lia.
      replace ((240 + q) mod 2 ^ 3) with q by dlia. replace ((128 + r) mod 2 ^ 6) with r by dlia. replace ((128 + s) mod 2 ^ 6) with s by dlia.
      replace ((128 + t) mod 2 ^ 6) with t by dlia.
      rewrite (join_bits q) by (rewrite ?Z.shiftl_mul_pow2; lia). rewrite !Z.shiftl_mul_pow2 by lia.
      replace (q * 2 ^ 18 + r * 2 ^ 12) with (Z.shiftl (q * 64 + r) 12) by (rewrite Z.shiftl_mul_pow2; lia). rewrite join_bits by lia.
      replace ((q * 64 + r) * 2 ^ 12 + s * 2 ^ 6) with (Z.shiftl ((q * 64 + r) * 64 + s) 6) by (rewrite Z.shiftl_mul_pow2; lia).
      rewrite join_bits by lia. f_equal; lia.
Qed.
