(* ===== verification/SString.v ===== *)
(** * Unicode strings

    Models the classes [SStringView] and [SString] of [sese/text/SString.{h,cpp}]: a block of
    memory with UTF-8 text and a terminating NUL, its size in bytes, and for a string its
    capacity. A [const char *] argument is the memory from the pointer on. Copying nothing
    from the null pointer is taken for no operation. *)

From S2P Require Import Prelude Text Words Algorithm Utf8.

Module SString.

Definition BLOCK_SIZE : Z := 16.

(*@ sese/text/SString.h 249-287 SString *)
(** [data] is [None] for the null pointer; the capacity of a view is not used. *)
Record t := Make { data : option bytes; _size : Z; _capacity : Z }.

(*@ sese/text/SString.cpp 259-259 SString::SString *)
Definition null : t := Make None 0 0.

Definition mem (s : t) : outcome bytes := of_option (data s).

(** The capacity for a number of bytes. *)
Definition blocks (size : Z) : Z := u64 ((size / BLOCK_SIZE + 1) * BLOCK_SIZE).

(** [_data[size] = 0]. *)
Definition terminate (m : bytes) (size : Z) : outcome bytes := memcpy m size [0].

(** The bytes that [memcpy] reads from a string. *)
Definition source (s : t) (size : Z) : outcome bytes :=
  match data s with Some m => memread m 0 size | None => if size =? 0 then Val [] else Undef end.

(*@ sese/text/SString.cpp 261-267 SString::SString *)
Definition of_bytes (str : bytes) (size : Z) : outcome t :=
  src ← memread str 0 size;
  m ← memcpy (malloc (blocks size)) 0 src;
  m ← terminate m size;
  Val (Make (Some m) size (blocks size)).

(*@ sese/text/SString.cpp 269-274 SString::SString *)
Definition copy (s : t) : outcome t :=
  src ← source s (_size s + 1);
  m ← memcpy (malloc (_capacity s)) 0 src;
  Val (Make (Some m) (_size s) (_capacity s)).

(*@ sese/text/SString.cpp 276-284 SString::SString *)
(** The new string, and what is left of the old one. *)
Definition move (s : t) : t * t := (s, null).

(*@ sese/text/SString.cpp 294-303 SString::fromUTF8 *)
Definition fromUTF8 (str : bytes) : outcome t :=
  size ← getByteLengthFromUTF8String str;
  let n := size / BLOCK_SIZE + 1 in
  src ← memread str 0 size;
  m ← memcpy (malloc (n * (n * BLOCK_SIZE))) 0 src;
  m ← terminate m size;
  Val (Make (Some m) size (n * BLOCK_SIZE)).

(*@ sese/text/SString.cpp 316-320 SString::fromSChars *)
Fixpoint store_chars (m : bytes) (index : Z) (chars : list Z) : outcome bytes :=
  match chars with
  | [] => Val m
  | c :: chars =>
      let n := getUTF8SizeFromUnicodeChar c in
      m ← insertUnicodeChar2UTF8String m index c n;
      store_chars m (index + n) chars
  end.

(*@ sese/text/SString.cpp 305-342 SString::fromSChars *)
Definition fromSChars (chars : list Z) : outcome t :=
  let size := u64 (foldr (fun c n => getUTF8SizeFromUnicodeChar c + n) 0 chars) in
  m ← store_chars (malloc (blocks size)) 0 chars;
  m ← terminate m size;
  Val (Make (Some m) size (blocks size)).

(*@ sese/text/SString.cpp 344-375 SString::fromUCS2LE *)
(** Where [wchar_t] has 32 bits. *)
Definition fromUCS2LE (str : list Z) : outcome t := fromSChars (cstr str).

(*@ sese/text/SString.cpp 286-292 SString::toLower *)
(** And [toUpper]. *)
Definition modify_chars (f : bytes -> outcome bytes) (s : t) : outcome t :=
  m ← mem s; m ← f m; Val (Make (Some m) (_size s) (_capacity s)).

(** A block with the bytes of a string and more. *)
Definition joined (s : t) (more : bytes) : outcome t :=
  let size := u64 (_size s + zlen more) in
  src ← source s (_size s);
  m ← memcpy (malloc (blocks size)) 0 src;
  m ← memcpy m (_size s) more;
  m ← terminate m size;
  Val (Make (Some m) size (blocks size)).

(*@ sese/text/SString.cpp 586-597 SStringView::append *)
Definition append_cstr (s : t) (str : bytes) : outcome t :=
  len ← strlen str; more ← memread str 0 len; joined s more.
(*@ sese/text/SString.cpp 599-609 SStringView::append *)
Definition append (s : t) (str : t) : outcome t :=
  more ← source str (_size str); joined s more.
(*@ sese/text/SString.cpp 377-391 SString::operator+= *)
Definition add_cstr (s : t) (str : bytes) : outcome t := append_cstr s str.

(*@ sese/text/SString.cpp 469-472 SStringView::SStringView *)
Definition view (u8str : bytes) : outcome t :=
  size ← getByteLengthFromUTF8String u8str; Val (Make (Some u8str) size 0).

(*@ sese/text/SString.cpp 474-483 SStringView::empty *)
Definition empty (s : t) : outcome bool :=
  match data s with Some m => c ← at_ m 0; Val (c =? 0) | None => Val true end.

(*@ sese/text/SString.cpp 485-487 SStringView::size *)
Definition view_size (s : t) : outcome Z := m ← mem s; getByteLengthFromUTF8String m.
(*@ sese/text/SString.cpp 251-257 SString::size *)
(** Where the class is known. *)
Definition size (s : t) : Z := _size s.

(*@ sese/text/SString.cpp 393-406 SString::operator+= *)
(** [str.size()] is virtual: the size is that of the class of [str]. *)
Definition add (s : t) (str : t) (str_size : Z) : outcome t :=
  more ← source str str_size; joined s more.

(** [strncmp(tmp, suffix, n) == 0]. *)
Definition strncmp_eq (a b : bytes) (n : Z) : outcome bool :=
  Val (bool_decide (cstr (ztake n a) = cstr (ztake n b))).

(*@ sese/text/SString.cpp 420-430 SStringView::endsWith *)
(** [n]: the size of the suffix; also for [std::string_view]. *)
Definition endsWith (s : t) (suffix : bytes) (n : Z) : outcome bool :=
  if n >? _size s then Val false
  else m ← mem s; strncmp_eq (zdrop (_size s - n) m) suffix n.

(*@ sese/text/SString.cpp 432-440 SStringView::startsWith *)
Definition startsWith (s : t) (prefix : bytes) (n : Z) : outcome bool :=
  if _size s <? n then Val false else m ← mem s; strncmp_eq m prefix n.

(*@ sese/text/SString.cpp 443-455 SStringView::isLower *)
(** No byte strictly between the bounds: A and Z, or a and z for [isUpper]. *)
Definition no_between (lo hi : byte) (s : t) : outcome bool :=
  src ← source s (_size s); Val (negb (existsb (fun c => (lo <? c) && (c <? hi)) src)).
Definition isLower : t -> outcome bool := no_between 65 90.
Definition isUpper : t -> outcome bool := no_between 97 122.

(*@ sese/text/SString.cpp 457-467 SStringView::toLower *)
(** And [toUpper]: of a copy. *)
Definition modified_copy (f : bytes -> outcome bytes) (s : t) : outcome t :=
  m ← mem s; s ← of_bytes m (_size s); modify_chars f s.

(** The loop over the characters of a view, shared by [len] and [toChars]: the sizes
    and bytes of the characters from [i] on, until the end, a NUL, a byte that starts no
    character, or a character that is cut off. *)
Fixpoint walk (fuel : nat) (m : bytes) (size i : Z) : outcome (list (Z * bytes)) :=
  match fuel with
  | O => Undef
  | S fuel =>
      if i <? size then
        c ← at_ m i;
        if c =? 0 then Val []
        else
          let n := getSizeFromUTF8Char c in
          if n =? -1 then Val []
          else if i + n >? size then Val []
          else rest ← walk fuel m size (i + n); Val ((n, zdrop i m) :: rest)
      else Val []
  end.
Definition walk_all (s : t) : outcome (list (Z * bytes)) :=
  match data s with
  | Some m => walk (S (Z.to_nat (_size s))) m (_size s) 0
  | None => if _size s >? 0 then Undef else Val []
  end.

(*@ sese/text/SString.cpp 489-500 SStringView::len *)
Definition len (s : t) : outcome Z := zlen <$> walk_all s.

(*@ sese/text/SString.cpp 680-693 SStringView::toChars *)
Definition toChars (s : t) : outcome (list Z) :=
  m ← mem s; _ ← getByteLengthFromUTF8String m;
  l ← walk_all s;
  foldr (fun e (r : outcome (list Z)) => c ← getUnicodeCharFromUTF8Char (fst e) (snd e); r ← r; Val (c :: r)) (Val []) l.

(*@ sese/text/SString.cpp 727-739 SStringView::at *)
(** [n]: the number of characters before [i]. *)
Fixpoint index_loop (fuel : nat) (m : bytes) (size index n i : Z) : outcome Z :=
  match fuel with
  | O => Undef
  | S fuel =>
      if i <? size then
        c ← at_ m i;
        if c =? 0 then Val 0
        else
          let k := getSizeFromUTF8Char c in
          if k =? -1 then Val 0
          else if i + k >? size then Val 0
          else if index =? n + 1 then getUnicodeCharFromUTF8Char k (zdrop i m)
          else index_loop fuel m size index (n + 1) (i + k)
      else Val 0
  end.

(*@ sese/text/SString.cpp 725-744 SStringView::at *)
Definition at_index (s : t) (index : Z) : outcome Z :=
  m ← mem s; index_loop (S (Z.to_nat (_size s))) m (_size s) (u64 (index + 1)) 0 0.

(*@ sese/text/SString.cpp 506-508 SStringView::findByBytes *)
Definition findByBytes (fuel : nat) (s : t) (bytes : bytes) : outcome Z := m ← mem s; BM fuel m bytes.

(*@ sese/text/SString.cpp 520-524 SStringView::find *)
(** The number of characters before [index]. *)
Fixpoint count_chars (fuel : nat) (m : bytes) (index i count : Z) : outcome Z :=
  match fuel with
  | O => Undef
  | S fuel =>
      if i <? index then c ← at_ m i; count_chars fuel m index (i + getSizeFromUTF8Char c) (count + 1) else Val count
  end.

(*@ sese/text/SString.cpp 514-526 SStringView::find *)
Definition find (fuel : nat) (s : t) (str : bytes) : outcome Z :=
  m ← mem s;
  index ← BM fuel m str;
  if index =? -1 then Val (-1) else count_chars (S (Z.to_nat index)) m index 0 0.

(*@ sese/text/SString.cpp 556-556 SStringView::trim *)
Fixpoint skip_blanks (fuel : nat) (m : bytes) (p : Z) : outcome Z :=
  match fuel with
  | O => Undef
  | S fuel => c ← at_ m p; if c =? 32 then skip_blanks fuel m (p + 1) else Val p
  end.

(*@ sese/text/SString.cpp 544-565 SStringView::trim *)
(** The blanks are counted wherever they are. *)
Definition trim (s : t) : outcome t :=
  m ← mem s;
  src ← source s (_size s);
  let new_size := _size s - zlen (List.filter (fun c => c =? 32) src) in
  p ← skip_blanks (S (length m)) m 0;
  src ← memread m p new_size;
  new ← memcpy (malloc (blocks new_size)) 0 src;
  new ← terminate new new_size;
  Val (Make (Some new) new_size (blocks new_size)).

(*@ sese/text/SString.cpp 576-581 SStringView::reverse *)
Fixpoint reverse_loop (fuel : nat) (m : bytes) (size i index : Z) (new : bytes) : outcome bytes :=
  match fuel with
  | O => Undef
  | S fuel =>
      if i <? size then
        c ← at_ m i;
        let n := getSizeFromUTF8Char c in
        let index := u64 (index - n) in
        src ← memread m i (u64 n);
        new ← memcpy new index src;
        reverse_loop fuel m size (i + n) index new
      else Val new
  end.

(*@ sese/text/SString.cpp 567-584 SStringView::reverse *)
Definition reverse (s : t) : outcome t :=
  new ← terminate (malloc (blocks (_size s))) (_size s);
  new ← match data s with
        | Some m => reverse_loop (S (Z.to_nat (_size s))) m (_size s) 0 (_size s) new
        | None => if _size s >? 0 then Undef else Val new
        end;
  Val (Make (Some new) (_size s) (blocks (_size s))).

(*@ sese/text/SString.cpp 618-630 SStringView::split *)
(** [pos2]: the position of the next separator from [pos1] on. *)
Fixpoint split_loop (fuel bm : nat) (m str : bytes) (size pos1 pos2 : Z) (v : list t) : outcome (list t) :=
  match fuel with
  | O => Undef
  | S fuel =>
      piece ← of_bytes (zdrop pos1 m) (u64 (pos2 - pos1));
      let pos1 := pos2 + size in
      next ← BM bm (zdrop pos1 m) str;
      if next =? -1 then last ← fromUTF8 (zdrop pos1 m); Val (v ++ [piece; last])
      else split_loop fuel bm m str size pos1 (next + pos1) (v ++ [piece])
  end.

(*@ sese/text/SString.cpp 611-635 SStringView::split *)
(** The result of the first search is not tested. *)
Definition split (bm : nat) (s : t) (str : bytes) : outcome (list t) :=
  m ← mem s;
  size ← getByteLengthFromUTF8String str;
  pos2 ← BM bm m str;
  split_loop (S (length m)) bm m str size 0 (u64 pos2) [].

(** A new string with bytes of [m]. *)
Definition piece (m : bytes) (p size : Z) : outcome t :=
  src ← memread m p size;
  new ← memcpy (malloc (blocks size)) 0 src;
  new ← terminate new size;
  Val (Make (Some new) size (blocks size)).

(*@ sese/text/SString.cpp 637-648 SStringView::substring *)
Definition substring_from (s : t) (begin : Z) : outcome t :=
  m ← mem s;
  p ← at_char m begin;
  match p with None => Val null | Some p => piece m p (u64 (_size s - p)) end.

(*@ sese/text/SString.cpp 659-670 SStringView::substring *)
(** The bytes of [len] characters from [p] on. *)
Fixpoint bytes_of_chars (fuel : nat) (m : bytes) (len p count new_size : Z) : outcome Z :=
  match fuel with
  | O => Undef
  | S fuel =>
      c ← at_ m p;
      if c =? 0 then Val new_size
      else if u64 count =? len then Val new_size
      else
        let n := getSizeFromUTF8Char c in
        bytes_of_chars fuel m len (p + n) (count + 1) (new_size + n)
  end.

(*@ sese/text/SString.cpp 650-678 SStringView::substring *)
Definition substring (s : t) (begin len : Z) : outcome t :=
  m ← mem s;
  p ← at_char m begin;
  match p with
  | None => Val null
  | Some p => size ← bytes_of_chars (S (length m)) m len p 0 0; piece m p (u64 size)
  end.

(*@ sese/text/SString.cpp 695-697 SStringView::toString *)
Definition toString (s : t) : outcome bytes := m ← mem s; _ ← strlen m; Val (cstr m).

(*@ sese/text/SString.cpp 706-718 SStringView::toCWString *)
(** Where [wchar_t] has 32 bits: [len()] characters and the terminator have room. *)
Fixpoint wide_loop (fuel : nat) (m : bytes) (size i : Z) : outcome (list Z) :=
  match fuel with
  | O => Undef
  | S fuel =>
      if u64 i <? size then
        c ← at_ m i;
        let n := getSizeFromUTF8Char c in
        code ← getUnicodeCharFromUTF8Char n (zdrop i m);
        rest ← wide_loop fuel m size (i + n); Val (code :: rest)
      else Val []
  end.
Definition toCWString (s : t) : outcome (list Z) :=
  size ← len s;
  m ← mem s;
  codes ← wide_loop (S (S (Z.to_nat (_size s)))) m (_size s) 0;
  if zlen codes <=? size + 1 then Val (ztake size codes ++ [0]) else Undef.

(*@ sese/text/SString.cpp 746-760 SStringView::operator== *)
(** [strcmp]; [!=] is its negation. *)
Definition equal (s : t) (str : bytes) : outcome bool :=
  m ← mem s; _ ← strlen m; _ ← strlen str; Val (bool_decide (cstr m = cstr str)).

(** ** Iterators *)

(*@ sese/text/SString.h 91-115 SStringView::Iterator *)
Record iterator := MkIterator { ref : bytes; pos : Z; ch : Z }.

(*@ sese/text/SString.cpp 197-202 Iterator::Iterator *)
(** The character is read at the start of the text, not at the position. *)
Definition iterator_at (ref : bytes) (pos : Z) : outcome iterator :=
  c ← getUnicodeFromUTF8Char ref; Val (MkIterator ref pos c).
(*@ sese/text/SString.cpp 412-418 SStringView::begin *)
(** And [end]. *)
Definition begin_ (s : t) : outcome iterator := m ← mem s; iterator_at m 0.
Definition end_ (s : t) : outcome iterator := m ← mem s; iterator_at m (_size s).

(*@ sese/text/SString.cpp 204-212 Iterator::operator++ *)
Definition next (it : iterator) : outcome iterator :=
  if ch it =? 0 then Val it
  else
    let p := pos it + getUTF8SizeFromUnicodeChar (ch it) in
    if p <? 0 then Undef else c ← getUnicodeFromUTF8Char (zdrop p (ref it)); Val (MkIterator (ref it) p c).
(*@ sese/text/SString.cpp 224-230 Iterator::operator== *)
(** Of iterators of one text. *)
Definition same (a b : iterator) : bool := pos a =? pos b.

(** The loop [for (auto ch : s)]. *)
Fixpoint for_each (fuel : nat) (it stop : iterator) : outcome (list Z) :=
  match fuel with
  | O => Undef
  | S fuel => if same it stop then Val [] else it' ← next it; rest ← for_each fuel it' stop; Val (ch it :: rest)
  end.

End SString.
