(* ===== verification/SStringChars.v ===== *)
(** * Strings as sequences of characters

    What the operations of [SString] do to the characters of a string: an abstract
    specification on lists of code points, which the operations on blocks of bytes refine. *)

From S2P Require Import Prelude Text Words Algorithm Utf8 SString.
Import SString.

(** ** Text *)

Definition text (cs : list Z) : bytes := cs ≫= utf8.

Lemma text_app cs ds : text (cs ++ ds) = text cs ++ text ds.
Proof. apply bind_app. Qed.
Lemma text_cons c cs : text (c :: cs) = utf8 c ++ text cs.
Proof. reflexivity. Qed.

Lemma text_one c : text [c] = utf8 c.
Proof. rewrite text_cons. apply app_nil_r. Qed.

Lemma utf8_length c : char_ok c -> 1 <= zlen (utf8 c) <= 4.
Proof. intros Hc. apply (utf8_cases c (fun l => 1 <= zlen l <= 4)); [done|..]; intros; vm_compute; split; discriminate. Qed.

Lemma utf8_positive c : char_ok c -> Forall (fun b => 0 < b) (utf8 c).
Proof.
  intros Hc. apply (utf8_cases c (Forall (fun b => 0 < b))); [done|..]; intros; unfold char_ok in Hc; repeat constructor; lia.
Qed.

Lemma text_positive cs : Forall char_ok cs -> Forall (fun b => 0 < b) (text cs).
Proof. induction 1 as [|c cs Hc _ IH]; [done|]. rewrite text_cons. apply Forall_app. split; [by apply utf8_positive|done]. Qed.

Lemma text_lead c cs : char_ok c -> exists b l, text (c :: cs) = b :: l /\ b <> 0 /\ getSizeFromUTF8Char b = zlen (utf8 c).
Proof.
  intros Hc. destruct (utf8_decode c [] Hc) as [(b & l & E & Hb & Hs) _]. exists b, (l ++ text cs). rewrite text_cons, E. rewrite E in Hs. done.
Qed.

Lemma cstr_terminated l r : Forall (fun b => 0 < b) l -> cstr (l ++ 0 :: r) = l.
Proof.
  unfold cstr. induction 1 as [|b l Hb _ IH]; [done|]. cbn [app break]. rewrite (proj2 (Z.eqb_neq b 0)) by lia.
  destruct (break _ (l ++ 0 :: r)) as [x y]. cbn [fst] in *. by rewrite IH.
Qed.

Lemma strlen_terminated l r : Forall (fun b => 0 < b) l -> strlen (l ++ 0 :: r) = Val (zlen l).
Proof. intros Hl. unfold strlen. rewrite existsb_app. cbn [existsb Z.eqb]. rewrite orb_true_r. by rewrite cstr_terminated. Qed.

(** ** The strings that hold characters *)

Definition LIMIT : Z := 2 ^ 31.

Definition holds (s : t) (cs : list Z) : Prop :=
  Forall char_ok cs /\ zlen (text cs) < LIMIT /\ _size s = zlen (text cs) /\
  exists junk, data s = Some (text cs ++ 0 :: junk).

Lemma blocks_room n : 0 <= n < LIMIT -> n + 1 <= blocks n < 2 ^ 32.
Proof. intros Hn. unfold LIMIT in Hn. unfold blocks, BLOCK_SIZE. rewrite wrap_small; [dlia|unfold is_u; dlia]. Qed.

(** Bytes that are copied into a new block, and the terminator. *)
Lemma block_filled b n : zlen b < n ->
  memcpy (malloc n) 0 b = Val (b ++ zdrop (zlen b) (malloc n)) /\
  exists junk, terminate (b ++ zdrop (zlen b) (malloc n)) (zlen b) = Val (b ++ 0 :: junk).
Proof.
  intros Hb. pose proof (zlen_nonneg b). assert (zlen (malloc n) = n) as Hz by (apply zlen_malloc; lia). split.
  - rewrite memcpy_Val by lia. by rewrite ztake_0.
  - assert (zlen (zdrop (zlen b) (malloc n)) = n - zlen b) as Hrest by (rewrite zlen_zdrop; lia).
    destruct (zdrop (zlen b) (malloc n)) as [|x rest]; [rewrite zlen_nil in Hrest; lia|]. exists rest. unfold terminate.
    apply (memcpy_over b [x] rest [0]); done.
Qed.

Lemma piece_spec pre b post p : Forall (fun b => 0 < b) b -> zlen b < LIMIT -> p = zlen pre ->
  exists s junk, piece (pre ++ b ++ post) p (zlen b) = Val s /\ data s = Some (b ++ 0 :: junk) /\ _size s = zlen b.
Proof.
  intros Hp Hb ->. pose proof (zlen_nonneg b). pose proof (blocks_room (zlen b) ltac:(lia)). destruct (block_filled b (blocks (zlen b)) ltac:(lia)) as (E & junk & E2).
  exists (Make (Some (b ++ 0 :: junk)) (zlen b) (blocks (zlen b))), junk. split; [|done]. unfold piece.
  pose proof (zlen_nonneg pre). pose proof (zlen_nonneg post).
  rewrite memread_Val by (rewrite ?zlen_app; lia). rewrite bind_Val. unfold slice. rewrite zdrop_app_ge, Z.sub_diag, zdrop_0 by lia.
  rewrite ztake_app_le, ztake_ge by lia. by rewrite E, bind_Val, E2.
Qed.

Lemma holds_source s cs : holds s cs -> source s (_size s) = Val (text cs).
Proof.
  intros (_ & _ & Hs & junk & Hd). unfold source. rewrite Hd, Hs. rewrite memread_Val; [|done|apply zlen_nonneg|].
  - unfold slice. rewrite zdrop_0, ztake_app_le, ztake_ge by lia. done.
  - rewrite zlen_app, zlen_cons. pose proof (zlen_nonneg junk). lia.
Qed.

(** ** Building *)

Lemma store_chars_spec cs : Forall char_ok cs -> forall pre rest, zlen (text cs) <= zlen rest ->
  store_chars (pre ++ rest) (zlen pre) cs = Val (pre ++ text cs ++ zdrop (zlen (text cs)) rest).
Proof.
  induction 1 as [|c cs Hc _ IH]; intros pre rest Hr; cbn [store_chars].
  - by rewrite zdrop_0 by done.
  - rewrite text_cons, zlen_app in *. pose proof (zlen_nonneg (text cs)). pose proof (zlen_nonneg (utf8 c)).
    unfold insertUnicodeChar2UTF8String. rewrite code_bytes_utf8 by done. rewrite (memcpy_at pre rest (utf8 c)) by (done || lia). rewrite bind_Val.
    rewrite <- utf8_size, <- zlen_app by done. rewrite app_assoc, IH by (rewrite zlen_zdrop; lia).
    by rewrite zdrop_zdrop, <- !app_assoc by lia.
Qed.

Lemma chars_size cs : Forall char_ok cs -> foldr (fun c n => getUTF8SizeFromUnicodeChar c + n) 0 cs = zlen (text cs).
Proof. induction 1 as [|c cs Hc _ IH]; [done|]. cbn [foldr]. by rewrite IH, text_cons, zlen_app, utf8_size. Qed.

Lemma fromSChars_spec cs : Forall char_ok cs -> zlen (text cs) < LIMIT -> exists s, fromSChars cs = Val s /\ holds s cs.
Proof.
  intros Hcs Hz. pose proof (zlen_nonneg (text cs)). unfold fromSChars. rewrite chars_size by done. rewrite wrap_small by (unfold is_u, LIMIT in *; lia).
  pose proof (blocks_room (zlen (text cs)) ltac:(lia)). destruct (block_filled (text cs) (blocks (zlen (text cs))) ltac:(lia)) as (_ & junk & E2).
  pose proof (store_chars_spec cs Hcs [] (malloc (blocks (zlen (text cs)))) ltac:(rewrite zlen_malloc; lia)) as E1.
  cbn [app] in E1. change (zlen (@nil Z)) with 0 in E1. rewrite E1, bind_Val, E2. eexists. split; [done|]. split; [done|]. split; [done|]. split; [done|]. by exists junk.
Qed.

Lemma joined_spec s cs ds : holds s cs -> Forall char_ok ds -> zlen (text (cs ++ ds)) < LIMIT ->
  exists s', joined s (text ds) = Val s' /\ holds s' (cs ++ ds).
Proof.
  intros Hs Hds Hz. pose proof Hs as (Hcs & _ & Hsize & _). unfold joined. rewrite (holds_source s cs Hs), bind_Val, Hsize.
  pose proof (zlen_nonneg (text cs)). pose proof (zlen_nonneg (text ds)). rewrite text_app, zlen_app in Hz.
  rewrite wrap_small by (unfold is_u, LIMIT in *; lia). rewrite <- zlen_app, <- text_app.
  assert (zlen (text (cs ++ ds)) = zlen (text cs) + zlen (text ds)) as Hl by (by rewrite text_app, zlen_app).
  pose proof (blocks_room (zlen (text (cs ++ ds))) ltac:(lia)) as Hr.
  destruct (block_filled (text (cs ++ ds)) (blocks (zlen (text (cs ++ ds)))) ltac:(lia)) as (_ & junk & E2).
  set (block := malloc _) in *. assert (zlen block = blocks (zlen (text (cs ++ ds)))) as Hb by (apply zlen_malloc; lia). clearbody block.
  rewrite memcpy_Val by lia. rewrite bind_Val, ztake_0 by lia. cbn [app]. rewrite Z.add_0_l.
  rewrite (memcpy_at (text cs) (zdrop (zlen (text cs)) block) (text ds)) by (done || (rewrite zlen_zdrop; lia)).
  rewrite bind_Val, zdrop_zdrop by lia. rewrite <- Hl, <- text_app, E2, bind_Val.
  eexists. split; [done|]. split; [by apply Forall_app|]. split; [lia|]. split; [done|]. by exists junk.
Qed.

(** ** Reading *)

(** The characters of a text with what follows each of them. *)
Fixpoint pieces (cs : list Z) (tail : bytes) : list (Z * bytes) :=
  match cs with [] => [] | c :: cs' => (zlen (utf8 c), text cs ++ tail) :: pieces cs' tail end.

(** The first byte of a character inside a block. *)
Lemma at_lead pre c rest : char_ok c -> exists b, at_ (pre ++ utf8 c ++ rest) (zlen pre) = Val b /\ b <> 0 /\ getSizeFromUTF8Char b = zlen (utf8 c).
Proof.
  intros Hc. destruct (utf8_decode c [] Hc) as [(b & l & E & Hb & Hs) _]. exists b. split; [|done]. rewrite E. cbn [app]. by rewrite at_next.
Qed.

Lemma walk_spec cs tail : Forall char_ok cs -> forall fuel pre, (length cs < fuel)%nat ->
  walk fuel (pre ++ text cs ++ 0 :: tail) (zlen pre + zlen (text cs)) (zlen pre) = Val (pieces cs (0 :: tail)).
Proof.
  induction 1 as [|c cs Hc _ IH]; intros [|fuel] pre Hf; cbn [length] in Hf; try lia; cbn [walk pieces].
  - by rewrite (proj2 (Z.ltb_ge _ _)) by (change (zlen (text [])) with 0; lia).
  - rewrite text_cons, <- app_assoc, zlen_app. pose proof (utf8_length c Hc). pose proof (zlen_nonneg (text cs)).
    rewrite (proj2 (Z.ltb_lt _ _)) by lia. destruct (at_lead pre c (text cs ++ 0 :: tail) Hc) as (b & -> & Hb & Hs). rewrite bind_Val, Hs.
    rewrite (proj2 (Z.eqb_neq b 0)), (proj2 (Z.eqb_neq _ (-1))) by lia. rewrite Z.gtb_ltb, (proj2 (Z.ltb_ge _ _)) by lia.
    rewrite zdrop_app_ge, Z.sub_diag, zdrop_0 by lia.
    replace (zlen pre + (zlen (utf8 c) + zlen (text cs))) with (zlen (pre ++ utf8 c) + zlen (text cs)) by (rewrite zlen_app; lia).
    rewrite <- (zlen_app pre (utf8 c)), (app_assoc pre), IH by lia. done.
Qed.

Lemma text_longer cs : Forall char_ok cs -> (length cs <= length (text cs))%nat.
Proof.
  induction 1 as [|c cs Hc _ IH]; [done|]. rewrite text_cons, length_app. pose proof (utf8_length c Hc) as Hl. unfold zlen in Hl. cbn [length]. lia.
Qed.

Lemma walk_all_spec s cs : holds s cs -> exists tail, walk_all s = Val (pieces cs (0 :: tail)).
Proof.
  intros (Hcs & _ & Hs & junk & Hd). exists junk. unfold walk_all. rewrite Hd, Hs. pose proof (text_longer cs Hcs).
  apply (walk_spec cs junk Hcs (S (Z.to_nat (zlen (text cs)))) []). unfold zlen. lia.
Qed.

Lemma len_spec s cs : holds s cs -> len s = Val (zlen cs).
Proof.
  intros Hs. destruct (walk_all_spec s cs Hs) as (tail & E). unfold len. rewrite E. cbn. f_equal.
  clear. induction cs as [|c cs IH]; [done|]. cbn [pieces]. by rewrite !zlen_cons, IH.
Qed.

Lemma toChars_spec s cs : holds s cs -> toChars s = Val cs.
Proof.
  intros Hs. destruct (walk_all_spec s cs Hs) as (tail & E). pose proof Hs as (Hcs & _ & _ & junk & Hd). unfold toChars, mem.
  rewrite Hd. cbn [of_option]. rewrite bind_Val. unfold getByteLengthFromUTF8String. rewrite strlen_terminated by (by apply text_positive).
  rewrite bind_Val, E, bind_Val. clear -Hcs. induction Hcs as [|c cs Hc _ IH]; [done|]. cbn [pieces foldr fst snd].
  destruct (utf8_decode c (text cs ++ 0 :: tail) Hc) as [_ Hu]. by rewrite text_cons, <- app_assoc, Hu, bind_Val, IH.
Qed.

Lemma index_loop_spec cs tail : Forall char_ok cs -> forall fuel pre n k, (length cs < fuel)%nat ->
  index_loop fuel (pre ++ text cs ++ 0 :: tail) (zlen pre + zlen (text cs)) (n + 1 + Z.of_nat k) n (zlen pre) = Val (default 0 (cs !! k)).
Proof.
  induction 1 as [|c cs Hc _ IH]; intros [|fuel] pre n k Hf; cbn [length] in Hf; try lia; cbn [index_loop].
  - by rewrite (proj2 (Z.ltb_ge _ _)) by (change (zlen (text [])) with 0; lia).
  - rewrite text_cons, <- app_assoc, zlen_app. pose proof (utf8_length c Hc). pose proof (zlen_nonneg (text cs)).
    rewrite (proj2 (Z.ltb_lt _ _)) by lia. destruct (at_lead pre c (text cs ++ 0 :: tail) Hc) as (b & -> & Hb & Hs). rewrite bind_Val, Hs.
    rewrite (proj2 (Z.eqb_neq b 0)), (proj2 (Z.eqb_neq _ (-1))) by lia. rewrite Z.gtb_ltb, (proj2 (Z.ltb_ge _ _)) by lia.
    destruct k as [|k].
    + rewrite (proj2 (Z.eqb_eq _ _)) by lia. rewrite zdrop_app_ge, Z.sub_diag, zdrop_0 by lia.
      by destruct (utf8_decode c (text cs ++ 0 :: tail) Hc) as [_ ->].
    + rewrite (proj2 (Z.eqb_neq (n + 1 + _) _)) by lia. cbn [lookup list_lookup].
      replace (zlen pre + (zlen (utf8 c) + zlen (text cs))) with (zlen (pre ++ utf8 c) + zlen (text cs)) by (rewrite zlen_app; lia).
      replace (n + 1 + Z.of_nat (S k)) with (n + 1 + 1 + Z.of_nat k) by lia.
      rewrite <- (zlen_app pre (utf8 c)), (app_assoc pre). apply IH. lia.
Qed.

Lemma at_index_spec s cs i : holds s cs -> 0 <= i < 2 ^ 64 - 1 -> at_index s i = Val (default 0 (cs !! Z.to_nat i)).
Proof.
  intros (Hcs & _ & Hs & junk & Hd) Hi. unfold at_index, mem. rewrite Hd, Hs. cbn [of_option]. rewrite bind_Val, wrap_small by (unfold is_u; lia).
  pose proof (text_longer cs Hcs). replace (i + 1) with (0 + 1 + Z.of_nat (Z.to_nat i)) by lia.
  apply (index_loop_spec cs junk Hcs (S (Z.to_nat (zlen (text cs)))) [] 0). unfold zlen. lia.
Qed.

Lemma toString_spec s cs : holds s cs -> toString s = Val (text cs).
Proof.
  intros (Hcs & _ & _ & junk & Hd). unfold toString, mem. rewrite Hd. cbn [of_option].
  by rewrite bind_Val, strlen_terminated, bind_Val, cstr_terminated by (by apply text_positive).
Qed.

(** ** Reversal *)

Lemma reverse_loop_spec cs junk rest : zlen (text cs) < LIMIT -> forall todo done_ fuel, Forall char_ok todo -> cs = done_ ++ todo ->
  (length todo < fuel)%nat ->
  reverse_loop fuel (text cs ++ 0 :: junk) (zlen (text cs)) (zlen (text done_)) (zlen (text todo)) (malloc (zlen (text todo)) ++ text (rev done_) ++ 0 :: rest)
  = Val (text (rev cs) ++ 0 :: rest).
Proof.
  intros Hz. set (size := zlen (text cs)) in *.
  induction todo as [|c todo IH]; intros done_ [|fuel] Ht Ec Hf; cbn [length] in Hf; try lia; cbn [reverse_loop].
  - rewrite app_nil_r in Ec. subst done_. by rewrite (proj2 (Z.ltb_ge _ _)) by (subst size; lia).
  - apply Forall_cons in Ht as [Hc Ht]. pose proof (utf8_length c Hc). pose proof (zlen_nonneg (text todo)).
    assert (size = zlen (text done_) + (zlen (utf8 c) + zlen (text todo))) as Es by (subst size; by rewrite Ec, text_app, text_cons, !zlen_app).
    pose proof (zlen_nonneg (text done_)). rewrite (proj2 (Z.ltb_lt _ _)) by lia.
    assert (text cs ++ 0 :: junk = text done_ ++ utf8 c ++ text todo ++ 0 :: junk) as Em by (rewrite Ec, text_app, text_cons, <- !app_assoc; done).
    rewrite Em. destruct (at_lead (text done_) c (text todo ++ 0 :: junk) Hc) as (b & -> & Hb & Hb2). rewrite bind_Val, Hb2, <- Em.
    rewrite text_cons, zlen_app. replace (zlen (utf8 c) + zlen (text todo) - zlen (utf8 c)) with (zlen (text todo)) by lia.
    unfold LIMIT in *. rewrite !wrap_small by (unfold is_u; lia).
    rewrite memread_Val by (rewrite ?Em, ?zlen_app; pose proof (zlen_nonneg (0 :: junk)); lia). rewrite bind_Val.
    assert (slice (zlen (text done_)) (zlen (utf8 c)) (text cs ++ 0 :: junk) = utf8 c) as ->.
    { unfold slice. rewrite Em, zdrop_app_ge, Z.sub_diag, zdrop_0, ztake_app_le, ztake_ge by lia. done. }
    rewrite (Z.add_comm (zlen (utf8 c))). unfold malloc at 1. rewrite Z2Nat.inj_add, repeat_app by lia. fold (malloc (zlen (text todo))).
    rewrite <- app_assoc. rewrite memcpy_over by (rewrite ?zlen_malloc, ?zlen_repeat; lia). rewrite bind_Val.
    replace (zlen (text done_) + zlen (utf8 c)) with (zlen (text (done_ ++ [c]))) by (by rewrite text_app, text_one, zlen_app).
    rewrite (app_assoc (utf8 c)), <- text_cons. change (c :: rev done_) with ([c] ++ rev done_). change [c] with (rev [c]). rewrite <- rev_app_distr.
    apply IH; [done|by rewrite <- app_assoc|lia].
Qed.

Lemma reverse_spec s cs : holds s cs -> exists s', reverse s = Val s' /\ holds s' (rev cs).
Proof.
  intros (Hcs & Hz & Hs & junk & Hd). unfold reverse. rewrite Hd, Hs. set (size := zlen (text cs)) in *.
  assert (0 <= size) as H0 by apply zlen_nonneg. pose proof (blocks_room size ltac:(lia)) as Hr.
  assert (exists rest, terminate (malloc (blocks size)) size = Val (malloc size ++ 0 :: rest)) as (rest & ->).
  { unfold terminate. replace (blocks size) with (size + (1 + (blocks size - size - 1))) by lia.
    unfold malloc. rewrite Z2Nat.inj_add, repeat_app by lia. exists (repeat poison (Z.to_nat (blocks size - size - 1))).
    rewrite Z2Nat.inj_add, repeat_app by lia. change (repeat poison (Z.to_nat 1)) with [poison].
    apply (memcpy_over _ [poison] _ [0]); [|done]. rewrite zlen_repeat. lia. }
  rewrite bind_Val.
  pose proof (reverse_loop_spec cs junk rest Hz) as Hloop.
  pose proof (text_longer cs Hcs). specialize (Hloop cs [] (S (Z.to_nat size)) Hcs eq_refl ltac:(subst size; unfold zlen; lia)).
  cbn [rev text app] in Hloop. change (zlen (text [])) with 0 in Hloop. fold size in Hloop. change (text [] ++ 0 :: rest) with (0 :: rest) in Hloop.
  rewrite Hloop, bind_Val. eexists. split; [done|].
  assert (zlen (text (rev cs)) = size) as Hl.
  { subst size. clear. induction cs as [|c cs IH]; [done|]. cbn [rev]. rewrite text_app, text_one, (text_cons c cs), !zlen_app. lia. }
  split; [by apply Forall_rev|]. rewrite Hl. split; [done|]. split; [done|]. by exists rest.
Qed.

(** ** Parts *)

Lemma at_loop_spec cs tail : Forall char_ok cs -> forall fuel pre i k, (length cs < fuel)%nat -> -1 <= i -> i + 1 + Z.of_nat k < 2 ^ 64 ->
  at_loop fuel (pre ++ text cs ++ 0 :: tail) (i + 1 + Z.of_nat k) (zlen pre) i =
  Val (if (k <? length cs)%nat then Some (zlen pre + zlen (text (take k cs))) else None).
Proof.
  induction 1 as [|c cs Hc _ IH]; intros [|fuel] pre i k Hf Hi Hk; cbn [length] in Hf; try lia; cbn [at_loop].
  - change (text [] ++ 0 :: tail) with (0 :: tail). by rewrite at_next.
  - rewrite text_cons, <- app_assoc. destruct (at_lead pre c (text cs ++ 0 :: tail) Hc) as (b & -> & Hb & Hs). rewrite bind_Val, Hs.
    rewrite (proj2 (Z.eqb_neq b 0)) by lia. cbv zeta. destruct k as [|k].
    + rewrite wrap_small by (unfold is_u; lia). rewrite (proj2 (Z.eqb_eq _ _)) by lia. cbn [take length Nat.ltb Nat.leb]. do 2 f_equal.
      change (zlen (text [])) with 0. lia.
    + rewrite wrap_small by (unfold is_u; lia). rewrite (proj2 (Z.eqb_neq _ _)) by lia.
      rewrite <- (zlen_app pre (utf8 c)), (app_assoc pre). replace (i + 1 + Z.of_nat (S k)) with (i + 1 + 1 + Z.of_nat k) by lia. rewrite IH by lia.
      cbn [take length]. change (S k <? S (length cs))%nat with (k <? length cs)%nat. rewrite text_cons, !zlen_app. destruct (_ <? _)%nat; [|done]. do 2 f_equal. lia.
Qed.

Lemma bytes_of_chars_spec cs tail : Forall char_ok cs -> forall fuel pre count acc k, (length cs < fuel)%nat -> 0 <= count -> count + Z.of_nat k < 2 ^ 64 ->
  bytes_of_chars fuel (pre ++ text cs ++ 0 :: tail) (count + Z.of_nat k) (zlen pre) count acc = Val (acc + zlen (text (take k cs))).
Proof.
  induction 1 as [|c cs Hc _ IH]; intros [|fuel] pre count acc k Hf Hi Hk; cbn [length] in Hf; try lia; cbn [bytes_of_chars].
  - change (text [] ++ 0 :: tail) with (0 :: tail). rewrite at_next, bind_Val, take_nil by done. change (zlen (text [])) with 0. by rewrite Z.add_0_r.
  - rewrite text_cons, <- app_assoc. destruct (at_lead pre c (text cs ++ 0 :: tail) Hc) as (b & -> & Hb & Hs). rewrite bind_Val, Hs.
    rewrite (proj2 (Z.eqb_neq b 0)) by lia. rewrite wrap_small by (unfold is_u; lia). destruct k as [|k].
    + rewrite (proj2 (Z.eqb_eq _ _)) by lia. cbn [take]. change (zlen (text [])) with 0. f_equal. lia.
    + rewrite (proj2 (Z.eqb_neq _ _)) by lia. rewrite <- (zlen_app pre (utf8 c)), (app_assoc pre).
      replace (count + Z.of_nat (S k)) with (count + 1 + Z.of_nat k) by lia. rewrite IH by lia. cbn [take]. rewrite text_cons, zlen_app. f_equal. lia.
Qed.

(** The place of a character that is there. *)
Lemma at_char_spec cs tail k : Forall char_ok cs -> (k < length cs)%nat -> zlen (text cs) < LIMIT ->
  at_char (text cs ++ 0 :: tail) (Z.of_nat k) = Val (Some (zlen (text (take k cs)))).
Proof.
  intros Hcs Hk Hz. pose proof (text_longer cs Hcs) as Hl. unfold LIMIT, zlen in Hz. unfold at_char.
  pose proof (at_loop_spec cs tail Hcs (S (length (text cs ++ 0 :: tail))) [] (-1) k) as E. cbn [app] in E. change (zlen (@nil Z)) with 0 in E. change (-1 + 1 + Z.of_nat k) with (Z.of_nat k) in E. rewrite E.
  - by rewrite (proj2 (Nat.ltb_lt k _) Hk).
  - rewrite length_app. lia.
  - lia.
  - lia.
Qed.

(** A string of some of the characters. *)
Lemma piece_holds pre cs tail p n : Forall char_ok cs -> zlen (text cs) < LIMIT -> p = zlen pre -> n = zlen (text cs) ->
  exists s, piece (pre ++ text cs ++ tail) p n = Val s /\ holds s cs.
Proof.
  intros Hcs Hz -> ->. destruct (piece_spec pre (text cs) tail (zlen pre) (text_positive cs Hcs) Hz eq_refl) as (s & junk & E & Hd & Hs).
  exists s. split; [done|]. split; [done|]. split; [done|]. split; [done|]. by exists junk.
Qed.

Lemma text_part cs k : zlen (text (take k cs)) + zlen (text (drop k cs)) = zlen (text cs).
Proof. by rewrite <- zlen_app, <- text_app, take_drop. Qed.

Lemma text_cut cs k tail : text cs ++ tail = text (take k cs) ++ text (drop k cs) ++ tail.
Proof. by rewrite app_assoc, <- text_app, take_drop. Qed.

Lemma substring_from_spec s cs k : holds s cs -> (k < length cs)%nat ->
  exists s', substring_from s (Z.of_nat k) = Val s' /\ holds s' (drop k cs).
Proof.
  intros (Hcs & Hz & Hs & junk & Hd) Hk. unfold substring_from, mem. rewrite Hd, Hs. cbn [of_option]. rewrite bind_Val, at_char_spec, bind_Val by done.
  pose proof (text_part cs k). pose proof (zlen_nonneg (text (take k cs))). pose proof (zlen_nonneg (text (drop k cs))). unfold LIMIT in Hz.
  rewrite wrap_small by (unfold is_u; lia). rewrite (text_cut cs k).
  apply piece_holds; [by apply Forall_drop|unfold LIMIT; lia|done|lia].
Qed.

Lemma substring_spec s cs k n : holds s cs -> (k < length cs)%nat -> Z.of_nat n < 2 ^ 64 ->
  exists s', substring s (Z.of_nat k) (Z.of_nat n) = Val s' /\ holds s' (take n (drop k cs)).
Proof.
  intros (Hcs & Hz & Hs & junk & Hd) Hk Hn. unfold substring, mem. rewrite Hd. cbn [of_option]. rewrite bind_Val, at_char_spec, bind_Val by done.
  pose proof (text_part cs k). pose proof (text_part (drop k cs) n). pose proof (zlen_nonneg (text (take k cs))).
  pose proof (zlen_nonneg (text (take n (drop k cs)))). pose proof (zlen_nonneg (text (drop n (drop k cs)))). unfold LIMIT in Hz.
  rewrite (text_cut cs k).
  pose proof (bytes_of_chars_spec (drop k cs) junk ltac:(by apply Forall_drop) (S (length (text (take k cs) ++ text (drop k cs) ++ 0 :: junk))) (text (take k cs)) 0 0 n) as E.
  change (0 + Z.of_nat n) with (Z.of_nat n) in E. rewrite E; [|rewrite !length_app|lia|lia].
  2: { pose proof (text_longer (drop k cs) ltac:(by apply Forall_drop)). cbn [length]. lia. }
  rewrite bind_Val, Z.add_0_l, wrap_small by (unfold is_u; lia).
  rewrite (text_cut (drop k cs) n).
  apply piece_holds; [by apply Forall_take, Forall_drop|unfold LIMIT; lia|done|done].
Qed.

(** ** Case *)

Definition lower_char (c : Z) : Z := if (65 <=? c) && (c <=? 90) then c + 32 else c.
Definition upper_char (c : Z) : Z := if (97 <=? c) && (c <=? 122) then c - 32 else c.

Lemma toLower_spec l r : Forall (fun b => 0 < b) l -> toLower (l ++ 0 :: r) = Val (map lower_char l ++ 0 :: r).
Proof.
  induction 1 as [|b l Hb _ IH]; [done|]. cbn [app toLower map]. rewrite (proj2 (Z.eqb_neq b 0)) by lia. by rewrite IH, bind_Val.
Qed.
Lemma toUpper_spec l r : Forall (fun b => 0 < b) l -> toUpper (l ++ 0 :: r) = Val (map upper_char l ++ 0 :: r).
Proof.
  induction 1 as [|b l Hb _ IH]; [done|]. cbn [app toUpper map]. rewrite (proj2 (Z.eqb_neq b 0)) by lia. by rewrite IH, bind_Val.
Qed.

(** A change of the letters of ASCII changes the bytes as the characters. *)
Definition ascii_map (g : Z -> Z) : Prop := (forall c, 128 <= c -> g c = c) /\ (forall c, 1 <= c < 128 -> 1 <= g c < 128).

Lemma text_map g cs : ascii_map g -> Forall char_ok cs -> Forall char_ok (map g cs) /\ text (map g cs) = map g (text cs).
Proof.
  intros [Hg1 Hg2]. induction 1 as [|c cs Hc _ [IH1 IH2]]; [done|]. cbn [map]. rewrite !text_cons, map_app, IH2.
  assert (char_ok (g c) /\ utf8 (g c) = map g (utf8 c)) as [H1 H2]; [|by rewrite H2; split; [constructor|]].
  unfold char_ok in *. destruct (Z_lt_le_dec c 128) as [H|H].
  - pose proof (Hg2 c ltac:(lia)). split; [lia|]. unfold utf8. by rewrite (proj2 (Z.ltb_lt c 128)), (proj2 (Z.ltb_lt (g c) 128)) by lia.
  - rewrite (Hg1 c H). split; [done|]. symmetry. apply (utf8_cases c (fun l => map g l = l)); [done|lia|..]; intros; cbn [map]; by rewrite !Hg1 by lia.
Qed.

Lemma modify_chars_spec f g s cs : ascii_map g -> (forall l r, Forall (fun b => 0 < b) l -> f (l ++ 0 :: r) = Val (map g l ++ 0 :: r)) ->
  holds s cs -> exists s', modify_chars f s = Val s' /\ holds s' (map g cs).
Proof.
  intros Hg Hf (Hcs & Hz & Hs & junk & Hd). destruct (text_map g cs Hg Hcs) as [H1 H2]. unfold modify_chars, mem. rewrite Hd. cbn [of_option].
  rewrite bind_Val, Hf, bind_Val by (by apply text_positive). eexists. split; [done|]. split; [done|].
  assert (zlen (text (map g cs)) = zlen (text cs)) as Hl by (rewrite H2; unfold zlen; by rewrite length_map).
  rewrite Hl. split; [done|]. split; [done|]. exists junk. by rewrite H2.
Qed.

Lemma of_bytes_spec cs tail : Forall char_ok cs -> zlen (text cs) < LIMIT -> exists s, of_bytes (text cs ++ tail) (zlen (text cs)) = Val s /\ holds s cs.
Proof. intros Hcs Hz. exact (piece_holds [] cs tail 0 (zlen (text cs)) Hcs Hz eq_refl eq_refl). Qed.

Lemma lower_ascii : ascii_map lower_char.
Proof. split; intros c Hc; unfold lower_char; ifcase; zbool; try lia; reflexivity. Qed.
Lemma upper_ascii : ascii_map upper_char.
Proof. split; intros c Hc; unfold upper_char; ifcase; zbool; try lia; reflexivity. Qed.

(** ** Searching *)

(** The encoding of a character is not the beginning of another's. *)
Lemma utf8_inj c d x y : char_ok c -> char_ok d -> utf8 c ++ x = utf8 d ++ y -> c = d /\ x = y.
Proof.
  intros Hc Hd E. destruct (utf8_decode c x Hc) as [(b & l & E1 & _ & S1) D1], (utf8_decode d y Hd) as [(b' & l' & E2 & _ & S2) D2].
  assert (zlen (utf8 c) = zlen (utf8 d)) as Hl.
  { rewrite <- S1, <- S2. rewrite E1, E2 in E. by injection E as -> _. }
  rewrite <- Hl, <- E, D1 in D2. injection D2 as ->. split; [done|]. by apply app_inv_head in E.
Qed.

Lemma prefixb_text ds cs : Forall char_ok ds -> Forall char_ok cs -> prefixb (text ds) (text cs) = prefixb ds cs.
Proof.
  intros Hds. revert cs. induction Hds as [|d ds Hd _ IH]; intros cs Hcs; [done|]. destruct Hcs as [|c cs Hc Hcs].
  - destruct (text_lead d ds Hd) as (b & l & -> & _). done.
  - cbn [prefixb]. destruct (d =? c) eqn:E; zbool; cbn [andb].
    + subst. rewrite !text_cons, <- IH by done. clear. induction (utf8 c) as [|b l IHl]; [done|]. cbn [app prefixb]. by rewrite Z.eqb_refl.
    + apply not_true_iff_false. intros [r Hr]%prefixb_spec. rewrite !text_cons, <- app_assoc in Hr.
      apply utf8_inj in Hr as [? _]; congruence.
Qed.

Lemma utf8_tail c : char_ok c -> exists b l, utf8 c = b :: l /\ ~ 128 <= b < 192 /\ Forall (fun x => 128 <= x < 192) l.
Proof.
  intros Hc. apply (utf8_cases c (fun u => exists b l, u = b :: l /\ ~ 128 <= b < 192 /\ Forall (fun x => 128 <= x < 192) l)); [done|..];
    intros; eexists _, _; (split; [reflexivity|]); (split; [lia|]); repeat constructor; lia.
Qed.

Lemma find_skip b p l rest : Forall (fun x => x <> b) l -> Text.find (b :: p) (l ++ rest) = Nat.add (length l) <$> Text.find (b :: p) rest.
Proof.
  induction 1 as [|x l Hx _ IH]; cbn [app length]; [by destruct (Text.find (b :: p) rest)|]. cbn [Text.find prefixb]. rewrite (proj2 (Z.eqb_neq b x)) by done.
  cbn [andb]. rewrite IH. by destruct (Text.find (b :: p) rest).
Qed.

Lemma find_text ds cs : Forall char_ok ds -> Forall char_ok cs ->
  Text.find (text ds) (text cs) = (fun k => length (text (take k cs))) <$> Text.find ds cs.
Proof.
  intros Hds. induction 1 as [|c cs Hc Hcs IH].
  - destruct Hds as [|d ds Hd _]; [done|]. destruct (text_lead d ds Hd) as (b & l & -> & _). done.
  - pose proof (prefixb_text ds (c :: cs) Hds ltac:(by constructor)) as Hp. cbn [Text.find]. rewrite text_cons in *.
    destruct (prefixb ds (c :: cs)) eqn:E.
    + destruct (utf8 c ++ text cs) eqn:Eu; cbn [Text.find]; by rewrite Hp.
    + destruct Hds as [|d ds Hd Hds]; [done|]. destruct (utf8_tail c Hc) as (b & l & Eb & _ & Hl). destruct (utf8_tail d Hd) as (b' & l' & Ed & Hb' & _).
      assert (text (d :: ds) = b' :: l' ++ text ds) as Et by (by rewrite text_cons, Ed). rewrite Et in *. rewrite Eb in *. cbn [app] in *. cbn [Text.find]. rewrite Hp.
      rewrite find_skip by (eapply Forall_impl; [exact Hl|]; cbn; lia). rewrite IH. destruct (Text.find (d :: ds) cs) as [k|]; [|done]. cbn [fmap option_fmap option_map].
      f_equal. cbn [take]. rewrite text_cons, Eb. cbn [app length]. by rewrite length_app.
Qed.

Lemma count_chars_spec cs tail : Forall char_ok cs -> forall fuel pre count k, (k < fuel)%nat -> (k <= length cs)%nat ->
  count_chars fuel (pre ++ text cs ++ tail) (zlen pre + zlen (text (take k cs))) (zlen pre) count = Val (count + Z.of_nat k).
Proof.
  induction 1 as [|c cs Hc _ IH]; intros [|fuel] pre count [|k] Hf Hk; cbn [length take] in *; try lia; cbn [count_chars].
  1, 2: rewrite (proj2 (Z.ltb_ge _ _)) by (change (zlen (text [])) with 0; lia); f_equal; lia.
  rewrite !text_cons, <- app_assoc, zlen_app. pose proof (utf8_length c Hc). pose proof (zlen_nonneg (text (take k cs))).
  rewrite (proj2 (Z.ltb_lt _ _)) by lia. destruct (at_lead pre c (text cs ++ tail) Hc) as (b & -> & Hb & Hs). rewrite bind_Val, Hs.
  replace (zlen pre + (zlen (utf8 c) + zlen (text (take k cs)))) with (zlen (pre ++ utf8 c) + zlen (text (take k cs))) by (rewrite zlen_app; lia).
  rewrite <- (zlen_app pre (utf8 c)), (app_assoc pre), IH by lia. f_equal. lia.
Qed.

Lemma find_bound ds cs k : Text.find ds cs = Some k -> (k <= length cs)%nat.
Proof.
  revert k. induction cs as [|c cs IH]; intros k; cbn [Text.find]; destruct (prefixb ds _); intros H; try (injection H as <-; lia); [done|].
  destruct (Text.find ds cs) as [n|]; [|done]. injection H as <-. cbn [length]. specialize (IH n eq_refl). lia.
Qed.

(** A pattern of at most two bytes. *)
Lemma sstring_find_spec s cs ds r fuel : holds s cs -> Forall char_ok ds -> zlen (text ds) <= 2 -> zlen (text cs) < LIMIT - 2 ->
  (2 * length (text cs) + 2 < fuel)%nat ->
  find fuel s (text ds ++ 0 :: r) = Val (match Text.find ds cs with Some k => Z.of_nat k | None => -1 end).
Proof.
  intros (Hcs & Hz & Hs & junk & Hd) Hds Hn Hl Hf. unfold find, mem. rewrite Hd. cbn [of_option]. rewrite bind_Val.
  pose proof (cstr_terminated (text cs) junk (text_positive cs Hcs)) as C1. pose proof (cstr_terminated (text ds) r (text_positive ds Hds)) as C2.
  assert (BM fuel (text cs ++ 0 :: junk) (text ds ++ 0 :: r) = Val (NORMAL (text cs ++ 0 :: junk) (text ds ++ 0 :: r))) as ->.
  { unfold LIMIT in Hl. apply BM_short; rewrite ?C1, ?C2; done. }
  rewrite bind_Val. unfold NORMAL. rewrite C1, C2, find_text by done. destruct (Text.find ds cs) as [k|] eqn:E; cbn [fmap option_fmap option_map]; [|done].
  rewrite (proj2 (Z.eqb_neq _ (-1))) by lia. rewrite Nat2Z.id. apply find_bound in E.
  pose proof (text_longer (take k cs) ltac:(by apply Forall_take)) as Ht. rewrite length_take in Ht.
  apply (count_chars_spec cs (0 :: junk) Hcs _ [] 0 k); lia.
Qed.

(** ** Iteration *)

Lemma unicode_at c rest : char_ok c -> getUnicodeFromUTF8Char (utf8 c ++ rest) = Val c.
Proof.
  intros Hc. destruct (utf8_decode c rest Hc) as [(b & l & E & _ & Hs) Hd]. unfold getUnicodeFromUTF8Char.
  rewrite E at 1. cbn [app]. change (at_ (b :: l ++ rest) 0) with (Val b). by rewrite bind_Val, Hs.
Qed.

(** The character at an iterator, NUL at the end. *)
Lemma unicode_head cs tail : Forall char_ok cs -> getUnicodeFromUTF8Char (text cs ++ 0 :: tail) = Val (default 0 (head cs)).
Proof. intros Hcs. destruct Hcs as [|c cs Hc _]; [done|]. rewrite text_cons, <- app_assoc. by apply unicode_at. Qed.

Lemma for_each_spec cs tail stop : Forall char_ok cs -> forall pre fuel, (length cs < fuel)%nat -> pos stop = zlen pre + zlen (text cs) ->
  for_each fuel (MkIterator (pre ++ text cs ++ 0 :: tail) (zlen pre) (default 0 (head cs))) stop = Val cs.
Proof.
  induction 1 as [|c cs Hc Hcs IH]; intros pre [|fuel] Hf Hp; cbn [length] in Hf; try lia; cbn [for_each]; unfold same; cbn [pos].
  - by rewrite (proj2 (Z.eqb_eq _ _)) by (change (zlen (text [])) with 0 in Hp; lia).
  - rewrite text_cons, zlen_app in Hp. pose proof (utf8_length c Hc). pose proof (zlen_nonneg (text cs)). pose proof (zlen_nonneg pre).
    rewrite (proj2 (Z.eqb_neq _ _)) by lia. unfold next. cbn [head from_option id ch pos ref]. unfold char_ok in Hc. rewrite (proj2 (Z.eqb_neq c 0)) by lia.
    rewrite <- utf8_size by done. rewrite (proj2 (Z.ltb_ge _ 0)) by lia. rewrite text_cons, <- app_assoc, app_assoc.
    rewrite zdrop_app_ge by (rewrite zlen_app; lia). rewrite zlen_app, Z.sub_diag, zdrop_0, unicode_head, !bind_Val by (done || lia).
    rewrite <- zlen_app, IH by (done || lia || (rewrite zlen_app; lia)). done.
Qed.

Lemma iteration_spec s cs : holds s cs -> exists first stop, begin_ s = Val first /\ end_ s = Val stop /\
  for_each (S (length cs)) first stop = Val cs.
Proof.
  intros (Hcs & _ & Hs & junk & Hd). unfold begin_, end_, mem, iterator_at. rewrite Hd, Hs. cbn [of_option]. rewrite !bind_Val, unicode_head, !bind_Val by done.
  eexists _, _. split; [done|]. split; [done|]. apply (for_each_spec cs junk _ Hcs []); [lia|done].
Qed.

(** ** Programs *)

(** Operations that build a string from another one: the string that is added is built from
    characters. *)
Inductive op :=
| Append (ds : list Z) | Add (ds : list Z) | Reverse | Lower | Upper | LowerCopy | UpperCopy | From (begin : nat) | Sub (begin len : nat).

Definition apply (o : op) (s : t) : outcome t :=
  match o with
  | Append ds => str ← fromSChars ds; append s str
  | Add ds => str ← fromSChars ds; add s str (size str)
  | Reverse => reverse s
  | Lower => modify_chars toLower s
  | Upper => modify_chars toUpper s
  | LowerCopy => modified_copy toLower s
  | UpperCopy => modified_copy toUpper s
  | From k => substring_from s (Z.of_nat k)
  | Sub k n => substring s (Z.of_nat k) (Z.of_nat n)
  end.

(** The specification, on sequences of characters: a part must begin inside the string, and
    the text must stay shorter than two gigabytes. *)
Definition chars_ok (cs : list Z) : bool := forallb (fun c => (1 <=? c) && (c <? 524288)) cs.
Definition fits (cs : list Z) : bool := zlen (text cs) <? LIMIT.
Definition apply_spec (o : op) (cs : list Z) : option (list Z) :=
  match o with
  | Append ds | Add ds => if chars_ok ds && fits (cs ++ ds) then Some (cs ++ ds) else None
  | Reverse => Some (rev cs)
  | Lower | LowerCopy => Some (map lower_char cs)
  | Upper | UpperCopy => Some (map upper_char cs)
  | From k => if (k <? length cs)%nat then Some (drop k cs) else None
  | Sub k n => if (k <? length cs)%nat && (Z.of_nat n <? 2 ^ 64) then Some (take n (drop k cs)) else None
  end.

Lemma chars_ok_spec cs : chars_ok cs = true -> Forall char_ok cs.
Proof.
  unfold chars_ok. rewrite forallb_forall, List.Forall_forall. intros H c Hc. specialize (H c Hc). unfold char_ok. zbool. lia.
Qed.

Lemma added_fits cs ds : fits (cs ++ ds) = true -> zlen (text ds) < LIMIT /\ zlen (text (cs ++ ds)) < LIMIT.
Proof. unfold fits. intros H. zbool. rewrite text_app, zlen_app in *. pose proof (zlen_nonneg (text cs)). lia. Qed.

Lemma modified_copy_spec f g s cs : ascii_map g -> (forall l r, Forall (fun b => 0 < b) l -> f (l ++ 0 :: r) = Val (map g l ++ 0 :: r)) ->
  holds s cs -> exists s', modified_copy f s = Val s' /\ holds s' (map g cs).
Proof.
  intros Hg Hf (Hcs & Hz & Hs & junk & Hd). unfold modified_copy, mem. rewrite Hd, Hs. cbn [of_option]. rewrite bind_Val.
  destruct (of_bytes_spec cs (0 :: junk) Hcs Hz) as (s1 & -> & H1). rewrite bind_Val. by apply modify_chars_spec.
Qed.

Lemma apply_holds o s cs cs' : holds s cs -> apply_spec o cs = Some cs' -> exists s', apply o s = Val s' /\ holds s' cs'.
Proof.
  intros Hs. destruct o as [ds|ds| | | | | |k|k n]; cbn [apply apply_spec]; intros E.
  1, 2: destruct (chars_ok ds && fits (cs ++ ds)) eqn:E1; [|done]; injection E as <-; zbool;
    match goal with H : fits _ = true |- _ => destruct (added_fits _ _ H) as [Z1 Z2] end;
    assert (Forall char_ok ds) as Hds by (by apply chars_ok_spec); destruct (fromSChars_spec ds Hds Z1) as (str & -> & Hstr); rewrite bind_Val;
    unfold append, add, size; rewrite (holds_source str ds Hstr), bind_Val; by apply joined_spec.
  1: injection E as <-; by apply reverse_spec.
  1: injection E as <-; apply modify_chars_spec; [exact lower_ascii|exact toLower_spec|done].
  1: injection E as <-; apply modify_chars_spec; [exact upper_ascii|exact toUpper_spec|done].
  1: injection E as <-; apply modified_copy_spec; [exact lower_ascii|exact toLower_spec|done].
  1: injection E as <-; apply modified_copy_spec; [exact upper_ascii|exact toUpper_spec|done].
  - destruct (k <? length cs)%nat eqn:E1; [|done]. injection E as <-. apply Nat.ltb_lt in E1. by apply substring_from_spec.
  - destruct ((k <? length cs)%nat && _) eqn:E1; [|done]. injection E as <-. apply andb_true_iff in E1 as [E1 E2]. apply Nat.ltb_lt in E1. zbool.
    by apply substring_spec.
Qed.

Definition run (ops : list op) (s : t) : outcome t := foldl (fun s o => s ← s; apply o s) (Val s) ops.
Definition run_spec (ops : list op) (cs : list Z) : option (list Z) := foldl (fun cs o => cs ← cs; apply_spec o cs) (Some cs) ops.

Lemma run_holds ops : forall s cs cs', holds s cs -> run_spec ops cs = Some cs' -> exists s', run ops s = Val s' /\ holds s' cs'.
Proof.
  unfold run, run_spec. induction ops as [|o ops IH]; intros s cs cs' Hs E; cbn [foldl] in *; [injection E as <-; by exists s|].
  rewrite bind_Val. cbn [mbind option_bind] in E.
  destruct (apply_spec o cs) as [cs1|] eqn:E1.
  - destruct (apply_holds o s cs cs1 Hs E1) as (s1 & -> & H1). by apply (IH s1 cs1).
  - exfalso. clear -E. induction ops as [|o' ops IH]; [done|]. by apply IH.
Qed.

(** C19: A string behaves as the sequence of its characters: built from code points below U+80000
    other than NUL, after any sequence of appending, reversal, changes of case and taking parts,
    its characters, length, indexing, iteration and text, and the position of a pattern of at
    most two bytes, are those of the sequence that the same operations on lists give. *)
Theorem sstring_refines_chars (cs cs' : list Z) (ops : list op) :
  chars_ok cs = true -> fits cs = true -> run_spec ops cs = Some cs' ->
  exists s0 s, fromSChars cs = Val s0 /\ run ops s0 = Val s /\
    toChars s = Val cs' /\ len s = Val (zlen cs') /\ toString s = Val (text cs') /\
    (forall i, 0 <= i < 2 ^ 64 - 1 -> at_index s i = Val (default 0 (cs' !! Z.to_nat i))) /\
    (exists first stop, begin_ s = Val first /\ end_ s = Val stop /\ for_each (S (length cs')) first stop = Val cs') /\
    (forall ds fuel, chars_ok ds = true -> zlen (text ds) <= 2 -> zlen (text cs') < LIMIT - 2 -> (2 * length (text cs') + 2 < fuel)%nat ->
      find fuel s (text ds ++ [0]) = Val (match Text.find ds cs' with Some k => Z.of_nat k | None => -1 end)).
Proof.
  intros Hcs Hf Hr. destruct (fromSChars_spec cs) as (s0 & E0 & H0); [by apply chars_ok_spec|unfold fits in Hf; by zbool|].
  destruct (run_holds ops s0 cs cs' H0 Hr) as (s & E & Hs). exists s0, s.
  split; [done|]. split; [done|]. split; [by apply toChars_spec|]. split; [by apply len_spec|]. split; [by apply toString_spec|].
  split; [intros i Hi; by apply at_index_spec|]. split; [by apply iteration_spec|].
  intros ds fuel Hds Hn Hl Hfu. apply (sstring_find_spec s cs' ds []); try done. by apply chars_ok_spec.
Qed.

(** The text "Größe 世" is reversed, cut, extended and put in capitals. *)
Abbreviation sample_chars := [71; 114; 246; 223; 101; 32; 19990].
Abbreviation sample_ops := [Reverse; Sub 1 5; Append [8364; 98]; UpperCopy].
Lemma sstring_refines_chars_witness : exists s0 s, fromSChars sample_chars = Val s0 /\ run sample_ops s0 = Val s /\
  toChars s = Val [32; 69; 223; 246; 82; 8364; 66] /\ at_index s 5 = Val 8364 /\ find 100 s [195; 159; 0] = Val 2.
Proof.
  destruct (sstring_refines_chars sample_chars [32; 69; 223; 246; 82; 8364; 66] sample_ops) as (s0 & s & E0 & E & C & _ & _ & A & _ & F).
  - reflexivity.
  - vm_compute. reflexivity.
  - vm_compute. reflexivity.
  - exists s0, s. split; [exact E0|]. split; [exact E|]. split; [exact C|]. split; [apply (A 5); lia|].
    apply (F [223] 100%nat); [reflexivity|vm_compute; discriminate|vm_compute; reflexivity|apply Nat.ltb_lt; vm_compute; reflexivity].
Defined.

(** ** Edges *)

(** Splitting a text in which the separator does not occur reads outside of it. *)
Lemma split_absent s m str size bm : data s = Some m -> strlen str = Val size -> BM bm m str = Val (-1) -> zlen m < 2 ^ 63 -> split bm s str = Undef.
Proof.
  intros Hd Hl Hb Hm. unfold split, mem, getByteLengthFromUTF8String. rewrite Hd. cbn [of_option]. rewrite bind_Val, Hl, bind_Val, Hb, bind_Val.
  change (u64 (-1)) with (2 ^ 64 - 1). cbn [split_loop]. rewrite (zdrop_0 0 m) by lia. unfold of_bytes, memread.
  change (u64 (2 ^ 64 - 1 - 0)) with (2 ^ 64 - 1). by rewrite (proj2 (Z.leb_gt (0 + (2 ^ 64 - 1)) _)), andb_false_r by lia.
Qed.

Lemma split_absent_example : (s ← view (str "abc" ++ [0]); split 100 s (str "," ++ [0])) = Undef.
Proof. exact (split_absent (Make (Some (str "abc" ++ [0])) 3 0) _ (str "," ++ [0]) 1 100 eq_refl eq_refl eq_refl eq_refl). Qed.

(** A blank inside the text is counted with those that are taken off. *)
Example trim_inner_blank : (s ← view (str "a b" ++ [0]); s ← trim s; toString s) = Val (str "a ").
Proof. vm_compute. reflexivity. Qed.

(** The characters from U+80000 on have no size, and the memory is spoilt. *)
Example high_planes_lost : fromSChars [524288] = Undef.
Proof. vm_compute. reflexivity. Qed.

(** The null string cannot be copied. *)
Example copy_null : copy null = Undef.
Proof. vm_compute. reflexivity. Qed.

(** The bounds of the letters are left out. *)
Example lower_bounds : (s ← view (str "AZ" ++ [0]); isLower s) = Val true.
Proof. vm_compute. reflexivity. Qed.

(** Iteration over a byte that starts no character does not move. *)
Example iteration_stuck : (s ← view [255; 0]; first ← begin_ s; next first) = (s ← view [255; 0]; begin_ s).
Proof. vm_compute. reflexivity. Qed.
