(* ===== verification/SStringBuilder.v ===== *)
(** * The builder of Unicode strings

    Models [sese/text/SStringBuilder.{h,cpp}]: a block of code points with its size and capacity.
    [malloc] leaves the block uninitialised; a builder that was moved from has no block. *)

From S2P Require Import Prelude Text Words Algorithm Utf8 SString SStringChars Cells.

(*@ sese/text/SStringBuilder.h 72-78 SStringBuilder *)
Record t := MkBuilder { _data : list Z; _size : Z; _cap : Z }.

(** [BLOCK_SIZE] in this file. *)
Definition BLOCK : Z := 1024.

(*@ sese/text/SStringBuilder.cpp 37-42 SStringBuilder::SStringBuilder *)
Definition copy (b : t) : outcome t :=
  data ← memread (_data b) 0 (_size b + 1);
  mem ← memcpy (malloc (_cap b)) 0 data;
  Val (MkBuilder mem (_size b) (_cap b)).
(*@ sese/text/SStringBuilder.cpp 44-52 SStringBuilder::SStringBuilder *)
Definition move (b : t) : t * t := (b, MkBuilder [] 0 0).
(*@ sese/text/SStringBuilder.cpp 54-57 SStringBuilder::SStringBuilder *)
Definition create (buffer_size : Z) : t := MkBuilder (malloc buffer_size) 0 buffer_size.

(*@ sese/text/SStringBuilder.cpp 125-136 SStringBuilder::reserve *)
Definition reserve (size : Z) (b : t) : outcome (bool * t) :=
  if _cap b <? size then
    data ← memread (_data b) 0 (_size b);
    mem ← memcpy (malloc size) 0 data;
    Val (true, MkBuilder mem (_size b) size)
  else Val (false, b).

(*@ sese/text/SStringBuilder.cpp 91-93 SStringBuilder::append *)
(** Room for [new_size] characters. *)
Definition ensure (new_size : Z) (b : t) : outcome t :=
  if _cap b <? new_size then '(_, b) ← reserve ((new_size / BLOCK + 1) * BLOCK) b; Val b else Val b.

(*@ sese/text/SStringBuilder.cpp 95-100 SStringBuilder::append *)
(** [count] characters of [str] from the byte [index] on. *)
Fixpoint append_loop (count : nat) (mem : list Z) (to : Z) (str : bytes) (index : Z) : outcome (list Z) :=
  match count with
  | O => Val mem
  | S count =>
      ch ← at_ str index;
      let n := getSizeFromUTF8Char ch in
      u ← getUnicodeCharFromUTF8Char n (zdrop index str);
      mem ← store mem to u;
      append_loop count mem (to + 1) str (index + n)
  end.

(** The common part of the two overloads. *)
Definition append_count (count : Z) (str : bytes) (b : t) : outcome t :=
  let new_size := u64 (count + _size b) in
  b ← ensure new_size b;
  mem ← append_loop (Z.to_nat count) (_data b) (_size b) str 0;
  Val (MkBuilder mem new_size (_cap b)).

(*@ sese/text/SStringBuilder.cpp 86-103 SStringBuilder::append *)
Definition append_cstr (str : bytes) (b : t) : outcome t :=
  count ← getStringLengthFromUTF8String str; append_count count str b.

(*@ sese/text/SStringBuilder.cpp 142-154 SStringBuilder::trim *)
(** The counts of blanks at the start and at the end: the loop stops at the first character
    from the end that is none. *)
Fixpoint trim_loop (k : nat) (data : list Z) (size n i j : Z) (flag : bool) : outcome (Z * Z) :=
  match k with
  | O => Val (i, j)
  | S k =>
      a ← load data n;
      let flag := flag && (32 =? a) in
      let i := if flag then i + 1 else i in
      z ← load data (size - 1 - n);
      if 32 =? z then trim_loop k data size (n + 1) i (j + 1) flag else Val (i, j)
  end.

(*@ sese/text/SStringBuilder.cpp 138-167 SStringBuilder::trim *)
(** The size stays as it is. *)
Definition trim (b : t) : outcome t :=
  '(i, j) ← trim_loop (Z.to_nat (_size b)) (_data b) (_size b) 0 0 0 true;
  if u64 (i + j) =? _size b then mem ← store (_data b) 0 0; Val (MkBuilder mem (_size b) (_cap b))
  else
    let len := u64 (_size b - j - i) in
    mem ← copy_down (Z.to_nat len) (_data b) 0 i;
    mem ← store mem len 0;
    Val (MkBuilder mem (_size b) (_cap b)).

(*@ sese/text/SStringBuilder.cpp 179-182 SStringBuilder::clear *)
Definition clear (b : t) : outcome t := mem ← store (_data b) 0 0; Val (MkBuilder mem 0 (_cap b)).

(*@ sese/text/SStringBuilder.cpp 192-194 SStringBuilder::toString *)
Definition toString (b : t) : outcome SString.t := chars ← memread (_data b) 0 (_size b); SString.fromSChars chars.

(*@ sese/text/SStringBuilder.cpp 201-204 SStringBuilder::find *)
Definition find (fuel : nat) (str : SString.t) (b : t) : outcome Z :=
  sub ← SString.toChars str; s ← memread (_data b) 0 (_size b); BM_chars fuel s sub.
(*@ sese/text/SStringBuilder.cpp 196-199 SStringBuilder::find *)
Definition find_cstr (fuel : nat) (str : bytes) (b : t) : outcome Z := v ← SString.view str; find fuel v b.

(** [index + 1 > _size]: the position is not in the string. *)
Definition outside (index : Z) (b : t) : bool := _size b <? u64 (index + 1).

(*@ sese/text/SStringBuilder.cpp 206-211 SStringBuilder::set *)
Definition set (index ch : Z) (b : t) : outcome t :=
  if outside index b then Val b else mem ← store (_data b) index ch; Val (MkBuilder mem (_size b) (_cap b)).


(*@ sese/text/SStringBuilder.cpp 282-284 SStringBuilder::insert *)
(** Characters to consecutive cells. *)
Fixpoint put (mem : list Z) (index : Z) (chars : list Z) : outcome (list Z) :=
  match chars with [] => Val mem | c :: chars => mem ← store mem index c; put mem (index + 1) chars end.


(*@ sese/text/SStringBuilder.cpp 333-357 SStringBuilder::replace *)
Definition replace (begin len : Z) (str : SString.t) (b : t) : outcome t :=
  if outside begin b then Val b
  else
    chars ← SString.toChars str;
    let char_size := zlen chars in
    let new_size := u64 (_size b - len + char_size) in
    b ← ensure new_size b;
    mem ← (if len <? char_size then RightShiftElement (_data b) (_size b) (begin + len) (char_size - len)
           else if char_size <? len then LeftShiftElement (_data b) (_size b) (begin + char_size) (len - char_size)
           else Val (_data b));
    mem ← put mem begin chars;
    Val (MkBuilder mem new_size (_cap b)).

(** ** What the operations mean *)

(** A builder with a block of [c] code points that holds [s]. *)
Definition builds (b : t) (s : list Z) (c : Z) : Prop :=
  _cap b = c /\ c < 2 ^ 40 /\ _size b = zlen s /\ exists g, _data b = s ++ g /\ zlen s + zlen g = c.

Lemma builds_intro c k mem s g : k = zlen s -> mem = s ++ g -> c < 2 ^ 40 -> zlen s + zlen g = c -> builds (MkBuilder mem k c) s c.
Proof. intros -> -> Hc Hg. split; [done|]. split; [done|]. split; [done|]. by exists g. Qed.

(** Opens a builder: its string, what is behind it, and their lengths. *)
Ltac open_builder b Hh g :=
  let Hcap := fresh in let Hmax := fresh "Hmax" in let Hlen := fresh in let Hb := fresh in let Hg := fresh "Hg" in
  destruct Hh as (Hcap & Hmax & Hlen & g & Hb & Hg); destruct b as [? ? ?]; cbn [_cap _size _data] in *; subst;
  pose proof (zlen_nonneg g).

(** The operations: [Append] and the like take a string object with the characters [cs], the others a C string. *)
Inductive Op :=
| Append (cs : list Z) | AppendCstr (cs : list Z) | Trim | Reverse | Clear | Set_ (index ch : Z) | RemoveAt (index : Z) | Remove (begin len : Z) | SubstringFrom (begin : Z)
| Substring (begin len : Z) | Insert (index ch : Z) | InsertStr (index : Z) (cs : list Z) | InsertCstr (index : Z) (cs : list Z)
| Replace (begin len : Z) (cs : list Z) | ReplaceCstr (begin len : Z) (cs : list Z).



Definition grown (n c : Z) : Z := if c <? n then (n / BLOCK + 1) * BLOCK else c.

(** The blanks at the start. *)
Fixpoint blanks (s : list Z) : Z := match s with [] => 0 | c :: s => if 32 =? c then 1 + blanks s else 0 end.

(** On a string in a block of [c] code points; [None] when the code leaves the block. *)
Definition spec (op : Op) (s : list Z) (c : Z) : option (list Z * Z) :=
  let n := zlen s in
  match op with
  | Append cs | AppendCstr cs => Some (s ++ cs, grown (n + zlen cs) c)
  | Trim =>
      (* blanks at the start are counted only as long as those at the end are *)
      let j := blanks (rev s) in
      let i := Z.min (blanks s) (j + 1) in
      let l := n - j - i in
      if bool_decide (blanks s = n) then if bool_decide (n = 0 /\ 0 < c) then Some (s, c) else None
      else if bool_decide (l < c) then
        (* the size stays: a zero follows what is kept, and then the old characters *)
        Some (ztake n (ztake l (zdrop i s) ++ 0 :: zdrop (l + 1) s), c)
      else None
  | Reverse => Some (rev s, c)
  | Clear => if bool_decide (0 < c) then Some ([], c) else None
  | Set_ i x => Some (if bool_decide (i < n) then ztake i s ++ x :: zdrop (i + 1) s else s, c)
  | RemoveAt i =>
      if bool_decide (i < n) then if bool_decide (n < c) then Some (ztake i s ++ zdrop (i + 1) s, c) else None else Some (s, c)
  | Remove i l =>
      if bool_decide (i < n) then
        (* the last character always stays *)
        let l := Z.min l (n - i - 1) in
        if bool_decide (n + l <= c) then Some (ztake i s ++ zdrop (i + l) s, c) else None
      else Some (s, c)
  | SubstringFrom i => Some (if bool_decide (i < n) then zdrop i s else s, c)
  | Substring i l => Some (if bool_decide (i < n) then ztake l (zdrop i s) else s, c)
  | Insert i x => if bool_decide (i < n) then Some (ztake i s ++ x :: zdrop i s, if c <? n + 1 then (c / BLOCK + 1) * BLOCK else c) else Some (s, c)
  | InsertStr i cs | InsertCstr i cs => if bool_decide (i < n) then Some (ztake i s ++ cs ++ zdrop i s, grown (n + zlen cs) c) else Some (s, c)
  | Replace i l cs | ReplaceCstr i l cs =>
      if bool_decide (i < n) then
        if bool_decide (zlen cs < l /\ c < n + l - zlen cs) then None
        else Some (ztake i s ++ cs ++ zdrop (i + l) s, grown (n - l + zlen cs) c)
      else Some (s, c)
  end.











(** What an operation does is what its specification says. *)
Definition implements (m : outcome t) (r : option (list Z * Z)) : Prop :=
  match r with Some (s, c) => exists b, m = Val b /\ builds b s c | None => m = Undef end.

Lemma implements_intro c k mem s g : k = zlen s -> mem = s ++ g -> c < 2 ^ 40 -> zlen s + zlen g = c -> implements (Val (MkBuilder mem k c)) (Some (s, c)).
Proof. intros. eexists. split; [done|]. by eapply builds_intro. Qed.

(** ** Appending *)







(** ** Trimming *)

Lemma blanks_nonneg s : 0 <= blanks s.
Proof. induction s as [|c s IH]; cbn [blanks]; [done|]. destruct (32 =? c); lia. Qed.

Lemma blanks_bound s : blanks s <= zlen s.
Proof. induction s as [|c s IH]; cbn [blanks]; [done|]. rewrite zlen_cons. pose proof (zlen_nonneg s). destruct (32 =? c); lia. Qed.

Lemma blanks_stop l x r : x <> 32 -> blanks (l ++ x :: r) <= zlen l.
Proof.
  intros Hx. induction l as [|c l IH]; cbn [app blanks].
  - by rewrite (proj2 (Z.eqb_neq 32 x)) by done.
  - rewrite zlen_cons. pose proof (zlen_nonneg l). destruct (32 =? c); lia.
Qed.

Lemma blanks_split s : blanks s < zlen s -> exists p x r, s = p ++ x :: r /\ x <> 32 /\ zlen p = blanks s.
Proof.
  induction s as [|c s IH]; cbn [blanks]; [done|]. rewrite zlen_cons. destruct (32 =? c) eqn:E; zbool; intros Hs.
  - destruct IH as (p & x & r & -> & Hx & Hp); [lia|]. exists (c :: p), x, r. rewrite zlen_cons. split; [done|]. split; [done|lia].
  - exists [], c, s. split; [done|]. by split.
Qed.

(** Blanks at both ends of a text that has another character. *)
Lemma blanks_ends s : blanks s <> zlen s -> blanks s + blanks (rev s) < zlen s.
Proof.
  intros Hs. pose proof (blanks_bound s). destruct (blanks_split s) as (p & x & r & -> & Hx & <-); [lia|].
  rewrite rev_app_distr. cbn [rev]. rewrite <- app_assoc. pose proof (blanks_stop (rev r) x (rev p) Hx) as Hr. rewrite zlen_rev in Hr.
  rewrite zlen_app, zlen_cons. cbn [app]. lia.
Qed.

Lemma blanks_all s : blanks s = zlen s -> blanks (rev s) = zlen s.
Proof.
  intros Hs. pose proof (blanks_bound (rev s)) as Hb. rewrite zlen_rev in Hb. destruct (decide (blanks (rev s) = zlen s)) as [|Hne]; [done|].
  destruct (blanks_split (rev s)) as (p & x & r & E & Hx & _); [rewrite zlen_rev; lia|]. apply (f_equal (@rev Z)) in E.
  rewrite rev_involutive, rev_app_distr in E. cbn [rev] in E. rewrite <- app_assoc in E. cbn [app] in E. subst s.
  pose proof (blanks_stop (rev r) x (rev p) Hx). rewrite zlen_app, zlen_cons in Hs. pose proof (zlen_nonneg (rev p)). lia.
Qed.

Lemma trim_loop_spec s g f : forall p q r i j flag, s = p ++ f -> rev s = q ++ r -> length p = length q ->
  trim_loop (length f) (s ++ g) (zlen s) (zlen p) i j flag = Val (i + (if flag then Z.min (blanks f) (blanks r + 1) else 0), j + blanks r).
Proof.
  induction f as [|a f IH]; intros p q r i j flag Hs Hr Hl.
  - assert (r = []) as ->. { apply (f_equal length) in Hr. rewrite length_rev, Hs, !length_app in Hr. destruct r; [done|]. cbn in Hr. lia. }
    cbn. by destruct flag; rewrite !Z.add_0_r.
  - destruct r as [|z r]; [apply (f_equal length) in Hr; rewrite length_rev, Hs, !length_app in Hr; cbn in Hr; lia|].
    assert (s = rev r ++ z :: rev q) as Hs'.
    { apply (f_equal (@rev Z)) in Hr. rewrite rev_involutive, rev_app_distr in Hr. cbn [rev] in Hr. by rewrite <- app_assoc in Hr. }
    cbn [length trim_loop]. rewrite Hs at 1. rewrite <- app_assoc. cbn [app]. rewrite load_at, bind_Val by done.
    rewrite Hs' at 1. rewrite <- app_assoc. cbn [app].
    rewrite load_at, bind_Val by (rewrite Hs', zlen_app, zlen_cons; unfold zlen; rewrite !length_rev; lia).
    assert (zlen p + 1 = zlen (p ++ [a])) as Hp by by rewrite zlen_app.
    pose proof (blanks_nonneg f). pose proof (blanks_nonneg r). cbn [blanks]. rewrite (Z.eqb_sym 32 a), (Z.eqb_sym 32 z) in *.
    destruct (z =? 32); [|by destruct flag, (a =? 32); cbn [andb]; do 2 f_equal; lia].
    rewrite Hp, (IH (p ++ [a]) (q ++ [z]) r) by (rewrite <- ?app_assoc, ?length_app; cbn [app length]; (done || lia)).
    destruct flag, (a =? 32); cbn [andb]; do 2 f_equal; lia.
Qed.

Lemma builder_trim_spec b s c : builds b s c -> implements (trim b) (spec Trim s c).
Proof.
  intros Hh. open_builder b Hh g. unfold trim. cbn [_data _size _cap]. replace (Z.to_nat (zlen s)) with (length s) by (unfold zlen; lia).
  pose proof (trim_loop_spec s g s [] [] (rev s) 0 0 true eq_refl eq_refl eq_refl) as E. change (zlen (@nil Z)) with 0 in E. rewrite E, bind_Val, !Z.add_0_l. clear E.
  pose proof (zlen_nonneg s). pose proof (blanks_nonneg s). pose proof (blanks_bound s). pose proof (blanks_nonneg (rev s)). cbn [spec].
  case_bool_decide as Hall.
  - rewrite (blanks_all s Hall), Hall, Z.min_l by lia. rewrite wrap_small by (unfold is_u; lia). destruct (zlen s + zlen s =? zlen s) eqn:E0; zbool.
    + assert (s = []) as -> by (destruct s; [done|rewrite zlen_cons in *; pose proof (zlen_nonneg s); lia]). cbn [app].
      case_bool_decide as Hc0; [|by rewrite store_out by lia]. destruct g as [|x g]; [change (zlen (@nil Z)) with 0 in *; lia|].
      pose proof (store_at [] x 0 g 0 eq_refl) as Ex. cbn [app] in Ex. rewrite Ex, bind_Val. by apply (implements_intro _ _ _ _ (0 :: g)).
    + rewrite bool_decide_eq_false_2 by lia. cbv zeta. rewrite copy_down_out; [done|lia|rewrite zlen_app; lia|].
      rewrite Z2Nat.id by (unfold wrap; apply Z.mod_pos_bound; lia). rewrite zlen_app.
      assert (u64 (zlen s - zlen s - zlen s) = 2 ^ 64 - zlen s) as -> by (unfold wrap; symmetry; apply (Z.mod_unique_pos _ _ (-1)); lia). lia.
  - pose proof (blanks_ends s Hall). set (j := blanks (rev s)) in *. set (i := Z.min (blanks s) (j + 1)) in *. assert (0 <= i <= blanks s) as Hi by lia. clearbody i.
    rewrite !wrap_small by (unfold is_u; lia). rewrite (proj2 (Z.eqb_neq _ _)) by lia. cbv zeta. set (l := zlen s - j - i) in *. assert (0 < l /\ i + l <= zlen s) as Hl by lia.
    clearbody l j. rewrite copy_down_exact by (rewrite ?zlen_app; lia). rewrite bind_Val, ztake_0, Z2Nat.id, Z.add_0_l by lia. cbn [app].
    rewrite (zdrop_app_le i), ztake_app_le by (rewrite ?zlen_zdrop; lia). assert (zlen (ztake l (zdrop i s)) = l) as Hz by (apply zlen_ztake; rewrite zlen_zdrop; lia).
    case_bool_decide as Hlc.
    + destruct (zdrop l (s ++ g)) as [|x rest] eqn:Er; [apply (f_equal zlen) in Er; rewrite zlen_zdrop, zlen_app in Er by (rewrite ?zlen_app; lia); change (zlen (@nil Z)) with 0 in Er; lia|].
      rewrite store_at, bind_Val by done. assert (rest = zdrop (l + 1) (s ++ g)) as ->. { rewrite <- zdrop_zdrop, Er by lia. done. }
      destruct (decide (l = zlen s)) as [El|Nl].
      * apply (implements_intro _ _ _ _ (0 :: zdrop (l + 1) (s ++ g))).
        -- rewrite zlen_ztake; [done|]. rewrite zlen_app, zlen_cons. pose proof (zlen_nonneg (zdrop (l + 1) s)). lia.
        -- rewrite ztake_app_exact by lia. done.
        -- done.
        -- rewrite ztake_app_exact by lia. rewrite zlen_cons, zlen_zdrop, zlen_app by (rewrite ?zlen_app; lia). lia.
      * rewrite (zdrop_app_le (l + 1)) by lia. rewrite (ztake_ge (zlen s)) by (rewrite zlen_app, zlen_cons, zlen_zdrop by lia; lia).
        apply (implements_intro _ _ _ _ g); [|by rewrite <- app_assoc|done|]; rewrite zlen_app, zlen_cons, zlen_zdrop by lia; lia.
    + rewrite store_out; [done|]. rewrite zlen_app, zlen_zdrop, zlen_app by (rewrite ?zlen_app; lia). lia.
Qed.






















(** ** Any sequence of operations *)






(** Greek letters and blanks; and a block filled to its end. *)
Abbreviation builder_ops := [Append [945; 946; 947; 948]; Reverse; InsertStr 1 [8364; 65]; Replace 0 2 [66]; Remove 3 9; Set_ 0 67;
  InsertCstr 0 [32; 32; 233]; ReplaceCstr 3 1 [97; 98]; AppendCstr [32]; Trim].

(** ** Edges *)

(** Trimming moves the characters and leaves the size: what was behind them stays. *)
Example trim_keeps_size : (b ← append_cstr (str "  ab " ++ [0]) (create 8); b ← trim b; s ← toString b; SString.toChars s) = Val [97; 98].
Proof. vm_compute. reflexivity. Qed.

(** No more than one blank is taken from the start of a text that has none at the end. *)
Example trim_one_side : (b ← append_cstr (str "   ab" ++ [0]) (create 8); b ← trim b; s ← toString b; SString.toChars s) = Val [32; 32; 97; 98].
Proof. vm_compute. reflexivity. Qed.

(** Blanks are counted from both sides: a string of blanks alone has a negative rest, which wraps around. *)
Lemma trim_blank b m c : builds b (repeat 32 (S m)) c -> trim b = Undef.
Proof.
  intros Hh. pose proof (builder_trim_spec b _ c Hh) as Ht. cbn [spec] in Ht.
  assert (blanks (repeat 32 (S m)) = zlen (repeat 32 (S m))) as E.
  { rewrite zlen_repeat. clear. induction (S m) as [|k IH]; [done|]. cbn [repeat blanks]. rewrite IH. change (32 =? 32) with true. lia. }
  rewrite bool_decide_eq_true_2 in Ht by done. rewrite bool_decide_eq_false_2 in Ht; [exact Ht|]. rewrite zlen_repeat. lia.
Qed.

(** A builder whose block is full cannot be copied: a character more is read. *)
Lemma copy_full b s : builds b s (zlen s) -> copy b = Undef.
Proof.
  intros Hh. open_builder b Hh g. unfold copy. cbn [_data _size]. assert (memread (s ++ g) 0 (zlen s + 1) = Undef) as ->; [|done].
  unfold memread. rewrite (proj2 (Z.leb_gt (0 + (zlen s + 1)) _)), andb_false_r by (rewrite zlen_app; lia). done.
Qed.
