(* ===== verification/Threads.v ===== *)
(** * Threads and atomic objects

    What the lock-free structures share: threads that run operations step by step over a shared memory, the schedules that
    order their steps, and the specification of an object whose operations are atomic. *)

From S2P Require Import Prelude.

Section Threads.
Context {Op Res Pc Shared Contents : Type}.

(** ** Executions *)

(** A thread that is not in an operation, the start of an operation, its result when it is about to return, and a step: [fresh] is
    the address that an allocation returns, [weak] lets a weak compare and exchange fail without a reason. *)
Class Program := {
  idle : Pc; is_idle : Pc -> bool;
  start : Op -> Pc;
  result : Pc -> option Res;
  thread_step : nat -> bool -> Shared -> Pc -> option (outcome (Shared * Pc)) }.
Context `{Program}.

(** What a schedule lets a thread do: call an operation, take a step, or return. *)
Inductive Action := Call (o : Op) | Run (fresh : nat) (weak : bool) | Return.
Inductive Event := ECall (tid : nat) (o : Op) | EReturn (tid : nat) (r : Res).

Record State := MkState { shared : Shared; threads : list Pc }.

Definition do_action (tid : nat) (a : Action) (s : State) : option (outcome (State * list Event)) :=
  p ← threads s !! tid;
  match a with
  | Call o => if is_idle p then Some (Val (MkState (shared s) (<[tid := start o]> (threads s)), [ECall tid o])) else None
  | Return => r ← result p; Some (Val (MkState (shared s) (<[tid := idle]> (threads s)), [EReturn tid r]))
  | Run fresh weak =>
      m ← thread_step fresh weak (shared s) p;
      Some ('(sh, p) ← m; Val (MkState sh (<[tid := p]> (threads s)), []))
  end.

(** A schedule is executed from left to right; [None] when an action is not possible. *)
Fixpoint exec (schedule : list (nat * Action)) (s : State) : option (outcome (State * list Event)) :=
  match schedule with
  | [] => Some (Val (s, []))
  | (tid, a) :: schedule =>
      m ← do_action tid a s;
      match m with
      | Undef => Some Undef
      | Val (s, e) =>
          m ← exec schedule s;
          Some ('(s, es) ← m; Val (s, e ++ es))
      end
  end.

(** ** Atomic objects *)

(** An operation takes effect once, between its call and its return. *)
Inductive Status := AIdle | APending (o : Op) | ADone (r : Res).
Record Spec := MkSpec { contents : Contents; status : list Status }.

Context (effect : Op -> Contents -> Contents * Res).

Inductive spec_step : Spec -> list Event -> Spec -> Prop :=
| spec_call a tid o : status a !! tid = Some AIdle ->
    spec_step a [ECall tid o] (MkSpec (contents a) (<[tid := APending o]> (status a)))
| spec_effect a tid o : status a !! tid = Some (APending o) ->
    spec_step a [] (MkSpec (fst (effect o (contents a))) (<[tid := ADone (snd (effect o (contents a)))]> (status a)))
| spec_return a tid r : status a !! tid = Some (ADone r) ->
    spec_step a [EReturn tid r] (MkSpec (contents a) (<[tid := AIdle]> (status a))).

Inductive spec_trace : Spec -> list Event -> Spec -> Prop :=
| trace_nil a : spec_trace a [] a
| trace_step a b c e es : spec_step a e b -> spec_trace b es c -> spec_trace a (e ++ es) c.

Lemma trace_app a e b es c : spec_trace a e b -> spec_trace b es c -> spec_trace a (e ++ es) c.
Proof. induction 1 as [|a0 b0 c0 e0 es0 Hs _ IH]; [done|]. intros Hc. rewrite <- app_assoc. eapply trace_step; [exact Hs|by apply IH]. Qed.

Lemma trace_one a e b : spec_step a e b -> spec_trace a e b.
Proof. intros Hs. rewrite <- (app_nil_r e). by apply trace_step with b; [|constructor]. Qed.

(** ** Simulation *)

(** A relation that every action preserves, when the specification takes the same visible steps. *)
Lemma exec_simulates (R : State -> Spec -> Prop) (ok : nat * Action -> Prop) :
  (forall s a tid act m, R s a -> ok (tid, act) -> do_action tid act s = Some m ->
     exists s' e a', m = Val (s', e) /\ spec_trace a e a' /\ R s' a') ->
  forall schedule s a m, Forall ok schedule -> R s a -> exec schedule s = Some m ->
    exists s' es a', m = Val (s', es) /\ spec_trace a es a' /\ R s' a'.
Proof.
  intros Hstep schedule. induction schedule as [|[tid act] schedule IH]; intros s a m Hok HR E; cbn [exec] in E.
  - injection E as <-. exists s, [], a. split; [done|]. split; [constructor|done].
  - apply Forall_cons in Hok as [Hok1 Hok]. destruct (do_action tid act s) as [m1|] eqn:E1; [|done]. cbn [mbind option_bind] in E.
    destruct (Hstep s a tid act m1 HR Hok1 E1) as (s1 & e & a1 & -> & T1 & R1).
    destruct (exec schedule s1) as [m2|] eqn:E2; [|done]. injection E as <-.
    destruct (IH s1 a1 m2 Hok R1 E2) as (s2 & es & a2 & -> & T2 & R2). exists s2, (e ++ es), a2.
    split; [done|]. split; [by eapply trace_app|done].
Qed.
End Threads.
Arguments Program : clear implicits.
Arguments Action : clear implicits.
Arguments Event : clear implicits.
Arguments State : clear implicits.
Arguments Status : clear implicits.
Arguments Spec : clear implicits.
