(* ===== verification/LinkedStack.v ===== *)
(** * The lock-free stack

    Models [sese/concurrent/LinkedStack.h]: a stack of nodes whose operations are run by many
    threads at once. Each access to shared memory is a step; the nodes live in a heap where
    [new] may return any address that is free, also one that was deleted before. The atomic
    operations are sequentially consistent, as their default is, and a weak compare and
    exchange may fail without a reason. *)

From stdpp Require Import gmap.
From S2P Require Import Prelude Threads.

Module LinkedStack.
Section Stack.
Context {V : Type}.

Abbreviation loc := nat.

(*@ sese/concurrent/LinkedStack.h 36-39 LinkedStack::Node *)
Record Node := MkNode { value : V; next : option loc }.

(*@ sese/concurrent/LinkedStack.h 41-41 LinkedStack *)
(** The shared memory: the root and the nodes that are allocated. *)
Record Shared := MkShared { root : option loc; heap : gmap loc Node }.

Definition empty_stack : Shared := MkShared None ∅.

Inductive Op := Push (v : V) | Pop | Empty.
Inductive Res := Pushed | Popped (v : V) | Nothing | IsEmpty (b : bool).

(** Where a thread is in its operation; [Done]: it is about to return. *)
Inductive Pc :=
| Idle
| PushNew (v : V) | PushLoad (new_node : loc) | PushStore (new_node : loc) (current_root : option loc)
| PushCas (new_node : loc) (current_root : option loc)
| PopLoad | PopNext (old_root : loc) | PopCas (old_root : loc) (new_root : option loc)
| PopRead (old_root : loc) | PopDelete (old_root : loc) (v : V)
| EmptyLoad
| Done (r : Res).

Definition start_op (o : Op) : Pc := match o with Push v => PushNew v | Pop => PopLoad | Empty => EmptyLoad end.

(** [root.compare_exchange_weak(expected, desired)]; [weak]: it fails without a reason. *)
Definition compare_exchange_weak (weak : bool) (s : Shared) (expected desired : option loc) : bool * Shared :=
  if negb weak && bool_decide (root s = expected) then (true, MkShared desired (heap s)) else (false, s).

(*@ sese/concurrent/LinkedStack.h 53-65 LinkedStack::push *)
(** A step of a thread in [push]; [fresh] is the address that [new] returns. [None]: the
    step is not possible. *)
Definition push_step (fresh : loc) (weak : bool) (s : Shared) (p : Pc) : option (outcome (Shared * Pc)) :=
  match p with
  | PushNew v =>
      match heap s !! fresh with
      | Some _ => None
      | None => Some (Val (MkShared (root s) (<[fresh := MkNode v None]> (heap s)), PushLoad fresh))
      end
  | PushLoad n => Some (Val (s, PushStore n (root s)))
  | PushStore n current_root =>
      Some (node ← of_option (heap s !! n);
            Val (MkShared (root s) (<[n := MkNode (value node) current_root]> (heap s)), PushCas n current_root))
  | PushCas n current_root =>
      let '(ok, s) := compare_exchange_weak weak s current_root (Some n) in
      Some (Val (s, if ok then Done Pushed else PushLoad n))
  | _ => None
  end.

(*@ sese/concurrent/LinkedStack.h 67-83 LinkedStack::pop *)
(** A use of a node that is not allocated is undefined. *)
Definition pop_step (weak : bool) (s : Shared) (p : Pc) : option (outcome (Shared * Pc)) :=
  match p with
  | PopLoad => Some (Val (s, match root s with None => Done Nothing | Some old_root => PopNext old_root end))
  | PopNext old_root => Some (node ← of_option (heap s !! old_root); Val (s, PopCas old_root (next node)))
  | PopCas old_root new_root =>
      let '(ok, s) := compare_exchange_weak weak s (Some old_root) new_root in
      Some (Val (s, if ok then PopRead old_root else PopLoad))
  | PopRead old_root => Some (node ← of_option (heap s !! old_root); Val (s, PopDelete old_root (value node)))
  | PopDelete old_root v =>
      Some (_ ← of_option (heap s !! old_root); Val (MkShared (root s) (delete old_root (heap s)), Done (Popped v)))
  | _ => None
  end.

(*@ sese/concurrent/LinkedStack.h 85-87 LinkedStack::empty *)
Definition empty_step (s : Shared) (p : Pc) : option (outcome (Shared * Pc)) :=
  match p with EmptyLoad => Some (Val (s, Done (IsEmpty (bool_decide (root s = None))))) | _ => None end.

Definition stack_step (fresh : loc) (weak : bool) (s : Shared) (p : Pc) : option (outcome (Shared * Pc)) :=
  match p with
  | PushNew _ | PushLoad _ | PushStore _ _ | PushCas _ _ => push_step fresh weak s p
  | PopLoad | PopNext _ | PopCas _ _ | PopRead _ | PopDelete _ _ => pop_step weak s p
  | EmptyLoad => empty_step s p
  | Idle | Done _ => None
  end.

(*@ sese/concurrent/LinkedStack.h 44-51 LinkedStack::~LinkedStack *)
Fixpoint destroy_loop (fuel : nat) (h : gmap loc Node) (p_node : option loc) : outcome (gmap loc Node) :=
  match p_node, fuel with
  | None, _ => Val h
  | Some _, O => Undef
  | Some l, S fuel => node ← of_option (h !! l); destroy_loop fuel (delete l h) (next node)
  end.
(** Every round deletes a node. *)
Definition destroy (s : Shared) : outcome (gmap loc Node) := destroy_loop (size (heap s)) (heap s) (root s).

#[export] Instance stack_program : Program Op Res Pc Shared := {
  idle := Idle; is_idle p := match p with Idle => true | _ => false end; start := start_op;
  result p := match p with Done r => Some r | _ => None end; thread_step := stack_step }.

Definition init (n : nat) : State Pc Shared := MkState empty_stack (repeat Idle n).

(** ** The specification *)

Definition effect (o : Op) (l : list V) : list V * Res :=
  match o with
  | Push v => (v :: l, Pushed)
  | Pop => match l with [] => ([], Nothing) | v :: l => (l, Popped v) end
  | Empty => (l, IsEmpty (bool_decide (l = [])))
  end.

Definition spec_init (n : nat) : Spec Op Res (list V) := MkSpec [] (repeat AIdle n).

(** Only one thread takes elements out. *)
Definition one_consumer (consumer : nat) (x : nat * Action Op) : Prop := snd x = Call Pop -> fst x = consumer.

End Stack.
Arguments Op : clear implicits.
Arguments Res : clear implicits.
End LinkedStack.
