(* ===== verification/LinkedStackProof.v ===== *)
(** * The lock-free stack with one consumer

    While a single thread takes elements out, however many put elements in, every execution
    of [LinkedStack] is one of an atomic stack, never touches a node that is not allocated, and
    leaks none. With two consumers a node can be used after it was deleted. *)

From stdpp Require Import gmap.
From S2P Require Import Prelude Threads LinkedStack.
Import LinkedStack.

Ltac split_hyps := repeat match goal with H : exists _, _ |- _ => destruct H | H : _ /\ _ |- _ => destruct H end.

Section Proof.
Context {V : Type}.
Abbreviation SState := (State (@Pc V) (@Shared V)).
Abbreviation SSpec := (Spec (Op V) (Res V) (list V)).
Abbreviation SStatus := (Status (Op V) (Res V)).
Implicit Types (h : gmap nat (@Node V)) (ns : list (nat * V)) (p : @Pc V) (s : SState) (a : SSpec).

(** The nodes from a pointer on: their addresses and values. *)
Fixpoint chain h (r : option nat) ns : Prop :=
  match ns with
  | [] => r = None
  | (l, v) :: ns => r = Some l /\ exists n, h !! l = Some (MkNode v n) /\ chain h n ns
  end.

(** The node that belongs to a thread alone: not published yet, or taken out. *)
Definition owned p : option nat :=
  match p with PushLoad l | PushStore l _ | PushCas l _ | PopRead l | PopDelete l _ => Some l | _ => None end.

(** How a thread stands to the memory and to the specification. *)
Definition pc_ok (consumer tid : nat) h ns p (st : SStatus) : Prop :=
  match p with
  | Idle => st = AIdle
  | PushNew v => st = APending (Push v)
  | PushLoad l | PushStore l _ => exists v n, h !! l = Some (MkNode v n) /\ (l ∉ ns.*1) /\ st = APending (Push v)
  | PushCas l c => exists v, h !! l = Some (MkNode v c) /\ (l ∉ ns.*1) /\ st = APending (Push v)
  | PopLoad => tid = consumer /\ st = APending Pop
  | PopNext o => tid = consumer /\ o ∈ ns.*1 /\ st = APending Pop
  | PopCas o n => tid = consumer /\ o ∈ ns.*1 /\ (exists v, h !! o = Some (MkNode v n)) /\ st = APending Pop
  | PopRead o => tid = consumer /\ exists v n, h !! o = Some (MkNode v n) /\ (o ∉ ns.*1) /\ st = ADone (Popped v)
  | PopDelete o v => tid = consumer /\ (exists n, h !! o = Some (MkNode v n)) /\ (o ∉ ns.*1) /\ st = ADone (Popped v)
  | EmptyLoad => st = APending Empty
  | Done r => st = ADone r
  end.

Record refines (consumer : nat) s a ns : Prop := {
  r_chain : chain (heap (shared s)) (root (shared s)) ns;
  r_nodup : NoDup ns.*1;
  r_contents : contents a = ns.*2;
  r_length : length (status a) = length (threads s);
  r_threads tid p : threads s !! tid = Some p -> exists st, status a !! tid = Some st /\ pc_ok consumer tid (heap (shared s)) ns p st;
  r_owned t1 t2 p1 p2 l : threads s !! t1 = Some p1 -> threads s !! t2 = Some p2 -> owned p1 = Some l -> owned p2 = Some l -> t1 = t2;
  r_live l : is_Some (heap (shared s) !! l) -> l ∈ ns.*1 \/ exists tid p, threads s !! tid = Some p /\ owned p = Some l }.

(** ** The chain *)

Lemma chain_lookup h r ns l : chain h r ns -> l ∈ ns.*1 -> exists v n, h !! l = Some (MkNode v n).
Proof.
  revert r. induction ns as [|[l' v] ns IH]; intros r; cbn; [by intros _ ?%elem_of_nil|].
  intros (_ & n & Hl & Hc) [->|Hin]%elem_of_cons; [by exists v, n|by apply (IH n)].
Qed.

Lemma chain_frame h h' r ns : (forall l, l ∈ ns.*1 -> h' !! l = h !! l) -> chain h r ns -> chain h' r ns.
Proof.
  revert r. induction ns as [|[l v] ns IH]; intros r Hf; cbn; [done|]. intros (-> & n & Hl & Hc). split; [done|]. exists n.
  rewrite Hf by (apply elem_of_cons; by left). split; [done|]. apply IH; [|done]. intros l' Hl'. apply Hf. apply elem_of_cons. by right.
Qed.

(** What a step of another thread may change without harm. *)
Lemma pc_frame consumer tid h h' ns ns' p st : pc_ok consumer tid h ns p st ->
  (forall l, owned p = Some l -> h' !! l = h !! l /\ (l ∉ ns'.*1)) ->
  (tid = consumer -> forall l, l ∈ ns.*1 -> l ∈ ns'.*1 /\ h' !! l = h !! l) -> pc_ok consumer tid h' ns' p st.
Proof.
  intros Hp Ho Hc. destruct p as [|v|l|l c|l c| |o|o n|o|o v| |r]; cbn in *; try done.
  - destruct Hp as (v & n & Hl & _ & ->). destruct (Ho l eq_refl) as [-> Hn]. by exists v, n.
  - destruct Hp as (v & n & Hl & _ & ->). destruct (Ho l eq_refl) as [-> Hn]. by exists v, n.
  - destruct Hp as (v & Hl & _ & ->). destruct (Ho l eq_refl) as [-> Hn]. by exists v.
  - destruct Hp as (-> & Hin & ->). by destruct (Hc eq_refl o Hin).
  - destruct Hp as (-> & Hin & Hv & ->). destruct (Hc eq_refl o Hin) as [? ->]. done.
  - destruct Hp as (-> & v & n & Hl & _ & ->). destruct (Ho o eq_refl) as [-> Hn]. split; [done|]. by exists v, n.
  - destruct Hp as (-> & Hv & _ & ->). by destruct (Ho o eq_refl) as [-> Hn].
Qed.

(** ** A step of a thread *)

Section Step.
Context (consumer tid : nat) (s : SState) (a : SSpec) (ns : list (nat * V)) (p : @Pc V).
Context (HR : refines consumer s a ns) (Hp : threads s !! tid = Some p).

Lemma owned_live t q l : threads s !! t = Some q -> owned q = Some l -> is_Some (heap (shared s) !! l) /\ (l ∉ ns.*1).
Proof.
  intros Hq Ho. destruct (r_threads _ _ _ _ HR t q Hq) as (st & _ & Hok).
  destruct q; cbn in Ho; try done; injection Ho as ->; cbn in Hok; split_hyps; by split; [eexists|].
Qed.

(** The new state refines the new specification, when the thread itself and the change of the
    memory do: [st] is the thread's status if it changes. *)
Lemma refines_step sh' p' ns' st' :
  chain (heap sh') (root sh') ns' -> NoDup ns'.*1 ->
  pc_ok consumer tid (heap sh') ns' p' st' ->
  (forall t q l, t <> tid -> threads s !! t = Some q -> owned q = Some l -> heap sh' !! l = heap (shared s) !! l /\ (l ∉ ns'.*1)) ->
  (tid <> consumer -> forall l, l ∈ ns.*1 -> l ∈ ns'.*1 /\ heap sh' !! l = heap (shared s) !! l) ->
  (forall l, owned p' = Some l -> owned p = Some l \/ (forall t q, t <> tid -> threads s !! t = Some q -> owned q <> Some l)) ->
  (forall l, is_Some (heap sh' !! l) -> l ∈ ns'.*1 \/ owned p' = Some l \/ (is_Some (heap (shared s) !! l) /\ (l ∉ ns.*1) /\ owned p <> Some l)) ->
  refines consumer (MkState sh' (<[tid := p']> (threads s))) (MkSpec ns'.*2 (<[tid := st']> (status a))) ns'.
Proof.
  intros Hc Hnd Hok Hother Hns Hown Hlive. pose proof (lookup_lt_Some _ _ _ Hp) as Hlt. pose proof (r_length _ _ _ _ HR) as Hlen.
  constructor; cbn [shared threads contents status]; try done.
  - by rewrite !length_insert.
  - intros t q Hq. destruct (decide (t = tid)) as [->|Hne].
    + rewrite list_lookup_insert_eq in Hq by done. injection Hq as <-. exists st'. rewrite list_lookup_insert_eq by lia. done.
    + rewrite list_lookup_insert_ne in Hq by done. rewrite list_lookup_insert_ne by done. destruct (r_threads _ _ _ _ HR t q Hq) as (st & Hst & Hq').
      exists st. split; [done|]. apply (pc_frame _ _ _ _ _ _ _ _ Hq').
      * intros l Hl. by apply (Hother t q l).
      * intros ->. apply Hns. congruence.
  - assert (forall t q l, t <> tid -> threads s !! t = Some q -> owned p' = Some l -> owned q = Some l -> t = tid) as Hx.
    { intros t q l Hne Hq H1 H2. destruct (Hown l H1) as [H3|H3]; [by apply (r_owned _ _ _ _ HR t tid q p l)|by destruct (H3 t q Hne Hq)]. }
    intros t1 t2 p1 p2 l H1 H2 O1 O2. destruct (decide (t1 = tid)) as [->|N1], (decide (t2 = tid)) as [->|N2].
    + done.
    + rewrite list_lookup_insert_eq in H1 by done. rewrite list_lookup_insert_ne in H2 by done. injection H1 as <-. symmetry. by apply (Hx t2 p2 l).
    + rewrite list_lookup_insert_eq in H2 by done. rewrite list_lookup_insert_ne in H1 by done. injection H2 as <-. by apply (Hx t1 p1 l).
    + rewrite list_lookup_insert_ne in H1, H2 by done. by apply (r_owned _ _ _ _ HR t1 t2 p1 p2 l).
  - intros l Hl. destruct (Hlive l Hl) as [H|[H|(H1 & H2 & H3)]]; [by left|right|right].
    + exists tid, p'. by rewrite list_lookup_insert_eq.
    + destruct (r_live _ _ _ _ HR l H1) as [?|(t & q & Hq & Ho)]; [done|]. destruct (decide (t = tid)) as [->|Hne]; [congruence|].
      exists t, q. by rewrite list_lookup_insert_ne.
Qed.

(** Nothing changes but the thread's place in its operation and its status. *)
Lemma refines_place p' st' : pc_ok consumer tid (heap (shared s)) ns p' st' -> owned p' = owned p ->
  refines consumer (MkState (shared s) (<[tid := p']> (threads s))) (MkSpec ns.*2 (<[tid := st']> (status a))) ns.
Proof.
  intros Hok Ho. apply refines_step; try done.
  - exact (r_chain _ _ _ _ HR).
  - exact (r_nodup _ _ _ _ HR).
  - intros t q l _ Hq Hl. split; [done|]. by destruct (owned_live t q l Hq Hl).
  - intros l Hl. left. congruence.
  - intros l Hl. destruct (r_live _ _ _ _ HR l Hl) as [?|(t & q & Hq & Hlq)]; [by left|right].
    destruct (decide (owned p = Some l)) as [E|E]; [left; congruence|right]. split; [done|]. split; [|done]. by destruct (owned_live t q l Hq Hlq).
Qed.

Lemma same_status st : status a !! tid = Some st -> MkSpec ns.*2 (<[tid := st]> (status a)) = a.
Proof. intros Hst. rewrite <- (r_contents _ _ _ _ HR), list_insert_id by done. by destruct a. Qed.

Lemma refines_quiet p' st : status a !! tid = Some st -> pc_ok consumer tid (heap (shared s)) ns p' st -> owned p' = owned p ->
  refines consumer (MkState (shared s) (<[tid := p']> (threads s))) a ns.
Proof. intros Hst Hok Ho. rewrite <- (same_status st Hst) at 1. by apply refines_place. Qed.

(** The operation takes effect. *)
Lemma effect_trace o ns' r : status a !! tid = Some (APending o) -> effect o ns.*2 = (ns'.*2, r) ->
  spec_trace effect a [] (MkSpec ns'.*2 (<[tid := ADone r]> (status a))).
Proof.
  intros Hst He. pose proof (spec_effect effect a tid o Hst) as H. rewrite (r_contents _ _ _ _ HR), He in H.
  exact (trace_one _ _ _ _ H).
Qed.

Lemma others_differ t q l : t <> tid -> threads s !! t = Some q -> owned q = Some l -> owned p <> Some l.
Proof. intros Hne Hq Hl Hpl. apply Hne. by apply (r_owned _ _ _ _ HR t tid q p l). Qed.

(** A private node is changed, allocated or deleted. *)
Lemma refines_private h' l p' st : status a !! tid = Some st -> (forall l', l' <> l -> h' !! l' = heap (shared s) !! l') ->
  l ∉ ns.*1 -> (forall t q, t <> tid -> threads s !! t = Some q -> owned q <> Some l) -> pc_ok consumer tid h' ns p' st ->
  (forall l', owned p = Some l' -> l' = l) -> (owned p' = Some l \/ owned p' = None /\ h' !! l = None) ->
  refines consumer (MkState (MkShared (root (shared s)) h') (<[tid := p']> (threads s))) a ns.
Proof.
  intros Hst Hh Hl Hother Hok Hp1 Hp2. rewrite <- (same_status st Hst) at 1.
  assert (forall l', l' ∈ ns.*1 -> h' !! l' = heap (shared s) !! l') as Hframe by (intros l' Hin; apply Hh; congruence).
  apply refines_step; cbn [heap root]; try done.
  - apply (chain_frame (heap (shared s))); [done|]. exact (r_chain _ _ _ _ HR).
  - exact (r_nodup _ _ _ _ HR).
  - intros t q l' Hne Hq Hl'. split; [|by destruct (owned_live t q l' Hq Hl')]. apply Hh. intros ->. by apply (Hother t q).
  - intros _ l' Hin. split; [done|by apply Hframe].
  - intros l' Hl'. right. destruct Hp2 as [E|[E _]]; rewrite E in Hl'; [injection Hl' as <-; done|done].
  - intros l' Hl'. destruct (decide (l' = l)) as [->|Hne].
    + right. destruct Hp2 as [E|[_ E]]; [by left|]. rewrite E in Hl'. by destruct Hl'.
    + rewrite (Hh l' Hne) in Hl'. destruct (r_live _ _ _ _ HR l' Hl') as [?|(t & q & Hq & Ho)]; [by left|right; right].
      split; [done|]. split; [by destruct (owned_live t q l' Hq Ho)|]. intros E. apply Hne. by apply Hp1.
Qed.

Definition step_ok (m : outcome (@Shared V * @Pc V)) : Prop := exists sh' p' a' ns', m = Val (sh', p') /\ spec_trace effect a [] a' /\
  refines consumer (MkState sh' (<[tid := p']> (threads s))) a' ns'.

Lemma stay sh' p' : refines consumer (MkState sh' (<[tid := p']> (threads s))) a ns -> step_ok (Val (sh', p')).
Proof. intros H. exists sh', p', a, ns. split; [done|]. split; [constructor|done]. Qed.

Lemma push_step_ok fresh weak m : push_step fresh weak (shared s) p = Some m -> step_ok m.
Proof.
  destruct (r_threads _ _ _ _ HR tid p Hp) as (st & Hst & Hok). intros E.
  destruct p as [|v|n|n c|n c| | | | | | |] eqn:Ep in E, Hok; try done; cbn in E, Hok.
  - destruct (heap (shared s) !! fresh) eqn:Hf; [done|]. injection E as <-.
    assert (fresh ∉ ns.*1) as Hn. { intros Hin. destruct (chain_lookup _ _ _ _ (r_chain _ _ _ _ HR) Hin) as (v' & n & E). congruence. }
    apply stay. apply (refines_private _ fresh _ st); try done.
    + intros l' Hne. by rewrite lookup_insert_ne.
    + intros t q _ Hq Ho. destruct (owned_live t q fresh Hq Ho) as [[x Hx] _]. congruence.
    + exists v, None. by rewrite lookup_insert_eq.
    + by rewrite Ep.
    + by left.
  - injection E as <-. apply stay. apply (refines_quiet _ st); [done|done|by rewrite Ep].
  - destruct Hok as (v & nx & Hl & Hn & ->). rewrite Hl in E. injection E as <-. apply stay.
    apply (refines_private _ n _ (APending (Push v))); try done.
    + intros l' Hne. by rewrite lookup_insert_ne.
    + intros t q Hne Hq Ho. apply (others_differ t q n Hne Hq Ho). by rewrite Ep.
    + exists v. by rewrite lookup_insert_eq.
    + rewrite Ep. cbn. congruence.
    + by left.
  - destruct Hok as (v & Hl & Hn & ->). unfold compare_exchange_weak in E. destruct (negb weak && bool_decide (root (shared s) = c)) eqn:Ec; injection E as <-.
    + apply andb_true_iff in Ec as [_ Ec]. apply bool_decide_eq_true_1 in Ec. exists (MkShared (Some n) (heap (shared s))), (Done Pushed).
      exists (MkSpec ((n, v) :: ns).*2 (<[tid := ADone Pushed]> (status a))), ((n, v) :: ns). split; [done|]. split; [by apply (effect_trace (Push v))|].
      apply refines_step; cbn [heap root]; try done.
      * split; [done|]. exists c. split; [done|]. rewrite <- Ec. exact (r_chain _ _ _ _ HR).
      * apply NoDup_cons. split; [done|exact (r_nodup _ _ _ _ HR)].
      * intros t q l Hne Hq Ho. split; [done|]. destruct (owned_live t q l Hq Ho) as [_ Hnl]. intros [->|Hin]%elem_of_cons; [|done].
        apply (others_differ t q n Hne Hq Ho). by rewrite Ep.
      * intros _ l Hin. split; [|done]. apply elem_of_cons. by right.
      * intros l Hl'. destruct (decide (l ∈ ((n, v) :: ns).*1)) as [|Hnl]; [by left|right; right]. split; [done|].
        split; [intros Hin; apply Hnl, elem_of_cons; by right|]. rewrite Ep. intros [= ->]. apply Hnl, elem_of_cons. by left.
    + apply stay. apply (refines_quiet _ (APending (Push v))); [done| |by rewrite Ep]. by exists v, c.
Qed.

Lemma pop_step_ok weak m : pop_step weak (shared s) p = Some m -> step_ok m.
Proof.
  destruct (r_threads _ _ _ _ HR tid p Hp) as (st & Hst & Hok). intros E. pose proof (r_chain _ _ _ _ HR) as Hch.
  destruct p as [| | | | | |o|o n|o|o v| |] eqn:Ep in E, Hok; try done; cbn in E, Hok.
  - destruct Hok as [Ht ->]. destruct (root (shared s)) as [o|] eqn:Er; injection E as <-.
    + apply stay. apply (refines_quiet _ (APending Pop)); [done| |by rewrite Ep]. split; [done|]. split; [|done].
      destruct ns as [|[l v] ns0]; [done|]. destruct Hch as [[= ->] _]. apply elem_of_cons. by left.
    + assert (ns = []) as En by (destruct ns as [|[l v] ns0]; [done|by destruct Hch]).
      exists (shared s), (Done Nothing), (MkSpec ((@nil (nat * V)).*2) (<[tid := ADone Nothing]> (status a))), []. split; [done|].
      split; [apply (effect_trace Pop []); [done|by rewrite En]|].
      apply (refines_step (shared s) (Done Nothing) [] (ADone Nothing)); try done.
      * by apply NoDup_nil.
      * intros t q l _ Hq Ho. split; [done|]. intros []%elem_of_nil.
      * intros l Hl. right. right. split; [done|]. rewrite En, Ep. split; [intros []%elem_of_nil|done].
  - destruct Hok as (Ht & Hin & ->). destruct (chain_lookup _ _ _ _ Hch Hin) as (v & n & Hl). rewrite Hl in E. injection E as <-.
    apply stay. apply (refines_quiet _ (APending Pop)); [done| |by rewrite Ep]. split; [done|]. split; [done|]. split; [by exists v|done].
  - destruct Hok as (Ht & Hin & (v & Hl) & ->). unfold compare_exchange_weak in E.
    destruct (negb weak && bool_decide (root (shared s) = Some o)) eqn:Ec; injection E as <-.
    + apply andb_true_iff in Ec as [_ Ec]. apply bool_decide_eq_true_1 in Ec.
      destruct ns as [|[l w] ns0] eqn:En in Hin, Hch; [by apply elem_of_nil in Hin|]. destruct Hch as (Hr & n' & Hl' & Hch). rewrite Ec in Hr. injection Hr as <-.
      rewrite Hl in Hl'. injection Hl' as -> ->. pose proof (r_nodup _ _ _ _ HR) as Hnd. rewrite En in Hnd. apply NoDup_cons in Hnd as [Hno Hnd].
      exists (MkShared n' (heap (shared s))), (PopRead o), (MkSpec ns0.*2 (<[tid := ADone (Popped w)]> (status a))), ns0. split; [done|].
      split; [apply (effect_trace Pop); [done|by rewrite En]|].
      apply refines_step; cbn [heap root]; try done.
      * split; [done|]. by exists w, n'.
      * intros t q k Hne Hq Ho. split; [done|]. destruct (owned_live t q k Hq Ho) as [_ Hnk]. rewrite En in Hnk. intros Hk. apply Hnk, elem_of_cons. by right.
      * intros k [= <-]. right. intros t q Hne Hq Ho. destruct (owned_live t q o Hq Ho) as [_ Hnk]. rewrite En in Hnk. apply Hnk, elem_of_cons. by left.
      * intros k Hk. destruct (decide (k = o)) as [->|Hne]; [right; by left|]. destruct (decide (k ∈ ns0.*1)) as [|Hnk]; [by left|right; right].
        split; [done|]. rewrite En, Ep. split; [|done]. intros [?|?]%elem_of_cons; done.
    + apply stay. apply (refines_quiet _ (APending Pop)); [done|done|by rewrite Ep].
  - destruct Hok as (Ht & v & n & Hl & Hn & ->). rewrite Hl in E. injection E as <-. apply stay.
    apply (refines_quiet _ (ADone (Popped v))); [done| |by rewrite Ep]. split; [done|]. split; [by exists n|done].
  - destruct Hok as (Ht & (n & Hl) & Hn & ->). rewrite Hl in E. injection E as <-. apply stay.
    apply (refines_private _ o _ (ADone (Popped v))); try done.
    + intros l' Hne. by rewrite lookup_delete_ne.
    + intros t q Hne Hq Ho. apply (others_differ t q o Hne Hq Ho). by rewrite Ep.
    + rewrite Ep. cbn. congruence.
    + right. split; [done|]. apply lookup_delete_eq.
Qed.

Lemma empty_step_ok m : empty_step (shared s) p = Some m -> step_ok m.
Proof.
  destruct (r_threads _ _ _ _ HR tid p Hp) as (st & Hst & Hok). intros E. pose proof (r_chain _ _ _ _ HR) as Hch.
  destruct p as [| | | | | | | | | | |] eqn:Ep in E, Hok; try done; cbn in E, Hok. injection E as <-. subst st.
  set (b := bool_decide (root (shared s) = None)). assert (b = bool_decide (ns.*2 = [])) as Hb.
  { subst b. apply bool_decide_ext. destruct ns as [|[l v] ns0]; [done|]. destruct Hch as [-> _]. done. }
  exists (shared s), (Done (IsEmpty b)), (MkSpec ns.*2 (<[tid := ADone (IsEmpty b)]> (status a))), ns. split; [done|].
  split; [apply (effect_trace Empty); [done|by rewrite Hb]|].
  apply refines_place; [done|by rewrite Ep].
Qed.

Lemma do_action_ok act m : one_consumer consumer (tid, act) -> do_action tid act s = Some m ->
  exists s' e a' ns', m = Val (s', e) /\ spec_trace effect a e a' /\ refines consumer s' a' ns'.
Proof.
  intros Hone E. unfold do_action in E. rewrite Hp in E. cbn [mbind option_bind is_idle result thread_step stack_program] in E.
  destruct (r_threads _ _ _ _ HR tid p Hp) as (st & Hst & Hok). pose proof (r_contents _ _ _ _ HR) as Hc. destruct act as [o|fresh weak|].
  - destruct p eqn:Ep in E, Hok; try done. injection E as <-. cbn in Hok. subst st. do 4 eexists. split; [done|].
    split; [exact (trace_one _ _ _ _ (spec_call effect a tid o Hst))|]. rewrite Hc. apply refines_place; rewrite ?Ep; destruct o; cbn; auto.
  - destruct (stack_step fresh weak (shared s) p) as [m'|] eqn:Em; [|done]. injection E as <-.
    assert (step_ok m') as (sh' & p' & a' & ns' & -> & Htr & HR').
    { unfold stack_step in Em. destruct p eqn:Ep in Em; try done; rewrite <- Ep in Em;
        first [exact (push_step_ok _ _ _ Em)|exact (pop_step_ok _ _ Em)|exact (empty_step_ok _ Em)]. }
    by exists (MkState sh' (<[tid := p']> (threads s))), [], a', ns'.
  - destruct p as [| | | | | | | | | | |r] eqn:Ep in E, Hok; try done. injection E as <-. cbn in Hok. subst st. do 4 eexists. split; [done|].
    split; [exact (trace_one _ _ _ _ (spec_return effect a tid r Hst))|]. rewrite Hc. apply refines_place; by rewrite ?Ep.
Qed.
End Step.

(** ** Executions *)

Definition simulates consumer s a : Prop := exists ns, refines consumer s a ns.

Lemma action_simulates consumer s a tid act m : simulates consumer s a -> one_consumer consumer (tid, act) -> do_action tid act s = Some m ->
  exists s' e a', m = Val (s', e) /\ spec_trace effect a e a' /\ simulates consumer s' a'.
Proof.
  intros [ns HR] Hone E. destruct (threads s !! tid) as [p|] eqn:Hp; [|unfold do_action in E; by rewrite Hp in E].
  destruct (do_action_ok consumer tid s a ns p HR Hp act m Hone E) as (s' & e & a' & ns' & -> & T & R). exists s', e, a'. split; [done|]. split; [done|by exists ns'].
Qed.

Lemma init_refines consumer n : refines consumer (init n) (spec_init n) [].
Proof.
  assert (forall tid p, threads (init n) !! tid = Some p -> p = Idle) as Hidle.
  { intros tid p Hp%list_elem_of_lookup_2. by apply list_elem_of_In, repeat_spec in Hp. }
  constructor; cbn [shared threads contents status init spec_init]; try done.
  - by apply NoDup_nil.
  - by rewrite !repeat_length.
  - intros tid p Hp. rewrite (Hidle tid p Hp). exists AIdle. split; [|done]. apply lookup_lt_Some in Hp. cbn in Hp. rewrite repeat_length in Hp.
    clear -Hp. revert tid Hp. induction n as [|n IH]; intros [|tid] Hp; cbn; try lia; [done|]. apply IH. lia.
  - intros t1 t2 p1 p2 l H1 _ O1. rewrite (Hidle t1 p1 H1) in O1. done.
  - intros l [x Hx]. change ((∅ : gmap nat (@Node V)) !! l = Some x) in Hx. by rewrite lookup_empty in Hx.
Qed.

(** ** The destructor *)

Lemma destroy_chain ns : forall fuel h r, chain h r ns -> NoDup ns.*1 -> (forall l, is_Some (h !! l) -> l ∈ ns.*1) -> (length ns <= fuel)%nat ->
  destroy_loop fuel h r = Val ∅.
Proof.
  induction ns as [|[l v] ns IH]; intros fuel h r Hc Hnd Hall Hf; cbn in Hc.
  - subst r. assert (h = ∅) as ->.
    { apply map_empty. intros l. destruct (h !! l) as [x|] eqn:E; [|done]. by destruct (elem_of_nil l) as [[] _]; apply Hall; eexists. }
    by destruct fuel.
  - destruct Hc as (-> & n & Hl & Hc). destruct fuel as [|fuel]; cbn [length] in Hf; [lia|]. cbn [destroy_loop]. rewrite Hl. cbn [of_option]. rewrite bind_Val. cbn [next].
    apply NoDup_cons in Hnd as [Hn Hnd]. apply IH; [|done| |lia].
    + apply (chain_frame h); [|done]. intros k Hk. apply lookup_delete_ne. intros ->. done.
    + intros k Hk. destruct (decide (k = l)) as [->|Hne]; [rewrite lookup_delete_eq in Hk; by destruct Hk|].
      rewrite lookup_delete_ne in Hk by done. specialize (Hall k Hk). by apply elem_of_cons in Hall as [?|?].
Qed.

Lemma chain_size h r ns : chain h r ns -> NoDup ns.*1 -> (length ns <= size h)%nat.
Proof.
  intros Hc Hnd. rewrite <- (length_fmap fst ns), <- (size_list_to_set (C := gset nat) _ Hnd), <- size_dom. apply subseteq_size.
  intros l Hl. apply elem_of_list_to_set in Hl. destruct (chain_lookup _ _ _ _ Hc Hl) as (v & n & E). apply elem_of_dom. by eexists.
Qed.

(** C17: With one consumer and any number of producers, every schedule of the lock-free stack is
    free of undefined behaviour, whatever addresses the allocator reuses; the calls and returns
    that it shows are those of a stack whose operations take effect at one point between call
    and return; and when all threads are idle, the destructor frees every node that is
    allocated. *)
Theorem linked_stack_linearizable n consumer schedule (m : outcome (SState * list (Event (Op V) (Res V)))) :
  Forall (one_consumer consumer) schedule -> exec schedule (init n) = Some m ->
  exists s es a, m = Val (s, es) /\ spec_trace effect (spec_init n) es a /\
    (Forall (fun p => p = Idle) (threads s) -> destroy (shared s) = Val ∅).
Proof.
  intros Hone E. destruct (exec_simulates effect _ _ (action_simulates consumer) schedule (init n) (spec_init n) m Hone (ex_intro _ _ (init_refines consumer n)) E)
    as (s & es & a & -> & T & ns & R).
  exists s, es, a. split; [done|]. split; [done|]. intros Hidle. unfold destroy.
  apply (destroy_chain ns); [exact (r_chain _ _ _ _ R)|exact (r_nodup _ _ _ _ R)| |eapply chain_size; [exact (r_chain _ _ _ _ R)|exact (r_nodup _ _ _ _ R)]].
  intros l Hl. destruct (r_live _ _ _ _ R l Hl) as [?|(tid & p & Hp & Ho)]; [done|]. rewrite List.Forall_forall in Hidle.
  rewrite (Hidle p) in Ho; [done|]. apply list_elem_of_In. by eapply list_elem_of_lookup_2.
Qed.
End Proof.

(** ** Schedules *)

Abbreviation runs tid k := (repeat (tid, Run 0%nat false) k).
(** A thread runs a whole operation; [new] returns [fresh]. *)
Abbreviation pushes tid v fresh := ([(tid, Call (Push v)); (tid, Run fresh false)] ++ runs tid 3 ++ [(tid, Return)]).

(** Two producers whose compare and exchange fails once, and a consumer. *)
Abbreviation three_threads := ([(0%nat, Call (Push 1)); (0%nat, Run 7%nat false); (0%nat, Run 0%nat false)] ++ pushes 1%nat 2 8%nat ++ runs 0%nat 5 ++
  [(2%nat, Call Pop); (2%nat, Run 0%nat false); (2%nat, Run 0%nat false); (0%nat, Return)] ++ runs 2%nat 3 ++ [(2%nat, Return)]).

Lemma linked_stack_linearizable_witness : exists s es a, exec three_threads (init 3) = Some (Val (s, es)) /\ spec_trace effect (spec_init 3) es a /\
  es = [ECall 0 (Push 1); ECall 1 (Push 2); EReturn 1 Pushed; ECall 2 Pop; EReturn 0 Pushed; EReturn 2 (Popped 1)] /\ destroy (shared s) = Val ∅.
Proof.
  destruct (exec three_threads (init 3)) as [m|] eqn:E; [|by vm_compute in E].
  destruct (linked_stack_linearizable 3 2 three_threads m) as (s & es & a & -> & T & D); [|exact E|].
  - repeat (apply List.Forall_cons; [intros H; (discriminate H || reflexivity)|]). apply List.Forall_nil.
  - vm_compute in E. injection E as <- <-. do 3 eexists. split; [reflexivity|]. split; [exact T|]. split; [reflexivity|].
    apply D. repeat (apply List.Forall_cons; [reflexivity|]). apply List.Forall_nil.
Defined.

(** ** Two consumers *)

(** The actions of a whole operation; [new] returns [fresh]. *)
Abbreviation pop_acts := (Call Pop :: repeat (Run 0%nat false) 5 ++ [Return]).
Abbreviation push_acts v fresh := (Call (Push v) :: Run fresh false :: repeat (Run 0%nat false) 3 ++ [Return]).

Section TwoConsumers.
Context {V : Type}.
Abbreviation SState := (State (@Pc V) (@Shared V)).
Implicit Types (s : SState) (ts : list (@Pc V)) (p : @Pc V) (v x : V).

(** What a thread does when no other one is scheduled. *)
Fixpoint solo (t : nat) (acts : list (Action (Op V))) (sh : @Shared V) p : option (outcome (@Shared V * @Pc V * list (Event (Op V) (Res V)))) :=
  match acts with
  | [] => Some (Val (sh, p, []))
  | a :: acts =>
      m ← match a with
          | Call o => if is_idle p then Some (Val (sh, start o, [ECall t o])) else None
          | Return => r ← result p; Some (Val (sh, idle, [EReturn t r]))
          | Run fresh weak => m ← stack_step fresh weak sh p; Some ('(sh, p) ← m; Val (sh, p, []))
          end;
      match m with
      | Undef => Some Undef
      | Val (sh, p, e) => m ← solo t acts sh p; Some ('(sh, p, es) ← m; Val (sh, p, e ++ es))
      end
  end.

Lemma exec_app (a b : list (nat * Action (Op V))) s :
  exec (a ++ b) s =
    m ← exec a s;
    match m with Undef => Some Undef | Val (s, es) => m ← exec b s; Some ('(s, es') ← m; Val (s, es ++ es')) end.
Proof.
  revert s. induction a as [|[tid act] a IH]; intros s; cbn [exec app].
  - cbn [mbind option_bind]. by destruct (exec b s) as [[[? ?]|]|].
  - destruct (do_action tid act s) as [[[s1 e]|]|]; [|done..]. cbn [mbind option_bind]. rewrite IH.
    destruct (exec a s1) as [[[s2 es]|]|]; [|done..]. cbn [mbind option_bind]. rewrite bind_Val.
    destruct (exec b s2) as [[[s3 es']|]|]; [|done..]. cbn [mbind option_bind]. by rewrite !bind_Val, app_assoc.
Qed.

Lemma exec_solo t acts : forall s p, threads s !! t = Some p ->
  exec (map (pair t) acts) s =
    m ← solo t acts (shared s) p; Some ('(sh, p, es) ← m; Val (MkState sh (<[t := p]> (threads s)), es)).
Proof.
  induction acts as [|act acts IH]; intros s p Hp; cbn [exec map solo].
  - cbn [mbind option_bind]. rewrite bind_Val, list_insert_id by done. by destruct s.
  - pose proof (lookup_lt_Some _ _ _ Hp) as Hlt. unfold do_action. rewrite Hp. cbn [mbind option_bind].
    assert (forall sh q e, (m ← exec (map (pair t) acts) (MkState sh (<[t:=q]> (threads s))); Some ('(s, es) ← m; Val (s, e ++ es))) =
      m ← (m ← solo t acts sh q; Some ('(sh, p, es) ← m; Val (sh, p, e ++ es))); Some ('(sh, p, es) ← m; Val (MkState sh (<[t := p]> (threads s)), es))) as Hgo.
    { intros sh q e. rewrite (IH _ q) by (cbn [threads]; by apply list_lookup_insert_eq). cbn [shared threads].
      destruct (solo t acts sh q) as [[[[sh' q'] es]|]|]; cbn [mbind option_bind]; rewrite ?bind_Val; [|done..]. by rewrite list_insert_insert_eq. }
    destruct act as [o|fresh weak|].
    + destruct (is_idle p); [|done]. apply Hgo.
    + destruct (thread_step fresh weak (shared s) p) as [[[sh q]|]|] eqn:E; cbn in E; rewrite E; cbn [mbind option_bind]; [|done..]. rewrite !bind_Val. apply Hgo.
    + destruct (result p) as [r|]; [|done]. apply Hgo.
Qed.
Abbreviation alone t acts s := (exec (map (pair t) acts) s).

Ltac solo_step := cbn [solo app repeat is_idle start stack_program start_op result thread_step stack_step push_step pop_step mbind option_bind of_option
  shared threads root heap value next fst snd outcome_bind].

Lemma idle_again s t : threads s !! t = Some Idle -> <[t := Idle]> (threads s) = threads s.
Proof. by apply list_insert_id. Qed.

(** A whole operation without interference. *)
Lemma pop_alone s t l v n : threads s !! t = Some Idle -> root (shared s) = Some l -> heap (shared s) !! l = Some (MkNode v n) ->
  alone t pop_acts s = Some (Val (MkState (MkShared n (delete l (heap (shared s)))) (threads s), [ECall t Pop; EReturn t (Popped v)])).
Proof.
  intros Hi Hr Hl. rewrite (exec_solo _ _ _ _ Hi). destruct s as [[r h] ts]. cbn [shared threads root heap] in *. subst r.
  repeat (solo_step; rewrite ?Hl; unfold compare_exchange_weak; rewrite ?bool_decide_eq_true_2 by done; cbn [negb andb]; rewrite ?bind_Val).
  by rewrite list_insert_id.
Qed.

Lemma push_alone s t v l : threads s !! t = Some Idle -> heap (shared s) !! l = None ->
  alone t (push_acts v l) s = Some (Val (MkState (MkShared (Some l) (<[l := MkNode v (root (shared s))]> (heap (shared s)))) (threads s), [ECall t (Push v); EReturn t Pushed])).
Proof.
  intros Hi Hl. rewrite (exec_solo _ _ _ _ Hi). destruct s as [[r h] ts]. cbn [shared threads root heap] in *.
  repeat (solo_step; rewrite ?Hl, ?lookup_insert_eq; unfold compare_exchange_weak; rewrite ?bool_decide_eq_true_2 by done; cbn [negb andb]; rewrite ?bind_Val).
  by rewrite insert_insert_eq, list_insert_id.
Qed.
(** C40: Two consumers break the stack, from every state with a node where they are idle. One reads the root, the other takes the
    node out and deletes it, and the first one's read of its link is a use after free. And when the stack has two nodes, the other
    consumer takes both out and pushes again at the address of the first one: the first consumer's exchange succeeds with the link that it read before, the
    value that was pushed is returned, and the root is left at the second node, which is not allocated. *)
Theorem linked_stack_two_consumers s t1 t2 l v n :
  t1 <> t2 -> threads s !! t1 = Some Idle -> threads s !! t2 = Some Idle -> root (shared s) = Some l -> heap (shared s) !! l = Some (MkNode v n) ->
  exec (map (pair t1) [Call Pop; Run 0%nat false] ++ map (pair t2) pop_acts ++ map (pair t1) [Run 0%nat false]) s = Some Undef /\
  forall l2 w n2 x, n = Some l2 -> l2 <> l -> heap (shared s) !! l2 = Some (MkNode w n2) ->
    exists sh, exec (map (pair t1) [Call Pop; Run 0%nat false; Run 0%nat false] ++ map (pair t2) pop_acts ++ map (pair t2) pop_acts ++ map (pair t2) (push_acts x l) ++
        map (pair t1) (repeat (Run 0%nat false) 3 ++ [Return])) s =
      Some (Val (MkState sh (threads s), [ECall t1 Pop; ECall t2 Pop; EReturn t2 (Popped v); ECall t2 Pop; EReturn t2 (Popped w); ECall t2 (Push x);
        EReturn t2 Pushed; EReturn t1 (Popped x)])) /\
      root sh = Some l2 /\ heap sh !! l2 = None.
Proof.
  destruct s as [[r h] ts]. cbn [shared threads root heap]. intros Hne H1 H2 -> Hl. pose proof (lookup_lt_Some _ _ _ H1) as Hlt.
  assert (forall p, <[t1:=p]> ts !! t2 = Some Idle) as H2' by (intros p; by rewrite list_lookup_insert_ne). split.
  - rewrite exec_app, (exec_solo _ _ _ Idle) by done. repeat (solo_step; rewrite ?bind_Val).
    rewrite exec_app, (pop_alone _ t2 l v n) by (apply H2' || done). solo_step.
    rewrite (exec_solo _ _ _ (PopNext l)) by by apply list_lookup_insert_eq. repeat (solo_step; rewrite ?lookup_delete_eq). done.
  - intros l2 w n2 x -> Hl2 Hw. exists (MkShared (Some l2) (delete l (<[l:=MkNode x n2]> (delete l2 (delete l h))))).
    rewrite exec_app, (exec_solo _ _ _ Idle) by done. repeat (solo_step; rewrite ?Hl, ?bind_Val).
    rewrite exec_app, (pop_alone _ t2 l v (Some l2)) by (apply H2' || done). solo_step.
    rewrite exec_app, (pop_alone _ t2 l2 w n2) by (solo_step; rewrite ?lookup_delete_ne by congruence; apply H2' || done). solo_step.
    rewrite exec_app, (push_alone _ t2 x l) by (solo_step; rewrite ?lookup_delete_ne, ?lookup_delete_eq by congruence; apply H2' || done). solo_step.
    rewrite (exec_solo _ _ _ (PopCas l (Some l2))) by by apply list_lookup_insert_eq.
    repeat (solo_step; rewrite ?lookup_insert_eq; unfold compare_exchange_weak; rewrite ?bool_decide_eq_true_2 by done; cbn [negb andb]; rewrite ?bind_Val).
    rewrite list_insert_insert_eq, list_insert_id by done. split; [done|]. split; [done|]. by rewrite lookup_delete_ne, lookup_insert_ne, lookup_delete_eq by congruence.
Qed.
End TwoConsumers.

(** Two nodes, two consumers, and a thread that stands aside. *)
Abbreviation two_nodes := (MkState (MkShared (Some 4%nat) (<[4%nat := MkNode 10 (Some 9%nat)]> (<[9%nat := MkNode 20 None]> ∅))) (@repeat (@Pc Z) Idle 3)).
Lemma linked_stack_two_consumers_witness :
  exec (pushes 0%nat 20 9%nat ++ pushes 0%nat 10 4%nat) (init 3) =
    Some (Val (two_nodes, [ECall 0%nat (Push 20); EReturn 0%nat Pushed; ECall 0%nat (Push 10); EReturn 0%nat Pushed])) /\
  exec (map (pair 1%nat) [Call Pop; Run 0%nat false] ++ map (pair 2%nat) pop_acts ++ map (pair 1%nat) [Run 0%nat false]) two_nodes = Some Undef /\
  exists sh es, exec (map (pair 1%nat) [Call Pop; Run 0%nat false; Run 0%nat false] ++ map (pair 2%nat) pop_acts ++ map (pair 2%nat) pop_acts ++
      map (pair 2%nat) (push_acts 30 4%nat) ++ map (pair 1%nat) (repeat (Run 0%nat false) 3 ++ [Return])) two_nodes =
    Some (Val (MkState sh (repeat Idle 3), es)) /\ root sh = Some 9%nat /\ heap sh !! 9%nat = None.
Proof.
  split; [vm_compute; reflexivity|].
  destruct (linked_stack_two_consumers two_nodes 1 2 4 10 (Some 9%nat)) as [U A]; [discriminate|reflexivity|reflexivity|reflexivity|reflexivity|].
  split; [exact U|]. destruct (A 9%nat 20 None 30) as (sh & E & Hr & Hh); [reflexivity|discriminate|reflexivity|]. exists sh. eexists. split; [exact E|]. split; [exact Hr|exact Hh].
Defined.
