(* ===== verification/LinkedQueue.v ===== *)
(** * The lock-free queue

    Models [sese/concurrent/LinkedQueue.h], the queue of Michael and Scott over nodes that [pop] deletes. Each
    access to shared memory is a step; [new] may return any address that is free, also one that was deleted before. The atomic
    operations are sequentially consistent, as their default is, and a weak compare and exchange may fail without a reason. *)

From stdpp Require Import gmap.
From S2P Require Import Prelude Threads.

Module LinkedQueue.
Section Queue.
Context {V : Type} (default_value : V).

Abbreviation loc := nat.

(*@ sese/concurrent/LinkedQueue.h 36-40 LinkedQueue::Node *)
Record Node := MkNode { value : V; next : option loc }.

(*@ sese/concurrent/LinkedQueue.h 42-43 LinkedQueue *)
(** The shared memory: the two ends, which are never null, and the nodes that are allocated. *)
Record Shared := MkShared { head : loc; tail : loc; heap : gmap loc Node }.

(*@ sese/concurrent/LinkedQueue.h 46-50 LinkedQueue::LinkedQueue *)
Definition new_queue (node : loc) : Shared := MkShared node node {[node := MkNode default_value None]}.

Inductive Op := Push (v : V) | Pop | Empty.
Inductive Res := Pushed | Popped (v : V) | Nothing | IsEmpty (b : bool).

(** Where a thread is in its operation; [Done]: it is about to return. *)
Inductive Pc :=
| Idle
| PushNew (v : V) | PushTail (node : loc) | PushNext (node tail : loc) | PushCheck (node tail : loc) (next : option loc)
| PushLink (node tail : loc) | PushHelp (node tail next : loc) | PushSwing (node tail : loc)
| PopHead | PopTail (head : loc) | PopNext (head tail : loc) | PopCheck (head tail : loc) (next : option loc)
| PopHelp (head tail next : loc) | PopRead (head : loc) (next : option loc) | PopCas (head next : loc) (v : V) | PopDelete (head : loc) (v : V)
| EmptyHead | EmptyTail (head : loc)
| Done (r : Res).

Definition start_op (o : Op) : Pc := match o with Push v => PushNew v | Pop => PopHead | Empty => EmptyHead end.

(** [this->head.compare_exchange_weak], [this->tail.compare_exchange_weak] and the one of a node's [next]; [weak]: it fails
    without a reason. *)
Definition cas_head (weak : bool) (s : Shared) (expected desired : loc) : bool * Shared :=
  if negb weak && (head s =? expected)%nat then (true, MkShared desired (tail s) (heap s)) else (false, s).
Definition cas_tail (weak : bool) (s : Shared) (expected desired : loc) : bool * Shared :=
  if negb weak && (tail s =? expected)%nat then (true, MkShared (head s) desired (heap s)) else (false, s).
Definition cas_next (weak : bool) (s : Shared) (node : loc) (desired : loc) : outcome (bool * Shared) :=
  n ← of_option (heap s !! node);
  if negb weak && bool_decide (next n = None)
  then Val (true, MkShared (head s) (tail s) (<[node := MkNode (value n) (Some desired)]> (heap s)))
  else Val (false, s).

(*@ sese/concurrent/LinkedQueue.h 64-83 LinkedQueue::push *)
(** A step of a thread in [push]. A use of a node that is not allocated is undefined. [None]: the step is not possible. *)
Definition push_step (fresh : loc) (weak : bool) (s : Shared) (p : Pc) : option (outcome (Shared * Pc)) :=
  match p with
  | PushNew v =>
      match heap s !! fresh with
      | Some _ => None
      | None => Some (Val (MkShared (head s) (tail s) (<[fresh := MkNode v None]> (heap s)), PushTail fresh))
      end
  | PushTail n => Some (Val (s, PushNext n (tail s)))
  | PushNext n t => Some (node ← of_option (heap s !! t); Val (s, PushCheck n t (next node)))
  | PushCheck n t nx =>
      Some (Val (s, if (t =? tail s)%nat then match nx with None => PushLink n t | Some l => PushHelp n t l end else PushTail n))
  | PushLink n t => Some ('(ok, s) ← cas_next weak s t n; Val (s, if (ok : bool) then PushSwing n t else PushTail n))
  | PushHelp n t l => Some (Val (snd (cas_tail weak s t l), PushTail n))
  | PushSwing n t => Some (Val (snd (cas_tail weak s t n), Done Pushed))
  | _ => None
  end.

(*@ sese/concurrent/LinkedQueue.h 85-107 LinkedQueue::pop *)
Definition pop_step (weak : bool) (s : Shared) (p : Pc) : option (outcome (Shared * Pc)) :=
  match p with
  | PopHead => Some (Val (s, PopTail (head s)))
  | PopTail h => Some (Val (s, PopNext h (tail s)))
  | PopNext h t => Some (node ← of_option (heap s !! h); Val (s, PopCheck h t (next node)))
  | PopCheck h t nx =>
      Some (Val (s, if (h =? head s)%nat
                    then if (h =? t)%nat then match nx with None => Done Nothing | Some l => PopHelp h t l end else PopRead h nx
                    else PopHead))
  | PopHelp h t l => Some (Val (snd (cas_tail weak s t l), PopHead))
  | PopRead h nx => Some (l ← of_option nx; node ← of_option (heap s !! l); Val (s, PopCas h l (value node)))
  | PopCas h l v => let '(ok, s) := cas_head weak s h l in Some (Val (s, if ok then PopDelete h v else PopHead))
  | PopDelete h v =>
      Some (_ ← of_option (heap s !! h); Val (MkShared (head s) (tail s) (delete h (heap s)), Done (Popped v)))
  | _ => None
  end.

(*@ sese/concurrent/LinkedQueue.h 109-111 LinkedQueue::empty *)
Definition empty_step (s : Shared) (p : Pc) : option (outcome (Shared * Pc)) :=
  match p with
  | EmptyHead => Some (Val (s, EmptyTail (head s)))
  | EmptyTail h => Some (Val (s, Done (IsEmpty (h =? tail s)%nat)))
  | _ => None
  end.

Definition queue_step (fresh : loc) (weak : bool) (s : Shared) (p : Pc) : option (outcome (Shared * Pc)) :=
  match p with
  | PushNew _ | PushTail _ | PushNext _ _ | PushCheck _ _ _ | PushLink _ _ | PushHelp _ _ _ | PushSwing _ _ => push_step fresh weak s p
  | PopHead | PopTail _ | PopNext _ _ | PopCheck _ _ _ | PopHelp _ _ _ | PopRead _ _ | PopCas _ _ _ | PopDelete _ _ => pop_step weak s p
  | EmptyHead | EmptyTail _ => empty_step s p
  | Idle | Done _ => None
  end.

#[export] Instance queue_program : Program Op Res Pc Shared := {
  idle := Idle; is_idle p := match p with Idle => true | _ => false end; start := start_op;
  result p := match p with Done r => Some r | _ => None end; thread_step := queue_step }.

(*@ sese/concurrent/LinkedQueue.h 52-62 LinkedQueue::~LinkedQueue *)
Fixpoint destroy_loop (fuel : nat) (h : gmap loc Node) (p_node : option loc) : outcome (gmap loc Node) :=
  match p_node, fuel with
  | None, _ => Val h
  | Some _, O => Undef
  | Some l, S fuel =>
      node ← of_option (h !! l);
      let p_next := if bool_decide (next node = Some l) then None else next node in
      destroy_loop fuel (delete l h) p_next
  end.
(** Every round deletes a node. *)
Definition destroy (s : Shared) : outcome (gmap loc Node) := destroy_loop (size (heap s)) (heap s) (Some (head s)).

(** ** The specification *)

Definition effect (o : Op) (l : list V) : list V * Res :=
  match o with
  | Push v => (l ++ [v], Pushed)
  | Pop => match l with [] => ([], Nothing) | v :: l => (l, Popped v) end
  | Empty => (l, IsEmpty (bool_decide (l = [])))
  end.

Definition init (node : loc) (n : nat) : State Pc Shared := MkState (new_queue node) (repeat Idle n).
Definition spec_init (n : nat) : Spec Op Res (list V) := MkSpec [] (repeat AIdle n).

(** Of two threads the first one puts elements in, and its exchanges do not fail without a reason; the second one takes elements
    out. *)
Definition one_to_one (x : nat * Action Op) : Prop :=
  match snd x with
  | Call (Push _) => fst x = 0%nat
  | Call Pop => fst x = 1%nat
  | Run _ weak => fst x = 0%nat -> weak = false
  | _ => True
  end.
End Queue.
Arguments Op : clear implicits.
Arguments Res : clear implicits.
End LinkedQueue.
