(* ===== verification/LinkedQueueProof.v ===== *)
(** * The lock-free queue with one producer and one consumer

    Every execution of [LinkedQueue] in which one thread puts elements in and one takes them out is one of an atomic queue, never
    touches a node that is not allocated, and leaks none. A push takes effect when the tail reaches its node, which the consumer may
    bring about. With two producers, or when the producer's last exchange fails without a reason, the tail
    can be left at a node that is deleted. *)

From stdpp Require Import gmap.
From S2P Require Import Prelude Threads LinkedQueue.
Import LinkedQueue.

Section Proof.
Context {V : Type} (default_value : V).
Implicit Types (h : gmap nat (@Node V)) (front rest ns : list (nat * V)) (p c : @Pc V) (sh : @Shared V) (st sp sc : Status (Op V) (Res V)).

(** The nodes of a list are allocated, and each one points to the one after it. *)
Definition chain h ns : Prop :=
  forall i l v, ns !! i = Some (l, v) -> h !! l = Some (MkNode v (fst <$> ns !! S i)).

(** The node that belongs to a thread alone: not published yet, or taken out. *)
Definition owned p : option nat :=
  match p with PushTail n | PushNext n _ | PushCheck n _ _ | PushLink n _ => Some n | PopDelete l _ => Some l | _ => None end.

(** The nodes up to the tail are [front]; [rest] has the one that is linked and that the tail has not reached. *)
Definition producer_ok h tl front rest p sp : Prop :=
  let fresh_node n := exists v, h !! n = Some (MkNode v None) /\ (n ∉ front.*1) /\ sp = APending (Push v) in
  match p with
  | Idle => rest = [] /\ sp = AIdle
  | PushNew v => rest = [] /\ sp = APending (Push v)
  | PushTail n => rest = [] /\ fresh_node n
  | PushNext n t | PushLink n t => rest = [] /\ t = tl /\ fresh_node n
  | PushCheck n t nx => rest = [] /\ t = tl /\ nx = None /\ fresh_node n
  | PushSwing n t =>
      n <> t /\ ((exists v, rest = [(n, v)] /\ t = tl /\ sp = APending (Push v)) \/ (rest = [] /\ tl = n /\ sp = ADone Pushed))
  | EmptyHead => rest = [] /\ sp = APending Empty
  | EmptyTail l => rest = [] /\ sp = ADone (IsEmpty (l =? tl)%nat)
  | Done r => rest = [] /\ sp = ADone r
  | _ => False
  end.

Definition consumer_ok h hd tl ns c sc : Prop :=
  match c with
  | Idle => sc = AIdle
  | PopHead => sc = APending Pop
  | PopTail l => l = hd /\ sc = APending Pop
  | PopNext l t => l = hd /\ (t <> l -> tl <> l) /\ sc = APending Pop
  | PopCheck l t nx => l = hd /\ (t <> l -> tl <> l) /\
      match nx with None => t = l /\ sc = ADone Nothing | Some k => ns.*1 !! 1%nat = Some k /\ sc = APending Pop end
  | PopHelp l t k => l = hd /\ t = l /\ ns.*1 !! 1%nat = Some k /\ sc = APending Pop
  | PopRead l nx => l = hd /\ tl <> l /\ (exists k, nx = Some k /\ ns.*1 !! 1%nat = Some k) /\ sc = APending Pop
  | PopCas l k v => l = hd /\ tl <> l /\ ns !! 1%nat = Some (k, v) /\ sc = APending Pop
  | PopDelete l v => is_Some (h !! l) /\ (l ∉ ns.*1) /\ sc = ADone (Popped v)
  | EmptyHead => sc = APending Empty
  | EmptyTail l => l = hd /\ sc = APending Empty
  | Done r => sc = ADone r
  | _ => False
  end.

Record queue_ok front rest sh p sp c sc : Prop := {
  q_head : front.*1 !! 0%nat = Some (head sh);
  q_tail : last front.*1 = Some (tail sh);
  q_nodup : NoDup (front ++ rest).*1;
  q_chain : chain (heap sh) (front ++ rest);
  q_producer : producer_ok (heap sh) (tail sh) front rest p sp;
  q_consumer : consumer_ok (heap sh) (head sh) (tail sh) (front ++ rest) c sc;
  q_apart l : owned p = Some l -> owned c <> Some l;
  q_live l : is_Some (heap sh !! l) -> l ∈ (front ++ rest).*1 \/ owned p = Some l \/ owned c = Some l }.

(** What the queue holds: the values of the nodes up to the tail, without the first one. *)
Definition held front : list V := drop 1 front.*2.

(** ** The chain *)

Lemma linked_frame h h' ns : (forall l, l ∈ ns.*1 -> h' !! l = h !! l) -> chain h ns -> chain h' ns.
Proof.
  intros Hf Hc i l v Hi. rewrite Hf; [by apply Hc|]. apply list_elem_of_lookup. exists i. by rewrite list_lookup_fmap, Hi.
Qed.

Lemma chain_drop h x ns : chain h (x :: ns) -> chain h ns.
Proof. intros Hc i l v Hi. exact (Hc (S i) l v Hi). Qed.

Lemma chain_node h ns l : chain h ns -> l ∈ ns.*1 -> exists i v, ns !! i = Some (l, v) /\ h !! l = Some (MkNode v (fst <$> ns !! S i)).
Proof.
  intros Hc [i Hi]%list_elem_of_lookup. rewrite list_lookup_fmap in Hi. destruct (ns !! i) as [[l' v]|] eqn:E; [|done].
  injection Hi as ->. exists i, v. split; [done|by apply Hc].
Qed.

(** The next node of the last one. *)
Lemma chain_link h ns n v t w : chain h (ns ++ [(t, w)]) -> NoDup (ns ++ [(t, w)]).*1 -> (n ∉ (ns ++ [(t, w)]).*1) -> h !! n = Some (MkNode v None) ->
  chain (<[t := MkNode w (Some n)]> h) ((ns ++ [(t, w)]) ++ [(n, v)]).
Proof.
  intros Hc Hnd Hn Hh i l u Hi. assert (t <> n) as Htn. { intros ->. apply Hn. rewrite fmap_app. apply elem_of_app. right. by left. }
  destruct (decide (i < length ns)%nat) as [Hlt|Hge].
  - rewrite lookup_app_l in Hi by (rewrite length_app; cbn; lia). rewrite lookup_insert_ne.
    + rewrite (Hc i l u Hi). do 2 f_equal. f_equal. symmetry. apply lookup_app_l. rewrite length_app. cbn. lia.
    + intros <-. assert (i = length ns) as ->; [|lia]. apply (NoDup_lookup _ _ _ t Hnd).
      * by rewrite list_lookup_fmap, Hi.
      * by rewrite list_lookup_fmap, lookup_app_r, Nat.sub_diag by done.
  - destruct (decide (i = length ns)) as [->|Hne].
    + rewrite <- app_assoc in Hi. rewrite lookup_app_r, Nat.sub_diag in Hi by done. injection Hi as <- <-.
      rewrite lookup_insert_eq, <- app_assoc, lookup_app_r by lia. replace (S (length ns) - length ns)%nat with 1%nat by lia. done.
    + rewrite lookup_app_r in Hi by (rewrite length_app; cbn; lia). rewrite length_app in Hi. cbn [length] in Hi.
      destruct (i - (length ns + 1))%nat as [|k] eqn:Ek; [|done]. injection Hi as <- <-. rewrite lookup_insert_ne by done. rewrite Hh.
      do 2 f_equal. rewrite (lookup_ge_None_2 _ (S i)); [done|]. rewrite !length_app. cbn. lia.
Qed.

(** ** What a step of the other thread leaves as it is *)

Lemma consumer_frame h h' hd tl tl' ns ns' c sc : consumer_ok h hd tl ns c sc -> (tl <> hd -> tl' <> hd) ->
  (forall x, ns !! 1%nat = Some x -> ns' !! 1%nat = Some x) -> (forall l, owned c = Some l -> h' !! l = h !! l /\ (l ∉ ns'.*1)) ->
  consumer_ok h' hd tl' ns' c sc.
Proof.
  intros Hc Ht Hn Ho.
  assert (forall k, ns.*1 !! 1%nat = Some k -> ns'.*1 !! 1%nat = Some k) as Hn1.
  { intros k. rewrite !list_lookup_fmap. destruct (ns !! 1%nat) as [x|] eqn:E; [|done]. by rewrite (Hn x eq_refl). }
  destruct c as [|v|n|n t|n t nx|n t|n t k|n t| |l|l t|l t nx|l t k|l nx|l k v|l v| |l|r]; cbn in *; try done.
  - naive_solver.
  - destruct Hc as (-> & H & Hx). split; [done|]. split; [naive_solver|]. destruct nx as [k|]; naive_solver.
  - naive_solver.
  - naive_solver.
  - naive_solver.
  - destruct Hc as (Hl & _ & ->). destruct (Ho _ eq_refl) as [-> ?]. done.
Qed.

Lemma consumer_owned h hd tl ns c sc l : consumer_ok h hd tl ns c sc -> owned c = Some l -> is_Some (h !! l) /\ (l ∉ ns.*1).
Proof. intros Hc Ho. destruct c; cbn in *; try done; destruct_and?; try done. by injection Ho as <-. Qed.

Lemma producer_frame h h' tl front front' rest p sp : producer_ok h tl front rest p sp ->
  (forall n, owned p = Some n -> h' !! n = h !! n) -> (forall n, n ∈ front'.*1 -> n ∈ front.*1) -> producer_ok h' tl front' rest p sp.
Proof.
  intros Hp Hh Hf. assert (forall n, (n ∉ front.*1) -> n ∉ front'.*1) as Hnf by (intros n H1 H2; by apply H1, Hf).
  assert (forall n st, owned p = Some n -> (exists v, h !! n = Some (MkNode v None) /\ (n ∉ front.*1) /\ st = APending (Push v)) ->
    exists v, h' !! n = Some (MkNode v None) /\ (n ∉ front'.*1) /\ st = APending (Push v)) as Hx.
  { intros n st Ho (v & H1 & H2 & H3). exists v. rewrite Hh by done. auto. }
  destruct p; cbn in *; try done; destruct_and!; repeat (split; [done|]); by apply Hx.
Qed.

Lemma empty_iff front hd tl : front.*1 !! 0%nat = Some hd -> last front.*1 = Some tl -> NoDup front.*1 ->
  (hd =? tl)%nat = bool_decide (held front = []).
Proof.
  destruct front as [|[l v] [|[k w] front]]; [done| |].
  - intros [= ->] [= ->] _. by rewrite Nat.eqb_refl.
  - intros [= ->] Hl [Hn _]%NoDup_cons. change (last (k :: front.*1) = Some tl) in Hl. change (hd ∉ k :: front.*1) in Hn.
    rewrite bool_decide_eq_false_2 by done. apply Nat.eqb_neq. intros ->. apply Hn, last_Some_elem_of, Hl.
Qed.

(** The last node before the tail advances. *)
Lemma front_tail front tl : last front.*1 = Some tl -> exists f w, front = f ++ [(tl, w)].
Proof.
  intros Hl. destruct front as [|[l w] f _] using rev_ind; [done|]. rewrite fmap_app in Hl. change ([(l, w)].*1) with [l] in Hl. rewrite last_snoc in Hl. injection Hl as ->. by exists f, w.
Qed.

Lemma held_snoc f x n v : held ((f ++ [x]) ++ [(n, v)]) = held (f ++ [x]) ++ [v].
Proof. unfold held. rewrite (fmap_app _ (f ++ [x])). apply drop_app_le. rewrite length_fmap, length_app. cbn. lia. Qed.

(** ** A step of the producer *)

Section Step.
Context (front rest : list (nat * V)) (sh : @Shared V) (p : @Pc V) (sp : Status (Op V) (Res V)) (c : @Pc V) (sc : Status (Op V) (Res V)).
Context (HR : queue_ok front rest sh p sp c sc).

Abbreviation trace := (spec_trace effect).

Lemma tail_node : exists f w, front = f ++ [(tail sh, w)] /\ heap sh !! tail sh = Some (MkNode w (fst <$> rest !! 0%nat)).
Proof.
  destruct (front_tail _ _ (q_tail _ _ _ _ _ _ _ HR)) as (f & w & E). exists f, w. split; [done|].
  rewrite (q_chain _ _ _ _ _ _ _ HR (length f) (tail sh) w).
  - do 2 f_equal. f_equal. rewrite E, lookup_app_r by (rewrite length_app; cbn; lia). f_equal. rewrite length_app. cbn. lia.
  - rewrite E, lookup_app_l by (rewrite length_app; cbn; lia). by rewrite lookup_app_r, Nat.sub_diag by done.
Qed.

Lemma front_nodup : NoDup front.*1.
Proof. pose proof (q_nodup _ _ _ _ _ _ _ HR) as H. rewrite fmap_app in H. by apply NoDup_app in H as [? _]. Qed.

(** The memory stays as it is. *)
Lemma quiet p' sp' : owned p' = owned p -> producer_ok (heap sh) (tail sh) front rest p' sp' -> queue_ok front rest sh p' sp' c sc.
Proof. intros Ho Hp. destruct HR. constructor; rewrite ?Ho; done. Qed.
Lemma quiet_consumer c' sc' : owned c' = owned c -> consumer_ok (heap sh) (head sh) (tail sh) (front ++ rest) c' sc' ->
  queue_ok front rest sh p sp c' sc'.
Proof. intros Ho Hp. destruct HR. constructor; rewrite ?Ho; done. Qed.

Definition producer_result (m : outcome (@Shared V * @Pc V)) : Prop :=
  exists sh' p' front' rest' sp', m = Val (sh', p') /\ trace (MkSpec (held front) [sp; sc]) [] (MkSpec (held front') [sp'; sc]) /\
    queue_ok front' rest' sh' p' sp' c sc.

Lemma producer_stays sh' p' rest' : queue_ok front rest' sh' p' sp c sc -> producer_result (Val (sh', p')).
Proof. intros H. exists sh', p', front, rest', sp. split; [done|]. split; [constructor|done]. Qed.

Lemma producer_effect o l r front' : sp = APending o -> effect o (held front) = (l, r) -> held front' = l ->
  trace (MkSpec (held front) [sp; sc]) [] (MkSpec (held front') [ADone r; sc]).
Proof.
  intros -> E ->. pose proof (spec_effect effect (MkSpec (held front) [APending o; sc]) 0 o eq_refl) as H. cbn [contents status] in H.
  rewrite E in H. exact (trace_one _ _ _ _ H).
Qed.

(** The producer's node is linked: it is not part of the queue yet. *)
Lemma link_ok n v f w : p = PushLink n (tail sh) -> rest = [] -> front = f ++ [(tail sh, w)] -> heap sh !! n = Some (MkNode v None) -> (n ∉ front.*1) ->
  sp = APending (Push v) ->
  queue_ok front [(n, v)] (MkShared (head sh) (tail sh) (<[tail sh := MkNode w (Some n)]> (heap sh))) (PushSwing n (tail sh)) sp c sc.
Proof.
  intros Ep Er Ef Hn Hnf Hs. pose proof (q_nodup _ _ _ _ _ _ _ HR) as Hnd. pose proof (q_apart _ _ _ _ _ _ _ HR) as Ha. rewrite Er, app_nil_r in Hnd.
  assert (n <> tail sh) as Hnt. { intros ->. apply Hnf. rewrite Ef, fmap_app. apply elem_of_app. right. by left. }
  constructor; cbn [head tail heap].
  - apply (q_head _ _ _ _ _ _ _ HR).
  - apply (q_tail _ _ _ _ _ _ _ HR).
  - rewrite fmap_app. apply NoDup_app. split; [done|]. split; [|apply NoDup_singleton]. intros l Hl ->%list_elem_of_singleton. done.
  - pose proof (q_chain _ _ _ _ _ _ _ HR) as Hc. rewrite Er, app_nil_r in Hc. rewrite Ef in Hc, Hnd, Hnf |- *. by apply chain_link.
  - split; [done|]. left. by exists v.
  - apply (consumer_frame (heap sh) _ _ (tail sh) _ (front ++ rest)); [apply (q_consumer _ _ _ _ _ _ _ HR)|done| |].
    + intros x. rewrite Er, app_nil_r. apply lookup_app_l_Some.
    + intros l Ho. destruct (consumer_owned _ _ _ _ _ _ _ (q_consumer _ _ _ _ _ _ _ HR) Ho) as [_ Hl]. rewrite Er, app_nil_r in Hl.
      assert (l <> tail sh) as Hlt. { intros ->. apply Hl. rewrite Ef, fmap_app. apply elem_of_app. right. by left. }
      rewrite lookup_insert_ne by done. split; [done|]. rewrite fmap_app. intros [?| ->%list_elem_of_singleton]%elem_of_app; [done|].
      apply (Ha n); [by rewrite Ep|done].
  - done.
  - intros l Hl. destruct (decide (l = tail sh)) as [->|Hne].
    { left. rewrite Ef, !fmap_app. apply elem_of_app. left. apply elem_of_app. right. by left. }
    rewrite lookup_insert_ne in Hl by done. destruct (q_live _ _ _ _ _ _ _ HR l Hl) as [H|[H|H]]; [left|left|by right; right].
    + rewrite Er, app_nil_r in H. rewrite fmap_app. apply elem_of_app. by left.
    + rewrite Ep in H. injection H as <-. rewrite fmap_app. apply elem_of_app. right. by left.
Qed.

(** The tail reaches the node, moved by the producer or by the consumer. *)
Lemma swing_ok n v p' sp' c' sc' : rest = [(n, v)] -> owned p' = owned p -> owned c' = owned c ->
  producer_ok (heap sh) n (front ++ [(n, v)]) [] p' sp' ->
  (consumer_ok (heap sh) (head sh) (tail sh) (front ++ rest) c' sc' \/ consumer_ok (heap sh) (head sh) n (front ++ rest) c' sc') ->
  queue_ok (front ++ [(n, v)]) [] (MkShared (head sh) n (heap sh)) p' sp' c' sc'.
Proof.
  intros Er Hp Hco Hpo Hc. pose proof (q_nodup _ _ _ _ _ _ _ HR) as Hnd. rewrite Er in Hnd.
  pose proof (q_head _ _ _ _ _ _ _ HR) as Hhd.
  assert (n <> head sh) as Hne.
  { intros ->. rewrite fmap_app in Hnd. apply NoDup_app in Hnd as (_ & Hnd & _). apply (Hnd (head sh)); [|by left].
    apply list_elem_of_lookup. by exists 0%nat. }
  constructor; cbn [head tail heap]; rewrite ?app_nil_r.
  - rewrite fmap_app. by apply lookup_app_l_Some.
  - rewrite fmap_app. change ([(n, v)].*1) with [n]. by rewrite last_snoc.
  - done.
  - rewrite <- Er. apply (q_chain _ _ _ _ _ _ _ HR).
  - done.
  - rewrite <- Er. destruct Hc as [Hc|Hc]; [|done]. apply (consumer_frame _ _ _ _ _ _ _ _ _ Hc); [done|done|].
    intros l Hl. split; [done|]. by destruct (consumer_owned _ _ _ _ _ _ _ Hc Hl).
  - rewrite Hp, Hco. apply (q_apart _ _ _ _ _ _ _ HR).
  - rewrite Hp, Hco, <- Er. apply (q_live _ _ _ _ _ _ _ HR).
Qed.

Lemma new_ok v fresh : p = PushNew v -> heap sh !! fresh = None -> rest = [] -> sp = APending (Push v) ->
  queue_ok front rest (MkShared (head sh) (tail sh) (<[fresh := MkNode v None]> (heap sh))) (PushTail fresh) sp c sc.
Proof.
  intros Ep Hf Er Hs. pose proof (q_chain _ _ _ _ _ _ _ HR) as Hc. pose proof (q_consumer _ _ _ _ _ _ _ HR) as Hco.
  assert (fresh ∉ (front ++ rest).*1) as Hn. { intros Hin. destruct (chain_node _ _ _ Hc Hin) as (i & u & _ & E). by rewrite Hf in E. }
  assert (owned c <> Some fresh) as Hco2.
  { intros E. destruct (consumer_owned _ _ _ _ _ _ _ Hco E) as [[x Hx] _]. by rewrite Hf in Hx. }
  constructor; cbn [head tail heap].
  - apply (q_head _ _ _ _ _ _ _ HR).
  - apply (q_tail _ _ _ _ _ _ _ HR).
  - apply (q_nodup _ _ _ _ _ _ _ HR).
  - apply (linked_frame (heap sh)); [|done]. intros l Hl. apply lookup_insert_ne. by intros <-.
  - split; [done|]. exists v. rewrite lookup_insert_eq. split; [done|]. split; [|done]. intros H. apply Hn. rewrite fmap_app. apply elem_of_app. by left.
  - apply (consumer_frame (heap sh) _ _ (tail sh) _ (front ++ rest)); [done..|]. intros l Hl. split; [apply lookup_insert_ne; congruence|].
    by destruct (consumer_owned _ _ _ _ _ _ _ Hco Hl).
  - intros l [= <-]. done.
  - intros l Hl. destruct (decide (l = fresh)) as [->|Hne]; [right; by left|]. rewrite lookup_insert_ne in Hl by done.
    destruct (q_live _ _ _ _ _ _ _ HR l Hl) as [H|[H|H]]; [by left| |by right; right]. by rewrite Ep in H.
Qed.

Lemma producer_step fresh m : queue_step fresh false sh p = Some m -> producer_result m.
Proof.
  intros E. pose proof (q_producer _ _ _ _ _ _ _ HR) as Hp. destruct tail_node as (f & w & Ef & Ht).
  destruct p as [|v|n|n t|n t nx|n t|n t k|n t| |l|l t|l t nx|l t k|l nx|l k v|l v| |l|r] eqn:Ep in E, Hp; try done; cbn in E, Hp.
  - destruct (heap sh !! fresh) eqn:Eh; [done|]. injection E as <-. destruct Hp as [Er Hs]. apply (producer_stays _ _ rest). by apply new_ok.
  - injection E as <-. destruct Hp as [Er Hp]. apply (producer_stays _ _ rest), quiet; rewrite ?Ep; [done|]. done.
  - destruct Hp as (Er & -> & Hp). rewrite Ht, Er in E. injection E as <-. apply (producer_stays _ _ rest), quiet; rewrite ?Ep; done.
  - destruct Hp as (Er & -> & -> & Hp). rewrite Nat.eqb_refl in E. injection E as <-. apply (producer_stays _ _ rest), quiet; rewrite ?Ep; done.
  - destruct Hp as (Er & -> & v & Hn & Hnf & Hs). unfold cas_next in E. rewrite Ht, Er in E. injection E as <-.
    apply (producer_stays _ _ [(n, v)]). by apply link_ok with f.
  - destruct Hp as (Hne & [(v & Er & -> & Hs)|(Er & Htl & Hs)]); unfold cas_tail in E; injection E as <-.
    + rewrite Nat.eqb_refl. exists (MkShared (head sh) n (heap sh)), (Done Pushed), (front ++ [(n, v)]), [], (ADone Pushed). split; [done|]. split.
      * apply (producer_effect (Push v) (held front ++ [v])); [done|done|]. rewrite Ef. by apply held_snoc.
      * apply swing_ok; rewrite ?Ep; try done. left. apply (q_consumer _ _ _ _ _ _ _ HR).
    + rewrite (proj2 (Nat.eqb_neq _ _)) by congruence. apply (producer_stays _ _ rest), quiet; rewrite ?Ep; done.
  - destruct Hp as [Er Hs]. injection E as <-. exists sh, (EmptyTail (head sh)), front, rest, (ADone (IsEmpty (head sh =? tail sh)%nat)). split; [done|].
    split; [|apply quiet; rewrite ?Ep; done]. apply (producer_effect Empty (held front)); [done| |done]. cbn [effect].
    by rewrite (empty_iff front _ _ (q_head _ _ _ _ _ _ _ HR) (q_tail _ _ _ _ _ _ _ HR) front_nodup).
  - destruct Hp as [Er Hs]. injection E as <-. apply (producer_stays _ _ rest), quiet; rewrite ?Ep; done.
Qed.

(** ** A step of the consumer *)

Definition consumer_result (m : outcome (@Shared V * @Pc V)) : Prop :=
  exists sh' c' front' rest' sp' sc', m = Val (sh', c') /\ trace (MkSpec (held front) [sp; sc]) [] (MkSpec (held front') [sp'; sc']) /\
    queue_ok front' rest' sh' p sp' c' sc'.

Lemma consumer_stays sh' c' : queue_ok front rest sh' p sp c' sc -> consumer_result (Val (sh', c')).
Proof. intros H. exists sh', c', front, rest, sp, sc. split; [done|]. split; [constructor|done]. Qed.

Lemma consumer_effect o l r front' : sc = APending o -> effect o (held front) = (l, r) -> held front' = l ->
  trace (MkSpec (held front) [sp; sc]) [] (MkSpec (held front') [sp; ADone r]).
Proof.
  intros -> E ->. pose proof (spec_effect effect (MkSpec (held front) [sp; APending o]) 1 o eq_refl) as H. cbn [contents status] in H.
  rewrite E in H. exact (trace_one _ _ _ _ H).
Qed.

Lemma head_node : exists u f, front = (head sh, u) :: f /\ heap sh !! head sh = Some (MkNode u (fst <$> (f ++ rest) !! 0%nat)).
Proof.
  pose proof (q_head _ _ _ _ _ _ _ HR) as Hh. destruct front as [|[l u] f] eqn:E in Hh; [done|]. injection Hh as Hh. exists u, f. rewrite <- Hh, E.
  split; [done|]. pose proof (q_chain _ _ _ _ _ _ _ HR 0%nat l u) as Hc. rewrite E in Hc. by rewrite Hc.
Qed.

Lemma tail_at_head u f : front = (head sh, u) :: f -> tail sh = head sh -> f = [].
Proof.
  intros E Ht. pose proof (q_tail _ _ _ _ _ _ _ HR) as Hl. pose proof front_nodup as Hnd. rewrite E in Hl, Hnd. destruct f as [|[k w] f]; [done|].
  rewrite Ht in Hl. change (last (k :: f.*1) = Some (head sh)) in Hl. apply NoDup_cons in Hnd as [Hn _]. destruct Hn. by apply last_Some_elem_of.
Qed.

Lemma rest_pending : rest = [] \/ exists n v, p = PushSwing n (tail sh) /\ n <> tail sh /\ rest = [(n, v)] /\ sp = APending (Push v).
Proof.
  pose proof (q_producer _ _ _ _ _ _ _ HR) as Hp. destruct p eqn:Ep in Hp |- *; cbn in Hp; try done; try (left; by destruct_and?).
  destruct Hp as [? [(v & -> & -> & ->)|(? & ? & ?)]]; [right|by left]. eauto 6.
Qed.

(** The consumer moves the tail. *)
Lemma help_ok weak k : consumer_ok (heap sh) (head sh) (tail sh) (front ++ rest) c (APending Pop) -> c = PopHelp (head sh) (head sh) k ->
  sc = APending Pop -> consumer_result (Val (snd (cas_tail weak sh (head sh) k), PopHead)).
Proof.
  intros Hc Ec Hs. unfold cas_tail. destruct (negb weak && (tail sh =? head sh)%nat) eqn:E; cbn [snd]; [|apply consumer_stays, quiet_consumer; by rewrite ?Ec].
  apply andb_true_iff in E as [_ E%Nat.eqb_eq]. destruct head_node as (u & f & Ef & _). pose proof (tail_at_head u f Ef E) as ->.
  rewrite Ec in Hc. destruct Hc as (_ & _ & Hk & _). rewrite Ef in Hk.
  destruct rest_pending as [Er|(n & v & Ep & Hn & Er & Hsp)]; [by rewrite Er in Hk|]. rewrite Er in Hk. injection Hk as ->.
  exists (MkShared (head sh) k (heap sh)), PopHead, (front ++ [(k, v)]), [], (ADone Pushed), sc. split; [done|]. split.
  - apply (producer_effect (Push v) (held front ++ [v])); [done|done|]. rewrite Ef. by apply (held_snoc []).
  - apply swing_ok; rewrite ?Ep, ?Ec; try done.
    + split; [done|]. by right.
    + by left.
Qed.

(** The first node leaves the queue. *)
Lemma take_ok k v u f : c = PopCas (head sh) k v -> front = (head sh, u) :: f -> f.*1 !! 0%nat = Some k ->
  queue_ok f rest (MkShared k (tail sh) (heap sh)) p sp (PopDelete (head sh) v) (ADone (Popped v)).
Proof.
  intros Ec Ef Hk. pose proof (q_nodup _ _ _ _ _ _ _ HR) as Hnd. rewrite Ef in Hnd. apply NoDup_cons in Hnd as [Hn Hnd].
  pose proof (q_tail _ _ _ _ _ _ _ HR) as Hl. pose proof (q_producer _ _ _ _ _ _ _ HR) as Hp. pose proof (q_chain _ _ _ _ _ _ _ HR) as Hc. rewrite Ef in Hl, Hc.
  pose proof (q_live _ _ _ _ _ _ _ HR) as Hlive. rewrite Ef in Hlive.
  constructor; cbn [head tail heap]; try done.
  - destruct f as [|[k' w] f]; [done|]. exact Hl.
  - by apply (chain_drop _ (head sh, u)).
  - apply (producer_frame (heap sh) _ _ front); [done|done|]. rewrite Ef. intros n Hin. by right.
  - split; [|done]. rewrite (Hc 0%nat (head sh) u eq_refl). by eexists.
  - intros l Ho [= <-]. destruct p; cbn in Ho; try done; cbn in Hp; destruct_and?; try done; injection Ho as ->;
      match goal with H : exists _, _ |- _ => destruct H as (x & _ & Hx & _) end; apply Hx; rewrite Ef; by left.
  - intros l Hs. destruct (Hlive l Hs) as [H|[H|H]]; [|by right; left|by rewrite Ec in H]. apply elem_of_cons in H as [->|H]; [by right; right|by left].
Qed.

Lemma delete_ok l v : c = PopDelete l v -> sc = ADone (Popped v) ->
  queue_ok front rest (MkShared (head sh) (tail sh) (delete l (heap sh))) p sp (Done (Popped v)) sc.
Proof.
  intros Ec Hs. pose proof (q_consumer _ _ _ _ _ _ _ HR) as Hc. rewrite Ec in Hc. destruct Hc as (_ & Hn & _).
  constructor; cbn [head tail heap]; try apply HR; try done.
  - apply (linked_frame (heap sh)); [|apply HR]. intros k Hk. apply lookup_delete_ne. by intros ->.
  - apply (producer_frame (heap sh) _ _ front); [apply HR| |done]. intros k Hk. apply lookup_delete_ne. intros ->.
    apply (q_apart _ _ _ _ _ _ _ HR k Hk). by rewrite Ec.
  - intros k Hk. destruct (decide (k = l)) as [->|Hne]; [rewrite lookup_delete_eq in Hk; by destruct Hk|]. rewrite lookup_delete_ne in Hk by done.
    destruct (q_live _ _ _ _ _ _ _ HR k Hk) as [H|[H|H]]; [by left|by right; left|]. rewrite Ec in H. by injection H as ->.
Qed.

Lemma consumer_step fresh weak m : queue_step fresh weak sh c = Some m -> consumer_result m.
Proof.
  intros E. pose proof (q_consumer _ _ _ _ _ _ _ HR) as Hc. destruct head_node as (u & f & Ef & Hhd).
  destruct c as [|v|n|n t|n t nx|n t|n t k|n t| |l|l t|l t nx|l t k|l nx|l k v|l v| |l|r] eqn:Ec in E, Hc; try done; cbn in E, Hc.
  - injection E as <-. apply consumer_stays, quiet_consumer; by rewrite ?Ec.
  - injection E as <-. destruct Hc as [-> Hs]. apply consumer_stays, quiet_consumer; by rewrite ?Ec.
  - destruct Hc as (-> & Ht & Hs). rewrite Hhd in E. injection E as <-. cbn [next]. destruct ((f ++ rest) !! 0%nat) as [[k v]|] eqn:E1; cbn [fmap option_fmap option_map fst].
    + apply consumer_stays, quiet_consumer; rewrite ?Ec; [done|]. split; [done|]. split; [done|]. split; [|done]. rewrite list_lookup_fmap, Ef. change (fst <$> (f ++ rest) !! 0%nat = Some k). by rewrite E1.
    + destruct f; [|done]. exists sh, (PopCheck (head sh) t None), front, rest, sp, (ADone Nothing). split; [done|].
      split; [by apply (consumer_effect Pop []); [done|rewrite Ef..]|]. apply quiet_consumer; rewrite ?Ec; [done|]. split; [done|]. split; [done|].
      split; [|done]. pose proof (q_tail _ _ _ _ _ _ _ HR) as Hl. rewrite Ef in Hl. injection Hl as Hl. destruct (decide (t = head sh)) as [|Hne]; [done|]. by destruct (Ht Hne).
  - destruct Hc as (-> & Ht & Hx). rewrite Nat.eqb_refl in E. injection E as <-. destruct (head sh =? t)%nat eqn:E1.
    + apply Nat.eqb_eq in E1 as <-. destruct nx as [k|]; apply consumer_stays, quiet_consumer; rewrite ?Ec; destruct_and?; by repeat split.
    + apply Nat.eqb_neq in E1. destruct nx as [k|]; [|destruct Hx as [E2 _]; congruence]. apply consumer_stays, quiet_consumer; rewrite ?Ec; [done|].
      destruct Hx. split; [done|]. split; [apply Ht; congruence|]. split; [by exists k|done].
  - destruct Hc as (-> & -> & Hk & Hs). injection E as <-. apply help_ok; [rewrite Ec; by repeat split|done..].
  - destruct Hc as (-> & Ht & (k & -> & Hk) & Hs). cbn in E. rewrite list_lookup_fmap in Hk. destruct ((front ++ rest) !! 1%nat) as [[k' v]|] eqn:E1; [|done]. injection Hk as ->.
    rewrite (q_chain _ _ _ _ _ _ _ HR _ _ _ E1) in E. injection E as <-. apply consumer_stays, quiet_consumer; by rewrite ?Ec.
  - destruct Hc as (-> & Ht & Hk & Hs). unfold cas_head in E. destruct (negb weak && _) eqn:E1; injection E as <-; [|apply consumer_stays, quiet_consumer; by rewrite ?Ec].
    rewrite Ef in Hk. cbn in Hk. pose proof (q_tail _ _ _ _ _ _ _ HR) as Hl. destruct f as [|[k' v'] f]; [rewrite Ef in Hl; injection Hl as Hl; by destruct Ht|]. injection Hk as -> ->.
    exists (MkShared k (tail sh) (heap sh)), (PopDelete (head sh) v), ((k, v) :: f), rest, sp, (ADone (Popped v)). split; [done|].
    split; [apply (consumer_effect Pop (f.*2)); [done|by rewrite Ef|done]|]. by apply (take_ok k v u).
  - destruct Hc as ([x Hx] & Hn & Hs). rewrite Hx in E. injection E as <-. by apply consumer_stays, delete_ok.
  - injection E as <-. apply consumer_stays, quiet_consumer; by rewrite ?Ec.
  - destruct Hc as [-> Hs]. injection E as <-. exists sh, (Done (IsEmpty (head sh =? tail sh)%nat)), front, rest, sp, (ADone (IsEmpty (head sh =? tail sh)%nat)). split; [done|].
    split; [|apply quiet_consumer; by rewrite ?Ec]. apply (consumer_effect Empty (held front)); [done| |done]. cbn [effect].
    by rewrite (empty_iff front _ _ (q_head _ _ _ _ _ _ _ HR) (q_tail _ _ _ _ _ _ _ HR) front_nodup).
Qed.
End Step.

(** ** Executions *)

Abbreviation QState := (State (@Pc V) (@Shared V)).
Abbreviation QSpec := (Spec (Op V) (Res V) (list V)).
Implicit Types (s : QState) (a : QSpec).

Definition simulates s a : Prop :=
  exists front rest p c sp sc, threads s = [p; c] /\ a = MkSpec (held front) [sp; sc] /\ queue_ok front rest (shared s) p sp c sc.

Lemma simulates_intro front rest sh p sp c sc : queue_ok front rest sh p sp c sc ->
  simulates (MkState sh [p; c]) (MkSpec (held front) [sp; sc]).
Proof. intros H. by exists front, rest, p, c, sp, sc. Qed.

Lemma call_simulates s a tid o m : simulates s a -> one_to_one (tid, Call o) -> do_action tid (Call o) s = Some m ->
  exists s' e a', m = Val (s', e) /\ spec_trace effect a e a' /\ simulates s' a'.
Proof.
  intros (front & rest & p & c & sp & sc & Et & -> & HR) Hok E. unfold do_action in E. rewrite Et in E.
  pose proof (q_producer _ _ _ _ _ _ _ HR) as Hp. pose proof (q_consumer _ _ _ _ _ _ _ HR) as Hc.
  destruct tid as [|[|tid]]; [| |done]; cbn [lookup list_lookup mbind option_bind is_idle queue_program] in E.
  - destruct p; try done. destruct Hp as [Er ->]. injection E as <-. eexists _, _, _. split; [done|]. split; [apply trace_one, spec_call; done|].
    apply simulates_intro with rest, (quiet _ _ _ Idle AIdle); [done|destruct o; done|destruct o; try done; by destruct Hok].
  - destruct c; try done. cbn in Hc. subst sc. injection E as <-. eexists _, _, _. split; [done|]. split; [apply trace_one, spec_call; done|].
    apply simulates_intro with rest, (quiet_consumer _ _ _ _ _ Idle AIdle); [done|destruct o; done|destruct o; try done; by destruct Hok].
Qed.

Lemma return_simulates s a tid m : simulates s a -> do_action tid Return s = Some m ->
  exists s' e a', m = Val (s', e) /\ spec_trace effect a e a' /\ simulates s' a'.
Proof.
  intros (front & rest & p & c & sp & sc & Et & -> & HR) E. unfold do_action in E. rewrite Et in E.
  pose proof (q_producer _ _ _ _ _ _ _ HR) as Hp. pose proof (q_consumer _ _ _ _ _ _ _ HR) as Hc.
  destruct tid as [|[|tid]]; [| |done]; cbn [lookup list_lookup mbind option_bind result queue_program] in E.
  - destruct p as [| | | | | | | | | | | | | | | | | |r]; try done. destruct Hp as [Er ->]. injection E as <-. eexists _, _, _. split; [done|].
    split; [apply trace_one, (spec_return _ _ _ r); done|]. by apply simulates_intro with rest, (quiet _ _ _ (Done r) (ADone r)).
  - destruct c as [| | | | | | | | | | | | | | | | | |r]; try done. cbn in Hc. subst sc. injection E as <-. eexists _, _, _. split; [done|].
    split; [apply trace_one, (spec_return _ _ _ r); done|]. by apply simulates_intro with rest, (quiet_consumer _ _ _ _ _ (Done r) (ADone r)).
Qed.

Lemma run_simulates s a tid fresh weak m : simulates s a -> one_to_one (V := V) (tid, Run fresh weak) -> do_action tid (Run fresh weak) s = Some m ->
  exists s' e a', m = Val (s', e) /\ spec_trace effect a e a' /\ simulates s' a'.
Proof.
  intros (front & rest & p & c & sp & sc & Et & -> & HR) Hok E. unfold do_action in E. rewrite Et in E.
  destruct tid as [|[|tid]]; [| |done]; cbn [lookup list_lookup mbind option_bind thread_step queue_program] in E.
  - rewrite (Hok eq_refl) in E. destruct (queue_step fresh false (shared s) p) as [m'|] eqn:E1; [|done]. injection E as <-.
    destruct (producer_step _ _ _ _ _ _ _ HR _ _ E1) as (sh' & p' & front' & rest' & sp' & -> & T & HR').
    eexists _, _, _. split; [done|]. split; [exact T|]. by apply simulates_intro with rest'.
  - destruct (queue_step fresh weak (shared s) c) as [m'|] eqn:E1; [|done]. injection E as <-.
    destruct (consumer_step _ _ _ _ _ _ _ HR _ _ _ E1) as (sh' & c' & front' & rest' & sp' & sc' & -> & T & HR').
    eexists _, _, _. split; [done|]. split; [exact T|]. by apply simulates_intro with rest'.
Qed.

Lemma init_simulates node : simulates (init default_value node 2) (spec_init 2).
Proof.
  apply (simulates_intro [(node, default_value)] []). assert (forall l, is_Some (({[node := MkNode default_value None]} : gmap nat Node) !! l) -> l = node) as Hl.
  { intros l [x Hx]. apply lookup_singleton_Some in Hx as [<- _]. done. }
  constructor; cbn; try done.
  - apply NoDup_singleton.
  - intros [|i] l v; [|done]. intros [= <- <-]. cbn. apply lookup_singleton_eq.
  - intros l ->%Hl. left. by left.
Qed.

(** ** The destructor *)

Lemma destroy_linked ns : forall fuel h, chain h ns -> NoDup ns.*1 -> (forall l, is_Some (h !! l) -> l ∈ ns.*1) -> (length ns <= fuel)%nat ->
  destroy_loop fuel h (fst <$> ns !! 0%nat) = Val ∅.
Proof.
  induction ns as [|[l v] ns IH]; intros fuel h Hc Hnd Hall Hf; cbn [lookup list_lookup fmap option_fmap option_map fst].
  - assert (h = ∅) as ->.
    { apply map_empty. intros l. destruct (h !! l) as [x|] eqn:E; [|done]. by destruct (elem_of_nil l) as [[] _]; apply Hall; eexists. }
    by destruct fuel.
  - destruct fuel as [|fuel]; cbn [length] in Hf; [lia|]. cbn [destroy_loop]. rewrite (Hc 0%nat l v eq_refl). cbn [of_option]. rewrite bind_Val. cbn [next].
    change ((((l, v) :: ns) : list (nat * V)) !! 1%nat) with (ns !! 0%nat). apply NoDup_cons in Hnd as [Hn Hnd].
    rewrite bool_decide_eq_false_2.
    + apply IH; [|done| |lia].
      * apply (linked_frame h); [|by apply (chain_drop _ (l, v))]. intros k Hk. apply lookup_delete_ne. intros ->. done.
      * intros k Hk. destruct (decide (k = l)) as [->|Hne]; [rewrite lookup_delete_eq in Hk; by destruct Hk|].
        rewrite lookup_delete_ne in Hk by done. specialize (Hall k Hk). by apply elem_of_cons in Hall as [?|?].
    + intros E. apply Hn, list_elem_of_lookup. exists 0%nat. change (ns.*1 !! 0%nat = Some l). by rewrite list_lookup_fmap.
Qed.

Lemma linked_size h ns : chain h ns -> NoDup ns.*1 -> (length ns <= size h)%nat.
Proof.
  intros Hc Hnd. rewrite <- (length_fmap fst ns), <- (size_list_to_set (C := gset nat) _ Hnd), <- size_dom. apply subseteq_size.
  intros l Hl. apply elem_of_list_to_set in Hl. destruct (chain_node _ _ _ Hc Hl) as (i & v & _ & E). apply elem_of_dom. by eexists.
Qed.

(** C18: With one producer and one consumer, when the producer's exchanges do not fail without a reason, every schedule of the
    lock-free queue is free of undefined behaviour, whatever addresses the allocator reuses; the calls and returns that it shows
    are those of a queue whose operations take effect at one point between call and return; and when both threads are idle, the
    destructor frees every node that is allocated. *)
Theorem linked_queue_linearizable node schedule (m : outcome (QState * list (Event (Op V) (Res V)))) :
  Forall one_to_one schedule -> exec schedule (init default_value node 2) = Some m ->
  exists s es a, m = Val (s, es) /\ spec_trace effect (spec_init 2) es a /\
    (Forall (fun p => p = Idle) (threads s) -> destroy (shared s) = Val ∅).
Proof.
  intros Hok E. destruct (exec_simulates effect simulates one_to_one) with (schedule := schedule) (s := init default_value node 2) (a := spec_init (V := V) 2) (m := m)
    as (s & es & a & -> & T & R); [|done|apply init_simulates|done|].
  - intros s a tid [o|fresh weak|] m' HR Ho Ea; [by apply (call_simulates s a tid o)|by apply (run_simulates s a tid fresh weak)|by apply (return_simulates s a tid)].
  - exists s, es, a. split; [done|]. split; [done|]. intros Hidle. destruct R as (front & rest & p & c & sp & sc & Et & -> & HR).
    rewrite Et in Hidle. apply Forall_cons in Hidle as [-> Hidle]. apply Forall_cons in Hidle as [-> _].
    destruct (q_producer _ _ _ _ _ _ _ HR) as [-> _]. destruct HR as [Hh _ Hnd Hc _ _ _ Hl]. rewrite app_nil_r in *. unfold destroy.
    assert (Some (head (shared s)) = fst <$> front !! 0%nat) as -> by (by rewrite <- list_lookup_fmap).
    apply destroy_linked; [done|done| |by apply linked_size]. intros l Hs. by destruct (Hl l Hs) as [?|[?|?]].
Qed.
End Proof.

(** ** Schedules *)

(** A step of a thread whose exchange does not fail without a reason; a push has six, of which the first allocates [fresh] and the last
    moves the tail; a pop that finds an element has seven. *)
Abbreviation runs tid k := (repeat (tid, Run 0%nat false) k).
Abbreviation push_until tid v fresh k := ([(tid, Call (Push v)); (tid, Run fresh false)] ++ runs tid k).
Abbreviation pushes tid v fresh := (push_until tid v fresh 5 ++ [(tid, Return)]).
Abbreviation pops tid := ([(tid, Call Pop)] ++ runs tid 7 ++ [(tid, Return)]).

(** The consumer moves the tail for the producer and takes the element, after an exchange that fails without a reason; the address of
    the node it deletes is used again. *)
Abbreviation helped := (push_until 0%nat 5 1%nat 4 ++ [(1%nat, Call Pop)] ++ runs 1%nat 10 ++ [(1%nat, Run 0%nat true)] ++ runs 1%nat 7 ++
  [(1%nat, Return); (0%nat, Run 0%nat false); (0%nat, Return)] ++ pushes 0%nat 6 0%nat ++ [(1%nat, Call Empty)] ++ runs 1%nat 2 ++ [(1%nat, Return)]).

Lemma linked_queue_linearizable_witness : exists s es a, exec helped (init 0 0%nat 2) = Some (Val (s, es)) /\
  spec_trace effect (spec_init (V := Z) 2) es a /\
  es = [ECall 0 (Push 5); ECall 1 Pop; EReturn 1 (Popped 5); EReturn 0 Pushed; ECall 0 (Push 6); EReturn 0 Pushed; ECall 1 Empty; EReturn 1 (IsEmpty false)] /\
  destroy (shared s) = Val ∅.
Proof.
  destruct (exec helped (init 0 0%nat 2)) as [m|] eqn:E; [|by vm_compute in E].
  destruct (linked_queue_linearizable 0 0%nat helped m) as (s & es & a & -> & T & D); [|exact E|].
  - cbn [app repeat]. repeat (apply List.Forall_cons; [first [exact I|reflexivity|intros H; discriminate H|intros _; reflexivity]|]). apply List.Forall_nil.
  - vm_compute in E. injection E as <- <-. do 3 eexists. split; [reflexivity|]. split; [exact T|]. split; [reflexivity|].
    apply D. repeat (apply List.Forall_cons; [reflexivity|]). apply List.Forall_nil.
Defined.

(** Beyond that the queue is not safe. With two producers and one consumer a producer can read the tail after the consumer has deleted
    it. Already with one producer, when the exchange at the end of a push fails without a reason, which is not tried
    again, [empty] finds no element after the push has returned, and the next push can read a tail that is deleted. *)
Theorem linked_queue_stale_tail :
  exec (push_until 0%nat 1 1%nat 1 ++ pushes 1%nat 2 2%nat ++ pops 2%nat ++ runs 0%nat 1) (init 0 0%nat 3) = Some Undef /\
  (exists s es, exec (push_until 0%nat 1 1%nat 4 ++ [(0%nat, Run 0%nat true); (0%nat, Return); (1%nat, Call Empty)] ++ runs 1%nat 2 ++ [(1%nat, Return)])
       (init 0 0%nat 2) = Some (Val (s, es)) /\
     es = [ECall 0 (Push 1); EReturn 0 Pushed; ECall 1 Empty; EReturn 1 (IsEmpty true)]) /\
  exec (push_until 0%nat 1 1%nat 4 ++ [(0%nat, Run 0%nat true); (0%nat, Return)] ++ push_until 0%nat 2 2%nat 1 ++
      [(1%nat, Call Pop)] ++ runs 1%nat 12 ++ [(1%nat, Return)] ++ runs 0%nat 1) (init 0 0%nat 2) = Some Undef.
Proof. split; [vm_compute; reflexivity|]. split; [eexists _, _; split; [vm_compute; reflexivity|reflexivity]|vm_compute; reflexivity]. Qed.
