(* ===== verification/SHA1.v ===== *)
(** * SHA-1

    Models [sese/util/SHA1Util.cpp] and its equivalence with FIPS 180-4. *)

From S2P Require Import Prelude Streams InputBufferWrapper OutputBufferWrapper Words.

Module SHA1.

(*@ sese/util/SHA1Util.h 28-31 SHA1Context *)
Record SHA1Context := Ctx { h : list Z; total : Z }.

Definition new_context : SHA1Context :=
  Ctx [0x67452301; 0xEFCDAB89; 0x98BADCFE; 0x10325476; 0xC3D2E1F0] 0.

(** The working variables and the macros of the unrolled loop. *)
Inductive reg := a | b | c | d | e.
Inductive macro := R0 | R1 | R2 | R3 | R4.

Record call := C { op : macro; V : reg; w : reg; X : reg; Y : reg; z : reg; I : nat }.

(** The values of the working variables. *)
Record regs := Regs { ra : Z; rb : Z; rc : Z; rd : Z; re : Z }.

Definition get (r : regs) (x : reg) : Z :=
  match x with a => ra r | b => rb r | c => rc r | d => rd r | e => re r end.
Definition set (r : regs) (x : reg) (v : Z) : regs :=
  match x with
  | a => Regs v (rb r) (rc r) (rd r) (re r)
  | b => Regs (ra r) v (rc r) (rd r) (re r)
  | c => Regs (ra r) (rb r) v (rd r) (re r)
  | d => Regs (ra r) (rb r) (rc r) v (re r)
  | e => Regs (ra r) (rb r) (rc r) (rd r) v
  end.

Definition word (block : list Z) (i : nat) : Z := nth i block 0.

(*@ sese/util/SHA1Util.cpp 32-34 blk *)
Definition blk (block : list Z) (i : nat) : Z :=
  let at_ k := word block (Nat.land (i + k) 15) in
  rol (Z.lxor (Z.lxor (Z.lxor (at_ 13%nat) (at_ 8%nat)) (at_ 2%nat)) (word block i)) 1.

(*@ sese/util/SHA1Util.cpp 39-66 R0 *)
(** One macro call. [R0] alone leaves the block as it is. *)
Definition exec (st : list Z * regs) (k : call) : list Z * regs :=
  let '(block, r) := st in
  let block := match op k with R0 => block | _ => <[I k := blk block (I k)]> block end in
  let wv := get r (w k) in let x := get r (X k) in let y := get r (Y k) in
  let f := match op k with
           | R0 | R1 => Z.lxor (Z.land wv (Z.lxor x y)) y
           | R2 | R4 => Z.lxor (Z.lxor wv x) y
           | R3 => Z.lor (Z.land (Z.lor wv x) y) (Z.land wv x)
           end in
  let K := match op k with
           | R0 | R1 => 0x5a827999 | R2 => 0x6ed9eba1 | R3 => 0x8f1bbcdc | R4 => 0xca62c1d6
           end in
  let r := set r (z k) (u32 (get r (z k) + (f + word block (I k) + K + rol (get r (V k)) 5))) in
  (block, set r (w k) (rol (get r (w k)) 30)).

(*@ sese/util/SHA1Util.cpp 77-156 transform *)
(** The unrolled loop. *)
Definition calls : list call :=
  ([C R0 a b c d e 0; C R0 e a b c d 1; C R0 d e a b c 2; C R0 c d e a b 3; C R0 b c d e a 4;
   C R0 a b c d e 5; C R0 e a b c d 6; C R0 d e a b c 7; C R0 c d e a b 8; C R0 b c d e a 9;
   C R0 a b c d e 10; C R0 e a b c d 11; C R0 d e a b c 12; C R0 c d e a b 13; C R0 b c d e a 14;
   C R0 a b c d e 15; C R1 e a b c d 0; C R1 d e a b c 1; C R1 c d e a b 2; C R1 b c d e a 3;
   C R2 a b c d e 4; C R2 e a b c d 5; C R2 d e a b c 6; C R2 c d e a b 7; C R2 b c d e a 8;
   C R2 a b c d e 9; C R2 e a b c d 10; C R2 d e a b c 11; C R2 c d e a b 12; C R2 b c d e a 13;
   C R2 a b c d e 14; C R2 e a b c d 15; C R2 d e a b c 0; C R2 c d e a b 1; C R2 b c d e a 2;
   C R2 a b c d e 3; C R2 e a b c d 4; C R2 d e a b c 5; C R2 c d e a b 6; C R2 b c d e a 7;
   C R3 a b c d e 8; C R3 e a b c d 9; C R3 d e a b c 10; C R3 c d e a b 11; C R3 b c d e a 12;
   C R3 a b c d e 13; C R3 e a b c d 14; C R3 d e a b c 15; C R3 c d e a b 0; C R3 b c d e a 1;
   C R3 a b c d e 2; C R3 e a b c d 3; C R3 d e a b c 4; C R3 c d e a b 5; C R3 b c d e a 6;
   C R3 a b c d e 7; C R3 e a b c d 8; C R3 d e a b c 9; C R3 c d e a b 10; C R3 b c d e a 11;
   C R4 a b c d e 12; C R4 e a b c d 13; C R4 d e a b c 14; C R4 c d e a b 15; C R4 b c d e a 0;
   C R4 a b c d e 1; C R4 e a b c d 2; C R4 d e a b c 3; C R4 c d e a b 4; C R4 b c d e a 5;
   C R4 a b c d e 6; C R4 e a b c d 7; C R4 d e a b c 8; C R4 c d e a b 9; C R4 b c d e a 10;
   C R4 a b c d e 11; C R4 e a b c d 12; C R4 d e a b c 13; C R4 c d e a b 14; C R4 b c d e a 15])%nat.

(*@ sese/util/SHA1Util.cpp 68-164 transform *)
Definition transform (ctx : SHA1Context) (block : list Z) : SHA1Context * list Z :=
  let h := h ctx in
  let r0 := Regs (nth 0 h 0) (nth 1 h 0) (nth 2 h 0) (nth 3 h 0) (nth 4 h 0) in
  let '(block, r) := fold_left exec calls (block, r0) in
  (Ctx [u32 (nth 0 h 0 + ra r); u32 (nth 1 h 0 + rb r); u32 (nth 2 h 0 + rc r);
        u32 (nth 3 h 0 + rd r); u32 (nth 4 h 0 + re r)] (total ctx), block).

(*@ sese/util/SHA1Util.cpp 166-171 buffer_to_block *)
Definition buffer_to_block (buffer : bytes) : list Z :=
  words (fun b0 b1 b2 b3 =>
    Z.lor (Z.lor (Z.lor (Z.land b3 255) (Z.shiftl (Z.land b2 255) 8))
                 (Z.shiftl (Z.land b1 255) 16)) (Z.shiftl (Z.land b0 255) 24)) buffer.

Section Encode.
Context {S D : Type} `{InputStream S} `{OutputStream D}.

Definition add_total (ctx : SHA1Context) (size : Z) : SHA1Context :=
  Ctx (h ctx) (u64 (total ctx + size)).

(*@ sese/util/SHA1Util.cpp 184-189 SHA1Util::encode *)
(** The loop over the full blocks, and the size, the context, the buffer and
    the stream it leaves. *)
Fixpoint encode_loop (fuel : nat) (input : S) (ctx : SHA1Context) (buffer : bytes) :
    outcome (Z * SHA1Context * bytes * S) :=
  match fuel with
  | O => Undef
  | Datatypes.S fuel =>
      '(size, data, input) ← stream_read input 64;
      buffer ← memcpy buffer 0 data;
      if size =? 64 then
        let ctx := add_total ctx size in
        let '(ctx, _) := transform ctx (buffer_to_block buffer) in
        encode_loop fuel input ctx buffer
      else Val (size, ctx, buffer, input)
  end.

(*@ sese/util/SHA1Util.cpp 191-216 SHA1Util::encode *)
(** The tail. A negative count given to [memset] is a huge one. *)
Definition encode_tail (size : Z) (ctx : SHA1Context) (buffer : bytes) : outcome SHA1Context :=
  let memset buffer off n := if n <? 0 then Undef else memcpy buffer off (repeat 0 (Z.to_nat n)) in
  let ctx := add_total ctx size in
  let length := be_bytes 8 (u64 (total ctx * 8)) in
  buffer ← memcpy buffer size [128];
  if size >? 55 then
    buffer ← memset buffer (size + 1) (63 - size);
    let '(ctx, _) := transform ctx (buffer_to_block buffer) in
    buffer ← memset buffer 0 56;
    buffer ← memcpy buffer 56 length;
    Val (fst (transform ctx (buffer_to_block buffer)))
  else
    buffer ← memset buffer (size + 1) (55 - size);
    buffer ← memcpy buffer 56 length;
    Val (fst (transform ctx (buffer_to_block buffer))).

(*@ sese/util/SHA1Util.cpp 179-222 SHA1Util::encode *)
Definition encode (fuel : nat) (input : S) (output : D) : outcome (S * D) :=
  '(size, ctx, buffer, input) ← encode_loop fuel input new_context (malloc 64);
  ctx ← encode_tail size ctx buffer;
  '(_, output) ← stream_write output (h ctx ≫= be_bytes 4);
  Val (input, output).
End Encode.

(** ** FIPS 180-4 *)

Definition Ch (x y z : Z) : Z := Z.lxor (Z.land x y) (Z.land (Z.lnot x) z).
Definition Maj (x y z : Z) : Z := Z.lxor (Z.lxor (Z.land x y) (Z.land x z)) (Z.land y z).
Definition Parity (x y z : Z) : Z := Z.lxor (Z.lxor x y) z.

Definition ref_f (t : nat) : Z -> Z -> Z -> Z :=
  (if t <? 20 then Ch else if t <? 40 then Parity else if t <? 60 then Maj else Parity)%nat.

(** The integer parts of [2 ^ 30] times the square roots of 2, 3, 5 and 10. *)
Definition ref_K (t : nat) : Z :=
  Z.sqrt (2 ^ 60 * (if (t <? 20)%nat then 2 else if (t <? 40)%nat then 3 else if (t <? 60)%nat then 5 else 10)).

(** The message schedule, from the last sixteen words. *)
Fixpoint ref_expand (n : nat) (win : list Z) : list Z :=
  match n with
  | O => []
  | S n =>
      let x := rol (Z.lxor (Z.lxor (Z.lxor (nth 13 win 0) (nth 8 win 0)) (nth 2 win 0)) (nth 0 win 0)) 1 in
      x :: ref_expand n (tail win ++ [x])
  end.

Definition state : Type := Z * Z * Z * Z * Z.

Definition ref_step (st : state) (t : nat) (x : Z) : state :=
  let '(va, vb, vc, vd, ve) := st in
  (u32 (rol va 5 + ref_f t vb vc vd + ve + ref_K t + x), va, rol vb 30, vc, vd).

Fixpoint ref_steps (t : nat) (xs : list Z) (st : state) : state :=
  match xs with [] => st | x :: xs => ref_steps (S t) xs (ref_step st t x) end.

(** The compression of one block of 64 bytes. *)
Definition ref_compress (st : state) (block : bytes) : state :=
  let ws := words be32 block in
  let '(va, vb, vc, vd, ve) := st in
  let '(va', vb', vc', vd', ve') := ref_steps 0 (ws ++ ref_expand 64 ws) st in
  (u32 (va + va'), u32 (vb + vb'), u32 (vc + vc'), u32 (vd + vd'), u32 (ve + ve')).

Definition ref_iv : state := (0x67452301, 0xEFCDAB89, 0x98BADCFE, 0x10325476, 0xC3D2E1F0).

Definition to_list (st : state) : list Z :=
  let '(va, vb, vc, vd, ve) := st in [va; vb; vc; vd; ve].

(** SHA-1 of a message. *)
Definition sha1 (msg : bytes) : bytes :=
  to_list (digest ref_compress (fun n => be_bytes 8 (u64 n)) ref_iv msg) ≫= be_bytes 4.

(** ** The unrolled loop follows the standard *)

(** The registers in the places they have in call [t]. *)
Definition places (t : nat) : reg * reg * reg * reg * reg :=
  nth (t mod 5) [(a, b, c, d, e); (e, a, b, c, d); (d, e, a, b, c); (c, d, e, a, b); (b, c, d, e, a)] (a, b, c, d, e).

Definition call_of (t : nat) : call :=
  let '(v, w, x, y, z) := places t in
  C (if t <? 16 then R0 else if t <? 20 then R1 else if t <? 40 then R2 else if t <? 60 then R3 else R4)%nat
    v w x y z (t mod 16).

Lemma sha1_calls_spec : calls = map call_of (seq 0 80).
Proof. reflexivity. Qed.

(** What the registers mean before call [t]. *)
Definition view (t : nat) (r : regs) : state :=
  let '(v, w, x, y, z) := places t in (get r v, get r w, get r x, get r y, get r z).

(** Equality of bit operations, bit by bit. *)
Lemma choice_spec x y z : Z.lxor (Z.land x (Z.lxor y z)) z = Ch x y z.
Proof.
  apply Z.bits_inj'. intros n Hn. unfold Ch.
  rewrite ?Z.lxor_spec, ?Z.land_spec, ?Z.lxor_spec, ?Z.lnot_spec by done.
  by destruct (Z.testbit x n), (Z.testbit y n), (Z.testbit z n).
Qed.

Lemma majority_spec x y z : Z.lor (Z.land (Z.lor x y) z) (Z.land x y) = Maj x y z.
Proof.
  apply Z.bits_inj'. intros n Hn. unfold Maj.
  rewrite ?Z.lxor_spec, ?Z.lor_spec, ?Z.land_spec, ?Z.lor_spec by done.
  by destruct (Z.testbit x n), (Z.testbit y n), (Z.testbit z n).
Qed.

Lemma mod5_cases t : exists k, (k < 5)%nat /\ (t mod 5 = k)%nat /\ (S t mod 5 = (k + 1) mod 5)%nat.
Proof.
  exists (t mod 5)%nat. split; [apply Nat.mod_upper_bound; lia|]. split; [done|].
  replace (S t) with (t + 1)%nat by lia. by rewrite Nat.Div0.add_mod_idemp_l.
Qed.

(** The function and the constant of a macro. *)
Definition macro_f (m : macro) (wv x y : Z) : Z :=
  match m with
  | R0 | R1 => Z.lxor (Z.land wv (Z.lxor x y)) y
  | R2 | R4 => Z.lxor (Z.lxor wv x) y
  | R3 => Z.lor (Z.land (Z.lor wv x) y) (Z.land wv x)
  end.
Definition macro_K (m : macro) : Z :=
  match m with R0 | R1 => 0x5a827999 | R2 => 0x6ed9eba1 | R3 => 0x8f1bbcdc | R4 => 0xca62c1d6 end.

Lemma macro_spec t wv x y : macro_f (op (call_of t)) wv x y = ref_f t wv x y /\ macro_K (op (call_of t)) = ref_K t.
Proof.
  unfold call_of, ref_f, ref_K. destruct (places t) as [[[[v w] x'] y'] z]. cbn [op].
  destruct (t <? 16)%nat eqn:E1, (t <? 20)%nat eqn:E2; try (apply Nat.ltb_lt in E1; apply Nat.ltb_ge in E2; lia);
    [split; [apply choice_spec|vm_compute; reflexivity]..|].
  destruct (t <? 40)%nat; [split; [done|vm_compute; reflexivity]|].
  destruct (t <? 60)%nat; split; try done; try apply majority_spec; vm_compute; reflexivity.
Qed.

(** One call, seen through the places. *)
Lemma exec_spec t block r :
  exists r', exec (block, r) (call_of t) =
      ((if t <? 16 then block else <[(t mod 16) := blk block (t mod 16)]> block)%nat, r') /\
    view (S t) r' = ref_step (view t r) t
      (word (if t <? 16 then block else <[(t mod 16) := blk block (t mod 16)]> block)%nat (t mod 16)).
Proof.
  set (block' := (if t <? 16 then block else _)%nat).
  assert (exec (block, r) (call_of t) =
    let k := call_of t in
    let r1 := set r (z k) (u32 (get r (z k) + (macro_f (op k) (get r (w k)) (get r (X k)) (get r (Y k)) +
      word block' (t mod 16) + macro_K (op k) + rol (get r (V k)) 5))) in
    (block', set r1 (w k) (rol (get r1 (w k)) 30))) as ->.
  { unfold exec. replace (match op (call_of t) with R0 => block | _ => _ end) with block';
      [replace (I (call_of t)) with (t mod 16)%nat; [done|]|]; unfold call_of;
      destruct (places t) as [[[[v w'] x'] y'] z']; [done|]. cbn [op I]. unfold block'.
    destruct (t <? 16)%nat eqn:E1; [done|]. destruct (t <? 20)%nat, (t <? 40)%nat, (t <? 60)%nat; done. }
  cbv zeta. eexists. split; [reflexivity|].
  destruct (macro_spec t (get r (w (call_of t))) (get r (X (call_of t))) (get r (Y (call_of t)))) as [-> ->].
  destruct (mod5_cases t) as (k & Hk & Ek & Ek'). unfold view, call_of, places. rewrite Ek, Ek'.
  set (x := word block' _). clearbody x.
  destruct k as [|[|[|[|[|]]]]]; try lia; cbn; unfold ref_step;
    do 4 (apply (f_equal2 pair); [|reflexivity]); f_equal; lia.
Qed.

Lemma ref_steps_app xs : forall t ys st,
  ref_steps t (xs ++ ys) st = ref_steps (t + length xs) ys (ref_steps t xs st).
Proof.
  induction xs as [|x xs IH]; intros t ys st; cbn; [by rewrite Nat.add_0_r|].
  rewrite IH. f_equal. lia.
Qed.

(** The first sixteen calls use the block. *)
Lemma first_calls block n : forall t r, (t + n <= 16)%nat -> length block = 16%nat ->
  exists r', fold_left exec (map call_of (seq t n)) (block, r) = (block, r') /\
    view (t + n) r' = ref_steps t (take n (drop t block)) (view t r).
Proof.
  induction n as [|n IH]; intros t r Ht Hb; [exists r; by rewrite Nat.add_0_r|].
  cbn [seq map fold_left]. destruct (exec_spec t block r) as (r1 & -> & Hv).
  rewrite (proj2 (Nat.ltb_lt t 16)) in * by lia.
  destruct (IH (S t) r1) as (r2 & E & Hv2); [lia|done|]. exists r2. split; [done|].
  replace (t + S n)%nat with (S t + n)%nat by lia. rewrite Hv2, Hv.
  assert (drop t block = word block t :: drop (S t) block) as ->.
  { apply drop_S. unfold word. rewrite nth_lookup. destruct (block !! t) eqn:E'; [done|].
    apply lookup_ge_None in E'. lia. }
  cbn [take ref_steps]. by rewrite Nat.mod_small by lia.
Qed.

(** The other calls keep the last sixteen words of the schedule in the block,
    turned. *)
Lemma turn_block block i : (i < 16)%nat -> length block = 16%nat ->
  exists x, blk block i = x /\
    x = rol (Z.lxor (Z.lxor (Z.lxor (nth 13 (rotate i block) 0) (nth 8 (rotate i block) 0))
          (nth 2 (rotate i block) 0)) (nth 0 (rotate i block) 0)) 1 /\
    rotate ((i + 1) mod 16) (<[i := x]> block) = tail (rotate i block) ++ [x] /\
    word (<[i := x]> block) i = x.
Proof.
  intros Hi Hb. eexists. split; [reflexivity|].
  do 16 (destruct block as [|? block]; [done|]). destruct block; [|done].
  do 16 (destruct i as [|i]; [split; [reflexivity|split; reflexivity]|]). lia.
Qed.

Lemma other_calls n : forall t block r, (16 <= t)%nat -> length block = 16%nat ->
  exists block' r', fold_left exec (map call_of (seq t n)) (block, r) = (block', r') /\
    length block' = 16%nat /\
    view (t + n) r' = ref_steps t (ref_expand n (rotate (t mod 16) block)) (view t r).
Proof.
  induction n as [|n IH]; intros t block r Ht Hb; [exists block, r; by rewrite Nat.add_0_r|].
  cbn [seq map fold_left]. destruct (exec_spec t block r) as (r1 & -> & Hv).
  rewrite (proj2 (Nat.ltb_ge t 16)) in * by lia.
  destruct (turn_block block (t mod 16)) as (x & Ex & Ex2 & Hrot & Hword); [apply Nat.mod_upper_bound; lia|done|].
  rewrite Ex in *. rewrite Hword in Hv.
  destruct (IH (S t) (<[(t mod 16)%nat := x]> block) r1) as (block2 & r2 & E & Hl2 & Hv2);
    [lia|by rewrite length_insert|].
  exists block2, r2. split; [done|]. split; [done|].
  replace (t + S n)%nat with (S t + n)%nat by lia. rewrite Hv2, Hv.
  replace (S t mod 16)%nat with ((t mod 16 + 1) mod 16)%nat
    by (rewrite Nat.Div0.add_mod_idemp_l; f_equal; lia).
  rewrite Hrot. cbn [ref_expand ref_steps]. by rewrite <- Ex2.
Qed.

Lemma sha1_transform_spec ctx block st : length block = 64%nat -> bytes_ok block -> h ctx = to_list st ->
  h (fst (transform ctx (buffer_to_block block))) = to_list (ref_compress st block) /\
  total (fst (transform ctx (buffer_to_block block))) = total ctx.
Proof.
  intros Hl Hb Hh. unfold transform, ref_compress, buffer_to_block.
  rewrite (words_ext _ be32) by (auto using lor_be32).
  set (ws := words be32 block). assert (length ws = 16%nat) as Hws by (by apply words_length).
  destruct st as [[[[va vb] vc] vd] ve]. rewrite Hh. cbn [to_list nth].
  rewrite sha1_calls_spec. change 80%nat with (16 + 64)%nat. rewrite seq_app, map_app, fold_left_app.
  destruct (first_calls ws 16 0 (Regs va vb vc vd ve)) as (r1 & -> & Hv1); [lia|done|].
  destruct (other_calls 64 (0 + 16) ws r1) as (block2 & r2 & -> & _ & Hv2); [lia|done|].
  rewrite ref_steps_app, Hws. cbn [Nat.add] in *.
  change (16 mod 16)%nat with 0%nat in Hv2. rewrite drop_0, take_ge in Hv1 by lia.
  change (view 0 (Regs va vb vc vd ve)) with (va, vb, vc, vd, ve) in Hv1. rewrite Hv1 in Hv2.
  assert (rotate 0 ws = ws) as Hr by (unfold rotate; by rewrite Nat.Div0.mod_0_l, app_nil_r).
  rewrite Hr in Hv2.
  change (view 80 r2) with (ra r2, rb r2, rc r2, rd r2, re r2) in Hv2. rewrite <- Hv2.
  split; reflexivity.
Qed.

(** ** The loop over the stream *)

Section Loop.
Context {S : Type} `{MemInput S}.

Lemma sha1_encode_loop_spec bs : forall fuel (s : S) ctx buffer st tail,
  Forall (fun b => length b = 64%nat /\ bytes_ok b) bs -> (length tail < 64)%nat ->
  in_valid s -> in_content s = concat bs ++ tail -> length buffer = 64%nat -> (length bs < fuel)%nat ->
  h ctx = to_list st ->
  exists ctx' r s', encode_loop fuel s ctx buffer = Val (zlen tail, ctx', tail ++ r, s') /\
    h ctx' = to_list (fold_left ref_compress bs st) /\
    total ctx' = fold_left (fun a b => u64 (a + 64)) bs (total ctx) /\
    length (tail ++ r) = 64%nat /\ in_content s' = [].
Proof.
  induction bs as [|b bs IH]; intros [|fuel] s ctx buffer st tail Hbs Ht Hv Hc Hbuf Hf Hh; cbn [length] in Hf; try lia;
    cbn [encode_loop concat app] in *.
  - destruct (read_tail s tail buffer Hv Hc Ht Hbuf) as (s' & r & -> & Hc' & Em & Hl).
    rewrite bind_Val, Em, bind_Val. rewrite (proj2 (Z.eqb_neq _ 64)) by (unfold zlen; lia).
    exists ctx, r, s'. auto.
  - inversion Hbs as [|? ? [Hb Hok] Hbs']; subst. rewrite <- app_assoc in Hc.
    destruct (read_block s b _ buffer Hv Hc Hb Hbuf) as (s' & -> & Hv' & Hc' & Em).
    rewrite bind_Val, Em, bind_Val. change (64 =? 64) with true. cbv iota.
    destruct (sha1_transform_spec (add_total ctx 64) b st Hb Hok Hh) as [Ht1 Ht2].
    destruct (transform (add_total ctx 64) (buffer_to_block b)) as [ctx1 blk1]. cbn [fst] in *.
    destruct (IH fuel s' ctx1 b (ref_compress st b) tail) as (ctx' & r & s2 & E & ? & Ht3 & ?);
      auto; [lia|]. exists ctx', r, s2. split; [done|]. split; [done|]. split; [|done].
    rewrite Ht3, Ht2. done.
Qed.

Lemma sha1_encode_tail_spec ctx tail r st n : length (tail ++ r) = 64%nat -> (length tail < 64)%nat ->
  bytes_ok tail -> h ctx = to_list st -> u64 (total ctx + zlen tail) = u64 n ->
  exists ctx', encode_tail (zlen tail) ctx (tail ++ r) = Val ctx' /\
    h ctx' = to_list (fold_left ref_compress (last_blocks (fun n => be_bytes 8 (u64 n)) n tail) st).
Proof.
  intros Hbuf Ht Hok Hh Htot. unfold encode_tail, last_blocks.
  set (ctx0 := add_total ctx (zlen tail)).
  assert (be_bytes 8 (u64 (total ctx0 * 8)) = be_bytes 8 (u64 (8 * n))) as ->.
  { f_equal. unfold ctx0, add_total. cbn [total]. rewrite Htot. unfold wrap.
    rewrite Zmult_mod_idemp_l. f_equal. lia. }
  set (len8 := be_bytes 8 (u64 (8 * n))).
  assert (zlen len8 = 8 /\ bytes_ok len8) as [Hl8 Hok8]
    by (split; [unfold zlen, len8; by rewrite be_bytes_length|apply be_bytes_ok]).
  assert (h ctx0 = to_list st) as Hh0 by done. clearbody ctx0 len8.
  assert (bytes_ok (tail ++ [128])) as Hok1 by (apply bytes_ok_app; [done|by constructor]).
  assert (Hzeros : forall k, bytes_ok (repeat 0 k)) by (intros k; by apply repeat_Forall).
  assert (zlen (tail ++ [128]) = zlen tail + 1) as Hz by (rewrite zlen_app; done).
  assert (zlen tail + zlen r = 64) as Hr by (rewrite <- zlen_app; unfold zlen; lia).
  assert (0 <= zlen tail < 64) as Htz by (unfold zlen; lia).
  rewrite memcpy_at, bind_Val by (change (zlen [128]) with 1; lia). change (zlen [128]) with 1.
  destruct (zlen tail >? 55) eqn:E.
  - rewrite (proj2 (Z.leb_gt _ 55)) by lia. rewrite (proj2 (Z.ltb_ge (63 - zlen tail) 0)) by lia.
    rewrite memcpy_at, bind_Val by (rewrite ?zlen_repeat, ?zlen_zdrop; lia).
    rewrite zdrop_ge, app_nil_r by (rewrite zlen_repeat, zlen_zdrop; lia).
    replace (Z.to_nat (63 - zlen tail)) with (63 - length tail)%nat by (unfold zlen; lia).
    rewrite <- app_assoc. set (b1 := tail ++ _).
    assert (zlen b1 = 64) as Hb1
      by (unfold b1; rewrite !zlen_app, zlen_repeat; change (zlen [128]) with 1; unfold zlen in *; lia).
    assert (bytes_ok b1) as Hokb by (unfold b1; rewrite app_assoc; auto using bytes_ok_app).
    destruct (sha1_transform_spec ctx0 b1 st ltac:(unfold zlen in Hb1; lia) Hokb Hh0) as [Ht1 _].
    destruct (transform ctx0 (buffer_to_block b1)) as [ctx1 w1]. cbn [fst] in Ht1.
    change (56 <? 0) with false. cbv iota.
    rewrite (memcpy_at [] b1), bind_Val by (rewrite ?zlen_repeat; done || lia). cbn [app].
    rewrite memcpy_at, bind_Val by (rewrite ?zlen_repeat, ?zlen_zdrop; lia).
    rewrite zdrop_ge, app_nil_r by (rewrite ?zlen_repeat, ?zlen_zdrop; lia).
    change (Z.to_nat 56) with 56%nat. set (b2 := repeat 0 56 ++ len8).
    assert (length b2 = 64%nat) as Hb2 by (unfold b2; rewrite length_app, repeat_length; unfold zlen in Hl8; lia).
    destruct (sha1_transform_spec ctx1 b2 (ref_compress st b1) Hb2) as [Ht2 _];
      [unfold b2; auto using bytes_ok_app|exact Ht1|].
    eexists. split; [reflexivity|]. exact Ht2.
  - rewrite (proj2 (Z.leb_le _ 55)) by lia. rewrite (proj2 (Z.ltb_ge (55 - zlen tail) 0)) by lia.
    rewrite memcpy_at, bind_Val by (rewrite ?zlen_repeat, ?zlen_zdrop; lia).
    rewrite memcpy_at, bind_Val by (unfold zdrop, zlen in *; rewrite ?length_app, ?length_drop, ?repeat_length; cbn [length]; lia).
    rewrite zdrop_ge, app_nil_r by (unfold zdrop, zlen in *; rewrite ?length_drop, ?repeat_length; lia).
    replace (Z.to_nat (55 - zlen tail)) with (55 - length tail)%nat by (unfold zlen; lia).
    rewrite <- !app_assoc. set (b1 := tail ++ _).
    assert (zlen b1 = 64) as Hb1
      by (unfold b1; rewrite !zlen_app, zlen_repeat, Hl8; change (zlen [128]) with 1; unfold zlen in *; lia).
    destruct (sha1_transform_spec ctx0 b1 st) as [Ht2 _]; [unfold zlen in Hb1; lia| |done|].
    { unfold b1. rewrite app_assoc. auto using bytes_ok_app. }
    eexists. split; [reflexivity|]. exact Ht2.
Qed.
End Loop.

(** A digest has twenty bytes. *)
Lemma sha1_zlen msg : zlen (sha1 msg) = 20.
Proof.
  unfold sha1, zlen. rewrite be_words_length. set (p := digest _ _ _ _).
  by destruct p as [[[[va vb] vc] vd] ve].
Qed.

Lemma sha1_bytes msg : bytes_ok (sha1 msg).
Proof.
  unfold sha1. generalize (to_list (digest ref_compress (fun n => be_bytes 8 (u64 n)) ref_iv msg)).
  intros l. induction l as [|w l IH]; [constructor|]. rewrite bind_cons. apply bytes_ok_app; [apply be_bytes_ok|apply IH].
Qed.

(** The digest of a whole stream; the streams are valid afterwards. *)
Lemma sha1_encode_spec {S D : Type} `{MemInput S} `{MemOutput D} (input : S) (output : D) (fuel : nat) :
  bytes_ok (in_content input) -> in_valid input -> out_valid output -> out_room output 20 ->
  (length (in_content input) < fuel)%nat ->
  exists input' output', encode fuel input output = Val (input', output') /\
    in_content input' = [] /\ out_valid output' /\ out_content output' = out_content output ++ sha1 (in_content input).
Proof.
  intros Hok Hv Ho Hr Hf. destruct (cut_blocks (in_content input)) as (bs & tail & Ec & Hbs & Ht).
  rewrite Ec in Hok, Hf. apply Forall_app in Hok as [Hokb Hokt].
  assert (Forall (fun b => length b = 64%nat /\ bytes_ok b) bs) as Hbs2.
  { clear - Hbs Hokb. induction Hbs as [|b bs Hb _ IH]; [done|]. cbn in Hokb.
    apply Forall_app in Hokb as [? ?]. constructor; auto. }
  pose proof (concat_length bs Hbs) as Hlen. rewrite length_app in Hf.
  unfold encode. destruct (sha1_encode_loop_spec bs fuel input new_context (malloc 64) ref_iv tail)
    as (ctx & r & s' & -> & Hh & Htot & Hbuf & Hc'); auto; [lia|].
  rewrite bind_Val.
  destruct (sha1_encode_tail_spec ctx tail r (fold_left ref_compress bs ref_iv)
    (zlen (in_content input))) as (ctx' & -> & Hh'); auto.
  { rewrite Htot, total_blocks by done. unfold wrap. rewrite Zplus_mod_idemp_l. f_equal.
    rewrite Ec, zlen_app. cbn [total new_context]. unfold zlen. lia. }
  rewrite bind_Val. rewrite Ec, <- (last_blocks_spec ref_compress (fun n => be_bytes 8 (u64 n))) in Hh'
    by (done || intros; apply be_bytes_length).
  assert (h ctx' ≫= be_bytes 4 = sha1 (in_content input)) as ->
    by (unfold sha1; by rewrite Hh', Ec).
  destruct (write_step output (sha1 (in_content input)) 0 Ho ltac:(lia)) as (o' & -> & Ho' & Hd & _).
  { by rewrite sha1_zlen. }
  rewrite bind_Val. exists s', o'. auto.
Qed.

(** ** Properties *)

(** C24: on every stream, the incremental code with its sixteen-word circular
    schedule and unrolled registers writes exactly the SHA-1 digest of the bytes
    the stream delivers, as FIPS 180-4 defines it. *)
Theorem sha1_correct {S D : Type} `{MemInput S} `{MemOutput D} (input : S) (output : D) (fuel : nat) :
  bytes_ok (in_content input) -> in_valid input -> out_valid output -> out_room output 20 ->
  (length (in_content input) < fuel)%nat ->
  exists input' output', encode fuel input output = Val (input', output') /\
    in_content input' = [] /\ out_content output' = out_content output ++ sha1 (in_content input).
Proof.
  intros Hok Hv Ho Hr Hf. destruct (sha1_encode_spec input output fuel Hok Hv Ho Hr Hf)
    as (input' & output' & E & Hc & _ & Hd). exists input', output'. auto.
Qed.

Lemma sha1_correct_witness :
  hex false (sha1 (str "abc")) = str "a9993e364706816aba3e25717850c26c9cd0d89d" /\
  exists input output,
    encode 4 (InputBufferWrapper.create (str "abc") 3) (OutputBufferWrapper.fresh 20) = Val (input, output) /\
    in_content input = [] /\
    out_content output = out_content (OutputBufferWrapper.fresh 20) ++
      sha1 (in_content (InputBufferWrapper.create (str "abc") 3)).
Proof.
  split; [vm_compute; reflexivity|].
  apply (sha1_correct (InputBufferWrapper.create (str "abc") 3) (OutputBufferWrapper.fresh 20) 4).
  - apply bytes_ok_bool. reflexivity.
  - zeval.
  - apply OutputBufferWrapper.fresh_valid. lia.
  - vm_compute. discriminate.
  - vm_compute. lia.
Defined.

End SHA1.
