(* ===== verification/Websocket.v ===== *)
(** * WebSocket handshake

    Models [sese/net/ws/WebSocketAuthenticator.cpp]: the key of a client and the answer of a
    server, made of the SHA-1 digest and the Base64 encoder over blocks of memory.

    The blocks are written by clients of the output interface. To know what they leave
    untouched, the interface's laws are used on an instance whose invariant also says what lies
    behind the wrapper's capacity ([framed]): whatever a client of the laws does, it is kept. *)

From S2P Require Import Prelude Streams InputBufferWrapper OutputBufferWrapper Words SHA1 Base64.

Module WebsocketAuthenticator.

(*@ sese/net/ws/WebSocketAuthenticator.cpp 27-27 WebsocketAuthenticator::append_string *)
Definition append_string : bytes := str "258EAFA5-E914-47DA-95CA-C5AB0DC85B11".

(** [key[i + base] = *(p + i)] for the eight bytes of [r] in memory. *)
Fixpoint key_loop (base : Z) (i : Z) (p : bytes) (key : bytes) : outcome bytes :=
  match p with
  | [] => Val key
  | b :: p => key ← Base64.store key (i + base) b; key_loop base (i + 1) p key
  end.

(*@ sese/net/ws/WebSocketAuthenticator.cpp 29-40 WebsocketAuthenticator::generateKey *)
(** [dev0] and [dev1] are the two numbers of the random device, which are 32 bits wide. *)
Definition generateKey (dev0 dev1 : Z) (key : bytes) : outcome bytes :=
  let r := u64 (u32 dev0) in
  key ← key_loop 0 0 (le_bytes 8 r) key;
  let r := u64 (u32 dev1) in
  key_loop 8 0 (le_bytes 8 r) key.

(** A digest, or an encoding, from the first [n] bytes of a block into the first [m] of another. *)
Definition sha1_block (src : bytes) (n : Z) (dst : bytes) (m : Z) : outcome bytes :=
  '(_, out) ← SHA1.encode (S (Z.to_nat n)) (InputBufferWrapper.create src n) (OutputBufferWrapper.create dst m);
  Val (OutputBufferWrapper.buffer out).

Definition base64_block (src : bytes) (n : Z) (dst : bytes) (m : Z) : outcome bytes :=
  '(_, out) ← Base64.encode (S (Z.to_nat n)) (InputBufferWrapper.create src n) (OutputBufferWrapper.create dst m);
  Val (OutputBufferWrapper.buffer out).

(*@ sese/net/ws/WebSocketAuthenticator.cpp 42-75 WebsocketAuthenticator::generateKeyPair *)
Definition generateKeyPair (dev0 dev1 : Z) : outcome (bytes * bytes) :=
  buffer ← generateKey dev0 dev1 (malloc 16);
  key_string ← Base64.store (malloc 25) 24 0;
  key_string ← base64_block buffer 16 key_string 24;
  data ← memread key_string 0 24;
  buffer0 ← memcpy (malloc 60) 0 data;
  buffer0 ← memcpy buffer0 24 append_string;
  buffer1 ← sha1_block buffer0 60 (malloc 20) 20;
  result_string ← Base64.store (malloc 29) 28 0;
  result_string ← base64_block buffer1 20 result_string 28;
  Val (key_string, result_string).

(** [0 == strcmp(a, b)]; a block without a terminator is read past its end. *)
Fixpoint strcmp_eq (a b : bytes) : outcome bool :=
  match a, b with
  | x :: a, y :: b => if negb (x =? y) then Val false else if x =? 0 then Val true else strcmp_eq a b
  | _, _ => Undef
  end.

(*@ sese/net/ws/WebSocketAuthenticator.cpp 77-98 WebsocketAuthenticator::verify *)
Definition verify (key result : bytes) : outcome bool :=
  data ← memread key 0 24;
  buffer0 ← memcpy (malloc 60) 0 data;
  buffer0 ← memcpy buffer0 24 append_string;
  buffer1 ← sha1_block buffer0 60 (malloc 20) 20;
  buffer2 ← Base64.store (malloc 29) 28 0;
  buffer2 ← base64_block buffer1 20 buffer2 28;
  strcmp_eq result buffer2.

(*@ sese/net/ws/WebSocketAuthenticator.cpp 100-120 WebsocketAuthenticator::toResult *)
Definition toResult (key : bytes) : outcome bytes :=
  data ← memread key 0 24;
  buffer0 ← memcpy (malloc 60) 0 data;
  buffer0 ← memcpy buffer0 24 append_string;
  buffer1 ← sha1_block buffer0 60 (malloc 20) 20;
  res ← Base64.store (malloc 29) 28 0;
  base64_block buffer1 20 res 28.

(** ** The specification (RFC 6455, section 4.2.2) *)

Definition accept (key : bytes) : bytes :=
  base64 (SHA1.sha1 (key ++ str "258EAFA5-E914-47DA-95CA-C5AB0DC85B11")).

(** ** What lies behind a wrapper *)

Lemma write_behind (s : OutputBufferWrapper.t) data : OutputBufferWrapper.valid s ->
  OutputBufferWrapper.len s + zlen data <= OutputBufferWrapper.cap s ->
  exists s', OutputBufferWrapper.write s data = Val (zlen data, s') /\ OutputBufferWrapper.valid s' /\
    OutputBufferWrapper.content s' = OutputBufferWrapper.content s ++ data /\
    OutputBufferWrapper.cap s' = OutputBufferWrapper.cap s /\
    OutputBufferWrapper.len s' = OutputBufferWrapper.len s + zlen data /\
    zdrop (OutputBufferWrapper.cap s) (OutputBufferWrapper.buffer s') =
      zdrop (OutputBufferWrapper.cap s) (OutputBufferWrapper.buffer s).
Proof.
  intros Hv Hr. destruct (OutputBufferWrapper.output_write_spec s data Hv) as (s' & E & Hv' & Hc & Hcap & Hlen).
  rewrite Z.min_l in E, Hlen by lia. rewrite ztake_ge in Hc by lia. exists s'.
  do 5 (split; [done|]). destruct Hv as (H1 & H2 & H3). pose proof (zlen_nonneg data).
  revert E. unfold OutputBufferWrapper.write. rewrite wrap_small by (unfold is_u; lia).
  destruct (_ =? 0) eqn:E0; zbool; [by intros [= _ <-]|].
  destruct (_ >=? _) eqn:E1; [|lia]. rewrite memcpy_Val, bind_Val by lia.
  intros [= <-]. cbn.
  rewrite zdrop_app_ge by (rewrite zlen_ztake; lia). rewrite zlen_ztake by lia.
  rewrite zdrop_app_ge by lia. rewrite zdrop_zdrop by lia. f_equal. lia.
Qed.

(** The wrappers of capacity [c] over a block that goes on with [tail]. *)
Definition framed (c : Z) (tail : bytes) : MemOutput OutputBufferWrapper.t.
Proof.
  refine {| out_valid s := OutputBufferWrapper.valid s /\ OutputBufferWrapper.cap s = c /\
              zdrop c (OutputBufferWrapper.buffer s) = tail;
            out_content := OutputBufferWrapper.content;
            out_room s n := OutputBufferWrapper.len s + n <= OutputBufferWrapper.cap s |}.
  - intros s data (Hv & Hc & Ht) Hr.
    destruct (write_behind s data Hv Hr) as (s' & E & Hv' & Hd & Hcap & Hlen & Hz).
    exists s'. split; [exact E|]. rewrite Hcap, Hlen. rewrite Hc in *. rewrite Hz. repeat split; try done; try apply Hv'.
    intros n Hn. lia.
  - intros. lia.
Defined.

(** A client of the laws that fills a wrapper leaves the block with what it wrote in front of
    what was there. *)
Lemma framed_full c tail (s : OutputBufferWrapper.t) data :
  @out_valid _ _ (framed c tail) s -> OutputBufferWrapper.content s = data -> zlen data = c ->
  OutputBufferWrapper.buffer s = data ++ tail.
Proof.
  intros ((H1 & H2 & H3) & Hc & Ht) Hd Hl. unfold OutputBufferWrapper.content in Hd.
  assert (zlen (ztake (OutputBufferWrapper.len s) (OutputBufferWrapper.buffer s)) =
    OutputBufferWrapper.len s) as Hz by (apply zlen_ztake; lia).
  rewrite <- Hd, <- Ht, <- (ztake_zdrop c (OutputBufferWrapper.buffer s)) at 1. do 2 f_equal. rewrite Hd in Hz. lia.
Qed.

Lemma framed_start c data tail : zlen data = c -> c < 2 ^ 64 ->
  @out_valid _ _ (framed c tail) (OutputBufferWrapper.create (data ++ tail) c) /\
  OutputBufferWrapper.content (OutputBufferWrapper.create (data ++ tail) c) = [].
Proof.
  intros Hl Hc. pose proof (zlen_nonneg data). pose proof (zlen_nonneg tail).
  unfold OutputBufferWrapper.create, OutputBufferWrapper.content. split; [|apply ztake_0; cbn; lia].
  split; [unfold OutputBufferWrapper.valid; cbn; rewrite zlen_app; lia|]. split; [done|]. cbn.
  rewrite zdrop_app_ge by lia. apply zdrop_0. lia.
Qed.

(** ** Blocks *)

Lemma block_input src n : 0 <= n <= zlen src -> n < 2 ^ 64 ->
  InputBufferWrapper.valid (InputBufferWrapper.create src n) /\
  InputBufferWrapper.content (InputBufferWrapper.create src n) = ztake n src.
Proof.
  intros Hn H. unfold InputBufferWrapper.valid, InputBufferWrapper.content, InputBufferWrapper.create, slice. cbn.
  rewrite zdrop_0, Z.sub_0_r by lia. repeat split; lia.
Qed.

Lemma sha1_block_spec src n old tail : 0 <= n <= zlen src -> n < 2 ^ 64 -> bytes_ok (ztake n src) -> zlen old = 20 ->
  sha1_block src n (old ++ tail) 20 = Val (SHA1.sha1 (ztake n src) ++ tail).
Proof.
  intros Hn H64 Hok Hold. destruct (block_input src n Hn H64) as [Hv Hc].
  destruct (framed_start 20 old tail Hold ltac:(lia)) as [Ho Hd].
  destruct (@SHA1.sha1_encode_spec _ _ _ _ _ (framed 20 tail) (InputBufferWrapper.create src n)
    (OutputBufferWrapper.create (old ++ tail) 20) (S (Z.to_nat n))) as (i & o & E & _ & Ho' & Hd').
  - cbn. by rewrite Hc.
  - exact Hv.
  - exact Ho.
  - cbn. lia.
  - cbn. rewrite Hc. unfold ztake. rewrite length_take. lia.
  - unfold sha1_block. rewrite E, bind_Val. f_equal. cbn in Hd'. rewrite Hc, Hd in Hd'.
    by apply (framed_full 20 tail o (SHA1.sha1 (ztake n src)) Ho' Hd'), SHA1.sha1_zlen.
Qed.

Lemma base64_block_spec src n old tail m : 0 <= n <= zlen src -> n < 2 ^ 64 -> bytes_ok (ztake n src) ->
  zlen old = m -> zlen (base64 (ztake n src)) = m -> m < 2 ^ 64 ->
  base64_block src n (old ++ tail) m = Val (base64 (ztake n src) ++ tail).
Proof.
  intros Hn H64 Hok Hold Hm Hm64. destruct (block_input src n Hn H64) as [Hv Hc].
  destruct (framed_start m old tail Hold Hm64) as [Ho Hd].
  destruct (@base64_encode_loop_spec _ _ _ _ _ (framed m tail) (ztake n src) (S (Z.to_nat n)) (InputBufferWrapper.create src n)
    (OutputBufferWrapper.create (old ++ tail) m) [0; 0; 0] [0; 0; 0; 0]) as (i & o & E & _ & _ & Ho' & Hd'); try done.
  - cbn. lia.
  - unfold ztake. rewrite length_take. lia.
  - unfold base64_block, Base64.encode. rewrite E, bind_Val. f_equal. cbn in Hd'. rewrite Hd in Hd'.
    by apply (framed_full m tail o (base64 (ztake n src)) Ho' Hd').
Qed.

(** The length of an encoding, and its characters. *)
Lemma base64_zlen : forall l, zlen (base64 l) = 4 * ((zlen l + 2) / 3).
Proof.
  induction l as [|a|a b|a b c l IH] using group_ind; try done.
  change (base64 (a :: b :: c :: l)) with (quad (a * 65536 + b * 256 + c) ++ base64 l).
  rewrite zlen_app, IH, !zlen_cons. change (zlen (quad (a * 65536 + b * 256 + c))) with 4.
  replace (1 + (1 + (1 + zlen l)) + 2) with (zlen l + 2 + 1 * 3) by lia. rewrite Z.div_add by lia. lia.
Qed.

Lemma digit_printable i : 0 <= i < 64 -> 0 < digit i < 256.
Proof.
  intros Hi. apply (forallb_seqZ (fun i => (0 <? digit i) && (digit i <? 256)) 64) in Hi; [|vm_compute; reflexivity].
  zbool. lia.
Qed.

Lemma quad_printable n : 0 <= n < 2 ^ 24 -> Forall (fun c => 0 < c < 256) (quad n).
Proof.
  intros Hn. pose proof (sextets_range n Hn) as Hs. unfold quad. unfold sextets in Hs.
  apply Forall_map. eapply Forall_impl; [exact Hs|]. intros i. apply digit_printable.
Qed.

Lemma base64_printable l : bytes_ok l -> Forall (fun c => 0 < c < 256) (base64 l).
Proof.
  induction l as [|a|a b|a b c l IH] using group_ind; intros Hb; unfold bytes_ok in Hb;
    rewrite ?Forall_cons in Hb; unfold is_u in Hb; [constructor| | |].
  - apply Forall_app. split; [apply Forall_take, quad_printable; lia|repeat constructor].
  - apply Forall_app. split; [apply Forall_take, quad_printable; lia|repeat constructor].
  - change (base64 (a :: b :: c :: l)) with (quad (a * 65536 + b * 256 + c) ++ base64 l).
    apply Forall_app. split; [apply quad_printable; lia|]. apply IH. apply Hb.
Qed.

(** A string compared with a terminated one. *)
Lemma strcmp_eq_spec a : forall b ra rb, Forall (fun c => c <> 0) a -> Forall (fun c => c <> 0) b ->
  strcmp_eq (a ++ 0 :: ra) (b ++ 0 :: rb) = Val (bool_decide (a = b)).
Proof.
  induction a as [|x a IH]; intros [|y b] ra rb Ha Hb;
    try apply Forall_cons in Ha as [Hx Ha]; try apply Forall_cons in Hb as [Hy Hb]; cbn [strcmp_eq app].
  - done.
  - rewrite (proj2 (Z.eqb_neq 0 y)) by congruence. done.
  - rewrite (proj2 (Z.eqb_neq x 0)) by done. done.
  - destruct (x =? y) eqn:E; cbn; zbool.
    + subst y. rewrite (proj2 (Z.eqb_neq x 0)) by done. rewrite IH by done. f_equal.
      apply bool_decide_ext. naive_solver.
    + rewrite bool_decide_eq_false_2; [done|congruence].
Qed.

(** The answer that the three functions compute from a key. *)
Definition answer (key : bytes) : outcome bytes :=
  data ← memread key 0 24;
  buffer0 ← memcpy (malloc 60) 0 data;
  buffer0 ← memcpy buffer0 24 append_string;
  buffer1 ← sha1_block buffer0 60 (malloc 20) 20;
  res ← Base64.store (malloc 29) 28 0;
  base64_block buffer1 20 res 28.

Lemma answer_spec key rest : zlen key = 24 -> bytes_ok key ->
  answer (key ++ rest) = Val (accept key ++ [0]).
Proof.
  intros Hk Hok. pose proof (zlen_nonneg rest). unfold answer.
  rewrite memread_Val, bind_Val by (rewrite ?zlen_app; lia).
  unfold slice. rewrite zdrop_0, ztake_app_le, ztake_ge by lia.
  rewrite memcpy_Val, bind_Val by (change (zlen (malloc 60)) with 60; lia).
  rewrite ztake_0 by lia. cbn [app].
  assert (zlen (zdrop (0 + zlen key) (malloc 60)) = 36) as Hz
    by (rewrite zlen_zdrop; change (zlen (malloc 60)) with 60; lia).
  rewrite memcpy_Val, bind_Val by (rewrite ?zlen_app; change (zlen append_string) with 36; lia).
  change (zlen append_string) with 36.
  rewrite ztake_app_le, ztake_ge by lia.
  rewrite (zdrop_ge (24 + 36)) by (rewrite zlen_app; lia).
  rewrite app_nil_r.
  assert (zlen (key ++ append_string) = 60) as Hl by (rewrite zlen_app, Hk; done).
  rewrite <- (app_nil_r (malloc 20)). rewrite sha1_block_spec; [|lia|lia| |done].
  2:{ rewrite ztake_ge by lia. apply bytes_ok_app; [done|]. by apply bytes_ok_bool. }
  rewrite bind_Val, app_nil_r, ztake_ge by lia.
  change (Base64.store (malloc 29) 28 0) with (Val (malloc 28 ++ [0])). rewrite bind_Val.
  assert (ztake 20 (SHA1.sha1 (key ++ append_string)) = SHA1.sha1 (key ++ append_string)) as Ht
    by (apply ztake_ge; rewrite SHA1.sha1_zlen; lia).
  rewrite base64_block_spec; [by rewrite Ht|rewrite SHA1.sha1_zlen; lia|lia| |done| |lia]; rewrite Ht.
  - apply SHA1.sha1_bytes.
  - by rewrite base64_zlen, SHA1.sha1_zlen.
Qed.

Lemma verify_answer key result : verify key result = (buffer2 ← answer key; strcmp_eq result buffer2).
Proof.
  unfold verify, answer.
  destruct (memread _ _ _); [|done]. rewrite !bind_Val. destruct (memcpy _ _ _); [|done]. rewrite !bind_Val.
  destruct (memcpy _ _ _); [|done]. rewrite !bind_Val. destruct (sha1_block _ _ _ _); [|done]. by rewrite !bind_Val.
Qed.

(** The key of a client: the sixteen bytes of the two numbers. *)
Definition nonce (dev0 dev1 : Z) : bytes := le_bytes 8 (u32 dev0) ++ le_bytes 8 (u32 dev1).

Lemma nonce_ok dev0 dev1 : zlen (nonce dev0 dev1) = 16 /\ bytes_ok (nonce dev0 dev1).
Proof. split; [done|]. apply bytes_ok_app; apply le_bytes_ok. Qed.

Lemma generateKey_spec dev0 dev1 : generateKey dev0 dev1 (malloc 16) = Val (nonce dev0 dev1).
Proof.
  unfold generateKey, nonce. rewrite !(wrap_small 64 (u32 _)).
  2,3: pose proof (wrap_range 32 dev0 ltac:(lia)); pose proof (wrap_range 32 dev1 ltac:(lia)); unfold is_u in *; lia.
  cbn [le_bytes]. reflexivity.
Qed.

(** Each of the two numbers leaves four bytes of the key zero. *)
Lemma nonce_zeros dev0 dev1 : slice 4 4 (nonce dev0 dev1) = [0; 0; 0; 0] /\ slice 12 4 (nonce dev0 dev1) = [0; 0; 0; 0].
Proof.
  assert (forall d, u32 d / 256 / 256 / 256 / 256 = 0) as Hz.
  { intros d. pose proof (wrap_range 32 d ltac:(lia)). unfold is_u in *. rewrite !Z.div_div by lia. apply Z.div_small. lia. }
  unfold nonce. cbn [le_bytes]. rewrite !Hz. split; reflexivity.
Qed.

(** The key that is generated, and its answer. *)
Lemma generateKeyPair_answer dev0 dev1 :
  generateKeyPair dev0 dev1 =
    (result ← answer (base64 (nonce dev0 dev1) ++ [0]); Val (base64 (nonce dev0 dev1) ++ [0], result)).
Proof.
  destruct (nonce_ok dev0 dev1) as [Hl Hb].
  assert (zlen (base64 (nonce dev0 dev1)) = 24) as Hk by (by rewrite base64_zlen, Hl).
  assert (ztake 16 (nonce dev0 dev1) = nonce dev0 dev1) as Ht by (apply ztake_ge; lia).
  assert (base64_block (nonce dev0 dev1) 16 (malloc 24 ++ [0]) 24 = Val (base64 (nonce dev0 dev1) ++ [0])) as Hs.
  { rewrite base64_block_spec; rewrite ?Ht; try lia; [done|exact Hb|reflexivity]. }
  unfold generateKeyPair. rewrite generateKey_spec, bind_Val.
  change (Base64.store (malloc 25) 24 0) with (Val (malloc 24 ++ [0])). rewrite bind_Val, Hs, bind_Val.
  generalize (base64 (nonce dev0 dev1) ++ [0]). intros key. unfold answer.
  destruct (memread _ _ _); [|done]. rewrite !bind_Val. destruct (memcpy _ _ _); [|done]. rewrite !bind_Val.
  destruct (memcpy _ _ _); [|done]. rewrite !bind_Val. destruct (sha1_block _ _ _ _); [|done]. rewrite !bind_Val.
  destruct (Base64.store _ _ _); [|done]. by rewrite !bind_Val.
Qed.

Lemma generateKeyPair_spec dev0 dev1 :
  zlen (base64 (nonce dev0 dev1)) = 24 -> bytes_ok (base64 (nonce dev0 dev1)) ->
  generateKeyPair dev0 dev1 = Val (base64 (nonce dev0 dev1) ++ [0], accept (base64 (nonce dev0 dev1)) ++ [0]).
Proof. intros Hk Hb. by rewrite generateKeyPair_answer, answer_spec, bind_Val. Qed.

(** ** Properties *)

(** C26: for every key of 24 characters the answer is the one of RFC 6455 (the Base64 encoding of
    the SHA-1 digest of the key and the protocol's identifier), as a terminated string; [verify]
    accepts exactly that string; and a generated pair is a key that encodes the random bytes with
    its answer, so that it is accepted. Nothing is written outside the blocks. *)
Theorem websocket_handshake (key rest result tail : bytes) (dev0 dev1 : Z) :
  zlen key = 24 -> bytes_ok key -> Forall (fun c => c <> 0) result ->
  toResult (key ++ rest) = Val (accept key ++ [0]) /\
  verify (key ++ rest) (result ++ 0 :: tail) = Val (bool_decide (result = accept key)) /\
  exists k, generateKeyPair dev0 dev1 = Val (k ++ [0], accept k ++ [0]) /\
    zlen k = 24 /\ k = base64 (nonce dev0 dev1) /\ verify (k ++ [0]) (accept k ++ [0]) = Val true.
Proof.
  intros Hk Hok Hr. assert (Hac : forall k, Forall (fun c => c <> 0) (accept k)).
  { intros k. eapply Forall_impl; [apply base64_printable, SHA1.sha1_bytes|]. intros c Hc. cbn in *. lia. }
  assert (Hver : forall k rest result tail, zlen k = 24 -> bytes_ok k -> Forall (fun c => c <> 0) result ->
    verify (k ++ rest) (result ++ 0 :: tail) = Val (bool_decide (result = accept k))).
  { intros k r res t Hl Hb Hn. rewrite verify_answer, answer_spec, bind_Val by done. by apply strcmp_eq_spec. }
  split; [by apply answer_spec|]. split; [by apply Hver|].
  destruct (nonce_ok dev0 dev1) as [Hl Hb]. set (k := base64 (nonce dev0 dev1)).
  assert (zlen k = 24) as Hlk by (unfold k; by rewrite base64_zlen, Hl).
  assert (bytes_ok k) as Hbk by (eapply Forall_impl; [apply base64_printable, Hb|]; intros c Hc; unfold is_u; cbn in *; lia).
  exists k. split; [|split; [done|split; [done|]]].
  - unfold k in *. by apply generateKeyPair_spec.
  - rewrite (Hver k [0] (accept k) []) by done. by rewrite bool_decide_eq_true_2.
Qed.

Lemma websocket_handshake_witness :
  accept (str "dGhlIHNhbXBsZSBub25jZQ==") = str "s3pPLMBiTxaQ9kYGzzhZRbK+xOo=" /\
  verify (str "dGhlIHNhbXBsZSBub25jZQ==" ++ [0]) (str "s3pPLMBiTxaQ9kYGzzhZRbK+xOo=" ++ [0]) =
    Val (bool_decide (str "s3pPLMBiTxaQ9kYGzzhZRbK+xOo=" = accept (str "dGhlIHNhbXBsZSBub25jZQ=="))).
Proof.
  split; [vm_compute; reflexivity|].
  apply (websocket_handshake (str "dGhlIHNhbXBsZSBub25jZQ==") [0] (str "s3pPLMBiTxaQ9kYGzzhZRbK+xOo=") [] 1 2).
  - reflexivity.
  - apply bytes_ok_bool. reflexivity.
  - repeat constructor; discriminate.
Defined.

End WebsocketAuthenticator.
