(* ===== verification/MD5.v ===== *)
(** * MD5

    Models [sese/util/MD5Util.cpp] and its equivalence with RFC 1321. *)

From S2P Require Import Prelude Streams InputBufferWrapper OutputBufferWrapper Words.

Module MD5.

(*@ sese/util/MD5Util.h 67-90 MD5Util *)
(** The shift amounts. *)
Inductive amount := S11 | S12 | S13 | S14 | S21 | S22 | S23 | S24 | S31 | S32 | S33 | S34 | S41 | S42 | S43 | S44.

(*@ sese/util/MD5Util.h 72-90 MD5Util::S11 *)
Definition shift (s : amount) : Z :=
  match s with
  | S11 => 7 | S12 => 12 | S13 => 17 | S14 => 22
  | S21 => 5 | S22 => 9 | S23 => 14 | S24 => 20
  | S31 => 4 | S32 => 11 | S33 => 16 | S34 => 23
  | S41 => 6 | S42 => 10 | S43 => 15 | S44 => 21
  end.

(*@ sese/util/MD5Util.h 92-92 MD5Util::PADDING *)
Definition PADDING : bytes := 128 :: repeat 0 63.

(** The working variables and the functions of the unrolled rounds. *)
Inductive reg := a | b | c | d.
Inductive round := FF | GG | HH | II.

(** [v = f(v, w, y, z, x[k], s, t)]. *)
Record call := K { fn : round; rv : reg; rw : reg; ry : reg; rz : reg; xi : nat; sh : amount; ti : Z }.

Record regs := Regs { ra : Z; rb : Z; rc : Z; rd : Z }.

Definition get (r : regs) (x : reg) : Z :=
  match x with a => ra r | b => rb r | c => rc r | d => rd r end.
Definition set (r : regs) (x : reg) (v : Z) : regs :=
  match x with
  | a => Regs v (rb r) (rc r) (rd r)
  | b => Regs (ra r) v (rc r) (rd r)
  | c => Regs (ra r) (rb r) v (rd r)
  | d => Regs (ra r) (rb r) (rc r) v
  end.

(*@ sese/util/MD5Util.cpp 177-191 MD5Util::F *)
(** [F], [G], [H] and [I]. *)
Definition auxiliary (f : round) (x y z : Z) : Z :=
  match f with
  | FF => Z.lor (Z.land x y) (Z.land (not32 x) z)
  | GG => Z.lor (Z.land x z) (Z.land y (not32 z))
  | HH => Z.lxor (Z.lxor x y) z
  | II => Z.lxor y (Z.lor x (not32 z))
  end.

(*@ sese/util/MD5Util.cpp 195-221 MD5Util::FF *)
(** [FF], [GG], [HH] and [II]. *)
Definition apply_round (f : round) (va vb vc vd x s t : Z) : Z :=
  let va := u32 (va + (auxiliary f vb vc vd + x + t)) in
  let va := rol va s in
  u32 (va + vb).

Definition exec (x : list Z) (r : regs) (k : call) : regs :=
  set r (rv k) (apply_round (fn k) (get r (rv k)) (get r (rw k)) (get r (ry k)) (get r (rz k))
    (nth (xi k) x 0) (shift (sh k)) (ti k)).

(*@ sese/util/MD5Util.cpp 102-169 MD5Util::transform *)
Definition calls : list call :=
  [K FF a b c d 0%nat S11 0xd76aa478; K FF d a b c 1%nat S12 0xe8c7b756;
   K FF c d a b 2%nat S13 0x242070db; K FF b c d a 3%nat S14 0xc1bdceee;
   K FF a b c d 4%nat S11 0xf57c0faf; K FF d a b c 5%nat S12 0x4787c62a;
   K FF c d a b 6%nat S13 0xa8304613; K FF b c d a 7%nat S14 0xfd469501;
   K FF a b c d 8%nat S11 0x698098d8; K FF d a b c 9%nat S12 0x8b44f7af;
   K FF c d a b 10%nat S13 0xffff5bb1; K FF b c d a 11%nat S14 0x895cd7be;
   K FF a b c d 12%nat S11 0x6b901122; K FF d a b c 13%nat S12 0xfd987193;
   K FF c d a b 14%nat S13 0xa679438e; K FF b c d a 15%nat S14 0x49b40821;
   K GG a b c d 1%nat S21 0xf61e2562; K GG d a b c 6%nat S22 0xc040b340;
   K GG c d a b 11%nat S23 0x265e5a51; K GG b c d a 0%nat S24 0xe9b6c7aa;
   K GG a b c d 5%nat S21 0xd62f105d; K GG d a b c 10%nat S22 0x2441453;
   K GG c d a b 15%nat S23 0xd8a1e681; K GG b c d a 4%nat S24 0xe7d3fbc8;
   K GG a b c d 9%nat S21 0x21e1cde6; K GG d a b c 14%nat S22 0xc33707d6;
   K GG c d a b 3%nat S23 0xf4d50d87; K GG b c d a 8%nat S24 0x455a14ed;
   K GG a b c d 13%nat S21 0xa9e3e905; K GG d a b c 2%nat S22 0xfcefa3f8;
   K GG c d a b 7%nat S23 0x676f02d9; K GG b c d a 12%nat S24 0x8d2a4c8a;
   K HH a b c d 5%nat S31 0xfffa3942; K HH d a b c 8%nat S32 0x8771f681;
   K HH c d a b 11%nat S33 0x6d9d6122; K HH b c d a 14%nat S34 0xfde5380c;
   K HH a b c d 1%nat S31 0xa4beea44; K HH d a b c 4%nat S32 0x4bdecfa9;
   K HH c d a b 7%nat S33 0xf6bb4b60; K HH b c d a 10%nat S34 0xbebfbc70;
   K HH a b c d 13%nat S31 0x289b7ec6; K HH d a b c 0%nat S32 0xeaa127fa;
   K HH c d a b 3%nat S33 0xd4ef3085; K HH b c d a 6%nat S34 0x4881d05;
   K HH a b c d 9%nat S31 0xd9d4d039; K HH d a b c 12%nat S32 0xe6db99e5;
   K HH c d a b 15%nat S33 0x1fa27cf8; K HH b c d a 2%nat S34 0xc4ac5665;
   K II a b c d 0%nat S41 0xf4292244; K II d a b c 7%nat S42 0x432aff97;
   K II c d a b 14%nat S43 0xab9423a7; K II b c d a 5%nat S44 0xfc93a039;
   K II a b c d 12%nat S41 0x655b59c3; K II d a b c 3%nat S42 0x8f0ccc92;
   K II c d a b 10%nat S43 0xffeff47d; K II b c d a 1%nat S44 0x85845dd1;
   K II a b c d 8%nat S41 0x6fa87e4f; K II d a b c 15%nat S42 0xfe2ce6e0;
   K II c d a b 6%nat S43 0xa3014314; K II b c d a 13%nat S44 0x4e0811a1;
   K II a b c d 4%nat S41 0xf7537e82; K II d a b c 11%nat S42 0xbd3af235;
   K II c d a b 2%nat S43 0x2ad7d2bb; K II b c d a 9%nat S44 0xeb86d391].

(*@ sese/util/MD5Util.cpp 94-175 MD5Util::transform *)
(** The buffer is read as little-endian words. *)
Definition transform (result : list Z) (buffer : bytes) : list Z :=
  let r := fold_left (exec (words le32 buffer)) calls
    (Regs (nth 0 result 0) (nth 1 result 0) (nth 2 result 0) (nth 3 result 0)) in
  [u32 (nth 0 result 0 + ra r); u32 (nth 1 result 0 + rb r);
   u32 (nth 2 result 0 + rc r); u32 (nth 3 result 0 + rd r)].

Section Encode.
Context {S D : Type} `{InputStream S} `{OutputStream D}.

(*@ sese/util/MD5Util.cpp 42-66 MD5Util::encode *)
(** The rounds that end the loop: the buffer for the last [transform]. *)
Definition finish (len : Z) (result : list Z) (buffer : bytes) (length : Z) :
    outcome (list Z * bytes) :=
  if len <? 56 then
    let length := u64 (length + len) in
    buffer ← memcpy buffer len (ztake (64 - len - 8) PADDING);
    buffer ← memcpy buffer 56 (le_bytes 8 (u64 (length * 8)));
    Val (result, buffer)
  else
    let length := u64 (length + len) in
    buffer ← memcpy buffer len (ztake (64 - len) PADDING);
    let result := transform result buffer in
    buffer ← memcpy buffer 0 (repeat 0 56);
    buffer ← memcpy buffer 56 (le_bytes 8 (u64 (length * 8)));
    Val (result, buffer).

(*@ sese/util/MD5Util.cpp 38-69 MD5Util::encode *)
(** The branches for [len == 0] and for [len < 56] do the same. *)
Fixpoint encode_loop (fuel : nat) (input : S) (result : list Z) (buffer : bytes) (length : Z) :
    outcome (list Z * S) :=
  match fuel with
  | O => Undef
  | Datatypes.S fuel =>
      '(len, data, input) ← stream_read input 64;
      buffer ← memcpy buffer 0 data;
      if len =? 64 then
        encode_loop fuel input (transform result buffer) buffer (u64 (length + len))
      else
        '(result, buffer) ← finish len result buffer length;
        Val (transform result buffer, input)
  end.

(*@ sese/util/MD5Util.cpp 32-72 MD5Util::encode *)
Definition encode (fuel : nat) (input : S) (output : D) : outcome (S * D) :=
  '(result, input) ← encode_loop fuel input
    [0x67452301; 0xefcdab89; 0x98badcfe; 0x10325476] (malloc 64) 0;
  '(_, output) ← stream_write output (result ≫= le_bytes 4);
  Val (input, output).
End Encode.

(** ** RFC 1321 *)

(** The integer part of [2 ^ 32] times the absolute sine of [i] radians, from
    the power series with 256 fractional bits and 250 terms. *)
Fixpoint sine_series (n : nat) (k term x2 : Z) : Z :=
  match n with
  | O => 0
  | Datatypes.S n => term + sine_series n (k + 1) (- (term * x2) / ((2 * k + 2) * (2 * k + 3))) x2
  end.
Definition sine (i : Z) : Z := Z.abs (sine_series 110 0 (i * 2 ^ 160) (i * i)) / 2 ^ 128.

(** The functions [F], [G], [H] and [I] of the four rounds. *)
Definition ref_aux (n : nat) (x y z : Z) : Z :=
  match n with
  | 0%nat => Z.lor (Z.land x y) (Z.land (not32 x) z)
  | 1%nat => Z.lor (Z.land x z) (Z.land y (not32 z))
  | 2%nat => Z.lxor (Z.lxor x y) z
  | _ => Z.lxor y (Z.lor x (not32 z))
  end.
Definition ref_f (t : nat) : Z -> Z -> Z -> Z := ref_aux (t / 16).

Definition ref_shift (t : nat) : Z :=
  nth (t mod 4) (nth (t / 16) [[7; 12; 17; 22]; [5; 9; 14; 20]; [4; 11; 16; 23]; [6; 10; 15; 21]] []) 0.

Definition ref_index (t : nat) : nat :=
  (nth (t / 16) [t; 5 * t + 1; 3 * t + 5; 7 * t] 0 mod 16)%nat.

Definition state : Type := Z * Z * Z * Z.

Definition ref_step (x : list Z) (st : state) (t : nat) : state :=
  let '(va, vb, vc, vd) := st in
  (vd, u32 (vb + rol (u32 (va + ref_f t vb vc vd + nth (ref_index t) x 0 + sine (Z.of_nat t + 1))) (ref_shift t)), vb, vc).

Definition ref_compress (st : state) (block : bytes) : state :=
  let '(va, vb, vc, vd) := st in
  let '(va', vb', vc', vd') := fold_left (ref_step (words le32 block)) (seq 0 64) st in
  (u32 (va + va'), u32 (vb + vb'), u32 (vc + vc'), u32 (vd + vd')).

Definition ref_iv : state := (0x67452301, 0xefcdab89, 0x98badcfe, 0x10325476).

Definition to_list (st : state) : list Z := let '(va, vb, vc, vd) := st in [va; vb; vc; vd].

Definition md5 (msg : bytes) : bytes :=
  to_list (digest ref_compress (fun n => le_bytes 8 (u64 n)) ref_iv msg) ≫= le_bytes 4.

(** ** The unrolled rounds follow the document *)

Definition places (t : nat) : reg * reg * reg * reg :=
  nth (t mod 4) [(a, b, c, d); (d, a, b, c); (c, d, a, b); (b, c, d, a)] (a, b, c, d).

Definition view (t : nat) (r : regs) : state :=
  let '(v, w, y, z) := places t in (get r v, get r w, get r y, get r z).

Lemma auxiliary_spec n : auxiliary (nth n [FF; GG; HH; II] II) = ref_aux n.
Proof. destruct n as [|[|[|[|n]]]]; try done. by destruct n. Qed.

(** Call [t] has the places, the function, the word, the shift and the
    constant of step [t]. *)
Lemma md5_calls_spec t k : calls !! t = Some k ->
  places t = (rv k, rw k, ry k, rz k) /\ auxiliary (fn k) = ref_f t /\ xi k = ref_index t /\
  shift (sh k) = ref_shift t /\ ti k = sine (Z.of_nat t + 1).
Proof.
  intros E.
  assert (map (fun k => (rv k, rw k, ry k, rz k, fn k, xi k, shift (sh k), ti k)) calls =
    map (fun t => (places t, nth (t / 16) [FF; GG; HH; II] II, ref_index t, ref_shift t, sine (Z.of_nat t + 1)))
      (seq 0 64)) as Hall by (vm_compute; reflexivity).
  apply (f_equal (fun l => l !! t)) in Hall. rewrite !list_lookup_fmap, E in Hall.
  rewrite lookup_seq_lt in Hall by (change 64%nat with (length calls); by apply lookup_lt_is_Some; eauto).
  cbn [fmap option_fmap option_map Nat.add] in Hall.
  injection Hall as Hp Hf Hx Hs Hk. rewrite Hf. repeat split; try done. apply (auxiliary_spec (t / 16)).
Qed.

Lemma view_step x t k r : calls !! t = Some k ->
  view (Datatypes.S t) (exec x r k) = ref_step x (view t r) t.
Proof.
  intros (Hp & Hf & Hx & Hs & Ht)%md5_calls_spec. unfold exec, apply_round. rewrite Hf, Hx, Hs, Ht.
  assert (exists i, (i < 4)%nat /\ (t mod 4 = i)%nat /\ (Datatypes.S t mod 4 = (i + 1) mod 4)%nat)
    as (i & Hi & Ei & Ei').
  { exists (t mod 4)%nat. split; [apply Nat.mod_upper_bound; lia|]. split; [done|].
    replace (Datatypes.S t) with (t + 1)%nat by lia. by rewrite Nat.Div0.add_mod_idemp_l. }
  unfold view, places in *. rewrite Ei, Ei' in *.
  unfold ref_step. generalize (ref_f t) (nth (ref_index t) x 0) (ref_shift t) (sine (Z.of_nat t + 1)).
  intros f xt st kt. clear - Hp Hi.
  destruct i as [|[|[|[|]]]]; try lia; injection Hp as <- <- <- <-; cbn;
    apply (f_equal2 pair); try reflexivity; apply (f_equal2 pair); try reflexivity;
    apply (f_equal2 pair); try reflexivity; f_equal; rewrite Z.add_comm; do 3 f_equal; lia.
Qed.

Lemma fold_calls x n : forall t r, (t + n <= 64)%nat ->
  view (t + n) (fold_left (exec x) (take n (drop t calls)) r) = fold_left (ref_step x) (seq t n) (view t r).
Proof.
  induction n as [|n IH]; intros t r Ht; [by rewrite Nat.add_0_r|].
  assert (t < length calls)%nat as Hlt by (change (length calls) with 64%nat; lia).
  destruct (lookup_lt_is_Some_2 _ _ Hlt) as [k Ek]. rewrite (drop_S _ k) by done.
  cbn [take fold_left seq]. rewrite <- (view_step x t k r Ek), <- IH by lia. f_equal. lia.
Qed.

Lemma md5_transform_spec st block : transform (to_list st) block = to_list (ref_compress st block).
Proof.
  destruct st as [[[va vb] vc] vd]. unfold transform, ref_compress. cbn [to_list nth].
  set (x := words le32 block). set (r := Regs va vb vc vd).
  pose proof (fold_calls x 64 0 r ltac:(lia)) as Hf. rewrite drop_0, take_ge in Hf by (vm_compute; lia).
  change (view 0 r) with (va, vb, vc, vd) in Hf. rewrite <- Hf.
  generalize (fold_left (exec x) calls r). intros r2.
  change (view (0 + 64) r2) with (ra r2, rb r2, rc r2, rd r2). reflexivity.
Qed.

(** ** The loop over the stream *)

Section Loop.
Context {S : Type} `{MemInput S}.

Lemma finish_spec tail r st n len0 : length (tail ++ r) = 64%nat -> (length tail < 64)%nat ->
  u64 (len0 + zlen tail) = u64 n ->
  exists result b, finish (zlen tail) (to_list st) (tail ++ r) len0 = Val (result, b) /\
    transform result b =
      to_list (fold_left ref_compress (last_blocks (fun n => le_bytes 8 (u64 n)) n tail) st).
Proof.
  intros Hbuf Ht Htot. unfold finish, last_blocks. rewrite Htot.
  assert (le_bytes 8 (u64 (u64 n * 8)) = le_bytes 8 (u64 (8 * n))) as ->
    by (f_equal; unfold wrap; rewrite Zmult_mod_idemp_l; f_equal; lia).
  set (len8 := le_bytes 8 _). assert (zlen len8 = 8) as Hl8 by (unfold len8, zlen; by rewrite le_bytes_length).
  clearbody len8.
  assert (Hpad : forall k, 1 <= k <= 64 -> ztake k PADDING = 128 :: repeat 0 (Z.to_nat (k - 1)) /\
    zlen (ztake k PADDING) = k).
  { intros k Hk. split; [|apply zlen_ztake; change (zlen PADDING) with 64; lia].
    unfold ztake, PADDING. replace (Z.to_nat k) with (Datatypes.S (Z.to_nat (k - 1))) by lia.
    cbn [take]. f_equal. rewrite take_repeat. f_equal. lia. }
  assert (zlen tail + zlen r = 64) as Hr by (rewrite <- zlen_app; unfold zlen; lia).
  assert (0 <= zlen tail < 64) as Htz by (unfold zlen; lia).
  destruct (zlen tail <? 56) eqn:E; zbool.
  - rewrite (proj2 (Z.leb_le _ 55)) by lia. destruct (Hpad (64 - zlen tail - 8)) as [Ep Hz]; [lia|].
    rewrite memcpy_at, bind_Val by lia. rewrite Hz.
    rewrite memcpy_at, bind_Val by (rewrite ?zlen_app, ?Hz, ?zlen_zdrop; lia).
    rewrite zdrop_ge, app_nil_r by (rewrite zlen_zdrop; lia). eexists _, _. split; [reflexivity|].
    rewrite md5_transform_spec. cbn [fold_left].
    assert (((tail ++ ztake (64 - zlen tail - 8) PADDING) ++ len8) =
      tail ++ [128] ++ repeat 0 (55 - length tail) ++ len8) as ->; [|reflexivity].
    rewrite Ep, <- !app_assoc. cbn [app]. do 4 f_equal. unfold zlen. lia.
  - rewrite (proj2 (Z.leb_gt _ 55)) by lia. destruct (Hpad (64 - zlen tail)) as [Ep Hz]; [lia|].
    rewrite memcpy_at, bind_Val by lia. rewrite zdrop_ge, app_nil_r by lia.
    assert (zlen (tail ++ ztake (64 - zlen tail) PADDING) = 64) as Hb1 by (rewrite zlen_app, Hz; lia).
    set (b1 := tail ++ ztake (64 - zlen tail) PADDING) in *.
    rewrite (memcpy_at [] b1), bind_Val by (rewrite ?zlen_repeat; done || lia). cbn [app].
    rewrite memcpy_at, bind_Val by (rewrite ?zlen_repeat, ?zlen_zdrop; lia).
    rewrite zdrop_ge, app_nil_r by (rewrite ?zlen_repeat, ?zlen_zdrop; lia).
    eexists _, _. split; [reflexivity|]. rewrite !md5_transform_spec. cbn [fold_left].
    assert (b1 = tail ++ [128] ++ repeat 0 (63 - length tail)) as ->; [|reflexivity].
    unfold b1. rewrite Ep. cbn [app]. do 3 f_equal. unfold zlen. lia.
Qed.

Lemma md5_encode_loop_spec bs : forall fuel (s : S) buffer st len0 tail n,
  Forall (fun b => length b = 64%nat) bs -> (length tail < 64)%nat ->
  in_valid s -> in_content s = concat bs ++ tail -> length buffer = 64%nat -> (length bs < fuel)%nat ->
  u64 (fold_left (fun a b => u64 (a + 64)) bs len0 + zlen tail) = u64 n ->
  exists s', encode_loop fuel s (to_list st) buffer len0 =
      Val (to_list (fold_left ref_compress (last_blocks (fun n => le_bytes 8 (u64 n)) n tail)
             (fold_left ref_compress bs st)), s') /\ in_content s' = [].
Proof.
  induction bs as [|b bs IH]; intros [|fuel] s buffer st len0 tail n Hbs Ht Hv Hc Hbuf Hf Hn;
    cbn [length] in Hf; try lia; cbn [encode_loop concat app] in *.
  - destruct (read_tail s tail buffer Hv Hc Ht Hbuf) as (s' & r & -> & Hc' & Em & Hl).
    rewrite bind_Val, Em, bind_Val.
    rewrite (proj2 (Z.eqb_neq _ 64)) by (unfold zlen; lia).
    destruct (finish_spec tail r st n len0 Hl Ht Hn) as (result & b & -> & Hb). rewrite bind_Val, Hb.
    cbn [fold_left]. eauto.
  - inversion Hbs as [|? ? Hb Hbs']; subst. rewrite <- app_assoc in Hc.
    destruct (read_block s b _ buffer Hv Hc Hb Hbuf) as (s' & -> & Hv' & Hc' & Em).
    rewrite bind_Val, Em, bind_Val.
    change (64 =? 64) with true. cbv iota. rewrite md5_transform_spec. apply IH; auto; lia.
Qed.
End Loop.

(** ** Properties *)

(** C31: on every stream, the code writes exactly the MD5 digest of the bytes
    the stream delivers, as RFC 1321 defines it: the constants of the unrolled
    rounds are the sines, and the padding is right for every length. *)
Theorem md5_correct {S D : Type} `{MemInput S} `{MemOutput D} (input : S) (output : D) (fuel : nat) :
  in_valid input -> out_valid output -> out_room output 16 -> (length (in_content input) < fuel)%nat ->
  exists input' output', encode fuel input output = Val (input', output') /\
    in_content input' = [] /\ out_content output' = out_content output ++ md5 (in_content input).
Proof.
  intros Hv Ho Hr Hf. destruct (cut_blocks (in_content input)) as (bs & tail & Ec & Hbs & Ht).
  pose proof (concat_length bs Hbs) as Hlen. rewrite Ec, length_app in Hf.
  unfold encode. destruct (md5_encode_loop_spec bs fuel input (malloc 64) ref_iv 0 tail (zlen (in_content input)))
    as (s' & E & Hc'); auto; [lia| |].
  { rewrite total_blocks by done. unfold wrap. rewrite Zplus_mod_idemp_l. f_equal.
    rewrite Ec, zlen_app. unfold zlen. lia. }
  change [0x67452301; 0xefcdab89; 0x98badcfe; 0x10325476] with (to_list ref_iv). rewrite E, bind_Val.
  rewrite Ec, <- (last_blocks_spec ref_compress (fun n => le_bytes 8 (u64 n)))
    by (done || intros; apply le_bytes_length). rewrite <- Ec. fold (md5 (in_content input)).
  destruct (write_step output (md5 (in_content input)) 0 Ho ltac:(lia)) as (o' & -> & _ & Hd & _).
  { assert (zlen (md5 (in_content input)) = 16) as ->; [|done]. unfold md5.
    unfold zlen. rewrite le_words_length. set (p := digest _ _ _ _). by destruct p as [[[va vb] vc] vd]. }
  rewrite bind_Val. exists s', o'. auto.
Qed.

Lemma md5_correct_witness :
  hex false (md5 (str "abc")) = str "900150983cd24fb0d6963f7d28e17f72" /\
  exists input output,
    encode 4 (InputBufferWrapper.create (str "abc") 3) (OutputBufferWrapper.fresh 20) = Val (input, output) /\
    in_content input = [] /\
    out_content output = out_content (OutputBufferWrapper.fresh 20) ++
      md5 (in_content (InputBufferWrapper.create (str "abc") 3)).
Proof.
  split; [vm_compute; reflexivity|].
  apply (md5_correct (InputBufferWrapper.create (str "abc") 3) (OutputBufferWrapper.fresh 20) 4).
  - zeval.
  - apply OutputBufferWrapper.fresh_valid. lia.
  - vm_compute. discriminate.
  - vm_compute. lia.
Defined.

End MD5.
