(* ===== verification/SHA256.v ===== *)
(** * SHA-256

    Models [sese/util/SHA256Util.cpp], whose 32-bit words are four bytes, and its
    equivalence with FIPS 180-4, on the message lengths for which it holds. *)

From S2P Require Import Prelude Streams InputBufferWrapper OutputBufferWrapper Words.

Module SHA256.

(** ** Words of four bytes *)

(*@ sese/util/SHA256Util.cpp 25-41 Bitset32 *)
Record Bitset32 := Bits { byte0 : byte; byte1 : byte; byte2 : byte; byte3 : byte }.

(*@ sese/util/SHA256Util.cpp 32-35 Bitset32::Bitset32 *)
Definition of_word (value : Z) : Bitset32 :=
  Bits (value / 2 ^ 24 mod 256) (value / 2 ^ 16 mod 256) (value / 2 ^ 8 mod 256) (value mod 256).

(*@ sese/util/SHA256Util.cpp 48-50 Bitset32::get *)
Definition word (x : Bitset32) : Z := be32 (byte0 x) (byte1 x) (byte2 x) (byte3 x).

(*@ sese/util/SHA256Util.cpp 52-60 Bitset32::rightShift3 *)
Definition rightShift3 (x : Bitset32) : Bitset32 :=
  Bits (Z.lor 0 (Z.shiftr (Z.land (byte0 x) 248) 3))
       (u8 (Z.lor (Z.shiftl (Z.land (byte0 x) 7) 5) (Z.shiftr (Z.land (byte1 x) 248) 3)))
       (u8 (Z.lor (Z.shiftl (Z.land (byte1 x) 7) 5) (Z.shiftr (Z.land (byte2 x) 248) 3)))
       (u8 (Z.lor (Z.shiftl (Z.land (byte2 x) 7) 5) (Z.shiftr (Z.land (byte3 x) 248) 3))).

(*@ sese/util/SHA256Util.cpp 61-69 Bitset32::rightShift10 *)
Definition rightShift10 (x : Bitset32) : Bitset32 :=
  Bits 0 (Z.lor 0 (Z.shiftr (Z.land (byte0 x) 252) 2))
       (u8 (Z.lor (Z.shiftl (Z.land (byte0 x) 3) 6) (Z.shiftr (Z.land (byte1 x) 252) 2)))
       (u8 (Z.lor (Z.shiftl (Z.land (byte1 x) 3) 6) (Z.shiftr (Z.land (byte2 x) 252) 2))).

(*@ sese/util/SHA256Util.cpp 74-74 Bitset32::rightRotate2 *)
(** The macro that joins the low bits of a byte with the high bits of the
    next; every rotation defines it with its masks and shifts. *)
Definition XX (m1 s m2 r : Z) (bt1 bt2 : byte) : byte :=
  u8 (Z.lor (Z.shiftl (Z.land bt1 m1) s) (Z.shiftr (Z.land bt2 m2) r)).

(*@ sese/util/SHA256Util.cpp 71-81 Bitset32::rightRotate2 *)
Definition rightRotate2 (x : Bitset32) : Bitset32 :=
  let XX := XX 3 6 252 2 in
  Bits (XX (byte3 x) (byte0 x)) (XX (byte0 x) (byte1 x)) (XX (byte1 x) (byte2 x)) (XX (byte2 x) (byte3 x)).

(*@ sese/util/SHA256Util.cpp 82-92 Bitset32::rightRotate6 *)
Definition rightRotate6 (x : Bitset32) : Bitset32 :=
  let XX := XX 63 2 192 6 in
  Bits (XX (byte3 x) (byte0 x)) (XX (byte0 x) (byte1 x)) (XX (byte1 x) (byte2 x)) (XX (byte2 x) (byte3 x)).

(*@ sese/util/SHA256Util.cpp 93-103 Bitset32::rightRotate7 *)
Definition rightRotate7 (x : Bitset32) : Bitset32 :=
  let XX := XX 127 1 128 7 in
  Bits (XX (byte3 x) (byte0 x)) (XX (byte0 x) (byte1 x)) (XX (byte1 x) (byte2 x)) (XX (byte2 x) (byte3 x)).

(*@ sese/util/SHA256Util.cpp 104-114 Bitset32::rightRotate11 *)
Definition rightRotate11 (x : Bitset32) : Bitset32 :=
  let XX := XX 7 5 248 3 in
  Bits (XX (byte2 x) (byte3 x)) (XX (byte3 x) (byte0 x)) (XX (byte0 x) (byte1 x)) (XX (byte1 x) (byte2 x)).

(*@ sese/util/SHA256Util.cpp 115-125 Bitset32::rightRotate13 *)
Definition rightRotate13 (x : Bitset32) : Bitset32 :=
  let XX := XX 31 3 224 5 in
  Bits (XX (byte2 x) (byte3 x)) (XX (byte3 x) (byte0 x)) (XX (byte0 x) (byte1 x)) (XX (byte1 x) (byte2 x)).

(*@ sese/util/SHA256Util.cpp 126-136 Bitset32::rightRotate17 *)
Definition rightRotate17 (x : Bitset32) : Bitset32 :=
  let XX := XX 1 7 254 1 in
  Bits (XX (byte1 x) (byte2 x)) (XX (byte2 x) (byte3 x)) (XX (byte3 x) (byte0 x)) (XX (byte0 x) (byte1 x)).

(*@ sese/util/SHA256Util.cpp 137-147 Bitset32::rightRotate18 *)
Definition rightRotate18 (x : Bitset32) : Bitset32 :=
  let XX := XX 3 6 252 2 in
  Bits (XX (byte1 x) (byte2 x)) (XX (byte2 x) (byte3 x)) (XX (byte3 x) (byte0 x)) (XX (byte0 x) (byte1 x)).

(*@ sese/util/SHA256Util.cpp 148-158 Bitset32::rightRotate19 *)
Definition rightRotate19 (x : Bitset32) : Bitset32 :=
  let XX := XX 7 5 248 3 in
  Bits (XX (byte1 x) (byte2 x)) (XX (byte2 x) (byte3 x)) (XX (byte3 x) (byte0 x)) (XX (byte0 x) (byte1 x)).

(*@ sese/util/SHA256Util.cpp 159-169 Bitset32::rightRotate22 *)
Definition rightRotate22 (x : Bitset32) : Bitset32 :=
  let XX := XX 63 2 192 6 in
  Bits (XX (byte1 x) (byte2 x)) (XX (byte2 x) (byte3 x)) (XX (byte3 x) (byte0 x)) (XX (byte0 x) (byte1 x)).

(*@ sese/util/SHA256Util.cpp 170-180 Bitset32::rightRotate25 *)
Definition rightRotate25 (x : Bitset32) : Bitset32 :=
  let XX := XX 1 7 254 1 in
  Bits (XX (byte0 x) (byte1 x)) (XX (byte1 x) (byte2 x)) (XX (byte2 x) (byte3 x)) (XX (byte3 x) (byte0 x)).

(*@ sese/util/SHA256Util.cpp 182-189 Bitset32::operator_and *)
Definition band (x y : Bitset32) : Bitset32 :=
  Bits (Z.land (byte0 x) (byte0 y)) (Z.land (byte1 x) (byte1 y))
       (Z.land (byte2 x) (byte2 y)) (Z.land (byte3 x) (byte3 y)).

(*@ sese/util/SHA256Util.cpp 190-197 Bitset32::operator_xor *)
Definition bxor (x y : Bitset32) : Bitset32 :=
  Bits (Z.lxor (byte0 x) (byte0 y)) (Z.lxor (byte1 x) (byte1 y))
       (Z.lxor (byte2 x) (byte2 y)) (Z.lxor (byte3 x) (byte3 y)).

(*@ sese/util/SHA256Util.cpp 198-205 Bitset32::operator_plus *)
Definition badd (x y : Bitset32) : Bitset32 := of_word (u32 (word x + word y)).

(*@ sese/util/SHA256Util.cpp 206-213 Bitset32::operator_not *)
Definition bnot (x : Bitset32) : Bitset32 :=
  let neg b := u8 (Z.lnot b) in Bits (neg (byte0 x)) (neg (byte1 x)) (neg (byte2 x)) (neg (byte3 x)).

(*@ sese/util/SHA256Util.cpp 230-230 SHA256Util::K *)
Definition K : list Z :=
  [0x428a2f98; 0x71374491; 0xb5c0fbcf; 0xe9b5dba5; 0x3956c25b; 0x59f111f1; 0x923f82a4; 0xab1c5ed5] ++
  [0xd807aa98; 0x12835b01; 0x243185be; 0x550c7dc3; 0x72be5d74; 0x80deb1fe; 0x9bdc06a7; 0xc19bf174] ++
  [0xe49b69c1; 0xefbe4786; 0x0fc19dc6; 0x240ca1cc; 0x2de92c6f; 0x4a7484aa; 0x5cb0a9dc; 0x76f988da] ++
  [0x983e5152; 0xa831c66d; 0xb00327c8; 0xbf597fc7; 0xc6e00bf3; 0xd5a79147; 0x06ca6351; 0x14292967] ++
  [0x27b70a85; 0x2e1b2138; 0x4d2c6dfc; 0x53380d13; 0x650a7354; 0x766a0abb; 0x81c2c92e; 0x92722c85] ++
  [0xa2bfe8a1; 0xa81a664b; 0xc24b8b70; 0xc76c51a3; 0xd192e819; 0xd6990624; 0xf40e3585; 0x106aa070] ++
  [0x19a4c116; 0x1e376c08; 0x2748774c; 0x34b0bcb5; 0x391c0cb3; 0x4ed8aa4a; 0x5b9cca4f; 0x682e6ff3] ++
  [0x748f82ee; 0x78a5636f; 0x84c87814; 0x8cc70208; 0x90befffa; 0xa4506ceb; 0xbef9a3f7; 0xc67178f2].

(** ** The digest *)

Definition zero32 : Bitset32 := Bits 0 0 0 0.

(*@ sese/util/SHA256Util.cpp 365-376 SHA256Util::structure *)
Definition structure (buffer : list Bitset32) (i : nat) : list Bitset32 :=
  let at_ k := nth (i + k) buffer zero32 in
  let p1 := at_ 1%nat in
  let p3 := at_ 14%nat in
  let tmp0 := bxor (bxor (rightRotate7 p1) (rightRotate18 p1)) (rightShift3 p1) in
  let tmp1 := bxor (bxor (rightRotate17 p3) (rightRotate19 p3)) (rightShift10 p3) in
  <[(i + 16)%nat := badd (badd (badd (at_ 0%nat) tmp0) (at_ 9%nat)) tmp1]> buffer.

(** The eight working values. *)
Record values := Values { va : Bitset32; vb : Bitset32; vc : Bitset32; vd : Bitset32;
                          ve : Bitset32; vf : Bitset32; vg : Bitset32; vh : Bitset32 }.

(*@ sese/util/SHA256Util.cpp 387-403 SHA256Util::encode *)
Definition encode_word (v : values) (buffer k : Bitset32) : values :=
  let '(Values a b c d e f g h) := v in
  let choice := bxor (band e f) (band (bnot e) g) in
  let majority := bxor (bxor (band a b) (band a c)) (band b c) in
  let sigma0 := bxor (bxor (rightRotate2 a) (rightRotate13 a)) (rightRotate22 a) in
  let sigma1 := bxor (bxor (rightRotate6 e) (rightRotate11 e)) (rightRotate25 e) in
  let tmp1 := badd (badd (badd (badd h sigma1) choice) k) buffer in
  let tmp2 := badd sigma0 majority in
  Values (badd tmp1 tmp2) a b c (badd d tmp1) e f g.

(*@ sese/util/SHA256Util.cpp 260-267 SHA256Util::encode *)
Definition add_values (hash value : values) : values :=
  Values (badd (va hash) (va value)) (badd (vb hash) (vb value)) (badd (vc hash) (vc value))
         (badd (vd hash) (vd value)) (badd (ve hash) (ve value)) (badd (vf hash) (vf value))
         (badd (vg hash) (vg value)) (badd (vh hash) (vh value)).

(** The buffer is one block of memory, seen as bytes and as words. *)
Fixpoint cells (mem : bytes) : list Bitset32 :=
  match mem with
  | b0 :: b1 :: b2 :: b3 :: mem => Bits b0 b1 b2 b3 :: cells mem
  | _ => []
  end.
Definition to_bytes (x : Bitset32) : bytes := [byte0 x; byte1 x; byte2 x; byte3 x].
Definition memory (buffer : list Bitset32) : bytes := buffer ≫= to_bytes.

(*@ sese/util/SHA256Util.cpp 253-267 SHA256Util::encode *)
(** The lines that process a block; they occur four times. *)
Definition process (hash : values) (mem : bytes) : values * bytes :=
  let buffer := fold_left structure (seq 0 48) (cells mem) in
  let value := fold_left (fun v p => encode_word v (fst p) (of_word (snd p))) (zip buffer K) hash in
  (add_values hash value, memory buffer).

(*@ sese/util/SHA256Util.cpp 247-247 SHA256Util::encode *)
Definition initial_hash : values :=
  Values (of_word 0x6a09e667) (of_word 0xbb67ae85) (of_word 0x3c6ef372) (of_word 0xa54ff53a)
         (of_word 0x510e527f) (of_word 0x9b05688c) (of_word 0x1f83d9ab) (of_word 0x5be0cd19).

(** [memset(mem + off, 0, n)] with a [size_t] count. *)
Definition memset0 (mem : bytes) (off n : Z) : outcome bytes :=
  if off + n <=? zlen mem then memcpy mem off (repeat 0 (Z.to_nat n)) else Undef.

Section Encode.
Context {S D : Type} `{InputStream S} `{OutputStream D}.

(*@ sese/util/SHA256Util.cpp 251-268 SHA256Util::encode *)
Fixpoint encode_loop (fuel : nat) (input : S) (hash : values) (mem : bytes) (total : Z) :
    outcome (Z * values * bytes * Z * S) :=
  match fuel with
  | O => Undef
  | Datatypes.S fuel =>
      '(size, data, input) ← stream_read input 64;
      mem ← memcpy mem 0 data;
      if size =? 64 then
        let '(hash, mem) := process hash mem in
        encode_loop fuel input hash mem (u64 (total + size))
      else Val (size, hash, mem, total, input)
  end.

(*@ sese/util/SHA256Util.cpp 270-339 SHA256Util::encode *)
(** The tail. The count of the first [memset] is computed as a [size_t]. *)
Definition encode_tail (size : Z) (hash : values) (mem : bytes) (total : Z) : outcome values :=
  let total := u64 (u64 (total + size) * 8) in
  if (size <=? 55) && (0 <=? size) then
    mem ← memset0 mem (size + 1) (u64 (4 * u64 (47 - size)));
    mem ← memcpy mem size [128];
    mem ← memcpy mem 56 (be_bytes 8 total);
    Val (fst (process hash mem))
  else if size >? 55 then
    mem ← memcpy mem size [128];
    mem ← memset0 mem (size + 1) (63 - size);
    let '(hash, mem) := process hash mem in
    mem ← memset0 mem 0 56;
    mem ← memcpy mem 56 (be_bytes 8 total);
    Val (fst (process hash mem))
  else Val hash.

(*@ sese/util/SHA256Util.cpp 240-342 SHA256Util::encode *)
(** All of the buffer is zero in the beginning: [Bitset32] initialises itself. *)
Definition encode (fuel : nat) (input : S) (output : D) : outcome (S * D) :=
  '(size, hash, mem, total, input) ← encode_loop fuel input initial_hash (repeat 0 256) 0;
  hash ← encode_tail size hash mem total;
  '(_, output) ← stream_write output
    (memory [va hash; vb hash; vc hash; vd hash; ve hash; vf hash; vg hash; vh hash]);
  Val (input, output).
End Encode.

(** ** FIPS 180-4 *)

Definition rotr (n x : Z) : Z := Z.lor (Z.shiftr x n) (u32 (Z.shiftl x (32 - n))).

Definition Ch (x y z : Z) : Z := Z.lxor (Z.land x y) (Z.land (not32 x) z).
Definition Maj (x y z : Z) : Z := Z.lxor (Z.lxor (Z.land x y) (Z.land x z)) (Z.land y z).
Definition Sigma0 (x : Z) : Z := Z.lxor (Z.lxor (rotr 2 x) (rotr 13 x)) (rotr 22 x).
Definition Sigma1 (x : Z) : Z := Z.lxor (Z.lxor (rotr 6 x) (rotr 11 x)) (rotr 25 x).
Definition sigma0 (x : Z) : Z := Z.lxor (Z.lxor (rotr 7 x) (rotr 18 x)) (Z.shiftr x 3).
Definition sigma1 (x : Z) : Z := Z.lxor (Z.lxor (rotr 17 x) (rotr 19 x)) (Z.shiftr x 10).

(** The first 64 primes. *)
Definition prime (n : Z) : bool := forallb (fun d => negb (n mod d =? 0)) (seqZ 2 (n - 2)).
Definition primes : list Z := filter (fun n => prime n = true) (seqZ 2 310).

(** The integer cube root, bit by bit. *)
Fixpoint cbrt_bits (k : nat) (n r : Z) : Z :=
  let r' := r + 2 ^ Z.of_nat k in
  let r := if r' ^ 3 <=? n then r' else r in
  match k with O => r | S k => cbrt_bits k n r end.

(** The first 32 fractional bits of the roots of the primes. *)
Definition ref_K : list Z := map (fun p => cbrt_bits 36 (p * 2 ^ 96) 0 mod 2 ^ 32) primes.
Definition ref_H : list Z := map (fun p => Z.sqrt (p * 2 ^ 64) mod 2 ^ 32) (take 8 primes).

(** The message schedule, extended word by word. *)
Definition ref_next (ws : list Z) : Z :=
  let at_ k := nth (length ws - k) ws 0 in
  u32 (sigma1 (at_ 2%nat) + at_ 7%nat + sigma0 (at_ 15%nat) + at_ 16%nat).
Fixpoint ref_schedule (n : nat) (ws : list Z) : list Z :=
  match n with O => ws | S n => ref_schedule n (ws ++ [ref_next ws]) end.

Definition state : Type := Z * Z * Z * Z * Z * Z * Z * Z.

Definition ref_step (st : state) (p : Z * Z) : state :=
  let '(a, b, c, d, e, f, g, h) := st in
  let t1 := h + Sigma1 e + Ch e f g + snd p + fst p in
  let t2 := Sigma0 a + Maj a b c in
  (u32 (t1 + t2), a, b, c, u32 (d + t1), e, f, g).

Definition ref_compress (st : state) (block : bytes) : state :=
  let '(a, b, c, d, e, f, g, h) := st in
  let '(a', b', c', d', e', f', g', h') :=
    fold_left ref_step (zip (ref_schedule 48 (words be32 block)) ref_K) st in
  (u32 (a + a'), u32 (b + b'), u32 (c + c'), u32 (d + d'),
   u32 (e + e'), u32 (f + f'), u32 (g + g'), u32 (h + h')).

Definition ref_iv : state :=
  let H i := nth i ref_H 0 in
  (H 0%nat, H 1%nat, H 2%nat, H 3%nat, H 4%nat, H 5%nat, H 6%nat, H 7%nat).

Definition to_list (st : state) : list Z :=
  let '(a, b, c, d, e, f, g, h) := st in [a; b; c; d; e; f; g; h].

Definition sha256 (msg : bytes) : bytes :=
  to_list (digest ref_compress (fun n => be_bytes 8 (u64 n)) ref_iv msg) ≫= be_bytes 4.

(** ** The operations on four bytes are those on words *)

Definition bits_ok (x : Bitset32) : Prop :=
  is_byte (byte0 x) /\ is_byte (byte1 x) /\ is_byte (byte2 x) /\ is_byte (byte3 x).

(** [x] stands for the word [w]. *)
Definition means (x : Bitset32) (w : Z) : Prop := bits_ok x /\ word x = w.

Lemma means_range x w : means x w -> is_u 32 w.
Proof. intros [(? & ? & ? & ?) <-]. by apply be32_range. Qed.

Lemma of_word_means w : is_u 32 w -> means (of_word w) w.
Proof.
  unfold is_u. intros Hw. split.
  - unfold bits_ok, of_word, is_u. cbn [byte0 byte1 byte2 byte3]. change (2 ^ 8) with 256.
    repeat split; try apply Z.mod_pos_bound; lia.
  - unfold word, of_word, be32. cbn [byte0 byte1 byte2 byte3]. dlia.
Qed.

Lemma XX_spec r a b : 1 <= r <= 7 -> is_byte a -> is_byte b ->
  XX (2 ^ r - 1) (8 - r) (256 - 2 ^ r) r a b = a mod 2 ^ r * 2 ^ (8 - r) + b / 2 ^ r.
Proof.
  intros Hr Ha Hb. assert (0 < 2 ^ r) by (apply Z.pow_pos_nonneg; lia).
  assert (0 < 2 ^ (8 - r)) by (apply Z.pow_pos_nonneg; lia).
  assert (2 ^ 8 = 2 ^ r * 2 ^ (8 - r)) as E8 by (rewrite <- Z.pow_add_r by lia; f_equal; lia).
  assert (0 <= b / 2 ^ r < 2 ^ (8 - r)) as Hq.
  { unfold is_u in Hb. split; [apply Z.div_pos; lia|]. apply Z.div_lt_upper_bound; lia. }
  pose proof (Z.mod_pos_bound a (2 ^ r) ltac:(lia)).
  unfold XX. change (2 ^ r - 1) with (Z.pred (2 ^ r)). rewrite <- Z.ones_equiv, Z.land_ones by lia.
  assert (Z.shiftr (Z.land b (256 - 2 ^ r)) r = b / 2 ^ r) as ->.
  { assert (forallb (fun r => forallb (fun b => Z.shiftr (Z.land b (256 - 2 ^ r)) r =? b / 2 ^ r)
      (seqZ 0 256)) (seqZ 0 8) = true) as Hall by (vm_compute; reflexivity).
    pose proof (forallb_seqZ _ _ (forallb_seqZ _ _ Hall r ltac:(lia)) b Hb) as E. cbn beta in E. by zbool. }
  rewrite Z.shiftl_mul_pow2, Z.lor_comm, lor_add, wrap_small by (unfold is_u; nia || lia). lia.
Qed.

Lemma XX_byte r a b : 1 <= r <= 7 -> is_byte a -> is_byte b -> is_byte (XX (2 ^ r - 1) (8 - r) (256 - 2 ^ r) r a b).
Proof. intros. apply wrap_range. lia. Qed.

Lemma rotr_spec n x : 1 <= n <= 31 -> is_u 32 x -> rotr n x = x / 2 ^ n + x mod 2 ^ n * 2 ^ (32 - n).
Proof.
  intros Hn Hx. assert (0 < 2 ^ n) by (apply Z.pow_pos_nonneg; lia).
  assert (2 ^ 32 = 2 ^ n * 2 ^ (32 - n)) as E by (rewrite <- Z.pow_add_r by lia; f_equal; lia).
  unfold rotr. rewrite Z.shiftr_div_pow2, Z.shiftl_mul_pow2 by lia.
  assert (u32 (x * 2 ^ (32 - n)) = x mod 2 ^ n * 2 ^ (32 - n)) as ->.
  { unfold wrap. rewrite E, Z.mul_mod_distr_r; [done|lia|]. apply Z.pow_nonzero; lia. }
  apply lor_add; [lia|]. unfold is_u in Hx. split; [apply Z.div_pos; lia|].
  apply Z.div_lt_upper_bound; lia.
Qed.

(** A rotation: bytes by [XX_spec], then the word by arithmetic. *)
Ltac rotation r :=
  let Hx := fresh in let H0 := fresh in let H1 := fresh in let H2 := fresh in let H3 := fresh in
  intros Hx; pose proof (means_range _ _ Hx) as Hw; destruct Hx as [(H0 & H1 & H2 & H3) <-];
  split; [repeat split; apply wrap_range; lia|];
  rewrite rotr_spec by (done || lia); unfold word in *; cbn [byte0 byte1 byte2 byte3];
  rewrite !(XX_spec r) by (done || lia); unfold is_u, be32 in *; clear Hw;
  repeat match goal with |- context [2 ^ ?k] => let v := eval vm_compute in (2 ^ k) in change (2 ^ k) with v end;
  dlia.

Lemma rightRotate2_means x w : means x w -> means (rightRotate2 x) (rotr 2 w).
Proof. unfold rightRotate2. change (XX 3 6 252 2) with (XX (2 ^ 2 - 1) (8 - 2) (256 - 2 ^ 2) 2). rotation 2. Qed.

Lemma rightRotate6_means x w : means x w -> means (rightRotate6 x) (rotr 6 w).
Proof. unfold rightRotate6. change (XX 63 2 192 6) with (XX (2 ^ 6 - 1) (8 - 6) (256 - 2 ^ 6) 6). rotation 6. Qed.

Lemma rightRotate7_means x w : means x w -> means (rightRotate7 x) (rotr 7 w).
Proof. unfold rightRotate7. change (XX 127 1 128 7) with (XX (2 ^ 7 - 1) (8 - 7) (256 - 2 ^ 7) 7). rotation 7. Qed.

Lemma rightRotate11_means x w : means x w -> means (rightRotate11 x) (rotr 11 w).
Proof. unfold rightRotate11. change (XX 7 5 248 3) with (XX (2 ^ 3 - 1) (8 - 3) (256 - 2 ^ 3) 3). rotation 3. Qed.

Lemma rightRotate13_means x w : means x w -> means (rightRotate13 x) (rotr 13 w).
Proof. unfold rightRotate13. change (XX 31 3 224 5) with (XX (2 ^ 5 - 1) (8 - 5) (256 - 2 ^ 5) 5). rotation 5. Qed.

Lemma rightRotate17_means x w : means x w -> means (rightRotate17 x) (rotr 17 w).
Proof. unfold rightRotate17. change (XX 1 7 254 1) with (XX (2 ^ 1 - 1) (8 - 1) (256 - 2 ^ 1) 1). rotation 1. Qed.

Lemma rightRotate18_means x w : means x w -> means (rightRotate18 x) (rotr 18 w).
Proof. unfold rightRotate18. change (XX 3 6 252 2) with (XX (2 ^ 2 - 1) (8 - 2) (256 - 2 ^ 2) 2). rotation 2. Qed.

Lemma rightRotate19_means x w : means x w -> means (rightRotate19 x) (rotr 19 w).
Proof. unfold rightRotate19. change (XX 7 5 248 3) with (XX (2 ^ 3 - 1) (8 - 3) (256 - 2 ^ 3) 3). rotation 3. Qed.

Lemma rightRotate22_means x w : means x w -> means (rightRotate22 x) (rotr 22 w).
Proof. unfold rightRotate22. change (XX 63 2 192 6) with (XX (2 ^ 6 - 1) (8 - 6) (256 - 2 ^ 6) 6). rotation 6. Qed.

Lemma rightRotate25_means x w : means x w -> means (rightRotate25 x) (rotr 25 w).
Proof. unfold rightRotate25. change (XX 1 7 254 1) with (XX (2 ^ 1 - 1) (8 - 1) (256 - 2 ^ 1) 1). rotation 1. Qed.

Lemma high_bits b : is_byte b -> Z.lor 0 (Z.shiftr (Z.land b 248) 3) = b / 8 /\
  Z.lor 0 (Z.shiftr (Z.land b 252) 2) = b / 4.
Proof.
  intros Hb. apply (forallb_seqZ (fun b => (Z.lor 0 (Z.shiftr (Z.land b 248) 3) =? b / 8) &&
    (Z.lor 0 (Z.shiftr (Z.land b 252) 2) =? b / 4)) 256) in Hb; [by zbool|vm_compute; reflexivity].
Qed.

Lemma rightShift3_means x w : means x w -> means (rightShift3 x) (Z.shiftr w 3).
Proof.
  intros [(H0 & H1 & H2 & H3) <-]. unfold rightShift3, word. cbn [byte0 byte1 byte2 byte3].
  change (u8 (Z.lor (Z.shiftl (Z.land ?a 7) 5) (Z.shiftr (Z.land ?b 248) 3)))
    with (XX (2 ^ 3 - 1) (8 - 3) (256 - 2 ^ 3) 3 a b).
  destruct (high_bits _ H0) as [-> _]. unfold means, bits_ok, word. cbn [byte0 byte1 byte2 byte3].
  rewrite !(XX_spec 3), Z.shiftr_div_pow2 by (done || lia). unfold is_u, be32 in *.
  change (2 ^ 3) with 8. change (2 ^ (8 - 3)) with 32. split; [repeat split|]; dlia.
Qed.

Lemma rightShift10_means x w : means x w -> means (rightShift10 x) (Z.shiftr w 10).
Proof.
  intros [(H0 & H1 & H2 & H3) <-]. unfold rightShift10, word. cbn [byte0 byte1 byte2 byte3].
  change (u8 (Z.lor (Z.shiftl (Z.land ?a 3) 6) (Z.shiftr (Z.land ?b 252) 2)))
    with (XX (2 ^ 2 - 1) (8 - 2) (256 - 2 ^ 2) 2 a b).
  destruct (high_bits _ H0) as [_ ->]. unfold means, bits_ok, word. cbn [byte0 byte1 byte2 byte3].
  rewrite !(XX_spec 2), Z.shiftr_div_pow2 by (done || lia). unfold is_u, be32 in *.
  change (2 ^ 2) with 4. change (2 ^ (8 - 2)) with 64. split; [repeat split|]; dlia.
Qed.

Lemma band_means x y v w : means x v -> means y w -> means (band x y) (Z.land v w).
Proof.
  intros [(? & ? & ? & ?) <-] [(? & ? & ? & ?) <-]. split; [repeat split; try apply byte_land; done|].
  apply (be32_bitwise Z.land andb); auto using byte_land. intros. apply Z.land_spec.
Qed.

Lemma bxor_means x y v w : means x v -> means y w -> means (bxor x y) (Z.lxor v w).
Proof.
  intros [(? & ? & ? & ?) <-] [(? & ? & ? & ?) <-]. split; [repeat split; try apply byte_lxor; done|].
  apply (be32_bitwise Z.lxor xorb); auto using byte_lxor. intros. apply Z.lxor_spec.
Qed.

Lemma badd_means x y v w : means x v -> means y w -> means (badd x y) (u32 (v + w)).
Proof. intros [_ <-] [_ <-]. apply of_word_means, wrap_range. lia. Qed.

Lemma bnot_means x w : means x w -> means (bnot x) (not32 w).
Proof.
  intros Hx. assert (bnot x = bxor x (Bits 255 255 255 255)) as ->.
  { assert (Hneg : forall b, is_byte b -> u8 (Z.lnot b) = Z.lxor b 255).
    { intros b Hb. apply (forallb_seqZ (fun b => u8 (Z.lnot b) =? Z.lxor b 255) 256) in Hb;
        [by zbool|vm_compute; reflexivity]. }
    destruct Hx as [(? & ? & ? & ?) _]. unfold bnot, bxor. cbn. by rewrite !Hneg. }
  apply (bxor_means _ _ _ (2 ^ 32 - 1)); [done|]. split; [repeat split; done|done].
Qed.

Create HintDb words discriminated.
#[local] Hint Resolve rightRotate2_means rightRotate6_means rightRotate7_means rightRotate11_means
  rightRotate13_means rightRotate17_means rightRotate18_means rightRotate19_means rightRotate22_means
  rightRotate25_means rightShift3_means rightShift10_means band_means bxor_means badd_means bnot_means
  of_word_means : words.


(** ** A block *)

Lemma u32_sum2 a b c : u32 (u32 (a + b) + c) = u32 (a + b + c).
Proof. unfold wrap. by rewrite Zplus_mod_idemp_l. Qed.

Lemma u32_sum3 a b c d : u32 (u32 (u32 (a + b) + c) + d) = u32 (a + b + c + d).
Proof. rewrite (u32_sum2 a b c), u32_sum2. done. Qed.

Lemma u32_sum2_r a b c : u32 (c + u32 (a + b)) = u32 (c + (a + b)).
Proof. unfold wrap. by rewrite Zplus_mod_idemp_r. Qed.

Lemma ref_schedule_snoc n : forall ws,
  ref_schedule (S n) ws = ref_schedule n ws ++ [ref_next (ref_schedule n ws)].
Proof. induction n as [|n IH]; intros ws; [done|]. cbn [ref_schedule] in *. apply IH. Qed.

Lemma ref_schedule_length n : forall ws, length (ref_schedule n ws) = (length ws + n)%nat.
Proof.
  induction n as [|n IH]; intros ws; cbn [ref_schedule]; [lia|]. rewrite IH, length_app. cbn. lia.
Qed.

Lemma means_nth buffer ws i d : Forall2 means buffer ws -> (i < length ws)%nat ->
  means (nth i buffer d) (nth i ws 0).
Proof.
  intros Hm Hi. rewrite !nth_lookup. destruct (lookup_lt_is_Some_2 ws i Hi) as [w Ew].
  destruct (Forall2_lookup_r _ _ _ _ _ Hm Ew) as (x & Ex & Hx). by rewrite Ex, Ew.
Qed.

(** One word of the schedule, in its place. *)
Lemma structure_spec buffer l n : length buffer = 64%nat -> (n < 48)%nat -> length l = (16 + n)%nat ->
  Forall2 means (take (16 + n) buffer) l ->
  length (structure buffer n) = 64%nat /\
  take (16 + n) (structure buffer n) = take (16 + n) buffer /\
  Forall2 means (take (16 + S n) (structure buffer n)) (l ++ [ref_next l]).
Proof.
  intros Hb Hn Hl Hm. unfold structure. cbv zeta. set (x := badd _ _).
  assert (Hat : forall k, (k < 16)%nat -> means (nth (n + k) buffer zero32) (nth (n + k) l 0)).
  { intros k Hk. pose proof (means_nth _ _ (n + k)%nat zero32 Hm ltac:(lia)) as Hx.
    rewrite !nth_lookup, lookup_take_lt in Hx by lia. by rewrite !nth_lookup. }
  assert (means x (ref_next l)) as Hx.
  { unfold x, ref_next. cbv zeta. rewrite Hl.
    replace (16 + n - 2)%nat with (n + 14)%nat by lia. replace (16 + n - 7)%nat with (n + 9)%nat by lia.
    replace (16 + n - 15)%nat with (n + 1)%nat by lia. replace (16 + n - 16)%nat with (n + 0)%nat by lia.
    match goal with |- means _ (u32 (?p + ?q + ?r + ?s)) =>
      replace (u32 (p + q + r + s)) with (u32 (u32 (u32 (s + r) + q) + p))
        by (rewrite u32_sum3; apply f_equal; lia) end.
    pose proof (Hat 0%nat ltac:(lia)). pose proof (Hat 1%nat ltac:(lia)).
    pose proof (Hat 9%nat ltac:(lia)). pose proof (Hat 14%nat ltac:(lia)).
    unfold sigma0, sigma1. auto 10 with words. }
  clearbody x. split; [by rewrite length_insert|]. split; [by rewrite take_insert_ge by lia|].
  replace (16 + S n)%nat with (S (16 + n)) by lia.
  rewrite (take_S_r _ _ x) by (rewrite Nat.add_comm; apply list_lookup_insert_eq; lia).
  rewrite take_insert_ge by lia. apply Forall2_app; [done|]. by constructor.
Qed.

Lemma schedule_spec n : forall buffer ws, (n <= 48)%nat -> length buffer = 64%nat -> length ws = 16%nat ->
  Forall2 means (take 16 buffer) ws ->
  let buffer' := fold_left structure (seq 0 n) buffer in
  length buffer' = 64%nat /\ take 16 buffer' = take 16 buffer /\
  Forall2 means (take (16 + n) buffer') (ref_schedule n ws).
Proof.
  induction n as [|n IH]; intros buffer ws Hn Hb Hw Hm; [done|].
  destruct (IH buffer ws) as (Hl & Ht & Hf); [lia|done..|]. cbv zeta in *.
  rewrite seq_S, fold_left_app, Nat.add_0_l. cbn [fold_left].
  revert Hl Ht Hf. generalize (fold_left structure (seq 0 n) buffer). intros buf Hl Ht Hf.
  destruct (structure_spec buf (ref_schedule n ws) n) as (Hl2 & Ht2 & Hf2);
    [done|lia|by rewrite ref_schedule_length, Hw|done|].
  rewrite ref_schedule_snoc. split; [done|]. split; [|done].
  rewrite <- Ht. change 16%nat with (Nat.min 16 (16 + n)). by rewrite <- !take_take, Ht2.
Qed.

(** The working values stand for the reference's. *)
Definition vmeans (v : values) (st : state) : Prop :=
  let '(a, b, c, d, e, f, g, h) := st in
  means (va v) a /\ means (vb v) b /\ means (vc v) c /\ means (vd v) d /\
  means (ve v) e /\ means (vf v) f /\ means (vg v) g /\ means (vh v) h.

Lemma encode_word_spec v st x w k : vmeans v st -> means x w -> is_u 32 k ->
  vmeans (encode_word v x (of_word k)) (ref_step st (w, k)).
Proof.
  destruct st as [[[[[[[a b] c] d] e] f] g] h], v as [a' b' c' d' e' f' g' h'].
  intros (Ha & Hb & Hc & Hd & He & Hf & Hg & Hh) Hx Hk. cbn [va vb vc vd ve vf vg vh] in *.
  unfold encode_word, ref_step. cbv zeta. cbn [fst snd].
  set (tmp1 := badd (badd (badd (badd _ _) _) (of_word k)) x).
  assert (means tmp1 (u32 (h + Sigma1 e + Ch e f g + k + w))) as Ht1.
  { rewrite <- (u32_sum2 (h + Sigma1 e + Ch e f g)), <- u32_sum3. unfold tmp1, Sigma1, Ch. auto 12 with words. }
  clearbody tmp1. set (tmp2 := badd (bxor _ _) _).
  assert (means tmp2 (u32 (Sigma0 a + Maj a b c))) as Ht2 by (unfold tmp2, Sigma0, Maj; auto 12 with words).
  clearbody tmp2. unfold vmeans. cbn [va vb vc vd ve vf vg vh].
  assert (means (badd tmp1 tmp2) (u32 (h + Sigma1 e + Ch e f g + k + w + (Sigma0 a + Maj a b c)))).
  { rewrite <- u32_sum2, <- u32_sum2_r. auto with words. }
  assert (means (badd d' tmp1) (u32 (d + (h + Sigma1 e + Ch e f g + k + w)))).
  { rewrite <- u32_sum2_r. auto with words. }
  tauto.
Qed.

Lemma rounds_spec ks : forall buffer ws v st, Forall2 means buffer ws -> Forall (is_u 32) ks -> vmeans v st ->
  vmeans (fold_left (fun v p => encode_word v (fst p) (of_word (snd p))) (zip buffer ks) v)
         (fold_left ref_step (zip ws ks) st).
Proof.
  induction ks as [|k ks IH]; intros buffer ws v st Hm Hk Hv.
  { by destruct buffer, ws. }
  inversion Hm as [|x w buffer' ws' Hx Hm']; subst; [done|]. inversion Hk; subst.
  cbn [zip zip_with fold_left fst snd]. apply IH; auto using encode_word_spec.
Qed.

Lemma K_spec : K = ref_K /\ Forall (is_u 32) K.
Proof.
  split; [vm_compute; reflexivity|]. apply Forall_forall. intros k Hk.
  assert (forallb (fun k => (0 <=? k) && (k <? 2 ^ 32)) K = true) as E by (vm_compute; reflexivity).
  rewrite forallb_forall in E. apply is_u_bool, E. by apply list_elem_of_In.
Qed.

Lemma add_values_spec v v' st st' : vmeans v st -> vmeans v' st' ->
  let '(a, b, c, d, e, f, g, h) := st in
  let '(a', b', c', d', e', f', g', h') := st' in
  vmeans (add_values v v') (u32 (a + a'), u32 (b + b'), u32 (c + c'), u32 (d + d'),
    u32 (e + e'), u32 (f + f'), u32 (g + g'), u32 (h + h')).
Proof.
  destruct st as [[[[[[[a b] c] d] e] f] g] h], st' as [[[[[[[a' b'] c'] d'] e'] f'] g'] h'].
  intros (? & ? & ? & ? & ? & ? & ? & ?) (? & ? & ? & ? & ? & ? & ? & ?).
  unfold vmeans, add_values. cbn [va vb vc vd ve vf vg vh]. auto 20 with words.
Qed.

(** Memory seen as words, and back. *)
Lemma memory_cells n : forall mem, length mem = (4 * n)%nat ->
  memory (cells mem) = mem /\ length (cells mem) = n.
Proof.
  induction n as [|n IH]; intros mem Hm; [by destruct mem|].
  do 4 (destruct mem as [|? mem]; [cbn in Hm; lia|]). cbn [length] in Hm.
  destruct (IH mem) as [E El]; [lia|]. cbn [cells length]. split; [|lia].
  unfold memory in *. by rewrite bind_cons, E.
Qed.

Lemma cells_app n : forall mem rest, length mem = (4 * n)%nat -> cells (mem ++ rest) = cells mem ++ cells rest.
Proof.
  induction n as [|n IH]; intros mem rest Hm; [by destruct mem|].
  do 4 (destruct mem as [|? mem]; [cbn in Hm; lia|]). cbn [length] in Hm. cbn [cells app].
  by rewrite IH by lia.
Qed.

Lemma cells_words n : forall b, length b = (4 * n)%nat -> bytes_ok b -> Forall2 means (cells b) (words be32 b).
Proof.
  induction n as [|n IH]; intros mem Hm Hok; [by destruct mem|].
  do 4 (destruct mem as [|? mem]; [cbn in Hm; lia|]). cbn [length] in Hm. cbn [cells words].
  unfold bytes_ok in Hok. rewrite !Forall_cons in Hok. destruct Hok as (? & ? & ? & ? & ?).
  constructor; [done|]. apply IH; [lia|done].
Qed.

Lemma memory_length l : length (memory l) = (4 * length l)%nat.
Proof. induction l as [|x l IH]; [done|]. unfold memory in *. rewrite bind_cons, length_app, IH. cbn. lia. Qed.

(** A block processed: the values follow the reference, the block stays. *)
Lemma process_spec hash st b rest : vmeans hash st -> length b = 64%nat -> bytes_ok b -> length rest = 192%nat ->
  exists rest', snd (process hash (b ++ rest)) = b ++ rest' /\ length rest' = 192%nat /\
    vmeans (fst (process hash (b ++ rest))) (ref_compress st b).
Proof.
  intros Hv Hb Hok Hr. unfold process. cbv zeta.
  destruct (memory_cells 16 b Hb) as [Eb Lb]. destruct (memory_cells 48 rest Hr) as [_ Lr].
  pose proof (cells_words 16 b Hb Hok) as Hw. pose proof (Forall2_length _ _ _ Hw) as Hlw.
  rewrite (cells_app 16) by done.
  destruct (schedule_spec 48 (cells b ++ cells rest) (words be32 b)) as (Hl & Ht & Hs);
    [lia|rewrite length_app; lia|lia|by rewrite take_app_length'|].
  rewrite take_app_length' in Ht by done. cbv zeta in *.
  revert Hl Ht Hs. generalize (fold_left structure (seq 0 48) (cells b ++ cells rest)). intros buf Hl Ht Hs.
  rewrite take_ge in Hs by lia. destruct K_spec as [EK HK].
  pose proof (rounds_spec K buf _ hash st Hs HK Hv) as Hf.
  rewrite <- (take_drop 16 buf), Ht. exists (memory (drop 16 buf)). cbn [fst snd].
  split; [unfold memory in *; by rewrite bind_app, Eb|].
  split; [rewrite memory_length, length_drop; lia|].
  rewrite <- Ht, take_drop. pose proof (add_values_spec _ _ _ _ Hv Hf) as Ha.
  unfold ref_compress. rewrite <- EK. revert Ha. clear.
  destruct st as [[[[[[[a b'] c] d] e] f] g] h].
  destruct (fold_left ref_step _ _) as [[[[[[[a' b''] c'] d'] e'] f'] g'] h']. done.
Qed.

(** ** The loop over the stream *)

Section Loop.
Context {S : Type} `{MemInput S}.

(** After the blocks [bs], the memory begins with the tail, over the last block. *)
Lemma sha256_encode_loop_spec bs : forall fuel (s : S) hash st m rest total tail,
  Forall (fun b => length b = 64%nat /\ bytes_ok b) bs -> (length tail < 64)%nat ->
  in_valid s -> in_content s = concat bs ++ tail -> length m = 64%nat -> length rest = 192%nat ->
  (length bs < fuel)%nat -> vmeans hash st ->
  exists hash' rest' s', encode_loop fuel s hash (m ++ rest) total =
      Val (zlen tail, hash', (tail ++ drop (length tail) (default m (last bs))) ++ rest',
        fold_left (fun a b => u64 (a + 64)) bs total, s') /\
    vmeans hash' (fold_left ref_compress bs st) /\ length rest' = 192%nat /\ in_content s' = [] /\
    (bs = [] -> rest' = rest).
Proof.
  induction bs as [|b bs IH]; intros [|fuel] s hash st m rest total tail Hbs Ht Hv Hc Hm Hr Hf Hh;
    cbn [length] in Hf; try lia; cbn [encode_loop concat app fold_left] in *.
  - destruct (read_law s 64 Hv ltac:(lia)) as (s' & E & Hv' & Hc').
    rewrite Hc, Z.min_r, ztake_ge in E by (unfold zlen; lia). rewrite Hc, zdrop_ge in Hc' by (unfold zlen; lia).
    rewrite E, bind_Val, (memcpy_at [] (m ++ rest)) by (done || rewrite zlen_app; unfold zlen; lia).
    rewrite bind_Val, (proj2 (Z.eqb_neq _ 64)) by (unfold zlen; lia).
    exists hash, rest, s'. cbn [last default app].
    rewrite zdrop_app_le by (unfold zlen; lia). unfold zdrop, zlen. rewrite Nat2Z.id, app_assoc. done.
  - inversion Hbs as [|? ? [Hb Hok] Hbs']; subst. rewrite <- app_assoc in Hc.
    destruct (read_prefix s b _ Hv Hc) as (s' & E & Hv' & Hc').
    replace (zlen b) with 64 in E by (unfold zlen; lia).
    rewrite E, bind_Val, (memcpy_at [] (m ++ rest)) by (done || rewrite zlen_app; unfold zlen; lia).
    rewrite bind_Val. change (64 =? 64) with true. cbv iota. cbn [app].
    rewrite zdrop_app_ge, (zdrop_0 (_ - _) rest) by (unfold zlen; lia).
    destruct (process_spec hash st b rest Hh Hb Hok Hr) as (rest1 & E1 & Hr1 & Hh1).
    destruct (process hash (b ++ rest)) as [hash1 mem1]. cbn [fst snd] in *. subst mem1.
    destruct (IH fuel s' hash1 (ref_compress st b) b rest1 (u64 (total + 64)) tail)
      as (hash2 & rest2 & s2 & E2 & ? & ? & ? & ?); auto; [lia|].
    exists hash2, rest2, s2. rewrite E2, last_cons. split; [by destruct (last bs)|]. done.
Qed.
End Loop.

(** ** The last block *)

Lemma memset0_at p r off n : off = zlen p -> 0 <= n <= zlen r ->
  memset0 (p ++ r) off n = Val ((p ++ repeat 0 (Z.to_nat n)) ++ zdrop n r).
Proof.
  intros -> Hn. unfold memset0. rewrite (proj2 (Z.leb_le _ (zlen (p ++ r)))) by (rewrite zlen_app; lia).
  rewrite memcpy_at by (rewrite ?zlen_repeat; lia). rewrite zlen_repeat, Z2Nat.id by lia. done.
Qed.

(** The lengths for which a final block is right: the first [memset] clears
    all of the padding, or finds it clear. *)
Definition cleared (tail r : bytes) : Prop :=
  zlen tail <= 44 \/ 55 < zlen tail \/ zlen tail <= 47 /\ r = repeat 0 (64 - length tail).

(** What the short branch leaves behind the padding's first byte. *)
Lemma cleared_zeros tail x r1 rest : (length tail + S (length r1) = 64)%nat -> length rest = 192%nat ->
  zlen tail <= 55 -> cleared tail (x :: r1) ->
  exists q, length q = 200%nat /\
    repeat 0 (Z.to_nat (4 * (47 - zlen tail))) ++ zdrop (4 * (47 - zlen tail)) (r1 ++ rest) =
    repeat 0 (55 - length tail) ++ q.
Proof.
  intros Hl Hr Ht Hc. unfold cleared, zlen, zdrop in *.
  set (n := Z.to_nat (4 * (47 - Z.of_nat (length tail)))).
  destruct (Z.le_gt_cases (Z.of_nat (length tail)) 44) as [H44|H44]; [|destruct Hc as [?|[?|[Hc Hz]]]; [lia..|]].
  - replace n with ((55 - length tail) + (n - (55 - length tail)))%nat by (unfold n; lia).
    rewrite repeat_app, <- app_assoc. eexists. split; [|reflexivity].
    rewrite length_app, repeat_length, length_drop, length_app. unfold n. lia.
  - replace (64 - length tail)%nat with (S (63 - length tail)) in Hz by lia. injection Hz as -> ->.
    exists (repeat 0 8 ++ rest). split; [rewrite length_app, repeat_length; lia|].
    rewrite app_assoc, <- (repeat_app 0 _ 8). replace (55 - length tail + 8)%nat with (n + (63 - length tail - n))%nat
      by (unfold n; lia).
    replace (63 - length tail)%nat with (n + (63 - length tail - n))%nat at 1 by (unfold n; lia).
    rewrite !repeat_app, <- !app_assoc, drop_app_length' by (by rewrite repeat_length). done.
Qed.

Lemma sha256_encode_tail_spec hash st tail r rest total n :
  vmeans hash st -> (length tail < 64)%nat -> length (tail ++ r) = 64%nat -> length rest = 192%nat ->
  bytes_ok tail -> cleared tail r -> u64 (total + zlen tail) = u64 n ->
  exists hash', encode_tail (zlen tail) hash ((tail ++ r) ++ rest) total = Val hash' /\
    vmeans hash' (fold_left ref_compress (last_blocks (fun n => be_bytes 8 (u64 n)) n tail) st).
Proof.
  intros Hh Ht Hl Hr Hok Hc Htot. unfold encode_tail, last_blocks. rewrite Htot.
  replace (u64 (u64 n * 8)) with (u64 (8 * n)) by (unfold wrap; rewrite Zmult_mod_idemp_l; f_equal; lia).
  set (len8 := be_bytes 8 (u64 (8 * n))).
  assert (zlen len8 = 8 /\ bytes_ok len8) as [Hl8 Hok8]
    by (split; [unfold zlen, len8; by rewrite be_bytes_length|apply be_bytes_ok]). clearbody len8.
  rewrite length_app in Hl. destruct r as [|x r1]; [cbn in Hl; lia|]. cbn [length] in Hl.
  assert (0 <= zlen tail < 64 /\ zlen (tail ++ [x]) = zlen tail + 1 /\ zlen (tail ++ [128]) = zlen tail + 1)
    as (Htz & Hx1 & Hx2) by (rewrite !zlen_app; unfold zlen; cbn [length]; lia).
  assert (zlen r1 = 63 - zlen tail /\ zlen rest = 192) as [Hr1 Hrz] by (unfold zlen; lia).
  assert (bytes_ok (tail ++ [128]) /\ forall k, bytes_ok (repeat 0 k)) as [Hok1 Hzeros]
    by (split; [apply bytes_ok_app; [done|by constructor]|intros; by apply repeat_Forall]).
  rewrite (proj2 (Z.leb_le 0 (zlen tail))) by lia. rewrite andb_true_r.
  replace ((tail ++ x :: r1) ++ rest) with ((tail ++ [x]) ++ (r1 ++ rest)) by (rewrite <- !app_assoc; done).
  destruct (zlen tail <=? 55) eqn:E; zbool.
  - assert (u64 (4 * u64 (47 - zlen tail)) = 4 * (47 - zlen tail)) as ->.
    { unfold cleared in Hc. rewrite (wrap_small 64 (47 - _)), wrap_small by (unfold is_u; lia). done. }
    destruct (cleared_zeros tail x r1 rest) as (q & Hq & Eq); [lia|done|lia|done|].
    rewrite memset0_at, bind_Val by (unfold cleared in Hc; rewrite ?(zlen_app r1); lia).
    rewrite <- app_assoc, Eq, <- app_assoc.
    rewrite memcpy_at, bind_Val by (done || rewrite zlen_app; unfold zlen; cbn [length]; lia).
    change (zlen [128]) with 1. change (zdrop 1 ([x] ++ ?l)) with l.
    rewrite app_assoc. rewrite memcpy_at, bind_Val
      by (rewrite ?zlen_app, ?Hl8, ?zlen_repeat; unfold zlen in *; cbn [length]; lia).
    rewrite <- !app_assoc, (app_assoc tail), (app_assoc (tail ++ _)), (app_assoc ((tail ++ _) ++ _)).
    destruct (process_spec hash st (((tail ++ [128]) ++ repeat 0 (55 - length tail)) ++ len8) (zdrop (zlen len8) q))
      as (rest' & _ & _ & Hv).
    + done.
    + rewrite !length_app, repeat_length. unfold zlen in *. cbn [length]. lia.
    + auto using bytes_ok_app.
    + unfold zdrop. rewrite length_drop. unfold zlen in *. lia.
    + eexists. split; [reflexivity|]. cbn [fold_left].
      replace (tail ++ [128] ++ _) with (((tail ++ [128]) ++ repeat 0 (55 - length tail)) ++ len8)
        by (rewrite <- !app_assoc; done).
      rewrite <- !app_assoc in Hv |- *. exact Hv.
  - rewrite Z.gtb_ltb, (proj2 (Z.ltb_lt 55 (zlen tail))) by lia. rewrite <- app_assoc.
    rewrite memcpy_at, bind_Val by (done || rewrite !zlen_app; unfold zlen; cbn [length]; lia).
    change (zlen [128]) with 1. change (zdrop 1 ([x] ++ ?l)) with l.
    rewrite memset0_at, bind_Val by (rewrite ?(zlen_app r1); lia).
    rewrite zdrop_app_ge, zdrop_0 by lia.
    replace (Z.to_nat (63 - zlen tail)) with (63 - length tail)%nat by (unfold zlen; lia).
    set (b1 := (tail ++ [128]) ++ _).
    assert (zlen b1 = 64) as Hb1 by (unfold b1; rewrite zlen_app, zlen_repeat; unfold zlen in *; lia).
    destruct (process_spec hash st b1 rest) as (rest1 & E1 & Hr1' & Hv1); [done|unfold zlen in Hb1; lia| |done|].
    { unfold b1. auto using bytes_ok_app. }
    destruct (process hash (b1 ++ rest)) as [hash1 mem1]. cbn [fst snd] in *. subst mem1.
    assert (zlen (b1 ++ rest1) = 256) as Hz by (rewrite zlen_app; unfold zlen in *; lia).
    rewrite (memset0_at [] (b1 ++ rest1)), bind_Val by (done || lia). cbn [app].
    rewrite memcpy_at, bind_Val by (rewrite ?zlen_repeat; done || rewrite zlen_zdrop; lia).
    change (Z.to_nat 56) with 56%nat. rewrite Hl8, zdrop_zdrop by lia.
    destruct (process_spec hash1 (ref_compress st b1) (repeat 0 56 ++ len8) (zdrop (56 + 8) (b1 ++ rest1)))
      as (rest' & _ & _ & Hv).
    + done.
    + rewrite length_app, repeat_length. unfold zlen in *. lia.
    + auto using bytes_ok_app.
    + unfold zdrop. rewrite length_drop, length_app. unfold zlen in *. lia.
    + eexists. split; [reflexivity|]. cbn [fold_left].
      replace (tail ++ 128 :: _) with b1 by (unfold b1; rewrite <- app_assoc; done). exact Hv.
Qed.

Lemma tail_mod bs tail : Forall (fun b : bytes => length b = 64%nat) bs -> (length tail < 64)%nat ->
  zlen (concat bs ++ tail) mod 64 = zlen tail /\ zlen (concat bs ++ tail) = 64 * Z.of_nat (length bs) + zlen tail.
Proof.
  intros Hbs Ht. rewrite zlen_app. unfold zlen. rewrite concat_length by done. split; [|lia].
  symmetry. apply (Z.mod_unique _ _ (Z.of_nat (length bs))); lia.
Qed.

(** Reading whole blocks and the tail, from the beginning. *)
Lemma encode_blocks {S : Type} `{MemInput S} (input : S) (fuel : nat) :
  bytes_ok (in_content input) -> in_valid input -> (length (in_content input) < fuel)%nat ->
  exists bs tail hash r rest total input',
    in_content input = concat bs ++ tail /\ Forall (fun b => length b = 64%nat) bs /\
    (length tail < 64)%nat /\ bytes_ok tail /\
    encode_loop fuel input initial_hash (repeat 0 256) 0 =
      Val (zlen tail, hash, (tail ++ r) ++ rest, total, input') /\
    vmeans hash (fold_left ref_compress bs ref_iv) /\ length (tail ++ r) = 64%nat /\ length rest = 192%nat /\
    u64 (total + zlen tail) = u64 (zlen (in_content input)) /\ in_content input' = [] /\
    (bs = [] -> r = repeat 0 (64 - length tail)).
Proof.
  intros Hok Hv Hf. destruct (cut_blocks (in_content input)) as (bs & tail & Ec & Hbs & Ht).
  rewrite Ec in Hok, Hf. apply Forall_app in Hok as [Hokb Hokt].
  assert (Forall (fun b => length b = 64%nat /\ bytes_ok b) bs) as Hbs2.
  { clear - Hbs Hokb. induction Hbs as [|b bs Hb _ IH]; [done|]. cbn in Hokb.
    apply Forall_app in Hokb as [? ?]. constructor; auto. }
  pose proof (concat_length bs Hbs) as Hlen. rewrite length_app in Hf.
  assert (vmeans initial_hash ref_iv) as Hiv.
  { replace ref_iv with (0x6a09e667, 0xbb67ae85, 0x3c6ef372, 0xa54ff53a, 0x510e527f, 0x9b05688c, 0x1f83d9ab,
      0x5be0cd19) by (vm_compute; reflexivity).
    zeval. }
  destruct (sha256_encode_loop_spec bs fuel input initial_hash ref_iv (repeat 0 64) (repeat 0 192) 0 tail)
    as (hash & rest & s' & E & Hh & Hr & Hc & Hnil); auto; [lia|].
  exists bs, tail, hash, (drop (length tail) (default (repeat 0 64) (last bs))), rest,
    (fold_left (fun a b => u64 (a + 64)) bs 0), s'.
  split; [done|]. split; [done|]. split; [done|]. split; [done|].
  split; [exact E|]. split; [done|].
  assert (length (default (repeat 0 64) (last bs)) = 64%nat) as Hlast.
  { destruct (last bs) as [b|] eqn:El; [|done]. cbn. rewrite Forall_forall in Hbs. apply Hbs.
    apply last_Some in El as [l ->]. apply elem_of_app. right. by apply list_elem_of_singleton. }
  split; [rewrite length_app, length_drop; lia|]. split; [done|]. split.
  { rewrite total_blocks by done. unfold wrap. rewrite Zplus_mod_idemp_l. f_equal.
    rewrite Ec, zlen_app. unfold zlen. lia. }
  split; [done|]. intros ->. cbn [last default]. replace 64%nat with (length tail + (64 - length tail))%nat at 1 by lia.
  rewrite repeat_app, drop_app_length' by (by rewrite repeat_length). done.
Qed.

Lemma vmeans_memory v st : vmeans v st ->
  memory [va v; vb v; vc v; vd v; ve v; vf v; vg v; vh v] = to_list st ≫= be_bytes 4.
Proof.
  assert (Hw : forall x w, means x w -> to_bytes x = be_bytes 4 w).
  { intros [b0 b1 b2 b3] w [(H0 & H1 & H2 & H3) <-]. unfold is_u in *. cbn [byte0 byte1 byte2 byte3] in *.
    unfold to_bytes, be_bytes, word, be32. cbn -[Z.div Z.modulo Z.mul Z.add].
    repeat (apply f_equal2; [dlia|]). done. }
  destruct st as [[[[[[[a b] c] d] e] f] g] h]. intros (? & ? & ? & ? & ? & ? & ? & ?).
  unfold memory. cbn [to_list]. rewrite !bind_cons.
  repeat (apply f_equal2; [by apply Hw|]). done.
Qed.

(** ** Properties *)

(** The message lengths whose padding the code gets right: up to 44 bytes, or
    from 56, in the last block; up to 47 when it is the only one. *)
Definition right_length (n : Z) : bool :=
  (n mod 64 <=? 44) || (55 <? n mod 64) || ((n <? 64) && (n <=? 47)).

(** C32: on messages of these lengths, the digest made of byte-wise rotations and
    of a schedule written behind the block is exactly the SHA-256 of FIPS 180-4,
    whose constants are computed here from the roots of the primes. *)
Theorem sha256_correct {S D : Type} `{MemInput S} `{MemOutput D} (input : S) (output : D) (fuel : nat) :
  bytes_ok (in_content input) -> in_valid input -> out_valid output -> out_room output 32 ->
  (length (in_content input) < fuel)%nat -> right_length (zlen (in_content input)) = true ->
  exists input' output', encode fuel input output = Val (input', output') /\
    in_content input' = [] /\ out_content output' = out_content output ++ sha256 (in_content input).
Proof.
  intros Hok Hv Ho Hr Hf Hlen.
  destruct (encode_blocks input fuel Hok Hv Hf) as
    (bs & tail & hash & r & rest & total & s' & Ec & Hbs & Ht & Hokt & E & Hh & Hbuf & Hrest & Htot & Hc' & Hnil).
  destruct (tail_mod bs tail Hbs Ht) as [Hmod Hz]. rewrite <- Ec in Hmod, Hz.
  assert (cleared tail r) as Hcl.
  { unfold right_length in Hlen. unfold cleared. rewrite Hmod, !orb_true_iff, andb_true_iff, !Z.leb_le, !Z.ltb_lt in Hlen.
    destruct Hlen as [[?|?]|[? ?]]; [lia..|].
    right. right. split; [lia|]. apply Hnil. pose proof (zlen_nonneg tail). destruct bs; [done|]. cbn [length] in Hz. lia. }
  unfold encode. rewrite E, bind_Val.
  destruct (sha256_encode_tail_spec hash _ tail r rest total _ Hh Ht Hbuf Hrest Hokt Hcl Htot) as (hash' & -> & Hh').
  rewrite bind_Val, (vmeans_memory _ _ Hh').
  rewrite Ec, <- (last_blocks_spec ref_compress (fun n => be_bytes 8 (u64 n)))
    by (done || intros; apply be_bytes_length).
  rewrite <- Ec. fold (sha256 (in_content input)).
  destruct (write_step output (sha256 (in_content input)) 0 Ho ltac:(lia)) as (o' & -> & _ & Hd & _).
  { assert (zlen (sha256 (in_content input)) = 32) as ->; [|done]. unfold sha256, zlen.
    rewrite be_words_length. set (p := digest _ _ _ _). by destruct p as [[[[[[[? ?] ?] ?] ?] ?] ?] ?]. }
  rewrite bind_Val. exists s', o'. auto.
Qed.

Lemma sha256_correct_witness :
  hex false (sha256 (str "abc")) = str "ba7816bf8f01cfea414140de5dae2223b00361a396177a9cb410ff61f20015ad" /\
  exists input output,
    encode 4 (InputBufferWrapper.create (str "abc") 3) (OutputBufferWrapper.fresh 32) = Val (input, output) /\
    in_content input = [] /\
    out_content output = out_content (OutputBufferWrapper.fresh 32) ++
      sha256 (in_content (InputBufferWrapper.create (str "abc") 3)).
Proof.
  split; [vm_compute; reflexivity|].
  apply (sha256_correct (InputBufferWrapper.create (str "abc") 3) (OutputBufferWrapper.fresh 32) 4).
  - apply bytes_ok_bool. reflexivity.
  - zeval.
  - apply OutputBufferWrapper.fresh_valid. lia.
  - vm_compute. discriminate.
  - vm_compute. lia.
  - reflexivity.
Defined.

(** When the last block of a message holds 48 to 55 bytes, the count of the
    [memset] is negative, wraps to a huge [size_t], and the write leaves the buffer. *)
Theorem sha256_overrun {S D : Type} `{MemInput S} `{MemOutput D} (input : S) (output : D) (fuel : nat) :
  bytes_ok (in_content input) -> in_valid input -> (length (in_content input) < fuel)%nat ->
  48 <= zlen (in_content input) mod 64 <= 55 ->
  encode fuel input output = Undef.
Proof.
  intros Hok Hv Hf Hlen.
  destruct (encode_blocks input fuel Hok Hv Hf) as
    (bs & tail & hash & r & rest & total & s' & Ec & Hbs & Ht & _ & E & _ & Hbuf & Hrest & _).
  destruct (tail_mod bs tail Hbs Ht) as [Hmod _]. rewrite <- Ec in Hmod. rewrite Hmod in Hlen.
  unfold encode. rewrite E, bind_Val. unfold encode_tail.
  rewrite (proj2 (Z.leb_le _ 55)), (proj2 (Z.leb_le 0 _)) by lia. cbn [andb].
  assert (u64 (4 * u64 (47 - zlen tail)) = 2 ^ 64 - 4 * (zlen tail - 47)) as ->.
  { unfold wrap. rewrite Zmult_mod_idemp_r. symmetry. apply (Z.mod_unique _ _ (-1)); lia. }
  unfold memset0. rewrite (proj2 (Z.leb_gt _ (zlen _))); [done|].
  rewrite zlen_app. unfold zlen in *. lia.
Qed.

Lemma sha256_overrun_witness :
  encode 49 (InputBufferWrapper.create (repeat 97 48) 48) (OutputBufferWrapper.fresh 32) = Undef.
Proof.
  apply (sha256_overrun (InputBufferWrapper.create (repeat 97 48) 48) (OutputBufferWrapper.fresh 32) 49).
  - apply bytes_ok_bool. reflexivity.
  - zeval.
  - vm_compute. lia.
  - zeval.
Defined.

(** The digest the code writes into a fresh buffer. *)
Definition digest_of (msg : bytes) : outcome bytes :=
  '(_, output) ← encode (S (length msg)) (InputBufferWrapper.create msg (zlen msg)) (OutputBufferWrapper.fresh 32);
  Val (out_content output).

(** When the last of several blocks holds 45 to 47 bytes, the bytes of the
    block before it show through the padding: the digest of 109 bytes [0xff] is
    not the SHA-256 of the message, nor is that of 110 or of 111 of them. *)
Theorem sha256_stale :
  Forall (fun n => exists d, digest_of (repeat 255 n) = Val d /\ length d = 32%nat /\
    d <> sha256 (repeat 255 n)) [109; 110; 111]%nat.
Proof.
  repeat constructor; eexists; (split; [vm_compute; reflexivity|]); (split; [reflexivity|]);
    vm_compute; discriminate.
Qed.

End SHA256.
